(* ===== verification/_CoqProject ===== *)
-Q . S2P
Prelude.v
RateLimit.v
RateSync.v
QuotaProps.v
ClaimLedger.v
LedgerSteps.v
SyncProps.v
StoreErr.v
LookupGuard.v
GuardProps.v
Objective.v
Common.v
Admission.v
Gateway.v
Identity.v
AdmissionProps.v
LadderProps.v
Classes.v
ClassProps.v
Tables.v
ClassStore.v
ClassStoreProps.v
ClassRuns.v
GoCache.v
KeyStore.v
KeyStoreLogic.v
KeyStoreWrites.v
KeyStoreUsers.v
KeyStoreProps.v
KeyStoreRaces.v
GatewayStore.v
KvSelect.v
KvSelectProps.v
KvInventory.v
KvEngines.v
KvEnginesProps.v
KvStream.v
KvStreamProps.v
KvBest.v
KvBestProps.v
KvOrder.v
KvSeedProps.v
KvBinding.v
KvBindingProps.v
KvContractProps.v
KvTokens.v
KvTokensProps.v
KvAttest.v
KvAttestProps.v
NetIdText.v
NetId.v
NetIdTextProps.v
NetIdProps.v
NetIdBoundProps.v
NetIdHolderProps.v
JsonTok.v
Jwt.v
JwtDecodeProps.v
JwtProps.v
Float64.v
Float64Order.v
AiCtrl.v
AiCtrlDecay.v
AiCtrlProps.v
AiCtrlRuns.v
AiCtrlSink.v
AiEngine.v
AiCostProps.v
AiEngineProps.v
AiLoopProps.v
AiServer.v
AiServerProps.v
AiMonitor.v
AiMonitorProps.v
