(* ===== verification/Prelude.v ===== *)
(** * The control core of the inference gateway

    loxilb-inference-gateway is an L4/L7 load balancer whose data plane, a C
    proxy over eBPF, asks Go code two questions per AI request: may this request
    be admitted and what does it cost, and which worker already holds its
    prefix.  This development models the Go code that answers, and the state
    the answers depend on.

    ** The parts and how they interact

    A request carries an API key, a bearer token or nothing but the network it
    comes from.  A bearer token is verified against the keys of the profile its
    rule names (pkg/jwtauth, pkg/loxinet/jwtauthprofile.go, ai_gateway_jwt.go);
    bindings give the requests of a network a tenant
    (pkg/loxinet/netidentity.go): they are compiled into a resolver, and the data
    plane is told for which services to ask it.  The exports of
    pkg/loxinet/ai_gateway_dp.go validate the key against the key store
    (pkg/aikey), walk a ladder of request-rate and token limits read from the
    same store, reserve tokens in the quota buckets (pkg/ratelimit) and, when
    the response ends, settle the reservation against what was used.  The class
    resolver (pkg/loxinet/ai_class.go) decides the priority class of a request
    from a snapshot of objectives and class policies that the key store
    refreshes and keeps in a file.  Nodes gossip the state of their buckets
    (pkg/loxinet/sockproxy_sync.go, pkg/ratelimit/ratelimit_sync.go) and tell
    each other which keys stopped being valid.  A guard
    (pkg/aikey/lookup_guard.go) stands between the data path and the store, and
    pkg/pgstore classifies what a failed statement may have done.

    For KV-aware routing the data plane sends the block hashes of a prompt to
    llb_ai_kv_best_worker (pkg/loxinet/ai_kv_subscriber.go).  Subscribers keep an
    inventory of block hashes per worker from the events the engines publish
    (ai_kv_wire_bindings.go, ai_kv_trtllm_source.go, pkg/enginecontract); the
    selector (ai_kv_unified.go) weighs overlap against load.  The ids behind the
    hashes come from the bridge and its tokenizer pool (ai_kv_dataplane.go,
    ai_kv_router.go, ai_kv_encode*.go).  A strict rule is bound to a profile and
    an engine contract under a generation (ai_kv_binding.go); a word in the data
    plane carries that generation and one bit, eligible, that the attestation
    controller alone may set (ai_kv_attest.go), after probes of every worker and
    the agreement of the cluster's peers (ai_kv_capability.go).

    A separate controller process weighs the workers by their declared
    throughput and streams snapshots of weights and states
    (pkg/aictrl/engine, cmd/loxilb-ai-controller); the gateway's applier
    (pkg/aictrl, pkg/loxinet/ai_ctrl_applier.go) validates each, writes it to
    the data plane within what local health allows, and lets its influence
    decay once the controller falls silent.

    ** Files and what they model

    Prelude: 64-bit integers with their wrap-around, strings, folds over maps,
    the tactics and hint databases.

    - Quota buckets.  RateLimit: pkg/ratelimit/ratelimit.go, burst.go
      ([tokenWindowEntry] and the limiter maps; the x/time/rate limiter is the
      class [RateLib]).  RateSync: ratelimit_sync.go and the push tick of
      sockproxy_sync.go.  QuotaProps, ClaimLedger and SyncProps hold their
      theorems, with each operation of a bucket one step.  LedgerSteps: the same
      operations as sequences of atomic accesses that goroutines interleave, and
      the ledger at that grain.
    - Store access.  StoreErr: pkg/pgstore/outcome.go and pgstore.go over an
      error as the sentinels errors.Is sees.  LookupGuard: lookup_guard.go;
      GuardProps its theorems.
    - Admission.  Common: the records of common/common.go and
      common/ai_reservation.go, and the classes [RateLimitService] and
      [ApiKeyValidator], which are the Go interfaces of the same names.
      Admission and Gateway: ai_gateway_dp.go, ai_default_reservation.go,
      ai_reservation_ledger.go and ai_gateway_policy.go.  Identity:
      ValidateQoSIdentity and the bucket keys.  AdmissionProps and LadderProps
      their theorems, proved against the two classes.
    - Classes.  Objective: common/ai_objective.go.  Classes: the validation and
      stored form of pkg/aikey/classes.go and class_patch.go, and the resolver,
      its export and its switch (ai_class.go, ai_class_dp.go,
      ai_class_config.go).  ClassStore: class_snapshot.go and
      class_lkg_limits.go.  ClassProps, ClassStoreProps and ClassRuns their
      theorems.
    - Key store.  Tables: the rows of schema.go and one definition per SQL
      statement of the package.  GoCache: the expiring cache as an interface
      with the laws its documentation promises, and an instance.  KeyStore:
      service.go, qos_ladder.go, key_patch.go, tx.go, invalidate.go and the
      store-backed part of classes.go and class_patch.go, as operations of a
      state and error monad on a [node] (service, tables, what the store does
      next, clock, disk); its instances of [RateLimitService] and
      [ApiKeyValidator] are what the gateway calls.  KeyStoreLogic,
      KeyStoreWrites and KeyStoreUsers: a weakest-precondition layer, the
      coherence invariant and the specification of every operation.
      KeyStoreProps: runs and the theorems.  KeyStoreRaces: a validation as its
      read of the store and its later write of the cache, with other operations
      in between.
    - Composition.  GatewayStore: the tables as a service, the simulation of it
      by the key store, and the admission ladder over both.
    - Network identity.  NetIdText: addresses, networks, services and names as
      text.  NetId: the normal form of a binding, the compiled snapshot and its
      lookup, the bound set, the holder with its commit, the gate's export and the
      refusals against kernel-carried rules (netidentity.go, netidentity_dp.go,
      netidentity_sockmap.go, common/netidentity.go); a commit gives what the data
      plane could observe after each effect.  NetIdTextProps, NetIdProps,
      NetIdBoundProps and NetIdHolderProps their theorems.
    - Bearer tokens.  JsonTok: the token stream of encoding/json and strict
      base64url.  Jwt: pkg/jwtauth (profiles, strict decoding, verification, claims,
      the key lifecycle with a heap of profile states that outlive their
      replacement), the configured profiles and the bearer arm of the gate.
      JwtDecodeProps and JwtProps their theorems, the latter over a step relation
      of configuration changes, goroutine moves and verifications.
    - Controller and applier.  Float64: Go's float64 on the Standard Library's
      executable IEEE specification, with the bounds rounding keeps; Float64Order
      its comparisons.  AiCtrl: pkg/aictrl (validation, decay, merge, session and
      ticks as a machine whose inputs interleave, reconnection).  AiCtrlSink: the
      sinks, endpoints, health and knobs of ai_ctrl_applier.go.  AiEngine:
      pkg/aictrl/engine (registry, fingerprints, TTFT model, decision engine,
      snapshot generator) and the tick of the controller's loop.  AiCtrlDecay,
      AiCtrlProps, AiCtrlRuns, AiCostProps (the cost terms are numbers),
      AiEngineProps and AiLoopProps their theorems; the last composes controller and applier.  AiMonitor: the controller's sample
      store, fingerprints, features, confidence factor and whole tick
      (cmd/loxilb-ai-controller/main.go, ttft_monitor.go).  AiServer: its snapshot
      server (server.go) as steps of the broadcast and of one handler per stream.
      AiMonitorProps and AiServerProps their theorems.
    - KV selection.  KvSelect: ai_kv_unified.go; KvSelectProps its theorems.
    - KV events.  KvInventory: the inventory, the msgpack values and the array
      and map decoders.  KvEngines: the compiled profiles, drain ownership and
      the TensorRT-LLM decoder; KvEnginesProps its theorems.  KvStream: the loop
      of one stream and the registry of subscribers; KvStreamProps its theorems.
      KvBest: the lookup from the C arguments to the answer, with the watchdog
      and cold-start seeding; KvBestProps, KvOrder and KvSeedProps its theorems.
    - KV bindings.  KvBinding: the binding store, the contract word, the install
      transaction as a machine of its critical sections, and the bridge's gate;
      KvBindingProps and KvContractProps their theorems.
    - Tokens.  KvTokens: the bounded text, the pool, the cache, the encoders and
      the completions bridge; KvTokensProps their theorems.
    - Attestation.  KvAttest: the controller over a world its dependencies act
      on, with a record of every outside call, its registry and the cluster
      gate; KvAttestProps their theorems, and the composition with the install
      transaction of KvBinding.

    ** What the theorems show

    - Spend is bounded by burst plus refill over every interval, limit changes
      included; the claims of a bucket are exactly the claims its callers hold,
      after every atomic access outside the windows in which a minute is being
      opened or turns, and examples of what those windows lose; reservations are all or
      nothing on one bucket and across the buckets of a request; releases
      restore, settlements return what was reserved, charges land once per
      bucket; retry times suffice; idle eviction is exact and can forgive debt.
    - No bucket key aliases another; peers that exchange state converge, in any
      order and with replays; a push catches a peer up, a delta push one that
      still has what it was sent; warm-up ends once.
    - An admitted request has no bucket in debt and an unknown limit never
      admits; every verdict of key validation; the guard keeps its bounds, lets
      one probe through, opens, recovers and ignores stale reports; failed
      writes and reads are classified soundly.
    - A request's class stays under every cap of its identity and is raised only
      by a grant; stored policies round-trip, patches update the fields they
      name; the snapshot in force never goes back under interleaved refreshes;
      a restart from the file serves what was last read.
    - The key store refines its tables: every read answers the query on the
      current tables or fails as its contract allows, every write applies its
      statements or nothing; a revoked or deleted key never validates again,
      here or on a peer that applied the invalidation, once the validations that
      had read its row before are over; a create happens once per
      client operation; admission over the key store admits only what admission
      over the tables admits.
    - A stored binding is a fixed point of its checks; a request resolves to the
      most specific binding, and the gate is answered with it uncut; a source never
      has two tenants, tunnels sharing an interface apart; the bound set is exact,
      and a change never shows the data plane a service bound that the snapshot in
      place does not know, nor drops what holds before and after; classes served
      are the stored ones.
    - The strict decoder ends, and accepts exactly the objects without repeated keys
      and within the depth bound; a token that verifies is signed by a key served
      at the address of the profile as it is configured now, within a day, is in
      its window and maps to identities no bucket key confuses; every verdict of
      the bearer arm, with 503 exactly where the gateway cannot judge; stored
      profiles and verifier never part.
    - The mode label is the one of the clock although the scalar is rounded; every
      word the applier writes instructs an endpoint that an accepted snapshot
      named and local health admits, with a weight between the snapshot's and
      neutral; silence ends in mode 0 for every service the snapshot in force
      instructs, for good; a service the controller drops keeps its instructions; a decision epoch moves
      no weight by more than its step; what the controller emits, the applier
      accepts; every stream carries the emissions in order and, once idle, the
      latest; acknowledgements are kept in order; the confidence factor is 0 or 1
      after five windows of one kind; a calibrated ratio is used exactly when the
      live capacity confirms it.
    - The selector never hands work to a worker over its capacity-weighted cap
      while one under it has the prefix, relief leaves no hotspot that could
      move, soft selection minimises its cost, and idle fleets get the plain
      argmax in every mode.  The answer of the lookup is a worker the masks
      allow that holds a block of the prompt, or a cold one that seeding is due
      to warm; in the load-aware modes it does not depend on map order, and a
      cold worker is seeded once per period.
    - An inventory is a bounded first-in first-out queue without repeats; after
      the startup replays and messages of its streams it holds only blocks the
      running publishers announced, if a restart shows; wrong wire families and partial
      batches are refused; translated TensorRT-LLM keys are the keys of the
      prompt; a drain fault stands until the engine announces a fresh cache.
    - Allocation of a generation terminates with a fresh one unless all are
      live; a live generation never changes its meaning; export and restore
      round-trip.  The install transaction always returns, and opens a rule
      exactly on a full acknowledgement; among other goroutines a fence falls
      only to the evidence of one attempt; an acknowledged word serves its
      binding for as long as it may travel.
    - The token cache is transparent, failed loads are rate limited, cut texts
      keep a prefix of the ids, and the bridge's errors have the class its
      callers rely on.
    - The published state of a controller tells what the data plane was last
      told; each eligible word was earned by a whole climb; a READY rule is
      degraded by fencing it first; over the install transaction a READY rule is
      open with the eligible word of its current binding, a faulted one denied;
      the cluster gate passes exactly when every peer has converged.

    ** Choices and bounds

    Go's int is 64 bits; arithmetic that can leave the range wraps ([i64],
    [u64], [u32]).  Loops over slices are structural recursions.  Definitions
    with fuel: [pushChunks] is given the number of entries, and each of its
    rounds sends at least one; [evictOver] the length of the order list, of
    which each round drops one; [nextGen] the number of live generations and
    one more, since that many candidates cannot all be live; [applyRun] six
    steps per attempt and two, which [attempts_run] shows to suffice; [decodeStrictValue] twice the
    tokens and one ([decode_progress]); the lexers of JsonTok the length of the text
    ([lexFrom_fuel]).  Times are integers (milliseconds in the buckets, nanoseconds in the
    guard, the key store, the bearer component and the applier).  Floats are
    binary64 and each operation rounds, as on amd64; the envelope theorem asks that
    the readings of an enabled cost term are finite, which the metrics parser
    ensures.  Operations under one lock or one atomic are one step; where the code
    can interleave (the accesses to a bucket, validations against revocations,
    guard reads, class refreshes, install transactions and registrations, event
    streams) the interleavings are a step relation.  The spend bound and the
    refinement of the key store take a bucket's operation and a store operation as
    one step each.  Probes, manifests and peers are functions of the
    controller's world, tokenizer backends and SHA-256 parameters.  The store is a script of
    outcomes: a statement is answered, or breaks with an error and was applied
    or not.  The refinement theorem of the key store speaks of failures the
    server did not apply, of a node that does not run from the file, and asks
    that user-limit writes name a model once and meet a store that answers: the
    examples at the end of KeyStoreProps and KeyStoreRaces show what happens
    otherwise.
    SHA-256, the random draws, map iteration order and the C buffers are
    arguments or results.

    ** Not modelled

    The L4 rule engine, the eBPF bindings, layer 2/3 state, BFD and cluster
    membership (their effects are kernel maps and sockets); the REST layer
    (generated code and conversions); chat templates (a Jinja interpreter) and
    the chat bridge; the engine-specific probes and the echo challenge, ZMQ and
    HTTP transports, msgpack parsing and the JSON of engine events, tokenizer backends and the
    loading of profiles from disk; signature checks, JWK parsing, URL parsing and
    the float conversion of a numeric claim (parameters of the bearer component);
    the endpoint picker; the scraping and parsing of metrics by the AI controller; DDL, DSN and connection set-up; log lines,
    metrics and audit records. *)

From stdpp Require Export base gmap strings list fin_maps sorting.
From Stdlib Require Export ZArith Lia.
From Stdlib Require Import Ascii String DecimalString.

Open Scope Z_scope.

(** ** Notations of the development *)

Declare Scope igw_scope.
Delimit Scope igw_scope with igw.

(** Boolean comparisons in the order the Go source writes them. *)
Notation "a >? b" := (Z.ltb b a) (at level 70, no associativity) : igw_scope.
Notation "a >=? b" := (Z.leb b a) (at level 70, no associativity) : igw_scope.
Notation "a ==? b" := (Z.eqb a b) (at level 70, no associativity) : igw_scope.
Notation "a !=? b" := (negb (Z.eqb a b)) (at level 70, no associativity) : igw_scope.
Notation "s ==s t" := (String.eqb s t) (at level 70, no associativity) : igw_scope.
Open Scope igw_scope.

(** ** Machine integers

    Go's [int] is 64 bits wide on the platforms the gateway is built for, so
    [int] and [int64] share one wrap-around. *)

Definition two63 : Z := 9223372036854775808.
Definition two64 : Z := 18446744073709551616.

Definition i64 (z : Z) : Z := (z + two63) mod two64 - two63.

Definition u64 (z : Z) : Z := z mod two64.

Arguments i64 : simpl never.
Arguments u64 : simpl never.

Definition in_i64 (z : Z) : Prop := - two63 <= z < two63.

Lemma i64_id z : in_i64 z -> i64 z = z.
Proof.
  unfold in_i64, i64, two63, two64. intros H.
  rewrite Z.mod_small; lia.
Qed.

Lemma i64_range z : in_i64 (i64 z).
Proof.
  unfold in_i64, i64, two63, two64.
  pose proof (Z.mod_pos_bound (z + 9223372036854775808) 18446744073709551616 ltac:(lia)).
  lia.
Qed.

Lemma u64_id z : 0 <= z < two64 -> u64 z = z.
Proof. unfold u64. apply Z.mod_small. Qed.

(** ** Tactics *)

(** Case analysis on the boolean integer comparison at the head of a
    conditional, with the corresponding inequality in the context. *)
Ltac zcase :=
  match goal with
  | |- context [if Z.ltb ?a ?b then _ else _] => destruct (Z.ltb_spec a b)
  | |- context [if Z.leb ?a ?b then _ else _] => destruct (Z.leb_spec a b)
  | |- context [if Z.eqb ?a ?b then _ else _] => destruct (Z.eqb_spec a b)
  | |- context [if negb (Z.eqb ?a ?b) then _ else _] => destruct (Z.eqb_spec a b); cbn [negb]
  end.

Ltac zcase_in H :=
  match type of H with
  | context [if Z.ltb ?a ?b then _ else _] => destruct (Z.ltb_spec a b)
  | context [if Z.leb ?a ?b then _ else _] => destruct (Z.leb_spec a b)
  | context [if Z.eqb ?a ?b then _ else _] => destruct (Z.eqb_spec a b)
  | context [if negb (Z.eqb ?a ?b) then _ else _] => destruct (Z.eqb_spec a b); cbn [negb] in H
  end.

(** Remove a wrap-around whose argument is in range. *)
Ltac nowrap :=
  repeat match goal with
  | |- context [i64 ?z] => rewrite (i64_id z) by (unfold in_i64, two63 in *; nia)
  end.

Ltac split_bools :=
  repeat match goal with
  | H : andb _ _ = true |- _ => apply andb_true_iff in H; destruct H
  | H : orb _ _ = false |- _ => apply orb_false_iff in H; destruct H
  | H : negb _ = true |- _ => apply negb_true_iff in H
  | H : negb _ = false |- _ => apply negb_false_iff in H
  | H : Z.ltb _ _ = true |- _ => apply Z.ltb_lt in H
  | H : Z.ltb _ _ = false |- _ => apply Z.ltb_ge in H
  | H : Z.leb _ _ = true |- _ => apply Z.leb_le in H
  | H : Z.leb _ _ = false |- _ => apply Z.leb_gt in H
  | H : Z.eqb _ _ = true |- _ => apply Z.eqb_eq in H
  | H : Z.eqb _ _ = false |- _ => apply Z.eqb_neq in H
  | H : String.eqb _ _ = true |- _ => apply String.eqb_eq in H
  | H : String.eqb _ _ = false |- _ => apply String.eqb_neq in H
  end.

(** ** Division with truncation *)

Create HintDb igw.
Create Rewrite HintDb igw.

Lemma quot_floor a b : 0 <= a -> 0 < b -> Z.quot a b = a / b.
Proof. intros. apply Z.quot_div_nonneg; lia. Qed.

(** Rounding up by [(a + b - 1) / b]: the least [q] with [a <= q * b]. *)
Lemma ceil_div_spec a b :
  0 <= a -> 0 < b ->
  let q := Z.quot (a + b - 1) b in a <= q * b < a + b.
Proof.
  intros Ha Hb q. unfold q. rewrite quot_floor by lia.
  pose proof (Z.div_mod (a + b - 1) b ltac:(lia)).
  pose proof (Z.mod_pos_bound (a + b - 1) b ltac:(lia)). nia.
Qed.

Lemma floor_div_spec a b :
  0 <= a -> 0 < b -> let q := Z.quot a b in q * b <= a < q * b + b.
Proof.
  intros Ha Hb q. unfold q. rewrite quot_floor by lia.
  pose proof (Z.div_mod a b ltac:(lia)).
  pose proof (Z.mod_pos_bound a b ltac:(lia)). nia.
Qed.

Lemma quot_nonneg a b : 0 <= a -> 0 < b -> 0 <= Z.quot a b.
Proof. intros. apply Z.quot_pos; lia. Qed.

Lemma sumZ_app (l1 l2 : list Z) :
  foldr Z.add 0 (l1 ++ l2) = foldr Z.add 0 l1 + foldr Z.add 0 l2.
Proof. induction l1; simpl; lia. Qed.

Lemma sumZ_perm (l1 l2 : list Z) :
  l1 ≡ₚ l2 -> foldr Z.add 0 l1 = foldr Z.add 0 l2.
Proof. induction 1; simpl; lia. Qed.

#[export] Hint Resolve quot_nonneg i64_range : igw.

(** ** Strings as the Go standard library reads them *)

Definition HasPrefix (s p : string) : bool := String.prefix p s.

(** [strings.CutPrefix]: the rest after the prefix, or nothing. *)
Fixpoint CutPrefix (s p : string) {struct p} : option string :=
  match p, s with
  | EmptyString, _ => Some s
  | String a p', String b s' => if Ascii.eqb a b then CutPrefix s' p' else None
  | String _ _, EmptyString => None
  end.

(** [strings.TrimPrefix]. *)
Definition TrimPrefix (s p : string) : string :=
  match CutPrefix s p with Some r => r | None => s end.

Definition pipe : ascii := "|"%char.

(** [strings.Contains s "|"], and its general one-byte form. *)
Fixpoint ContainsByte (c : ascii) (s : string) : bool :=
  match s with
  | EmptyString => false
  | String a s' => Ascii.eqb a c || ContainsByte c s'
  end.

(** [strings.Split] on a one-byte separator: always at least one field. *)
Fixpoint SplitByte (c : ascii) (s : string) : list string :=
  match s with
  | EmptyString => [EmptyString]
  | String a s' =>
      if Ascii.eqb a c then EmptyString :: SplitByte c s'
      else match SplitByte c s' with
           | f :: fs => String a f :: fs
           | [] => [String a EmptyString]
           end
  end.

(** [strings.IndexByte] as a split at the first occurrence. *)
Fixpoint CutByte (c : ascii) (s : string) : option (string * string) :=
  match s with
  | EmptyString => None
  | String a s' =>
      if Ascii.eqb a c then Some (EmptyString, s')
      else match CutByte c s' with
           | Some (l, r) => Some (String a l, r)
           | None => None
           end
  end.

Lemma prefix_app p s : HasPrefix (p +:+ s) p = true.
Proof.
  unfold HasPrefix. induction p as [|a p IH]; [by destruct s|].
  simpl. rewrite IH. by destruct (ascii_dec a a).
Qed.

Lemma CutPrefix_app p s : CutPrefix (p +:+ s) p = Some s.
Proof. induction p as [|a p IH]; [by destruct s|]. simpl. by rewrite Ascii.eqb_refl. Qed.

Lemma CutPrefix_Some s p r : CutPrefix s p = Some r -> s = p +:+ r.
Proof.
  revert s. induction p as [|a p IH]; intros s; simpl; [by intros [= ->]|].
  destruct s as [|b s]; [done|].
  destruct (Ascii.eqb_spec a b) as [->|]; [|congruence].
  intros H. apply IH in H. by subst.
Qed.

Lemma HasPrefix_spec s p : HasPrefix s p = true <-> exists r, s = p +:+ r.
Proof.
  split; [|intros [r ->]; apply prefix_app].
  revert s. induction p as [|a p IH]; intros s; [by exists s|].
  destruct s as [|b s]; unfold HasPrefix; simpl; [done|].
  destruct (ascii_dec a b) as [->|]; [|done].
  intros [r ->]%IH. by exists r.
Qed.

Lemma string_app_inj_l p s t : p +:+ s = p +:+ t -> s = t.
Proof. induction p; simpl; [done|]. intros [=]. auto. Qed.

Lemma ContainsByte_app c s t :
  ContainsByte c (s +:+ t) = ContainsByte c s || ContainsByte c t.
Proof. induction s; simpl; [done|]. rewrite IHs. by rewrite orb_assoc. Qed.

(** A delimiter that occurs in neither left part splits uniquely. *)
Lemma delim_inj c s t s' t' :
  ContainsByte c s = false -> ContainsByte c s' = false ->
  s +:+ String c t = s' +:+ String c t' -> s = s' /\ t = t'.
Proof.
  revert s'. induction s as [|a s IH]; intros [|b s']; simpl; intros Hs Hs' Heq.
  - by simplify_eq.
  - simplify_eq. by rewrite Ascii.eqb_refl in Hs'.
  - simplify_eq. by rewrite Ascii.eqb_refl in Hs.
  - apply orb_false_iff in Hs as [_ Hs]. apply orb_false_iff in Hs' as [_ Hs'].
    injection Heq as -> Heq. destruct (IH s' Hs Hs' Heq) as [-> ->]. done.
Qed.

Lemma ContainsByte_mid c s t : ContainsByte c (s +:+ String c t) = true.
Proof. rewrite ContainsByte_app. simpl. by rewrite Ascii.eqb_refl, orb_true_r. Qed.

Lemma SplitByte_plain c s : ContainsByte c s = false -> SplitByte c s = [s].
Proof.
  induction s as [|a s IH]; simpl; [done|].
  destruct (Ascii.eqb a c); simpl; [done|]. intros H. by rewrite (IH H).
Qed.

Lemma SplitByte_cons c s t :
  ContainsByte c s = false -> SplitByte c (s +:+ String c t) = s :: SplitByte c t.
Proof.
  induction s as [|a s IH]; simpl; [by rewrite Ascii.eqb_refl|].
  destruct (Ascii.eqb a c); simpl; [done|]. intros H. by rewrite (IH H).
Qed.

Lemma CutByte_None c s : CutByte c s = None <-> ContainsByte c s = false.
Proof.
  induction s as [|a s IH]; simpl; [done|].
  destruct (Ascii.eqb a c); simpl; [done|].
  destruct (CutByte c s) as [[??]|]; split; intros H; try done; [|by apply IH].
  by apply IH in H.
Qed.

Lemma CutByte_app c s t :
  ContainsByte c s = false -> CutByte c (s +:+ String c t) = Some (s, t).
Proof.
  induction s as [|a s IH]; simpl; [by rewrite Ascii.eqb_refl|].
  destruct (Ascii.eqb a c); simpl; [done|]. intros H. by rewrite (IH H).
Qed.

(** ** [strconv.ParseInt s 10 64] and [strconv.Atoi]

    An optional sign, then at least one decimal digit; a value outside the
    64-bit range is an error. *)

Definition digit_of (a : ascii) : option Z :=
  let n := Z.of_nat (nat_of_ascii a) in
  if (48 <=? n) && (n <=? 57) then Some (n - 48) else None.

Fixpoint parse_digits (acc : Z) (s : string) : option Z :=
  match s with
  | EmptyString => Some acc
  | String a s' =>
      match digit_of a with
      | Some d => parse_digits (acc * 10 + d) s'
      | None => None
      end
  end.

Definition ParseInt (s : string) : option Z :=
  let body (neg : bool) (d : string) :=
    match d with
    | EmptyString => None
    | _ => match parse_digits 0 d with
           | Some v =>
               let v := if neg then - v else v in
               if (- two63 <=? v) && (v <? two63) then Some v else None
           | None => None
           end
    end in
  match s with
  | String "-"%char d => body true d
  | String "+"%char d => body false d
  | d => body false d
  end.

(** [strconv.ParseUint s 10 64]: decimal digits only, at most 64 bits. *)
Definition ParseUint (s : string) : option Z :=
  match s with
  | EmptyString => None
  | _ => match parse_digits 0 s with
         | Some v => if v <? two64 then Some v else None
         | None => None
         end
  end.

(** [strconv.Itoa] and [%d] of a natural number. *)
Definition fmtD (n : Z) : string := NilZero.string_of_uint (N.to_uint (Z.to_N n)).

(** [strings.TrimSpace] on ASCII text. *)
Definition isSpace (c : ascii) : bool :=
  let n := nat_of_ascii c in Nat.eqb n 32 || (Nat.leb 9 n && Nat.leb n 13).

Fixpoint trimLeft (s : string) : string :=
  match s with
  | String c s' => if isSpace c then trimLeft s' else s
  | EmptyString => s
  end.

Fixpoint trimRight (s : string) : string :=
  match s with
  | EmptyString => EmptyString
  | String c s' =>
      match trimRight s' with
      | EmptyString => if isSpace c then EmptyString else String c EmptyString
      | r => String c r
      end
  end.

Definition TrimSpace (s : string) : string := trimRight (trimLeft s).

(** ** List lemmas *)

Lemma NoDup_filter_bool {A} (f : A -> bool) (l : list A) :
  NoDup l -> NoDup (List.filter f l).
Proof.
  induction 1 as [|x l Hx Hl IH]; simpl; [constructor|].
  destruct (f x); [|done]. constructor; [|done].
  rewrite list_elem_of_In. intros [Hin _]%List.filter_In.
  by apply Hx, list_elem_of_In.
Qed.

(** ** Reachability *)

Section Reach.
Context {S : Type} (step : S -> S -> Prop).

(** An invariant that holds initially and is preserved by every step holds in
    every reachable state. *)
Lemma rtc_invariant (P : S -> Prop) s t :
  (forall a b, P a -> step a b -> P b) -> P s -> rtc step s t -> P t.
Proof. intros Hstep Hs H. induction H; eauto. Qed.
End Reach.

(** ** Folds of commuting idempotent updates

    The state after a batch depends only on the set of its elements. *)
Section SetFold.
Context {A B : Type} (f : A -> B -> B).
Context (f_comm : forall x y s, f x (f y s) = f y (f x s)).
Context (f_idem : forall x s, f x (f x s) = f x s).

Lemma foldr_push x l s : foldr f (f x s) l = f x (foldr f s l).
Proof. induction l as [|y l IH]; simpl; [done|]. by rewrite IH, f_comm. Qed.

Lemma foldr_absorb x l s : x ∈ l -> f x (foldr f s l) = foldr f s l.
Proof.
  induction 1 as [x l|x y l H IH]; simpl; [by rewrite f_idem|].
  by rewrite f_comm, IH.
Qed.

Lemma foldr_absorb_all l1 l2 s :
  (forall x, x ∈ l1 -> x ∈ l2) -> foldr f s (l1 ++ l2) = foldr f s l2.
Proof.
  induction l1 as [|x l1 IH]; intros H; simpl; [done|].
  rewrite IH by (intros; apply H; set_solver).
  apply foldr_absorb, H. set_solver.
Qed.

Lemma foldr_app_comm l1 l2 s : foldr f s (l1 ++ l2) = foldr f s (l2 ++ l1).
Proof.
  rewrite !foldr_app. revert s. induction l1 as [|x l1 IH]; intros s; simpl; [done|].
  by rewrite IH, <- foldr_push.
Qed.

Lemma foldr_same_elements l1 l2 s :
  (forall x, x ∈ l1 <-> x ∈ l2) -> foldr f s l1 = foldr f s l2.
Proof.
  intros H. rewrite <- (foldr_absorb_all l2 l1 s) by (intros; by apply H).
  rewrite foldr_app_comm. apply foldr_absorb_all. intros. by apply H.
Qed.
End SetFold.

(** ** Maps built by a loop of assignments *)

Section foldl_insert.
  Context {A V : Type} `{Countable K} (k : A -> K) (v : A -> V).
  Implicit Types (l : list A) (m : gmap K V).

Lemma foldl_insert_ne l m i : (forall x, x ∈ l -> k x <> i) ->
    foldl (fun m x => <[k x := v x]> m) m l !! i = m !! i.
  Proof.
    revert m. induction l as [|x l IH]; intros m Hi; [done|]. simpl.
    rewrite IH by set_solver. apply lookup_insert_ne. set_solver.
  Qed.

  (** Elements with one key agree, so the last assignment is any of them. *)
Lemma foldl_insert_elem l m x : (forall y z, y ∈ l -> z ∈ l -> k y = k z -> v y = v z) -> x ∈ l ->
    foldl (fun m x => <[k x := v x]> m) m l !! k x = Some (v x).
  Proof.
    revert m x. induction l as [|y l IH]; intros m x Hinj Hx; [by apply not_elem_of_nil in Hx|]. simpl.
    destruct (decide (Exists (fun z => k z = k x) l)) as [(z & Hz & E)%Exists_exists|Hn].
    - rewrite <- E, IH by set_solver. f_equal. apply Hinj; set_solver.
    - apply elem_of_cons in Hx as [->|Hx].
      + rewrite foldl_insert_ne; [by rewrite lookup_insert_eq|]. intros z Hz E. apply Hn, Exists_exists. eauto.
      + exfalso. apply Hn, Exists_exists. eauto.
  Qed.
End foldl_insert.

(** Strings with one delimiter-free half determine both halves, in the form the
    composite cache keys are written. *)
Lemma pipe_inj s t s' t' :
  ContainsByte pipe s = false -> ContainsByte pipe s' = false ->
  s +:+ "|" +:+ t = s' +:+ "|" +:+ t' -> s = s' /\ t = t'.
Proof. apply delim_inj. Qed.

(** ** First claims *)

Section Claims.
Context {St A B : Type} (obs : St -> option B) (step : St -> A -> St) (val : A -> option B).
Hypothesis step_obs : forall s x, obs (step s x) = match obs s with Some y => Some y | None => val x end.

(** When every step fills an empty place and keeps a full one, the first claim
    in order is what a run leaves there. *)
Lemma fold_claims l s : obs (foldl step s l) = match obs s with Some y => Some y | None => head (omap val l) end.
Proof.
  revert s. induction l as [|x l IH]; intros s; cbn; [by destruct (obs s)|]. rewrite IH, step_obs. by destruct (obs s), (val x).
Qed.
End Claims.

Lemma head_omap_const {A B} (c : A -> bool) (b : B) l : head (omap (fun x => if c x then Some b else None) l) = if existsb c l then Some b else None.
Proof. induction l as [|x l IH]; [done|]. cbn. destruct (c x); [done|]. exact IH. Qed.

Lemma existsb_andb {A} (p : A -> bool) (c : bool) l : existsb (fun x => p x && c) l = existsb p l && c.
Proof. induction l as [|x l IH]; [done|]. cbn. rewrite IH. by destruct (p x), (existsb p l), c. Qed.

Lemma head_omap_find {A B} (c : A -> bool) (f : A -> B) l : head (omap (fun x => if c x then Some (f x) else None) l) = f <$> List.find c l.
Proof. induction l as [|x l IH]; [done|]. cbn. destruct (c x); [done|]. exact IH. Qed.
