(* ===== verification/RateLimit.v ===== *)
(** * RateLimit: the token-bucket store of pkg/ratelimit

    Models pkg/ratelimit/ratelimit.go and burst.go: the smooth token-quota
    buckets ([tokenWindowEntry], kept in virtual-drain-time form), the
    reservations held on them, the request-rate limiters, the cold-start
    warm-up and the idle eviction.  Peer synchronisation is in RateSync.

    Every operation is a function from the store to a result and the store
    after it: its accesses run together here.  LedgerSteps models the same
    operations one atomic access at a time, any number of goroutines at once.  The two
    coarse clocks and the two environment knobs are the record [quotaEnv],
    passed to the operations that read them.  The limiter of
    golang.org/x/time/rate is the interface [RateLib]. *)

From S2P Require Import Prelude.

Open Scope Z_scope.
Open Scope igw_scope.

(** ** Constants *)

Definition cleanupInactiveAfter : Z := 600 * 1000000000. (* ns *)
Definition epochSeconds : Z := 60.
Definition quotaEvictFloorWindows : Z := 2.
Definition quotaEvictDefaultWindows : Z := 10.
Definition quotaBurstDefaultPct : Z := 100.
Definition quotaBurstMinPct : Z := 1.
Definition quotaBurstMaxPct : Z := 1000.
Definition msPerMinute : Z := 60000.

(** ** Process-wide quota state: the resolved knobs and the coarse clocks *)

Record quotaEnv := QuotaEnv {
  quotaEvictAfterWindows : Z;
  quotaBurstPct : Z;
  currentQuotaEpoch : Z;
  quotaNowMs : Z
}.

(** One tick of the clock goroutine: both clocks from the same reading. *)
Definition clockTick (unixMs : Z) (env : quotaEnv) : quotaEnv :=
  QuotaEnv (quotaEvictAfterWindows env) (quotaBurstPct env)
    (Z.quot (Z.div unixMs 1000) epochSeconds) unixMs.

(** [init]: the knobs from the environment, clamped, and the first reading. *)
Definition initQuotaEnv (getenv : string -> string) (unixMs : Z) : quotaEnv :=
  let evict :=
    match getenv "LLB_AI_QUOTA_EVICT_WINDOWS" with
    | EmptyString => quotaEvictDefaultWindows
    | v => match ParseInt v with
           | Some n => Z.max n quotaEvictFloorWindows
           | None => quotaEvictDefaultWindows
           end
    end in
  let pct :=
    match getenv "LLB_AI_QUOTA_BURST_PCT" with
    | EmptyString => quotaBurstDefaultPct
    | v => match ParseInt v with
           | Some n => Z.min (Z.max n quotaBurstMinPct) quotaBurstMaxPct
           | None => quotaBurstDefaultPct
           end
    end in
  clockTick unixMs (QuotaEnv evict pct 0 0).

(** ** Bucket arithmetic, at 64 bits *)

Definition burstTokensFor (env : quotaEnv) (limit pct : Z) : Z :=
  let pct := if pct <=? 0 then quotaBurstPct env
             else Z.min (Z.max pct quotaBurstMinPct) quotaBurstMaxPct in
  Z.max (Z.quot (i64 (limit * pct)) 100) 1.

Definition refillCeilMs (tokens limit : Z) : Z :=
  Z.quot (i64 (i64 (i64 (tokens * msPerMinute) + limit) - 1)) limit.

Definition debtTokensOf (tatMs nowMs limit : Z) : Z :=
  if tatMs <=? nowMs then 0
  else Z.quot (i64 (i64 (tatMs - nowMs) * limit)) msPerMinute.

Definition BurstTokens (env : quotaEnv) (tokensPerMin burstPct : Z) : Z :=
  if tokensPerMin <=? 0 then 0 else burstTokensFor env tokensPerMin burstPct.

(** ** One quota bucket *)

Record tokenWindowEntry := Entry {
  windowEpoch : Z;
  tatMs : Z;
  reserved : Z;
  claims : Z;
  reservedEpoch : Z;
  limitTokens : Z;
  burstPct : Z
}.

Definition zeroEntry : tokenWindowEntry := Entry 0 0 0 0 0 0 0.

#[export] Instance tokenWindowEntry_eq_dec : EqDecision tokenWindowEntry.
Proof. solve_decision. Defined.

Definition setWindowEpoch (v : Z) (e : tokenWindowEntry) : tokenWindowEntry :=
  Entry v (tatMs e) (reserved e) (claims e) (reservedEpoch e) (limitTokens e) (burstPct e).
Definition setTat (v : Z) (e : tokenWindowEntry) : tokenWindowEntry :=
  Entry (windowEpoch e) v (reserved e) (claims e) (reservedEpoch e) (limitTokens e) (burstPct e).
Definition setReserved (v : Z) (e : tokenWindowEntry) : tokenWindowEntry :=
  Entry (windowEpoch e) (tatMs e) v (claims e) (reservedEpoch e) (limitTokens e) (burstPct e).
Definition setClaims (v : Z) (e : tokenWindowEntry) : tokenWindowEntry :=
  Entry (windowEpoch e) (tatMs e) (reserved e) v (reservedEpoch e) (limitTokens e) (burstPct e).
Definition setReservedEpoch (v : Z) (e : tokenWindowEntry) : tokenWindowEntry :=
  Entry (windowEpoch e) (tatMs e) (reserved e) (claims e) v (limitTokens e) (burstPct e).
(** The two configuration words every charge and reservation publishes. *)
Definition publish (limit bp : Z) (e : tokenWindowEntry) : tokenWindowEntry :=
  Entry (windowEpoch e) (tatMs e) (reserved e) (claims e) (reservedEpoch e) limit bp.

(** Stamp both minute markers; the winner of the node-local one expires the
    previous minute's reservations. *)
Definition touchQuotaEpoch (env : quotaEnv) (e : tokenWindowEntry) : tokenWindowEntry :=
  let epoch := currentQuotaEpoch env in
  let e := if epoch >? windowEpoch e then setWindowEpoch epoch e else e in
  if epoch >? reservedEpoch e
  then setClaims 0 (setReserved 0 (setReservedEpoch epoch e))
  else e.

Definition chargeTat (e : tokenWindowEntry) (count limit nowMs : Z) : tokenWindowEntry * Z :=
  let inc := refillCeilMs count limit in
  let next := i64 (Z.max (tatMs e) nowMs + inc) in
  (setTat next e, next).

Definition reservedSubClamp (e : tokenWindowEntry) (amt : Z) : tokenWindowEntry :=
  let next := i64 (reserved e - amt) in
  setReserved (if next <? 0 then 0 else next) e.

Definition claimsSubClamp (e : tokenWindowEntry) : tokenWindowEntry :=
  if claims e <=? 0 then e else setClaims (i64 (claims e - 1)) e.

(** The body of [AllowTokens] once the entry is loaded. *)
Definition allowEntry (env : quotaEnv) (count limit bp : Z) (e : tokenWindowEntry)
  : (bool * Z) * tokenWindowEntry :=
  let e := touchQuotaEpoch env (publish limit bp e) in
  let now := quotaNowMs env in
  let '(e, newTat) := chargeTat e count limit now in
  let burstMs := refillCeilMs (burstTokensFor env limit bp) limit in
  let debtMs := i64 (newTat - now) in
  if debtMs >? burstMs then
    let retry := Z.min (Z.quot (i64 (i64 (debtMs - burstMs) + 999)) 1000) epochSeconds in
    ((false, Z.max retry 1), e)
  else ((true, 0), e).

(** Seconds advised to a refused reservation. *)
Definition reserveRetry (deficit limit : Z) : Z :=
  Z.max (Z.min (Z.quot (i64 (i64 (i64 (deficit * 60) + limit) - 1)) limit) epochSeconds) 1.

(** The body of [ReserveTokens] once the entry is loaded. *)
Definition reserveEntry (env : quotaEnv) (want limit bp : Z) (e : tokenWindowEntry)
  : (bool * Z * Z) * tokenWindowEntry :=
  let e := touchQuotaEpoch env (publish limit bp e) in
  let burst := burstTokensFor env limit bp in
  if want >? burst then ((false, epochSeconds, 0), e)
  else
    let level := i64 (burst - debtTokensOf (tatMs e) (quotaNowMs env) limit) in
    let newReserved := i64 (reserved e + want) in
    let e := setReserved newReserved e in
    if newReserved >? level then
      let e := reservedSubClamp e want in
      ((false, reserveRetry (i64 (newReserved - level)) limit, 0), e)
    else ((true, 0, currentQuotaEpoch env), setClaims (i64 (claims e + 1)) e).

(** The body of [ReserveTokensElastic] with a positive elastic part, once the
    entry is loaded: (allowed, retry, epoch, granted). *)
Definition reserveElasticEntry (env : quotaEnv) (firm elastic limit bp : Z)
  (e : tokenWindowEntry) : (bool * Z * Z * Z) * tokenWindowEntry :=
  let e := touchQuotaEpoch env (publish limit bp e) in
  let burst := burstTokensFor env limit bp in
  if firm >? burst then ((false, epochSeconds, 0, 0), e)
  else
    let el := Z.min elastic (i64 (burst - firm)) in
    let level := i64 (burst - debtTokensOf (tatMs e) (quotaNowMs env) limit) in
    let want := i64 (firm + el) in
    let newReserved := i64 (reserved e + want) in
    let e := setReserved newReserved e in
    let over := i64 (newReserved - level) in
    let finish (el : Z) (e : tokenWindowEntry) :=
      if i64 (firm + el) ==? 0 then ((true, 0, 0, 0), e)
      else ((true, 0, currentQuotaEpoch env, i64 (firm + el)),
            setClaims (i64 (claims e + 1)) e) in
    if over >? 0 then
      if over >? el then
        ((false, reserveRetry (i64 (over - el)) limit, 0, 0), reservedSubClamp e want)
      else finish (i64 (el - over)) (reservedSubClamp e over)
    else finish el e.

(** Release of a whole claim, and of part of one, under the epoch guard. *)
Definition releaseEntry (amt resEpoch : Z) (e : tokenWindowEntry) : tokenWindowEntry :=
  if reservedEpoch e !=? resEpoch then e
  else claimsSubClamp (reservedSubClamp e amt).

Definition trimEntry (amt resEpoch : Z) (e : tokenWindowEntry) : tokenWindowEntry :=
  if reservedEpoch e !=? resEpoch then e else reservedSubClamp e amt.

Definition exceededEntry (env : quotaEnv) (e : tokenWindowEntry) : bool :=
  if limitTokens e <=? 0 then false
  else
    let burstMs := refillCeilMs (burstTokensFor env (limitTokens e) (burstPct e)) (limitTokens e) in
    i64 (tatMs e - quotaNowMs env) >? burstMs.

Arguments burstTokensFor : simpl never.
Arguments refillCeilMs : simpl never.
Arguments debtTokensOf : simpl never.
Arguments touchQuotaEpoch : simpl never.
Arguments reserveRetry : simpl never.
Arguments allowEntry : simpl never.
Arguments reserveEntry : simpl never.
Arguments reserveElasticEntry : simpl never.
Arguments releaseEntry : simpl never.
Arguments trimEntry : simpl never.
Arguments exceededEntry : simpl never.
Arguments reservedSubClamp : simpl never.
Arguments claimsSubClamp : simpl never.

(** ** The limiter library and the store *)

(** golang.org/x/time/rate: a fresh limiter, a reservation of one event at a
    time (whether it can ever be granted, the delay in nanoseconds, and the
    limiter holding it), and its cancellation. *)
Class RateLib := {
  Limiter : Type;
  NewLimiter : Z -> Z -> Limiter;
  Reserve : Z -> Limiter -> (bool * Z) * Limiter;
  CancelReservation : Z -> Limiter -> Limiter
}.

Section Store.
Context {RL : RateLib}.

Record limiterEntry := LimEntry {
  limiter : Limiter;
  rps : Z;
  burst : Z;
  lastAccess : Z
}.

(** [warmDone] is whether a callback is registered; [warmCalls] is what it has
    been invoked with, oldest first. *)
Record RateLimiterStore := Store {
  entries : gmap string limiterEntry;
  quotaMap : gmap string tokenWindowEntry;
  warmState : Z;
  warmDone : bool;
  warmCalls : list bool
}.

Definition quotaWarm : Z := 0.
Definition quotaWarming : Z := 1.

Definition New : RateLimiterStore := Store ∅ ∅ quotaWarm false [].

Definition setEntries (m : gmap string limiterEntry) (s : RateLimiterStore) : RateLimiterStore :=
  Store m (quotaMap s) (warmState s) (warmDone s) (warmCalls s).
Definition setQuotaMap (m : gmap string tokenWindowEntry) (s : RateLimiterStore) : RateLimiterStore :=
  Store (entries s) m (warmState s) (warmDone s) (warmCalls s).

(** [quotaMap.Load], then [LoadOrStore] of a zero entry: the entry a call works on. *)
Definition loadOrStore (s : RateLimiterStore) (key : string) : tokenWindowEntry :=
  default zeroEntry (quotaMap s !! key).

Definition putEntry (key : string) (e : tokenWindowEntry) (s : RateLimiterStore) : RateLimiterStore :=
  setQuotaMap (<[key := e]> (quotaMap s)) s.

#[global] Arguments loadOrStore : simpl never.
#[global] Arguments putEntry : simpl never.

(** *** Cold-start warm-up *)

(** The deadline timer the source arms calls [endQuotaWarmup true] later; it is
    an event of its own in the traces below. *)
Definition StartQuotaWarmup (timeout : Z) (hasCallback : bool) (s : RateLimiterStore) : RateLimiterStore :=
  if timeout <=? 0 then s
  else Store (entries s) (quotaMap s) quotaWarming hasCallback (warmCalls s).

Definition QuotaWarming (s : RateLimiterStore) : bool := warmState s ==? quotaWarming.

Definition endQuotaWarmup (failOpen : bool) (s : RateLimiterStore) : RateLimiterStore :=
  if warmState s !=? quotaWarming then s
  else Store (entries s) (quotaMap s) quotaWarm (warmDone s)
         (if warmDone s then warmCalls s ++ [failOpen] else warmCalls s).

(** *** Bucket keys *)

Definition UserRPSKey (tenantID userID : string) : string := "u:" +:+ tenantID +:+ "|" +:+ userID.
Definition UserQuotaKey (tenantID userID : string) : string := "uq:" +:+ tenantID +:+ "|" +:+ userID.
Definition UserModelQuotaKey (tenantID userID model : string) : string :=
  "um:" +:+ tenantID +:+ "|" +:+ userID +:+ "|" +:+ model.
Definition KeyQuotaKey (keyID : string) : string := "kq:" +:+ keyID.
Definition VipSharedQuotaKey (svcIdent : string) : string := "v:" +:+ svcIdent.

(** *** Request-rate checks *)

Definition check (now : Z) (id : string) (rps' burst' : Z) (s : RateLimiterStore)
  : (bool * Z) * RateLimiterStore :=
  let fresh := LimEntry (NewLimiter rps' burst') rps' burst' 0 in
  let e :=
    match entries s !! id with
    | Some e => if (rps e !=? rps') || (burst e !=? burst') then fresh else e
    | None => fresh
    end in
  let '((ok, delay), lim) := Reserve now (limiter e) in
  let put l := setEntries (<[id := LimEntry l (rps e) (burst e) now]> (entries s)) s in
  if negb ok then ((false, 1), put lim)
  else if delay >? 0 then
    ((false, Z.max (Z.quot (delay + 999999999) 1000000000) 1), put (CancelReservation now lim))
  else ((true, 0), put lim).

Definition update (now : Z) (id : string) (rps' burst' : Z) (s : RateLimiterStore) : RateLimiterStore :=
  setEntries (<[id := LimEntry (NewLimiter rps' burst') rps' burst' now]> (entries s)) s.

Definition CheckKey (now : Z) (keyID : string) (rps' burst' : Z) (s : RateLimiterStore)
  : (bool * Z) * RateLimiterStore :=
  if rps' <=? 0 then ((true, 0), s)
  else check now ("k:" +:+ keyID) rps' (if burst' <=? 0 then rps' else burst') s.

Definition CheckUser (now : Z) (tenantID userID : string) (rps' burst' : Z) (s : RateLimiterStore)
  : (bool * Z) * RateLimiterStore :=
  if (rps' <=? 0) || (userID ==s "") then ((true, 0), s)
  else check now (UserRPSKey tenantID userID) rps' (if burst' <=? 0 then rps' else burst') s.

Definition UpdateUser (now : Z) (tenantID userID : string) (rps' burst' : Z) (s : RateLimiterStore)
  : RateLimiterStore :=
  if userID ==s "" then s
  else update now (UserRPSKey tenantID userID) rps' (if burst' <=? 0 then rps' else burst') s.

Definition CheckVipShared (now : Z) (svcIdent : string) (rps' : Z) (s : RateLimiterStore)
  : (bool * Z) * RateLimiterStore :=
  if (rps' <=? 0) || (svcIdent ==s "") then ((true, 0), s)
  else check now (VipSharedQuotaKey svcIdent) rps' rps' s.

Definition CheckTenant (now : Z) (tenantID : string) (rps' : Z) (s : RateLimiterStore)
  : (bool * Z) * RateLimiterStore :=
  if rps' <=? 0 then ((true, 0), s) else check now ("t:" +:+ tenantID) rps' rps' s.

Definition UpdateKey (now : Z) (keyID : string) (rps' burst' : Z) (s : RateLimiterStore) : RateLimiterStore :=
  update now ("k:" +:+ keyID) rps' (if burst' <=? 0 then rps' else burst') s.

Definition UpdateTenant (now : Z) (tenantID : string) (rps' : Z) (s : RateLimiterStore) : RateLimiterStore :=
  update now ("t:" +:+ tenantID) rps' rps' s.

(** *** Token quota *)

Definition AllowTokens (env : quotaEnv) (key : string) (count tokensPerMin bp : Z)
  (s : RateLimiterStore) : (bool * Z) * RateLimiterStore :=
  if (tokensPerMin <=? 0) || (count <=? 0) then ((true, 0), s)
  else let '(r, e) := allowEntry env count tokensPerMin bp (loadOrStore s key) in
       (r, putEntry key e s).

Definition ReserveTokens (env : quotaEnv) (key : string) (want tokensPerMin bp : Z)
  (s : RateLimiterStore) : (bool * Z * Z) * RateLimiterStore :=
  if (tokensPerMin <=? 0) || (want <=? 0) then ((true, 0, 0), s)
  else let '(r, e) := reserveEntry env want tokensPerMin bp (loadOrStore s key) in
       (r, putEntry key e s).

Definition ReserveTokensElastic (env : quotaEnv) (key : string) (firm elastic tokensPerMin bp : Z)
  (s : RateLimiterStore) : (bool * Z * Z * Z) * RateLimiterStore :=
  let firm := if firm <? 0 then 0 else firm in
  if elastic <=? 0 then
    let '((allowed, retry, ep), s) := ReserveTokens env key firm tokensPerMin bp s in
    ((allowed, retry, ep, if allowed && (ep !=? 0) then firm else 0), s)
  else if tokensPerMin <=? 0 then ((true, 0, 0, 0), s)
  else let '(r, e) := reserveElasticEntry env firm elastic tokensPerMin bp (loadOrStore s key) in
       (r, putEntry key e s).

Definition SettleTokens (env : quotaEnv) (key : string) (actual reservedAmt resEpoch tokensPerMin bp : Z)
  (s : RateLimiterStore) : (bool * Z) * RateLimiterStore :=
  let s :=
    if (reservedAmt >? 0) && (resEpoch >? 0) then
      match quotaMap s !! key with
      | Some e =>
          if reservedEpoch e ==? resEpoch
          then putEntry key (claimsSubClamp (reservedSubClamp e reservedAmt)) s else s
      | None => s
      end
    else s in
  if actual <=? 0 then ((true, 0), s)
  else AllowTokens env key actual tokensPerMin bp s.

Definition ReleaseReservation (key : string) (amt resEpoch : Z) (s : RateLimiterStore) : RateLimiterStore :=
  if (amt <=? 0) || (resEpoch ==? 0) then s
  else match quotaMap s !! key with
       | None => s
       | Some e => putEntry key (releaseEntry amt resEpoch e) s
       end.

Definition TrimReservation (key : string) (amt resEpoch : Z) (s : RateLimiterStore) : RateLimiterStore :=
  if (amt <=? 0) || (resEpoch ==? 0) then s
  else match quotaMap s !! key with
       | None => s
       | Some e => putEntry key (trimEntry amt resEpoch e) s
       end.

Definition ReservedTokens (key : string) (s : RateLimiterStore) : Z :=
  match quotaMap s !! key with Some e => reserved e | None => 0 end.

Definition ReservedNow (env : quotaEnv) (key : string) (s : RateLimiterStore) : Z * Z * bool :=
  match quotaMap s !! key with
  | None => (0, 0, false)
  | Some e =>
      if reservedEpoch e !=? currentQuotaEpoch env then (0, 0, true)
      else (reserved e, claims e, true)
  end.

Definition QuotaEpoch (env : quotaEnv) : Z := currentQuotaEpoch env.

Definition IsTokenQuotaExceeded (env : quotaEnv) (key : string) (s : RateLimiterStore) : bool :=
  match quotaMap s !! key with Some e => exceededEntry env e | None => false end.

Record TokenQuotaUsage := Usage { TenantID : string; Consumed : Z; Limit : Z }.

Definition TokenQuotaSnapshot (env : quotaEnv) (s : RateLimiterStore) : list TokenQuotaUsage :=
  omap (fun '(k, e) =>
          if limitTokens e <=? 0 then None
          else Some (Usage k (debtTokensOf (tatMs e) (quotaNowMs env) (limitTokens e)) (limitTokens e)))
       (map_to_list (quotaMap s)).

(** *** Cleanup *)

Definition idleLimiter (now : Z) (e : limiterEntry) : bool :=
  lastAccess e <? now - cleanupInactiveAfter.
Definition idleQuota (env : quotaEnv) (e : tokenWindowEntry) : bool :=
  i64 (currentQuotaEpoch env - windowEpoch e) >=? quotaEvictAfterWindows env.

Definition doCleanup (env : quotaEnv) (now : Z) (s : RateLimiterStore) : RateLimiterStore :=
  Store (filter (fun '(_, e) => idleLimiter now e = false) (entries s))
        (filter (fun '(_, e) => idleQuota env e = false) (quotaMap s))
        (warmState s) (warmDone s) (warmCalls s).

End Store.

(** ** Arithmetic of the buckets

    The limits are INTEGER columns of the key store, so they are below 2^31;
    the capacity knobs are clamped to 1..1000 percent.  Under those bounds no
    bucket computation overflows 64 bits for token counts up to 2^46. *)

Definition limit_ok (limit : Z) : Prop := 0 < limit < 2147483648.
Definition tokens_ok (n : Z) : Prop := 0 <= n <= 70368744177664.
Definition env_ok (env : quotaEnv) : Prop :=
  quotaBurstMinPct <= quotaBurstPct env <= quotaBurstMaxPct /\
  quotaEvictFloorWindows <= quotaEvictAfterWindows env.

(** The latest instant the arithmetic is proved for: some thirty thousand
    years from the Unix epoch, in milliseconds. *)
Definition time_ok (t : Z) : Prop := 0 <= t <= 1152921504606846976.

Ltac unbound :=
  unfold limit_ok, tokens_ok, time_ok, env_ok, quotaBurstMinPct, quotaBurstMaxPct,
    quotaEvictFloorWindows, msPerMinute, epochSeconds in *.

Lemma burstTokensFor_eq env limit pct :
  env_ok env -> limit_ok limit ->
  exists p, 1 <= p <= 1000 /\ burstTokensFor env limit pct = Z.max (limit * p / 100) 1 /\
    (pct <= 0 -> p = quotaBurstPct env) /\ (1 <= pct <= 1000 -> p = pct).
Proof.
  intros [Hp _] Hl. unbound. unfold burstTokensFor. unbound.
  exists (if pct <=? 0 then quotaBurstPct env else Z.min (Z.max pct 1) 1000).
  assert (1 <= (if pct <=? 0 then quotaBurstPct env else Z.min (Z.max pct 1) 1000) <= 1000)
    as Hr by (zcase; lia).
  split; [done|]. split; [|zcase; lia].
  rewrite i64_id by (unfold in_i64, two63; nia).
  rewrite quot_floor by nia. done.
Qed.

Lemma burstTokensFor_bounds env limit pct :
  env_ok env -> limit_ok limit -> 1 <= burstTokensFor env limit pct <= 10 * limit.
Proof.
  intros He Hl. destruct (burstTokensFor_eq env limit pct He Hl) as (p & Hp & -> & _).
  unbound. pose proof (Z.div_mod (limit * p) 100 ltac:(lia)).
  pose proof (Z.mod_pos_bound (limit * p) 100 ltac:(lia)). nia.
Qed.

Lemma burst_tokens_ok env limit pct :
  env_ok env -> limit_ok limit -> tokens_ok (burstTokensFor env limit pct).
Proof.
  intros He Hl. pose proof (burstTokensFor_bounds env limit pct He Hl). unbound. lia.
Qed.

(** [refillCeilMs] is the least number of milliseconds in which the refill at
    [limit] tokens per minute covers [tokens]. *)
Lemma refillCeilMs_spec tokens limit :
  tokens_ok tokens -> limit_ok limit ->
  tokens * msPerMinute <= refillCeilMs tokens limit * limit < tokens * msPerMinute + limit.
Proof.
  intros Ht Hl. unbound. unfold refillCeilMs. unbound.
  rewrite (i64_id (tokens * 60000)) by (unfold in_i64, two63; lia).
  rewrite (i64_id (tokens * 60000 + limit)) by (unfold in_i64, two63; lia).
  rewrite i64_id by (unfold in_i64, two63; lia).
  apply ceil_div_spec; lia.
Qed.

Lemma refillCeilMs_bounds tokens limit :
  tokens_ok tokens -> limit_ok limit ->
  0 <= refillCeilMs tokens limit <= tokens * msPerMinute /\
  (0 < tokens -> 1 <= refillCeilMs tokens limit).
Proof.
  intros Ht Hl. pose proof (refillCeilMs_spec tokens limit Ht Hl). unbound.
  split; [split|]; nia.
Qed.

Lemma burstMs_bounds env limit pct :
  env_ok env -> limit_ok limit ->
  1 <= refillCeilMs (burstTokensFor env limit pct) limit <= 1200000.
Proof.
  intros He Hl. pose proof (burst_tokens_ok env limit pct He Hl) as Hb.
  pose proof (burstTokensFor_bounds env limit pct He Hl).
  pose proof (refillCeilMs_spec _ limit Hb Hl). unbound. nia.
Qed.

Lemma debtTokensOf_spec tat now limit :
  time_ok tat -> time_ok now -> limit_ok limit -> (tat - now) * limit < two63 ->
  (tat <= now -> debtTokensOf tat now limit = 0) /\
  (now < tat -> debtTokensOf tat now limit = (tat - now) * limit / msPerMinute).
Proof.
  intros Ht Hn Hl Hb. unbound. unfold debtTokensOf. unbound. split; intros H.
  - zcase; lia.
  - zcase; [lia|].
    rewrite (i64_id (tat - now)) by (unfold in_i64, two63; lia).
    rewrite i64_id by (unfold in_i64, two63 in *; nia).
    apply quot_floor; nia.
Qed.

Lemma debtTokensOf_nonneg tat now limit :
  time_ok tat -> time_ok now -> limit_ok limit -> (tat - now) * limit < two63 ->
  0 <= debtTokensOf tat now limit <= 153722867280913.
Proof.
  intros Ht Hn Hl Hb. destruct (debtTokensOf_spec tat now limit Ht Hn Hl Hb) as [H1 H2].
  destruct (Z.le_gt_cases tat now) as [Hle|Hgt]; [rewrite H1 by done; lia|].
  rewrite H2 by lia. unfold two63, msPerMinute in *. unbound. split.
  - apply Z.div_pos; nia.
  - pose proof (Z.div_le_mono ((tat - now) * limit) 9223372036854775807 60000 ltac:(lia) ltac:(lia)) as Hm.
    change (9223372036854775807 / 60000) with 153722867280912 in Hm. lia.
Qed.

(** ** One bucket *)

(** The fields a reachable entry keeps non-negative. *)
Definition entry_ok (e : tokenWindowEntry) : Prop :=
  0 <= reserved e /\ 0 <= claims e /\ in_i64 (reserved e) /\ in_i64 (claims e) /\
  0 <= windowEpoch e /\ 0 <= reservedEpoch e.

Lemma zeroEntry_ok : entry_ok zeroEntry.
Proof. repeat split; simpl; unfold two63; lia. Qed.

Ltac touch_cases env e :=
  unfold touchQuotaEpoch;
  destruct (Z.ltb_spec (windowEpoch e) (currentQuotaEpoch env)); simpl;
  destruct (Z.ltb_spec (reservedEpoch e) (currentQuotaEpoch env)); simpl.

Lemma touch_tat env e : tatMs (touchQuotaEpoch env e) = tatMs e.
Proof. by touch_cases env e. Qed.

Lemma touch_limit env e : limitTokens (touchQuotaEpoch env e) = limitTokens e.
Proof. by touch_cases env e. Qed.

Lemma touch_burstPct env e : burstPct (touchQuotaEpoch env e) = burstPct e.
Proof. by touch_cases env e. Qed.

Lemma touch_windowEpoch env e :
  windowEpoch (touchQuotaEpoch env e) = Z.max (windowEpoch e) (currentQuotaEpoch env).
Proof. touch_cases env e; lia. Qed.

Lemma touch_reservedEpoch env e :
  reservedEpoch (touchQuotaEpoch env e) = Z.max (reservedEpoch e) (currentQuotaEpoch env).
Proof. touch_cases env e; lia. Qed.

(** The previous minute's reservations expire on the first local touch of a
    later minute, and only then. *)
Lemma touch_reserved env e :
  (reserved (touchQuotaEpoch env e), claims (touchQuotaEpoch env e)) =
  if currentQuotaEpoch env >? reservedEpoch e then (0, 0) else (reserved e, claims e).
Proof. by touch_cases env e. Qed.

Lemma touch_ok env e : 0 <= currentQuotaEpoch env -> entry_ok e -> entry_ok (touchQuotaEpoch env e).
Proof.
  intros Hc (H1 & H2 & H3 & H4 & H5 & H6). unfold entry_ok.
  rewrite touch_windowEpoch, touch_reservedEpoch.
  pose proof (touch_reserved env e) as Ht. zcase_in Ht; injection Ht as -> ->;
    repeat split; unfold in_i64, two63 in *; lia.
Qed.

Lemma publish_ok limit bp e : entry_ok e -> entry_ok (publish limit bp e).
Proof. done. Qed.

Lemma reservedSubClamp_eq e amt :
  in_i64 (reserved e - amt) -> reserved (reservedSubClamp e amt) = Z.max 0 (reserved e - amt).
Proof. intros H. unfold reservedSubClamp. rewrite i64_id by done. simpl. zcase; lia. Qed.

Lemma reservedSubClamp_ok e amt : entry_ok e -> entry_ok (reservedSubClamp e amt).
Proof.
  intros (H1 & H2 & H3 & H4 & H5 & H6). unfold entry_ok, reservedSubClamp. simpl.
  pose proof (i64_range (reserved e - amt)). unfold in_i64, two63 in *.
  zcase; repeat split; lia.
Qed.

Lemma claimsSubClamp_eq e : entry_ok e -> claims (claimsSubClamp e) = Z.max 0 (claims e - 1).
Proof.
  intros (H1 & H2 & H3 & H4 & _). unfold claimsSubClamp. zcase; simpl; [lia|].
  rewrite i64_id; unfold in_i64, two63 in *; lia.
Qed.

Lemma claimsSubClamp_reserved e : reserved (claimsSubClamp e) = reserved e.
Proof. unfold claimsSubClamp. by zcase. Qed.

Lemma claimsSubClamp_ok e : entry_ok e -> entry_ok (claimsSubClamp e).
Proof.
  intros H. pose proof (claimsSubClamp_eq e H) as Hc. unfold claimsSubClamp in *.
  destruct H as (H1 & H2 & H3 & H4 & H5 & H6). zcase; simpl in *; [done|].
  unfold entry_ok. simpl. rewrite Hc. repeat split; unfold in_i64, two63 in *; lia.
Qed.

Lemma releaseEntry_ok amt ep e : entry_ok e -> entry_ok (releaseEntry amt ep e).
Proof.
  intros. unfold releaseEntry. zcase; [|done].
  apply claimsSubClamp_ok, reservedSubClamp_ok; done.
Qed.

Lemma trimEntry_ok amt ep e : entry_ok e -> entry_ok (trimEntry amt ep e).
Proof. intros. unfold trimEntry. zcase; [|done]. by apply reservedSubClamp_ok. Qed.

#[export] Hint Resolve zeroEntry_ok touch_ok publish_ok reservedSubClamp_ok
  claimsSubClamp_ok releaseEntry_ok trimEntry_ok : igw.
#[export] Hint Rewrite touch_tat touch_limit touch_burstPct touch_windowEpoch
  touch_reservedEpoch claimsSubClamp_reserved : igw.

(** *** Charging *)

(** A charge advances the drain time from the later of its old value and now
    by the charged tokens' refill time, and touches nothing but the markers
    and the published limit besides. *)
Lemma allowEntry_shape env count limit bp e :
  snd (allowEntry env count limit bp e) =
  setTat (i64 (Z.max (tatMs e) (quotaNowMs env) + refillCeilMs count limit))
    (touchQuotaEpoch env (publish limit bp e)).
Proof.
  unfold allowEntry, chargeTat. rewrite touch_tat.
  change (tatMs (publish limit bp e)) with (tatMs e). by zcase.
Qed.

Lemma allowEntry_ok env count limit bp e :
  0 <= currentQuotaEpoch env -> entry_ok e -> entry_ok (snd (allowEntry env count limit bp e)).
Proof.
  intros Hc He. rewrite allowEntry_shape.
  pose proof (touch_ok env _ Hc (publish_ok limit bp e He)). done.
Qed.

(** *** Reserving *)

(** What the arithmetic needs of a bucket at the moment of a reservation. *)
Definition bucket_ok (env : quotaEnv) (limit : Z) (e : tokenWindowEntry) : Prop :=
  entry_ok e /\ time_ok (tatMs e) /\ time_ok (quotaNowMs env) /\
  (tatMs e - quotaNowMs env) * limit < two63 /\
  reserved e <= 1152921504606846976 /\ claims e <= 1152921504606846976 /\
  0 <= currentQuotaEpoch env.

(** The tokens the bucket still holds: capacity less outstanding debt. *)
Definition levelOf (env : quotaEnv) (limit bp : Z) (e : tokenWindowEntry) : Z :=
  burstTokensFor env limit bp - debtTokensOf (tatMs e) (quotaNowMs env) limit.

(** The bucket as a reservation sees it: configuration published, markers
    stamped, an earlier minute's claims expired. *)
Definition touched (env : quotaEnv) (limit bp : Z) (e : tokenWindowEntry) : tokenWindowEntry :=
  touchQuotaEpoch env (publish limit bp e).

Definition addClaim (amt : Z) (e : tokenWindowEntry) : tokenWindowEntry :=
  setClaims (claims e + 1) (setReserved (reserved e + amt) e).

Lemma setReserved_id e : setReserved (reserved e) e = e.
Proof. by destruct e. Qed.

Lemma setReserved_twice a b e : setReserved a (setReserved b e) = setReserved a e.
Proof. done. Qed.

(** Rolling a claim back restores the bucket exactly. *)
Lemma reservedSubClamp_rollback e amt n :
  0 <= reserved e -> in_i64 (reserved e) -> n = reserved e + amt -> in_i64 n ->
  reservedSubClamp (setReserved n e) amt = e.
Proof.
  intros H0 H1 -> H2. unfold reservedSubClamp. simpl.
  replace (reserved e + amt - amt) with (reserved e) by lia.
  rewrite i64_id by done. zcase; [lia|]. rewrite setReserved_twice. apply setReserved_id.
Qed.

Lemma touched_bucket_ok env limit bp e :
  bucket_ok env limit e -> bucket_ok env limit (touched env limit bp e).
Proof.
  intros (H1 & H2 & H3 & H4 & H5 & H6 & H7). unfold bucket_ok, touched in *.
  rewrite touch_tat. pose proof (touch_reserved env (publish limit bp e)) as Hr.
  split; [by apply touch_ok|]. simpl in *.
  zcase_in Hr; injection Hr as -> ->; repeat split; lia || apply H2 || apply H3.
Qed.

Lemma bucket_level_bounds env limit bp e :
  env_ok env -> limit_ok limit -> bucket_ok env limit e ->
  - 153722867280913 <= levelOf env limit bp e <= 21474836480.
Proof.
  intros He Hl (_ & H2 & H3 & H4 & _). unfold levelOf.
  pose proof (debtTokensOf_nonneg _ _ _ H2 H3 Hl H4).
  pose proof (burstTokensFor_bounds env limit bp He Hl). unbound. lia.
Qed.

(** [ReserveTokens] on one bucket, in closed form: a refusal leaves the bucket
    exactly as the touch left it. *)
Lemma reserveEntry_eq env want limit bp e :
  env_ok env -> limit_ok limit -> bucket_ok env limit e -> tokens_ok want ->
  let e0 := touched env limit bp e in
  let level := levelOf env limit bp e in
  reserveEntry env want limit bp e =
    if burstTokensFor env limit bp <? want then ((false, 60, 0), e0)
    else if level <? reserved e0 + want
    then ((false, reserveRetry (reserved e0 + want - level) limit, 0), e0)
    else ((true, 0, currentQuotaEpoch env), addClaim want e0).
Proof.
  intros He Hl Hb Hw e0 level. unfold reserveEntry.
  fold (touched env limit bp e). fold e0.
  pose proof (touched_bucket_ok env limit bp e Hb) as Hb0. fold e0 in Hb0.
  assert (tatMs e0 = tatMs e) as Htat by (unfold e0, touched; by rewrite touch_tat).
  pose proof (bucket_level_bounds env limit bp e He Hl Hb) as Hlev. fold level in Hlev.
  rewrite Htat. fold (levelOf env limit bp e). fold level.
  destruct Hb0 as (Hok & _ & _ & _ & Hr & Hc & _). unfold tokens_ok in Hw.
  destruct Hok as (Hr0 & Hc0 & Hri & Hci & _).
  rewrite (i64_id level) by (unfold in_i64, two63; lia).
  rewrite (i64_id (reserved e0 + want)) by (unfold in_i64, two63; lia).
  zcase; [done|]. zcase.
  - rewrite (i64_id (reserved e0 + want - level)) by (unfold in_i64, two63; lia).
    rewrite reservedSubClamp_rollback; [done|lia|done|done|unfold in_i64, two63; lia].
  - simpl. rewrite (i64_id (claims e0 + 1)) by (unfold in_i64, two63; lia). done.
Qed.

(** [ReserveTokensElastic] on one bucket, in closed form. *)
Lemma reserveElasticEntry_eq env firm elastic limit bp e :
  env_ok env -> limit_ok limit -> bucket_ok env limit e ->
  tokens_ok firm -> 0 < elastic -> tokens_ok elastic ->
  let e0 := touched env limit bp e in
  let level := levelOf env limit bp e in
  let burst := burstTokensFor env limit bp in
  let el := Z.min (Z.min elastic (burst - firm)) (level - reserved e0 - firm) in
  reserveElasticEntry env firm elastic limit bp e =
    if burst <? firm then ((false, 60, 0, 0), e0)
    else if level <? reserved e0 + firm
    then ((false, reserveRetry (reserved e0 + firm - level) limit, 0, 0), e0)
    else if firm + el =? 0 then ((true, 0, 0, 0), e0)
    else ((true, 0, currentQuotaEpoch env, firm + el), addClaim (firm + el) e0).
Proof.
  intros He Hl Hb Hf Hel Helb e0 level burst el. unfold reserveElasticEntry.
  fold (touched env limit bp e). fold e0. fold burst.
  pose proof (touched_bucket_ok env limit bp e Hb) as Hb0. fold e0 in Hb0.
  assert (tatMs e0 = tatMs e) as Htat by (unfold e0, touched; by rewrite touch_tat).
  pose proof (bucket_level_bounds env limit bp e He Hl Hb) as Hlev. fold level in Hlev.
  pose proof (burstTokensFor_bounds env limit bp He Hl) as Hbu. fold burst in Hbu.
  rewrite Htat. unfold burst. fold (levelOf env limit bp e). fold level. fold burst.
  destruct Hb0 as (Hok & _ & _ & _ & Hr & Hc & _). unbound.
  destruct Hok as (Hr0 & Hc0 & Hri & Hci & _).
  rewrite (i64_id level) by (unfold in_i64, two63; lia).
  zcase; [done|].
  rewrite (i64_id (burst - firm)) by (unfold in_i64, two63; lia).
  set (e1 := Z.min elastic (burst - firm)) in *.
  assert (0 <= e1 <= elastic) by lia.
  rewrite (i64_id (firm + e1)) by (unfold in_i64, two63; lia).
  rewrite (i64_id (reserved e0 + (firm + e1))) by (unfold in_i64, two63; lia).
  set (over := reserved e0 + (firm + e1) - level) in *.
  rewrite (i64_id over) by (unfold in_i64, two63; lia).
  destruct (Z.ltb_spec 0 over) as [Hov|Hov].
  - destruct (Z.ltb_spec e1 over) as [Ho2|Ho2].
    + rewrite (i64_id (over - e1)) by (unfold in_i64, two63; lia).
      destruct (Z.ltb_spec level (reserved e0 + firm)); [|lia].
      rewrite reservedSubClamp_rollback; [|lia|done|done|unfold in_i64, two63; lia].
      by replace (over - e1) with (reserved e0 + firm - level) by lia.
    + destruct (Z.ltb_spec level (reserved e0 + firm)); [lia|].
      rewrite (i64_id (e1 - over)) by (unfold in_i64, two63; lia).
      replace el with (e1 - over) by lia.
      rewrite (i64_id (firm + (e1 - over))) by (unfold in_i64, two63; lia).
      assert (reservedSubClamp (setReserved (reserved e0 + (firm + e1)) e0) over
              = setReserved (reserved e0 + (firm + (e1 - over))) e0) as Hrs.
      { unfold reservedSubClamp. simpl. rewrite i64_id by (unfold in_i64, two63; lia).
        zcase; [lia|]. rewrite setReserved_twice. f_equal. lia. }
      rewrite Hrs. zcase.
      * rewrite e2, Z.add_0_r, setReserved_id. done.
      * simpl. rewrite (i64_id (claims e0 + 1)) by (unfold in_i64, two63; lia). done.
  - destruct (Z.ltb_spec level (reserved e0 + firm)); [lia|].
    replace el with e1 by lia. zcase.
    + rewrite e2, Z.add_0_r, setReserved_id. done.
    + simpl. rewrite (i64_id (claims e0 + 1)) by (unfold in_i64, two63; lia). done.
Qed.
