(* ===== verification/RateSync.v ===== *)
(** * RateSync: quota replication between gateway peers

    Models pkg/ratelimit/ratelimit_sync.go (scope-prefixed wire keys, export,
    max-merge import) and the rate-limiter half of pkg/loxinet/sockproxy_sync.go
    (the chunked push with its per-peer snapshot, and the receive path).

    A Go map walk visits the entries in an unspecified order: the export
    functions use [map_to_list], and the theorems on the receive side show that
    neither the order nor the repetition of entries matters. *)

From S2P Require Import Prelude RateLimit.

Open Scope Z_scope.
Open Scope igw_scope.

(** ** The wire vocabulary *)

Record RateLimiterEntry := WireEntry {
  KeyID : string;
  RPS : Z;
  Burst : Z;
  IsTenant : bool;
  WindowEpoch : Z;
  wConsumed : Z;
  Exceeded : bool;
  LastAccessNs : Z
}.

Definition ScopeWireVersion : Z := 2.
Definition ScopeSentinelKeyID : string := "ver:2".

Definition ReservedIdentityScopePrefixes : list string :=
  ["k:"; "u:"; "t:"; "tm:"; "uq:"; "um:"; "kq:"; "v:"; "ver:"].

Definition HasReservedScopePrefix (id : string) : bool :=
  existsb (HasPrefix id) ReservedIdentityScopePrefixes.

Definition identityScopedKey (mapKey : string) : bool :=
  HasPrefix mapKey "uq:" || HasPrefix mapKey "um:" ||
  HasPrefix mapKey "kq:" || HasPrefix mapKey "v:".

Definition QuotaWireKey (mapKey : string) : string :=
  if identityScopedKey mapKey then mapKey
  else if ContainsByte pipe mapKey then "tm:" +:+ mapKey
  else "t:" +:+ mapKey.

Definition QuotaMapKey (wireKeyID : string) : string * bool :=
  if identityScopedKey wireKeyID then (wireKeyID, true)
  else match CutPrefix wireKeyID "tm:" with
       | Some rest => (rest, true)
       | None => match CutPrefix wireKeyID "t:" with
                 | Some rest => (rest, true)
                 | None => (wireKeyID, false)
                 end
       end.

(** The wire [Exceeded] bit, derived at export. *)
Definition quotaEntryInDebt (env : quotaEnv) (we : tokenWindowEntry) : bool :=
  let limit := limitTokens we in
  if limit <=? 0 then false
  else i64 (tatMs we - quotaNowMs env) >? refillCeilMs (burstTokensFor env limit (burstPct we)) limit.

(** Take-the-max on the two monotonic fields. *)
Definition mergeFields (epoch tat : Z) (we : tokenWindowEntry) : tokenWindowEntry :=
  let we := if epoch <=? windowEpoch we then we else setWindowEpoch epoch we in
  if tat <=? tatMs we then we else setTat tat we.

Section Sync.
Context {RL : RateLib}.

Definition mergeQuotaEntry (e : RateLimiterEntry) (s : RateLimiterStore) : bool * RateLimiterStore :=
  let '(mapKey, ok) := QuotaMapKey (KeyID e) in
  if negb ok then (false, s)
  else (true, putEntry mapKey (mergeFields (WindowEpoch e) (wConsumed e) (loadOrStore s mapKey)) s).

Definition exportQuota (env : quotaEnv) (mapKey : string) (we : tokenWindowEntry) : RateLimiterEntry :=
  WireEntry (QuotaWireKey mapKey) 0 0 true (windowEpoch we) (tatMs we) (quotaEntryInDebt env we) 0.

Definition exportLimiter (id : string) (e : limiterEntry) : RateLimiterEntry :=
  WireEntry id (rps e) (burst e) false 0 0 false (lastAccess e).

(** Per-key rows first, quota rows last. *)
Definition ExportState (env : quotaEnv) (s : RateLimiterStore) : list RateLimiterEntry :=
  ((fun '(id, e) => exportLimiter id e) <$> map_to_list (entries s)) ++
  ((fun '(k, we) => exportQuota env k we) <$> map_to_list (quotaMap s)).

(** Fold a batch into the store, counting the rows that landed. *)
Fixpoint mergeBatch (es : list RateLimiterEntry) (merged : Z) (s : RateLimiterStore)
  : Z * RateLimiterStore :=
  match es with
  | [] => (merged, s)
  | e :: es =>
      if negb (IsTenant e) then mergeBatch es merged s
      else let '(landed, s) := mergeQuotaEntry e s in
           mergeBatch es (if landed then merged + 1 else merged) s
  end.

Definition ImportState (es : list RateLimiterEntry) (s : RateLimiterStore) : RateLimiterStore :=
  let '(merged, s) := mergeBatch es 0 s in
  if merged >? 0 then endQuotaWarmup false s else s.

Definition ApplyGossipDelta (es : list RateLimiterEntry) (s : RateLimiterStore) : RateLimiterStore :=
  let '(merged, s) := mergeBatch es 0 s in
  if merged >? 0 then endQuotaWarmup false s else s.

(** The delta decision for one key: [prevSnapshot] is what was last pushed to
    this peer, a missing epoch reading as zero. *)
Definition deltaRow (env : quotaEnv) (prev : gmap string Z) (mapKey : string) (we : tokenWindowEntry)
  : option RateLimiterEntry :=
  let wireKey := QuotaWireKey mapKey in
  match prev !! wireKey with
  | Some prevTat =>
      if (tatMs we <=? prevTat) && (windowEpoch we <=? default 0 (prev !! ("e:" +:+ mapKey)))
      then None else Some (exportQuota env mapKey we)
  | None => Some (exportQuota env mapKey we)
  end.

Definition ExportDelta (env : quotaEnv) (prev : gmap string Z) (s : RateLimiterStore)
  : list RateLimiterEntry :=
  omap (fun '(k, we) => deltaRow env prev k we) (map_to_list (quotaMap s)).

(** ** The push and receive paths of the coordinator *)

(** The proto message of one entry (xsync.proto): no field for the rate and
    the burst. *)
Record ProtoEntry := Proto {
  KeyId : string;
  pIsTenant : bool;
  LastRefillNs : Z;
  EpochStartTs : Z;
  TokensConsumed : Z;
  pExceeded : bool
}.

Definition rlGoEntryToProto (e : RateLimiterEntry) : ProtoEntry :=
  Proto (KeyID e) (IsTenant e) (LastAccessNs e) (WindowEpoch e) (wConsumed e) (Exceeded e).

Definition rlProtoEntryToGo (p : ProtoEntry) : RateLimiterEntry :=
  WireEntry (KeyId p) 0 0 (pIsTenant p) (EpochStartTs p) (TokensConsumed p) (pExceeded p) (LastRefillNs p).

Definition rlPushBatchMax : nat := 500.
Definition rlAbsoluteFallbackEvery : Z := 10.

Definition rlWireEntries (es : list RateLimiterEntry) : list RateLimiterEntry :=
  List.filter IsTenant es.

Definition sentinelEntry : ProtoEntry := Proto ScopeSentinelKeyID true 0 0 0 false.

(** The RPC bodies of one push: chunks of at most [rlPushBatchMax], each led
    by the scope sentinel. *)
Fixpoint pushChunks (fuel : nat) (es : list RateLimiterEntry) : list (list ProtoEntry) :=
  match fuel, es with
  | S fuel, _ :: _ =>
      (sentinelEntry :: (rlGoEntryToProto <$> take (rlPushBatchMax - 1) es)) ::
      pushChunks fuel (drop (rlPushBatchMax - 1) es)
  | _, _ => []
  end.

(** How a peer answers one RPC. *)
Inductive rpcOutcome := RpcOk | RpcUnimplemented | RpcError.

(** [updatePrevSnapshot]: the pushed drain time under the wire key, the pushed
    activity minute under "e:" and the map key. *)
Definition updatePrevSnapshot (es : list RateLimiterEntry) (prev : gmap string Z) : gmap string Z :=
  foldl (fun m e =>
    if IsTenant e
    then <["e:" +:+ (QuotaMapKey (KeyID e)).1 := WindowEpoch e]> (<[KeyID e := wConsumed e]> m)
    else m) prev es.

(** The chunks sent before the first failing RPC (that one included: its body
    may have been applied), whether the capability bit survives, and whether
    the whole push succeeded. *)
Fixpoint sendChunks (chunks : list (list ProtoEntry)) (answers : list rpcOutcome)
  : list (list ProtoEntry) * bool * bool :=
  match chunks with
  | [] => ([], true, true)
  | c :: cs =>
      match answers with
      | RpcUnimplemented :: _ => ([], false, false)
      | RpcError :: _ => ([c], true, false)
      | _ => let '(sent, cap, ok) := sendChunks cs (List.tl answers) in (c :: sent, cap, ok)
      end
  end.

Definition sendRateLimiterBatch (es : list RateLimiterEntry) (isDelta : bool)
  (answers : list rpcOutcome) (prev : gmap string Z)
  : list (list ProtoEntry) * bool * gmap string Z :=
  let '(sent, cap, ok) := sendChunks (pushChunks (length es) es) answers in
  (sent, cap, if ok && isDelta then updatePrevSnapshot es prev else prev).

(** One tick of the push loop: absolute on an active-passive pair and on every
    tenth active-active push, a delta otherwise. *)
Definition pushTick (env : quotaEnv) (aa : bool) (counter : Z) (prev : gmap string Z)
  (answers : list rpcOutcome) (s : RateLimiterStore)
  : list (list ProtoEntry) * bool * bool * gmap string Z * Z :=
  let counter' := if aa then i64 (counter + 1) else counter in
  let isDelta := aa && negb (Z.rem counter' rlAbsoluteFallbackEvery ==? 0) in
  let es := rlWireEntries (if isDelta then ExportDelta env prev s else ExportState env s) in
  match es with
  | [] => ([], isDelta, true, prev, counter')
  | _ => let '(sent, cap, prev') := sendRateLimiterBatch es isDelta answers prev in
         (sent, isDelta, cap, prev', counter')
  end.

(** What a receiver keeps of a batch: no sentinel, no per-key row. *)
Definition ingest (m : list ProtoEntry) : list RateLimiterEntry :=
  omap (fun p => match CutPrefix (KeyId p) "ver:" with
                 | Some _ => None
                 | None => if pIsTenant p then Some (rlProtoEntryToGo p) else None
                 end) m.

(** The scope version the peer's gauge is set to by one batch: the last
    readable sentinel, 0 for one that cannot be read, 1 for a batch with none. *)
Definition peerScopeVersion (m : list ProtoEntry) : Z :=
  default 1 (foldl (fun acc p =>
    match CutPrefix (KeyId p) "ver:" with
    | Some ver => Some (default 0 (ParseInt ver))
    | None => acc
    end) None m).

Definition ApplyRateLimiterBatch (isDelta : bool) (m : list ProtoEntry) (s : RateLimiterStore)
  : RateLimiterStore :=
  if isDelta then ApplyGossipDelta (ingest m) s else ImportState (ingest m) s.

End Sync.

(** ** Wire keys *)

Lemma tm_not_scoped k : identityScopedKey ("tm:" +:+ k) = false.
Proof. done. Qed.

Lemma t_not_scoped k : identityScopedKey ("t:" +:+ k) = false.
Proof. done. Qed.

Lemma wire_roundtrip k : QuotaMapKey (QuotaWireKey k) = (k, true).
Proof.
  unfold QuotaWireKey. destruct (identityScopedKey k) eqn:Hs.
  - unfold QuotaMapKey. by rewrite Hs.
  - destruct (ContainsByte pipe k); unfold QuotaMapKey.
    + by rewrite tm_not_scoped, CutPrefix_app.
    + rewrite t_not_scoped. change (CutPrefix ("t:" +:+ k) "tm:") with (@None string).
      by rewrite CutPrefix_app.
Qed.

Lemma QuotaWireKey_inj k1 k2 : QuotaWireKey k1 = QuotaWireKey k2 -> k1 = k2.
Proof.
  intros H. pose proof (wire_roundtrip k1) as H1. pose proof (wire_roundtrip k2) as H2.
  rewrite H in H1. congruence.
Qed.

(** Every quota wire key starts with a quota scope prefix. *)
Lemma QuotaWireKey_scope k :
  exists p r, QuotaWireKey k = p +:+ r /\ In p ["uq:"; "um:"; "kq:"; "v:"; "tm:"; "t:"].
Proof.
  unfold QuotaWireKey. destruct (identityScopedKey k) eqn:Hs.
  - unfold identityScopedKey in Hs.
    repeat apply orb_true_iff in Hs as [Hs|Hs]; apply HasPrefix_spec in Hs as [r ->];
      eexists _, r; (split; [done|simpl; tauto]).
  - destruct (ContainsByte pipe k); eexists _, k; (split; [done|simpl; tauto]).
Qed.

Lemma wireKey_not_sentinel k : CutPrefix (QuotaWireKey k) "ver:" = None.
Proof.
  destruct (QuotaWireKey_scope k) as (p & r & -> & Hp). simpl in Hp.
  repeat destruct Hp as [<-|Hp]; done.
Qed.

Lemma wireKey_not_epochKey k k' : QuotaWireKey k <> "e:" +:+ k'.
Proof.
  destruct (QuotaWireKey_scope k) as (p & r & -> & Hp). simpl in Hp.
  repeat destruct Hp as [<-|Hp]; done.
Qed.

(** ** Merging *)

Lemma mergeFields_eq ep tat e :
  mergeFields ep tat e =
  Entry (Z.max (windowEpoch e) ep) (Z.max (tatMs e) tat) (reserved e) (claims e)
    (reservedEpoch e) (limitTokens e) (burstPct e).
Proof.
  destruct e as [w t r c re l b]. unfold mergeFields. simpl.
  destruct (Z.leb_spec ep w); simpl; zcase; unfold setTat, setWindowEpoch; simpl; f_equal; lia.
Qed.

Lemma mergeFields_comm e1 t1 e2 t2 e :
  mergeFields e1 t1 (mergeFields e2 t2 e) = mergeFields e2 t2 (mergeFields e1 t1 e).
Proof. rewrite !mergeFields_eq. simpl. f_equal; lia. Qed.

Lemma mergeFields_idem ep tat e : mergeFields ep tat (mergeFields ep tat e) = mergeFields ep tat e.
Proof. rewrite !mergeFields_eq. simpl. f_equal; lia. Qed.

Section SyncFacts.
Context {RL : RateLib}.
Implicit Types (s : RateLimiterStore) (e : RateLimiterEntry).

(** The map key a received row lands on. *)
Definition landsOn (e : RateLimiterEntry) : option string :=
  if IsTenant e
  then let '(k, ok) := QuotaMapKey (KeyID e) in if ok then Some k else None
  else None.

Definition mergeStep (e : RateLimiterEntry) (s : RateLimiterStore) : RateLimiterStore :=
  match landsOn e with
  | Some k => putEntry k (mergeFields (WindowEpoch e) (wConsumed e) (loadOrStore s k)) s
  | None => s
  end.

Lemma load_put_eq k we s : loadOrStore (putEntry k we s) k = we.
Proof. unfold loadOrStore, putEntry. simpl. by rewrite lookup_insert_eq. Qed.

Lemma load_put_ne k k' we s : k <> k' -> loadOrStore (putEntry k we s) k' = loadOrStore s k'.
Proof. intros. unfold loadOrStore, putEntry. simpl. by rewrite lookup_insert_ne. Qed.

Lemma put_put_eq k we we' s : putEntry k we (putEntry k we' s) = putEntry k we s.
Proof. unfold putEntry, setQuotaMap. simpl. by rewrite insert_insert_eq. Qed.

Lemma put_put_ne k k' we we' s :
  k <> k' -> putEntry k we (putEntry k' we' s) = putEntry k' we' (putEntry k we s).
Proof.
  intros. unfold putEntry, setQuotaMap. simpl. f_equal. by apply insert_insert_ne.
Qed.

Lemma mergeStep_comm e1 e2 s : mergeStep e1 (mergeStep e2 s) = mergeStep e2 (mergeStep e1 s).
Proof.
  unfold mergeStep. destruct (landsOn e1) as [k1|], (landsOn e2) as [k2|]; try done.
  destruct (decide (k1 = k2)) as [->|Hne].
  - by rewrite !load_put_eq, !put_put_eq, mergeFields_comm.
  - rewrite !load_put_ne by done. by apply put_put_ne.
Qed.

Lemma mergeStep_idem e s : mergeStep e (mergeStep e s) = mergeStep e s.
Proof.
  unfold mergeStep. destruct (landsOn e) as [k|]; [|done].
  by rewrite load_put_eq, put_put_eq, mergeFields_idem.
Qed.

Definition landed (es : list RateLimiterEntry) : Z :=
  Z.of_nat (length (omap landsOn es)).

Lemma mergeQuotaEntry_step e s :
  IsTenant e = true ->
  mergeQuotaEntry e s = (bool_decide (is_Some (landsOn e)), mergeStep e s).
Proof.
  intros Ht. unfold mergeQuotaEntry, mergeStep, landsOn. rewrite Ht.
  by destruct (QuotaMapKey (KeyID e)) as [k []].
Qed.

Lemma landed_cons e es :
  landed (e :: es) = (if bool_decide (is_Some (landsOn e)) then 1 else 0) + landed es.
Proof.
  unfold landed. cbn [omap list_omap]. destruct (landsOn e) as [k|].
  - rewrite bool_decide_eq_true_2 by eauto. rewrite length_cons. lia.
  - rewrite bool_decide_eq_false_2 by (by intros [? ?]). lia.
Qed.

(** A batch is the fold of its rows, whatever the order, and the count of the
    rows that landed. *)
Lemma mergeBatch_eq es m s :
  mergeBatch es m s = (m + landed es, foldr mergeStep s es).
Proof.
  revert m s. induction es as [|e es IH]; intros m s; [unfold landed; simpl; f_equal; lia|].
  rewrite landed_cons. simpl. destruct (IsTenant e) eqn:Ht; simpl.
  - rewrite mergeQuotaEntry_step by done. rewrite IH.
    rewrite (foldr_push mergeStep mergeStep_comm). f_equal.
    destruct (bool_decide _); lia.
  - assert (landsOn e = None) as Hl by (unfold landsOn; by rewrite Ht).
    rewrite IH. unfold mergeStep at 2. rewrite Hl. by f_equal.
Qed.

Lemma landed_pos es : 0 < landed es <-> exists e, e ∈ es /\ is_Some (landsOn e).
Proof.
  unfold landed. split.
  - intros H. destruct (omap landsOn es) as [|k l] eqn:Ho; [simpl in H; lia|].
    assert (k ∈ omap landsOn es) as Hk by (rewrite Ho; set_solver).
    apply list_elem_of_omap in Hk as (e & He & Hl). eauto.
  - intros (e & He & k & Hk).
    assert (k ∈ omap landsOn es) as Hin by (apply list_elem_of_omap; eauto).
    destruct (omap landsOn es); [set_solver|simpl; lia].
Qed.

Lemma ImportState_eq es s :
  ImportState es s =
  if 0 <? landed es then endQuotaWarmup false (foldr mergeStep s es) else foldr mergeStep s es.
Proof. unfold ImportState. by rewrite mergeBatch_eq. Qed.

Lemma ApplyGossipDelta_ImportState es s : ApplyGossipDelta es s = ImportState es s.
Proof. done. Qed.

Lemma mergeStep_other e s :
  entries (mergeStep e s) = entries s /\ warmState (mergeStep e s) = warmState s /\
  warmDone (mergeStep e s) = warmDone s /\ warmCalls (mergeStep e s) = warmCalls s.
Proof. unfold mergeStep. by destruct (landsOn e). Qed.

Lemma foldr_mergeStep_other es s :
  let s' := foldr mergeStep s es in
  entries s' = entries s /\ warmState s' = warmState s /\
  warmDone s' = warmDone s /\ warmCalls s' = warmCalls s.
Proof.
  induction es as [|e es IH]; simpl; [done|].
  destruct (mergeStep_other e (foldr mergeStep s es)) as (-> & -> & -> & ->). done.
Qed.

(** The rows of a batch that land on one key. *)
Definition rowsFor (k : string) (es : list RateLimiterEntry) : list RateLimiterEntry :=
  filter (fun e => landsOn e = Some k) es.

(** What one key reads after a batch: the maximum over its rows on the two
    merged fields, every other field as it was. *)
Lemma foldr_mergeStep_load es s k :
  loadOrStore (foldr mergeStep s es) k =
  Entry (foldr Z.max (windowEpoch (loadOrStore s k)) (WindowEpoch <$> rowsFor k es))
        (foldr Z.max (tatMs (loadOrStore s k)) (wConsumed <$> rowsFor k es))
        (reserved (loadOrStore s k)) (claims (loadOrStore s k)) (reservedEpoch (loadOrStore s k))
        (limitTokens (loadOrStore s k)) (burstPct (loadOrStore s k)).
Proof.
  induction es as [|e es IH]; simpl; [by destruct (loadOrStore s k)|].
  unfold rowsFor in *. rewrite filter_cons. unfold mergeStep at 1.
  destruct (landsOn e) as [k'|] eqn:Hl.
  - destruct (decide (Some k' = Some k)) as [[= ->]|Hne].
    + rewrite load_put_eq, mergeFields_eq, IH, !fmap_cons. simpl. f_equal; apply Z.max_comm.
    + rewrite load_put_ne by congruence. exact IH.
  - destruct (decide (None = Some k)); [done|exact IH].
Qed.

Lemma foldr_max_ge (l : list Z) z0 z : (z ∈ z0 :: l) -> z <= foldr Z.max z0 l.
Proof.
  induction l as [|y l IH]; simpl; intros H.
  - apply list_elem_of_singleton in H. lia.
  - rewrite !elem_of_cons in H. rewrite elem_of_cons in IH.
    destruct H as [->|[->|H]]; [specialize (IH (or_introl eq_refl))|..]; try lia.
    specialize (IH (or_intror H)). lia.
Qed.

End SyncFacts.
