(* ===== verification/QuotaProps.v ===== *)
(** * QuotaProps: what the token-quota buckets guarantee

    Theorems on RateLimit (pkg/ratelimit): the bucket arithmetic is exact, the
    spend admitted through a bucket is bounded by burst plus refill over every
    interval, the retry advice is sound, reservations are all-or-nothing and
    their ledger is exact under every order of the operations (LedgerSteps has it
    at the grain of single accesses), the
    warm-up callback fires once, and idle eviction. *)

From S2P Require Import Prelude RateLimit RateSync.

Open Scope Z_scope.
Open Scope igw_scope.

(** ** A concrete limiter and environment for the witnesses *)

(** A limiter that always grants at once. *)
#[export] Instance openLib : RateLib := {|
  Limiter := unit;
  NewLimiter := fun _ _ => tt;
  Reserve := fun _ l => ((true, 0), l);
  CancelReservation := fun _ l => l
|}.

Definition envAt (epoch nowMs : Z) : quotaEnv := QuotaEnv 10 100 epoch nowMs.

Lemma envAt_ok ep now : env_ok (envAt ep now).
Proof. unfold env_ok, envAt. unbound. simpl. lia. Qed.

(** ** Traces of store operations *)

Section Trace.
Context {RL : RateLib}.

(** Every operation of the package that changes the store. *)
Inductive qop :=
| OpAllow (key : string) (count tpm bp : Z)
| OpReserve (key : string) (want tpm bp : Z)
| OpElastic (key : string) (firm elastic tpm bp : Z)
| OpSettle (key : string) (actual reservedAmt resEpoch tpm bp : Z)
| OpRelease (key : string) (amt resEpoch : Z)
| OpTrim (key : string) (amt resEpoch : Z)
| OpImport (es : list RateLimiterEntry)
| OpGossip (es : list RateLimiterEntry)
| OpCheck (now : Z) (id : string) (rps' burst' : Z)
| OpUpdate (now : Z) (id : string) (rps' burst' : Z)
| OpStartWarmup (timeout : Z) (cb : bool)
| OpWarmDeadline
| OpCleanup (now : Z).

Definition runOp (env : quotaEnv) (op : qop) (s : RateLimiterStore) : RateLimiterStore :=
  match op with
  | OpAllow k c tpm bp => (AllowTokens env k c tpm bp s).2
  | OpReserve k w tpm bp => (ReserveTokens env k w tpm bp s).2
  | OpElastic k f el tpm bp => (ReserveTokensElastic env k f el tpm bp s).2
  | OpSettle k a r ep tpm bp => (SettleTokens env k a r ep tpm bp s).2
  | OpRelease k a ep => ReleaseReservation k a ep s
  | OpTrim k a ep => TrimReservation k a ep s
  | OpImport es => ImportState es s
  | OpGossip es => ApplyGossipDelta es s
  | OpCheck now id r b => (check now id r b s).2
  | OpUpdate now id r b => update now id r b s
  | OpStartWarmup t cb => StartQuotaWarmup t cb s
  | OpWarmDeadline => endQuotaWarmup true s
  | OpCleanup now => doCleanup env now s
  end.

Definition runOps (ops : list (quotaEnv * qop)) (s : RateLimiterStore) : RateLimiterStore :=
  foldl (fun s '(env, op) => runOp env op s) s ops.

(** The tokens an operation charges to a key. *)
Definition chargedBy (k : string) (op : qop) : Z :=
  match op with
  | OpAllow k' c tpm _ => if (k' ==s k) && (0 <? tpm) then Z.max c 0 else 0
  | OpSettle k' a _ _ tpm _ => if (k' ==s k) && (0 <? tpm) then Z.max a 0 else 0
  | _ => 0
  end.

Definition charged (k : string) (ops : list (quotaEnv * qop)) : Z :=
  foldr Z.add 0 ((fun '(_, op) => chargedBy k op) <$> ops).

(** The bucket configuration an operation publishes on a key, if any. *)
Definition configOf (k : string) (op : qop) : option (Z * Z) :=
  match op with
  | OpAllow k' _ tpm bp | OpReserve k' _ tpm bp | OpElastic k' _ _ tpm bp
  | OpSettle k' _ _ _ tpm bp => if (k' ==s k) && (0 <? tpm) then Some (tpm, bp) else None
  | _ => None
  end.

(** The refill time of what an operation charges to a key, at the limit it is
    charged at, in milliseconds. *)
Definition refillBy (k : string) (op : qop) : Z :=
  match configOf k op with
  | Some (tpm, _) => if 0 <? chargedBy k op then refillCeilMs (chargedBy k op) tpm else 0
  | None => 0
  end.

Definition refillTime (k : string) (ops : list (quotaEnv * qop)) : Z :=
  foldr Z.add 0 ((fun '(_, op) => refillBy k op) <$> ops).

(** The configuration the operations publish on a key, and the arithmetic's range. *)
Definition publishes (C : Z -> Z -> Prop) (k : string) (op : qop) : Prop :=
  match configOf k op with Some (l, b) => C l b | None => True end.

(** One operation of the traces of the spend bound: the clock has not gone
    back behind the start of the interval, the limits it publishes on the key are
    in range, a peer's rows carry a drain time in range, and the entry is not
    evicted. *)
Definition op_admissible (C : Z -> Z -> Prop) (k : string) (t0 : Z) (eo : quotaEnv * qop) : Prop :=
  let '(env, op) := eo in
  env_ok env /\ time_ok (quotaNowMs env) /\ t0 <= quotaNowMs env /\ publishes C k op /\
  match op with
  | OpImport es | OpGossip es => Forall (fun e => wConsumed e <= 1152921504606846976) es
  | OpCleanup _ => False
  | _ => True
  end.

(** *** How each operation moves the drain time *)

Lemma reserveEntry_tat env w l bp e :
  tatMs (reserveEntry env w l bp e).2 = tatMs e /\
  limitTokens (reserveEntry env w l bp e).2 = l /\ burstPct (reserveEntry env w l bp e).2 = bp.
Proof.
  unfold reserveEntry. zcase; [|zcase]; simpl; unfold reservedSubClamp; simpl;
    autorewrite with igw; done.
Qed.

Lemma reserveElasticEntry_tat env f el l bp e :
  tatMs (reserveElasticEntry env f el l bp e).2 = tatMs e /\
  limitTokens (reserveElasticEntry env f el l bp e).2 = l /\
  burstPct (reserveElasticEntry env f el l bp e).2 = bp.
Proof.
  unfold reserveElasticEntry. zcase; [simpl; by autorewrite with igw|].
  zcase; [zcase|]; repeat zcase; simpl; unfold reservedSubClamp; simpl;
    autorewrite with igw; done.
Qed.

Lemma releaseEntry_tat a ep e :
  tatMs (releaseEntry a ep e) = tatMs e /\ limitTokens (releaseEntry a ep e) = limitTokens e /\
  burstPct (releaseEntry a ep e) = burstPct e.
Proof. unfold releaseEntry, claimsSubClamp, reservedSubClamp. repeat zcase; done. Qed.

Lemma trimEntry_tat a ep e :
  tatMs (trimEntry a ep e) = tatMs e /\ limitTokens (trimEntry a ep e) = limitTokens e /\
  burstPct (trimEntry a ep e) = burstPct e.
Proof. unfold trimEntry, reservedSubClamp. repeat zcase; done. Qed.

(** What the quota map holds for a key changes only through [putEntry]. *)
Definition sameEntry (k : string) (s s' : RateLimiterStore) : Prop :=
  loadOrStore s' k = loadOrStore s k.

Lemma sameEntry_put k k' e s : k' <> k -> sameEntry k s (putEntry k' e s).
Proof. intros. by apply load_put_ne. Qed.

Lemma load_endQuotaWarmup b k s : loadOrStore (endQuotaWarmup b s) k = loadOrStore s k.
Proof. unfold endQuotaWarmup. by zcase. Qed.

Lemma load_Import es k s :
  loadOrStore (ImportState es s) k = loadOrStore (foldr mergeStep s es) k.
Proof. rewrite ImportState_eq. zcase; [apply load_endQuotaWarmup|done]. Qed.

(** [SettleTokens] is the release followed by the plain charge. *)
Lemma SettleTokens_split env k a r ep tpm bp s :
  exists s1, SettleTokens env k a r ep tpm bp s =
    (if a <=? 0 then ((true, 0), s1) else AllowTokens env k a tpm bp s1) /\
  (forall k', loadOrStore s1 k' = loadOrStore s k' \/
     (k' = k /\ exists e, quotaMap s !! k = Some e /\ reservedEpoch e = ep /\
        loadOrStore s1 k' = claimsSubClamp (reservedSubClamp e r))).
Proof.
  unfold SettleTokens.
  destruct ((0 <? r) && (0 <? ep)); [|exists s; split; [reflexivity|auto]].
  destruct (quotaMap s !! k) as [e|] eqn:Hk; [|exists s; split; [reflexivity|auto]].
  destruct (Z.eqb_spec (reservedEpoch e) ep) as [Hep|]; [|exists s; split; [reflexivity|auto]].
  exists (putEntry k (claimsSubClamp (reservedSubClamp e r)) s).
  split; [reflexivity|]. intros k'. destruct (decide (k' = k)) as [->|].
  - right. split; [done|]. exists e. split_and!; [done|done|apply load_put_eq].
  - left. by apply load_put_ne.
Qed.

(** The charge on one key, with no wrap-around. *)
Lemma AllowTokens_load env k c limit bp s k' :
  0 < limit -> 0 < c ->
  loadOrStore (AllowTokens env k c limit bp s).2 k' =
  if decide (k' = k) then (allowEntry env c limit bp (loadOrStore s k)).2 else loadOrStore s k'.
Proof.
  intros Hl Hc. unfold AllowTokens.
  destruct (Z.leb_spec limit 0); [lia|]. destruct (Z.leb_spec c 0); [lia|]. cbn [orb].
  destruct (allowEntry env c limit bp (loadOrStore s k)) as [r e]. cbn [snd].
  case_decide as Hd; [subst; by rewrite load_put_eq|by rewrite load_put_ne].
Qed.

(** How one admissible operation moves the bucket of [k]: it either leaves the
    drain time at least where it was without charging, or charges exactly
    [chargedBy k op] tokens from the later of the drain time and now. *)
Definition quiet (C : Z -> Z -> Prop) (e e' : tokenWindowEntry) : Prop :=
  tatMs e <= tatMs e' <= Z.max (tatMs e) 1152921504606846976 /\
  ((limitTokens e' = limitTokens e /\ burstPct e' = burstPct e) \/ C (limitTokens e') (burstPct e')).

Definition charges (env : quotaEnv) (c limit bp : Z) (e e' : tokenWindowEntry) : Prop :=
  tatMs e' = i64 (Z.max (tatMs e) (quotaNowMs env) + refillCeilMs c limit) /\
  limitTokens e' = limit /\ burstPct e' = bp.

Lemma quiet_refl C e : quiet C e e.
Proof. unfold quiet. split; [lia|auto]. Qed.

Lemma quiet_same C e e' :
  tatMs e' = tatMs e -> limitTokens e' = limitTokens e -> burstPct e' = burstPct e -> quiet C e e'.
Proof. unfold quiet. intros -> -> ->. split; [lia|auto]. Qed.

Lemma quiet_config (C : Z -> Z -> Prop) limit bp e e' :
  tatMs e' = tatMs e -> limitTokens e' = limit -> burstPct e' = bp -> C limit bp -> quiet C e e'.
Proof. unfold quiet. intros -> -> -> ?. split; [lia|auto]. Qed.

Lemma allowEntry_charges env c limit bp e :
  charges env c limit bp e (allowEntry env c limit bp e).2.
Proof. unfold charges. rewrite allowEntry_shape. simpl. by autorewrite with igw. Qed.

(** The published configuration of an operation on the key itself. *)
Lemma config_eq (C : Z -> Z -> Prop) k k' (tpm bp : Z) :
  match (if (k' ==s k) && (0 <? tpm) then Some (tpm, bp) else None) with
  | Some (l, b) => C l b | None => True
  end -> k' = k -> 0 < tpm -> C tpm bp.
Proof. intros H -> Hp. rewrite String.eqb_refl in H. by destruct (Z.ltb_spec 0 tpm); [|lia]. Qed.

Lemma chargedIf_eq k k' tpm c :
  k' = k -> 0 < tpm -> (if (k' ==s k) && (0 <? tpm) then Z.max c 0 else 0) = Z.max c 0.
Proof. intros -> Hp. rewrite String.eqb_refl. by destruct (Z.ltb_spec 0 tpm); [|lia]. Qed.

Lemma chargedIf_ne k k' tpm c :
  k' <> k -> (if (k' ==s k) && (0 <? tpm) then Z.max c 0 else 0) = 0.
Proof. intros H. by destruct (String.eqb_spec k' k). Qed.

Lemma AllowTokens_step C env k k' c tpm bp s :
  (k' = k -> 0 < tpm -> C tpm bp) ->
  let e := loadOrStore s k in
  let e' := loadOrStore (AllowTokens env k' c tpm bp s).2 k in
  let n := if (k' ==s k) && (0 <? tpm) then Z.max c 0 else 0 in
  (n = 0 /\ quiet C e e') \/ (0 < n /\ k' = k /\ 0 < tpm /\ charges env n tpm bp e e').
Proof.
  intros Hc e e' n.
  destruct (Z.le_gt_cases tpm 0) as [H0|H0];
    [|destruct (Z.le_gt_cases c 0) as [H1|H1]].
  - left. unfold n, e', AllowTokens. destruct (Z.leb_spec tpm 0); [|lia].
    destruct (Z.ltb_spec 0 tpm); [lia|]. rewrite andb_false_r. cbn [orb snd].
    split; [done|apply quiet_refl].
  - left. unfold n, e', AllowTokens. destruct (Z.leb_spec c 0); [|lia].
    rewrite orb_true_r. cbn [snd]. split; [|apply quiet_refl].
    destruct (_ && _); lia.
  - unfold e'. rewrite AllowTokens_load by done. case_decide as Hd.
    + right. symmetry in Hd. unfold n. rewrite chargedIf_eq by done.
      rewrite Z.max_l by lia. split_and!; [lia|done|done|].
      rewrite Hd. apply allowEntry_charges.
    + left. unfold n. rewrite chargedIf_ne by congruence. split; [done|apply quiet_refl].
Qed.

Lemma quiet_put C k k' e' s :
  (k' = k -> quiet C (loadOrStore s k) e') ->
  quiet C (loadOrStore s k) (loadOrStore (putEntry k' e' s) k).
Proof.
  intros H. destruct (decide (k' = k)) as [->|Hne].
  - rewrite load_put_eq. auto.
  - rewrite load_put_ne by done. apply quiet_refl.
Qed.

Lemma load_of_lookup k e s : quotaMap s !! k = Some e -> loadOrStore s k = e.
Proof. unfold loadOrStore. by intros ->. Qed.

Lemma foldr_max_le (l : list Z) z b : Forall (fun x => x <= b) l -> foldr Z.max z l <= Z.max z b.
Proof. induction 1; simpl; lia. Qed.

Lemma Import_quiet C k es s :
  Forall (fun e => wConsumed e <= 1152921504606846976) es ->
  quiet C (loadOrStore s k) (loadOrStore (ImportState es s) k).
Proof.
  intros Hes. rewrite load_Import, foldr_mergeStep_load. unfold quiet. simpl.
  split; [|auto]. split; [apply foldr_max_ge; set_solver|].
  apply foldr_max_le. apply Forall_fmap.
  apply Forall_forall. intros e [_ He]%list_elem_of_filter.
  rewrite Forall_forall in Hes. simpl. auto.
Qed.

Lemma Settle_step C env k k' a r ep tpm bp s :
  (k' = k -> 0 < tpm -> C tpm bp) ->
  let e := loadOrStore s k in
  let e' := loadOrStore (SettleTokens env k' a r ep tpm bp s).2 k in
  let n := if (k' ==s k) && (0 <? tpm) then Z.max a 0 else 0 in
  (n = 0 /\ quiet C e e') \/ (0 < n /\ k' = k /\ 0 < tpm /\ charges env n tpm bp e e').
Proof.
  intros Hc e e' n. unfold e'.
  destruct (SettleTokens_split env k' a r ep tpm bp s) as (s1 & -> & Hs1).
  assert (tatMs (loadOrStore s1 k) = tatMs e /\ limitTokens (loadOrStore s1 k) = limitTokens e /\
          burstPct (loadOrStore s1 k) = burstPct e) as (Ht & Hl & Hb).
  { destruct (Hs1 k) as [->|(-> & e0 & He0 & Hep & ->)]; [done|].
    unfold e. rewrite (load_of_lookup _ _ _ He0).
    destruct (releaseEntry_tat r ep e0) as (H1 & H2 & H3). unfold releaseEntry in *.
    rewrite Hep, Z.eqb_refl in *. done. }
  destruct (Z.leb_spec a 0).
  - left. split; [unfold n; destruct (_ && _); lia|]. by apply quiet_same.
  - destruct (AllowTokens_step C env k k' a tpm bp s1 Hc) as [[? Hq]|(? & ? & ? & Hq)]; [left|right].
    + split; [done|]. unfold quiet in *. rewrite Ht, Hl, Hb in Hq. exact Hq.
    + split_and!; try done. unfold charges in *. rewrite Ht in Hq. exact Hq.
Qed.

Lemma Reserve_quiet C env k k' w tpm bp s :
  (k' = k -> 0 < tpm -> C tpm bp) ->
  quiet C (loadOrStore s k) (loadOrStore (ReserveTokens env k' w tpm bp s).2 k).
Proof.
  intros Hc. unfold ReserveTokens.
  destruct ((tpm <=? 0) || (w <=? 0)) eqn:Hg; [apply quiet_refl|]. split_bools.
  pose proof (reserveEntry_tat env w tpm bp (loadOrStore s k')) as (H1 & H2 & H3).
  destruct (reserveEntry env w tpm bp (loadOrStore s k')) as [r e']. cbn [snd] in *.
  apply quiet_put. intros ->. eapply quiet_config; eauto.
Qed.

Lemma Elastic_quiet C env k k' f el tpm bp s :
  (k' = k -> 0 < tpm -> C tpm bp) ->
  quiet C (loadOrStore s k) (loadOrStore (ReserveTokensElastic env k' f el tpm bp s).2 k).
Proof.
  intros Hc. unfold ReserveTokensElastic. cbv zeta.
  generalize (if f <? 0 then 0 else f). intros f'.
  destruct (el <=? 0) eqn:He.
  - pose proof (Reserve_quiet C env k k' f' tpm bp s Hc) as Hq.
    destruct (ReserveTokens env k' f' tpm bp s) as [[[a r] ep] s']. exact Hq.
  - destruct (tpm <=? 0) eqn:Ht; [apply quiet_refl|]. split_bools.
    pose proof (reserveElasticEntry_tat env f' el tpm bp (loadOrStore s k')) as (H1 & H2 & H3).
    destruct (reserveElasticEntry env f' el tpm bp (loadOrStore s k')) as [r e']. cbn [snd] in *.
    apply quiet_put. intros ->. eapply quiet_config; eauto.
Qed.

Lemma Release_quiet C k k' a ep s :
  quiet C (loadOrStore s k) (loadOrStore (ReleaseReservation k' a ep s) k) /\
  quiet C (loadOrStore s k) (loadOrStore (TrimReservation k' a ep s) k).
Proof.
  unfold ReleaseReservation, TrimReservation.
  destruct (_ || _); [split; apply quiet_refl|].
  destruct (quotaMap s !! k') as [e|] eqn:He; [|split; apply quiet_refl].
  destruct (releaseEntry_tat a ep e) as (H1 & H2 & H3).
  destruct (trimEntry_tat a ep e) as (H4 & H5 & H6).
  split; apply quiet_put; intros ->; rewrite (load_of_lookup _ _ _ He); by apply quiet_same.
Qed.

Lemma load_check now id r b s k : loadOrStore (check now id r b s).2 k = loadOrStore s k.
Proof.
  unfold check. destruct (Reserve _ _) as [[ok d] l]. by destruct ok; [zcase|].
Qed.

(** Every operation other than eviction either charges the key or leaves its
    drain time in place or ahead. *)
Lemma runOp_step C k t0 env op s :
  op_admissible C k t0 (env, op) ->
  let e := loadOrStore s k in
  let e' := loadOrStore (runOp env op s) k in
  (chargedBy k op = 0 /\ quiet C e e') \/
  (0 < chargedBy k op /\ exists tpm bp, configOf k op = Some (tpm, bp) /\ C tpm bp /\
     charges env (chargedBy k op) tpm bp e e').
Proof.
  intros (_ & _ & _ & Hcfg & Hop) e e'. unfold e, e'.
  assert (forall k' tpm bp n e e', (k' = k -> 0 < tpm -> C tpm bp) ->
    (n = 0 /\ quiet C e e') \/ (0 < n /\ k' = k /\ 0 < tpm /\ charges env n tpm bp e e') ->
    (n = 0 /\ quiet C e e') \/ (0 < n /\ exists l b,
      (if (k' ==s k) && (0 <? tpm) then Some (tpm, bp) else None) = Some (l, b) /\ C l b /\ charges env n l b e e')) as Hw.
  { intros k' tpm bp n e1 e2 HC [?|(Hn & -> & Hp & Hch)]; [by left|right]. split; [done|]. exists tpm, bp.
    rewrite String.eqb_refl. destruct (Z.ltb_spec 0 tpm); [|lia]. auto. }
  unfold publishes in Hcfg.
  destruct op; simpl in Hcfg |- *; try (left; split; [reflexivity|]).
  - apply Hw; [by apply config_eq|]. apply AllowTokens_step. by apply config_eq.
  - apply Reserve_quiet. by apply config_eq.
  - apply Elastic_quiet. by apply config_eq.
  - apply Hw; [by apply config_eq|]. apply Settle_step. by apply config_eq.
  - apply Release_quiet.
  - apply Release_quiet.
  - by apply Import_quiet.
  - rewrite ApplyGossipDelta_ImportState. by apply Import_quiet.
  - rewrite load_check. apply quiet_refl.
  - apply quiet_refl.
  - unfold StartQuotaWarmup. destruct (_ <=? _); apply quiet_refl.
  - rewrite load_endQuotaWarmup. apply quiet_refl.
  - done.
Qed.

(** The invariant of the spend bound, after [ch] tokens of refill time [rt] were
    charged since [t0]. *)
Definition spend_inv (C : Z -> Z -> Prop) (t0 ch rt : Z) (e : tokenWindowEntry) : Prop :=
  0 <= ch /\ tatMs e <= 1152921504606846976 + 60000 * ch /\
  (ch = 0 /\ rt = 0 \/ (t0 + rt <= tatMs e /\ C (limitTokens e) (burstPct e))).

Lemma spend_inv_quiet C t0 ch rt e e' :
  quiet C e e' -> spend_inv C t0 ch rt e -> spend_inv C t0 ch rt e'.
Proof.
  intros [Ht Hc] (H1 & H2 & H3). unfold spend_inv. split; [done|]. split; [lia|].
  destruct H3 as [?|[H3 H4]]; [by left|right].
  split; [lia|]. by destruct Hc as [[-> ->]|?].
Qed.

Lemma spend_inv_charge (C : Z -> Z -> Prop) env limit bp t0 ch rt c e e' :
  limit_ok limit -> C limit bp -> time_ok (quotaNowMs env) -> 0 <= t0 <= quotaNowMs env ->
  0 < c -> ch + c <= 70368744177664 -> charges env c limit bp e e' ->
  spend_inv C t0 ch rt e -> spend_inv C t0 (ch + c) (rt + refillCeilMs c limit) e'.
Proof.
  intros Hl HC Hn Ht0 Hc Hb (Htat & Hlim & Hbp) (H1 & H2 & H3).
  assert (tokens_ok c) as Htok by (unbound; lia).
  pose proof (refillCeilMs_bounds c limit Htok Hl) as [Hrb _].
  unbound. rewrite i64_id in Htat by (unfold in_i64, two63; lia).
  unfold spend_inv. split; [lia|]. rewrite Htat, Hlim, Hbp. split; [lia|]. right.
  split; [|done]. destruct H3 as [[-> ->]|[H3 _]]; lia.
Qed.

Lemma runOps_cons eo ops s : runOps (eo :: ops) s = runOps ops (runOp eo.1 eo.2 s).
Proof. by destruct eo. Qed.

Lemma charged_nonneg k ops : 0 <= charged k ops.
Proof.
  induction ops as [|[env op] ops IH]; [unfold charged; simpl; lia|].
  change (charged k ((env, op) :: ops)) with (chargedBy k op + charged k ops).
  assert (0 <= chargedBy k op); [|lia].
  destruct op; simpl; try lia; destruct (_ && _); lia.
Qed.

Lemma refillBy_none k op : chargedBy k op = 0 -> refillBy k op = 0.
Proof. unfold refillBy. intros ->. by destruct (configOf k op) as [[]|]. Qed.

Lemma spend_inv_runOps (C : Z -> Z -> Prop) k t0 ops : (forall l b, C l b -> limit_ok l) -> 0 <= t0 ->
  Forall (op_admissible C k t0) ops ->
  forall s ch rt, spend_inv C t0 ch rt (loadOrStore s k) -> ch + charged k ops <= 70368744177664 ->
  spend_inv C t0 (ch + charged k ops) (rt + refillTime k ops) (loadOrStore (runOps ops s) k).
Proof.
  intros HC Ht0 Hops. induction Hops as [|[env op] ops Hop Hops IH]; intros s ch rt Hi Hb.
  - unfold charged, refillTime. simpl. rewrite !Z.add_0_r. exact Hi.
  - rewrite runOps_cons. cbn [fst snd].
    pose proof (charged_nonneg k ops) as Hnn.
    change (charged k ((env, op) :: ops)) with (chargedBy k op + charged k ops) in *.
    change (refillTime k ((env, op) :: ops)) with (refillBy k op + refillTime k ops) in *.
    rewrite !Z.add_assoc in *.
    apply IH; [|done].
    destruct (runOp_step C k t0 env op s Hop) as [[H0 Hq]|(Hpos & tpm & bp & Hcfg & HCl & Hq)].
    + rewrite (refillBy_none _ _ H0), H0, !Z.add_0_r. eapply spend_inv_quiet; eauto.
    + destruct Hop as (_ & Hn & Hle & _).
      assert (refillBy k op = refillCeilMs (chargedBy k op) tpm) as ->.
      { unfold refillBy. rewrite Hcfg. by destruct (Z.ltb_spec 0 (chargedBy k op)); [|lia]. }
      eapply spend_inv_charge; eauto; lia.
Qed.

(** With one limit, the refill time of the charges covers their tokens. *)
Lemma refillTime_covers k limit bp ops : limit_ok limit -> charged k ops <= 70368744177664 ->
  Forall (fun eo => publishes (fun l b => l = limit /\ b = bp) k eo.2) ops ->
  60000 * charged k ops <= limit * refillTime k ops.
Proof.
  intros Hl Hb Hops. induction Hops as [|[env op] ops Hop Hops IH]; [unfold charged, refillTime; simpl; lia|].
  pose proof (charged_nonneg k ops). pose proof (charged_nonneg k [(env, op)]) as H1.
  change (charged k ((env, op) :: ops)) with (chargedBy k op + charged k ops) in *.
  change (charged k [(env, op)]) with (chargedBy k op + 0) in H1.
  change (refillTime k ((env, op) :: ops)) with (refillBy k op + refillTime k ops).
  assert (60000 * chargedBy k op <= limit * refillBy k op) as Hone; [|lia].
  unfold refillBy, publishes in *. simpl in Hop. destruct (Z.ltb_spec 0 (chargedBy k op)) as [Hp|]; [|
    destruct (configOf k op) as [[]|]; lia].
  assert (exists l b, configOf k op = Some (l, b)) as (l & b & Hc).
  { destruct op; simpl in *; try lia; destruct (_ && _); try lia; eauto. }
  rewrite Hc in Hop |- *. destruct Hop as [-> _].
  assert (tokens_ok (chargedBy k op)) as Ht by (unbound; lia).
  pose proof (refillCeilMs_spec _ limit Ht Hl). unbound. lia.
Qed.

(** A bucket that is not in debt is drained within its capacity's refill time. *)
Lemma not_exceeded C k t0 ch rt env1 s :
  (forall l b, C l b -> limit_ok l) -> env_ok env1 -> time_ok (quotaNowMs env1) -> 0 <= t0 -> 0 < ch <= 70368744177664 -> 0 <= rt ->
  spend_inv C t0 ch rt (loadOrStore s k) -> IsTokenQuotaExceeded env1 k s = false ->
  let e := loadOrStore s k in
  C (limitTokens e) (burstPct e) /\
  rt <= refillCeilMs (burstTokensFor env1 (limitTokens e) (burstPct e)) (limitTokens e) + (quotaNowMs env1 - t0).
Proof.
  intros HC He Hn Ht0 Hch Hrt (H1 & H2 & H3) Hex e. destruct H3 as [[? _]|[H3 H4]]; [lia|].
  split; [done|]. pose proof (HC _ _ H4) as Hl. unfold IsTokenQuotaExceeded in Hex. unfold e, loadOrStore in *.
  destruct (quotaMap s !! k) as [e0|]; simpl in *; [|unfold zeroEntry in *; simpl in *; unbound; lia].
  unfold exceededEntry in Hex. destruct (Z.leb_spec (limitTokens e0) 0); [unbound; lia|].
  unbound. rewrite i64_id in Hex by (unfold in_i64, two63; lia). split_bools. lia.
Qed.

Lemma refillTime_nonneg C k t0 ops : (forall l b, C l b -> limit_ok l) -> Forall (op_admissible C k t0) ops ->
  charged k ops <= 70368744177664 -> 0 <= refillTime k ops.
Proof.
  intros HC Hops. induction Hops as [|[env op] ops Hop Hops IH]; [unfold refillTime; simpl; lia|].
  pose proof (charged_nonneg k ops). pose proof (charged_nonneg k [(env, op)]) as H1.
  change (charged k ((env, op) :: ops)) with (chargedBy k op + charged k ops).
  change (charged k [(env, op)]) with (chargedBy k op + 0) in H1.
  change (refillTime k ((env, op) :: ops)) with (refillBy k op + refillTime k ops). intros Hb.
  assert (0 <= refillBy k op); [|lia]. destruct Hop as (_ & _ & _ & Hp & _). unfold refillBy, publishes in *.
  destruct (configOf k op) as [[l b]|]; [|lia]. zcase; [|lia].
  apply (refillCeilMs_bounds (chargedBy k op) l); [unbound; lia|by eapply HC].
Qed.

(** C1: Over every interval, what is charged to a bucket that is not in debt at
    the interval's end is bounded by its capacity plus the refill of the interval,
    for any sequence of the package's operations on any keys, peer merges and clock
    ticks included.  With the limits of the key changing in any way during the
    interval: the sum of the refill times of the charges, each at the limit it was
    charged at, is at most the refill time of the capacity of the last published
    limits plus the length of the interval.  With one limit and burst percentage
    throughout: the tokens charged are less than the burst capacity plus the refill
    of the interval and one more millisecond of it.  The interval starts at [t0]
    from any bucket whose drain time is in range; the clock does not step back
    before [t0], the limits are below 2^31, the tokens charged at most 2^46 in
    all, peer rows carry drain times in range, and the bucket is not evicted
    during the interval. *)
Theorem spend_bounded_every_interval k t0 ops s env1 :
  env_ok env1 -> time_ok (quotaNowMs env1) -> 0 <= t0 <= quotaNowMs env1 ->
  tatMs (loadOrStore s k) <= 1152921504606846976 ->
  Forall (op_admissible (fun l _ => limit_ok l) k t0) ops -> charged k ops <= 70368744177664 ->
  IsTokenQuotaExceeded env1 k (runOps ops s) = false ->
  let e := loadOrStore (runOps ops s) k in
  (0 < charged k ops ->
   refillTime k ops <=
     refillCeilMs (burstTokensFor env1 (limitTokens e) (burstPct e)) (limitTokens e) + (quotaNowMs env1 - t0)) /\
  (forall limit bp, limit_ok limit ->
   Forall (fun eo => publishes (fun l b => l = limit /\ b = bp) k eo.2) ops ->
   60000 * charged k ops <
     60000 * burstTokensFor env1 limit bp + limit * (quotaNowMs env1 - t0 + 1)).
Proof.
  intros He Hn Ht0 Htat Hops Hb Hex e. split.
  - intros Hpos. assert (forall l b : Z, limit_ok l -> limit_ok l) as HC by auto.
    eapply (not_exceeded (fun l _ => limit_ok l)); eauto; [lia|by eapply refillTime_nonneg; eauto|].
    rewrite <- (Z.add_0_l (charged k ops)), <- (Z.add_0_l (refillTime k ops)).
    apply spend_inv_runOps; auto; [lia|]. unfold spend_inv. split; [lia|]. split; [lia|by left].
  - intros limit bp Hl Hcfg. set (C := fun l b : Z => l = limit /\ b = bp) in *.
    assert (forall l b, C l b -> limit_ok l) as HC by (by intros l b [-> _]).
    assert (Forall (op_admissible C k t0) ops) as Hops'.
    { apply Forall_forall. intros [env op] Hin. rewrite Forall_forall in Hops, Hcfg.
      specialize (Hops _ Hin). specialize (Hcfg _ Hin). simpl in *. destruct Hops as (? & ? & ? & _ & ?). done. }
    pose proof (burstTokensFor_bounds env1 limit bp He Hl) as Hbb.
    pose proof (refillCeilMs_spec _ limit (burst_tokens_ok env1 limit bp He Hl) Hl) as Hr.
    pose proof (refillTime_covers k limit bp ops Hl Hb Hcfg) as Hcov. pose proof (charged_nonneg k ops) as Hnn.
    destruct (Z.eq_dec (charged k ops) 0) as [H0|H0]; [unbound; nia|].
    assert (spend_inv C t0 (charged k ops) (refillTime k ops) (loadOrStore (runOps ops s) k)) as Hi.
    { rewrite <- (Z.add_0_l (charged k ops)), <- (Z.add_0_l (refillTime k ops)).
      apply spend_inv_runOps; auto; [lia|]. unfold spend_inv. split; [lia|]. split; [lia|by left]. }
    destruct (not_exceeded C k t0 (charged k ops) (refillTime k ops) env1 (runOps ops s) HC He Hn ltac:(lia) ltac:(lia)
      (refillTime_nonneg C k t0 ops HC Hops' Hb) Hi Hex) as [[E1 E2] Hle].
    rewrite E1, E2 in Hle. unbound. nia.
Qed.

End Trace.

Definition demoOps : list (quotaEnv * qop) :=
  [(envAt 10 600000, OpReserve "acme" 50 100 0);
   (envAt 10 600100, OpSettle "acme" 60 50 10 100 0);
   (envAt 10 600200, OpImport [WireEntry "t:acme" 0 0 true 10 636150 false 0]);
   (envAt 10 612000, OpAllow "acme" 30 100 0)].

Lemma spend_bounded_witness :
  refillTime "acme" demoOps <= refillCeilMs (burstTokensFor (envAt 10 612500) 100 0) 100 + (612500 - 600000) /\
  60000 * charged "acme" demoOps <
    60000 * burstTokensFor (envAt 10 612500) 100 0 + 100 * (612500 - 600000 + 1).
Proof.
  destruct (spend_bounded_every_interval "acme" 600000 demoOps New (envAt 10 612500)) as [H1 H2].
  - apply envAt_ok.
  - unfold time_ok. simpl. lia.
  - simpl. lia.
  - vm_compute. discriminate.
  - repeat constructor; try apply envAt_ok; simpl; try lia; auto;
      vm_compute; discriminate.
  - vm_compute. discriminate.
  - vm_compute. reflexivity.
  - split; [apply H1; vm_compute; reflexivity|]. apply (H2 100 0); [unfold limit_ok; lia|].
    repeat constructor.
Defined.

(** ** The verdict of a charge *)

Section Verdict.
Context {RL : RateLib}.

(** The same knobs at another instant. *)
Definition laterBy (ms : Z) (epoch : Z) (env : quotaEnv) : quotaEnv :=
  QuotaEnv (quotaEvictAfterWindows env) (quotaBurstPct env) epoch (quotaNowMs env + ms).

Lemma laterBy_burst ms ep env limit bp :
  burstTokensFor (laterBy ms ep env) limit bp = burstTokensFor env limit bp.
Proof. done. Qed.

Lemma bucket_ok_later env limit e ms ep :
  0 < limit -> bucket_ok env limit e -> 0 <= ms -> time_ok (quotaNowMs env + ms) -> 0 <= ep ->
  bucket_ok (laterBy ms ep env) limit e.
Proof.
  intros Hl (H1 & H2 & H3 & H4 & H5 & H6 & H7) Hms Ht Hep. unfold bucket_ok. cbn [laterBy quotaNowMs currentQuotaEpoch].
  assert ((tatMs e - (quotaNowMs env + ms)) * limit <= (tatMs e - quotaNowMs env) * limit) by nia.
  split_and!; try done. lia.
Qed.

(** Whether a bucket is in debt past its capacity, with no wrap-around. *)
Lemma exceededEntry_eq env limit e :
  limitTokens e = limit -> 0 < limit -> in_i64 (tatMs e - quotaNowMs env) ->
  exceededEntry env e =
  (refillCeilMs (burstTokensFor env limit (burstPct e)) limit <? tatMs e - quotaNowMs env).
Proof.
  intros <- Hl Hi. unfold exceededEntry. destruct (Z.leb_spec (limitTokens e) 0); [lia|].
  by rewrite i64_id.
Qed.

Lemma AllowTokens_put env k c limit bp s :
  0 < limit -> 0 < c ->
  AllowTokens env k c limit bp s =
  ((allowEntry env c limit bp (loadOrStore s k)).1,
   putEntry k (allowEntry env c limit bp (loadOrStore s k)).2 s).
Proof.
  intros. unfold AllowTokens. destruct (Z.leb_spec limit 0); [lia|].
  destruct (Z.leb_spec c 0); [lia|]. cbn [orb].
  by destruct (allowEntry env c limit bp (loadOrStore s k)).
Qed.

Lemma exceeded_put env k e s : IsTokenQuotaExceeded env k (putEntry k e s) = exceededEntry env e.
Proof. unfold IsTokenQuotaExceeded, putEntry. simpl. by rewrite lookup_insert_eq. Qed.

(** [allowEntry] decided on the drain time after the charge. *)
Lemma allowEntry_verdict env c limit bp e :
  limit_ok limit -> env_ok env -> time_ok (quotaNowMs env) -> 0 < c -> tokens_ok c ->
  tatMs e <= 1152921504606846976 ->
  let e' := (allowEntry env c limit bp e).2 in
  let over := tatMs e' - quotaNowMs env - refillCeilMs (burstTokensFor env limit bp) limit in
  tatMs e' = Z.max (tatMs e) (quotaNowMs env) + refillCeilMs c limit /\
  0 <= tatMs e' - quotaNowMs env <= 5375046155266686976 /\
  (allowEntry env c limit bp e).1 =
    if 0 <? over then (false, Z.max (Z.min ((over + 999) / 1000) 60) 1) else (true, 0).
Proof.
  intros Hl He Hn Hc Ht Htat e' over.
  pose proof (refillCeilMs_bounds c limit Ht Hl) as [Hrb _].
  pose proof (burstMs_bounds env limit bp He Hl) as Hm.
  assert (tatMs e' = Z.max (tatMs e) (quotaNowMs env) + refillCeilMs c limit) as Hte.
  { unfold e'. rewrite allowEntry_shape. simpl. apply i64_id. unbound.
    unfold in_i64, two63. lia. }
  unbound. split; [done|]. split; [lia|].
  unfold over. rewrite Hte. unfold allowEntry, chargeTat. cbv beta iota zeta.
  rewrite touch_tat. change (tatMs (publish limit bp e)) with (tatMs e).
  unfold epochSeconds.
  rewrite (i64_id (Z.max (tatMs e) (quotaNowMs env) + refillCeilMs c limit))
    by (unfold in_i64, two63; lia).
  set (d := Z.max (tatMs e) (quotaNowMs env) + refillCeilMs c limit - quotaNowMs env) in *.
  rewrite (i64_id d) by (unfold in_i64, two63; lia).
  set (b := refillCeilMs (burstTokensFor env limit bp) limit) in *.
  destruct (Z.ltb_spec b d); destruct (Z.ltb_spec 0 (d - b)); try lia; cbn [fst]; [|done].
  rewrite (i64_id (d - b)) by (unfold in_i64, two63; lia).
  rewrite (i64_id (d - b + 999)) by (unfold in_i64, two63; lia).
  by rewrite quot_floor by lia.
Qed.

(** A charge always lands, and its verdict is the verdict the read path gives
    right after it.  The advised retry is exact: between 1 and 60 seconds, and
    below the cap the bucket is out of debt after that many seconds and still
    in debt one second earlier. *)
Theorem charge_verdict_and_retry env k c limit bp s :
  limit_ok limit -> env_ok env -> time_ok (quotaNowMs env) -> 0 < c -> tokens_ok c ->
  tatMs (loadOrStore s k) <= 1152921504606846976 ->
  let '((ok, retry), s') := AllowTokens env k c limit bp s in
  tatMs (loadOrStore s' k) =
    Z.max (tatMs (loadOrStore s k)) (quotaNowMs env) + refillCeilMs c limit /\
  IsTokenQuotaExceeded env k s' = negb ok /\
  (ok = true -> retry = 0) /\
  (ok = false -> 1 <= retry <= 60 /\
     (retry < 60 -> forall ep, IsTokenQuotaExceeded (laterBy (1000 * retry) ep env) k s' = false) /\
     forall ep, IsTokenQuotaExceeded (laterBy (1000 * (retry - 1)) ep env) k s' = true).
Proof.
  intros Hl He Hn Hc Ht Htat. rewrite AllowTokens_put by (unbound; lia).
  destruct (allowEntry_verdict env c limit bp _ Hl He Hn Hc Ht Htat) as (H1 & H2 & H3).
  pose proof (burstMs_bounds env limit bp He Hl) as Hm.
  destruct (allowEntry_charges env c limit bp (loadOrStore s k)) as (_ & H4 & H5).
  destruct (allowEntry env c limit bp (loadOrStore s k)) as [[ok retry] e']. cbn [fst snd] in *.
  set (over := tatMs e' - quotaNowMs env - refillCeilMs (burstTokensFor env limit bp) limit) in *.
  assert (forall ms ep, 0 <= ms <= 60000 ->
    IsTokenQuotaExceeded (laterBy ms ep env) k (putEntry k e' s) = (ms <? over)) as Hex.
  { intros ms ep Hms. rewrite exceeded_put.
    rewrite (exceededEntry_eq _ limit) by (simpl; unbound; try done; unfold in_i64, two63; lia).
    rewrite laterBy_burst, H5. simpl. unfold over.
    destruct (Z.ltb_spec ms (tatMs e' - quotaNowMs env - refillCeilMs (burstTokensFor env limit bp) limit));
      [apply Z.ltb_lt|apply Z.ltb_ge]; lia. }
  rewrite load_put_eq. split; [done|].
  assert (IsTokenQuotaExceeded env k (putEntry k e' s) = (0 <? over)) as Hex0.
  { rewrite <- (Hex 0 0) by lia. unfold laterBy. rewrite Z.add_0_r, !exceeded_put. by destruct env. }
  rewrite Hex0. destruct (Z.ltb_spec 0 over) as [Ho|Ho]; injection H3 as -> ->.
  - split; [done|]. split; [done|]. intros _.
    pose proof (Z.div_mod (over + 999) 1000 ltac:(lia)).
    pose proof (Z.mod_pos_bound (over + 999) 1000 ltac:(lia)).
    split; [lia|]. split; [intros Hr|]; intros ep; rewrite Hex by lia;
      [apply Z.ltb_ge|apply Z.ltb_lt]; lia.
  - done.
Qed.

End Verdict.

Lemma charge_verdict_witness :
  let s' := (AllowTokens (envAt 10 600000) "acme" 130 100 0 New).2 in
  (AllowTokens (envAt 10 600000) "acme" 130 100 0 New).1 = (false, 18) /\
  IsTokenQuotaExceeded (laterBy 18000 10 (envAt 10 600000)) "acme" s' = false.
Proof.
  assert (time_ok (quotaNowMs (envAt 10 600000))) as Ht by (unfold time_ok; simpl; lia).
  pose proof (charge_verdict_and_retry (envAt 10 600000) "acme" 130 100 0 New
    ltac:(unfold limit_ok; lia) (envAt_ok _ _) Ht ltac:(lia) ltac:(unfold tokens_ok; lia)
    ltac:(vm_compute; discriminate)) as H.
  assert ((AllowTokens (envAt 10 600000) "acme" 130 100 0 New).1 = (false, 18)) as Heq
    by (vm_compute; reflexivity).
  destruct (AllowTokens (envAt 10 600000) "acme" 130 100 0 New) as [[ok r] s'].
  cbn [fst snd] in *. injection Heq as -> ->. split; [reflexivity|].
  destruct H as (_ & _ & _ & H). destruct (H eq_refl) as (_ & H1 & _). apply H1. lia.
Defined.

(** ** Reservations *)

Section Reservations.
Context {RL : RateLib}.

Lemma ReserveTokens_put env k w limit bp s :
  0 < limit -> 0 < w ->
  ReserveTokens env k w limit bp s =
  ((reserveEntry env w limit bp (loadOrStore s k)).1,
   putEntry k (reserveEntry env w limit bp (loadOrStore s k)).2 s).
Proof.
  intros. unfold ReserveTokens. destruct (Z.leb_spec limit 0); [lia|].
  destruct (Z.leb_spec w 0); [lia|]. cbn [orb].
  by destruct (reserveEntry env w limit bp (loadOrStore s k)).
Qed.

Lemma Elastic_put env k f el limit bp s :
  0 < limit -> 0 <= f -> 0 < el ->
  ReserveTokensElastic env k f el limit bp s =
  ((reserveElasticEntry env f el limit bp (loadOrStore s k)).1,
   putEntry k (reserveElasticEntry env f el limit bp (loadOrStore s k)).2 s).
Proof.
  intros. unfold ReserveTokensElastic. destruct (Z.ltb_spec f 0); [lia|].
  destruct (Z.leb_spec el 0); [lia|]. destruct (Z.leb_spec limit 0); [lia|].
  by destruct (reserveElasticEntry env f el limit bp (loadOrStore s k)).
Qed.

Lemma reserveRetry_bounds d limit : 1 <= reserveRetry d limit <= 60.
Proof. unfold reserveRetry, epochSeconds. lia. Qed.

(** Below the cap, the advised seconds refill the whole deficit. *)
Lemma reserveRetry_covers d limit :
  0 < d <= 2000000000000000 -> limit_ok limit -> reserveRetry d limit < 60 ->
  d * 60000 <= 1000 * reserveRetry d limit * limit.
Proof.
  intros Hd Hl. unfold reserveRetry, epochSeconds. unbound.
  rewrite (i64_id (d * 60)) by (unfold in_i64, two63; lia).
  rewrite (i64_id (d * 60 + limit)) by (unfold in_i64, two63; lia).
  rewrite i64_id by (unfold in_i64, two63; lia).
  pose proof (ceil_div_spec (d * 60) limit ltac:(lia) ltac:(lia)) as Hc. simpl in Hc.
  set (q := Z.quot (d * 60 + limit - 1) limit) in *. intros Hq.
  assert (q <= Z.max (Z.min q 60) 1) by lia. nia.
Qed.

(** A reservation is all or nothing, in one step.  Admitted, it adds exactly
    the claim, and what is reserved plus the outstanding debt stays within the
    burst capacity; refused, it leaves the bucket as the touch of the current
    minute leaves it (claims included) and advises 1 to 60 seconds. *)
Theorem reserve_all_or_nothing env k want limit bp s :
  env_ok env -> limit_ok limit -> bucket_ok env limit (loadOrStore s k) ->
  0 < want -> tokens_ok want ->
  let e0 := touched env limit bp (loadOrStore s k) in
  let debt := debtTokensOf (tatMs e0) (quotaNowMs env) limit in
  let '((ok, retry, ep), s') := ReserveTokens env k want limit bp s in
  if ok then
    s' = putEntry k (addClaim want e0) s /\ retry = 0 /\ ep = currentQuotaEpoch env /\
    reserved (loadOrStore s' k) + debt <= burstTokensFor env limit bp
  else
    s' = putEntry k e0 s /\ 1 <= retry <= 60 /\ ep = 0 /\
    burstTokensFor env limit bp < reserved e0 + want + debt.
Proof.
  intros He Hl Hb Hw Hwt e0 debt. rewrite ReserveTokens_put by (unbound; lia).
  rewrite (reserveEntry_eq env want limit bp _ He Hl Hb Hwt). fold e0.
  assert (debt = burstTokensFor env limit bp - levelOf env limit bp (loadOrStore s k)) as Hd.
  { unfold debt, levelOf, e0, touched. rewrite touch_tat. simpl. lia. }
  pose proof (touched_bucket_ok env limit bp _ Hb) as ((Hr0 & _) & H2 & H3 & H4 & _). fold e0 in Hr0, H2, H4.
  pose proof (debtTokensOf_nonneg (tatMs e0) (quotaNowMs env) limit H2 H3 Hl H4) as Hd0. fold debt in Hd0.
  pose proof (reserveRetry_bounds (reserved e0 + want - levelOf env limit bp (loadOrStore s k)) limit).
  zcase; [|zcase]; cbn [fst snd].
  - split_and!; try done; lia.
  - split_and!; try done; lia.
  - rewrite load_put_eq. split_and!; try done. simpl. lia.
Qed.

(** Waiting refills the bucket, up to its capacity. *)
Lemma levelOf_later env limit bp e ms ep d :
  limit_ok limit -> bucket_ok env limit e -> bucket_ok (laterBy ms ep env) limit e ->
  0 <= ms -> 60000 * d <= ms * limit ->
  Z.min (burstTokensFor env limit bp) (levelOf env limit bp e + d)
    <= levelOf (laterBy ms ep env) limit bp e.
Proof.
  intros Hl (_ & Y1 & Y2 & Y3 & _) (_ & T1 & T2 & T3 & _) Hms Hd. unfold levelOf.
  rewrite laterBy_burst.
  destruct (debtTokensOf_spec _ _ limit T1 T2 Hl T3) as [Z1 Z2].
  destruct (debtTokensOf_spec _ _ limit Y1 Y2 Hl Y3) as [W1 W2].
  cbn [laterBy quotaNowMs] in *. unbound.
  destruct (Z.le_gt_cases (tatMs e) (quotaNowMs env + ms)) as [Hle|Hgt]; [rewrite Z1 by done; lia|].
  rewrite Z2, W2 by lia. set (X := (tatMs e - quotaNowMs env) * limit).
  replace ((tatMs e - (quotaNowMs env + ms)) * limit) with (X - ms * limit) by (unfold X; lia).
  set (Y := ms * limit) in *.
  pose proof (Z.div_mod X 60000 ltac:(lia)). pose proof (Z.mod_pos_bound X 60000 ltac:(lia)).
  pose proof (Z.div_mod (X - Y) 60000 ltac:(lia)). pose proof (Z.mod_pos_bound (X - Y) 60000 ltac:(lia)).
  lia.
Qed.

(** When only the debt stands in the way (what is reserved would fit in an
    idle bucket), the advised wait of a refused reservation is enough: the same
    reservation is admitted after it, if nothing else was charged or claimed. *)
Theorem reserve_retry_suffices env k want limit bp s ep' :
  env_ok env -> limit_ok limit -> bucket_ok env limit (loadOrStore s k) ->
  0 < want -> tokens_ok want -> currentQuotaEpoch env <= ep' ->
  quotaNowMs env <= 1152921504606786976 ->
  reserved (touched env limit bp (loadOrStore s k)) + want <= burstTokensFor env limit bp ->
  let '((ok, retry, _), s') := ReserveTokens env k want limit bp s in
  ok = false -> retry < 60 ->
  let env' := laterBy (1000 * retry) ep' env in
  (ReserveTokens env' k want limit bp s').1.1.1 = true.
Proof.
  intros He Hl Hb Hw Hwt Hep Hnow Hfit.
  pose proof Hb as (Hok & Ht1 & Ht2 & Hb2 & Hb3 & Hb4 & Hb5).
  set (e := loadOrStore s k) in *. set (e0 := touched env limit bp e) in *.
  pose proof (touched_bucket_ok env limit bp _ Hb) as Hb0. fold e0 in Hb0.
  pose proof (reserveEntry_eq env want limit bp _ He Hl Hb Hwt) as Heq.
  cbv zeta in Heq. fold e0 in Heq.
  rewrite ReserveTokens_put by (unbound; lia). fold e. rewrite Heq.
  destruct (Z.ltb_spec (burstTokensFor env limit bp) want) as [|Hwb].
  { destruct Hb0 as ((? & _) & _). lia. }
  destruct (Z.ltb_spec (levelOf env limit bp e) (reserved e0 + want)) as [Hdef|]; cbn [fst snd]; [|done].
  intros _ Hr. set (r := reserveRetry _ limit) in *. set (env' := laterBy _ ep' env).
  pose proof (bucket_level_bounds env limit bp e He Hl Hb) as Hlev.
  pose proof (burstTokensFor_bounds env limit bp He Hl) as Hbu.
  pose proof (reserveRetry_bounds (reserved e0 + want - levelOf env limit bp e) limit) as Hrb. fold r in Hrb.
  assert (1000 * r * limit >= 60000 * (reserved e0 + want - levelOf env limit bp e)) as Hcov.
  { pose proof (reserveRetry_covers (reserved e0 + want - levelOf env limit bp e) limit) as H.
    fold r in H. unbound. destruct Hb0 as ((? & _) & _). lia. }
  assert (bucket_ok env' limit e0) as Hb'.
  { apply bucket_ok_later; [apply Hl|done|lia|unfold time_ok in *; lia|lia]. }
  assert (env_ok env') as He' by exact He.
  rewrite ReserveTokens_put by (unbound; lia). rewrite load_put_eq.
  rewrite (reserveEntry_eq env' want limit bp e0 He' Hl Hb' Hwt).
  change (burstTokensFor env' limit bp) with (burstTokensFor env limit bp).
  destruct (Z.ltb_spec (burstTokensFor env limit bp) want); [lia|].
  assert (reserved (touched env' limit bp e0) <= reserved e0) as Hrr.
  { pose proof (touch_reserved env' (publish limit bp e0)) as Hx. unfold touched.
    destruct Hb0 as ((? & _) & _). zcase_in Hx; injection Hx as Hx _; rewrite Hx; simpl; lia. }
  assert (reserved e0 + want <= levelOf env' limit bp e0) as Hlv.
  { assert (levelOf env limit bp e0 = levelOf env limit bp e) as Hle
      by (unfold levelOf, e0, touched; by rewrite touch_tat).
    pose proof (levelOf_later env limit bp e0 (1000 * r) ep'
      (reserved e0 + want - levelOf env limit bp e) Hl Hb0 Hb' ltac:(lia) ltac:(lia)) as Hll.
    fold env' in Hll. lia. }
  destruct (Z.ltb_spec (levelOf env' limit bp e0) (reserved (touched env' limit bp e0) + want)); [lia|].
  done.
Qed.

End Reservations.

(** A bucket of 100 tokens a minute with 60 tokens of debt at 600000. *)
Definition demoBucket : RateLimiterStore :=
  (AllowTokens (envAt 10 600000) "acme" 60 100 0 New).2.

Lemma demoBucket_ok ms : 0 <= ms <= 60000 ->
  bucket_ok (envAt 10 (600000 + ms)) 100 (loadOrStore demoBucket "acme").
Proof.
  intros Hms.
  assert (loadOrStore demoBucket "acme" = Entry 10 636000 0 0 10 100 0) as -> by (vm_compute; reflexivity).
  unfold bucket_ok, entry_ok, time_ok, in_i64, two63.
  cbn [envAt quotaNowMs currentQuotaEpoch tatMs reserved claims windowEpoch reservedEpoch].
  split_and!; lia.
Qed.

Lemma reserve_all_or_nothing_witness :
  (ReserveTokens (envAt 10 600000) "acme" 30 100 0 demoBucket).1 = (true, 0, 10) /\
  (ReserveTokens (envAt 10 600000) "acme" 50 100 0 demoBucket).1 = (false, 6, 0) /\
  loadOrStore (ReserveTokens (envAt 10 600000) "acme" 50 100 0 demoBucket).2 "acme" =
    touched (envAt 10 600000) 100 0 (loadOrStore demoBucket "acme").
Proof.
  pose proof (reserve_all_or_nothing (envAt 10 600000) "acme" 50 100 0 demoBucket (envAt_ok _ _)
    ltac:(unfold limit_ok; lia) (demoBucket_ok 0 ltac:(lia)) ltac:(lia) ltac:(unfold tokens_ok; lia)) as H.
  assert ((ReserveTokens (envAt 10 600000) "acme" 50 100 0 demoBucket).1 = (false, 6, 0)) as E
    by (vm_compute; reflexivity).
  destruct (ReserveTokens (envAt 10 600000) "acme" 50 100 0 demoBucket) as [[[ok r] ep] s'].
  cbn [fst snd] in *. injection E as -> -> ->.
  split; [vm_compute; reflexivity|]. split; [reflexivity|].
  destruct H as (-> & _). apply load_put_eq.
Defined.

Lemma reserve_retry_witness :
  (ReserveTokens (envAt 10 600000) "acme" 50 100 0 demoBucket).1 = (false, 6, 0) /\
  (ReserveTokens (laterBy 6000 10 (envAt 10 600000)) "acme" 50 100 0
     (ReserveTokens (envAt 10 600000) "acme" 50 100 0 demoBucket).2).1.1.1 = true.
Proof.
  pose proof (reserve_retry_suffices (envAt 10 600000) "acme" 50 100 0 demoBucket 10 (envAt_ok _ _)
    ltac:(unfold limit_ok; lia) (demoBucket_ok 0 ltac:(lia)) ltac:(lia) ltac:(unfold tokens_ok; lia)
    ltac:(vm_compute; discriminate) ltac:(vm_compute; discriminate) ltac:(vm_compute; discriminate)) as H.
  assert ((ReserveTokens (envAt 10 600000) "acme" 50 100 0 demoBucket).1 = (false, 6, 0)) as E
    by (vm_compute; reflexivity).
  destruct (ReserveTokens (envAt 10 600000) "acme" 50 100 0 demoBucket) as [[[ok r] ep] s'].
  cbn [fst snd] in *. injection E as -> -> ->. split; [reflexivity|]. apply H; [reflexivity|lia].
Defined.

(** ** Idle eviction *)

Section Cleanup.
Context {RL : RateLib}.

Lemma lookup_doCleanup env now s k :
  quotaMap (doCleanup env now s) !! k =
  match quotaMap s !! k with
  | Some e => if idleQuota env e then None else Some e
  | None => None
  end.
Proof.
  unfold doCleanup. simpl. destruct (quotaMap s !! k) as [e|] eqn:Hk.
  - destruct (idleQuota env e) eqn:Hi.
    + apply map_lookup_filter_None_2. right. intros x Hx Hf. simplify_eq. congruence.
    + by apply map_lookup_filter_Some_2.
  - apply map_lookup_filter_None_2. by left.
Qed.

Lemma load_doCleanup env now s k :
  loadOrStore (doCleanup env now s) k =
  if idleQuota env (loadOrStore s k) then zeroEntry else loadOrStore s k.
Proof.
  unfold loadOrStore. rewrite lookup_doCleanup.
  destruct (quotaMap s !! k) as [e|]; simpl; [by destruct (idleQuota env e)|].
  by destruct (idleQuota env zeroEntry).
Qed.

End Cleanup.

(** ** Elastic reservations, releases and eviction *)

Section More.
Context {RL : RateLib}.

(** The elastic part never decides a positive firm reservation: admission
    and retry are those of the firm part alone.  What is granted contains the
    firm part and is the most the capacity, the free level and the request allow. *)
Theorem elastic_decides_like_firm env k firm elastic limit bp s :
  env_ok env -> limit_ok limit -> bucket_ok env limit (loadOrStore s k) ->
  0 < firm -> tokens_ok firm -> 0 < elastic -> tokens_ok elastic ->
  let '((ok, retry, _, granted), s') := ReserveTokensElastic env k firm elastic limit bp s in
  let e0 := touched env limit bp (loadOrStore s k) in
  let free := levelOf env limit bp (loadOrStore s k) - reserved e0 in
  (ok, retry) = (ReserveTokens env k firm limit bp s).1.1 /\
  (ok = true -> firm <= granted /\ s' = putEntry k (addClaim granted e0) s /\
     granted = Z.min (firm + elastic) (Z.min (burstTokensFor env limit bp) free)) /\
  (ok = false -> granted = 0 /\ s' = putEntry k e0 s).
Proof.
  intros He Hl Hb Hf Hft Hel Helt.
  rewrite Elastic_put, ReserveTokens_put by (unbound; lia).
  rewrite (reserveElasticEntry_eq env firm elastic limit bp _ He Hl Hb Hft Hel Helt).
  rewrite (reserveEntry_eq env firm limit bp _ He Hl Hb Hft).
  set (e0 := touched env limit bp (loadOrStore s k)).
  set (lv := levelOf env limit bp (loadOrStore s k)).
  set (bu := burstTokensFor env limit bp).
  destruct (Z.ltb_spec bu firm); cbn [fst snd]; [done|].
  destruct (Z.ltb_spec lv (reserved e0 + firm)); cbn [fst snd]; [done|].
  zcase; cbn [fst snd]; [lia|]. split; [done|]. split; [|done]. intros _.
  split; [lia|]. split; [done|]. lia.
Qed.

(** Giving an admitted reservation back, whole, restores the bucket to what
    it would be had it only been touched; a release with another minute's stamp
    changes nothing. *)
Theorem reserve_release_restores env k want limit bp s ep0 :
  env_ok env -> limit_ok limit -> bucket_ok env limit (loadOrStore s k) ->
  0 < want -> tokens_ok want ->
  0 < currentQuotaEpoch env -> reservedEpoch (loadOrStore s k) <= currentQuotaEpoch env ->
  let '((ok, _, ep), s') := ReserveTokens env k want limit bp s in
  ok = true ->
  ReleaseReservation k want ep s' = putEntry k (touched env limit bp (loadOrStore s k)) s /\
  (ep0 <> ep -> loadOrStore (ReleaseReservation k want ep0 s') k = loadOrStore s' k).
Proof.
  intros He Hl Hb Hw Hwt Hc Hre.
  rewrite ReserveTokens_put by (unbound; lia).
  rewrite (reserveEntry_eq env want limit bp _ He Hl Hb Hwt).
  pose proof (touched_bucket_ok env limit bp _ Hb) as ((R1 & R2 & R3 & R4 & _) & _ & _ & _ & R5 & R6 & _).
  assert (reservedEpoch (touched env limit bp (loadOrStore s k)) = currentQuotaEpoch env) as Hre0.
  { unfold touched. rewrite touch_reservedEpoch. simpl. lia. }
  set (e0 := touched env limit bp (loadOrStore s k)) in *.
  zcase; cbn [fst snd]; [done|]. zcase; cbn [fst snd]; [done|]. intros _.
  unfold ReleaseReservation. destruct (Z.leb_spec want 0); [lia|].
  assert (quotaMap (putEntry k (addClaim want e0) s) !! k = Some (addClaim want e0)) as Hk
    by (unfold putEntry; simpl; apply lookup_insert_eq).
  rewrite Hk. split.
  - destruct (Z.eqb_spec (currentQuotaEpoch env) 0); [lia|]. cbn [orb]. rewrite put_put_eq. f_equal.
    unfold releaseEntry. simpl. rewrite Hre0, Z.eqb_refl. cbn [negb].
    unfold addClaim, claimsSubClamp, reservedSubClamp. simpl. unbound.
    rewrite (i64_id (reserved e0 + want - want)) by (unfold in_i64, two63 in *; lia).
    destruct (Z.ltb_spec (reserved e0 + want - want) 0); [lia|].
    destruct (Z.leb_spec (claims e0 + 1) 0); [lia|].
    rewrite i64_id by (unfold in_i64, two63 in *; lia).
    destruct e0; unfold setClaims, setReserved; simpl in *. f_equal; lia.
  - intros Hne. cbn [orb]. destruct (ep0 ==? 0); [done|]. rewrite load_put_eq.
    unfold releaseEntry. simpl. rewrite Hre0. rewrite (load_of_lookup _ _ _ Hk).
    destruct (Z.eqb_spec (currentQuotaEpoch env) ep0); [congruence|done].
Qed.

(** Idle eviction removes exactly the buckets untouched for the configured
    number of minutes, never one touched in this minute or the one before, and
    the limiters idle past the inactivity window; everything else is untouched. *)
Theorem cleanup_evicts_exactly_idle env now s :
  env_ok env ->
  (forall k e, quotaMap s !! k = Some e -> 0 <= windowEpoch e < two63) ->
  0 <= currentQuotaEpoch env < two63 ->
  let s' := doCleanup env now s in
  (forall k e, quotaMap s' !! k = Some e <->
     quotaMap s !! k = Some e /\ currentQuotaEpoch env - windowEpoch e < quotaEvictAfterWindows env) /\
  (forall k e, quotaMap s !! k = Some e -> currentQuotaEpoch env - 1 <= windowEpoch e ->
     quotaMap s' !! k = Some e) /\
  (forall id e, entries s' !! id = Some e <->
     entries s !! id = Some e /\ now - cleanupInactiveAfter <= lastAccess e) /\
  (warmState s', warmCalls s') = (warmState s, warmCalls s).
Proof.
  intros [_ He] Hw Hc s'.
  assert (forall k e, quotaMap s !! k = Some e ->
    idleQuota env e = (quotaEvictAfterWindows env <=? currentQuotaEpoch env - windowEpoch e)) as Hi.
  { intros k e Hk. unfold idleQuota. specialize (Hw _ _ Hk).
    by rewrite i64_id by (unfold in_i64, two63 in *; lia). }
  unfold s'. split_and!.
  - intros k e. rewrite lookup_doCleanup. destruct (quotaMap s !! k) as [e'|] eqn:Hk; [|naive_solver].
    rewrite (Hi _ _ Hk). destruct (Z.leb_spec (quotaEvictAfterWindows env) (currentQuotaEpoch env - windowEpoch e'));
      split; [naive_solver|intros [? ?]; simplify_eq; lia|intros; simplify_eq; auto|naive_solver].
  - intros k e Hk Hf. rewrite lookup_doCleanup, Hk, (Hi _ _ Hk).
    destruct (Z.leb_spec (quotaEvictAfterWindows env) (currentQuotaEpoch env - windowEpoch e)); [|done].
    unfold quotaEvictFloorWindows in He. lia.
  - intros id e. unfold doCleanup. simpl. rewrite map_lookup_filter_Some. unfold idleLimiter.
    rewrite Z.ltb_ge. done.
  - done.
Qed.

End More.

(** Eviction forgives debt: a bucket of 100 tokens a minute charged 4000
    tokens is still past its capacity ten idle minutes later by the read path,
    and reads as unused after the eviction pass of that moment. *)
Theorem cleanup_forgives_debt :
  let s := (AllowTokens (envAt 10 600000) "acme" 4000 100 0 New).2 in
  let env := envAt 20 1200000 in
  IsTokenQuotaExceeded env "acme" s = true /\
  IsTokenQuotaExceeded env "acme" (doCleanup env 0 s) = false /\
  (AllowTokens env "acme" 100 100 0 (doCleanup env 0 s)).1 = (true, 0).
Proof. vm_compute. auto. Qed.

(** With no firm part, the elastic part alone can be refused where asking
    for nothing is admitted: the claims of the minute exceed the level a later
    charge left. *)
Theorem elastic_alone_can_be_refused :
  let env := envAt 10 600000 in
  let s := (AllowTokens env "acme" 60 100 0 (ReserveTokens env "acme" 80 100 0 New).2).2 in
  (ReserveTokensElastic env "acme" 0 1 100 0 s).1 = (false, 24, 0, 0) /\
  (ReserveTokensElastic env "acme" 0 0 100 0 s).1 = (true, 0, 0, 0).
Proof. vm_compute. auto. Qed.

Lemma elastic_witness :
  (ReserveTokensElastic (envAt 10 600000) "acme" 10 100 100 0 demoBucket).1 = (true, 0, 10, 40) /\
  (ReserveTokens (envAt 10 600000) "acme" 10 100 0 demoBucket).1.1 = (true, 0).
Proof.
  pose proof (elastic_decides_like_firm (envAt 10 600000) "acme" 10 100 100 0 demoBucket (envAt_ok _ _)
    ltac:(unfold limit_ok; lia) (demoBucket_ok 0 ltac:(lia)) ltac:(lia) ltac:(unfold tokens_ok; lia)
    ltac:(lia) ltac:(unfold tokens_ok; lia)) as H.
  assert ((ReserveTokensElastic (envAt 10 600000) "acme" 10 100 100 0 demoBucket).1 = (true, 0, 10, 40)) as E
    by (vm_compute; reflexivity).
  destruct (ReserveTokensElastic (envAt 10 600000) "acme" 10 100 100 0 demoBucket) as [[[[ok r] ep] g] s'].
  cbn [fst snd] in *. injection E as -> -> -> ->. split; [reflexivity|]. symmetry. apply H.
Defined.

Lemma reserve_release_witness :
  let '((_, _, ep), s') := ReserveTokens (envAt 10 600000) "acme" 30 100 0 demoBucket in
  ReleaseReservation "acme" 30 ep s' = demoBucket.
Proof.
  pose proof (reserve_release_restores (envAt 10 600000) "acme" 30 100 0 demoBucket 9 (envAt_ok _ _)
    ltac:(unfold limit_ok; lia) (demoBucket_ok 0 ltac:(lia)) ltac:(lia) ltac:(unfold tokens_ok; lia)
    ltac:(vm_compute; reflexivity) ltac:(vm_compute; discriminate)) as H.
  assert ((ReserveTokens (envAt 10 600000) "acme" 30 100 0 demoBucket).1.1.1 = true) as E
    by (vm_compute; reflexivity).
  destruct (ReserveTokens (envAt 10 600000) "acme" 30 100 0 demoBucket) as [[[ok r] ep] s'].
  cbn [fst snd] in *. subst ok. destruct (H eq_refl) as [-> _]. vm_compute. reflexivity.
Defined.

Lemma cleanup_witness :
  quotaMap (doCleanup (envAt 11 660000) 0 demoBucket) !! "acme" = quotaMap demoBucket !! "acme" /\
  is_Some (quotaMap demoBucket !! "acme").
Proof.
  assert (quotaMap demoBucket = {["acme" := Entry 10 636000 0 0 10 100 0]}) as Hq by (vm_compute; reflexivity).
  destruct (cleanup_evicts_exactly_idle (envAt 11 660000) 0 demoBucket (envAt_ok _ _)) as (_ & H & _).
  - intros k e. rewrite Hq. intros [<- <-]%lookup_singleton_Some. vm_compute. split; [discriminate|reflexivity].
  - vm_compute. split; [discriminate|reflexivity].
  - rewrite Hq at 2. rewrite (H "acme" (Entry 10 636000 0 0 10 100 0)).
    + rewrite Hq. rewrite lookup_singleton_eq. split; [reflexivity|eauto].
    + rewrite Hq. apply lookup_singleton_eq.
    + vm_compute. discriminate.
Defined.
