(* ===== verification/ClaimLedger.v ===== *)
(** * ClaimLedger: the reservation ledger of a quota bucket is exact

    A caller that was granted a reservation holds a claim (amount, minute) and
    later releases, settles or trims it; nobody else tells the bucket.  The step
    relation below interleaves any number of such callers on one key with
    charges, peer merges, minute rollovers, operations on other keys and idle
    eviction, and keeps the multiset of outstanding claims beside the store.
    The invariant is that the bucket's [reserved] and [claims] words are exactly
    the sum and the number of the outstanding claims of its minute. *)

From S2P Require Import Prelude RateLimit RateSync QuotaProps.

Open Scope Z_scope.
Open Scope igw_scope.

Section Ledger.
Context {RL : RateLib}.

Record ledgerState := LState {
  lStore : RateLimiterStore;
  pool : list (Z * Z);
  clock : Z
}.

(** The arithmetic of one reservation is in range. *)
Definition arith_ok (env : quotaEnv) (limit : Z) (e : tokenWindowEntry) : Prop :=
  time_ok (tatMs e) /\ time_ok (quotaNowMs env) /\ (tatMs e - quotaNowMs env) * limit < two63.

Definition grant (amt ep : Z) (p : list (Z * Z)) : list (Z * Z) :=
  if ep ==? 0 then p else (amt, ep) :: p.

Inductive lstep (k : string) : ledgerState -> ledgerState -> Prop :=
| LReserve env want limit bp s p c :
    currentQuotaEpoch env = c -> env_ok env -> limit_ok limit -> tokens_ok want ->
    arith_ok env limit (loadOrStore s k) ->
    lstep k (LState s p c)
      (LState (ReserveTokens env k want limit bp s).2
              (grant want (ReserveTokens env k want limit bp s).1.2 p) c)
| LElastic env firm elastic limit bp s p c :
    currentQuotaEpoch env = c -> env_ok env -> limit_ok limit ->
    tokens_ok firm -> tokens_ok elastic -> arith_ok env limit (loadOrStore s k) ->
    lstep k (LState s p c)
      (LState (ReserveTokensElastic env k firm elastic limit bp s).2
              (grant (ReserveTokensElastic env k firm elastic limit bp s).1.2
                     (ReserveTokensElastic env k firm elastic limit bp s).1.1.2 p) c)
| LRelease amt ep s p p' c :
    p ≡ₚ (amt, ep) :: p' ->
    lstep k (LState s p c) (LState (ReleaseReservation k amt ep s) p' c)
| LSettle env actual amt ep limit bp s p p' c :
    currentQuotaEpoch env = c -> p ≡ₚ (amt, ep) :: p' ->
    lstep k (LState s p c) (LState (SettleTokens env k actual amt ep limit bp s).2 p' c)
| LTrim cut amt ep s p p' c :
    p ≡ₚ (amt, ep) :: p' -> 0 < cut < amt ->
    lstep k (LState s p c) (LState (TrimReservation k cut ep s) ((amt - cut, ep) :: p') c)
| LCharge env count limit bp s p c :
    currentQuotaEpoch env = c ->
    lstep k (LState s p c) (LState (AllowTokens env k count limit bp s).2 p c)
| LMerge es s p c :
    Forall (fun e => WindowEpoch e < two63) es ->
    lstep k (LState s p c) (LState (ImportState es s) p c)
| LRollover c' s p c : c <= c' -> lstep k (LState s p c) (LState s p c')
| LEvict env now s p c :
    currentQuotaEpoch env = c -> env_ok env ->
    lstep k (LState s p c) (LState (doCleanup env now s) p c)
| LOther s' s p c : sameEntry k s s' -> lstep k (LState s p c) (LState s' p c).

(** The claims that count against the bucket's current minute. *)
Definition live (re : Z) (p : list (Z * Z)) : list (Z * Z) := filter (fun cl => cl.2 = re) p.
Definition total (p : list (Z * Z)) : Z := foldr Z.add 0 (fst <$> p).

Definition ledger_exact (k : string) (st : ledgerState) : Prop :=
  let e := loadOrStore (lStore st) k in
  reserved e = total (live (reservedEpoch e) (pool st)) /\
  claims e = Z.of_nat (length (live (reservedEpoch e) (pool st))).

(** What makes it inductive: the markers are ordered, an outstanding claim is
    positive and either of the bucket's minute or of an earlier one, and what is
    reserved never exceeds the largest capacity. *)
Definition claim_ok (re c : Z) (cl : Z * Z) : Prop :=
  0 < cl.1 /\ 0 < cl.2 /\ (cl.2 <= re \/ cl.2 < c).

Definition ledger_inv (k : string) (st : ledgerState) : Prop :=
  let e := loadOrStore (lStore st) k in
  ledger_exact k st /\
  0 <= reservedEpoch e <= clock st /\ reservedEpoch e <= windowEpoch e < two63 /\
  0 < clock st < two63 /\ reserved e <= 21474836480 /\
  Forall (claim_ok (reservedEpoch e) (clock st)) (pool st).

Lemma total_cons cl p : total (cl :: p) = cl.1 + total p.
Proof. done. Qed.

Lemma live_cons re cl p : live re (cl :: p) = if decide (cl.2 = re) then cl :: live re p else live re p.
Proof. unfold live. by rewrite filter_cons. Qed.

#[local] Instance live_proper re : Proper ((≡ₚ) ==> (≡ₚ)) (live re).
Proof. intros p p' H. unfold live. by rewrite H. Qed.

#[local] Instance total_proper : Proper ((≡ₚ) ==> eq) total.
Proof. intros p p' H. apply sumZ_perm. by rewrite H. Qed.

Lemma total_count p : Forall (fun cl => 0 < cl.1) p -> Z.of_nat (length p) <= total p.
Proof. induction 1 as [|cl p H _ IH]; [done|]. rewrite total_cons. simpl length. lia. Qed.

Lemma live_pos re c re' p : Forall (claim_ok re c) p -> Forall (fun cl => 0 < cl.1) (live re' p).
Proof.
  intros H. apply Forall_forall. intros cl [_ Hin]%list_elem_of_filter.
  rewrite Forall_forall in H. apply (H _ Hin).
Qed.

(** No outstanding claim is of a minute the bucket has not seen. *)
Lemma live_future re c p : Forall (claim_ok re c) p -> re < c -> live c p = [].
Proof.
  intros H Hlt. induction H as [|cl p (_ & _ & Hc) _ IH]; [done|].
  rewrite live_cons. case_decide; [lia|done].
Qed.

Lemma live_zero re c p : Forall (claim_ok re c) p -> live 0 p = [].
Proof.
  induction 1 as [|cl p (_ & Hp & _) _ IH]; [done|]. rewrite live_cons. case_decide; [lia|done].
Qed.

Lemma claim_ok_mono re c re' c' p :
  Forall (claim_ok re c) p -> re <= re' -> c <= c' -> Forall (claim_ok re' c') p.
Proof. intros H ??. eapply Forall_impl; [done|]. intros cl (?&?&?). unfold claim_ok. lia. Qed.

Lemma ledger_entry_ok k st : ledger_inv k st -> entry_ok (loadOrStore (lStore st) k).
Proof.
  unfold ledger_inv, ledger_exact. intros ((H1 & H2) & H3 & H4 & H5 & H6 & H7).
  pose proof (total_count _ (live_pos _ _ (reservedEpoch (loadOrStore (lStore st) k)) _ H7)) as Hc.
  unfold entry_ok, in_i64, two63 in *. rewrite H2, H1. rewrite H1 in H6. split_and!; lia.
Qed.

(** The bucket in terms of its four ledger words. *)
Definition ledger_words (e : tokenWindowEntry) : Z * Z * Z := (reserved e, claims e, reservedEpoch e).

(** A step that only rewrites the ledger words and raises the activity marker
    keeps the invariant when the words match the new pool. *)
Lemma ledger_inv_intro k s p c e :
  loadOrStore s k = e ->
  reserved e = total (live (reservedEpoch e) p) ->
  claims e = Z.of_nat (length (live (reservedEpoch e) p)) ->
  0 <= reservedEpoch e <= c -> reservedEpoch e <= windowEpoch e < two63 -> 0 < c < two63 ->
  reserved e <= 21474836480 -> Forall (claim_ok (reservedEpoch e) c) p ->
  ledger_inv k (LState s p c).
Proof. intros <- **. unfold ledger_inv, ledger_exact. simpl. done. Qed.

(** A step that leaves the bucket's words alone keeps the invariant. *)
Lemma ledger_inv_same k s s' p c :
  ledger_inv k (LState s p c) ->
  ledger_words (loadOrStore s' k) = ledger_words (loadOrStore s k) ->
  windowEpoch (loadOrStore s k) <= windowEpoch (loadOrStore s' k) < two63 ->
  ledger_inv k (LState s' p c).
Proof.
  unfold ledger_inv, ledger_exact, ledger_words. simpl.
  intros ((H1 & H2) & H3 & H4 & H5 & H6 & H7) Hw Hwe. injection Hw as -> -> ->.
  split_and!; done || lia.
Qed.

(** The touch of the current minute. *)
Lemma ledger_inv_touch k s p env limit bp :
  ledger_inv k (LState s p (currentQuotaEpoch env)) ->
  let e0 := touched env limit bp (loadOrStore s k) in
  reservedEpoch e0 = currentQuotaEpoch env /\
  reserved e0 = total (live (currentQuotaEpoch env) p) /\
  claims e0 = Z.of_nat (length (live (currentQuotaEpoch env) p)) /\
  currentQuotaEpoch env <= windowEpoch e0 < two63 /\
  0 <= reserved e0 <= 21474836480 /\ 0 < currentQuotaEpoch env < two63 /\
  Forall (claim_ok (currentQuotaEpoch env) (currentQuotaEpoch env)) p.
Proof.
  intros Hi e0. pose proof (ledger_entry_ok _ _ Hi) as (Hr0 & _).
  destruct Hi as ((H1 & H2) & H3 & H4 & H5 & H6 & H7). simpl in *.
  unfold e0, touched. rewrite touch_reservedEpoch, touch_windowEpoch.
  pose proof (touch_reserved env (publish limit bp (loadOrStore s k))) as Ht.
  cbn [publish reservedEpoch windowEpoch reserved claims] in *.
  rewrite Z.max_r by lia.
  destruct (Z.ltb_spec (reservedEpoch (loadOrStore s k)) (currentQuotaEpoch env)) as [Hlt|Hge];
    injection Ht as -> ->.
  - rewrite (live_future _ _ _ H7 Hlt). split_and!; try done; try lia.
    eapply claim_ok_mono; [done|lia|lia].
  - assert (reservedEpoch (loadOrStore s k) = currentQuotaEpoch env) as Heq by lia.
    rewrite Heq in *. split_and!; done || lia.
Qed.

Lemma ledger_inv_perm k s p p' c :
  p ≡ₚ p' -> ledger_inv k (LState s p c) -> ledger_inv k (LState s p' c).
Proof.
  unfold ledger_inv, ledger_exact. simpl. intros Hp ((H1 & H2) & H3 & H4 & H5 & H6 & H7).
  rewrite <- Hp. done.
Qed.

Lemma ledger_bucket_ok k s p c env limit :
  ledger_inv k (LState s p c) -> currentQuotaEpoch env = c -> arith_ok env limit (loadOrStore s k) ->
  bucket_ok env limit (loadOrStore s k).
Proof.
  intros Hi Hc (A1 & A2 & A3). pose proof (ledger_entry_ok _ _ Hi) as Hok. simpl in Hok.
  pose proof (total_count _ (live_pos _ _ (reservedEpoch (loadOrStore s k)) _ (proj2 (proj2 (proj2 (proj2 (proj2 Hi))))))) as Hn.
  destruct Hi as ((H1 & H2) & H3 & H4 & H5 & H6 & H7). simpl in *.
  unfold bucket_ok. split_and!; try done; lia.
Qed.

Lemma ledger_put_touched k s p env limit bp :
  ledger_inv k (LState s p (currentQuotaEpoch env)) ->
  forall s', ledger_words (loadOrStore s' k) = ledger_words (touched env limit bp (loadOrStore s k)) ->
  windowEpoch (loadOrStore s' k) = windowEpoch (touched env limit bp (loadOrStore s k)) ->
  ledger_inv k (LState s' p (currentQuotaEpoch env)).
Proof.
  intros Hi s' Hw Hwe. destruct (ledger_inv_touch k s p env limit bp Hi) as (T1 & T2 & T3 & T4 & T5 & T6 & T7).
  injection Hw as W1 W2 W3. eapply ledger_inv_intro; [reflexivity|..];
    rewrite ?W1, ?W2, ?W3, ?Hwe, ?T1; try done; lia.
Qed.

Lemma ledger_put_claim k s p env limit bp amt :
  ledger_inv k (LState s p (currentQuotaEpoch env)) -> 0 < amt ->
  reserved (touched env limit bp (loadOrStore s k)) + amt <= 21474836480 ->
  ledger_inv k (LState (putEntry k (addClaim amt (touched env limit bp (loadOrStore s k))) s)
                  (grant amt (currentQuotaEpoch env) p) (currentQuotaEpoch env)).
Proof.
  intros Hi Ha Hcap. destruct (ledger_inv_touch k s p env limit bp Hi) as (T1 & T2 & T3 & T4 & T5 & T6 & T7).
  set (e0 := touched env limit bp (loadOrStore s k)) in *.
  unfold grant. destruct (Z.eqb_spec (currentQuotaEpoch env) 0); [lia|].
  eapply ledger_inv_intro; [apply load_put_eq|..]; simpl; rewrite ?T1; try lia.
  - rewrite live_cons. simpl. rewrite decide_True by done. rewrite total_cons. simpl. lia.
  - rewrite live_cons. simpl. rewrite decide_True by done. simpl length. lia.
  - constructor; [|done]. unfold claim_ok. simpl. lia.
Qed.

Lemma ledger_reserve k s p env want limit bp :
  ledger_inv k (LState s p (currentQuotaEpoch env)) ->
  env_ok env -> limit_ok limit -> tokens_ok want -> arith_ok env limit (loadOrStore s k) ->
  ledger_inv k (LState (ReserveTokens env k want limit bp s).2
                  (grant want (ReserveTokens env k want limit bp s).1.2 p) (currentQuotaEpoch env)).
Proof.
  intros Hi He Hl Hw Ha.
  destruct (Z.le_gt_cases want 0) as [H0|H0].
  { unfold ReserveTokens. destruct (Z.leb_spec want 0); [|lia]. rewrite orb_true_r. exact Hi. }
  pose proof (ledger_bucket_ok _ _ _ _ _ _ Hi eq_refl Ha) as Hb.
  rewrite ReserveTokens_put by (unbound; lia). cbn [fst snd].
  rewrite (reserveEntry_eq env want limit bp _ He Hl Hb Hw).
  pose proof (bucket_level_bounds env limit bp _ He Hl Hb).
  zcase; [|zcase]; cbn [fst snd].
  - apply (ledger_put_touched k s p env limit bp Hi); by rewrite load_put_eq.
  - apply (ledger_put_touched k s p env limit bp Hi); by rewrite load_put_eq.
  - apply ledger_put_claim; [done|lia|lia].
Qed.

Lemma ledger_elastic k s p env firm elastic limit bp :
  ledger_inv k (LState s p (currentQuotaEpoch env)) ->
  env_ok env -> limit_ok limit -> tokens_ok firm -> tokens_ok elastic ->
  arith_ok env limit (loadOrStore s k) ->
  let r := ReserveTokensElastic env k firm elastic limit bp s in
  ledger_inv k (LState r.2 (grant r.1.2 r.1.1.2 p) (currentQuotaEpoch env)).
Proof.
  intros Hi He Hl Hf Hel Ha r.
  destruct (Z.le_gt_cases elastic 0) as [H0|H0].
  - pose proof (ledger_reserve k s p env firm limit bp Hi He Hl Hf Ha) as Hr.
    unfold r, ReserveTokensElastic. destruct (Z.ltb_spec firm 0); [unbound; lia|].
    destruct (Z.leb_spec elastic 0); [|lia].
    destruct (ReserveTokens env k firm limit bp s) as [[[a rt] ep] s'] eqn:Hres. cbn [fst snd] in *.
    unfold grant in *. destruct (Z.eqb_spec ep 0) as [->|Hep]; [done|].
    assert (a = true) as ->; [|done].
    unfold ReserveTokens in Hres. destruct (_ || _); [congruence|].
    unfold reserveEntry in Hres. zcase_in Hres; [congruence|]. zcase_in Hres; congruence.
  - pose proof (ledger_bucket_ok _ _ _ _ _ _ Hi eq_refl Ha) as Hb. unfold r.
    rewrite Elastic_put by (unbound; lia). cbn [fst snd].
    rewrite (reserveElasticEntry_eq env firm elastic limit bp _ He Hl Hb Hf H0 Hel).
    pose proof (bucket_level_bounds env limit bp _ He Hl Hb).
    zcase; [|zcase; [|zcase]]; cbn [fst snd];
      try (apply (ledger_put_touched k s p env limit bp Hi); by rewrite load_put_eq).
    apply ledger_put_claim; [done|unbound; lia|lia].
Qed.

Lemma Release_load k amt ep s :
  0 < amt -> 0 < ep ->
  loadOrStore (ReleaseReservation k amt ep s) k = releaseEntry amt ep (loadOrStore s k) /\
  loadOrStore (TrimReservation k amt ep s) k = trimEntry amt ep (loadOrStore s k).
Proof.
  intros Ha He. unfold ReleaseReservation, TrimReservation.
  destruct (Z.leb_spec amt 0); [lia|]. destruct (Z.eqb_spec ep 0); [lia|]. cbn [orb].
  destruct (quotaMap s !! k) as [e|] eqn:Hk.
  - rewrite (load_of_lookup _ _ _ Hk), !load_put_eq. done.
  - assert (loadOrStore s k = zeroEntry) as -> by (unfold loadOrStore; by rewrite Hk).
    unfold releaseEntry, trimEntry. change (reservedEpoch zeroEntry) with 0.
    destruct (Z.eqb_spec 0 ep); [lia|done].
Qed.

(** Dropping the first claim of the pool, with the bucket released by it. *)
Lemma ledger_release k s s' amt ep p c :
  ledger_inv k (LState s ((amt, ep) :: p) c) ->
  loadOrStore s' k = releaseEntry amt ep (loadOrStore s k) ->
  ledger_inv k (LState s' p c).
Proof.
  intros Hi Hs'. pose proof (ledger_entry_ok _ _ Hi) as Hok. simpl in Hok.
  destruct Hi as ((H1 & H2) & H3 & H4 & H5 & H6 & H7). simpl in *.
  inversion H7 as [|? ? (Ha & Hep & _) H7']; subst. simpl in *.
  rewrite live_cons in H1, H2. simpl in H1, H2. revert Hs'. unfold releaseEntry.
  destruct (Z.eqb_spec (reservedEpoch (loadOrStore s k)) ep) as [Heq|Hne]; cbn [negb]; intros Hs'.
  - rewrite decide_True in H1, H2 by done. rewrite total_cons in H1. simpl in H1, H2.
    pose proof (total_count _ (live_pos _ _ (reservedEpoch (loadOrStore s k)) _ H7')) as Hn.
    set (e := loadOrStore s k) in *.
    assert (reserved (reservedSubClamp e amt) = total (live (reservedEpoch e) p)) as Hr.
    { rewrite reservedSubClamp_eq; [lia|]. unfold in_i64, two63. lia. }
    assert (claims (claimsSubClamp (reservedSubClamp e amt)) = Z.of_nat (length (live (reservedEpoch e) p))) as Hc.
    { rewrite claimsSubClamp_eq by auto with igw. simpl. lia. }
    assert (reservedEpoch (claimsSubClamp (reservedSubClamp e amt)) = reservedEpoch e /\
            windowEpoch (claimsSubClamp (reservedSubClamp e amt)) = windowEpoch e) as [He Hw].
    { unfold claimsSubClamp, reservedSubClamp. repeat zcase; done. }
    eapply ledger_inv_intro; [exact Hs'|..]; rewrite ?He, ?Hw, ?claimsSubClamp_reserved, ?Hr;
      try done; lia.
  - rewrite decide_False in H1, H2 by done.
    eapply ledger_inv_intro; [exact Hs'|..]; done.
Qed.

Lemma ledger_trim k s s' cut amt ep p c :
  ledger_inv k (LState s ((amt, ep) :: p) c) -> 0 < cut < amt ->
  loadOrStore s' k = trimEntry cut ep (loadOrStore s k) ->
  ledger_inv k (LState s' ((amt - cut, ep) :: p) c).
Proof.
  intros Hi Hcut Hs'. destruct Hi as ((H1 & H2) & H3 & H4 & H5 & H6 & H7). simpl in *.
  inversion H7 as [|? ? (Ha & Hep & Hd) H7']; subst. simpl in *.
  assert (Forall (claim_ok (reservedEpoch (loadOrStore s k)) c) ((amt - cut, ep) :: p)) as Hf
    by (constructor; [unfold claim_ok; simpl; lia|done]).
  rewrite live_cons in H1, H2. simpl in H1, H2. revert Hs'. unfold trimEntry.
  destruct (Z.eqb_spec (reservedEpoch (loadOrStore s k)) ep) as [Heq|Hne]; cbn [negb]; intros Hs'.
  - rewrite decide_True in H1, H2 by done. rewrite total_cons in H1. simpl in H1, H2.
    set (e := loadOrStore s k) in *.
    pose proof (total_count _ (live_pos _ _ (reservedEpoch e) _ H7')) as Hn.
    assert (reserved (reservedSubClamp e cut) = reserved e - cut) as Hr.
    { rewrite reservedSubClamp_eq; [lia|]. unfold in_i64, two63. lia. }
    eapply ledger_inv_intro; [exact Hs'|..]; rewrite ?Hr;
      change (reservedEpoch (reservedSubClamp e cut)) with (reservedEpoch e); try done; try lia.
    + rewrite live_cons. simpl. rewrite decide_True by done. rewrite total_cons. simpl. lia.
    + rewrite live_cons. simpl. rewrite decide_True by done. exact H2.
  - rewrite decide_False in H1, H2 by done.
    eapply ledger_inv_intro; [exact Hs'|..]; try done;
      rewrite live_cons; simpl; by rewrite decide_False.
Qed.

Lemma ledger_charge k s p env count limit bp :
  ledger_inv k (LState s p (currentQuotaEpoch env)) ->
  ledger_inv k (LState (AllowTokens env k count limit bp s).2 p (currentQuotaEpoch env)).
Proof.
  intros Hi. unfold AllowTokens. destruct ((limit <=? 0) || (count <=? 0)); [exact Hi|].
  pose proof (allowEntry_shape env count limit bp (loadOrStore s k)) as Hs.
  destruct (allowEntry env count limit bp (loadOrStore s k)) as [r e']. cbn [snd] in *. subst e'.
  apply (ledger_put_touched k s p env limit bp Hi); by rewrite load_put_eq.
Qed.

Lemma ledger_settle k s p env actual amt ep limit bp :
  ledger_inv k (LState s ((amt, ep) :: p) (currentQuotaEpoch env)) ->
  ledger_inv k (LState (SettleTokens env k actual amt ep limit bp s).2 p (currentQuotaEpoch env)).
Proof.
  intros Hi.
  assert (0 < amt /\ 0 < ep) as [Ha Hep].
  { destruct Hi as (_ & _ & _ & _ & _ & H7). inversion H7 as [|? ? (? & ? & _)]; subst; auto. }
  assert (forall s1, loadOrStore s1 k = releaseEntry amt ep (loadOrStore s k) ->
    ledger_inv k (LState (if actual <=? 0 then (true, 0, s1)
                          else AllowTokens env k actual limit bp s1).2 p (currentQuotaEpoch env))) as Hrest.
  { intros s1 Hs1. pose proof (ledger_release _ _ s1 _ _ _ _ Hi Hs1) as Hi1.
    destruct (actual <=? 0); [exact Hi1|]. by apply ledger_charge. }
  unfold SettleTokens. destruct (Z.ltb_spec 0 amt); [|lia]. destruct (Z.ltb_spec 0 ep); [|lia].
  cbn [andb].
  destruct (quotaMap s !! k) as [e|] eqn:Hk; [destruct (Z.eqb_spec (reservedEpoch e) ep) as [Heq|Hne]|];
    apply Hrest; rewrite ?load_put_eq; unfold releaseEntry.
  - rewrite (load_of_lookup _ _ _ Hk), Heq, Z.eqb_refl. done.
  - rewrite (load_of_lookup _ _ _ Hk). by destruct (Z.eqb_spec (reservedEpoch e) ep).
  - assert (loadOrStore s k = zeroEntry) as -> by (unfold loadOrStore; by rewrite Hk).
    change (reservedEpoch zeroEntry) with 0. destruct (Z.eqb_spec 0 ep); [lia|done].
Qed.

Lemma ledger_merge k s p c es :
  ledger_inv k (LState s p c) -> Forall (fun e => WindowEpoch e < two63) es ->
  ledger_inv k (LState (ImportState es s) p c).
Proof.
  intros Hi Hes. pose proof (proj1 (proj2 (proj2 Hi))) as Hwe. simpl in Hwe.
  apply (ledger_inv_same k s); [done|..]; rewrite load_Import, foldr_mergeStep_load; [done|]. simpl.
  split; [apply foldr_max_ge; constructor|].
  apply Z.le_lt_trans with (Z.max (windowEpoch (loadOrStore s k)) (two63 - 1)); [|lia].
  apply foldr_max_le, Forall_fmap, Forall_forall. intros e [_ He]%list_elem_of_filter.
  rewrite Forall_forall in Hes. specialize (Hes _ He). simpl. lia.
Qed.

Lemma ledger_evict k s p env now :
  ledger_inv k (LState s p (currentQuotaEpoch env)) -> env_ok env ->
  ledger_inv k (LState (doCleanup env now s) p (currentQuotaEpoch env)).
Proof.
  intros Hi He. pose proof Hi as (_ & H3 & H4 & H5 & H6 & H7). simpl in *.
  pose proof (load_doCleanup env now s k) as Hc. destruct (idleQuota env (loadOrStore s k)) eqn:Hidle.
  - unfold idleQuota in Hidle. rewrite i64_id in Hidle by (unfold in_i64, two63 in *; lia). split_bools.
    eapply ledger_inv_intro; [exact Hc|..]; simpl; unfold two63 in *; try lia.
    + by rewrite (live_zero _ _ _ H7).
    + by rewrite (live_zero _ _ _ H7).
    + eapply Forall_impl; [exact H7|]. intros cl (A & B & C). unfold claim_ok. unbound. lia.
  - apply (ledger_inv_same k s); [done|..]; rewrite Hc; [done|lia].
Qed.

Lemma lstep_inv k st st' :
  ledger_inv k st -> lstep k st st' -> clock st' < two63 -> ledger_inv k st'.
Proof.
  intros Hi Hstep Hcl. destruct Hstep; subst; simpl in Hcl.
  - by apply ledger_reserve.
  - by apply ledger_elastic.
  - pose proof (ledger_inv_perm _ _ _ _ _ H Hi) as Hi'.
    assert (0 < amt /\ 0 < ep) as [Ha Hep].
    { destruct Hi' as (_ & _ & _ & _ & _ & H7). inversion H7 as [|? ? (? & ? & _)]; subst; auto. }
    eapply ledger_release; [exact Hi'|by apply Release_load].
  - eapply ledger_settle, ledger_inv_perm; eauto.
  - pose proof (ledger_inv_perm _ _ _ _ _ H Hi) as Hi'.
    assert (0 < ep) as Hep.
    { destruct Hi' as (_ & _ & _ & _ & _ & H7). inversion H7 as [|? ? (? & ? & _)]; subst; auto. }
    eapply ledger_trim; [exact Hi'|done|apply Release_load; lia].
  - by apply ledger_charge.
  - by apply ledger_merge.
  - destruct Hi as (H1 & H2 & H3 & H4 & H5 & H6). simpl in *.
    unfold ledger_inv. simpl. split_and!; try done; try lia.
    eapply claim_ok_mono; [done|lia|lia].
  - by apply ledger_evict.
  - apply (ledger_inv_same k s); [done|..]; rewrite H; [done|].
    destruct Hi as (_ & _ & H4 & _). simpl in H4. lia.
Qed.

Lemma ledger_init k c : 0 < c < two63 -> ledger_inv k (LState New [] c).
Proof.
  intros Hc. eapply ledger_inv_intro; [unfold loadOrStore; simpl; by rewrite lookup_empty|..]; simpl;
    unfold two63 in *; try lia; try done.
Qed.

Definition ledger_reachable (k : string) (c0 : Z) (st : ledgerState) : Prop :=
  rtc (lstep k) (LState New [] c0) st.

Lemma lstep_clock k st st' : lstep k st st' -> clock st <= clock st'.
Proof. destruct 1; simpl; lia. Qed.

Lemma reachable_inv k c0 st :
  0 < c0 -> clock st < two63 -> ledger_reachable k c0 st -> ledger_inv k st.
Proof.
  intros Hc0 Hb Hr. revert Hb.
  apply (rtc_invariant (lstep k) (fun st => clock st < two63 -> ledger_inv k st)
           (LState New [] c0) st); [|intros; by apply ledger_init|done].
  intros a b Ha Hab Hb. pose proof (lstep_clock _ _ _ Hab). eapply lstep_inv; eauto. apply Ha. lia.
Qed.

(** With the operations taken one at a time (LedgerSteps has them one access at a
    time), the reservation ledger of a bucket is exact in every reachable state:
    whatever reserves, elastic reserves, releases, settles, trims, charges, peer
    merges, minute rollovers, evictions and operations on other keys happened,
    [reserved] is the sum and [claims] the number of the outstanding claims of
    the bucket's minute, and the per-minute report reads the same when the
    bucket was touched this minute. *)
Theorem reservation_ledger_exact k c0 st env :
  0 < c0 -> clock st < two63 -> ledger_reachable k c0 st -> currentQuotaEpoch env = clock st ->
  let e := loadOrStore (lStore st) k in
  let mine := live (reservedEpoch e) (pool st) in
  ReservedTokens k (lStore st) = total mine /\ claims e = Z.of_nat (length mine) /\
  (reservedEpoch e = clock st -> ReservedNow env k (lStore st) = (total mine, Z.of_nat (length mine), true)) /\
  (pool st = [] -> ReservedTokens k (lStore st) = 0).
Proof.
  intros Hc0 Hb Hr Henv e mine.
  pose proof (reachable_inv k c0 st Hc0 Hb Hr) as ((H1 & H2) & H3 & _ & H5 & _).
  fold e in H1, H2, H3. fold mine in H1, H2.
  assert (ReservedTokens k (lStore st) = reserved e) as ->.
  { unfold ReservedTokens, e, loadOrStore. by destruct (quotaMap (lStore st) !! k). }
  split_and!; [done|done| |].
  - intros Hre. unfold ReservedNow, e, loadOrStore in *. rewrite Henv.
    destruct (quotaMap (lStore st) !! k) as [e'|]; simpl in *; [|lia].
    rewrite Hre, Z.eqb_refl. simpl. by rewrite H1, H2.
  - intros Hp. rewrite H1. unfold mine. by rewrite Hp.
Qed.

(** Reservations never oversubscribe a bucket: in every reachable state, a
    reservation is admitted only when all the outstanding claims of the minute,
    the new one included, and the outstanding debt fit in the burst capacity. *)
Theorem reservation_no_oversubscription k c0 st env want limit bp :
  0 < c0 -> clock st < two63 -> ledger_reachable k c0 st -> currentQuotaEpoch env = clock st ->
  env_ok env -> limit_ok limit -> 0 < want -> tokens_ok want ->
  arith_ok env limit (loadOrStore (lStore st) k) ->
  (ReserveTokens env k want limit bp (lStore st)).1.1.1 = true ->
  total (live (clock st) ((want, clock st) :: pool st)) +
    debtTokensOf (tatMs (loadOrStore (lStore st) k)) (quotaNowMs env) limit
  <= burstTokensFor env limit bp.
Proof.
  intros Hc0 Hb Hr Henv He Hl Hw Hwt Ha Hok.
  pose proof (reachable_inv k c0 st Hc0 Hb Hr) as Hi. destruct st as [s p c]. simpl in *. subst c.
  pose proof (ledger_bucket_ok _ _ _ _ _ _ Hi eq_refl Ha) as Hbk.
  destruct (ledger_inv_touch k s p env limit bp Hi) as (_ & T2 & _).
  rewrite ReserveTokens_put in Hok by (unbound; lia). cbn [fst] in Hok.
  rewrite (reserveEntry_eq env want limit bp _ He Hl Hbk Hwt) in Hok.
  zcase_in Hok; [done|]. zcase_in Hok; [done|].
  rewrite live_cons. simpl. rewrite decide_True by done. rewrite total_cons. simpl.
  unfold levelOf in *. lia.
Qed.

End Ledger.

(** ** A run of the ledger: two claims, one of them trimmed, then a rollover *)

Definition runState : ledgerState :=
  let env := envAt 10 600000 in
  let s1 := (ReserveTokens env "acme" 40 100 0 New).2 in
  let s2 := (ReserveTokensElastic env "acme" 10 100 100 0 s1).2 in
  LState (TrimReservation "acme" 20 10 s2) [(40, 10); (40, 10)] 10.

Lemma runState_reachable : ledger_reachable "acme" 10 runState.
Proof.
  assert (limit_ok 100) as Hl by (unfold limit_ok; lia).
  assert (forall n, 0 <= n <= 1000 -> tokens_ok n) as Ht by (unfold tokens_ok; lia).
  eapply rtc_l; [apply (LReserve "acme" (envAt 10 600000) 40 100 0);
    [reflexivity|apply envAt_ok|exact Hl|apply Ht; lia|]|].
  { unfold arith_ok, time_ok. vm_compute. repeat split; discriminate. }
  eapply rtc_l; [apply (LElastic "acme" (envAt 10 600000) 10 100 100 0);
    [reflexivity|apply envAt_ok|exact Hl|apply Ht; lia|apply Ht; lia|]|].
  { unfold arith_ok, time_ok. vm_compute. repeat split; discriminate. }
  eapply rtc_l; [apply (LTrim "acme" 20 60 10 _ _ [(40, 10)]); [vm_compute; reflexivity|lia]|].
  apply rtc_refl.
Qed.

Lemma ledger_exact_witness :
  ReservedTokens "acme" (lStore runState) = 80 /\
  ReservedNow (envAt 10 600500) "acme" (lStore runState) = (80, 2, true).
Proof.
  destruct (reservation_ledger_exact "acme" 10 runState (envAt 10 600500) ltac:(lia)
    ltac:(vm_compute; reflexivity) runState_reachable eq_refl) as (H1 & _ & H3 & _).
  split; [rewrite H1; vm_compute; reflexivity|].
  rewrite H3 by (vm_compute; reflexivity). vm_compute. reflexivity.
Defined.

Lemma no_oversubscription_witness :
  (ReserveTokens (envAt 10 600500) "acme" 20 100 0 (lStore runState)).1.1.1 = true /\
  total (live 10 ((20, 10) :: pool runState)) <= 100.
Proof.
  split; [vm_compute; reflexivity|].
  pose proof (reservation_no_oversubscription "acme" 10 runState (envAt 10 600500) 20 100 0 ltac:(lia)
    ltac:(vm_compute; reflexivity) runState_reachable eq_refl (envAt_ok _ _)
    ltac:(unfold limit_ok; lia) ltac:(lia) ltac:(unfold tokens_ok; lia)
    ltac:(unfold arith_ok, time_ok; vm_compute; repeat split; discriminate)
    ltac:(vm_compute; reflexivity)) as H.
  vm_compute in H. vm_compute. exact H.
Defined.

