(* ===== verification/LedgerSteps.v ===== *)
(** * LedgerSteps: the quota bucket at the grain of its atomic accesses

    pkg/ratelimit/ratelimit.go takes no lock on a bucket: a reservation, a
    charge, a release or a trim is a sequence of atomic loads, stores, adds and
    compare-and-swaps on the words of one [tokenWindowEntry], and any number of
    goroutines run such sequences at once.  [access] is one such access of one
    goroutine, [start] the entry of a call, and [fexec] schedules them one access
    at a time, with the clock goroutine and the peer merges between any two.

    RateLimit holds the same operations as single steps.  Run alone, the
    accesses of a call compute the same bucket (the [solo] lemmas).  Run against each other
    they do not always: the winner of a minute's first touch moves the marker and
    only then zeroes the two counters, and a claim added in between is wiped
    while its owner holds it ([opening_race_loses_a_claim]).  The theorem of this
    file says what is left outside those windows: the ledger is exact after every
    single access. *)

From S2P Require Import Prelude RateLimit RateSync QuotaProps ClaimLedger.

Open Scope Z_scope.
Open Scope igw_scope.

(** ** One goroutine *)

(** What a call does once it has published the limits and touched the bucket. *)
Inductive goal :=
| GReserve (want limit bp : Z)
| GElastic (firm elastic limit bp : Z)
| GCharge (count limit bp : Z).

Definition goalLimit (g : goal) : Z :=
  match g with GReserve _ l _ | GElastic _ _ l _ | GCharge _ l _ => l end.
Definition goalBurst (g : goal) : Z :=
  match g with GReserve _ _ b | GElastic _ _ _ b | GCharge _ _ b => b end.

(** What follows a [reservedSubClamp]: a refusal, the rest of an elastic grant,
    the claims word of a release (and the charge of a settlement), or the end of
    a trim. *)
Inductive after :=
| ADenied
| AGranted (held : Z)
| AReleased (charge : option (Z * Z * Z))
| ATrimmed (keep ep : Z).

(** What the guard of a claim's return is for. *)
Inductive giveBack :=
| GiveAll (charge : option (Z * Z * Z))
| GivePart (cut : Z).

(** The next access of a goroutine, with the locals it has read.  [Rest]: no call
    in flight; the claim the goroutine holds on this bucket, if any. *)
Inductive pc :=
| Rest (held : option (Z * Z))
| PubLimit (g : goal)
| PubBurst (g : goal)
| TouchEpoch (g : goal)
| TouchWin (g : goal) (epoch : Z)
| TouchWinCas (g : goal) (epoch stored : Z)
| TouchRes (g : goal) (epoch : Z)
| TouchResCas (g : goal) (epoch stored : Z)
| ZeroReserved (g : goal)
| ZeroClaims (g : goal)
| ReadTat (g : goal)
| ReadNow (g : goal) (tat : Z)
| AddReserved (want level : Z)
| AddElastic (firm el level : Z)
| SubLoad (amt : Z) (a : after)
| SubCas (amt cur : Z) (a : after)
| AddClaims (held : Z)
| LoadTag (held : Z)
| Guard (amt ep : Z) (d : giveBack)
| ClaimLoad (charge : option (Z * Z * Z))
| ClaimCas (cur : Z) (charge : option (Z * Z * Z))
| ChargeNow (count limit : Z)
| ChargeLoad (inc now : Z)
| ChargeCas (inc now cur : Z).

#[export] Instance goal_eq_dec : EqDecision goal.
Proof. solve_decision. Defined.
#[export] Instance after_eq_dec : EqDecision after.
Proof. solve_decision. Defined.
#[export] Instance giveBack_eq_dec : EqDecision giveBack.
Proof. solve_decision. Defined.
#[export] Instance pc_eq_dec : EqDecision pc.
Proof. solve_decision. Defined.

(** The code between the touch and the next shared access. *)
Definition enter (env : quotaEnv) (g : goal) : pc :=
  match g with
  | GReserve want limit bp =>
      if want >? burstTokensFor env limit bp then Rest None else ReadTat g
  | GElastic firm _ limit bp =>
      if firm >? burstTokensFor env limit bp then Rest None else ReadTat g
  | GCharge count limit _ => ChargeNow count limit
  end.

(** The claim is held: count it, unless nothing is left of it. *)
Definition granted (held : Z) : pc := if held ==? 0 then Rest None else AddClaims held.

(** [AllowTokens] up to its first shared access. *)
Definition beginCharge (count limit bp : Z) : pc :=
  if (limit <=? 0) || (count <=? 0) then Rest None else PubLimit (GCharge count limit bp).

(** The tail of a settlement: the claim is returned, charge what was used. *)
Definition settleNext (charge : option (Z * Z * Z)) : pc :=
  match charge with
  | None => Rest None
  | Some (actual, limit, bp) =>
      if actual <=? 0 then Rest None else beginCharge actual limit bp
  end.

Definition afterSub (a : after) : pc :=
  match a with
  | ADenied => Rest None
  | AGranted held => granted held
  | AReleased charge => ClaimLoad charge
  | ATrimmed keep ep => Rest (Some (keep, ep))
  end.

(** One shared access and the local code after it. *)
Definition access (env : quotaEnv) (e : tokenWindowEntry) (p : pc) : tokenWindowEntry * pc :=
  match p with
  | Rest h => (e, Rest h)
  | PubLimit g => (publish (goalLimit g) (burstPct e) e, PubBurst g)
  | PubBurst g => (publish (limitTokens e) (goalBurst g) e, TouchEpoch g)
  | TouchEpoch g => (e, TouchWin g (currentQuotaEpoch env))
  | TouchWin g epoch =>
      (e, if epoch >? windowEpoch e then TouchWinCas g epoch (windowEpoch e) else TouchRes g epoch)
  | TouchWinCas g epoch stored =>
      (if windowEpoch e ==? stored then setWindowEpoch epoch e else e, TouchRes g epoch)
  | TouchRes g epoch =>
      (e, if epoch >? reservedEpoch e then TouchResCas g epoch (reservedEpoch e) else enter env g)
  | TouchResCas g epoch stored =>
      if reservedEpoch e ==? stored then (setReservedEpoch epoch e, ZeroReserved g)
      else (e, enter env g)
  | ZeroReserved g => (setReserved 0 e, ZeroClaims g)
  | ZeroClaims g => (setClaims 0 e, enter env g)
  | ReadTat g => (e, ReadNow g (tatMs e))
  | ReadNow g tat =>
      let burst := burstTokensFor env (goalLimit g) (goalBurst g) in
      let level := i64 (burst - debtTokensOf tat (quotaNowMs env) (goalLimit g)) in
      (e, match g with
          | GReserve want _ _ => AddReserved want level
          | GElastic firm elastic _ _ => AddElastic firm (Z.min elastic (i64 (burst - firm))) level
          | GCharge count limit _ => ChargeNow count limit
          end)
  | AddReserved want level =>
      let newReserved := i64 (reserved e + want) in
      (setReserved newReserved e,
       if newReserved >? level then SubLoad want ADenied else AddClaims want)
  | AddElastic firm el level =>
      let want := i64 (firm + el) in
      let newReserved := i64 (reserved e + want) in
      let over := i64 (newReserved - level) in
      (setReserved newReserved e,
       if over >? 0 then
         if over >? el then SubLoad want ADenied
         else SubLoad over (AGranted (i64 (firm + i64 (el - over))))
       else granted want)
  | SubLoad amt a => (e, SubCas amt (reserved e) a)
  | SubCas amt cur a =>
      if reserved e ==? cur then
        let next := i64 (cur - amt) in
        (setReserved (if next <? 0 then 0 else next) e, afterSub a)
      else (e, SubLoad amt a)
  | AddClaims held => (setClaims (i64 (claims e + 1)) e, LoadTag held)
  | LoadTag held => (e, Rest (Some (held, currentQuotaEpoch env)))
  | Guard amt ep d =>
      (e, match d with
          | GiveAll charge =>
              if reservedEpoch e ==? ep then SubLoad amt (AReleased charge) else settleNext charge
          | GivePart cut =>
              if reservedEpoch e ==? ep then SubLoad cut (ATrimmed (amt - cut) ep)
              else Rest (Some (amt - cut, ep))
          end)
  | ClaimLoad charge =>
      (e, if claims e <=? 0 then settleNext charge else ClaimCas (claims e) charge)
  | ClaimCas cur charge =>
      if claims e ==? cur then (setClaims (i64 (cur - 1)) e, settleNext charge)
      else (e, ClaimLoad charge)
  | ChargeNow count limit => (e, ChargeLoad (refillCeilMs count limit) (quotaNowMs env))
  | ChargeLoad inc now => (e, ChargeCas inc now (tatMs e))
  | ChargeCas inc now cur =>
      if tatMs e ==? cur then (setTat (i64 (Z.max cur now + inc)) e, Rest None)
      else (e, ChargeLoad inc now)
  end.

(** ** Calls *)

Inductive call :=
| CallReserve (want limit bp : Z)
| CallElastic (firm elastic limit bp : Z)
| CallCharge (count limit bp : Z)
| CallRelease
| CallTrim (cut : Z)
| CallSettle (actual limit bp : Z).

(** The call up to its first shared access, by a goroutine that holds [h]: one
    that holds a claim gives it back, part of it or all of it, before it takes
    another.  (A claim held has a positive amount and a positive tag, so the guards
    of a release, a trim and a settlement on those two pass.) *)
Definition start (c : call) (h : option (Z * Z)) : option pc :=
  match c, h with
  | CallReserve want limit bp, None =>
      Some (if (limit <=? 0) || (want <=? 0) then Rest None else PubLimit (GReserve want limit bp))
  | CallElastic firm elastic limit bp, None =>
      let firm := if firm <? 0 then 0 else firm in
      Some (if elastic <=? 0 then
              if (limit <=? 0) || (firm <=? 0) then Rest None else PubLimit (GReserve firm limit bp)
            else if limit <=? 0 then Rest None
            else PubLimit (GElastic firm elastic limit bp))
  | CallCharge count limit bp, None => Some (beginCharge count limit bp)
  | CallRelease, Some (amt, ep) => Some (Guard amt ep (GiveAll None))
  | CallTrim cut, Some (amt, ep) =>
      if (0 <? cut) && (cut <? amt) then Some (Guard amt ep (GivePart cut)) else None
  | CallSettle actual limit bp, Some (amt, ep) =>
      Some (Guard amt ep (GiveAll (Some (actual, limit, bp))))
  | _, _ => None
  end.

(** ** All goroutines, one access at a time *)

Record fworld := FW { fenv : quotaEnv; fentry : tokenWindowEntry; threads : list pc }.

Inductive label :=
| LCall (t : nat) (c : call)
| LAccess (t : nat)
| LClock (epoch nowMs : Z)
| LPeer (window tat : Z).

(** The clock goroutine moves both clocks forward or leaves them; a peer's merge
    raises the activity stamp and the drain time. *)
Definition fexec (w : fworld) (l : label) : option fworld :=
  match l with
  | LCall t c =>
      match threads w !! t with
      | Some (Rest h) => p ← start c h; Some (FW (fenv w) (fentry w) (<[t := p]> (threads w)))
      | _ => None
      end
  | LAccess t =>
      p ← threads w !! t;
      let '(e, p') := access (fenv w) (fentry w) p in
      Some (FW (fenv w) e (<[t := p']> (threads w)))
  | LClock epoch nowMs =>
      if (currentQuotaEpoch (fenv w) <=? epoch) then
        Some (FW (QuotaEnv (quotaEvictAfterWindows (fenv w)) (quotaBurstPct (fenv w)) epoch nowMs)
                 (fentry w) (threads w))
      else None
  | LPeer window tat =>
      Some (FW (fenv w)
        (setTat (Z.max tat (tatMs (fentry w)))
           (setWindowEpoch (Z.max window (windowEpoch (fentry w))) (fentry w))) (threads w))
  end.

Fixpoint frun (w : fworld) (ls : list label) : option fworld :=
  match ls with
  | [] => Some w
  | l :: ls => w' ← fexec w l; frun w' ls
  end.

(** ** The windows in which the ledger can lose count *)

(** Between the winning compare-and-swap of the marker and the second zeroing. *)
Definition zeroing (p : pc) : bool :=
  match p with ZeroReserved _ | ZeroClaims _ => true | _ => false end.

(** The next access reads or writes one of the two counters. *)
Definition counting (p : pc) : bool :=
  match p with
  | AddReserved _ _ | AddElastic _ _ _ | SubLoad _ _ | SubCas _ _ _ | AddClaims _
  | ClaimLoad _ | ClaimCas _ _ => true
  | _ => false
  end.

(** Past the guard of a release or a trim. *)
Definition returning (p : pc) : bool :=
  match p with
  | SubLoad _ (AReleased _) | SubLoad _ (ATrimmed _ _)
  | SubCas _ _ (AReleased _) | SubCas _ _ (ATrimmed _ _) => true
  | ClaimLoad _ | ClaimCas _ _ => true
  | _ => false
  end.

(** Holds a minute it has read: inside a touch, or inside a reservation whose tag
    is not read yet. *)
Definition dated (p : pc) : bool :=
  match p with
  | TouchWin _ _ | TouchWinCas _ _ _ | TouchRes _ _ | TouchResCas _ _ _
  | ZeroReserved _ | ZeroClaims _ | ReadTat _ | ReadNow _ _
  | AddReserved _ _ | AddElastic _ _ _ | AddClaims _ | LoadTag _ => true
  | SubLoad _ (ADenied | AGranted _) | SubCas _ _ (ADenied | AGranted _) => true
  | _ => false
  end.

(** The schedules outside the windows: the minute does not turn inside a touch or
    a reservation; no counter is accessed while a minute is being opened; a
    minute is not opened past a release that has passed its guard. *)
Definition orderly (w : fworld) (l : label) : bool :=
  match l with
  | LClock epoch _ =>
      (epoch ==? currentQuotaEpoch (fenv w)) || forallb (fun p => negb (dated p)) (threads w)
  | LAccess t =>
      match threads w !! t with
      | Some p =>
          (negb (counting p) || forallb (fun q => negb (zeroing q)) (threads w)) &&
          match p with
          | TouchResCas _ _ stored =>
              (reservedEpoch (fentry w) !=? stored) || forallb (fun q => negb (returning q)) (threads w)
          | _ => true
          end
      | None => true
      end
  | _ => true
  end.

(** A call asks for amounts and limits in the range of the key store's columns. *)
Definition call_ok (c : call) : bool :=
  match c with
  | CallReserve _ limit _ | CallElastic _ _ limit _ => limit <? 2147483648
  | _ => true
  end.

Definition label_ok (l : label) : bool :=
  match l with LCall _ c => call_ok c | _ => true end.

Fixpoint orun (w : fworld) (ls : list label) : option fworld :=
  match ls with
  | [] => Some w
  | l :: ls => if orderly w l && label_ok l then w' ← fexec w l; orun w' ls else None
  end.

(** Goroutines that hold nothing, on a bucket that was just created. *)
Definition freshWorld (env : quotaEnv) (n : nat) : fworld := FW env zeroEntry (replicate n (Rest None)).

(** ** What each goroutine has on the two counters *)

(** The tokens a goroutine has on [reserved] at this point, when the bucket's
    marker is [m]. *)
Definition onReserved (m : Z) (p : pc) : Z :=
  match p with
  | Rest (Some (amt, ep)) | Guard amt ep _ => if ep ==? m then amt else 0
  | SubLoad amt a | SubCas amt _ a =>
      match a with
      | AGranted held => amt + held
      | ATrimmed keep _ => amt + keep
      | _ => amt
      end
  | AddClaims held | LoadTag held => held
  | _ => 0
  end.

(** The claims it has on [claims]. *)
Definition onClaims (m : Z) (p : pc) : Z :=
  match p with
  | Rest (Some (_, ep)) | Guard _ ep _ => if ep ==? m then 1 else 0
  | SubLoad _ a | SubCas _ _ a =>
      match a with AReleased _ | ATrimmed _ _ => 1 | _ => 0 end
  | LoadTag _ | ClaimLoad _ | ClaimCas _ _ => 1
  | _ => 0
  end.

Definition sumOver (f : pc -> Z) (l : list pc) : Z := foldr Z.add 0 (f <$> l).

(** The claims held between calls. *)
Definition heldBy (l : list pc) : list (Z * Z) :=
  omap (fun p => match p with Rest h => h | _ => None end) l.

Definition resting (p : pc) : bool := match p with Rest _ => true | _ => false end.

Lemma sumOver_cons f p l : sumOver f (p :: l) = f p + sumOver f l.
Proof. done. Qed.

Lemma sumOver_insert f l t p p' :
  l !! t = Some p -> sumOver f (<[t := p']> l) = sumOver f l - f p + f p'.
Proof.
  revert t. induction l as [|q l IH]; intros [|t] H; simplify_eq/=; rewrite !sumOver_cons; [lia|].
  rewrite (IH t H). lia.
Qed.

Lemma sumOver_ext f g l : Forall (fun p => f p = g p) l -> sumOver f l = sumOver g l.
Proof. induction 1 as [|p l H _ IH]; [done|]. rewrite !sumOver_cons. lia. Qed.

Lemma sumOver_zero f l : Forall (fun p => f p = 0) l -> sumOver f l = 0.
Proof. induction 1 as [|p l H _ IH]; [done|]. rewrite !sumOver_cons. lia. Qed.

Lemma sumOver_bounds f l b :
  Forall (fun p => 0 <= f p <= b) l -> 0 <= sumOver f l <= b * Z.of_nat (length l).
Proof.
  induction 1 as [|p l H _ IH]; [simpl; unfold sumOver; simpl; lia|].
  rewrite !sumOver_cons. simpl length. rewrite Nat2Z.inj_succ. lia.
Qed.

(** A goroutine's part is at most the whole. *)
Lemma sumOver_part f l b t p :
  Forall (fun p => 0 <= f p <= b) l -> l !! t = Some p -> 0 <= f p <= sumOver f l.
Proof.
  intros H. revert t. induction H as [|q l Hq Hl IH]; intros [|t] Ht; simplify_eq/=;
    pose proof (sumOver_bounds f l b Hl); rewrite sumOver_cons; [lia|].
  specialize (IH t Ht). lia.
Qed.

(** ** The invariant *)

Definition maxAmt : Z := 21474836480.

Definition goal_ok (g : goal) : Prop :=
  match g with
  | GReserve want limit _ => 0 < want /\ limit_ok limit
  | GElastic firm elastic limit _ => 0 <= firm /\ 0 < elastic /\ limit_ok limit
  | GCharge _ _ _ => True
  end.

Definition isCharge (g : goal) : Prop := match g with GCharge _ _ _ => True | _ => False end.

(** A goroutine's locals are consistent with the marker [m] and the minute [c]. *)
Definition pc_ok (env : quotaEnv) (m : Z) (p : pc) : Prop :=
  let c := currentQuotaEpoch env in
  match p with
  | Rest None => True
  | Rest (Some (amt, ep)) => 0 < amt <= maxAmt /\ ep <= m
  | PubLimit g | PubBurst g | TouchEpoch g => goal_ok g
  | TouchWin g ep | TouchWinCas g ep _ | TouchRes g ep => goal_ok g /\ ep = c
  | TouchResCas g ep stored => goal_ok g /\ ep = c /\ stored < c /\ (m = stored \/ m = c)
  | ZeroReserved g | ZeroClaims g => goal_ok g /\ m = c
  | ReadTat g | ReadNow g _ =>
      goal_ok g /\ ~ isCharge g /\ m = c /\
      match g with
      | GReserve want limit bp => want <= burstTokensFor env limit bp
      | GElastic firm _ limit bp => firm <= burstTokensFor env limit bp
      | _ => True
      end
  | AddReserved want _ => m = c /\ 0 < want <= maxAmt
  | AddElastic firm el _ => m = c /\ 0 <= firm /\ 0 <= el /\ firm + el <= maxAmt
  | SubLoad amt a | SubCas amt _ a =>
      match a with
      | ADenied => m = c /\ 0 <= amt <= maxAmt
      | AGranted held => m = c /\ 0 <= amt /\ 0 <= held /\ amt + held <= maxAmt
      | AReleased _ => 0 < amt <= maxAmt
      | ATrimmed keep ep => ep = m /\ 0 < amt /\ 0 < keep /\ amt + keep <= maxAmt
      end
  | AddClaims held | LoadTag held => m = c /\ 0 < held <= maxAmt
  | Guard amt ep d =>
      0 < amt <= maxAmt /\ ep <= m /\ match d with GivePart cut => 0 < cut < amt | _ => True end
  | _ => True
  end.

Definition noneAre (b : pc -> bool) (l : list pc) : Prop := Forall (fun p => b p = false) l.

Definition isZeroReserved (p : pc) : bool := match p with ZeroReserved _ => true | _ => false end.

Record finv (w : fworld) : Prop := FInv {
  fi_env : env_ok (fenv w);
  fi_mark : reservedEpoch (fentry w) <= currentQuotaEpoch (fenv w);
  fi_size : Z.of_nat (length (threads w)) <= 1048576;
  fi_pcs : Forall (pc_ok (fenv w) (reservedEpoch (fentry w))) (threads w);
  fi_reserved : noneAre isZeroReserved (threads w) ->
    reserved (fentry w) = sumOver (onReserved (reservedEpoch (fentry w))) (threads w);
  fi_claims : noneAre zeroing (threads w) ->
    claims (fentry w) = sumOver (onClaims (reservedEpoch (fentry w))) (threads w);
  fi_open : ~ noneAre zeroing (threads w) ->
    Forall (fun p => onReserved (reservedEpoch (fentry w)) p = 0 /\
                     onClaims (reservedEpoch (fentry w)) p = 0) (threads w)
}.

Lemma noneAre_insert b l t p p' :
  l !! t = Some p -> b p = b p' -> noneAre b (<[t := p']> l) <-> noneAre b l.
Proof.
  intros Hl Hb. unfold noneAre. split; intros H.
  - rewrite <- (list_insert_id l t p Hl), <- (list_insert_insert_eq l t p p').
    apply Forall_insert; [done|]. rewrite Hb. apply (Forall_lookup_1 _ _ t p' H).
    apply list_lookup_insert_eq. by eapply lookup_lt_Some.
  - apply Forall_insert; [done|]. rewrite <- Hb. by apply (Forall_lookup_1 _ _ t p H).
Qed.

Lemma forallb_noneAre b l : forallb (fun p => negb (b p)) l = true <-> noneAre b l.
Proof.
  unfold noneAre. rewrite forallb_forall, Forall_forall. setoid_rewrite negb_true_iff.
  setoid_rewrite list_elem_of_In. done.
Qed.

Lemma zeroing_reserved p : zeroing p = false -> isZeroReserved p = false.
Proof. by destruct p. Qed.

(** The parts are non-negative and bounded, so the sums stay within 64 bits. *)
Lemma on_bounds env m p :
  pc_ok env m p -> 0 <= onReserved m p <= maxAmt /\ 0 <= onClaims m p <= 1.
Proof.
  unfold maxAmt.
  destruct p as [[[amt ep]|]| | | | | | | | | | | | | |amt [|h| |kp ep]|amt cur [|h| |kp ep]
                | | |amt ep d| | | | |]; simpl; unfold maxAmt; repeat zcase; lia.
Qed.

Section Moves.
Context (w : fworld) (Hw : finv w) (t : nat) (p : pc) (Ht : threads w !! t = Some p).

Let m := reservedEpoch (fentry w).

Lemma move_ok : pc_ok (fenv w) m p.
Proof. exact (Forall_lookup_1 _ _ _ _ (fi_pcs w Hw) Ht). Qed.

Lemma sum_bounds :
  0 <= onReserved m p <= sumOver (onReserved m) (threads w) /\
  0 <= onClaims m p <= sumOver (onClaims m) (threads w) /\
  sumOver (onReserved m) (threads w) <= maxAmt * 1048576 /\
  sumOver (onClaims m) (threads w) <= 1048576.
Proof.
  assert (Forall (fun p => 0 <= onReserved m p <= maxAmt) (threads w)) as H1.
  { eapply Forall_impl; [exact (fi_pcs w Hw)|]. intros q Hq. exact (proj1 (on_bounds _ _ _ Hq)). }
  assert (Forall (fun p => 0 <= onClaims m p <= 1) (threads w)) as H2.
  { eapply Forall_impl; [exact (fi_pcs w Hw)|]. intros q Hq. exact (proj2 (on_bounds _ _ _ Hq)). }
  pose proof (sumOver_part _ _ _ _ _ H1 Ht). pose proof (sumOver_part _ _ _ _ _ H2 Ht).
  pose proof (sumOver_bounds _ _ _ H1). pose proof (sumOver_bounds _ _ _ H2).
  pose proof (fi_size w Hw). unfold maxAmt in *. nia.
Qed.

(** An access that leaves the two counters, the marker and what the goroutine has
    on the counters as they were. *)
Lemma quiet_move e' p' :
  reservedEpoch e' = m -> reserved e' = reserved (fentry w) -> claims e' = claims (fentry w) ->
  zeroing p = false -> zeroing p' = false -> pc_ok (fenv w) m p' ->
  onReserved m p' = onReserved m p -> onClaims m p' = onClaims m p ->
  finv (FW (fenv w) e' (<[t := p']> (threads w))).
Proof.
  intros Hm Hr Hc Hz Hz' Hp HR HC. destruct Hw as [I1 I2 I3 I4 I5 I6 I7]. fold m in I2, I4, I5, I6, I7.
  assert (isZeroReserved p = isZeroReserved p') as Hzr
    by (by rewrite (zeroing_reserved _ Hz), (zeroing_reserved _ Hz')).
  constructor; simpl; rewrite ?Hm; try done.
  - by rewrite length_insert.
  - by apply Forall_insert.
  - rewrite (noneAre_insert _ _ _ _ _ Ht Hzr), (sumOver_insert _ _ _ _ _ Ht), Hr.
    intros Hn. rewrite (I5 Hn). lia.
  - rewrite (noneAre_insert _ _ _ p p' Ht) by congruence.
    rewrite (sumOver_insert _ _ _ _ _ Ht), Hc. intros Hn. rewrite (I6 Hn). lia.
  - rewrite (noneAre_insert _ _ _ p p' Ht) by congruence. intros Hn. specialize (I7 Hn).
    apply Forall_insert; [done|]. rewrite HR, HC. exact (Forall_lookup_1 _ _ _ _ I7 Ht).
Qed.

(** An access that moves the counters by what it changes on the goroutine's side,
    while no minute is being opened. *)
Lemma count_move e' p' :
  noneAre zeroing (threads w) -> reservedEpoch e' = m -> zeroing p' = false -> pc_ok (fenv w) m p' ->
  reserved e' = reserved (fentry w) + (onReserved m p' - onReserved m p) ->
  claims e' = claims (fentry w) + (onClaims m p' - onClaims m p) ->
  finv (FW (fenv w) e' (<[t := p']> (threads w))).
Proof.
  intros Hn Hm Hz' Hp HR HC. destruct Hw as [I1 I2 I3 I4 I5 I6 I7]. fold m in I2, I4, I5, I6, I7.
  assert (noneAre isZeroReserved (threads w)) as Hn'.
  { eapply Forall_impl; [exact Hn|]. apply zeroing_reserved. }
  constructor; simpl; rewrite ?Hm; try done.
  - by rewrite length_insert.
  - by apply Forall_insert.
  - intros _. rewrite (sumOver_insert _ _ _ _ _ Ht), HR, (I5 Hn'). lia.
  - intros _. rewrite (sumOver_insert _ _ _ _ _ Ht), HC, (I6 Hn). lia.
  - intros Hz. destruct Hz. by apply Forall_insert.
Qed.

Lemma counters_read :
  noneAre zeroing (threads w) ->
  reserved (fentry w) = sumOver (onReserved m) (threads w) /\
  claims (fentry w) = sumOver (onClaims m) (threads w).
Proof.
  intros Hn. split; [apply (fi_reserved w Hw)|by apply (fi_claims w Hw)].
  eapply Forall_impl; [exact Hn|]. apply zeroing_reserved.
Qed.

End Moves.

(** A program point at which nothing is on the counters. *)
Definition clean (env : quotaEnv) (m : Z) (p : pc) : Prop :=
  zeroing p = false /\ pc_ok env m p /\ onReserved m p = 0 /\ onClaims m p = 0.

Lemma enter_clean env m g :
  goal_ok g -> m = currentQuotaEpoch env -> clean env m (enter env g).
Proof.
  unfold clean. destruct g; simpl; intros Hg ->; try zcase; simpl; split_and!; done || lia || tauto.
Qed.

Lemma beginCharge_clean env m count limit bp : clean env m (beginCharge count limit bp).
Proof. unfold clean, beginCharge. destruct (_ || _); done. Qed.

Lemma settleNext_clean env m ch : clean env m (settleNext ch).
Proof.
  destruct ch as [[[a l] b]|]; simpl; [|done]. destruct (a <=? 0); [done|]. apply beginCharge_clean.
Qed.

Lemma granted_on env m h :
  m = currentQuotaEpoch env -> 0 <= h <= maxAmt ->
  zeroing (granted h) = false /\ pc_ok env m (granted h) /\
  onReserved m (granted h) = h /\ onClaims m (granted h) = 0.
Proof. intros -> Hh. unfold granted. zcase; simpl; split_and!; done || lia. Qed.

(** From one clean point to another, on an entry whose ledger words are kept. *)
Lemma clean_move w t p p' e' :
  finv w -> threads w !! t = Some p -> clean (fenv w) (reservedEpoch (fentry w)) p ->
  clean (fenv w) (reservedEpoch (fentry w)) p' ->
  ledger_words e' = ledger_words (fentry w) ->
  finv (FW (fenv w) e' (<[t := p']> (threads w))).
Proof.
  intros Hw Ht (Z1 & _ & R1 & C1) (Z2 & P2 & R2 & C2) He. injection He as H1 H2 H3.
  apply (quiet_move w Hw t p Ht); try done; congruence.
Qed.

(** The level the reservation reads bounds what it may add. *)
Lemma readNow_clean env m g tat e :
  env_ok env -> pc_ok env m (ReadNow g tat) -> clean env m (access env e (ReadNow g tat)).2.
Proof.
  intros He (Hg & Hc & Hm & Hb). unfold clean.
  destruct g as [want limit bp|firm elastic limit bp|]; simpl in *; [| |tauto].
  - destruct Hg as [Hw Hl]. pose proof (burstTokensFor_bounds env limit bp He Hl).
    unfold maxAmt. unbound. split_and!; try done; lia.
  - destruct Hg as (Hf & Hel & Hl). pose proof (burstTokensFor_bounds env limit bp He Hl).
    unbound. rewrite i64_id by (unfold in_i64, two63; lia). unfold maxAmt. split_and!; try done; lia.
Qed.

Lemma pc_clean env m p :
  zeroing p = false -> pc_ok env m p -> onReserved m p = 0 -> onClaims m p = 0 -> clean env m p.
Proof. done. Qed.

(** The touch, up to the marker's compare-and-swap when another goroutine won it. *)
Lemma touch_quiet w t p g :
  finv w -> threads w !! t = Some p ->
  (exists ep, p = TouchRes g ep) \/
  (exists ep st, p = TouchResCas g ep st /\ reservedEpoch (fentry w) <> st) ->
  finv (FW (fenv w) (access (fenv w) (fentry w) p).1 (<[t := (access (fenv w) (fentry w) p).2]> (threads w))).
Proof.
  intros Hw Ht H. pose proof (move_ok w Hw t p Ht) as Hp. pose proof (fi_mark w Hw) as Hm.
  destruct H as [[ep ->]|(ep & st & -> & Hne)]; simpl in *.
  - destruct Hp as [Hg ->]. apply (clean_move w t _ _ _ Hw Ht); [done| |done].
    zcase; [|apply enter_clean; [done|lia]]. apply pc_clean; simpl; split_and?; done || lia || auto.
  - destruct Hp as (Hg & -> & Hst & Hor). destruct (Z.eqb_spec (reservedEpoch (fentry w)) st); [done|].
    apply (clean_move w t _ _ _ Hw Ht); [apply pc_clean; simpl; tauto| |done].
    apply enter_clean; [done|]. by destruct Hor.
Qed.

(** The guard of a claim's return. *)
Lemma guard_quiet w t amt ep d :
  finv w -> threads w !! t = Some (Guard amt ep d) ->
  finv (FW (fenv w) (fentry w) (<[t := (access (fenv w) (fentry w) (Guard amt ep d)).2]> (threads w))).
Proof.
  intros Hw Ht. pose proof (move_ok w Hw t _ Ht) as Hp. simpl in Hp. destruct Hp as (Ha & He & Hd).
  simpl. destruct d as [ch|cut]; destruct (Z.eqb_spec (reservedEpoch (fentry w)) ep) as [<-|Hne].
  - apply (quiet_move w Hw t _ Ht); simpl; try done; by rewrite Z.eqb_refl.
  - apply (clean_move w t _ _ _ Hw Ht); [|apply settleNext_clean|done].
    apply pc_clean; simpl; try done; by destruct (Z.eqb_spec ep (reservedEpoch (fentry w))).
  - apply (quiet_move w Hw t _ Ht); simpl; try done; rewrite ?Z.eqb_refl; unfold maxAmt in *; lia.
  - apply (quiet_move w Hw t _ Ht); simpl; try done; unfold maxAmt in *; try lia;
      by destruct (Z.eqb_spec ep (reservedEpoch (fentry w))).
Qed.

(** The accesses that are neither on the counters nor the opening of a minute. *)
Lemma access_quiet w t p :
  finv w -> threads w !! t = Some p -> zeroing p = false -> counting p = false ->
  (forall g ep st, p = TouchResCas g ep st -> reservedEpoch (fentry w) <> st) ->
  finv (FW (fenv w) (access (fenv w) (fentry w) p).1 (<[t := (access (fenv w) (fentry w) p).2]> (threads w))).
Proof.
  intros Hw Ht Hz Hc Hwin. pose proof (move_ok w Hw t p Ht) as Hp.
  destruct p as [h| | | | | | | | | | | | | | | | |h|amt ep d| | | | |]; simpl in Hz, Hc; try discriminate.
  - apply (quiet_move w Hw t _ Ht); done.
  - apply (clean_move w t _ _ _ Hw Ht); done.
  - apply (clean_move w t _ _ _ Hw Ht); done.
  - apply (clean_move w t _ _ _ Hw Ht); done.
  - simpl. apply (clean_move w t _ _ _ Hw Ht); try done. by zcase.
  - simpl. apply (clean_move w t _ _ _ Hw Ht); try done. by zcase.
  - eapply touch_quiet; eauto.
  - eapply touch_quiet; [done|done|right; eauto].
  - apply (clean_move w t _ _ _ Hw Ht); try done; (apply pc_clean; [done|exact Hp|done|done]).
  - apply (clean_move w t _ _ _ Hw Ht); [apply pc_clean; [done|exact Hp|done|done]| |done].
    by apply readNow_clean; [apply fi_env|].
  - simpl in Hp. apply (quiet_move w Hw t _ Ht); simpl; try done; unfold maxAmt in *; try lia;
      by rewrite (proj1 Hp), Z.eqb_refl.
  - by apply guard_quiet.
  - apply (clean_move w t _ _ _ Hw Ht); done.
  - apply (clean_move w t _ _ _ Hw Ht); done.
  - simpl. zcase; apply (clean_move w t _ _ _ Hw Ht); done.
Qed.

(** An add to [reserved] does not wrap. *)
Lemma add_exact w t p n :
  finv w -> threads w !! t = Some p -> noneAre zeroing (threads w) -> 0 <= n <= maxAmt ->
  i64 (reserved (fentry w) + n) = reserved (fentry w) + n.
Proof.
  intros Hw Ht Hn Hb. destruct (counters_read w Hw Hn) as [Hr _].
  pose proof (sum_bounds w Hw t p Ht) as (B1 & _ & B3 & _). rewrite <- Hr in B1, B3.
  apply i64_id. unfold in_i64, two63, maxAmt in *. lia.
Qed.

(** The compare-and-swap of [reservedSubClamp] takes off exactly [amt]. *)
Lemma sub_exact w t p amt :
  finv w -> threads w !! t = Some p -> noneAre zeroing (threads w) ->
  0 <= amt <= onReserved (reservedEpoch (fentry w)) p ->
  (if i64 (reserved (fentry w) - amt) <? 0 then 0 else i64 (reserved (fentry w) - amt)) =
  reserved (fentry w) - amt.
Proof.
  intros Hw Ht Hn Hb. destruct (counters_read w Hw Hn) as [Hr _].
  pose proof (sum_bounds w Hw t p Ht) as (B1 & _ & B3 & _). rewrite <- Hr in B1, B3.
  rewrite i64_id by (unfold in_i64, two63, maxAmt in *; lia). zcase; lia.
Qed.

Lemma elastic_count w t firm el level :
  finv w -> threads w !! t = Some (AddElastic firm el level) -> noneAre zeroing (threads w) ->
  finv (FW (fenv w) (access (fenv w) (fentry w) (AddElastic firm el level)).1
    (<[t := (access (fenv w) (fentry w) (AddElastic firm el level)).2]> (threads w))).
Proof.
  intros Hw Ht Hn. pose proof (move_ok w Hw t _ Ht) as (Hm & Hf & He & Hb).
  cbn [access fst snd]. rewrite (i64_id (firm + el)) by (unfold in_i64, two63, maxAmt in *; lia).
  rewrite (add_exact w t _ (firm + el) Hw Ht Hn) by lia.
  set (over := i64 (_ - level)).
  destruct (granted_on (fenv w) _ (firm + el) Hm ltac:(lia)) as (G1 & G2 & G3 & G4).
  zcase; [zcase|]; apply (count_move w Hw t _ Ht); try done;
    rewrite ?(i64_id (el - over)) by (unfold in_i64, two63, maxAmt in *; lia);
    rewrite ?(i64_id (firm + (el - over))) by (unfold in_i64, two63, maxAmt in *; lia);
    simpl; rewrite ?G3, ?G4; unfold maxAmt in *; split_and?; try done; lia.
Qed.

Lemma sub_count w t amt cur a :
  finv w -> threads w !! t = Some (SubCas amt cur a) -> noneAre zeroing (threads w) ->
  finv (FW (fenv w) (access (fenv w) (fentry w) (SubCas amt cur a)).1
    (<[t := (access (fenv w) (fentry w) (SubCas amt cur a)).2]> (threads w))).
Proof.
  intros Hw Ht Hn. pose proof (move_ok w Hw t _ Ht) as Hp. cbn [access].
  destruct (Z.eqb_spec (reserved (fentry w)) cur) as [<-|Hne]; cbn [fst snd].
  - rewrite (sub_exact w t _ amt Hw Ht Hn) by (simpl in *; destruct a; lia).
    destruct a as [|h|ch|kp ep]; simpl in Hp.
    + apply (count_move w Hw t _ Ht); try done; simpl; lia.
    + destruct (granted_on (fenv w) _ h (proj1 Hp) ltac:(lia)) as (G1 & G2 & G3 & G4).
      apply (count_move w Hw t _ Ht); try done; simpl; rewrite ?G3, ?G4; lia.
    + apply (count_move w Hw t _ Ht); try done; simpl; lia.
    + destruct Hp as (-> & Hp). apply (count_move w Hw t _ Ht); simpl; rewrite ?Z.eqb_refl; try done;
        unfold maxAmt in *; lia.
  - by apply (quiet_move w Hw t _ Ht).
Qed.

(** The accesses on the counters, while no minute is being opened. *)
Lemma access_count w t p :
  finv w -> threads w !! t = Some p -> counting p = true -> noneAre zeroing (threads w) ->
  finv (FW (fenv w) (access (fenv w) (fentry w) p).1 (<[t := (access (fenv w) (fentry w) p).2]> (threads w))).
Proof.
  intros Hw Ht Hc Hn. pose proof (move_ok w Hw t p Ht) as Hp.
  destruct (counters_read w Hw Hn) as [Hr Hcl].
  pose proof (sum_bounds w Hw t p Ht) as (_ & B2 & _ & B4). rewrite <- Hcl in B2, B4.
  destruct p as [| | | | | | | | | | | |want level| |amt a|amt cur a|h| | |ch|cur ch| | |];
    simpl in Hc; try discriminate.
  - destruct Hp as [Hm Hb]. cbn [access fst snd]. rewrite (add_exact w t _ want Hw Ht Hn) by lia.
    zcase; apply (count_move w Hw t _ Ht); simpl; try done; lia.
  - by apply elastic_count.
  - by apply (quiet_move w Hw t _ Ht).
  - by apply sub_count.
  - simpl in Hp, B2. cbn [access fst snd]. rewrite i64_id by (unfold in_i64, two63; lia).
    apply (count_move w Hw t _ Ht); simpl; try done; lia.
  - simpl in B2 |- *. zcase; [lia|]. by apply (quiet_move w Hw t _ Ht).
  - simpl in B2 |- *. destruct (Z.eqb_spec (claims (fentry w)) cur) as [<-|Hne]; cbn [fst snd].
    + rewrite i64_id by (unfold in_i64, two63; lia).
      destruct (settleNext_clean (fenv w) (reservedEpoch (fentry w)) ch) as (S1 & S2 & S3 & S4).
      apply (count_move w Hw t _ Ht); simpl; try done; rewrite ?S3, ?S4; lia.
    + by apply (quiet_move w Hw t _ Ht).
Qed.

(** The winning compare-and-swap of the marker: nothing is on the counters of the
    minute it opens. *)
Lemma access_open w t g ep :
  finv w -> threads w !! t = Some (TouchResCas g ep (reservedEpoch (fentry w))) ->
  noneAre returning (threads w) ->
  finv (FW (fenv w) (setReservedEpoch ep (fentry w)) (<[t := ZeroReserved g]> (threads w))).
Proof.
  intros Hw Ht Hn. pose proof (move_ok w Hw t _ Ht) as (Hg & -> & Hlt & _).
  destruct Hw as [I1 I2 I3 I4 _ _ _].
  assert (Forall (fun p => pc_ok (fenv w) (currentQuotaEpoch (fenv w)) p /\
    onReserved (currentQuotaEpoch (fenv w)) p = 0 /\ onClaims (currentQuotaEpoch (fenv w)) p = 0)
    (<[t := ZeroReserved g]> (threads w))) as Hall.
  { apply Forall_insert; [|done]. rewrite Forall_forall. intros p Hp.
    rewrite Forall_forall in I4. unfold noneAre in Hn. rewrite Forall_forall in Hn.
    specialize (I4 _ Hp). specialize (Hn _ Hp).
    destruct p as [[[amt e1]|]| | | | | | | | | | | | | |amt [|h| |kp e1]|amt cur [|h| |kp e1]
                  | | |amt e1 d| | | | |]; simpl in *; try done;
      rewrite ?(proj2 (Z.eqb_neq e1 _)) by lia; try (split_and!; try done; lia).
    - destruct I4 as (? & ? & ? & ?). split_and!; try done. by right.
    - destruct I4 as (? & ? & ?). split_and!; try done; lia. }
  constructor; simpl; try done; try lia.
  - by rewrite length_insert.
  - eapply Forall_impl; [exact Hall|]. by intros p (? & ? & ?).
  - intros Hz. exfalso. eapply Forall_lookup_1 in Hz; [|apply list_lookup_insert_eq; by eapply lookup_lt_Some].
    discriminate.
  - intros Hz. exfalso. eapply Forall_lookup_1 in Hz; [|apply list_lookup_insert_eq; by eapply lookup_lt_Some].
    discriminate.
  - intros _. eapply Forall_impl; [exact Hall|]. by intros p (? & ? & ?).
Qed.

(** The two zeroings. *)
Lemma access_zero w t p :
  finv w -> threads w !! t = Some p -> zeroing p = true ->
  finv (FW (fenv w) (access (fenv w) (fentry w) p).1 (<[t := (access (fenv w) (fentry w) p).2]> (threads w))).
Proof.
  intros Hw Ht Hz. pose proof (move_ok w Hw t p Ht) as Hp.
  assert (~ noneAre zeroing (threads w)) as Hnz.
  { intros H. pose proof (Forall_lookup_1 _ _ _ _ H Ht). congruence. }
  destruct Hw as [I1 I2 I3 I4 I5 I6 I7]. specialize (I7 Hnz).
  assert (forall p', onReserved (reservedEpoch (fentry w)) p' = 0 ->
    onClaims (reservedEpoch (fentry w)) p' = 0 ->
    Forall (fun p => onReserved (reservedEpoch (fentry w)) p = 0 /\
                     onClaims (reservedEpoch (fentry w)) p = 0) (<[t := p']> (threads w))) as Hall
    by (intros p' ??; by apply Forall_insert).
  destruct p; try discriminate; simpl in Hp; destruct Hp as [Hg Hm].
  - specialize (Hall (ZeroClaims g) eq_refl eq_refl).
    constructor; simpl; try done; try (by rewrite length_insert); try (by apply Forall_insert).
    + intros _. symmetry. apply sumOver_zero. eapply Forall_impl; [exact Hall|]. by intros ? [].
    + intros Hn. exfalso. eapply Forall_lookup_1 in Hn; [|apply list_lookup_insert_eq; by eapply lookup_lt_Some].
      discriminate.
  - destruct (enter_clean (fenv w) _ g Hg Hm) as (C1 & C2 & C3 & C4). specialize (Hall _ C3 C4).
    constructor; simpl; try done; try (by rewrite length_insert); try (by apply Forall_insert).
    + intros Hn. rewrite I5; [|by apply (noneAre_insert _ _ _ _ _ Ht) in Hn; [|rewrite (zeroing_reserved _ C1)]].
      rewrite (sumOver_insert _ _ _ _ _ Ht), C3. simpl. lia.
    + intros _. symmetry. apply sumOver_zero. eapply Forall_impl; [exact Hall|]. by intros ? [].
Qed.

Lemma access_inv w t p :
  finv w -> threads w !! t = Some p -> orderly w (LAccess t) = true ->
  finv (FW (fenv w) (access (fenv w) (fentry w) p).1 (<[t := (access (fenv w) (fentry w) p).2]> (threads w))).
Proof.
  intros Hw Ht Ho. unfold orderly in Ho. rewrite Ht in Ho. apply andb_true_iff in Ho as [Ho1 Ho2].
  destruct (zeroing p) eqn:Hz; [by apply access_zero|].
  destruct (counting p) eqn:Hc; [apply access_count; try done; by apply forallb_noneAre|].
  destruct p as [| | | | | | |g ep st| | | | | | | | | | | | | | | |];
    try (apply access_quiet; [done|done|done|done|by intros]).
  destruct (Z.eqb_spec (reservedEpoch (fentry w)) st) as [<-|Hne].
  - cbn [access]. rewrite Z.eqb_refl. apply access_open; [done|done|]. by apply forallb_noneAre.
  - apply access_quiet; try done. by intros g' ep' st' [= _ _ <-].
Qed.

Lemma clock_inv w epoch now :
  finv w -> orderly w (LClock epoch now) = true -> currentQuotaEpoch (fenv w) <= epoch ->
  finv (FW (QuotaEnv (quotaEvictAfterWindows (fenv w)) (quotaBurstPct (fenv w)) epoch now)
           (fentry w) (threads w)).
Proof.
  intros [I1 I2 I3 I4 I5 I6 I7] Ho Hle. apply orb_true_iff in Ho.
  constructor; try done; simpl; [lia|].
  destruct Ho as [->%Z.eqb_eq|Hd%forallb_noneAre].
  - eapply Forall_impl; [exact I4|]. done.
  - rewrite Forall_forall in I4 |- *. unfold noneAre in Hd. rewrite Forall_forall in Hd.
    intros p Hp. specialize (I4 _ Hp). specialize (Hd _ Hp).
    destruct p as [| | | | | | | | | | | | | |amt []|amt cur []| | | | | | | |]; try discriminate; exact I4.
Qed.

Lemma call_inv w t c h p :
  finv w -> threads w !! t = Some (Rest h) -> call_ok c = true -> start c h = Some p ->
  finv (FW (fenv w) (fentry w) (<[t := p]> (threads w))).
Proof.
  intros Hw Ht Hc Hs. pose proof (move_ok w Hw t _ Ht) as Hp.
  destruct c as [want limit bp|firm elastic limit bp|count limit bp| |cut|actual limit bp], h as [[amt ep]|];
    simplify_eq/=;
    try (apply (clean_move w t _ _ _ Hw Ht); [done| |done]).
  - apply Z.ltb_lt in Hc. destruct (Z.leb_spec limit 0), (Z.leb_spec want 0); simpl;
      apply pc_clean; simpl; unbound; done || lia.
  - apply Z.ltb_lt in Hc. set (f := if firm <? 0 then 0 else firm).
    assert (0 <= f) by (unfold f; zcase; lia).
    destruct (Z.leb_spec elastic 0), (Z.leb_spec limit 0), (Z.leb_spec f 0); simpl;
      apply pc_clean; simpl; unbound; done || lia.
  - apply beginCharge_clean.
  - apply (quiet_move w Hw t _ Ht); simpl; tauto.
  - destruct ((0 <? cut) && (cut <? amt)) eqn:Hcut; simplify_eq. split_bools.
    apply (quiet_move w Hw t _ Ht); simpl; try done; unfold maxAmt in *; lia.
  - apply (quiet_move w Hw t _ Ht); simpl; tauto.
Qed.

Lemma fexec_inv w l w' :
  finv w -> orderly w l = true -> label_ok l = true -> fexec w l = Some w' -> finv w'.
Proof.
  intros Hw Ho Hl Hs. destruct l as [t c|t|epoch now|window tat]; simpl in Hs, Hl.
  - destruct (threads w !! t) as [[]|] eqn:Ht; try done.
    destruct (start c held) as [p|] eqn:Hst; simplify_eq/=. by eapply call_inv.
  - destruct (threads w !! t) as [p|] eqn:Ht; simplify_eq/=.
    pose proof (access_inv w t p Hw Ht Ho) as Hi.
    destruct (access (fenv w) (fentry w) p) as [e' p']. simplify_eq/=. done.
  - destruct (Z.leb_spec (currentQuotaEpoch (fenv w)) epoch); simplify_eq. by apply clock_inv.
  - simplify_eq. destruct Hw as [I1 I2 I3 I4 I5 I6 I7]. by constructor.
Qed.

Lemma orun_inv w ls w' : finv w -> orun w ls = Some w' -> finv w'.
Proof.
  revert w. induction ls as [|l ls IH]; intros w Hw Hr; simplify_eq/=; [done|].
  destruct (orderly w l && label_ok l) eqn:Hol; [|done]. apply andb_true_iff in Hol as [Ho Hl].
  destruct (fexec w l) as [w1|] eqn:Hs; [|done]. simpl in Hr.
  eapply IH; [|exact Hr]. by eapply fexec_inv.
Qed.

Lemma fresh_inv env n :
  env_ok env -> 0 <= currentQuotaEpoch env -> Z.of_nat n <= 1048576 -> finv (freshWorld env n).
Proof.
  intros He Hc Hn. unfold freshWorld. constructor; simpl; try done.
  - by rewrite length_replicate.
  - by apply Forall_replicate.
  - intros _. symmetry. apply sumOver_zero. by apply Forall_replicate.
  - intros _. symmetry. apply sumOver_zero. by apply Forall_replicate.
  - intros []. by apply Forall_replicate.
Qed.

(** With no call in flight, the parts are the claims held. *)
Lemma rest_sums m l :
  forallb resting l = true ->
  sumOver (onReserved m) l = total (live m (heldBy l)) /\
  sumOver (onClaims m) l = Z.of_nat (length (live m (heldBy l))).
Proof.
  induction l as [|p l IH]; intros Hr; [done|]. simpl in Hr. apply andb_true_iff in Hr as [Hp Hr].
  destruct (IH Hr) as [H1 H2]. rewrite !sumOver_cons, H1, H2. destruct p as [[[amt ep]|]| | | | | | | | | | | | | | | | | | | | | | |]; try done.
  cbn [heldBy omap list_omap onReserved onClaims]. fold (heldBy l).
  rewrite live_cons. simpl. destruct (Z.eqb_spec ep m); [rewrite decide_True by done|by rewrite decide_False].
  rewrite total_cons. simpl length. simpl. lia.
Qed.


(** ** The accesses of a call that runs alone *)

(** Run one goroutine until its call ends: the bucket and what it holds. *)
Fixpoint solo (fuel : nat) (env : quotaEnv) (e : tokenWindowEntry) (p : pc)
  : option (tokenWindowEntry * option (Z * Z)) :=
  match p, fuel with
  | Rest h, _ => Some (e, h)
  | _, O => None
  | _, S fuel => let '(e', p') := access env e p in solo fuel env e' p'
  end.

Definition soloFuel : nat := 20.

Lemma solo_step n env e p :
  resting p = false ->
  solo (S n) env e p = solo n env (access env e p).1 (access env e p).2.
Proof. intros Hp. destruct p; try done; simpl; by repeat case_match. Qed.

(** The touch of a call that runs alone is the single-step touch. *)
Lemma solo_touch n env e g :
  exists k, solo (9 + n) env e (PubLimit g) =
            solo (n + k) env (touchQuotaEpoch env (publish (goalLimit g) (goalBurst g) e)) (enter env g).
Proof.
  do 4 (rewrite Nat.add_succ_l, solo_step by done; cbn [access fst snd]).
  unfold touchQuotaEpoch. cbn [publish windowEpoch reservedEpoch].
  zcase.
  - rewrite Nat.add_succ_l, solo_step by done. cbn [access fst snd publish windowEpoch]. rewrite Z.eqb_refl.
    rewrite Nat.add_succ_l, solo_step by done. cbn [access fst snd reservedEpoch setWindowEpoch publish].
    zcase; [|exists 3%nat; by rewrite Nat.add_comm].
    do 3 (rewrite Nat.add_succ_l, solo_step by done; cbn [access fst snd reservedEpoch setWindowEpoch];
          rewrite ?Z.eqb_refl; cbn [fst snd]).
    exists 0%nat. by rewrite Nat.add_comm.
  - rewrite Nat.add_succ_l, solo_step by done. cbn [access fst snd reservedEpoch publish].
    zcase; [|exists 4%nat; by rewrite Nat.add_comm].
    do 3 (rewrite Nat.add_succ_l, solo_step by done; cbn [access fst snd reservedEpoch publish];
          rewrite ?Z.eqb_refl; cbn [fst snd]).
    exists 1%nat. by rewrite Nat.add_comm.
Qed.

Ltac alone :=
  repeat (rewrite solo_step by done; cbn [access fst snd afterSub reserved setReserved setClaims];
          rewrite ?Z.eqb_refl; cbn [fst snd afterSub]).

Lemma solo_reserve env want limit bp e :
  solo soloFuel env e (PubLimit (GReserve want limit bp)) =
  let '(ok, _, ep, e') := reserveEntry env want limit bp e in
  Some (e', if ok : bool then Some (want, ep) else None).
Proof.
  destruct (solo_touch 11 env e (GReserve want limit bp)) as [k Hk].
  change (9 + 11)%nat with soloFuel in Hk. rewrite Hk. cbn [enter goalLimit goalBurst].
  unfold reserveEntry. zcase; [by destruct (11 + k)%nat|]. simpl Nat.add. alone.
  cbn [goalLimit goalBurst]. zcase; alone; reflexivity.
Qed.

Lemma solo_elastic env firm elastic limit bp e :
  currentQuotaEpoch env <> 0 ->
  solo soloFuel env e (PubLimit (GElastic firm elastic limit bp)) =
  let '(_, _, ep, got, e') := reserveElasticEntry env firm elastic limit bp e in
  Some (e', if ep ==? 0 then None else Some (got, ep)).
Proof.
  intros Hc. destruct (solo_touch 11 env e (GElastic firm elastic limit bp)) as [k Hk].
  change (9 + 11)%nat with soloFuel in Hk. rewrite Hk. cbn [enter goalLimit goalBurst].
  unfold reserveElasticEntry. zcase; [by destruct (11 + k)%nat|]. simpl Nat.add. alone.
  cbn [goalLimit goalBurst].
  zcase; [zcase|].
  - alone. reflexivity.
  - alone. unfold granted.
    match goal with |- context [solo _ _ _ (if ?b then _ else _)] => destruct b end;
      alone; rewrite ?(proj2 (Z.eqb_neq _ _) Hc); reflexivity.
  - unfold granted. zcase; alone; rewrite ?(proj2 (Z.eqb_neq _ _) Hc); reflexivity.
Qed.

Lemma solo_release env amt ep e :
  solo soloFuel env e (Guard amt ep (GiveAll None)) = Some (releaseEntry amt ep e, None).
Proof.
  unfold soloFuel, releaseEntry. alone. destruct (reservedEpoch e ==? ep); [|done]. alone.
  unfold claimsSubClamp, reservedSubClamp. cbn [claims setReserved].
  destruct (claims e <=? 0); alone; reflexivity.
Qed.

Lemma solo_trim env amt ep cut e :
  solo soloFuel env e (Guard amt ep (GivePart cut)) = Some (trimEntry cut ep e, Some (amt - cut, ep)).
Proof.
  unfold soloFuel, trimEntry. alone. destruct (reservedEpoch e ==? ep); [|done]. alone. reflexivity.
Qed.

Lemma solo_charge env count limit bp e :
  solo soloFuel env e (PubLimit (GCharge count limit bp)) = Some ((allowEntry env count limit bp e).2, None).
Proof.
  destruct (solo_touch 11 env e (GCharge count limit bp)) as [k Hk].
  change (9 + 11)%nat with soloFuel in Hk. rewrite Hk. cbn [enter goalLimit goalBurst].
  simpl Nat.add. alone. unfold allowEntry, chargeTat. zcase; reflexivity.
Qed.

(** ** The windows *)

Definition raceEnv : quotaEnv := QuotaEnv 10 100 10 600000.

(** Two goroutines open minute 10 of a new bucket.  The first wins the marker's
    swap; the second, past its own touch, reserves 30 tokens and holds them; the
    first then zeroes both counters and reserves 5.  Both hold their claims and
    the bucket counts one of them: it stays 30 tokens short of what is held, so
    later reservations are admitted past the capacity. *)
Lemma opening_race_loses_a_claim :
  exists ls w,
    frun (freshWorld raceEnv 2) ls = Some w /\
    heldBy (threads w) = [(5, 10); (30, 10)] /\ forallb resting (threads w) = true /\
    reserved (fentry w) = 5 /\ claims (fentry w) = 1.
Proof.
  exists ([LCall 0 (CallReserve 5 100 0)] ++ replicate 7 (LAccess 0) ++
          [LCall 1 (CallReserve 30 100 0)] ++ replicate 10 (LAccess 1) ++ replicate 7 (LAccess 0)).
  eexists. split; [vm_compute; reflexivity|]. vm_compute. done.
Qed.

(** The minute turns inside a reservation: the claim is counted under the old
    marker and tagged with the new minute, so its release finds another marker
    and gives nothing back until the next touch. *)
Lemma turning_minute_strands_a_claim :
  exists ls w,
    frun (freshWorld raceEnv 1) ls = Some w /\
    threads w = [Rest None] /\ reserved (fentry w) = 30 /\ claims (fentry w) = 1.
Proof.
  exists ([LCall 0 (CallReserve 30 100 0)] ++ replicate 11 (LAccess 0) ++ [LClock 11 660000] ++
          replicate 3 (LAccess 0) ++ [LCall 0 CallRelease] ++ replicate 1 (LAccess 0)).
  eexists. split; [vm_compute; reflexivity|]. vm_compute. done.
Qed.

(** ** A run outside the windows: three goroutines, a refusal, a trim, a settlement *)

Definition crowdRun : list label :=
  [LCall 0 (CallReserve 40 100 0); LCall 1 (CallElastic 10 100 100 0)] ++
  replicate 8 (LAccess 0) ++ replicate 6 (LAccess 1) ++ replicate 3 (LAccess 0) ++
  [LPeer 12 600500] ++ replicate 2 (LAccess 1) ++ replicate 3 (LAccess 0) ++ replicate 8 (LAccess 1) ++
  [LCall 2 (CallReserve 90 100 0)] ++ replicate 8 (LAccess 2) ++
  [LCall 1 (CallTrim 20)] ++ replicate 2 (LAccess 1) ++ replicate 4 (LAccess 2) ++ replicate 4 (LAccess 1).

