(* ===== verification/SyncProps.v ===== *)
(** * SyncProps: what quota replication guarantees

    Theorems on RateSync: keys survive the wire, a batch is a join of maxima
    (order, repetition and replay do not matter), two nodes that exchange
    their state agree, a push reaches the peer whole in bounded chunks, the
    delta protocol's snapshot never runs ahead of the peer, and warm-up. *)

From S2P Require Import Prelude RateLimit RateSync QuotaProps.

Open Scope Z_scope.
Open Scope igw_scope.

#[local] Arguments CutPrefix : simpl never.

Section SyncProps.
Context {RL : RateLib}.
Implicit Types (s : RateLimiterStore) (es : list RateLimiterEntry).

(** ** Keys on the wire *)

(** Bucket keys survive the wire: the receiver's key is the sender's, two
    buckets never share a wire key, and no quota row can be taken for the scope
    sentinel, so none is dropped by the receive path. *)
Theorem quota_key_wire_roundtrip env k k' we :
  let row := exportQuota env k we in
  QuotaMapKey (KeyID row) = (k, true) /\
  (QuotaWireKey k = QuotaWireKey k' -> k = k') /\
  ingest [rlGoEntryToProto row] = [row].
Proof.
  split; [apply wire_roundtrip|]. split; [apply QuotaWireKey_inj|].
  unfold ingest. simpl. by rewrite wireKey_not_sentinel.
Qed.

(** ** A batch is a join *)

Lemma landed_same_pos es es' :
  (forall e, e ∈ es <-> e ∈ es') -> (0 <? landed es) = (0 <? landed es').
Proof.
  intros H. apply eq_true_iff_eq. rewrite !Z.ltb_lt, !landed_pos.
  split; intros (e & He & Hl); exists e; split; try done; by apply H.
Qed.

Lemma endWarmup_idem b s : endQuotaWarmup b (endQuotaWarmup b s) = endQuotaWarmup b s.
Proof.
  unfold endQuotaWarmup. destruct (Z.eqb_spec (warmState s) quotaWarming) as [H|H]; cbn [negb]; [done|].
  destruct (Z.eqb_spec (warmState s) quotaWarming); done.
Qed.

Lemma mergeStep_endWarmup e b s : mergeStep e (endQuotaWarmup b s) = endQuotaWarmup b (mergeStep e s).
Proof.
  unfold mergeStep. destruct (landsOn e) as [k|]; [|done].
  unfold endQuotaWarmup. rewrite <- !(proj1 (proj2 (foldr_mergeStep_other [] s))). simpl.
  change (warmState (putEntry k _ s)) with (warmState s). by zcase.
Qed.

Lemma foldr_mergeStep_endWarmup es b s :
  foldr mergeStep (endQuotaWarmup b s) es = endQuotaWarmup b (foldr mergeStep s es).
Proof. induction es as [|e es IH]; simpl; [done|]. by rewrite IH, mergeStep_endWarmup. Qed.

(** Importing a batch depends only on the set of its rows: order and
    repetition do not matter, and replaying a batch changes nothing.  Splitting
    a batch into several reaches the same buckets as importing it whole. *)
Theorem import_order_and_replay es es' s :
  (forall e, e ∈ es <-> e ∈ es') ->
  ImportState es s = ImportState es' s /\
  ImportState es (ImportState es s) = ImportState es s /\
  (forall es2, quotaMap (ImportState es2 (ImportState es s)) = quotaMap (ImportState (es ++ es2) s)).
Proof.
  intros H. rewrite !ImportState_eq.
  pose proof (foldr_absorb_all mergeStep mergeStep_comm mergeStep_idem es es) as Habs.
  assert (forall s0, foldr mergeStep (foldr mergeStep s0 es) es = foldr mergeStep s0 es) as Hidem.
  { intros s0. rewrite <- foldr_app. by apply Habs. }
  split_and!.
  - by rewrite (landed_same_pos _ _ H),
      (foldr_same_elements mergeStep mergeStep_comm mergeStep_idem es es' s H).
  - destruct (0 <? landed es).
    + by rewrite foldr_mergeStep_endWarmup, Hidem, endWarmup_idem.
    + apply Hidem.
  - intros es2. rewrite !ImportState_eq.
    assert (forall b s0, quotaMap (endQuotaWarmup b s0) = quotaMap s0) as Hq
      by (intros; unfold endQuotaWarmup; by zcase).
    assert (forall (c : bool) b s0, quotaMap (if c then endQuotaWarmup b s0 else s0) = quotaMap s0) as Hq'
      by (intros [] ? ?; auto).
    rewrite !Hq', foldr_app.
    destruct (0 <? landed es);
      rewrite ?foldr_mergeStep_endWarmup, ?Hq, <- !foldr_app;
      by rewrite (foldr_app_comm mergeStep mergeStep_comm es2 es).
Qed.

(** ** Exporting and importing *)

(** The rows of a push that land on [k], on an export of [s]. *)
Definition pushRows (env : quotaEnv) (s : RateLimiterStore) : list RateLimiterEntry :=
  ingest (rlGoEntryToProto <$> rlWireEntries (ExportState env s)).

Lemma rlWireEntries_export env s :
  rlWireEntries (ExportState env s) = (fun '(k, we) => exportQuota env k we) <$> map_to_list (quotaMap s).
Proof.
  unfold rlWireEntries, ExportState. rewrite List.filter_app.
  replace (List.filter IsTenant _) with (@nil RateLimiterEntry).
  - simpl. induction (map_to_list (quotaMap s)) as [|[k we] l IH]; [done|]. rewrite fmap_cons. simpl. by rewrite IH.
  - induction (map_to_list (entries s)) as [|[k we] l IH]; [done|]. rewrite fmap_cons. simpl. done.
Qed.

(** A row as the receiver reads it back is the row that was exported. *)
Definition quotaRow (e : RateLimiterEntry) : Prop :=
  exists env k we, e = exportQuota env k we.

Lemma ingest_quotaRows es : Forall quotaRow es -> ingest (rlGoEntryToProto <$> es) = es.
Proof.
  induction 1 as [|e es (env & k & we & ->) _ IH]; [done|].
  rewrite fmap_cons. unfold ingest in *. simpl. rewrite wireKey_not_sentinel. f_equal. exact IH.
Qed.

Lemma export_quotaRows env s : Forall quotaRow (rlWireEntries (ExportState env s)).
Proof.
  rewrite rlWireEntries_export. apply Forall_fmap, Forall_forall. intros [k we] _. exists env, k, we. done.
Qed.

Lemma landsOn_export env k we : landsOn (exportQuota env k we) = Some k.
Proof. unfold landsOn. simpl. by rewrite wire_roundtrip. Qed.

(** On an export, the only row for a key is that key's own. *)
Lemma elem_rowsFor_export env s k e :
  e ∈ rowsFor k (pushRows env s) <-> exists we, quotaMap s !! k = Some we /\ e = exportQuota env k we.
Proof.
  unfold pushRows. rewrite ingest_quotaRows by apply export_quotaRows.
  rewrite rlWireEntries_export. unfold rowsFor. rewrite list_elem_of_filter, list_elem_of_fmap.
  split.
  - intros (Hl & [k' we] & -> & Hin). rewrite landsOn_export in Hl. injection Hl as ->.
    exists we. by rewrite elem_of_map_to_list in Hin.
  - intros (we & Hwe & ->). rewrite landsOn_export. split; [done|].
    exists (k, we). by rewrite elem_of_map_to_list.
Qed.

Lemma foldr_max_elems (l : list Z) z m :
  (forall x, x ∈ l -> x = m) -> (m ∈ l \/ m <= z) -> foldr Z.max z l = Z.max z m.
Proof.
  intros Hall Hm. induction l as [|x l IH]; simpl.
  - destruct Hm as [Hm|Hm]; [by apply not_elem_of_nil in Hm|lia].
  - rewrite (Hall x) by constructor.
    destruct (decide (m ∈ l)) as [Hin|Hnin].
    + rewrite IH; [lia|intros; apply Hall; by constructor|by left].
    + assert (l = []) as ->; [|simpl; lia].
      destruct l as [|y l]; [done|]. exfalso. apply Hnin.
      rewrite (Hall y) by (constructor; constructor). constructor.
Qed.

Definition nonneg_store (s : RateLimiterStore) : Prop :=
  forall k, 0 <= tatMs (loadOrStore s k) /\ 0 <= windowEpoch (loadOrStore s k).

(** One key after importing a peer's export: the later drain time and the
    later activity minute; reservations and configuration stay the node's own. *)
Lemma import_export_load env s p k :
  nonneg_store s ->
  loadOrStore (ImportState (pushRows env p) s) k =
  Entry (Z.max (windowEpoch (loadOrStore s k)) (windowEpoch (loadOrStore p k)))
        (Z.max (tatMs (loadOrStore s k)) (tatMs (loadOrStore p k)))
        (reserved (loadOrStore s k)) (claims (loadOrStore s k)) (reservedEpoch (loadOrStore s k))
        (limitTokens (loadOrStore s k)) (burstPct (loadOrStore s k)).
Proof.
  intros Hs. destruct (Hs k) as [Ht Hw].
  assert (forall (f : RateLimiterEntry -> Z) (g : tokenWindowEntry -> Z) z,
    (forall we, f (exportQuota env k we) = g we) -> g zeroEntry = 0 -> 0 <= z ->
    foldr Z.max z (f <$> rowsFor k (pushRows env p)) = Z.max z (g (loadOrStore p k))) as Hf.
  { intros f g z Hfg Hg0 Hz. apply foldr_max_elems.
    - intros x (e & -> & (we & Hwe & ->)%elem_rowsFor_export)%list_elem_of_fmap.
      by rewrite Hfg, (load_of_lookup _ _ _ Hwe).
    - unfold loadOrStore. destruct (quotaMap p !! k) as [we|] eqn:Hk; simpl; [left|right; lia].
      apply list_elem_of_fmap. exists (exportQuota env k we). rewrite Hfg. split; [done|].
      apply elem_rowsFor_export. eauto. }
  rewrite load_Import, foldr_mergeStep_load.
  rewrite (Hf WindowEpoch windowEpoch) by done. by rewrite (Hf wConsumed tatMs).
Qed.

(** C36: Two nodes that import each other's export agree on every bucket, each
    with the later of the two drain times and the later of the two activity
    minutes, so they give the same quota verdict wherever they publish the same
    limit and burst.  A peer's rows never touch a node's reservations, claims or
    configuration.  (Drain times and minutes are not negative, as the clock gives
    them.) *)
Theorem peers_converge envA envB a b k :
  nonneg_store a -> nonneg_store b ->
  let a' := ImportState (pushRows envB b) a in
  let b' := ImportState (pushRows envA a) b in
  let own e := (reserved e, claims e, reservedEpoch e, limitTokens e, burstPct e) in
  tatMs (loadOrStore a' k) = Z.max (tatMs (loadOrStore a k)) (tatMs (loadOrStore b k)) /\
  tatMs (loadOrStore b' k) = Z.max (tatMs (loadOrStore a k)) (tatMs (loadOrStore b k)) /\
  windowEpoch (loadOrStore a' k) = Z.max (windowEpoch (loadOrStore a k)) (windowEpoch (loadOrStore b k)) /\
  windowEpoch (loadOrStore b' k) = Z.max (windowEpoch (loadOrStore a k)) (windowEpoch (loadOrStore b k)) /\
  own (loadOrStore a' k) = own (loadOrStore a k) /\ own (loadOrStore b' k) = own (loadOrStore b k) /\
  (limitTokens (loadOrStore a k) = limitTokens (loadOrStore b k) ->
   burstPct (loadOrStore a k) = burstPct (loadOrStore b k) ->
   forall env, exceededEntry env (loadOrStore a' k) = exceededEntry env (loadOrStore b' k)).
Proof.
  intros Ha Hb a' b' own. unfold a', b'. rewrite !import_export_load by done. simpl.
  split_and!; try done; [lia|lia|].
  intros Hl Hp env. unfold exceededEntry. simpl. rewrite Hl, Hp.
  by rewrite (Z.max_comm (tatMs (loadOrStore b k))).
Qed.

(** ** The push: bounded chunks, nothing lost *)

Lemma pushChunks_ingest fuel es :
  (length es <= fuel)%nat -> Forall quotaRow es ->
  concat (ingest <$> pushChunks fuel es) = es.
Proof.
  revert es. induction fuel as [|fuel IH]; intros [|e es] Hlen Hq; try done; [simpl in Hlen; lia|].
  set (l := e :: es) in *. change (pushChunks (S fuel) l) with
    ((sentinelEntry :: (rlGoEntryToProto <$> take (rlPushBatchMax - 1) l)) ::
     pushChunks fuel (drop (rlPushBatchMax - 1) l)).
  rewrite fmap_cons. cbn [concat].
  change (ingest (sentinelEntry :: ?m)) with (ingest m).
  rewrite ingest_quotaRows by (by apply Forall_take).
  rewrite IH; [apply take_drop| |by apply Forall_drop].
  rewrite length_drop. unfold rlPushBatchMax, l. simpl length in *. lia.
Qed.

Lemma pushChunks_bounded fuel es :
  Forall (fun c => (length c <= rlPushBatchMax)%nat /\ head c = Some sentinelEntry) (pushChunks fuel es).
Proof.
  revert es. induction fuel as [|fuel IH]; intros [|e es]; try constructor; [|apply IH].
  split; [|done]. rewrite length_cons, length_fmap, length_take. unfold rlPushBatchMax. lia.
Qed.

Lemma sendChunks_ok chunks answers :
  Forall (fun a => a = RpcOk) answers -> sendChunks chunks answers = (chunks, true, true).
Proof.
  revert answers. induction chunks as [|c cs IH]; intros answers Ha; [done|]. simpl.
  destruct Ha as [|a answers -> Ha]; simpl; [|by rewrite IH]. by rewrite IH by constructor.
Qed.

Lemma sendChunks_spec chunks answers :
  let '(sent, cap, ok) := sendChunks chunks answers in
  sent `prefix_of` chunks /\ (ok = true -> sent = chunks).
Proof.
  revert answers. induction chunks as [|c cs IH]; intros answers; [done|]. simpl.
  specialize (IH (List.tl answers)). destruct (sendChunks cs (List.tl answers)) as [[sent cap] ok].
  destruct IH as [[rest Hp] Ho].
  assert (c :: sent `prefix_of` c :: cs /\ (ok = true -> c :: sent = c :: cs)) as Hdone.
  { split; [exists rest; simpl; by rewrite Hp|]. intros E. by rewrite Ho. }
  destruct answers as [|[] answers]; simpl in *; try done; split; try done.
  - exists (c :: cs). done.
  - exists cs. done.
Qed.

(** What the peer's store becomes when the sent chunks are applied in order. *)
Definition deliver (isDelta : bool) (sent : list (list ProtoEntry)) (p : RateLimiterStore) : RateLimiterStore :=
  foldl (fun p c => ApplyRateLimiterBatch isDelta c p) p sent.

Lemma deliver_ImportState isDelta sent p :
  deliver isDelta sent p = foldl (fun p c => ImportState (ingest c) p) p sent.
Proof. revert p. induction sent as [|c sent IH]; intros p; [done|]. simpl. by destruct isDelta. Qed.

(** A bucket only moves forward under peer rows, and reaches each of them. *)
Definition le_bucket (e e' : tokenWindowEntry) : Prop :=
  tatMs e <= tatMs e' /\ windowEpoch e <= windowEpoch e'.

Lemma Import_le es p k : le_bucket (loadOrStore p k) (loadOrStore (ImportState es p) k).
Proof. rewrite load_Import, foldr_mergeStep_load. split; apply foldr_max_ge; constructor. Qed.

Lemma Import_reaches es p k e :
  e ∈ es -> landsOn e = Some k ->
  wConsumed e <= tatMs (loadOrStore (ImportState es p) k) /\
  WindowEpoch e <= windowEpoch (loadOrStore (ImportState es p) k).
Proof.
  intros He Hl. rewrite load_Import, foldr_mergeStep_load. simpl.
  assert (e ∈ rowsFor k es) by (by apply list_elem_of_filter).
  split; apply foldr_max_ge; constructor; by apply list_elem_of_fmap_2.
Qed.

Lemma le_bucket_trans e1 e2 e3 : le_bucket e1 e2 -> le_bucket e2 e3 -> le_bucket e1 e3.
Proof. unfold le_bucket. lia. Qed.

Lemma deliver_le isDelta sent p k : le_bucket (loadOrStore p k) (loadOrStore (deliver isDelta sent p) k).
Proof.
  rewrite deliver_ImportState. revert p. induction sent as [|c sent IH]; intros p; simpl.
  - unfold le_bucket. lia.
  - eapply le_bucket_trans; [apply Import_le|apply IH].
Qed.

Lemma deliver_reaches isDelta sent p k e :
  e ∈ concat (ingest <$> sent) -> landsOn e = Some k ->
  wConsumed e <= tatMs (loadOrStore (deliver isDelta sent p) k) /\
  WindowEpoch e <= windowEpoch (loadOrStore (deliver isDelta sent p) k).
Proof.
  intros He Hl. pose proof (fun p => deliver_le isDelta sent p k) as Hle. revert p He Hle.
  rewrite ?deliver_ImportState. induction sent as [|c sent IH]; intros p He Hle; [by apply not_elem_of_nil in He|].
  rewrite fmap_cons in He. cbn [concat] in He. apply elem_of_app in He as [He|He].
  - rewrite deliver_ImportState. simpl. rewrite <- (deliver_ImportState isDelta).
    pose proof (deliver_le isDelta sent (ImportState (ingest c) p) k) as [H1 H2].
    destruct (Import_reaches (ingest c) p k e He Hl). lia.
  - rewrite deliver_ImportState. simpl. rewrite <- (deliver_ImportState isDelta).
    apply IH; [done|]. intros. apply deliver_le.
Qed.

(** ** The delta protocol *)

(** The per-peer snapshot claims nothing the peer does not have. *)
Definition covers (prev : gmap string Z) (p : RateLimiterStore) : Prop :=
  forall k t,
    (prev !! QuotaWireKey k = Some t -> t <= tatMs (loadOrStore p k)) /\
    (prev !! ("e:" +:+ k) = Some t -> t <= windowEpoch (loadOrStore p k)).

Lemma covers_mono prev p p' :
  (forall k, le_bucket (loadOrStore p k) (loadOrStore p' k)) -> covers prev p -> covers prev p'.
Proof.
  intros Hle Hc k t. destruct (Hle k), (Hc k t) as [H1 H2].
  split; intros Hp; [specialize (H1 Hp)|specialize (H2 Hp)]; lia.
Qed.

Lemma updatePrevSnapshot_covers es prev p :
  Forall quotaRow es ->
  (forall e k, e ∈ es -> landsOn e = Some k ->
     wConsumed e <= tatMs (loadOrStore p k) /\ WindowEpoch e <= windowEpoch (loadOrStore p k)) ->
  covers prev p -> covers (updatePrevSnapshot es prev) p.
Proof.
  intros Hq. revert prev. induction Hq as [|e es (env & k & we & ->) _ IH]; intros prev He Hc; [done|].
  unfold updatePrevSnapshot in *. simpl. apply IH; [intros; apply He; [by constructor|done]|].
  rewrite wire_roundtrip. simpl.
  destruct (He (exportQuota env k we) k) as [H1 H2]; [constructor|apply landsOn_export|]. simpl in *.
  intros k' t. destruct (Hc k' t) as [C1 C2]. split.
  - rewrite lookup_insert_ne by (intros Heq; by apply (wireKey_not_epochKey k' k)).
    destruct (decide (QuotaWireKey k = QuotaWireKey k')) as [Heq|Hne].
    + apply QuotaWireKey_inj in Heq as <-. rewrite lookup_insert_eq. intros [= <-]. done.
    + rewrite lookup_insert_ne by done. exact C1.
  - destruct (decide (k = k')) as [<-|Hne].
    + rewrite lookup_insert_eq. intros [= <-]. done.
    + rewrite lookup_insert_ne by (intros Heq; by apply Hne, (string_app_inj_l "e:")).
      rewrite lookup_insert_ne by apply wireKey_not_epochKey. exact C2.
Qed.

Lemma delta_quotaRows env prev s : Forall quotaRow (ExportDelta env prev s).
Proof.
  unfold ExportDelta. apply Forall_forall. intros e ([k we] & _ & Hd)%list_elem_of_omap.
  unfold deltaRow in Hd. destruct (prev !! QuotaWireKey k) as [t|]; [destruct (_ && _); [done|]|];
    injection Hd as <-; by exists env, k, we.
Qed.

Lemma rlWireEntries_quota es : Forall quotaRow es -> rlWireEntries es = es.
Proof. induction 1 as [|e es (env & k & we & ->) _ IH]; simpl; [done|]. by rewrite IH. Qed.

(** A bucket the delta leaves out is one the snapshot, hence the peer, already has. *)
Lemma delta_complete env prev s p k we :
  covers prev p -> nonneg_store p -> quotaMap s !! k = Some we ->
  le_bucket we (loadOrStore p k) \/ exportQuota env k we ∈ ExportDelta env prev s.
Proof.
  intros Hc Hn Hk. destruct (deltaRow env prev k we) as [e|] eqn:Hd.
  - right. assert (e = exportQuota env k we) as <-.
    { unfold deltaRow in Hd. destruct (prev !! QuotaWireKey k); [destruct (_ && _)|]; congruence. }
    apply list_elem_of_omap. exists (k, we). split; [by apply elem_of_map_to_list|done].
  - left. unfold deltaRow in Hd. destruct (prev !! QuotaWireKey k) as [t|] eqn:Hp; [|done].
    destruct ((tatMs we <=? t) && (windowEpoch we <=? default 0 (prev !! ("e:" +:+ k)))) eqn:Hg; [|done].
    split_bools. destruct (Hc k t) as [C1 _]. specialize (C1 Hp). split; [lia|].
    destruct (prev !! ("e:" +:+ k)) as [t'|] eqn:Hp'; simpl in *.
    + destruct (Hc k t') as [_ C2]. specialize (C2 Hp'). lia.
    + pose proof (proj2 (Hn k)). lia.
Qed.

(** The rows of one tick of the push loop. *)
Definition tickRows (env : quotaEnv) (isDelta : bool) (prev : gmap string Z) (s : RateLimiterStore) :=
  rlWireEntries (if isDelta then ExportDelta env prev s else ExportState env s).

Lemma tickRows_quota env isDelta prev s : Forall quotaRow (tickRows env isDelta prev s).
Proof.
  unfold tickRows. destruct isDelta; [|apply export_quotaRows].
  rewrite rlWireEntries_quota; apply delta_quotaRows.
Qed.

Lemma pushTick_eq env aa counter prev answers s :
  exists isDelta sent cap c' ok,
    pushTick env aa counter prev answers s =
      (sent, isDelta, cap, (if ok && isDelta then updatePrevSnapshot (tickRows env isDelta prev s) prev else prev), c') /\
    (aa = false \/ Z.rem (i64 (counter + 1)) 10 = 0 <-> isDelta = false) /\
    let es := tickRows env isDelta prev s in
    sent `prefix_of` pushChunks (length es) es /\
    (ok = true -> sent = pushChunks (length es) es) /\
    (Forall (fun a => a = RpcOk) answers -> ok = true).
Proof.
  unfold pushTick. set (c' := if aa then i64 (counter + 1) else counter).
  set (isDelta := aa && negb (Z.rem c' rlAbsoluteFallbackEvery ==? 0)).
  assert (aa = false \/ Z.rem (i64 (counter + 1)) 10 = 0 <-> isDelta = false) as HD.
  { unfold isDelta, c', rlAbsoluteFallbackEvery. destruct aa; simpl; [|naive_solver].
    destruct (Z.eqb_spec (Z.rem (i64 (counter + 1)) 10) 0); simpl; naive_solver. }
  fold (tickRows env isDelta prev s). exists isDelta.
  destruct (tickRows env isDelta prev s) as [|e es] eqn:Hes.
  - exists [], true, c', true. simpl. split; [by destruct isDelta|]. split; [exact HD|done].
  - rewrite <- Hes. unfold sendRateLimiterBatch. set (rows := tickRows env isDelta prev s) in *.
    pose proof (sendChunks_spec (pushChunks (length rows) rows) answers) as Hs.
    pose proof (sendChunks_ok (pushChunks (length rows) rows) answers) as Hok.
    destruct (sendChunks (pushChunks (length rows) rows) answers) as [[sent cap] ok].
    exists sent, cap, c', ok. split; [done|]. split; [exact HD|]. destruct Hs as [H1 H2]. split_and!; try done.
    intros Ha. by injection (Hok Ha).
Qed.


(** ** Warm-up *)

(** How an operation ends a warm-up: by its deadline, or by a batch with at
    least one quota row. *)
Definition endsWarmup (op : qop) : option bool :=
  match op with
  | OpWarmDeadline => Some true
  | OpImport es | OpGossip es => if 0 <? landed es then Some false else None
  | _ => None
  end.

Definition warmFields (s : RateLimiterStore) : Z * bool * list bool :=
  (warmState s, warmDone s, warmCalls s).

Lemma runOp_warm env op s :
  (forall t cb, op <> OpStartWarmup t cb) ->
  warmFields (runOp env op s) =
  match endsWarmup op with
  | Some b => warmFields (endQuotaWarmup b s)
  | None => warmFields s
  end.
Proof.
  intros Hns.
  assert (forall es, warmFields (ImportState es s) =
    match (if 0 <? landed es then Some false else None) with
    | Some b => warmFields (endQuotaWarmup b s) | None => warmFields s end) as Himp.
  { intros es. rewrite ImportState_eq.
    destruct (foldr_mergeStep_other es s) as (_ & H2 & H3 & H4).
    destruct (0 <? landed es); unfold warmFields, endQuotaWarmup; rewrite ?H2; [zcase|];
      simpl; by rewrite ?H2, ?H3, ?H4. }
  destruct op; simpl; try reflexivity; try apply Himp.
  - unfold AllowTokens. destruct (_ || _); [done|]. by destruct (allowEntry _ _ _ _ _).
  - unfold ReserveTokens. destruct (_ || _); [done|]. by destruct (reserveEntry _ _ _ _ _).
  - unfold ReserveTokensElastic, ReserveTokens. destruct (elastic <=? 0).
    + destruct (_ || _); [done|]. by destruct (reserveEntry _ _ _ _ _) as [[[??]?]?].
    + destruct (_ <=? _); [done|]. by destruct (reserveElasticEntry _ _ _ _ _ _).
  - unfold SettleTokens, AllowTokens.
    assert (forall s1 : RateLimiterStore, warmFields s1 = warmFields s ->
      warmFields (if actual <=? 0 then (true, 0, s1)
        else if (tpm <=? 0) || (actual <=? 0) then (true, 0, s1)
        else let '(r, e) := allowEntry env actual tpm bp (loadOrStore s1 key) in (r, putEntry key e s1)).2
      = warmFields s) as Hs.
    { intros s1 H1. destruct (actual <=? 0); [done|]. destruct (_ || _); [done|].
      by destruct (allowEntry _ _ _ _ _). }
    apply Hs. destruct (_ && _); [|done]. destruct (_ !! _) as [e|]; [|done]. by destruct (_ ==? _).
  - unfold ReleaseReservation. destruct (_ || _); [done|]. by destruct (_ !! _).
  - unfold TrimReservation. destruct (_ || _); [done|]. by destruct (_ !! _).
  - unfold check. destruct (Reserve _ _) as [[ok d] l]. by destruct ok; [zcase|].
  - by destruct (Hns timeout cb).
Qed.

Definition noStart (eo : quotaEnv * qop) : Prop := forall t cb, eo.2 <> OpStartWarmup t cb.

Lemma warm_settled ops s :
  Forall noStart ops -> warmState s <> quotaWarming -> warmFields (runOps ops s) = warmFields s.
Proof.
  intros Hops. revert s. induction Hops as [|[env op] ops Hop _ IH]; intros s Hw; [done|].
  rewrite runOps_cons. cbn [fst snd].
  assert (warmFields (runOp env op s) = warmFields s) as Hsame.
  { rewrite runOp_warm by done. destruct (endsWarmup op); [|done]. unfold endQuotaWarmup.
    destruct (Z.eqb_spec (warmState s) quotaWarming); done. }
  rewrite IH; [done|]. unfold warmFields in Hsame. by injection Hsame as -> _ _.
Qed.

Lemma warm_run ops s :
  Forall noStart ops -> warmState s = quotaWarming -> warmDone s = true ->
  let ends := omap (fun eo => endsWarmup eo.2) ops in
  warmFields (runOps ops s) =
    match ends with
    | [] => (quotaWarming, true, warmCalls s)
    | b :: _ => (quotaWarm, true, warmCalls s ++ [b])
    end.
Proof.
  intros Hops. revert s. induction Hops as [|[env op] ops Hop Hops IH]; intros s Hw Hd.
  - unfold warmFields. simpl. by rewrite Hw, Hd.
  - rewrite runOps_cons. cbn [fst snd omap list_omap].
    pose proof (runOp_warm env op s Hop) as Hr. destruct (endsWarmup op) as [b|] eqn:He.
    + rewrite warm_settled; [|done|].
      * rewrite Hr. unfold warmFields, endQuotaWarmup. rewrite Hw, Hd. done.
      * intros Hbad. unfold warmFields, endQuotaWarmup in Hr. rewrite Hw in Hr. simpl in Hr.
        injection Hr as Hr _ _. rewrite Hr in Hbad. done.
    + unfold warmFields in Hr. injection Hr as H1 H2 H3. rewrite IH; [by rewrite H3|congruence|congruence].
Qed.

(** Cold-start warm-up ends once: after it starts, whatever operations
    follow (deadline events included), the completion callback runs exactly once
    if some operation ends the warm-up and not at all otherwise, with the reason
    of the first one to end it; a batch without quota rows does not end it. *)
Theorem warmup_ends_once t ops s :
  0 < t -> Forall noStart ops ->
  let ends := omap (fun eo => endsWarmup eo.2) ops in
  let s' := runOps ops (StartQuotaWarmup t true s) in
  QuotaWarming s' = match ends with [] => true | _ => false end /\
  warmCalls s' = warmCalls s ++ match ends with [] => [] | b :: _ => [b] end.
Proof.
  intros Ht Hops ends s'.
  pose proof (warm_run ops (StartQuotaWarmup t true s) Hops) as H. fold s' in H.
  unfold StartQuotaWarmup in H at 1 2. destruct (Z.leb_spec t 0); [lia|].
  specialize (H eq_refl eq_refl). fold ends in H. unfold QuotaWarming.
  assert (warmCalls (StartQuotaWarmup t true s) = warmCalls s) as Hwc.
  { unfold StartQuotaWarmup. destruct (Z.leb_spec t 0); [lia|done]. }
  rewrite Hwc in H. unfold warmFields in H.
  destruct ends; injection H as -> _ ->; by rewrite ?app_nil_r.
Qed.

End SyncProps.

(** ** Witnesses *)

Definition rowA : RateLimiterEntry := WireEntry "t:acme" 0 0 true 10 636000 false 0.
Definition rowB : RateLimiterEntry := WireEntry "tm:acme|m1" 0 0 true 9 610000 false 0.

Lemma import_order_witness :
  ImportState [rowA; rowB; rowA] demoBucket = ImportState [rowB; rowA] demoBucket.
Proof.
  apply (import_order_and_replay [rowA; rowB; rowA] [rowB; rowA] demoBucket).
  intros e. rewrite !elem_of_cons. tauto.
Defined.

Definition peerBucket : RateLimiterStore :=
  (AllowTokens (envAt 10 600000) "acme" 90 100 0 New).2.

Lemma nonneg_single k0 e0 s :
  quotaMap s = {[k0 := e0]} -> 0 <= tatMs e0 -> 0 <= windowEpoch e0 -> nonneg_store s.
Proof.
  intros Hq H1 H2 k. unfold loadOrStore. rewrite Hq.
  destruct (decide (k0 = k)) as [->|Hne]; [rewrite lookup_singleton_eq|rewrite lookup_singleton_ne by done];
    simpl; lia.
Qed.

Lemma demoBucket_nonneg : nonneg_store demoBucket.
Proof. by apply (nonneg_single "acme" (Entry 10 636000 0 0 10 100 0)). Qed.

Lemma peerBucket_nonneg : nonneg_store peerBucket.
Proof. by apply (nonneg_single "acme" (Entry 10 654000 0 0 10 100 0)). Qed.

Lemma peers_converge_witness :
  tatMs (loadOrStore (ImportState (pushRows (envAt 10 600000) peerBucket) demoBucket) "acme") = 654000.
Proof.
  destruct (peers_converge (envAt 10 600000) (envAt 10 600000) demoBucket peerBucket "acme"
    demoBucket_nonneg peerBucket_nonneg) as (H & _).
  rewrite H. vm_compute. reflexivity.
Defined.


(** A peer that lost its store is not caught up by a delta tick, only by the next
    absolute one: the snapshot kept for it says it has the bucket. *)
Lemma restarted_peer_waits :
  let prev := (pushTick (envAt 10 600000) true 0 ∅ [RpcOk] peerBucket).1.2 in
  let second := pushTick (envAt 10 600000) true 1 prev [RpcOk] peerBucket in
  let tenth := pushTick (envAt 10 600000) true 9 prev [RpcOk] peerBucket in
  tatMs (loadOrStore (deliver second.1.1.1.2 second.1.1.1.1 New) "acme") = 0 /\
  tatMs (loadOrStore (deliver tenth.1.1.1.2 tenth.1.1.1.1 New) "acme") = 654000.
Proof. vm_compute. split; reflexivity. Qed.

Lemma warmup_witness :
  let s' := runOps [(envAt 10 600000, OpImport []); (envAt 10 600000, OpImport [rowA]);
                    (envAt 10 600000, OpWarmDeadline)] (StartQuotaWarmup 5 true New) in
  QuotaWarming s' = false /\ warmCalls s' = [false].
Proof.
  apply (warmup_ends_once 5 [(envAt 10 600000, OpImport []); (envAt 10 600000, OpImport [rowA]);
                    (envAt 10 600000, OpWarmDeadline)] New); [lia|].
  repeat constructor; intros ? ?; discriminate.
Defined.
