(* ===== verification/StoreErr.v ===== *)
(** * StoreErr: classification of key-store errors

    Models pkg/pgstore/outcome.go and [IsUnavailable] of pkg/pgstore/pgstore.go.
    A Go error is the chain of what wraps it; the code never looks at its text,
    only at what [errors.Is] and [errors.As] and the driver's two predicates
    answer.  [goErr] is the record of those answers, so wrapping an error with a
    sentinel ("%w: %w") sets one answer and keeps the others.  Which answers a
    driver error gives is the driver's: any record is a possible error. *)

From S2P Require Import Prelude.

Open Scope Z_scope.
Open Scope igw_scope.

(** ** Errors *)

Record goErr := GoErr {
  isDBUnavailable : bool;    (* errors.Is cmn.ErrDBUnavailable *)
  isOutcomeUnknown : bool;   (* errors.Is cmn.ErrStoreOutcomeUnknown *)
  isNoRows : bool;           (* errors.Is sql.ErrNoRows *)
  isPgError : bool;          (* errors.As *pgconn.PgError: the server answered *)
  safeToRetry : bool;        (* pgconn.SafeToRetry *)
  pgTimeout : bool;          (* pgconn.Timeout *)
  isBadConn : bool;          (* errors.Is driver.ErrBadConn *)
  isConnectError : bool;     (* errors.As *pgconn.ConnectError *)
  isConnDone : bool;         (* errors.Is sql.ErrConnDone or sql.ErrTxDone *)
  isDialError : bool;        (* a *net.OpError whose operation is "dial" *)
  isNetError : bool;         (* errors.As net.Error or *net.OpError *)
  isDeadline : bool;         (* errors.Is context.DeadlineExceeded *)
  isCanceled : bool;         (* errors.Is context.Canceled *)
  isEOF : bool               (* errors.Is io.EOF or io.ErrUnexpectedEOF *)
}.

#[export] Instance goErr_eq_dec : EqDecision goErr.
Proof. solve_decision. Defined.

(** An error no test recognises, and the sentinels. *)
Definition plainErr : goErr :=
  GoErr false false false false false false false false false false false false false false.

Definition wrapUnavailable (e : goErr) : goErr :=
  GoErr true (isOutcomeUnknown e) (isNoRows e) (isPgError e) (safeToRetry e) (pgTimeout e)
    (isBadConn e) (isConnectError e) (isConnDone e) (isDialError e) (isNetError e)
    (isDeadline e) (isCanceled e) (isEOF e).

Definition wrapOutcomeUnknown (e : goErr) : goErr :=
  GoErr (isDBUnavailable e) true (isNoRows e) (isPgError e) (safeToRetry e) (pgTimeout e)
    (isBadConn e) (isConnectError e) (isConnDone e) (isDialError e) (isNetError e)
    (isDeadline e) (isCanceled e) (isEOF e).

Definition errStoreUnavailable : goErr := wrapUnavailable plainErr.
Definition errNoRows : goErr :=
  GoErr false false true false false false false false false false false false false false.

(** ** Classification *)

Definition notSent (e : goErr) : bool :=
  if safeToRetry e || isBadConn e then true
  else if isConnectError e then true
  else if isDialError e then true
  else if isConnDone e then true
  else isDeadline e && negb (pgTimeout e).

Definition IsUnavailable (oe : option goErr) : bool :=
  match oe with
  | None => false
  | Some e =>
      if isBadConn e || isConnDone e then true
      else if isPgError e then false
      else if isConnectError e then true
      else if isNetError e then true
      else isDeadline e || isEOF e
  end.

(** The planes of the outcome-unknown counter. *)
Inductive Plane := PlaneAIKey | PlaneMgmt.

#[export] Instance Plane_eq_dec : EqDecision Plane.
Proof. solve_decision. Defined.

Definition planeIndex (p : Plane) : nat := match p with PlaneMgmt => 1 | PlaneAIKey => 0 end.

(** The two counters, indexed by [planeIndex]. *)
Definition outcomeUnknownTotal : Type := Z * Z.

Definition OutcomeUnknownTotal (p : Plane) (c : outcomeUnknownTotal) : Z :=
  match planeIndex p with O => c.1 | _ => c.2 end.

Definition bumpUnknown (p : Plane) (c : outcomeUnknownTotal) : outcomeUnknownTotal :=
  match planeIndex p with O => (u64 (c.1 + 1), c.2) | _ => (c.1, u64 (c.2 + 1)) end.

Definition ClassifyWriteErrFor (p : Plane) (oe : option goErr) (c : outcomeUnknownTotal)
  : option goErr * outcomeUnknownTotal :=
  match oe with
  | None => (None, c)
  | Some e =>
      if isDBUnavailable e || isOutcomeUnknown e then (Some e, c)
      else if isPgError e || isNoRows e then (Some e, c)
      else if notSent e then (Some (wrapUnavailable e), c)
      else (Some (wrapOutcomeUnknown e), bumpUnknown p c)
  end.

Definition ClassifyWriteErr (oe : option goErr) (c : outcomeUnknownTotal)
  : option goErr * outcomeUnknownTotal := ClassifyWriteErrFor PlaneMgmt oe c.

Definition ClassifyReadErr (oe : option goErr) : option goErr :=
  match oe with
  | None => None
  | Some e =>
      if isDBUnavailable e then Some e
      else if isPgError e || isNoRows e then Some e
      else if IsUnavailable (Some e) || pgTimeout e || notSent e || isCanceled e
      then Some (wrapUnavailable e)
      else Some e
  end.

(** The package-local names of pkg/aikey. *)
Definition writeErr (e : goErr) : goErr :=
  default e (ClassifyWriteErrFor PlaneAIKey (Some e) (0, 0)).1.
Definition readErr (e : goErr) : goErr := default e (ClassifyReadErr (Some e)).

(** ** Properties *)

Lemma ClassifyRead_idem oe : ClassifyReadErr (ClassifyReadErr oe) = ClassifyReadErr oe.
Proof.
  destruct oe as [e|]; [|done]. unfold ClassifyReadErr.
  destruct (isDBUnavailable e) eqn:H1; [by rewrite H1|].
  destruct (isPgError e || isNoRows e) eqn:H2; [by rewrite H1, H2|].
  destruct (IsUnavailable (Some e) || pgTimeout e || notSent e || isCanceled e) eqn:H3; [done|].
  by rewrite H1, H2, H3.
Qed.

(** Every failed write gets exactly one verdict: an application answer passes
    through unchanged, an error that shows the statement never left is
    "unavailable" (safe to retry), and anything else is "outcome unknown".  A
    second classification changes nothing and counts nothing, so one lost write
    is counted once however many frames classify it. *)
Theorem write_verdict_exclusive p e c :
  isDBUnavailable e = false -> isOutcomeUnknown e = false ->
  let '(oe', c') := ClassifyWriteErrFor p (Some e) c in
  (exists e', oe' = Some e' /\
     ((isPgError e || isNoRows e = true /\ e' = e /\ c' = c) \/
      (isPgError e || isNoRows e = false /\ notSent e = true /\
         isDBUnavailable e' = true /\ isOutcomeUnknown e' = false /\ c' = c) \/
      (isPgError e || isNoRows e = false /\ notSent e = false /\
         isDBUnavailable e' = false /\ isOutcomeUnknown e' = true /\ c' = bumpUnknown p c))) /\
  (forall q, ClassifyWriteErrFor q oe' c' = (oe', c')).
Proof.
  intros H1 H2. unfold ClassifyWriteErrFor. rewrite H1, H2. simpl.
  destruct (isPgError e || isNoRows e) eqn:Hp; [|destruct (notSent e) eqn:Hn].
  - split; [exists e; split; [done|left; done]|]. intros q. by rewrite H1, H2, Hp.
  - split; [|done]. eexists. split; [done|]. right. left. done.
  - split; [|intros q; simpl; by rewrite orb_true_r].
    eexists. split; [done|]. right. right. simpl. done.
Qed.

(** A read never reports an unknown outcome: an error that is not an
    application answer and shows a transport failure of any of the recognised
    shapes becomes "unavailable", and classifying twice is classifying once. *)
Theorem read_classification e :
  isOutcomeUnknown e = false ->
  let e' := readErr e in
  isOutcomeUnknown e' = false /\ readErr e' = e' /\
  (isDBUnavailable e' = true <->
     isDBUnavailable e = true \/
     (isPgError e || isNoRows e = false /\
      IsUnavailable (Some e) || pgTimeout e || notSent e || isCanceled e = true)).
Proof.
  intros Ho e'. split_and!.
  - unfold e', readErr. simpl. destruct (isDBUnavailable e); [done|].
    destruct (isPgError e || isNoRows e); [done|]. by destruct (_ || _).
  - unfold e', readErr. pose proof (ClassifyRead_idem (Some e)) as Hi.
    destruct (ClassifyReadErr (Some e)) as [x|] eqn:Hx;
      [change (default e (Some x)) with x; by rewrite Hi|change (default e None) with e; by rewrite Hx].
  - unfold e', readErr, ClassifyReadErr. destruct (isDBUnavailable e) eqn:H1; [by simpl; rewrite H1; intuition|].
    destruct (isPgError e || isNoRows e) eqn:H2; simpl; [rewrite H1; naive_solver|].
    destruct (IsUnavailable (Some e) || pgTimeout e || notSent e || isCanceled e) eqn:H3; simpl in *;
      rewrite ?H3, ?H1; simpl; rewrite ?H1; naive_solver.
Qed.

(** A deadline that fired after the statement was sent. *)
Definition sentTimeout : goErr :=
  GoErr false false false false false true false false false false true true false false.

Lemma write_verdict_witness :
  isOutcomeUnknown (default plainErr (ClassifyWriteErrFor PlaneAIKey (Some sentTimeout) (0, 0)).1) = true.
Proof.
  pose proof (write_verdict_exclusive PlaneAIKey sentTimeout (0, 0) eq_refl eq_refl) as H.
  destruct (ClassifyWriteErrFor PlaneAIKey (Some sentTimeout) (0, 0)) as [oe' c'].
  destruct H as [(e' & -> & [(H1 & _)|[(_ & H2 & _)|(_ & _ & _ & H3 & _)]]) _];
    [discriminate|discriminate|exact H3].
Defined.

Lemma read_classification_witness : isDBUnavailable (readErr sentTimeout) = true.
Proof.
  destruct (read_classification sentTimeout eq_refl) as (_ & _ & H). apply H. right.
  split; reflexivity.
Defined.
