(* ===== verification/LookupGuard.v ===== *)
(** * LookupGuard: the guard in front of the key store

    Models pkg/aikey/lookup_guard.go: the store-health circuit (closed, open,
    half-open with one probe), the bound on in-flight round trips, the lookup
    statistics and the negative key cache.

    Times and durations are nanoseconds.  The source.s admit blocks on a slot: it is split
    at that point into [pass] (the circuit's decision) and [acquire] or [giveUp]
    (the two arms of the select), so that other callers' steps can fall in
    between; [admitLookup] composes them for a caller that is not interleaved.  The
    statistics' bounds, floating-point seconds in the source, are exact here. *)

From S2P Require Import Prelude StoreErr.

Open Scope Z_scope.
Open Scope igw_scope.

(** ** Data *)

Inductive lookupResult :=
| resultMissFound | resultMissInvalid | resultTimeout
| resultRefusedCircuit | resultRefusedInflight | resultUnavailable.

#[export] Instance lookupResult_eq_dec : EqDecision lookupResult.
Proof. solve_decision. Defined.

Definition lookupResults : list lookupResult :=
  [resultMissFound; resultMissInvalid; resultTimeout;
   resultRefusedCircuit; resultRefusedInflight; resultUnavailable].

(** In nanoseconds. *)
Definition LookupBucketBounds : list Z :=
  [1000000; 5000000; 10000000; 25000000; 50000000; 100000000; 200000000; 300000000;
   500000000; 1000000000].

Inductive circuitState := circuitClosed | circuitOpen | circuitHalfOpen.

#[export] Instance circuitState_eq_dec : EqDecision circuitState.
Proof. solve_decision. Defined.

Record lookupGuardConfig := GuardConfig {
  maxInflight : Z;
  cfgFailures : Z;
  cooldown : Z;
  negativeTTL : Z;
  negativeCap : Z
}.

Definition intFromEnv (getenv : string -> string) (env : string) (def floor : Z) : Z :=
  let v := match getenv env with
           | EmptyString => def
           | raw => default def (ParseInt raw)
           end in
  if v <? floor then floor else v.

Definition msec : Z := 1000000.

Definition readLookupGuardConfig (getenv : string -> string) : lookupGuardConfig :=
  GuardConfig
    (intFromEnv getenv "LLB_AI_KEY_LOOKUP_MAX_INFLIGHT" 2 1)
    (intFromEnv getenv "LLB_AI_KEY_LOOKUP_CIRCUIT_FAILURES" 3 0)
    (i64 (intFromEnv getenv "LLB_AI_KEY_LOOKUP_CIRCUIT_COOLDOWN_MS" 5000 100 * msec))
    (i64 (intFromEnv getenv "LLB_AI_KEY_NEGATIVE_CACHE_MS" 2000 0 * msec))
    (intFromEnv getenv "LLB_AI_KEY_NEGATIVE_CACHE_CAP" 4096 1).

(** The statistics of one result. *)
Record resultStats := ResultStats { rCount : Z; rSumNs : Z; rBuckets : list Z }.

Definition zeroStats : resultStats := ResultStats 0 0 (replicate (length LookupBucketBounds) 0).

Record lookupGuard := Guard {
  state : circuitState;
  gen : Z;
  failures : Z;
  openedAt : Z;
  probeTaken : bool;
  inflight : Z;
  stats : lookupResult -> resultStats
}.

Definition zeroGuard : lookupGuard := Guard circuitClosed 0 0 0 false 0 (fun _ => zeroStats).

Record lookupToken := Token { tGen : Z; probe : bool; slot : bool }.

#[export] Instance lookupToken_eq_dec : EqDecision lookupToken.
Proof. solve_decision. Defined.

Definition setCircuit (st : circuitState) (gn fl oa : Z) (pt : bool) (g : lookupGuard) : lookupGuard :=
  Guard st gn fl oa pt (inflight g) (stats g).
Definition setInflight (n : Z) (g : lookupGuard) : lookupGuard :=
  Guard (state g) (gen g) (failures g) (openedAt g) (probeTaken g) n (stats g).

(** ** Operations *)

Definition bumpStats (took : Z) (r : resultStats) : resultStats :=
  ResultStats (u64 (rCount r + 1)) (i64 (rSumNs r + took))
    (zip_with (fun bound n => if took <=? bound then u64 (n + 1) else n) LookupBucketBounds (rBuckets r)).

Definition observe (res : lookupResult) (took : Z) (g : lookupGuard) : lookupGuard :=
  Guard (state g) (gen g) (failures g) (openedAt g) (probeTaken g) (inflight g)
    (fun r => if decide (r = res) then bumpStats took (stats g r) else stats g r).

Definition pass (cfg : lookupGuardConfig) (now : Z) (g : lookupGuard) : option lookupToken * lookupGuard :=
  match state g with
  | circuitClosed => (Some (Token (gen g) false false), g)
  | circuitOpen =>
      if now - openedAt g <? cooldown cfg then (None, g)
      else let g' := setCircuit circuitHalfOpen (u64 (gen g + 1)) (failures g) (openedAt g) true g in
           (Some (Token (gen g') true false), g')
  | circuitHalfOpen =>
      if probeTaken g then (None, g)
      else (Some (Token (gen g) true false),
            setCircuit circuitHalfOpen (gen g) (failures g) (openedAt g) true g)
  end.

(** The send on the slot channel: possible while it has room. *)
Definition acquire (cfg : lookupGuardConfig) (tok : lookupToken) (g : lookupGuard)
  : option (lookupToken * lookupGuard) :=
  if inflight g <? maxInflight cfg
  then Some (Token (tGen tok) (probe tok) true, setInflight (inflight g + 1) g)
  else None.

(** The budget expired first: the probe, if this was it, is given back. *)
Definition giveUp (tok : lookupToken) (g : lookupGuard) : lookupGuard :=
  if probe tok && bool_decide (state g = circuitHalfOpen) && (gen g ==? tGen tok)
  then setCircuit (state g) (gen g) (failures g) (openedAt g) false g
  else g.

(** [admitLookup] of a caller nothing interleaves with; [gotSlot] is which arm of the
    select fired. *)
Definition admitLookup (cfg : lookupGuardConfig) (now : Z) (gotSlot : bool) (g : lookupGuard)
  : (lookupToken + lookupResult) * lookupGuard :=
  match pass cfg now g with
  | (None, g) => (inr resultRefusedCircuit, g)
  | (Some tok, g) =>
      match (if gotSlot then acquire cfg tok g else None) with
      | Some (tok, g) => (inl tok, g)
      | None => (inr resultRefusedInflight, giveUp tok g)
      end
  end.

Definition report (cfg : lookupGuardConfig) (now : Z) (tok : lookupToken) (res : lookupResult)
  (failure : bool) (took : Z) (g : lookupGuard) : lookupGuard :=
  let g := if slot tok then setInflight (inflight g - 1) g else g in
  let g := observe res took g in
  if tGen tok !=? gen g then g
  else
    match state g with
    | circuitClosed =>
        if negb failure then setCircuit circuitClosed (gen g) 0 (openedAt g) (probeTaken g) g
        else
          let f := i64 (failures g + 1) in
          if (cfgFailures cfg >? 0) && (f >=? cfgFailures cfg)
          then setCircuit circuitOpen (u64 (gen g + 1)) f now (probeTaken g) g
          else setCircuit circuitClosed (gen g) f (openedAt g) (probeTaken g) g
    | circuitHalfOpen =>
        if negb (probe tok) then g
        else if failure
        then setCircuit circuitOpen (u64 (gen g + 1)) (failures g) now false g
        else setCircuit circuitClosed (u64 (gen g + 1)) 0 (openedAt g) false g
    | circuitOpen => g
    end.

(** *** Outcomes *)

(** The statement's error under a context that is done or not. *)
Definition classifyLookup (ctxDone : bool) (oe : option goErr) : lookupResult :=
  match oe with
  | None => resultMissFound
  | Some e =>
      if isNoRows e then resultMissInvalid
      else if isDeadline e || ctxDone then resultTimeout
      else resultUnavailable
  end.

Definition circuitFailure (res : lookupResult) (oe : option goErr) : bool :=
  match res with
  | resultTimeout => true
  | resultUnavailable =>
      match ClassifyReadErr oe with Some e => isDBUnavailable e | None => false end
  | _ => false
  end.

Definition errCircuitOpen : goErr := wrapUnavailable plainErr.
Definition errLookupBusy : goErr := wrapUnavailable plainErr.

(** What one guarded read meets: whether the pool exists, the clock when it is
    admitted and when it reports, the select's arm, whether the budget expired
    by the time the statement returned, and the statement's answer. *)
Record readEnv := ReadEnv {
  connected : bool;
  startNs : Z;
  endNs : Z;
  gotSlot : bool;
  ctxDone : bool
}.

(** [fn] is the statement: the error it returned, or none. *)
Definition dataPathRead (cfg : lookupGuardConfig) (env : readEnv) (fnErr : option goErr) (g : lookupGuard)
  : option goErr * lookupGuard :=
  if negb (connected env) then (Some errStoreUnavailable, observe resultUnavailable 0 g)
  else
    match admitLookup cfg (startNs env) (gotSlot env) g with
    | (inr refusal, g) =>
        (Some (match refusal with resultRefusedCircuit => errCircuitOpen | _ => errLookupBusy end),
         observe refusal (endNs env - startNs env) g)
    | (inl tok, g) =>
        let res := classifyLookup (ctxDone env) fnErr in
        (fnErr, report cfg (endNs env) tok res (circuitFailure res fnErr) (endNs env - startNs env) g)
    end.

(** *** Statistics snapshot *)

Record LookupStats := Stats {
  Count : list Z;
  SumNs : list Z;
  Buckets : list (list Z);
  CircuitOpen : bool;
  InFlight : Z
}.

Definition snapshot (g : lookupGuard) : LookupStats :=
  Stats ((fun r => rCount (stats g r)) <$> lookupResults)
        ((fun r => rSumNs (stats g r)) <$> lookupResults)
        ((fun r => rBuckets (stats g r)) <$> lookupResults)
        (bool_decide (state g <> circuitClosed)) (inflight g).

(** ** The negative key cache *)

Record negativeKeyCache := NegCache {
  nEntries : gmap string Z;
  order : list string
}.

Definition emptyNeg : negativeKeyCache := NegCache ∅ [].

(** [delete_first h l]: the slice with the first occurrence spliced out. *)
Fixpoint delete_first (h : string) (l : list string) : list string :=
  match l with
  | [] => []
  | x :: l => if decide (x = h) then l else x :: delete_first h l
  end.

Definition drop (hash : string) (n : negativeKeyCache) : negativeKeyCache :=
  match nEntries n !! hash with
  | None => n
  | Some _ => NegCache (delete hash (nEntries n)) (delete_first hash (order n))
  end.

Definition negativeHit (cfg : lookupGuardConfig) (now : Z) (hash : string) (n : negativeKeyCache)
  : bool * negativeKeyCache :=
  if negativeTTL cfg <=? 0 then (false, n)
  else match nEntries n !! hash with
       | None => (false, n)
       | Some exp => if exp <? now then (false, drop hash n) else (true, n)
       end.

(** Drop the oldest entries until there is room for one more. *)
Fixpoint makeRoom (cap : Z) (es : gmap string Z) (l : list string) : gmap string Z * list string :=
  if Z.of_nat (length l) >=? cap
  then match l with
       | oldest :: rest => makeRoom cap (delete oldest es) rest
       | [] => (es, l)
       end
  else (es, l).

Definition rememberNegative (cfg : lookupGuardConfig) (now : Z) (hash : string) (n : negativeKeyCache)
  : negativeKeyCache :=
  let ttl := negativeTTL cfg in
  if ttl <=? 0 then n
  else
    let '(es, l) :=
      match nEntries n !! hash with
      | Some _ => (nEntries n, order n)
      | None => let '(es, l) := makeRoom (negativeCap cfg) (nEntries n) (order n) in (es, l ++ [hash])
      end in
    NegCache (<[hash := now + ttl]> es) l.

Definition forgetNegative (hash : string) (n : negativeKeyCache) : negativeKeyCache := drop hash n.

Definition negativeShape (n : negativeKeyCache) : Z * Z :=
  (Z.of_nat (size (nEntries n)), Z.of_nat (length (order n))).
