(* ===== verification/GuardProps.v ===== *)
(** * GuardProps: what the lookup guard guarantees

    The step relation interleaves any number of data-path reads on the guard
    (LookupGuard): each passes the circuit, waits for a slot, gets it or gives
    up, and reports.  Theorems: the in-flight bound and the single probe hold in
    every reachable state, the circuit opens after exactly the configured run of
    failures and recovers through one probe, late reports are inert, a guarded
    read is transparent, and the negative cache stays consistent and bounded. *)

From S2P Require Import Prelude StoreErr LookupGuard.

Open Scope Z_scope.
Open Scope igw_scope.

#[local] Arguments observe : simpl never.

(** ** Interleaved reads *)

Section Steps.
Context (cfg : lookupGuardConfig).

Record gstate := GState {
  guard : lookupGuard;
  waiting : list lookupToken;
  running : list lookupToken;
  gclock : Z
}.

Inductive gstep : gstate -> gstate -> Prop :=
| GPass tok g g' w r now :
    gen g + 1 < two64 -> pass cfg now g = (Some tok, g') ->
    gstep (GState g w r now) (GState g' (tok :: w) r now)
| GRefuse g g' w r now took :
    pass cfg now g = (None, g') ->
    gstep (GState g w r now) (GState (observe resultRefusedCircuit took g') w r now)
| GAcquire tok tok' g g' w w' r now :
    w ≡ₚ tok :: w' -> acquire cfg tok g = Some (tok', g') ->
    gstep (GState g w r now) (GState g' w' (tok' :: r) now)
| GGiveUp tok g w w' r now took :
    w ≡ₚ tok :: w' ->
    gstep (GState g w r now) (GState (observe resultRefusedInflight took (giveUp tok g)) w' r now)
| GReport tok g w r r' now res failure took :
    gen g + 1 < two64 -> r ≡ₚ tok :: r' ->
    gstep (GState g w r now) (GState (report cfg now tok res failure took g) w r' now)
| GOffline g w r now :
    gstep (GState g w r now) (GState (observe resultUnavailable 0 g) w r now)
| GTick g w r now now' : now <= now' -> gstep (GState g w r now) (GState g w r now').

Definition greachable (st : gstate) : Prop := exists now, rtc gstep (GState zeroGuard [] [] now) st.

(** The outstanding tokens of the current generation. *)
Definition liveTokens (n : Z) (l : list lookupToken) : list lookupToken :=
  filter (fun tok => tGen tok = n) l.

Definition circuit_inv (g : lookupGuard) (toks : list lookupToken) : Prop :=
  let lv := liveTokens (gen g) toks in
  match state g with
  | circuitClosed => Forall (fun tok => probe tok = false) lv /\
                     (0 < cfgFailures cfg -> 0 <= failures g < cfgFailures cfg)
  | circuitOpen => lv = []
  | circuitHalfOpen => if probeTaken g then exists tok, lv = [tok] /\ probe tok = true else lv = []
  end.

Definition guard_inv (st : gstate) : Prop :=
  let g := guard st in
  inflight g = Z.of_nat (length (running st)) /\ inflight g <= Z.max 0 (maxInflight cfg) /\
  Forall (fun tok => slot tok = true) (running st) /\
  Forall (fun tok => tGen tok <= gen g) (waiting st ++ running st) /\
  0 <= gen g < two64 /\
  circuit_inv g (waiting st ++ running st).

#[local] Instance liveTokens_proper n : Proper ((≡ₚ) ==> (≡ₚ)) (liveTokens n).
Proof. intros l l' H. unfold liveTokens. by rewrite H. Qed.

Lemma liveTokens_cons n tok l :
  liveTokens n (tok :: l) = if decide (tGen tok = n) then tok :: liveTokens n l else liveTokens n l.
Proof. unfold liveTokens. by rewrite filter_cons. Qed.

(** No outstanding token is of a generation that has not begun. *)
Lemma liveTokens_next n l : Forall (fun tok => tGen tok <= n) l -> liveTokens (n + 1) l = [].
Proof.
  induction 1 as [|tok l H _ IH]; [done|]. rewrite liveTokens_cons. case_decide; [lia|done].
Qed.

Lemma circuit_inv_perm g l l' : l ≡ₚ l' -> circuit_inv g l -> circuit_inv g l'.
Proof.
  intros Hp. pose proof (liveTokens_proper (gen g) _ _ Hp) as Hl. unfold circuit_inv.
  destruct (state g); [|destruct (probeTaken g)|].
  - rewrite Hl. done.
  - intros H. rewrite H in Hl. by apply Permutation_nil in Hl.
  - intros H. rewrite H in Hl. by apply Permutation_nil in Hl.
  - destruct (probeTaken g).
    + intros (tok & H & Hpr). rewrite H in Hl. apply Permutation_singleton_l in Hl. eauto.
    + intros H. rewrite H in Hl. by apply Permutation_nil in Hl.
Qed.

Lemma observe_fields res took g :
  (state (observe res took g), gen (observe res took g), failures (observe res took g),
   openedAt (observe res took g), probeTaken (observe res took g), inflight (observe res took g)) =
  (state g, gen g, failures g, openedAt g, probeTaken g, inflight g).
Proof. done. Qed.

Lemma guard_inv_observe res took g w r now :
  guard_inv (GState g w r now) -> guard_inv (GState (observe res took g) w r now).
Proof. exact id. Qed.

Lemma pass_inv g g' tok w r now :
  gen g + 1 < two64 -> pass cfg now g = (Some tok, g') ->
  guard_inv (GState g w r now) -> guard_inv (GState g' (tok :: w) r now).
Proof.
  intros Hgen Hp (H1 & H2 & H3 & H4 & H5 & H6). simpl in *.
  unfold circuit_inv in H6. unfold pass in Hp. unfold guard_inv, circuit_inv. simpl.
  destruct (state g) eqn:Hs.
  - injection Hp as <- <-. rewrite Hs. destruct H6 as [H6 H7]. split_and!; try done; try lia.
    + constructor; [simpl; lia|done].
    + rewrite liveTokens_cons. simpl. rewrite decide_True by done. by constructor.
  - zcase_in Hp; [done|]. injection Hp as <- <-. simpl.
    rewrite (u64_id (gen g + 1)) by lia. split_and!; try done; try lia.
    + constructor; [simpl; lia|]. eapply Forall_impl; [exact H4|]. simpl. lia.
    + eexists. rewrite liveTokens_cons. simpl. rewrite decide_True by done.
      rewrite liveTokens_next by done. done.
  - destruct (probeTaken g) eqn:Hpt; [done|]. injection Hp as <- <-. simpl.
    split_and!; try done; try lia.
    + constructor; [simpl; lia|done].
    + eexists. rewrite liveTokens_cons. simpl. rewrite decide_True by done. by rewrite H6.
Qed.

Lemma acquire_inv g g' tok tok' w r now :
  acquire cfg tok g = Some (tok', g') ->
  guard_inv (GState g (tok :: w) r now) -> guard_inv (GState g' w (tok' :: r) now).
Proof.
  intros Ha (H1 & H2 & H3 & H4 & H5 & H6). unfold acquire in Ha. simpl in *.
  zcase_in Ha; [|done]. injection Ha as <- <-.
  unfold guard_inv. simpl. inversion H4 as [|? ? H4a H4b]; subst.
  split_and!; try done; try lia.
  - by constructor.
  - apply Forall_app in H4b as [H4b H4c]. apply Forall_app. split; [done|]. by constructor.
  - assert (circuit_inv g (w ++ Token (tGen tok) (probe tok) true :: r)) as Hc; [|exact Hc].
    apply (circuit_inv_perm g (Token (tGen tok) (probe tok) true :: w ++ r));
      [by rewrite Permutation_middle|].
    unfold circuit_inv in *. rewrite liveTokens_cons in *. simpl in *.
    case_decide; [|done]. destruct (state g); try done.
    + destruct H6 as [H6 ?]. inversion H6; subst. split; [by constructor|done].
    + destruct (probeTaken g); [|done]. destruct H6 as (t & Heq & Hpr). injection Heq as <- Hl.
      eexists. rewrite Hl. done.
Qed.

Lemma giveUp_inv g tok w r now :
  guard_inv (GState g (tok :: w) r now) -> guard_inv (GState (giveUp tok g) w r now).
Proof.
  intros (H1 & H2 & H3 & H4 & H5 & H6). simpl in *. inversion H4 as [|? ? H4a H4b]; subst.
  unfold giveUp. destruct (probe tok) eqn:Hp; simpl.
  - unfold circuit_inv in H6. rewrite liveTokens_cons in H6.
    destruct (bool_decide (state g = circuitHalfOpen)) eqn:Hs; simpl.
    + apply bool_decide_eq_true in Hs. rewrite Hs in *.
      destruct (Z.eqb_spec (gen g) (tGen tok)) as [Hg|Hg]; simpl.
      * rewrite decide_True in H6 by done. unfold guard_inv, circuit_inv. simpl. rewrite ?Hs.
        split_and!; try done; try lia. destruct (probeTaken g); [|done].
        destruct H6 as (t & Heq & _). by injection Heq.
      * rewrite decide_False in H6 by done. unfold guard_inv, circuit_inv. simpl. rewrite ?Hs. done.
    + apply bool_decide_eq_false in Hs. unfold guard_inv, circuit_inv. simpl.
      split_and!; try done; try lia. case_decide; [|done]. destruct (state g); try done.
      destruct H6 as [H6 ?]. inversion H6; subst. done.
  - unfold guard_inv, circuit_inv in *. simpl. split_and!; try done; try lia.
    rewrite liveTokens_cons in H6. case_decide; [|done]. destruct (state g); try done.
    + destruct H6 as [H6 ?]. inversion H6; subst. done.
    + destruct (probeTaken g); [|done]. destruct H6 as (t & Heq & Ht). injection Heq as <- _. congruence.
Qed.

Lemma guard_inv_perm g w w' r r' now :
  w ≡ₚ w' -> r ≡ₚ r' -> guard_inv (GState g w r now) -> guard_inv (GState g w' r' now).
Proof.
  intros Hw Hr (H1 & H2 & H3 & H4 & H5 & H6). unfold guard_inv. simpl in *.
  split_and!; try done; try lia.
  - by rewrite <- Hr.
  - by rewrite <- Hr.
  - by rewrite <- Hw, <- Hr.
  - eapply circuit_inv_perm; [|exact H6]. by rewrite Hw, Hr.
Qed.

Lemma report_inv g tok w r now res failure took :
  gen g + 1 < two64 -> 0 <= cfgFailures cfg < two63 ->
  guard_inv (GState g w (tok :: r) now) ->
  guard_inv (GState (report cfg now tok res failure took g) w r now).
Proof.
  intros Hgen Hcf (H1 & H2 & H3 & H4 & H5 & H6). simpl in *.
  inversion H3 as [|? ? Hslot H3']; subst.
  assert (circuit_inv g (tok :: w ++ r)) as Hc
    by (eapply circuit_inv_perm; [|exact H6]; by rewrite Permutation_middle).
  assert (Forall (fun tok => tGen tok <= gen g) (tok :: w ++ r)) as Hf
    by (by rewrite Permutation_middle).
  inversion Hf as [|? ? Hf1 Hf2]; subst.
  unfold report. rewrite Hslot. cbv zeta.
  set (g1 := observe res took (setInflight (inflight g - 1) g)).
  assert (inflight g1 = Z.of_nat (length r) /\ inflight g1 <= Z.max 0 (maxInflight cfg)) as [Hi1 Hi2].
  { unfold g1. change (inflight (observe _ _ ?x)) with (inflight x). simpl. lia. }
  assert (forall st gn fl oa pt, gn = gen g \/ gn = gen g + 1 ->
    circuit_inv (setCircuit st gn fl oa pt g1) (w ++ r) ->
    guard_inv (GState (setCircuit st gn fl oa pt g1) w r now)) as Hmk.
  { intros st gn fl oa pt Hgn Hci. unfold guard_inv. simpl. split_and!; try done; try lia.
    eapply Forall_impl; [exact Hf2|]. simpl. lia. }
  assert (circuit_inv g (w ++ r) -> guard_inv (GState g1 w r now)) as Hsame.
  { intros Hci. unfold guard_inv. simpl. split_and!; try done; try lia. }
  unfold circuit_inv in Hc. rewrite liveTokens_cons in Hc.
  change (gen g1) with (gen g). change (state g1) with (state g). change (failures g1) with (failures g).
  destruct (Z.eqb_spec (tGen tok) (gen g)) as [Hg|Hg]; cbn [negb].
  - rewrite decide_True in Hc by done. rewrite (u64_id (gen g + 1)) by lia.
    pose proof (liveTokens_next (gen g) (w ++ r) Hf2) as Hnx.
    destruct (state g) eqn:Hs.
    + destruct Hc as [Hc1 Hc2]. inversion Hc1 as [|? ? Hpf Hc3]; subst.
      destruct failure; cbn [negb]; [|apply Hmk; [by left|]; split; [exact Hc3|simpl; lia]].
      destruct (Z.ltb_spec 0 (cfgFailures cfg)) as [Hpos|Hpos]; cbn [andb].
      * specialize (Hc2 Hpos). rewrite i64_id by (unfold in_i64, two63 in *; lia).
        zcase; apply Hmk; try (by left); try (by right); [exact Hnx|].
        split; [exact Hc3|simpl; lia].
      * apply Hmk; [by left|]. split; [exact Hc3|simpl; lia].
    + done.
    + destruct (probeTaken g); [|done]. destruct Hc as (t & Heq & Hpr). injection Heq as -> Hl.
      rewrite Hpr. cbn [negb]. destruct failure; (apply Hmk; [by right|]).
      * exact Hnx.
      * unfold circuit_inv. simpl. rewrite Hnx. split; [constructor|lia].
  - rewrite decide_False in Hc by done. apply Hsame. exact Hc.
Qed.

Lemma gstep_inv st st' :
  0 <= cfgFailures cfg < two63 -> guard_inv st -> gstep st st' -> guard_inv st'.
Proof.
  intros Hcf Hi Hst. destruct Hst.
  - by eapply pass_inv.
  - apply guard_inv_observe. unfold pass in *. destruct (state g); [done| |].
    + zcase_in H; [|done]. by injection H as <-.
    + destruct (probeTaken g); [|done]. by injection H as <-.
  - eapply acquire_inv; [done|]. by eapply guard_inv_perm.
  - apply guard_inv_observe, giveUp_inv. by eapply guard_inv_perm.
  - apply report_inv; [done|done|]. by eapply guard_inv_perm.
  - by apply guard_inv_observe.
  - exact Hi.
Qed.

Lemma guard_inv_init now : guard_inv (GState zeroGuard [] [] now).
Proof. unfold guard_inv, circuit_inv, two64. simpl. split_and!; try done; try lia. Qed.

Lemma greachable_inv st : 0 <= cfgFailures cfg < two63 -> greachable st -> guard_inv st.
Proof.
  intros Hcf [now Hr]. eapply (rtc_invariant gstep guard_inv); [|apply guard_inv_init|exact Hr].
  intros. by eapply gstep_inv.
Qed.

(** C38: In every state reachable by any interleaving of reads, the round trips
    on the store are exactly the admitted reads that have not reported and at
    most the configured bound; with the circuit open no read of the current
    generation is outstanding, and half-open at most one is, the probe. *)
Theorem guard_bounds_and_single_probe st :
  0 <= cfgFailures cfg < two63 -> 1 <= maxInflight cfg -> greachable st ->
  let g := guard st in
  let lv := liveTokens (gen g) (waiting st ++ running st) in
  InFlight (snapshot g) = Z.of_nat (length (running st)) /\
  InFlight (snapshot g) <= maxInflight cfg /\
  (state g = circuitOpen -> lv = []) /\
  (state g = circuitHalfOpen -> (length lv <= 1)%nat /\ Forall (fun tok => probe tok = true) lv) /\
  (state g = circuitClosed -> Forall (fun tok => probe tok = false) lv).
Proof.
  intros Hcf Hm Hr g lv. destruct (greachable_inv st Hcf Hr) as (H1 & H2 & _ & _ & _ & H6).
  unfold circuit_inv in H6. fold g in H1, H2, H6. fold lv in H6. simpl.
  split_and!; [done|lia|intros Hs; by rewrite Hs in H6| |intros Hs; rewrite Hs in H6; apply H6].
  intros Hs. rewrite Hs in H6. destruct (probeTaken g).
  - destruct H6 as (tok & -> & Hp). split; [simpl; lia|by repeat constructor].
  - rewrite H6. split; [simpl; lia|constructor].
Qed.

(** ** The circuit's transitions *)

Definition circuitFields (g : lookupGuard) : circuitState * Z * Z * Z * bool :=
  (state g, gen g, failures g, openedAt g, probeTaken g).

(** A read that was admitted before the circuit last changed state releases
    its slot and is counted, and moves nothing else: it can neither re-open a
    recovered circuit nor close one that just opened. *)
Theorem stale_report_is_inert now tok res failure took g :
  tGen tok <> gen g ->
  let g' := report cfg now tok res failure took g in
  circuitFields g' = circuitFields g /\
  inflight g' = (if slot tok then inflight g - 1 else inflight g) /\
  stats g' res = bumpStats took (stats g res).
Proof.
  intros Hg g'. unfold g', report, observe, circuitFields.
  destruct (slot tok); simpl; destruct (Z.eqb_spec (tGen tok) (gen g)); try done; simpl;
    by rewrite decide_True by done.
Qed.

(** One data-path read the store does not answer in time. *)
Definition failingRead (now : Z) (g : lookupGuard) : lookupGuard :=
  (dataPathRead cfg (ReadEnv true now now true true) (Some sentTimeout) g).2.

Lemma failingRead_closed now g :
  state g = circuitClosed -> 0 <= inflight g < maxInflight cfg ->
  0 < cfgFailures cfg < two63 -> 0 <= failures g < cfgFailures cfg ->
  let g' := failingRead now g in
  inflight g' = inflight g /\ failures g' = failures g + 1 /\
  if decide (failures g + 1 = cfgFailures cfg)
  then state g' = circuitOpen /\ openedAt g' = now /\ gen g' = u64 (gen g + 1)
  else state g' = circuitClosed /\ gen g' = gen g.
Proof.
  intros Hs Hi Hcf Hf g'. unfold g', failingRead, dataPathRead, admitLookup, pass. rewrite Hs. cbn [connected negb startNs gotSlot].
  unfold acquire. destruct (Z.ltb_spec (inflight g) (maxInflight cfg)); [|lia].
  unfold report. cbn [slot tGen snd]. cbv zeta.
  change (gen (observe _ _ _)) with (gen g). rewrite Z.eqb_refl. cbn [negb].
  change (state (observe _ _ _)) with (state g). rewrite Hs.
  change (circuitFailure (classifyLookup _ _) _) with true. cbn [negb].
  change (failures (observe _ _ _)) with (failures g).
  rewrite i64_id by (unfold in_i64, two63 in *; lia).
  destruct (Z.ltb_spec 0 (cfgFailures cfg)); [|lia]. cbn [andb].
  case_decide as Hd.
  - destruct (Z.leb_spec (cfgFailures cfg) (failures g + 1)); [|lia].
    unfold observe. simpl. split_and!; try done; lia.
  - destruct (Z.leb_spec (cfgFailures cfg) (failures g + 1)); [lia|].
    unfold observe. simpl. split_and!; try done; lia.
Qed.

Lemma failingReads_closed now n g :
  state g = circuitClosed -> failures g = 0 -> 0 <= inflight g < maxInflight cfg ->
  cfgFailures cfg < two63 -> Z.of_nat n < cfgFailures cfg ->
  let g' := Nat.iter n (failingRead now) g in
  state g' = circuitClosed /\ failures g' = Z.of_nat n /\ inflight g' = inflight g /\ gen g' = gen g.
Proof.
  intros Hs Hf0 Hi Hcf. induction n as [|n IH]; intros Hn; simpl; [done|].
  destruct IH as (A & B & C & D); [lia|].
  destruct (failingRead_closed now (Nat.iter n (failingRead now) g) A ltac:(lia) ltac:(lia) ltac:(lia))
    as (E1 & E2 & E3).
  rewrite decide_False in E3 by lia. destruct E3. split_and!; lia || congruence.
Qed.

Lemma halfOpen_report now tok res failure took g :
  state g = circuitHalfOpen -> tGen tok = gen g -> probe tok = true ->
  let g' := report cfg now tok res failure took g in
  if failure then state g' = circuitOpen /\ openedAt g' = now
  else state g' = circuitClosed /\ failures g' = 0.
Proof.
  intros Hs Hg Hp g'. unfold g', report, observe.
  destruct (slot tok); simpl; rewrite Hg, Z.eqb_refl, Hs, Hp; simpl; by destruct failure.
Qed.

(** C39: The circuit's life.  From a closed circuit with no failures, reads that
    time out keep it closed until exactly the configured number of them, which
    opens it; it then refuses every read for the cool-down, after which one
    probe is let through and every other read is still refused; the probe's
    success closes the circuit and clears the count, its failure re-opens it
    from that moment. *)
Theorem circuit_opens_and_recovers now g :
  state g = circuitClosed -> failures g = 0 -> 0 <= inflight g < maxInflight cfg ->
  0 < cfgFailures cfg < two63 -> 0 <= gen g < two64 - 2 ->
  let g1 := Nat.iter (Z.to_nat (cfgFailures cfg)) (failingRead now) g in
  (forall n, Z.of_nat n < cfgFailures cfg -> state (Nat.iter n (failingRead now) g) = circuitClosed) /\
  state g1 = circuitOpen /\ inflight g1 = inflight g /\
  (forall t, t - now < cooldown cfg -> pass cfg t g1 = (None, g1)) /\
  (forall t, cooldown cfg <= t - now ->
     exists tok g2, pass cfg t g1 = (Some tok, g2) /\ probe tok = true /\
       (forall t', pass cfg t' g2 = (None, g2)) /\
       forall t' res failure took,
         let g3 := report cfg t' tok res failure took g2 in
         if failure then state g3 = circuitOpen /\ openedAt g3 = t'
         else state g3 = circuitClosed /\ failures g3 = 0).
Proof.
  intros Hs Hf Hi Hcf Hgen g1.
  assert (forall n, Z.of_nat n < cfgFailures cfg -> state (Nat.iter n (failingRead now) g) = circuitClosed) as Hcl.
  { intros n Hn. by destruct (failingReads_closed now n g Hs Hf Hi ltac:(lia) Hn). }
  destruct (failingReads_closed now (Z.to_nat (cfgFailures cfg - 1)) g Hs Hf Hi ltac:(lia) ltac:(lia))
    as (A & B & C & D).
  destruct (failingRead_closed now _ A ltac:(lia) ltac:(lia) ltac:(lia)) as (E1 & E2 & E3).
  rewrite decide_True in E3 by lia.
  replace (failingRead now _) with g1 in * by
    (unfold g1; by replace (Z.to_nat (cfgFailures cfg)) with (S (Z.to_nat (cfgFailures cfg - 1))) by lia).
  destruct E3 as (F1 & F2 & F3).
  split_and!; [done|done|congruence|..].
  - intros t Ht. unfold pass. rewrite F1, F2. destruct (Z.ltb_spec (t - now) (cooldown cfg)); [done|lia].
  - intros t Ht. unfold pass. rewrite F1, F2. destruct (Z.ltb_spec (t - now) (cooldown cfg)); [lia|].
    eexists _, _. split; [reflexivity|]. split; [done|]. split; [intros; done|].
    intros t' res failure took. by apply halfOpen_report.
Qed.

(** A guarded read is transparent.  It returns the statement's own error, or
    a refusal that every caller recognises as the store being unavailable; the
    slot it took is given back; a store that is not connected does not move the
    circuit; and a server-side error, however often it comes, never does either
    when the circuit is closed. *)
Theorem guarded_read_transparent env fnErr g :
  let '(e, g') := dataPathRead cfg env fnErr g in
  (e = fnErr \/ exists r, e = Some r /\ isDBUnavailable r = true) /\
  inflight g' = inflight g /\
  (connected env = false -> circuitFields g' = circuitFields g) /\
  (connected env = true -> state g = circuitClosed -> inflight g < maxInflight cfg -> gotSlot env = true ->
   e = fnErr /\
   forall se, fnErr = Some se -> isPgError se = true -> isDBUnavailable se = false ->
     isDeadline se = false -> ctxDone env = false ->
     state g' = circuitClosed /\ failures g' = 0).
Proof.
  unfold dataPathRead. destruct (connected env) eqn:Hc; cbn [negb]; [|by split_and!; eauto].
  unfold admitLookup.
  assert (forall now, (pass cfg now g).1 = None \/
    exists tok, (pass cfg now g).1 = Some tok /\ slot tok = false) as Hpass.
  { intros now. unfold pass. destruct (state g); [eauto| |].
    - destruct (_ <? _); simpl; eauto.
    - destruct (probeTaken g); simpl; eauto. }
  assert (forall now, inflight (pass cfg now g).2 = inflight g) as Hpi.
  { intros now. unfold pass. destruct (state g); [done| |]; [destruct (_ <? _)|destruct (probeTaken g)]; done. }
  specialize (Hpass (startNs env)). specialize (Hpi (startNs env)).
  assert (state g = circuitClosed -> pass cfg (startNs env) g = (Some (Token (gen g) false false), g)) as Hcl
    by (intros Hs; unfold pass; by rewrite Hs).
  destruct (pass cfg (startNs env) g) as [[tok|] g0] eqn:Hp; cbn [fst snd] in *.
  2:{ split_and!; eauto; [done|]. intros _ Hs. by specialize (Hcl Hs). }
  destruct (gotSlot env) eqn:Hgs.
  2:{ split_and!; try done; [eauto|]. unfold giveUp, observe. by destruct (_ && _). }
  unfold acquire. destruct (Z.ltb_spec (inflight g0) (maxInflight cfg)) as [Hlt|Hge].
  2:{ split_and!; try done; [eauto| |].
      - unfold giveUp, observe. by destruct (_ && _).
      - intros _ Hs Hm. specialize (Hcl Hs). simplify_eq. lia. }
  split_and!; [by left| |done|].
  - unfold report. cbn [slot]. unfold observe, setInflight. simpl. rewrite <- Hpi.
    repeat (case_match; simpl); lia.
  - intros _ Hs Hm _. split; [done|]. intros se -> Hpg Hdb Hdl Hcd. specialize (Hcl Hs). injection Hcl as -> ->.
    unfold report, observe. cbn [slot tGen]. simpl. rewrite Z.eqb_refl, Hs. simpl.
    unfold circuitFailure, classifyLookup. rewrite Hdl, Hcd. unfold ClassifyReadErr. rewrite Hdb, Hpg. simpl.
    destruct (isNoRows se); simpl; [done|]. rewrite Hdb. done.
Qed.

End Steps.

(** ** The negative cache *)

Definition neg_inv (n : negativeKeyCache) : Prop :=
  NoDup (order n) /\ (forall h, h ∈ order n <-> is_Some (nEntries n !! h)).

Lemma delete_first_elem h x l : NoDup l -> x ∈ delete_first h l <-> x ∈ l /\ x <> h.
Proof.
  induction 1 as [|y l Hy _ IH]; simpl; [set_solver|].
  case_decide as Hd; [subst|].
  - rewrite elem_of_cons. split; [intros Hx; split; [auto|]; congruence|].
    intros [[->|Hx] Hne]; done.
  - rewrite !elem_of_cons, IH. split; [intros [->|[? ?]]; auto|]. intros [[->|?] ?]; auto.
Qed.

Lemma delete_first_NoDup h l : NoDup l -> NoDup (delete_first h l).
Proof.
  induction 1 as [|y l Hy Hl IH]; simpl; [constructor|]. case_decide; [done|].
  constructor; [|done]. rewrite delete_first_elem by done. tauto.
Qed.

Lemma drop_inv h n : neg_inv n -> neg_inv (drop h n).
Proof.
  intros [Hnd Hd]. unfold drop. destruct (nEntries n !! h) as [e|] eqn:Hh; [|done].
  split; simpl; [by apply delete_first_NoDup|]. intros x. rewrite delete_first_elem, Hd by done.
  destruct (decide (x = h)) as [->|Hne].
  - rewrite lookup_delete_eq. split; [by intros [_ ?]|by intros [? ?]].
  - rewrite lookup_delete_ne by done. tauto.
Qed.

(** Making room keeps the newest entries, at most one below the cap. *)
Lemma makeRoom_spec cap es l :
  1 <= cap -> NoDup l -> (forall h, h ∈ l <-> is_Some (es !! h)) ->
  let '(es', l') := makeRoom cap es l in
  NoDup l' /\ (forall h, h ∈ l' <-> is_Some (es' !! h)) /\
  Z.of_nat (length l') <= cap - 1 /\ l' `suffix_of` l /\
  (Z.of_nat (length l) < cap -> es' = es /\ l' = l) /\
  (forall h, h ∈ l' -> es' !! h = es !! h).
Proof.
  intros Hcap Hnd. revert es. induction Hnd as [|x l Hx Hnd IH]; intros es Hd; simpl.
  - zcase; [simpl in *; lia|]. split; [constructor|]. split_and!; try done; simpl in *; lia.
  - zcase; [|split; [by constructor|]; split_and!; try done; try (simpl in *; lia); try reflexivity].
    specialize (IH (delete x es)). destruct (makeRoom cap (delete x es) l) as [es' l'].
    destruct IH as (A & B & C & D & E & F).
    { intros h. destruct (decide (h = x)) as [->|Hne].
      - rewrite lookup_delete_eq. split; [done|by intros [? ?]].
      - rewrite lookup_delete_ne by done. rewrite <- Hd, elem_of_cons. tauto. }
    split_and!; try done.
    + by apply suffix_cons_r.
    + intros ?. simpl in *. lia.
    + intros h Hh. rewrite F by done. apply lookup_delete_ne. intros ->. apply Hx.
      destruct D as [pre Hpre]. rewrite Hpre. apply elem_of_app. by right.
Qed.

Lemma remember_spec cfg now h n :
  0 < negativeTTL cfg -> 1 <= negativeCap cfg -> neg_inv n ->
  let n' := rememberNegative cfg now h n in
  neg_inv n' /\ nEntries n' !! h = Some (now + negativeTTL cfg) /\
  (Z.of_nat (length (order n)) <= negativeCap cfg -> Z.of_nat (length (order n')) <= negativeCap cfg) /\
  (forall x, x ∈ order n' -> x <> h -> nEntries n' !! x = nEntries n !! x) /\
  (Z.of_nat (length (order n)) < negativeCap cfg -> forall x, x ∈ order n -> x ∈ order n').
Proof.
  intros Ht Hc [Hnd Hd] n'. unfold n', rememberNegative.
  destruct (Z.leb_spec (negativeTTL cfg) 0); [lia|].
  destruct (nEntries n !! h) as [e|] eqn:Hh; simpl.
  - assert (h ∈ order n) by (apply Hd; eauto).
    split_and!; try done.
    + split; [done|]. simpl. intros x. destruct (decide (x = h)) as [->|];
        [rewrite lookup_insert_eq; split; eauto|rewrite lookup_insert_ne by done; apply Hd].
    + apply lookup_insert_eq.
    + intros. by apply lookup_insert_ne.
  - pose proof (makeRoom_spec (negativeCap cfg) (nEntries n) (order n) Hc Hnd Hd) as Hm.
    destruct (makeRoom (negativeCap cfg) (nEntries n) (order n)) as [es l].
    destruct Hm as (A & B & C & D & E & F). simpl.
    assert (h ∉ l) as Hhl.
    { intros Hin. destruct D as [pre Hpre]. assert (h ∈ order n) as Hin' by (rewrite Hpre; set_solver).
      apply Hd in Hin' as [? ?]. congruence. }
    split_and!.
    + split; simpl; [apply NoDup_app; split_and!; [done|set_solver|apply NoDup_singleton]|].
      intros x. rewrite elem_of_app, list_elem_of_singleton. destruct (decide (x = h)) as [->|Hne];
        [rewrite lookup_insert_eq; split; eauto|rewrite lookup_insert_ne by done; rewrite <- B; tauto].
    + apply lookup_insert_eq.
    + intros _. rewrite length_app. simpl. lia.
    + intros x Hx Hne. rewrite lookup_insert_ne by done. apply F. set_solver.
    + intros Hlt x Hx. destruct (E Hlt) as [-> ->]. set_solver.
Qed.

(** The operations of the cache, each with the clock it reads. *)
Inductive negOp :=
| NRemember (now : Z) (hash : string)
| NHit (now : Z) (hash : string)
| NForget (hash : string).

Definition runNeg (cfg : lookupGuardConfig) (ops : list negOp) (n : negativeKeyCache) : negativeKeyCache :=
  foldl (fun n op => match op with
    | NRemember now h => rememberNegative cfg now h n
    | NHit now h => (negativeHit cfg now h n).2
    | NForget h => forgetNegative h n
    end) n ops.

Lemma drop_length h n : (length (order (drop h n)) <= length (order n))%nat.
Proof.
  unfold drop. destruct (nEntries n !! h); [|done]. simpl.
  induction (order n) as [|x l IH]; simpl; [done|]. case_decide; simpl; lia.
Qed.

Lemma hit_inv cfg now h n : neg_inv n ->
  neg_inv (negativeHit cfg now h n).2 /\
  (length (order (negativeHit cfg now h n).2) <= length (order n))%nat.
Proof.
  intros Hn. unfold negativeHit. destruct (_ <=? _); [done|].
  destruct (nEntries n !! h); [|done]. destruct (_ <? _); [|done]. simpl.
  split; [by apply drop_inv|apply drop_length].
Qed.

Lemma runNeg_inv cfg ops n :
  1 <= negativeCap cfg -> neg_inv n -> Z.of_nat (length (order n)) <= negativeCap cfg ->
  neg_inv (runNeg cfg ops n) /\ Z.of_nat (length (order (runNeg cfg ops n))) <= negativeCap cfg.
Proof.
  intros Hc. revert n. induction ops as [|op ops IH]; intros n Hn Hl; [done|]. simpl. apply IH.
  - destruct op as [now h|now h|h]; [|apply (hit_inv cfg now h n Hn)|by apply drop_inv].
    destruct (Z.le_gt_cases (negativeTTL cfg) 0); [|by apply remember_spec; try lia].
    unfold rememberNegative. destruct (Z.leb_spec (negativeTTL cfg) 0); [done|lia].
  - destruct op as [now h|now h|h].
    + destruct (Z.le_gt_cases (negativeTTL cfg) 0).
      * unfold rememberNegative. destruct (Z.leb_spec (negativeTTL cfg) 0); [done|lia].
      * destruct (remember_spec cfg now h n) as (_ & _ & H1 & _); [lia|done|done|]. auto.
    + pose proof (proj2 (hit_inv cfg now h n Hn)). lia.
    + pose proof (drop_length h n). unfold forgetNegative. lia.
Qed.

Lemma neg_size n : neg_inv n -> size (nEntries n) = length (order n).
Proof.
  intros [Hnd Hd]. rewrite <- size_dom.
  replace (dom (nEntries n)) with (list_to_set (order n) : gset string).
  - by apply size_list_to_set.
  - apply set_eq. intros h. rewrite elem_of_list_to_set, elem_of_dom. apply Hd.
Qed.

(** The negative cache stays consistent and bounded.  After any sequence of
    its operations the entries and the insertion order hold the same hashes,
    each once, and at most the cap; a hash remembered then is refused without a
    round trip until its time passes and not after, and forgetting it (the key
    now exists) ends the refusal at once. *)
Theorem negative_cache_consistent cfg ops now h :
  0 < negativeTTL cfg -> 1 <= negativeCap cfg ->
  let n := runNeg cfg ops emptyNeg in
  let n' := rememberNegative cfg now h n in
  (negativeShape n).1 = (negativeShape n).2 /\ (negativeShape n).2 <= negativeCap cfg /\
  NoDup (order n) /\ (forall x, x ∈ order n <-> is_Some (nEntries n !! x)) /\
  (forall t, t <= now + negativeTTL cfg -> negativeHit cfg t h n' = (true, n')) /\
  (forall t, now + negativeTTL cfg < t -> negativeHit cfg t h n' = (false, forgetNegative h n')) /\
  (forall t, (negativeHit cfg t h (forgetNegative h n')).1 = false).
Proof.
  intros Ht Hc n n'.
  assert (neg_inv emptyNeg) as H0.
  { split; [constructor|]. intros x. simpl. rewrite lookup_empty.
    split; [by intros ?%not_elem_of_nil|by intros [? ?]]. }
  destruct (runNeg_inv cfg ops emptyNeg Hc H0 ltac:(simpl; lia)) as [Hn Hlen]. fold n in Hn, Hlen.
  destruct (remember_spec cfg now h n Ht Hc Hn) as (Hn' & Hh & _). fold n' in Hn', Hh.
  split_and!; try apply Hn.
  - unfold negativeShape. simpl. by rewrite neg_size.
  - done.
  - intros t Hle. unfold negativeHit. destruct (Z.leb_spec (negativeTTL cfg) 0); [lia|].
    rewrite Hh. destruct (Z.ltb_spec (now + negativeTTL cfg) t); [lia|done].
  - intros t Hgt. unfold negativeHit. destruct (Z.leb_spec (negativeTTL cfg) 0); [lia|].
    rewrite Hh. destruct (Z.ltb_spec (now + negativeTTL cfg) t); [done|lia].
  - intros t. unfold negativeHit, forgetNegative, drop. rewrite Hh. simpl. rewrite lookup_delete_eq.
    by destruct (_ <=? _).
Qed.

(** ** Witnesses *)

Definition demoCfg : lookupGuardConfig := readLookupGuardConfig (fun _ => "").

Definition busyState : gstate :=
  GState (setInflight 1 zeroGuard) [Token 0 false false] [Token 0 false true] 0.

Lemma busyState_reachable : greachable demoCfg busyState.
Proof.
  exists 0. eapply rtc_l; [apply (GPass demoCfg (Token 0 false false) zeroGuard zeroGuard); [done|reflexivity]|].
  eapply rtc_l; [eapply (GAcquire demoCfg (Token 0 false false) (Token 0 false true) zeroGuard
    (setInflight 1 zeroGuard)); [reflexivity|reflexivity]|].
  eapply rtc_l; [apply (GPass demoCfg (Token 0 false false) (setInflight 1 zeroGuard)
    (setInflight 1 zeroGuard)); [done|reflexivity]|].
  apply rtc_refl.
Qed.

Lemma guard_bounds_witness :
  InFlight (snapshot (guard busyState)) = 1 /\ InFlight (snapshot (guard busyState)) <= maxInflight demoCfg.
Proof.
  destruct (guard_bounds_and_single_probe demoCfg busyState) as (H1 & H2 & _).
  - vm_compute. split; [discriminate|reflexivity].
  - vm_compute. discriminate.
  - apply busyState_reachable.
  - split; [exact H1|exact H2].
Defined.

Lemma stale_report_witness :
  circuitFields (report demoCfg 7 (Token 3 true true) resultTimeout true 1 (setInflight 1 zeroGuard))
  = circuitFields zeroGuard.
Proof.
  apply (stale_report_is_inert demoCfg 7 (Token 3 true true) resultTimeout true 1 (setInflight 1 zeroGuard)).
  discriminate.
Defined.

Lemma circuit_life_witness :
  state (Nat.iter 2 (failingRead demoCfg 7) zeroGuard) = circuitClosed /\
  state (Nat.iter 3 (failingRead demoCfg 7) zeroGuard) = circuitOpen.
Proof.
  destruct (circuit_opens_and_recovers demoCfg 7 zeroGuard eq_refl eq_refl
    ltac:(vm_compute; split; reflexivity || discriminate) ltac:(vm_compute; split; reflexivity || discriminate)
    ltac:(vm_compute; split; reflexivity || discriminate)) as (H1 & H2 & _).
  split; [apply (H1 2%nat); reflexivity|exact H2].
Defined.

Lemma negative_cache_witness :
  negativeHit demoCfg 2000000000 "ab" (rememberNegative demoCfg 0 "ab" (runNeg demoCfg [NRemember 0 "cd"] emptyNeg))
  = (true, rememberNegative demoCfg 0 "ab" (runNeg demoCfg [NRemember 0 "cd"] emptyNeg)).
Proof.
  apply (negative_cache_consistent demoCfg [NRemember 0 "cd"] 0 "ab");
    vm_compute; reflexivity || discriminate.
Defined.
