(* ===== verification/Objective.v ===== *)
(** * Objective: objectives and class policies as data

    Models common/ai_objective.go: the names and bounds of classes, the
    objective row, the class policy of a tenant or key and the patch laid over
    one. *)

From S2P Require Import Prelude.

Open Scope Z_scope.
Open Scope igw_scope.

(** ** Classes and objectives *)

Definition AIClassStandard : string := "standard".
Definition AIClassCritical : string := "critical".
Definition AIClassSheddable : string := "sheddable".

Definition AIObjectiveNameMax : nat := 63.
Definition AIObjectiveServicesMax : nat := 256.
Definition AIObjectiveListMax : nat := 64.

Definition AITierObjectivePrefix : string := "tier:".

Definition AITierObjectives : list string :=
  [AITierObjectivePrefix +:+ "priority"; AITierObjectivePrefix +:+ "fast"; AITierObjectivePrefix +:+ "flex"].

Definition IsAITierObjective (name : string) : bool :=
  existsb (fun n => n ==s name) AITierObjectives.

Record AIObjectiveEntry := Objective {
  oName : string;
  oServices : list string;
  oPriority : Z;
  oUpdatedAt : Z
}.

(** [None] is the zero time. *)
Record AIObjectiveList := ObjectiveListOf {
  olObjectives : list AIObjectiveEntry;
  olSource : string;
  olSourceTimestamp : Z;
  olStoreReachable : bool;
  olStoreLastRead : option Z
}.

Record AIClassPolicy := ClassPolicy {
  PriorityClass : string;
  DefaultObjective : string;
  AllowedObjectives : list string
}.

#[export] Instance AIObjectiveEntry_eq_dec : EqDecision AIObjectiveEntry.
Proof. solve_decision. Defined.
#[export] Instance AIClassPolicy_eq_dec : EqDecision AIClassPolicy.
Proof. solve_decision. Defined.

(** The zero value: what a map lookup of a missing row yields. *)
Definition noPolicy : AIClassPolicy := ClassPolicy "" "" [].

Definition policyIsZero (p : AIClassPolicy) : bool :=
  (PriorityClass p ==s "") && (DefaultObjective p ==s "") && (length (AllowedObjectives p) =? 0)%nat.

Record AIClassPatch := ClassPatch {
  ptPriorityClass : option string;
  ptDefaultObjective : option string;
  ptAllowedObjectives : option (list string)
}.

Definition noPatch : AIClassPatch := ClassPatch None None None.

Definition classPatchIsZero (c : AIClassPatch) : bool :=
  match ptPriorityClass c, ptDefaultObjective c, ptAllowedObjectives c with
  | None, None, None => true
  | _, _, _ => false
  end.

Definition Apply (c : AIClassPatch) (base : AIClassPolicy) : AIClassPolicy :=
  ClassPolicy (default (PriorityClass base) (ptPriorityClass c))
              (default (DefaultObjective base) (ptDefaultObjective c))
              (default (AllowedObjectives base) (ptAllowedObjectives c)).

Definition AIClassOfPriority (priority : Z) : string :=
  if priority >? 0 then AIClassCritical
  else if priority <? 0 then AIClassSheddable
  else AIClassStandard.

Definition AIClassSourceStore : string := "store".
Definition AIClassSourceLKG : string := "lkg".
Definition AIClassSourceNone : string := "none".
