(* ===== verification/Common.v ===== *)
(** * Common: the records shared by the key store and the gateway

    The API-key and rate-limit structures of common/common.go and the default
    reservation words of common/ai_reservation.go, as far as the modelled
    components read or write them.  Times are nanoseconds since the Unix epoch. *)

From S2P Require Import Prelude StoreErr Objective.

Open Scope Z_scope.
Open Scope igw_scope.

(** ** API keys *)

Record ApiKeyEntry := KeyEntry {
  eKeyID : string;
  eKeyHash : string;
  eApiKey : string;
  eTenantID : string;
  eName : string;
  eAllowedModels : list string;
  eRateLimitRPS : Z;
  eBurstSize : Z;
  eTokensPerMin : Z;
  eCreatedAt : Z;
  eExpiresAt : option Z;
  eEnabled : bool;
  eClientOpID : string;
  eClass : AIClassPolicy
}.

Record ApiKeySummary := KeySummary {
  sKeyID : string;
  sTenantID : string;
  sName : string;
  sAllowedModels : list string;
  sRateLimitRPS : Z;
  sBurstSize : Z;
  sTokensPerMin : Z;
  sCreatedAt : Z;
  sExpiresAt : option Z;
  sEnabled : bool;
  sClientOpID : string;
  sClass : AIClassPolicy
}.

#[export] Instance ApiKeyEntry_eq_dec : EqDecision ApiKeyEntry.
Proof. solve_decision. Defined.
#[export] Instance ApiKeySummary_eq_dec : EqDecision ApiKeySummary.
Proof. solve_decision. Defined.

(** The fields a PATCH names. *)
Record ApiKeyPatch := KeyPatch {
  pAllowedModels : option (list string);
  pEnabled : option bool;
  pRateLimitRPS : option Z;
  pBurstSize : option Z;
  pTokensPerMin : option Z;
  pClass : AIClassPatch
}.

Definition patchIsZero (p : ApiKeyPatch) : bool :=
  match pAllowedModels p, pEnabled p, pRateLimitRPS p, pBurstSize p, pTokensPerMin p with
  | None, None, None, None, None => classPatchIsZero (pClass p)
  | _, _, _, _, _ => false
  end.

(** What a create answers. *)
Record ApiKeyCreated := KeyCreated { RawKey : string; cKeyID : string; Reused : bool }.

(** ** Rate limits *)

Record ModelRateLimit := ModelLimit { mModel : string; mTokensPerMin : Z }.

Record TenantRateLimitEntry := TenantEntry {
  tTenantID : string;
  tRPS : Z;
  tTokensPerMin : Z;
  tBurstPct : Z;
  tModelLimits : list ModelRateLimit;
  tUpdatedAt : option Z;
  tClass : AIClassPolicy
}.

Record UserRateLimitEntry := UserEntry {
  uTenantID : string;
  uUserID : string;
  uRPS : Z;
  uBurstSize : Z;
  uTokensPerMin : Z;
  uModelLimits : list ModelRateLimit
}.

Definition RateLimitScopeGlobal : string := "global".
Definition RateLimitScopeRule : string := "rule".

Record RateLimitDefaultsEntry := DefaultsEntry {
  dScope : string;
  dRuleIdent : string;
  DefaultUserRPS : Z;
  DefaultUserTPM : Z;
  DefaultTenantRPS : Z;
  DefaultTenantTPM : Z;
  VipSharedRPS : Z;
  VipSharedTPM : Z
}.

#[export] Instance RateLimitDefaultsEntry_eq_dec : EqDecision RateLimitDefaultsEntry.
Proof. solve_decision. Defined.

Definition noDefaults (scope ident : string) : RateLimitDefaultsEntry :=
  DefaultsEntry scope ident 0 0 0 0 0 0.

(** ** What the gateway needs of the key store

    The [rateLimitService] interface of pkg/loxinet/ai_gateway_dp.go.  A read
    answers from cache, store or last-known value, and may change those, so the
    service's state is threaded; an error is a goErr. *)

Class RateLimitService (Svc : Type) := {
  GetTenantRateLimit : string -> Svc -> (Z * Z * Z + goErr) * Svc;
  GetTenantModelRateLimit : string -> string -> Svc -> (Z + goErr) * Svc;
  GetAPIKeyByID : string -> Svc -> (ApiKeySummary + goErr) * Svc;
  GetUserRateLimit : string -> string -> Svc -> (Z * Z * Z + goErr) * Svc;
  GetUserModelRateLimit : string -> string -> string -> Svc -> (Z + goErr) * Svc;
  GetRateLimitDefaults : string -> string -> Svc -> (RateLimitDefaultsEntry * bool + goErr) * Svc
}.

(** The [apiKeyValidator] interface: a credential verdict, or an error. *)
Inductive validateErr := ErrInvalidKey | ErrStore (e : goErr).

Class ApiKeyValidator (Svc : Type) := {
  ValidateAPIKey : string -> Svc -> (ApiKeyEntry + validateErr) * Svc
}.

(** A service whose reads answer from what it already holds: no read changes
    what any read answers.  This is the key store while its caches are warm. *)
Class StableReads (Svc : Type) {R : RateLimitService Svc} : Prop := {
  stable_tenant : forall t s, (GetTenantRateLimit t s).2 = s;
  stable_model : forall t m s, (GetTenantModelRateLimit t m s).2 = s;
  stable_key : forall k s, (GetAPIKeyByID k s).2 = s;
  stable_user : forall t u s, (GetUserRateLimit t u s).2 = s;
  stable_usermodel : forall t u m s, (GetUserModelRateLimit t u m s).2 = s;
  stable_defaults : forall sc i s, (GetRateLimitDefaults sc i s).2 = s
}.

(** ** Default reservation *)

Definition AIDefaultReservationOff : string := "off".
Definition AIDefaultReservationOn : string := "on".
Definition AIDefaultReservationInherit : string := "inherit".
Definition AIDefaultReservationRuleUnset : Z := 0.
Definition AIDefaultReservationRuleOff : Z := 1.
Definition AIDefaultReservationRuleOn : Z := 2.
Definition AIDefaultMaxTokensBuiltin : Z := 512.
Definition AIDefaultMaxTokensMax : Z := 100000000.
Definition AIDefaultReservationEnv : string := "LLB_AI_DEFAULT_RESERVATION".
Definition AIDefaultMaxTokensEnv : string := "LLB_AI_DEFAULT_MAX_TOKENS".
Definition AIDefaultSourceRule : string := "rule".
Definition AIDefaultSourceEnv : string := "env".
Definition AIDefaultSourceDefault : string := "default".

(** [None] is the refusal. *)
Definition AIDefaultReservationToRule (v : string) : option Z :=
  if (v ==s "") || (v ==s AIDefaultReservationInherit) then Some AIDefaultReservationRuleUnset
  else if v ==s AIDefaultReservationOff then Some AIDefaultReservationRuleOff
  else if v ==s AIDefaultReservationOn then Some AIDefaultReservationRuleOn
  else None.

Definition AIDefaultReservationFromRule (m : Z) : string :=
  if m ==? AIDefaultReservationRuleOff then AIDefaultReservationOff
  else if m ==? AIDefaultReservationRuleOn then AIDefaultReservationOn
  else "".

Definition AIDefaultMaxTokensError (v : Z) : bool := v >? AIDefaultMaxTokensMax.

(** [strconv.ParseUint s 10 32]. *)
Definition ParseUint32 (s : string) : option Z :=
  match s with
  | EmptyString => None
  | _ => match parse_digits 0 s with
         | Some v => if v <? 4294967296 then Some v else None
         | None => None
         end
  end.
