(* ===== verification/Admission.v ===== *)
(** * Admission: the AI gateway's admission, reservation and settlement

    Models pkg/loxinet/ai_gateway_dp.go (the ladder of rate and token limits,
    key validation, reservation and settlement, the exports the data plane
    calls), keyStoreVerdict of ai_gateway_policy.go, ai_default_reservation.go
    and ai_reservation_ledger.go.

    The key store is the interface [RateLimitService] over a state [Svc]
    ([None] is the nil service), the limiter store is RateLimit's.  The code's
    early returns are the left side of a state-and-exit monad [M].  Metrics,
    audit records and log lines are not modelled; a recovered panic is not
    either, since no modelled path panics. *)

From S2P Require Import Prelude StoreErr RateLimit RateSync Objective Common.

Open Scope Z_scope.
Open Scope igw_scope.

(** ** Decisions *)

Definition aiDecisionAllow : Z := 0.
Definition aiDecisionDeny401 : Z := 1.
Definition aiDecisionDeny403 : Z := 2.
Definition aiDecisionDeny429 : Z := 3.
Definition aiDecisionDeny503 : Z := 4.
Definition aiErrPolicyStoreNA : string := "policy_store_unavailable".

(** (decision, retrySecs, errorCode) *)
Definition verdict : Type := Z * Z * string.
Definition storeDown : verdict := (aiDecisionDeny503, 5, aiErrPolicyStoreNA).

(** ** Bucket keys *)

Definition modelQuotaKey (tenantID model : string) : string := tenantID +:+ "|" +:+ model.

Record qosDefaults := QosDefaults {
  qUserRPS : Z; qUserTPM : Z; qTenantRPS : Z; qTenantTPM : Z; qVipRPS : Z; qVipTPM : Z
}.
Definition zeroDefaults : qosDefaults := QosDefaults 0 0 0 0 0 0.

Definition override (dst v : Z) : Z := if v >? 0 then v else dst.

Section Admission.
Context {RL : RateLib} {Svc : Type} {RS : RateLimitService Svc} {AV : ApiKeyValidator Svc}.

(** ** The monad: the service, the limiter store, and an early return *)

Definition gst : Type := option Svc * RateLimiterStore.
Definition M (A : Type) : Type := gst -> (verdict + A) * gst.

Definition ret {A} (a : A) : M A := fun s => (inr a, s).
Definition bind {A B} (m : M A) (f : A -> M B) : M B :=
  fun s => match m s with
           | (inl v, s) => (inl v, s)
           | (inr a, s) => f a s
           end.
Definition deny {A} (v : verdict) : M A := fun s => (inl v, s).
Definition gets {A} (f : RateLimiterStore -> A) : M A := fun s => (inr (f s.2), s).
Definition onStore {A} (f : RateLimiterStore -> A * RateLimiterStore) : M A :=
  fun '(svc, s) => let '(a, s) := f s in (inr a, (svc, s)).

(** A read of the service: [dflt] when it is nil. *)
Definition readSvc {A} (dflt : A) (f : Svc -> (A + goErr) * Svc) : M (A + goErr) :=
  fun '(svc, s) =>
    match svc with
    | None => (inr (inl dflt), (None, s))
    | Some v => let '(r, v) := f v in (inr r, (Some v, s))
    end.

Notation "'let*' x := m 'in' k" := (bind m (fun x => k))
  (at level 10, x name, m at level 200, k at level 200).
Notation "'let*' ' p := m 'in' k" := (bind m (fun x => match x with p => k end))
  (at level 10, p pattern, m at level 200, k at level 200).
Notation "m >>> k" := (bind m (fun _ => k)) (at level 60, right associativity).

(** A limit that could not be read fails closed. *)
Definition orDown {A} (r : A + goErr) : M A :=
  match r with inl a => ret a | inr _ => deny storeDown end.

Definition guardM (b : bool) (v : verdict) : M unit := if b then ret tt else deny v.

(** ** Defaults *)

Definition resolveQoSDefaults (svcIdent : string) (svc : option Svc)
  : (qosDefaults + goErr) * option Svc :=
  match svc with
  | None => (inl zeroDefaults, None)
  | Some v =>
      match GetRateLimitDefaults RateLimitScopeGlobal "" v with
      | (inr e, v) => (inr e, Some v)
      | (inl (g, gOK), v) =>
          let d := if gOK : bool
                   then QosDefaults (DefaultUserRPS g) (DefaultUserTPM g) (DefaultTenantRPS g)
                          (DefaultTenantTPM g) (VipSharedRPS g) (VipSharedTPM g)
                   else zeroDefaults in
          if svcIdent ==s "" then (inl d, Some v)
          else
            match GetRateLimitDefaults RateLimitScopeRule svcIdent v with
            | (inr e, v) => (inr e, Some v)
            | (inl (r, rOK), v) =>
                (inl (if rOK : bool
                      then QosDefaults (override (qUserRPS d) (DefaultUserRPS r))
                             (override (qUserTPM d) (DefaultUserTPM r))
                             (override (qTenantRPS d) (DefaultTenantRPS r))
                             (override (qTenantTPM d) (DefaultTenantTPM r))
                             (override (qVipRPS d) (VipSharedRPS r))
                             (override (qVipTPM d) (VipSharedTPM r))
                      else d), Some v)
            end
      end
  end.

Definition defaultsM (svcIdent : string) : M (qosDefaults + goErr) :=
  fun '(svc, s) => let '(r, svc) := resolveQoSDefaults svcIdent svc in (inr r, (svc, s)).

(** ** The admission ladder *)

Section Check.
Context (env : quotaEnv) (now : Z).

(** A limiter check that denies with the given code when it refuses. *)
Definition checkM (f : RateLimiterStore -> (bool * Z) * RateLimiterStore) (code : string) : M unit :=
  let* '(allowed, retry) := onStore f in
  guardM allowed (aiDecisionDeny429, retry, code).

(** A debt latch: consulted only while the quota is configured. *)
Definition latch (tpm : Z) (key : string) : M unit :=
  let* exceeded := gets (fun s => (tpm >? 0) && IsTokenQuotaExceeded env key s) in
  guardM (negb exceeded) (aiDecisionDeny429, 60, "token_quota_exceeded").

Definition warmingGate (anyTPM : bool) : M unit :=
  let* w := gets (fun s => anyTPM && QuotaWarming s) in
  guardM (negb w) (aiDecisionDeny429, 1, "token_quota_warming").

(** Keyless traffic: only the opt-in per-VIP bucket, failing open. *)
Definition keylessArm (svcIdent : string) : M unit :=
  fun s =>
    if (svcIdent ==s "") || match s.1 with None => true | Some _ => false end
    then (inr tt, s)
    else
      (let* rd := defaultsM svcIdent in
       match rd with
       | inr _ => ret tt
       | inl d =>
           (if qVipRPS d >? 0
            then checkM (CheckVipShared now svcIdent (qVipRPS d)) "rate_limit_exceeded"
            else ret tt) >>>
           (if qVipTPM d >? 0
            then warmingGate true >>> latch (qVipTPM d) (VipSharedQuotaKey svcIdent)
            else ret tt)
       end) s.

(** Stage 1: the key's request rate; the result is its token limit. *)
Definition keyStage (keyID : string) : M Z :=
  if keyID ==s "" then ret 0
  else
    let* r := readSvc (KeySummary "" "" "" [] 0 0 0 0 None false "" noPolicy) (GetAPIKeyByID keyID) in
    let* '(keyRPS, keyBurst, keyTPM) := match r with
      | inl key => ret (sRateLimitRPS key, sBurstSize key, sTokensPerMin key)
      | inr e => if isDBUnavailable e then deny storeDown else ret (0, 0, 0)
      end in
    checkM (CheckKey now keyID keyRPS (if keyBurst <=? 0 then keyRPS else keyBurst)) "rate_limit_exceeded" >>>
    ret keyTPM.

(** Stage 1.7: the user's request rate; the result is its token limit. *)
Definition userStage (d : qosDefaults) (tenantID userID : string) : M Z :=
  if (userID ==s "") || (tenantID ==s "") then ret 0
  else
    let* r := readSvc (0, 0, 0) (GetUserRateLimit tenantID userID) in
    let* '(rps, b, tpm) := orDown r in
    let '(userRPS, userBurst) := if rps <=? 0 then (qUserRPS d, 0) else (rps, b) in
    checkM (CheckUser now tenantID userID userRPS userBurst) "user_rate_limit_exceeded" >>>
    ret (if tpm <=? 0 then qUserTPM d else tpm).

(** Stages 2 and 3: the tenant's request rate, then every token latch. *)
Definition tenantStage (d : qosDefaults) (keyID tenantID userID modelName : string) (keyTPM userTPM : Z)
  : M unit :=
  if tenantID ==s "" then ret tt
  else
    let* rt := readSvc (0, 0, 0) (GetTenantRateLimit tenantID) in
    let* '(rps, tpm, _) := orDown rt in
    let tenantRPS := if rps <=? 0 then qTenantRPS d else rps in
    let tenantTPM := if tpm <=? 0 then qTenantTPM d else tpm in
    checkM (CheckTenant now tenantID tenantRPS) "tenant_quota_exceeded" >>>
    let* rm := (if modelName ==s "" then ret (inl 0)
           else readSvc 0 (GetTenantModelRateLimit tenantID modelName)) in
    let* modelTPM := orDown rm in
    let* ru := (if (modelName ==s "") || (userID ==s "") then ret (inl 0)
           else readSvc 0 (GetUserModelRateLimit tenantID userID modelName)) in
    let* userModelTPM := orDown ru in
    warmingGate ((tenantTPM >? 0) || (modelTPM >? 0) || (userTPM >? 0) || (userModelTPM >? 0) || (keyTPM >? 0)) >>>
    latch keyTPM (KeyQuotaKey keyID) >>>
    latch userTPM (UserQuotaKey tenantID userID) >>>
    latch userModelTPM (UserModelQuotaKey tenantID userID modelName) >>>
    latch tenantTPM tenantID >>>
    latch modelTPM (modelQuotaKey tenantID modelName).

Definition ladder (keyID tenantID userID svcIdent modelName : string) : M unit :=
  let* rd := defaultsM svcIdent in
  let* d := orDown rd in
  let* keyTPM := keyStage keyID in
  let* userTPM := userStage d tenantID userID in
  tenantStage d keyID tenantID userID modelName keyTPM userTPM.

Definition noIdentity (keyID tenantID userID : string) : bool :=
  (keyID ==s "") && (tenantID ==s "") && (userID ==s "").

Definition rateLimitCheckInternal (keyID tenantID userID svcIdent modelName : string) (s : gst)
  : verdict * gst :=
  let m :=
    match s.1 with
    | None => if negb (noIdentity keyID tenantID userID) then deny storeDown else keylessArm svcIdent
    | Some _ => if noIdentity keyID tenantID userID then keylessArm svcIdent
                else ladder keyID tenantID userID svcIdent modelName
    end in
  match m s with
  | (inl v, s) => (v, s)
  | (inr _, s) => ((aiDecisionAllow, 0, ""), s)
  end.

End Check.

(** ** Key validation *)

(** (decision, tenantID, keyID, modelOut, errorCode) *)
Definition validateAPIKeyInternal (now : Z) (rawKey modelName : string) (v : Svc)
  : (Z * string * string * string * string) * Svc :=
  if rawKey ==s "" then ((aiDecisionDeny401, "", "", "", "invalid_api_key"), v)
  else
    let '(r, v) := ValidateAPIKey rawKey v in
    (match r with
     | inr ErrInvalidKey => (aiDecisionDeny401, "", "", "", "invalid_api_key")
     | inr (ErrStore _) => (aiDecisionDeny503, "", "", "", aiErrPolicyStoreNA)
     | inl entry =>
         if match eExpiresAt entry with Some t => t <? now | None => false end
         then (aiDecisionDeny401, "", "", "", "invalid_api_key")
         else if (0 <? Z.of_nat (length (eAllowedModels entry))) &&
                 negb (existsb (fun m => m ==s modelName) (eAllowedModels entry))
         then (aiDecisionDeny403, eTenantID entry, eKeyID entry, "", "model_not_allowed")
         else (aiDecisionAllow, eTenantID entry, eKeyID entry, modelName, "")
     end, v).

Definition keyStoreVerdict (store : option Svc) : Z * string * bool :=
  match store with
  | None => (aiDecisionDeny503, aiErrPolicyStoreNA, false)
  | Some _ => (aiDecisionAllow, "", true)
  end.

(** ** The buckets of a request *)

Record quotaBucket := Bucket { bKey : string; bTpm : Z; bBurstPct : Z; bKind : string }.

Definition FcResvBucketTenant : string := "tenant".
Definition FcResvBucketTenantModel : string := "tenant_model".
Definition FcResvBucketUser : string := "user".
Definition FcResvBucketUserModel : string := "user_model".
Definition FcResvBucketKey : string := "key".
Definition FcResvBucketService : string := "service".

(** A bucket exists only with a positive limit. *)
Definition bucketIf (key : string) (tpm pct : Z) (kind : string) : list quotaBucket :=
  if tpm >? 0 then [Bucket key tpm pct kind] else [].

(** Reads inside [quotaBucketsFor] tolerate errors. *)
Definition tenantBuckets (d : qosDefaults) (tenantID modelName : string) (v : Svc)
  : (list quotaBucket * Z) * Svc :=
  if tenantID ==s "" then (([], 0), v)
  else
    let '(rt, v) := GetTenantRateLimit tenantID v in
    let '(tpm, pct) := match rt with inl (_, t, b) => (t, b) | inr _ => (0, 0) end in
    let tpm := if tpm <=? 0 then qTenantTPM d else tpm in
    let agg := bucketIf tenantID tpm pct FcResvBucketTenant in
    if modelName ==s "" then ((agg, pct), v)
    else
      let '(rm, v) := GetTenantModelRateLimit tenantID modelName v in
      let mTPM := match rm with inl t => t | inr _ => 0 end in
      ((agg ++ bucketIf (modelQuotaKey tenantID modelName) mTPM pct FcResvBucketTenantModel, pct), v).

Definition userBuckets (d : qosDefaults) (tenantID modelName userID : string) (pct : Z) (v : Svc)
  : list quotaBucket * Svc :=
  if (userID ==s "") || (tenantID ==s "") then ([], v)
  else
    let '(ru, v) := GetUserRateLimit tenantID userID v in
    let tpm := match ru with inl (_, _, t) => t | inr _ => 0 end in
    let tpm := if tpm <=? 0 then qUserTPM d else tpm in
    let agg := bucketIf (UserQuotaKey tenantID userID) tpm pct FcResvBucketUser in
    if modelName ==s "" then (agg, v)
    else
      let '(rm, v) := GetUserModelRateLimit tenantID userID modelName v in
      let umTPM := match rm with inl t => t | inr _ => 0 end in
      (agg ++ bucketIf (UserModelQuotaKey tenantID userID modelName) umTPM pct FcResvBucketUserModel, v).

Definition keyBuckets (keyID : string) (pct : Z) (v : Svc) : list quotaBucket * Svc :=
  if keyID ==s "" then ([], v)
  else
    let '(rk, v) := GetAPIKeyByID keyID v in
    (match rk with
     | inl key => bucketIf (KeyQuotaKey keyID) (sTokensPerMin key) pct FcResvBucketKey
     | inr _ => []
     end, v).

Definition quotaBucketsFor (tenantID modelName userID keyID svcIdent : string) (svc : option Svc)
  : list quotaBucket * option Svc :=
  match svc with
  | None => ([], None)
  | Some v =>
      let '(rd, svc) := resolveQoSDefaults svcIdent (Some v) in
      let d := match rd with inl d => d | inr _ => zeroDefaults end in
      let v := default v svc in
      let '((tb, pct), v) := tenantBuckets d tenantID modelName v in
      let '(ub, v) := userBuckets d tenantID modelName userID pct v in
      let '(kb, v) := keyBuckets keyID pct v in
      let vb := if svcIdent ==s "" then []
                else bucketIf (VipSharedQuotaKey svcIdent) (qVipTPM d) 0 FcResvBucketService in
      (tb ++ ub ++ kb ++ vb, Some v)
  end.

Definition quotaReleaseKeysFor (tenantID modelName userID keyID svcIdent : string) : list string :=
  (if tenantID ==s "" then []
   else tenantID ::
        (if modelName ==s "" then [] else [modelQuotaKey tenantID modelName]) ++
        (if userID ==s "" then []
         else UserQuotaKey tenantID userID ::
              (if modelName ==s "" then [] else [UserModelQuotaKey tenantID userID modelName]))) ++
  (if keyID ==s "" then [] else [KeyQuotaKey keyID]) ++
  (if svcIdent ==s "" then [] else [VipSharedQuotaKey svcIdent]).

(** ** The reservation ledger of a service (ai_reservation_ledger.go) *)

Definition aiResvBucketsMax : Z := 4096.
Definition FcResvHeldMax : nat := 64.

Record aiResvService := ResvService {
  svBuckets : gmap string string;
  svN : Z;
  svMissed : bool
}.

Definition emptyResv : aiResvService := ResvService ∅ 0 false.
Definition resvLedger : Type := gmap string aiResvService.

Definition noteReservedBucket (svcIdent : string) (b : quotaBucket) (l : resvLedger) : resvLedger :=
  if (svcIdent ==s "") || (bKey b ==s "") then l
  else
    let s := default emptyResv (l !! svcIdent) in
    let s' :=
      match svBuckets s !! bKey b with
      | Some _ => s
      | None =>
          if svN s >=? aiResvBucketsMax then ResvService (svBuckets s) (svN s) true
          else ResvService (<[bKey b := bKind b]> (svBuckets s)) (svN s + 1) (svMissed s)
      end in
    <[svcIdent := s']> l.

(** One line of the read-back. *)
Record FcResvHeldArg := HeldArg { hKind : string; hBucket : string; hTokens : Z }.

Record resvReadback := Readback {
  ReservationEpoch : Z;
  ReservationHeldClaims : Z;
  ReservationHeldTruncated : bool;
  ReservationHeld : list FcResvHeldArg
}.

(** Largest first, then by bucket. *)
Definition heldBefore (a b : FcResvHeldArg) : bool :=
  if negb (hTokens a ==? hTokens b) then hTokens a >? hTokens b
  else String.ltb (hBucket a) (hBucket b).

Fixpoint insertHeld (a : FcResvHeldArg) (l : list FcResvHeldArg) : list FcResvHeldArg :=
  match l with
  | [] => [a]
  | b :: l => if heldBefore b a then b :: insertHeld a l else a :: b :: l
  end.

Definition sortHeld (l : list FcResvHeldArg) : list FcResvHeldArg := foldr insertHeld [] l.

(** What one remembered bucket adds to the read-back. *)
Definition heldOf (env : quotaEnv) (store : RateLimiterStore) (kv : string * string)
  : option FcResvHeldArg * Z :=
  let '(tokens, nclaims, exists_) := ReservedNow env kv.1 store in
  (if exists_ && (tokens >? 0) then Some (HeldArg kv.2 kv.1 tokens) else None,
   if exists_ && (nclaims >? 0) then nclaims else 0).

Definition bucketGone (env : quotaEnv) (store : RateLimiterStore) (key : string) : bool :=
  negb (ReservedNow env key store).2.

Definition fillReservationsHeld (env : quotaEnv) (store : RateLimiterStore) (svcIdent : string) (l : resvLedger)
  : resvReadback * resvLedger :=
  let none := Readback (QuotaEpoch env) 0 false [] in
  if svcIdent ==s "" then (none, l)
  else
    match l !! svcIdent with
    | None => (none, l)
    | Some s =>
        let rows := map_to_list (svBuckets s) in
        let held := sortHeld (omap (fun kv => (heldOf env store kv).1) rows) in
        let nclaims := foldr Z.add 0 ((fun kv => (heldOf env store kv).2) <$> rows) in
        let kept := filter (fun '(k, _) => bucketGone env store k = false) (svBuckets s) in
        let n := svN s - (Z.of_nat (size (svBuckets s)) - Z.of_nat (size kept)) in
        let missed := svMissed s in
        let s' := ResvService kept n (if missed && (n <? aiResvBucketsMax) then false else missed) in
        (if (FcResvHeldMax <? length held)%nat
         then Readback (QuotaEpoch env) nclaims true (take FcResvHeldMax held)
         else Readback (QuotaEpoch env) nclaims missed held,
         <[svcIdent := s']> l)
    end.

(** ** Reservation across the ladder *)

Section Reserve.
Context (env : quotaEnv).

Definition releaseAll (keys : list string) (amt resEpoch : Z) (s : RateLimiterStore) : RateLimiterStore :=
  foldl (fun s k => ReleaseReservation k amt resEpoch s) s keys.

(** The claim loop: [taken] are the keys claimed so far, oldest first. *)
Fixpoint reserveLoop (svcIdent : string) (want : Z) (bs : list quotaBucket) (taken : list string)
  (resEpoch : Z) (s : RateLimiterStore) (l : resvLedger)
  : (bool * Z * Z) * RateLimiterStore * resvLedger :=
  match bs with
  | [] => ((true, 0, resEpoch), s, l)
  | b :: bs =>
      let '((allowed, retry, ep), s) := ReserveTokens env (bKey b) want (bTpm b) (bBurstPct b) s in
      if negb allowed then ((false, retry, 0), releaseAll taken want resEpoch s, l)
      else reserveLoop svcIdent want bs (taken ++ [bKey b]) (if resEpoch ==? 0 then ep else resEpoch) s
             (if ep !=? 0 then noteReservedBucket svcIdent b l else l)
  end.

Definition tokenQuotaReserveInternal (tenantID modelName userID keyID svcIdent : string) (want : Z)
  (svc : option Svc) (s : RateLimiterStore) (l : resvLedger)
  : (bool * Z * Z) * option Svc * RateLimiterStore * resvLedger :=
  if (want <=? 0) || ((tenantID ==s "") && (svcIdent ==s "")) then ((true, 0, 0), svc, s, l)
  else
    let '(buckets, svc) := quotaBucketsFor tenantID modelName userID keyID svcIdent svc in
    match buckets with
    | [] => ((true, 0, 0), svc, s, l)
    | _ => let '(r, s, l) := reserveLoop svcIdent want buckets [] 0 s l in (r, svc, s, l)
    end.

(** *** The elastic ladder *)

Inductive resvClamp := resvClampNone | resvClampBudget | resvClampBurst.

#[global] Instance resvClamp_eq_dec : EqDecision resvClamp.
Proof. solve_decision. Defined.

Definition releaseHeld (held : list (string * Z)) (resEpoch : Z) (s : RateLimiterStore) : RateLimiterStore :=
  foldl (fun s '(k, amt) => ReleaseReservation k amt resEpoch s) s held.

(** [held] are the claims taken so far, oldest first; the result is the denial
    or what is left of the elastic part, the claims and the epoch tag. *)
Fixpoint elasticLoop (svcIdent : string) (firm remaining : Z) (bs : list quotaBucket) (held : list (string * Z))
  (resEpoch : Z) (s : RateLimiterStore) (l : resvLedger)
  : (Z + Z * list (string * Z) * Z) * RateLimiterStore * resvLedger :=
  match bs with
  | [] => (inr (remaining, held, resEpoch), s, l)
  | b :: bs =>
      let '((allowed, retry, ep, g), s) :=
        ReserveTokensElastic env (bKey b) firm remaining (bTpm b) (bBurstPct b) s in
      if negb allowed then (inl retry, releaseHeld held resEpoch s, l)
      else elasticLoop svcIdent firm (Z.min remaining (Z.max (i64 (g - firm)) 0)) bs (held ++ [(bKey b, g)])
             (if resEpoch ==? 0 then ep else resEpoch) s
             (if ep !=? 0 then noteReservedBucket svcIdent b l else l)
  end.

(** Every bucket that granted more than the ladder kept gives the difference back. *)
Definition trimHeld (granted : Z) (held : list (string * Z)) (resEpoch : Z) (s : RateLimiterStore)
  : RateLimiterStore :=
  foldl (fun s '(k, h) =>
    if h >? granted then
      if granted ==? 0 then ReleaseReservation k h resEpoch s
      else TrimReservation k (i64 (h - granted)) resEpoch s
    else s) s held.

Definition overBurst (firm elastic : Z) (bs : list quotaBucket) : bool :=
  existsb (fun b => let burst := BurstTokens env (bTpm b) (bBurstPct b) in
                    (burst >? 0) && (i64 (firm + elastic) >? burst)) bs.

(** (allowed, retrySecs, resEpoch, granted, why) *)
Definition tokenQuotaReserveElasticReason (tenantID modelName userID keyID svcIdent : string)
  (firm elastic : Z) (svc : option Svc) (s : RateLimiterStore) (l : resvLedger)
  : (bool * Z * Z * Z * resvClamp) * option Svc * RateLimiterStore * resvLedger :=
  let firm := if firm <? 0 then 0 else firm in
  if elastic <=? 0 then
    let '((allowed, retry, ep), svc, s, l) :=
      tokenQuotaReserveInternal tenantID modelName userID keyID svcIdent firm svc s l in
    ((allowed, retry, ep, if allowed && (ep !=? 0) then firm else 0, resvClampNone), svc, s, l)
  else if (tenantID ==s "") && (svcIdent ==s "") then ((true, 0, 0, 0, resvClampNone), svc, s, l)
  else
    let '(buckets, svc) := quotaBucketsFor tenantID modelName userID keyID svcIdent svc in
    match buckets with
    | [] => ((true, 0, 0, 0, resvClampNone), svc, s, l)
    | _ =>
        match elasticLoop svcIdent firm elastic buckets [] 0 s l with
        | (inl retry, s, l) => ((false, retry, 0, 0, resvClampNone), svc, s, l)
        | (inr (remaining, held, resEpoch), s, l) =>
            let granted := i64 (firm + remaining) in
            let s := trimHeld granted held resEpoch s in
            let why := if remaining <? elastic
                       then (if overBurst firm elastic buckets then resvClampBurst else resvClampBudget)
                       else resvClampNone in
            if granted ==? 0 then ((true, 0, 0, 0, why), svc, s, l)
            else ((true, 0, resEpoch, granted, why), svc, s, l)
        end
    end.

Definition tokenQuotaReserveElasticInternal (tenantID modelName userID keyID svcIdent : string)
  (firm elastic : Z) (svc : option Svc) (s : RateLimiterStore) (l : resvLedger)
  : (bool * Z * Z * Z * bool) * option Svc * RateLimiterStore * resvLedger :=
  let '((a, r, ep, g, why), svc, s, l) :=
    tokenQuotaReserveElasticReason tenantID modelName userID keyID svcIdent firm elastic svc s l in
  ((a, r, ep, g, bool_decide (why <> resvClampNone)), svc, s, l).

(** ** Settlement *)

Definition tokenQuotaReleaseInternal (tenantID modelName userID keyID svcIdent : string)
  (reservedAmt resEpoch : Z) (s : RateLimiterStore) : RateLimiterStore :=
  if reservedAmt <=? 0 then s
  else releaseAll (quotaReleaseKeysFor tenantID modelName userID keyID svcIdent) reservedAmt resEpoch s.

(** The charge loop: (allowed, retrySecs, settledPrimary). *)
Fixpoint chargeLoop (primaryKey : string) (count : Z) (bs : list quotaBucket) (acc : bool * Z * bool)
  (s : RateLimiterStore) : (bool * Z * bool) * RateLimiterStore :=
  match bs with
  | [] => (acc, s)
  | b :: bs =>
      let '(allowed, retry, primary) := acc in
      let '((ok, r), s) := SettleTokens env (bKey b) count 0 0 (bTpm b) (bBurstPct b) s in
      let primary := primary || (bKey b ==s primaryKey) in
      chargeLoop primaryKey count bs
        (if negb ok then (false, Z.max retry r, primary) else (allowed, retry, primary)) s
  end.

Definition tokenQuotaConsumeInternal (tenantID modelName userID keyID svcIdent : string)
  (count reservedAmt resEpoch : Z) (svc : option Svc) (s : RateLimiterStore)
  : (bool * Z) * option Svc * RateLimiterStore :=
  if (tenantID ==s "") && (svcIdent ==s "") then ((true, 0), svc, s)
  else
    let '(buckets, svc) := quotaBucketsFor tenantID modelName userID keyID svcIdent svc in
    if (reservedAmt <=? 0) && ((count <=? 0) || match buckets with [] => true | _ => false end)
    then ((true, 0), svc, s)
    else
      let s := tokenQuotaReleaseInternal tenantID modelName userID keyID svcIdent reservedAmt resEpoch s in
      let primaryKey := if tenantID ==s "" then VipSharedQuotaKey svcIdent else tenantID in
      let '((allowed, retry, settled), s) := chargeLoop primaryKey count buckets (true, 0, false) s in
      if negb settled then
        let '((ok, r), s) := SettleTokens env primaryKey count 0 0 0 0 s in
        ((if negb ok then (false, Z.max retry r) else (allowed, retry)), svc, s)
      else ((allowed, retry), svc, s).

End Reserve.

End Admission.
