(* ===== verification/Gateway.v ===== *)
(** * Gateway: the exports the data plane calls, and their process state

    Models the //export functions of pkg/loxinet/ai_gateway_dp.go over the
    process state they share (the key service, the global limiter store, the
    reservation ledger, the clamp counters and the per-model stream counters),
    the scrape-time quota series, and the default reservation of
    ai_default_reservation.go. *)

From S2P Require Import Prelude StoreErr RateLimit RateSync Common Admission.

Open Scope Z_scope.
Open Scope igw_scope.

(** ** C integers and strings *)

Definition i32 (z : Z) : Z := (z + 2147483648) mod 4294967296 - 2147483648.
Definition in_i32 (z : Z) : Prop := - 2147483648 <= z < 2147483648.

Lemma i32_id z : in_i32 z -> i32 z = z.
Proof. unfold in_i32, i32. intros. rewrite Z.mod_small; lia. Qed.

Arguments i32 : simpl never.

(** At most [maxLen - 1] bytes are written; an empty source writes nothing. *)
Definition cCopyStr (dst src : string) (maxLen : nat) : string :=
  if (src ==s "") || (maxLen =? 0)%nat then dst else String.substring 0 (maxLen - 1) src.

Record ai_gw_decision_t := Decision {
  decision : Z;
  retry_after : Z;
  error_code : string;
  tenant_id : string;
  key_id : string;
  model_name : string
}.

Definition zeroDecision : ai_gw_decision_t := Decision 0 0 "" "" "" "".

Definition denied (d retry : Z) (code : string) (r : ai_gw_decision_t) : ai_gw_decision_t :=
  Decision d retry (cCopyStr (error_code r) code 64) (tenant_id r) (key_id r) (model_name r).

(** ** The scrape-time quota series *)

Record TokenQuotaState := QuotaState {
  tsScope : string; tsTenant : string; tsUser : string; tsModel : string;
  tsKeyID : string; tsService : string; tsConsumed : Z; tsLimit : Z
}.

Definition scopedTokenQuotaState (u : TokenQuotaUsage) : option TokenQuotaState :=
  let id := TenantID u in
  if HasPrefix id "uq:" then
    match SplitByte pipe (TrimPrefix id "uq:") with
    | [t; us] => Some (QuotaState "user" t us "" "" "" (Consumed u) (Limit u))
    | _ => None
    end
  else if HasPrefix id "um:" then
    match SplitByte pipe (TrimPrefix id "um:") with
    | [t; us; md] => Some (QuotaState "user_model" t us md "" "" (Consumed u) (Limit u))
    | _ => None
    end
  else if HasPrefix id "kq:" then
    let kid := TrimPrefix id "kq:" in
    if (kid ==s "") || ContainsByte pipe kid then None
    else Some (QuotaState "key" "" "" "" kid "" (Consumed u) (Limit u))
  else if HasPrefix id "v:" then
    let sv := TrimPrefix id "v:" in
    if sv ==s "" then None
    else Some (QuotaState "vip" "" "" "" "" sv (Consumed u) (Limit u))
  else None.

Definition tokenQuotaState (u : TokenQuotaUsage) : option TokenQuotaState :=
  match scopedTokenQuotaState u with
  | Some st => Some st
  | None =>
      if HasReservedScopePrefix (TenantID u) then None
      else let '(tenant, model) :=
             match CutByte pipe (TenantID u) with
             | Some (l, r) => (l, r)
             | None => (TenantID u, "")
             end in
           Some (QuotaState "" tenant "" model "" "" (Consumed u) (Limit u))
  end.

Definition tokenQuotaStatesFrom (us : list TokenQuotaUsage) : list TokenQuotaState :=
  omap tokenQuotaState us.

(** ** Default reservation of a rule *)

Record aiDefaultResv := DefaultResv { dMode : Z; dMaxTokens : Z }.

(** The service argument's fields, and the stored rule's value on a replace. *)
Record lbDefaultResvArg := ResvArg {
  argReservation : string;
  argReservationPresent : bool;
  argMaxTokens : Z;
  argMaxTokensPresent : bool
}.

Definition aiDefaultResvResolve (eRule : option aiDefaultResv) (serv : lbDefaultResvArg)
  : option aiDefaultResv :=
  match AIDefaultReservationToRule (argReservation serv) with
  | None => None
  | Some mode =>
      if AIDefaultMaxTokensError (argMaxTokens serv) then None
      else Some
        match eRule with
        | None => DefaultResv mode (argMaxTokens serv)
        | Some old =>
            DefaultResv
              (if negb (argReservationPresent serv) && (argReservation serv ==s "") then dMode old else mode)
              (if negb (argMaxTokensPresent serv) && (argMaxTokens serv ==? 0) then dMaxTokens old
               else argMaxTokens serv)
        end
  end.

(** (on, tokens, modeSrc, tokensSrc) *)
Definition inForce (getenv : string -> string) (c : aiDefaultResv) : bool * Z * string * string :=
  let '(on, modeSrc) :=
    if dMode c ==? AIDefaultReservationRuleOn then (true, AIDefaultSourceRule)
    else if dMode c ==? AIDefaultReservationRuleOff then (false, AIDefaultSourceRule)
    else if getenv AIDefaultReservationEnv ==s AIDefaultReservationOn then (true, AIDefaultSourceEnv)
    else if getenv AIDefaultReservationEnv ==s AIDefaultReservationOff then (false, AIDefaultSourceEnv)
    else (false, AIDefaultSourceDefault) in
  let '(tokens, tokensSrc) :=
    if dMaxTokens c !=? 0 then (dMaxTokens c, AIDefaultSourceRule)
    else match ParseUint32 (getenv AIDefaultMaxTokensEnv) with
         | Some v => if (1 <=? v) && (v <=? AIDefaultMaxTokensMax)
                     then (v, AIDefaultSourceEnv)
                     else (AIDefaultMaxTokensBuiltin, AIDefaultSourceDefault)
         | None => (AIDefaultMaxTokensBuiltin, AIDefaultSourceDefault)
         end in
  (on, if negb on then 0 else tokens, modeSrc, tokensSrc).

Definition tokensInForce (getenv : string -> string) (c : aiDefaultResv) : Z :=
  (inForce getenv c).1.1.2.

(** ** Process state *)

Section Gateway.
Context {RL : RateLib} {Svc : Type} {RS : RateLimitService Svc} {AV : ApiKeyValidator Svc}.

Record gateway := Gw {
  AIKeyService : option Svc;
  globalRL : RateLimiterStore;
  aiResvLedger : resvLedger;
  aiReservationClamped : gmap string (Z * Z);   (* service -> (budget, burst) *)
  activeSSECounters : gmap string Z
}.

Definition quotaWarmupTimeout (getenv : string -> string) : Z :=
  let ms := match getenv "LLB_AI_QUOTA_WARMUP_MS" with
            | EmptyString => 3000
            | v => match ParseInt v with
                   | Some n => if 0 <=? n then n else 3000
                   | None => 3000
                   end
            end in
  i64 (ms * 1000000).

(** The first use of the store: warm from peers when there are any. *)
Definition getGlobalRL (getenv : string -> string) (peers : nat) : RateLimiterStore :=
  let warmup := quotaWarmupTimeout getenv in
  if (warmup >? 0) && (0 <? peers)%nat then StartQuotaWarmup warmup true New else New.

Definition noteReservationClamped (svcIdent : string) (why : resvClamp) (m : gmap string (Z * Z))
  : gmap string (Z * Z) :=
  let '(bud, bur) := default (0, 0) (m !! svcIdent) in
  match why with
  | resvClampNone => m
  | resvClampBudget => <[svcIdent := (u64 (bud + 1), bur)]> m
  | resvClampBurst => <[svcIdent := (bud, u64 (bur + 1))]> m
  end.

Definition reservationClampedCount (svcIdent : string) (why : resvClamp) (m : gmap string (Z * Z)) : Z :=
  match why, m !! svcIdent with
  | resvClampBudget, Some (bud, _) => bud
  | resvClampBurst, Some (_, bur) => bur
  | _, _ => 0
  end.

(** ** The exports *)

Definition setSvcStore (v : option Svc) (s : RateLimiterStore) (g : gateway) : gateway :=
  Gw v s (aiResvLedger g) (aiReservationClamped g) (activeSSECounters g).

Definition llb_ai_validate_key (now : Z) (rawKey modelName : string) (result : option ai_gw_decision_t)
  (g : gateway) : Z * option ai_gw_decision_t * gateway :=
  match result with
  | None => (-1, None, g)
  | Some _ =>
      match AIKeyService g with
      | None =>
          let '(d, code, _) := keyStoreVerdict (@None Svc) in
          (-1, Some (denied d 0 code zeroDecision), g)
      | Some v =>
          let '((d, tenant, key, modelOut, code), v) := validateAPIKeyInternal now rawKey modelName v in
          let r := Decision d 0 "" (cCopyStr "" tenant 128) (cCopyStr "" key 64) "" in
          let g := setSvcStore (Some v) (globalRL g) g in
          if d ==? aiDecisionAllow
          then (0, Some (Decision d 0 "" (tenant_id r) (key_id r) (cCopyStr "" modelOut 128)), g)
          else (-1, Some (Decision d 0 (cCopyStr "" code 64) (tenant_id r) (key_id r) ""), g)
      end
  end.

Definition llb_ai_ratelimit_check (env : quotaEnv) (now : Z)
  (keyID tenantID userID svcIdent model : string) (result : option ai_gw_decision_t) (g : gateway)
  : Z * option ai_gw_decision_t * gateway :=
  match result with
  | None => (-1, None, g)
  | Some r =>
      let '((d, retry, code), (v, s)) :=
        rateLimitCheckInternal env now keyID tenantID userID svcIdent model (AIKeyService g, globalRL g) in
      let g := setSvcStore v s g in
      if d !=? aiDecisionAllow then (-1, Some (denied d (i32 retry) code r), g) else (0, Some r, g)
  end.

(** (ret, resEpoch, granted, result) *)
Definition llb_ai_token_quota_reserve (env : quotaEnv)
  (tenantID modelName userID keyID svcIdent : string) (promptEst maxTokens defaultTokens : Z)
  (result : ai_gw_decision_t) (g : gateway) : Z * Z * Z * ai_gw_decision_t * gateway :=
  let want := (if promptEst >? 0 then promptEst else 0) + (if maxTokens >? 0 then maxTokens else 0) in
  let elastic := if (maxTokens <=? 0) && (defaultTokens >? 0) then defaultTokens else 0 in
  if ((want <=? 0) && (elastic <=? 0)) || ((tenantID ==s "") && (svcIdent ==s ""))
  then (0, 0, 0, result, g)
  else
    let '((allowed, retry, epoch, held, clamped), v, s, l) :=
      tokenQuotaReserveElasticReason env tenantID modelName userID keyID svcIdent want elastic
        (AIKeyService g) (globalRL g) (aiResvLedger g) in
    if negb allowed then
      (-1, 0, 0, denied aiDecisionDeny429 (i32 retry) "token_quota_would_exceed" result,
       Gw v s l (aiReservationClamped g) (activeSSECounters g))
    else
      (0, epoch, i32 held, result,
       Gw v s l (noteReservationClamped svcIdent clamped (aiReservationClamped g)) (activeSSECounters g)).

Definition llb_ai_token_quota_release (tenantID modelName userID keyID svcIdent : string)
  (reservedToks resEpoch : Z) (g : gateway) : gateway :=
  setSvcStore (AIKeyService g)
    (tokenQuotaReleaseInternal tenantID modelName userID keyID svcIdent reservedToks resEpoch (globalRL g)) g.

Definition llb_ai_token_quota_consume (env : quotaEnv)
  (tenantID modelName userID keyID svcIdent : string) (promptTokens completTokens reservedToks resEpoch : Z)
  (result : ai_gw_decision_t) (g : gateway) : Z * ai_gw_decision_t * gateway :=
  let count := promptTokens + completTokens in
  if ((tenantID ==s "") && (svcIdent ==s "")) || ((count <=? 0) && (reservedToks <=? 0))
  then (0, result, g)
  else
    let '((allowed, retry), v, s) :=
      tokenQuotaConsumeInternal env tenantID modelName userID keyID svcIdent count reservedToks resEpoch
        (AIKeyService g) (globalRL g) in
    let g := setSvcStore v s g in
    if negb allowed
    then (-1, denied aiDecisionDeny429 (i32 retry) "token_quota_exceeded" result, g)
    else (0, result, g).

Definition llb_ai_ratelimit_update (now : Z) (keyID tenantID : string) (rps burst : Z) (g : gateway)
  : Z * gateway :=
  let s := globalRL g in
  let s := if keyID ==s "" then s else UpdateKey now keyID rps burst s in
  let s := if tenantID ==s "" then s else UpdateTenant now tenantID rps s in
  (0, setSvcStore (AIKeyService g) s g).

(** *** In-flight streams *)

Definition getSSECounter (model : string) (m : gmap string Z) : Z := default 0 (m !! model).

Definition setSSE (m : gmap string Z) (g : gateway) : gateway :=
  Gw (AIKeyService g) (globalRL g) (aiResvLedger g) (aiReservationClamped g) m.

Definition llb_ai_stream_start (model : string) (g : gateway) : Z * gateway :=
  let m := activeSSECounters g in
  (0, setSSE (<[model := i64 (getSSECounter model m + 1)]> m) g).

Definition llb_ai_stream_end (model : string) (g : gateway) : Z * gateway :=
  let m := activeSSECounters g in
  let cur := getSSECounter model m in
  if cur <=? 0 then (1, setSSE (<[model := cur]> m) g)
  else (0, setSSE (<[model := i64 (cur - 1)]> m) g).

Definition AiInFlightStreamsTotal (g : gateway) : Z :=
  map_fold (fun _ n acc => i64 (acc + n)) 0 (activeSSECounters g).

End Gateway.
