(* ===== verification/Identity.v ===== *)
(** * Identity: the identities a bucket key is composed from

    Models ValidateQoSIdentity of pkg/aikey/qos_ladder.go, the check every
    configuration write and the claims mapper make, and proves what it is for:
    bucket keys composed from validated identities never alias, across scopes
    and within one, and a request's release keys are pairwise distinct. *)

From S2P Require Import Prelude StoreErr RateLimit RateSync Common Admission.

Open Scope Z_scope.
Open Scope igw_scope.

(** [true] is the nil error. *)
Definition ValidateQoSIdentity (id : string) : bool :=
  negb (ContainsByte pipe id) && negb (HasReservedScopePrefix id).

(** What a bucket is a bucket of. *)
Inductive quotaScope :=
| ScTenant (t : string)
| ScTenantModel (t m : string)
| ScUser (t u : string)
| ScUserModel (t u m : string)
| ScKey (k : string)
| ScVip (svc : string).

Definition scopeKey (sc : quotaScope) : string :=
  match sc with
  | ScTenant t => t
  | ScTenantModel t m => modelQuotaKey t m
  | ScUser t u => UserQuotaKey t u
  | ScUserModel t u m => UserModelQuotaKey t u m
  | ScKey k => KeyQuotaKey k
  | ScVip v => VipSharedQuotaKey v
  end.

(** The identities the scope is composed from were validated. *)
Definition scopeValid (sc : quotaScope) : bool :=
  match sc with
  | ScTenant t | ScTenantModel t _ => ValidateQoSIdentity t
  | ScUser t u | ScUserModel t u _ => ValidateQoSIdentity t && ValidateQoSIdentity u
  | ScKey _ | ScVip _ => true
  end.

Lemma valid_pipe id : ValidateQoSIdentity id = true -> ContainsByte pipe id = false.
Proof. unfold ValidateQoSIdentity. by destruct (ContainsByte pipe id). Qed.

Lemma valid_prefix id p r :
  ValidateQoSIdentity id = true -> p ∈ ReservedIdentityScopePrefixes -> id <> p +:+ r.
Proof.
  unfold ValidateQoSIdentity, HasReservedScopePrefix. intros [_ H]%andb_true_iff Hp ->.
  apply negb_true_iff in H. assert (existsb (HasPrefix (p +:+ r)) ReservedIdentityScopePrefixes = true); [|congruence].
  apply existsb_exists. exists p. split; [by apply list_elem_of_In|apply prefix_app].
Qed.

(** A prefix without the delimiter is a prefix of what comes before it. *)
Lemma prefix_before_pipe p r a b :
  ContainsByte pipe p = false -> p +:+ r = a +:+ String pipe b -> ContainsByte pipe a = false ->
  exists r', a = p +:+ r'.
Proof.
  revert a. induction p as [|c p IH]; intros a Hp Heq Ha; [by exists a|].
  simpl in Hp. apply orb_false_iff in Hp as [Hc Hp].
  destruct a as [|d a]; simpl in Heq; [injection Heq as -> _; by rewrite Ascii.eqb_refl in Hc|].
  injection Heq as -> Heq. simpl in Ha. apply orb_false_iff in Ha as [_ Ha].
  destruct (IH a Hp Heq Ha) as [r' ->]. by exists r'.
Qed.

(** The scope prefix of a key, for the four scopes that carry one. *)
Definition scopePrefix (sc : quotaScope) : option string :=
  match sc with
  | ScTenant _ | ScTenantModel _ _ => None
  | ScUser _ _ => Some "uq:"
  | ScUserModel _ _ _ => Some "um:"
  | ScKey _ => Some "kq:"
  | ScVip _ => Some "v:"
  end.

Lemma scopeKey_prefix sc p : scopePrefix sc = Some p ->
  p ∈ ReservedIdentityScopePrefixes /\ ContainsByte pipe p = false /\ exists r, scopeKey sc = p +:+ r.
Proof.
  destruct sc; simpl; intros [= <-]; (split; [unfold ReservedIdentityScopePrefixes; set_solver|]);
    (split; [reflexivity|]); eexists; reflexivity.
Qed.

Lemma scopeKey_noprefix sc p r :
  scopePrefix sc = None -> scopeValid sc = true -> p ∈ ReservedIdentityScopePrefixes ->
  ContainsByte pipe p = false -> scopeKey sc <> p +:+ r.
Proof.
  intros H Hv Hp Hpp Heq. destruct sc as [t|t m| | | | ]; try done; simpl in *.
  - by eapply valid_prefix.
  - destruct (prefix_before_pipe p r t m Hpp ltac:(done) (valid_pipe _ Hv)) as [r' ->].
    by eapply valid_prefix.
Qed.

(** Two keys with a prefix agree on the prefix. *)
Lemma prefixes_agree sc sc' p p' :
  scopePrefix sc = Some p -> scopePrefix sc' = Some p' -> scopeKey sc = scopeKey sc' -> p = p'.
Proof. destruct sc, sc'; simpl; intros [= <-] [= <-]; done. Qed.

Lemma scopeKey_inj sc sc' :
  scopeValid sc = true -> scopeValid sc' = true -> scopeKey sc = scopeKey sc' -> sc = sc'.
Proof.
  intros V V' E.
  destruct (scopePrefix sc) as [p|] eqn:P, (scopePrefix sc') as [p'|] eqn:P'.
  - assert (p = p') as <- by (by eapply prefixes_agree).
    destruct sc, sc'; simplify_eq/=; repeat match goal with H : _ && _ = true |- _ => apply andb_true_iff in H as [? ?] end.
    + apply (delim_inj pipe) in E as [-> ->]; eauto using valid_pipe.
    + apply (delim_inj pipe) in E as [-> E]; eauto using valid_pipe.
      apply (delim_inj pipe) in E as [-> ->]; eauto using valid_pipe.
    + done.
    + done.
  - destruct (scopeKey_prefix _ _ P) as (H1 & H2 & r & H3). rewrite H3 in E. symmetry in E.
    by apply scopeKey_noprefix in E.
  - destruct (scopeKey_prefix _ _ P') as (H1 & H2 & r & H3). rewrite H3 in E.
    by apply scopeKey_noprefix in E.
  - destruct sc as [t|t m| | | | ], sc' as [t'|t' m'| | | | ]; simplify_eq/=; try done.
    + apply valid_pipe in V. unfold modelQuotaKey in V. change ("|" +:+ m') with (String pipe m') in V.
      by rewrite ContainsByte_mid in V.
    + apply valid_pipe in V'. unfold modelQuotaKey in V'. change ("|" +:+ m) with (String pipe m) in V'.
      by rewrite ContainsByte_mid in V'.
    + apply (delim_inj pipe) in E as [-> ->]; eauto using valid_pipe.
Qed.

(** The scopes of a request, in the order of its release keys. *)
Definition scopesOf (t m u k si : string) : list quotaScope :=
  (if t ==s "" then []
   else ScTenant t :: (if m ==s "" then [] else [ScTenantModel t m]) ++
        (if u ==s "" then [] else ScUser t u :: (if m ==s "" then [] else [ScUserModel t u m]))) ++
  (if k ==s "" then [] else [ScKey k]) ++ (if si ==s "" then [] else [ScVip si]).

Lemma releaseKeys_scopes t m u k si : quotaReleaseKeysFor t m u k si = scopeKey <$> scopesOf t m u k si.
Proof. unfold quotaReleaseKeysFor, scopesOf. by repeat destruct (_ ==s _). Qed.

Lemma scopesOf_NoDup t m u k si : NoDup (scopesOf t m u k si).
Proof.
  unfold scopesOf. repeat destruct (_ ==s _); simpl;
    repeat (apply NoDup_cons_2; [by rewrite ?not_elem_of_cons; split_and?; try apply not_elem_of_nil|]);
    apply NoDup_nil_2.
Qed.

Lemma scopesOf_valid t m u k si :
  ValidateQoSIdentity t = true -> ValidateQoSIdentity u = true ->
  Forall (fun sc => scopeValid sc = true) (scopesOf t m u k si).
Proof.
  intros Ht Hu. unfold scopesOf. repeat destruct (_ ==s _); simpl; repeat constructor; simpl; by rewrite ?Ht, ?Hu.
Qed.

Lemma releaseKeys_NoDup t m u k si :
  ValidateQoSIdentity t = true -> ValidateQoSIdentity u = true ->
  NoDup (quotaReleaseKeysFor t m u k si).
Proof.
  intros Ht Hu. rewrite releaseKeys_scopes. pose proof (scopesOf_valid t m u k si Ht Hu) as Hv.
  apply NoDup_fmap_2_strong; [|apply scopesOf_NoDup]. rewrite Forall_forall in Hv.
  intros x y Hx Hy. apply scopeKey_inj; by apply Hv.
Qed.

(** Bucket keys of validated identities never alias: two scopes with the
    same key are the same scope of the same tenant, user, model, key or service,
    so requests share a bucket only when they share the identity it is for, and
    the release keys of one request are pairwise distinct. *)
Theorem bucket_keys_never_alias sc sc' t m u k si :
  scopeValid sc = true -> scopeValid sc' = true ->
  ValidateQoSIdentity t = true -> ValidateQoSIdentity u = true ->
  (scopeKey sc = scopeKey sc' <-> sc = sc') /\ NoDup (quotaReleaseKeysFor t m u k si).
Proof.
  intros V V' Ht Hu. split; [|by apply releaseKeys_NoDup].
  split; [by apply scopeKey_inj|by intros ->].
Qed.

Lemma never_alias_witness :
  scopeKey (ScUser "acme" "bob") <> scopeKey (ScTenantModel "acme" "bob") /\
  NoDup (quotaReleaseKeysFor "acme" "m" "bob" "k1" "10.0.0.1:80").
Proof.
  destruct (bucket_keys_never_alias (ScUser "acme" "bob") (ScTenantModel "acme" "bob") "acme" "m" "bob" "k1" "10.0.0.1:80"
    eq_refl eq_refl eq_refl eq_refl) as [H1 H2].
  split; [|exact H2]. intros H. apply H1 in H. discriminate H.
Defined.
