(* ===== verification/AdmissionProps.v ===== *)
(** * AdmissionProps: what the admission ladder guarantees

    Theorems on Admission: an unknowable limit never admits an identified
    request, an admitted attributed request has no bucket in debt, key
    validation gives one verdict per condition, bucket keys of validated
    identities never alias, a refused ladder leaves no claim behind, and
    settlement gives back what admission reserved whatever happened to the
    configuration in between. *)

From S2P Require Import Prelude StoreErr RateLimit RateSync QuotaProps Objective Common Admission.

Open Scope Z_scope.
Open Scope igw_scope.

Section AdmissionProps.
Context {RL : RateLib} {Svc : Type} {RS : RateLimitService Svc} {AV : ApiKeyValidator Svc}.
Implicit Types (s : RateLimiterStore) (v : Svc) (g : gst (Svc := Svc)).

(** ** Inversion of the monad *)

Lemma bind_inr {A B} (m : M A) (f : A -> M B) g b g' :
  bind m f g = (inr b, g') -> exists a g1, m g = (inr a, g1) /\ f a g1 = (inr b, g').
Proof. unfold bind. destruct (m g) as [[w|a] g1]; [done|]. eauto. Qed.

Lemma bind_inl {A B} (m : M A) (f : A -> M B) g w g' :
  bind m f g = (inl w, g') ->
  m g = (inl w, g') \/ exists a g1, m g = (inr a, g1) /\ f a g1 = (inl w, g').
Proof. unfold bind. destruct (m g) as [[w'|a] g1]; [left; congruence|]. eauto. Qed.

Lemma orDown_inr {A} (r : A + goErr) g a g' : orDown r g = (inr a, g') -> r = inl a /\ g' = g.
Proof. destruct r; simpl; [intros [= -> ->]; done|done]. Qed.

Lemma readSvc_inr {A} (d : A) f v s r g' :
  readSvc d f (Some v, s) = (inr r, g') -> (f v).2 = v -> r = (f v).1 /\ g' = (Some v, s).
Proof. simpl. destruct (f v) as [r' v']. simpl. intros [= -> <-] ->. done. Qed.

(** The limiter checks leave the quota buckets and the warm-up alone. *)
Definition sameQuota (s s' : RateLimiterStore) : Prop :=
  quotaMap s' = quotaMap s /\ warmState s' = warmState s.

Lemma check_sameQuota now id r b s : sameQuota s (check now id r b s).2.
Proof. unfold check. destruct (Reserve _ _) as [[ok d] l]. by destruct ok; [zcase|]. Qed.

Lemma CheckKey_sameQuota now k r b s : sameQuota s (CheckKey now k r b s).2.
Proof. unfold CheckKey. destruct (_ <=? _); [done|apply check_sameQuota]. Qed.
Lemma CheckUser_sameQuota now t u r b s : sameQuota s (CheckUser now t u r b s).2.
Proof. unfold CheckUser. destruct (_ || _); [done|apply check_sameQuota]. Qed.
Lemma CheckTenant_sameQuota now t r s : sameQuota s (CheckTenant now t r s).2.
Proof. unfold CheckTenant. destruct (_ <=? _); [done|apply check_sameQuota]. Qed.

Lemma sameQuota_exceeded env k s s' :
  sameQuota s s' -> IsTokenQuotaExceeded env k s' = IsTokenQuotaExceeded env k s /\ QuotaWarming s' = QuotaWarming s.
Proof. intros [H1 H2]. unfold IsTokenQuotaExceeded, QuotaWarming. by rewrite H1, H2. Qed.

Lemma checkM_inr f code vo s u g' :
  (forall s0, sameQuota s0 (f s0).2) -> checkM (Svc := Svc) f code (vo, s) = (inr u, g') ->
  exists s', g' = (vo, s') /\ sameQuota s s'.
Proof.
  intros Hf H. unfold checkM in H. apply bind_inr in H as ([ok r] & g1 & H1 & H2).
  unfold onStore in H1. specialize (Hf s). destruct (f s) as [a s1]. injection H1 as -> <-.
  unfold guardM in H2. destruct ok; [|done]. injection H2 as _ <-. eauto.
Qed.

Lemma latch_inr env tpm key vo s u g' :
  latch (Svc := Svc) env tpm key (vo, s) = (inr u, g') ->
  g' = (vo, s) /\ (tpm <= 0 \/ IsTokenQuotaExceeded env key s = false).
Proof.
  intros H. unfold latch in H. apply bind_inr in H as (b & g1 & H1 & H2).
  unfold gets in H1. injection H1 as <- <-. unfold guardM in H2. simpl in H2.
  destruct (Z.ltb_spec 0 tpm) as [Hp|Hp]; simpl in H2; [|injection H2 as _ <-; auto].
  destruct (IsTokenQuotaExceeded env key s); [done|]. injection H2 as _ <-. auto.
Qed.

Lemma warmingGate_inr b vo s u g' :
  warmingGate (Svc := Svc) b (vo, s) = (inr u, g') -> g' = (vo, s) /\ (b = true -> QuotaWarming s = false).
Proof.
  intros H. unfold warmingGate in H. apply bind_inr in H as (w & g1 & H1 & H2).
  unfold gets in H1. injection H1 as <- <-. unfold guardM in H2. simpl in H2.
  destruct (b && QuotaWarming s) eqn:Hb; [done|]. injection H2 as _ <-. split; [done|].
  intros ->. done.
Qed.

(** ** Admitted requests *)

Section Stable.
Context {ST : StableReads Svc}.

Lemma defaultsM_inr si v s r g' :
  defaultsM si (Some v, s) = (inr r, g') ->
  r = (resolveQoSDefaults si (Some v)).1 /\ g' = (Some v, s) /\ (resolveQoSDefaults si (Some v)).2 = Some v.
Proof.
  assert ((resolveQoSDefaults si (Some v)).2 = Some v) as Hs.
  { unfold resolveQoSDefaults. pose proof (stable_defaults RateLimitScopeGlobal "" v) as H1.
    destruct (GetRateLimitDefaults RateLimitScopeGlobal "" v) as [[[e ok]|e] v1]; simpl in *; subst; [|done].
    destruct (si ==s ""); [done|]. pose proof (stable_defaults RateLimitScopeRule si v) as H2.
    by destruct (GetRateLimitDefaults RateLimitScopeRule si v) as [[[e' ok']|e'] v1]; simpl in *; subst. }
  unfold defaultsM. destruct (resolveQoSDefaults si (Some v)) as [r0 v0]. simpl in *. subst v0.
  intros [= -> <-]. done.
Qed.

(** What an admitted tenant stage has read and checked. *)
Lemma tenantStage_inr env now d k t u m kT uT v s x g' :
  t <> "" -> tenantStage env now d k t u m kT uT (Some v, s) = (inr x, g') ->
  exists tr tpm bp mT umT s',
    g' = (Some v, s') /\ sameQuota s s' /\
    (GetTenantRateLimit t v).1 = inl (tr, tpm, bp) /\
    (m <> "" -> (GetTenantModelRateLimit t m v).1 = inl mT) /\
    (m <> "" -> u <> "" -> (GetUserModelRateLimit t u m v).1 = inl umT) /\
    let tT := if tpm <=? 0 then qTenantTPM d else tpm in
    let dark q key := 0 < q -> QuotaWarming s = false /\ IsTokenQuotaExceeded env key s = false in
    dark kT (KeyQuotaKey k) /\ dark uT (UserQuotaKey t u) /\
    (m <> "" -> u <> "" -> dark umT (UserModelQuotaKey t u m)) /\
    dark tT t /\ (m <> "" -> dark mT (modelQuotaKey t m)).
Proof.
  intros Ht H. unfold tenantStage in H. destruct (String.eqb_spec t ""); [done|].
  apply bind_inr in H as (rt & g1 & H1 & H).
  apply readSvc_inr in H1 as [-> ->]; [|apply stable_tenant].
  apply bind_inr in H as ([[tr tpm] bp] & g1 & H1 & H). apply orDown_inr in H1 as [Hrt ->].
  apply bind_inr in H as (u0 & g1 & H1 & H).
  apply checkM_inr in H1 as (s1 & -> & Hs1); [|intros; apply CheckTenant_sameQuota].
  apply bind_inr in H as (rm & g1 & H1 & H).
  assert (g1 = (Some v, s1) /\ (m <> "" -> rm = (GetTenantModelRateLimit t m v).1)) as [-> Hrm].
  { destruct (String.eqb_spec m ""); [injection H1 as _ <-; done|].
    apply readSvc_inr in H1 as [-> ->]; [done|apply stable_model]. }
  apply bind_inr in H as (mT & g1 & H2 & H). apply orDown_inr in H2 as [-> ->].
  apply bind_inr in H as (ru & g1 & H3 & H).
  assert (g1 = (Some v, s1) /\ (m <> "" -> u <> "" -> ru = (GetUserModelRateLimit t u m v).1)) as [-> Hru].
  { destruct (String.eqb_spec m ""), (String.eqb_spec u ""); cbn [orb] in H3; try (injection H3 as _ <-; done).
    apply readSvc_inr in H3 as [-> ->]; [done|apply stable_usermodel]. }
  apply bind_inr in H as (umT & g1 & H4 & H). apply orDown_inr in H4 as [-> ->].
  apply bind_inr in H as (w & g1 & H5 & H). apply warmingGate_inr in H5 as [-> Hw].
  apply bind_inr in H as (l1 & g1 & H6 & H). apply latch_inr in H6 as [-> L1].
  apply bind_inr in H as (l2 & g1 & H6 & H). apply latch_inr in H6 as [-> L2].
  apply bind_inr in H as (l3 & g1 & H6 & H). apply latch_inr in H6 as [-> L3].
  apply bind_inr in H as (l4 & g1 & H6 & H). apply latch_inr in H6 as [-> L4].
  apply latch_inr in H as [-> L5].
  destruct (sameQuota_exceeded env t s s1 Hs1) as [_ HW].
  assert (forall key, IsTokenQuotaExceeded env key s1 = IsTokenQuotaExceeded env key s) as HE
    by (intros; apply (sameQuota_exceeded env key s s1 Hs1)).
  rewrite !HE in *. rewrite HW in Hw.
  assert (forall q key, (q <= 0 \/ IsTokenQuotaExceeded env key s = false) -> (0 < q -> QuotaWarming s = false) ->
          0 < q -> QuotaWarming s = false /\ IsTokenQuotaExceeded env key s = false) as HD.
  { intros q key [?|?] Hq ?; [lia|auto]. }
  rewrite !orb_true_iff, !Z.ltb_lt in Hw.
  exists tr, tpm, bp, mT, umT, s1. cbv zeta. split_and!; try done; try apply Hs1; try (intros; symmetry; by auto).
  all: intros; eapply HD; [..|eassumption]; [assumption|]; intros; apply Hw; auto 7 using or_introl, or_intror.
Qed.

Lemma keyStage_inr now k v s kT g' :
  keyStage now k (Some v, s) = (inr kT, g') ->
  exists s', g' = (Some v, s') /\ sameQuota s s' /\
    (k <> "" -> match (GetAPIKeyByID k v).1 with
                | inl key => kT = sTokensPerMin key
                | inr e => isDBUnavailable e = false
                end).
Proof.
  unfold keyStage. destruct (String.eqb_spec k ""); [by intros [= <- <-]; exists s|]. intros H.
  apply bind_inr in H as (r & g1 & H1 & H). apply readSvc_inr in H1 as [-> ->]; [|apply stable_key].
  apply bind_inr in H as ([[rps bu] tpm] & g1 & H1 & H).
  assert (g1 = (Some v, s) /\ match (GetAPIKeyByID k v).1 with
            inl key => tpm = sTokensPerMin key | inr e => isDBUnavailable e = false end) as [-> Hk].
  { destruct ((GetAPIKeyByID k v).1) as [key|e]; [by injection H1 as _ _ <- <-|].
    destruct (isDBUnavailable e); [done|]. by injection H1 as _ _ _ <-. }
  apply bind_inr in H as (u0 & g1 & H2 & H).
  apply checkM_inr in H2 as (s1 & -> & Hs1); [|intros; apply CheckKey_sameQuota].
  injection H as <- <-. eauto 6.
Qed.

Lemma userStage_inr now d t u v s uT g' :
  userStage now d t u (Some v, s) = (inr uT, g') ->
  exists s', g' = (Some v, s') /\ sameQuota s s' /\
    (t <> "" -> u <> "" -> exists r b tpm, (GetUserRateLimit t u v).1 = inl (r, b, tpm) /\
       uT = if tpm <=? 0 then qUserTPM d else tpm).
Proof.
  unfold userStage. destruct (String.eqb_spec u ""), (String.eqb_spec t ""); cbn [orb];
    try (intros [= <- <-]; by exists s). intros H.
  apply bind_inr in H as (r & g1 & H1 & H). apply readSvc_inr in H1 as [-> ->]; [|apply stable_user].
  apply bind_inr in H as ([[rps bu] tpm] & g1 & H1 & H). apply orDown_inr in H1 as [Hr ->].
  destruct (if rps <=? 0 then (qUserRPS d, 0) else (rps, bu)) as [uR uB].
  apply bind_inr in H as (u0 & g1 & H2 & H).
  apply checkM_inr in H2 as (s1 & -> & Hs1); [|intros; apply CheckUser_sameQuota].
  injection H as <- <-. eauto 10.
Qed.

Lemma sameQuota_trans s1 s2 s3 : sameQuota s1 s2 -> sameQuota s2 s3 -> sameQuota s1 s3.
Proof. unfold sameQuota. intros [-> ->] [-> ->]. done. Qed.

Lemma elem_bucketIf b key tpm pct kind :
  b ∈ bucketIf key tpm pct kind <-> 0 < tpm /\ b = Bucket key tpm pct kind.
Proof.
  unfold bucketIf. destruct (Z.ltb_spec 0 tpm); [rewrite list_elem_of_singleton; split; [done|by intros [_ ->]]|].
  split; [by intros ?%elem_of_nil|lia].
Qed.

(** Where a bucket of the ladder comes from. *)
Definition effTPM (dflt : Z) (tpm : Z) : Z := if tpm <=? 0 then dflt else tpm.

Lemma tenantBuckets_spec d t m v b :
  (tenantBuckets d t m v).2 = v /\
  (b ∈ (tenantBuckets d t m v).1.1 -> 0 < bTpm b /\ t <> "" /\
    ((bKey b = t /\ forall r x p, (GetTenantRateLimit t v).1 = inl (r, x, p) -> bTpm b = effTPM (qTenantTPM d) x) \/
     (m <> "" /\ bKey b = modelQuotaKey t m /\ (GetTenantModelRateLimit t m v).1 = inl (bTpm b)))).
Proof.
  unfold tenantBuckets. destruct (String.eqb_spec t ""); [set_solver|].
  pose proof (stable_tenant t v) as S1. destruct (GetTenantRateLimit t v) as [rt vt]. simpl in S1. subst vt.
  set (p := match rt with inl (_, t, b) => (t, b) | inr _ => (0, 0) end).
  assert (forall r x q, rt = inl (r, x, q) -> p.1 = x) as Hp by (intros ? ? ? ->; done).
  destruct p as [tpm pct]. simpl in Hp.
  assert (forall b, b ∈ bucketIf t (if tpm <=? 0 then qTenantTPM d else tpm) pct FcResvBucketTenant ->
    0 < bTpm b /\ bKey b = t /\ forall r x p, rt = inl (r, x, p) -> bTpm b = effTPM (qTenantTPM d) x) as Hagg.
  { intros b'. rewrite elem_bucketIf. intros [? ->]. split_and!; [done..|]. intros r x q Hr.
    by rewrite <- (Hp _ _ _ Hr). }
  destruct (String.eqb_spec m ""); cbn [fst snd].
  { split; [done|]. intros Hb. apply Hagg in Hb as (? & ? & ?). eauto. }
  pose proof (stable_model t m v) as S2. destruct (GetTenantModelRateLimit t m v) as [rm vm]. simpl in S2. subst vm.
  split; [done|]. cbn [fst snd]. rewrite elem_of_app, (elem_bucketIf _ (modelQuotaKey t m)).
  intros [Hb|[? ->]]; [apply Hagg in Hb as (? & ? & ?); eauto|].
  cbn [bKey bTpm]. split_and!; [done..|right]. destruct rm; [done|lia].
Qed.

Lemma userBuckets_spec d t m u pct v b :
  (userBuckets d t m u pct v).2 = v /\
  (b ∈ (userBuckets d t m u pct v).1 -> 0 < bTpm b /\ t <> "" /\ u <> "" /\
    ((bKey b = UserQuotaKey t u /\
        forall r q x, (GetUserRateLimit t u v).1 = inl (r, q, x) -> bTpm b = effTPM (qUserTPM d) x) \/
     (m <> "" /\ bKey b = UserModelQuotaKey t u m /\ (GetUserModelRateLimit t u m v).1 = inl (bTpm b)))).
Proof.
  unfold userBuckets. destruct (String.eqb_spec u ""), (String.eqb_spec t ""); cbn [orb]; [set_solver..|].
  pose proof (stable_user t u v) as S1. destruct (GetUserRateLimit t u v) as [ru vu]. simpl in S1. subst vu.
  set (tpm := match ru with inl (_, _, t) => t | inr _ => 0 end).
  assert (forall b, b ∈ bucketIf (UserQuotaKey t u) (if tpm <=? 0 then qUserTPM d else tpm) pct FcResvBucketUser ->
    0 < bTpm b /\ bKey b = UserQuotaKey t u /\ forall r q x, ru = inl (r, q, x) -> bTpm b = effTPM (qUserTPM d) x) as Hagg.
  { intros b'. rewrite elem_bucketIf. intros [? ->]. split_and!; [done..|]. intros r q x Hr. unfold tpm. by rewrite Hr. }
  destruct (String.eqb_spec m ""); cbn [fst snd].
  { split; [done|]. intros Hb. apply Hagg in Hb as (? & ? & ?). eauto 6. }
  pose proof (stable_usermodel t u m v) as S2. destruct (GetUserModelRateLimit t u m v) as [rm vm]. simpl in S2. subst vm.
  split; [done|]. cbn [fst snd]. rewrite elem_of_app, (elem_bucketIf _ (UserModelQuotaKey t u m)).
  intros [Hb|[? ->]]; [apply Hagg in Hb as (? & ? & ?); eauto 6|].
  cbn [bKey bTpm]. split_and!; [done..|right]. destruct rm; [done|lia].
Qed.

Lemma keyBuckets_spec k pct v b :
  (keyBuckets k pct v).2 = v /\
  (b ∈ (keyBuckets k pct v).1 -> 0 < bTpm b /\ k <> "" /\ bKey b = KeyQuotaKey k /\
     exists key, (GetAPIKeyByID k v).1 = inl key /\ bTpm b = sTokensPerMin key).
Proof.
  unfold keyBuckets. destruct (String.eqb_spec k ""); [set_solver|].
  pose proof (stable_key k v) as S1. destruct (GetAPIKeyByID k v) as [rk vk]. simpl in S1. subst vk.
  split; [done|]. cbn [fst]. destruct rk; [|set_solver]. rewrite elem_bucketIf. intros [? ->].
  cbn [bKey bTpm]. eauto 6.
Qed.

(** Every limit the ladder consults was read. *)
Definition limitsKnown (k t u si m : string) (v : Svc) : Prop :=
  (exists d, (resolveQoSDefaults si (Some v)).1 = inl d) /\
  (exists r, (GetTenantRateLimit t v).1 = inl r) /\
  (m <> "" -> exists r, (GetTenantModelRateLimit t m v).1 = inl r) /\
  (u <> "" -> exists r, (GetUserRateLimit t u v).1 = inl r) /\
  (m <> "" -> u <> "" -> exists r, (GetUserModelRateLimit t u m v).1 = inl r) /\
  (k <> "" -> forall e, (GetAPIKeyByID k v).1 = inr e -> isDBUnavailable e = false).

(** An admitted request, seen from each of its buckets. *)
Lemma ladder_admits env now k t u si m v s x g' :
  t <> "" -> ladder env now k t u si m (Some v, s) = (inr x, g') ->
  limitsKnown k t u si m v /\
  exists s', g' = (Some v, s') /\ sameQuota s s' /\
    forall b, b ∈ (quotaBucketsFor t m u k si (Some v)).1 -> bKind b <> FcResvBucketService ->
      QuotaWarming s = false /\ IsTokenQuotaExceeded env (bKey b) s = false.
Proof.
  intros Ht H. unfold ladder in H. apply bind_inr in H as (rd & g1 & H1 & H).
  apply defaultsM_inr in H1 as (Hrd & -> & Hs). apply bind_inr in H as (d & g1 & H1 & H).
  apply orDown_inr in H1 as [-> ->].
  apply bind_inr in H as (kT & g1 & H1 & H). apply keyStage_inr in H1 as (s1 & -> & Q1 & HkT).
  apply bind_inr in H as (uT & g1 & H1 & H). apply userStage_inr in H1 as (s2 & -> & Q2 & HuT).
  apply tenantStage_inr in H as (tr & tpm & bp & mT & umT & s3 & -> & Q3 & Rt & Rm & Rum & D1 & D2 & D3 & D4 & D5); [|done].
  pose proof (sameQuota_trans _ _ _ Q1 Q2) as Q12. pose proof (sameQuota_trans _ _ _ Q12 Q3) as Q.
  pose proof (fun key => proj1 (sameQuota_exceeded env key s s2 Q12)) as HE.
  destruct (sameQuota_exceeded env t s s2 Q12) as [_ HW]. rewrite HW in *. rewrite ?HE in *.
  split.
  { unfold limitsKnown. split_and!; eauto.
    - intros Hu. destruct (HuT Ht Hu) as (r & q & z & Hz & _). eauto.
    - intros Hk e He. specialize (HkT Hk). by rewrite He in HkT. }
  exists s3. split; [done|]. split; [done|]. intros b Hb Hk.
  unfold quotaBucketsFor in Hb. destruct (resolveQoSDefaults si (Some v)) as [rd sv]. simpl in Hrd, Hs. subst rd sv.
  change (default v (Some v)) with v in Hb.
  destruct (tenantBuckets_spec d t m v b) as [T1 T2], (tenantBuckets d t m v) as [[tb pct] v1]. cbn [fst snd] in *. subst v1.
  destruct (userBuckets_spec d t m u pct v b) as [U1 U2], (userBuckets d t m u pct v) as [ub v1]. cbn [fst snd] in *. subst v1.
  destruct (keyBuckets_spec k pct v b) as [K1 K2], (keyBuckets k pct v) as [kb v1]. cbn [fst snd] in *. subst v1.
  cbv beta iota zeta in Hb. cbn [fst snd] in Hb. rewrite !elem_of_app in Hb. destruct Hb as [Hb|[Hb|[Hb|Hb]]].
  - apply T2 in Hb as (Hp & _ & [[-> Hl]|(Hm & -> & Hl)]).
    + apply D4. rewrite (Hl _ _ _ Rt) in Hp. done.
    + apply D5; [done|]. rewrite Rm in Hl by done. by injection Hl as ->.
  - apply U2 in Hb as (Hp & _ & Hu & [[-> Hl]|(Hm & -> & Hl)]).
    + destruct (HuT Ht Hu) as (r & q & z & Hz & ->). apply D2. rewrite (Hl _ _ _ Hz) in Hp. done.
    + apply D3; [done..|]. rewrite Rum in Hl by done. by injection Hl as ->.
  - apply K2 in Hb as (Hp & Hkk & -> & key & Hkey & Hl). apply D1.
    specialize (HkT Hkk). rewrite Hkey in HkT. lia.
  - exfalso. destruct (si ==s ""); [set_solver|]. apply elem_bucketIf in Hb as [_ ->]. done.
Qed.

End Stable.

(** ** Early returns are never admissions *)

Definition refusing {A} (m : M (Svc := Svc) A) : Prop :=
  forall g w g', m g = (inl w, g') -> w.1.1 <> aiDecisionAllow.

Lemma refusing_ret {A} (a : A) : refusing (ret a).
Proof. by intros g w g' [=]. Qed.
Lemma refusing_gets {A} (f : RateLimiterStore -> A) : refusing (gets f).
Proof. by intros g w g' [=]. Qed.
Lemma refusing_bind {A B} (m : M A) (f : A -> M B) : refusing m -> (forall a, refusing (f a)) -> refusing (bind m f).
Proof. intros H1 H2 g w g' [?|(a & g1 & _ & ?)]%bind_inl; [by eapply H1|by eapply H2]. Qed.
Lemma refusing_orDown {A} (r : A + goErr) : refusing (orDown r).
Proof. destruct r as [x|e]; intros g w g' [=]. by subst. Qed.
Lemma refusing_guard b (vd : verdict) : vd.1.1 <> aiDecisionAllow -> refusing (guardM b vd).
Proof. destruct b; intros ? g w g' [=]. by subst. Qed.
Lemma refusing_readSvc {A} (d : A) f : refusing (readSvc d f).
Proof. intros [[v|] s] w g'; simpl; [by destruct (f v)|done]. Qed.
Lemma refusing_onStore {A} (f : _ -> A * _) : refusing (onStore f).
Proof. intros [v s] w g'; simpl. by destruct (f s). Qed.
Lemma refusing_defaultsM si : refusing (defaultsM si).
Proof. intros [v s] w g'. unfold defaultsM. by destruct (resolveQoSDefaults si v). Qed.

Lemma refusing_storeDown {A} : refusing (deny (A := A) storeDown).
Proof. intros g w g' [=]. by subst. Qed.

Create HintDb refuse.
#[local] Hint Resolve refusing_ret refusing_gets refusing_orDown refusing_readSvc refusing_onStore
  refusing_defaultsM refusing_storeDown : refuse.

Ltac refuse :=
  repeat first
    [ progress intros | apply refusing_bind | apply refusing_guard; [done] | solve [auto with refuse]
    | case_match ].

Lemma refusing_keylessArm env now si : refusing (keylessArm env now si).
Proof.
  intros g w g'. unfold keylessArm. destruct (_ || _); [done|].
  match goal with |- ?m g = _ -> _ => enough (refusing m) as H by (intros; by eapply H) end.
  refuse; unfold checkM, warmingGate, latch in *; refuse.
Qed.

Lemma refusing_ladder env now k t u si m : refusing (ladder env now k t u si m).
Proof.
  unfold ladder, keyStage, userStage, tenantStage, checkM, warmingGate, latch. refuse.
Qed.

(** Every refusal of the ladder leaves the quota buckets as they were. *)
Lemma admitted_runs_ladder env now k t u si m svc s retry code g' :
  t <> "" -> rateLimitCheckInternal env now k t u si m (svc, s) = ((aiDecisionAllow, retry, code), g') ->
  exists v, svc = Some v /\ ladder env now k t u si m (Some v, s) = (inr tt, g').
Proof.
  intros Ht. unfold rateLimitCheckInternal. cbn [fst].
  assert (noIdentity k t u = false) as ->.
  { unfold noIdentity. destruct (String.eqb_spec t ""); [done|]. by rewrite andb_false_r. }
  destruct svc as [v|]; cbn [negb].
  - destruct (ladder _ _ _ _ _ _ _ _) as [[w|[]] g1] eqn:E.
    + apply refusing_ladder in E. intros [= ->]. simpl in E. done.
    + intros [= _ _ ->]. eauto.
  - by intros [=].
Qed.

(** An admitted request with a tenant has every limit it is subject to
    confirmed by the key service (none was unknowable, the service exists), and
    every token bucket it will charge, except the service's shared one, is
    neither warming nor in debt in the state admission leaves. *)
Theorem admitted_request_has_no_debt `{!StableReads Svc} env now k t u si m svc s retry code g' :
  t <> "" ->
  rateLimitCheckInternal env now k t u si m (svc, s) = ((aiDecisionAllow, retry, code), g') ->
  exists v s', svc = Some v /\ g' = (Some v, s') /\ sameQuota s s' /\ limitsKnown k t u si m v /\
    forall b, b ∈ (quotaBucketsFor t m u k si (Some v)).1 -> bKind b <> FcResvBucketService ->
      QuotaWarming s' = false /\ IsTokenQuotaExceeded env (bKey b) s' = false.
Proof.
  intros Ht H. apply admitted_runs_ladder in H as (v & -> & H); [|done].
  apply ladder_admits in H as (HK & s' & -> & HQ & HB); [|done].
  exists v, s'. split_and!; try done; try apply HQ. intros b Hb Hk.
  destruct (sameQuota_exceeded env (bKey b) s s' HQ) as [-> ->]. by apply HB.
Qed.

(** Key validation gives exactly one verdict per condition: 401 for a missing,
    unknown or expired key, 503 for a store that could not answer, 403 for a
    model off the key's list, and admission only for a live key whose list is
    empty or names the model.  The tenant and key identity leave with the two
    verdicts that know them, never with a 401 or a 503. *)
Theorem validate_verdict_table now raw model v :
  let r := (ValidateAPIKey raw v).1 in
  let '(d, tenant, key, out, code) := (validateAPIKeyInternal now raw model v).1 in
  let expired e := match eExpiresAt e with Some x => x < now | None => False end in
  let permitted e := eAllowedModels e = [] \/ model ∈ eAllowedModels e in
  (d = aiDecisionAllow <-> raw <> "" /\ exists e, r = inl e /\ ~ expired e /\ permitted e) /\
  (d = aiDecisionDeny403 <-> raw <> "" /\ exists e, r = inl e /\ ~ expired e /\ ~ permitted e) /\
  (d = aiDecisionDeny503 <-> raw <> "" /\ exists e, r = inr (ErrStore e)) /\
  (d = aiDecisionDeny401 <-> raw = "" \/ r = inr ErrInvalidKey \/ exists e, r = inl e /\ expired e) /\
  (d = aiDecisionAllow \/ d = aiDecisionDeny403 -> exists e, r = inl e /\ tenant = eTenantID e /\ key = eKeyID e) /\
  (d = aiDecisionDeny401 \/ d = aiDecisionDeny503 -> tenant = "" /\ key = "" /\ out = "").
Proof.
  intros r. unfold validateAPIKeyInternal.
  destruct (String.eqb_spec raw "") as [->|Hraw].
  { cbn [fst]. unfold aiDecisionAllow, aiDecisionDeny401, aiDecisionDeny403, aiDecisionDeny503.
    naive_solver. }
  subst r. destruct (ValidateAPIKey raw v) as [[e|[|e]] v']; cbn [fst];
    unfold aiDecisionAllow, aiDecisionDeny401, aiDecisionDeny403, aiDecisionDeny503; [|naive_solver..].
  assert (existsb (fun m => m ==s model) (eAllowedModels e) = true <-> model ∈ eAllowedModels e) as HM.
  { rewrite existsb_exists. setoid_rewrite <- list_elem_of_In. setoid_rewrite String.eqb_eq. naive_solver. }
  assert (forall x, match eExpiresAt e with Some t => t <? now | None => false end = x ->
     (match eExpiresAt e with Some x => x < now | None => False end <-> x = true)) as HX.
  { intros x <-. destruct (eExpiresAt e); [by rewrite Z.ltb_lt|done]. }
  destruct (match eExpiresAt e with Some t => t <? now | None => false end); specialize (HX _ eq_refl).
  { naive_solver. }
  destruct (existsb _ _); [|destruct (eAllowedModels e) eqn:EM]; simpl length.
  - rewrite andb_false_r. naive_solver.
  - simpl. naive_solver.
  - destruct (Z.ltb_spec 0 (Z.of_nat (S (length l)))); [|lia]. cbn [andb negb].
    assert (~ (eAllowedModels e = [] \/ model ∈ eAllowedModels e)) as HP by (rewrite EM; naive_solver).
    split_and!; try (match goal with |- _ <-> _ => split end); intros HH; try done; try (by destruct HH); try (by exists e).
    + destruct HH as (_ & e' & [= <-] & _ & ?). done.
    + split; [done|]. exists e. split_and!; [done| |done]. rewrite HX. done.
    + by destruct HH as (_ & e' & [=]).
    + destruct HH as [?|[?|(e' & [= <-] & ?%HX)]]; done.
Qed.

End AdmissionProps.

(** ** A fixed configuration, for the witnesses *)

(** A service that answers from one configuration: 100 tokens per minute for
    the tenant acme and 40 for its model m, nothing else. *)
Definition fixedSvc : Type := unit.

Definition acmeEntry : ApiKeyEntry := KeyEntry "k1" "" "" "acme" "" ["m"] 0 0 0 0 (Some 1000) true "" noPolicy.

#[export] Instance fixedReads : RateLimitService fixedSvc := {
  GetTenantRateLimit t s := (inl (if t ==s "acme" then (0, 100, 0) else (0, 0, 0)), s);
  GetTenantModelRateLimit t m s := (inl (if (t ==s "acme") && (m ==s "m") then 40 else 0), s);
  GetAPIKeyByID k s := (inl (KeySummary k "acme" "" [] 0 0 0 0 None true "" noPolicy), s);
  GetUserRateLimit t u s := (inl (0, 0, 0), s);
  GetUserModelRateLimit t u m s := (inl 0, s);
  GetRateLimitDefaults sc i s := (inl (noDefaults sc i, false), s)
}.

#[export] Instance fixedKeys : ApiKeyValidator fixedSvc := {
  ValidateAPIKey raw s := (if raw ==s "secret" then inl acmeEntry else inr ErrInvalidKey, s)
}.

#[export] Instance fixedStable : StableReads fixedSvc.
Proof. split; done. Qed.

Lemma admitted_witness :
  (quotaBucketsFor "acme" "m" "" "k1" "" (Some tt)).1 =
    [Bucket "acme" 100 0 FcResvBucketTenant; Bucket "acme|m" 40 0 FcResvBucketTenantModel] /\
  IsTokenQuotaExceeded (envAt 10 600000) "acme|m"
    (rateLimitCheckInternal (RL := openLib) (envAt 10 600000) 0 "k1" "acme" "" "" "m" (Some tt, demoBucket)).2.2 = false.
Proof.
  split; [reflexivity|].
  destruct (admitted_request_has_no_debt (RL := openLib) (envAt 10 600000) 0 "k1" "acme" "" "" "m" (Some tt) demoBucket 0 ""
    _ ltac:(done) (surjective_pairing (rateLimitCheckInternal (RL := openLib) (envAt 10 600000) 0 "k1" "acme" "" "" "m" (Some tt, demoBucket)))) as (v & s' & Hv & Hg & _ & _ & HB).
  rewrite Hg. apply (HB (Bucket "acme|m" 40 0 FcResvBucketTenantModel)); [|done].
  injection Hv as <-. vm_compute. right. left.
Defined.
