(* ===== verification/LadderProps.v ===== *)
(** * LadderProps: reservation, release and charge across a request's buckets

    Theorems on the ladder loops of Admission: a refused reservation leaves no
    claim on any bucket, an admitted one leaves the same claim on all of them,
    and settlement gives that claim back bucket by bucket whatever the key
    service answers by then. *)

From S2P Require Import Prelude StoreErr RateLimit RateSync QuotaProps ClaimLedger Common Admission Identity AdmissionProps.

Open Scope Z_scope.
Open Scope igw_scope.

(** ** One bucket under a claim *)

Section Bucket.
Context (env : quotaEnv).

Definition touchedB (b : quotaBucket) (e : tokenWindowEntry) : tokenWindowEntry :=
  touched env (bTpm b) (bBurstPct b) e.

(** [e'] is [e] with a claim of [g] tokens added for bucket [b]; with no claim,
    at most the minute's touch happened. *)
Definition holds (b : quotaBucket) (g : Z) (e e' : tokenWindowEntry) : Prop :=
  if g =? 0 then e' = e \/ e' = touchedB b e else e' = addClaim g (touchedB b e).

(** What the arithmetic and the release need of a bucket. *)
Definition ready (b : quotaBucket) (e : tokenWindowEntry) : Prop :=
  limit_ok (bTpm b) /\ bucket_ok env (bTpm b) e /\ reservedEpoch e <= currentQuotaEpoch env.

Lemma touchedB_epoch b e : ready b e -> reservedEpoch (touchedB b e) = currentQuotaEpoch env.
Proof. intros (_ & _ & H). unfold touchedB, touched. rewrite touch_reservedEpoch. simpl. lia. Qed.

(** A whole release takes back exactly the claim. *)
Lemma release_addClaim b e g :
  ready b e -> 0 < g -> tokens_ok g ->
  releaseEntry g (currentQuotaEpoch env) (addClaim g (touchedB b e)) = touchedB b e.
Proof.
  intros Hr Hg Ht. pose proof (touchedB_epoch b e Hr) as He. destruct Hr as (Hl & Hb & _).
  pose proof (touched_bucket_ok env (bTpm b) (bBurstPct b) _ Hb) as ((R1 & R2 & R3 & R4 & _) & _ & _ & _ & R5 & R6 & _).
  fold (touchedB b e) in *. set (e0 := touchedB b e) in *.
  unfold releaseEntry. simpl. rewrite He, Z.eqb_refl. cbn [negb].
  unfold addClaim, claimsSubClamp, reservedSubClamp. simpl. unbound.
  rewrite (i64_id (reserved e0 + g - g)) by (unfold in_i64, two63 in *; lia).
  destruct (Z.ltb_spec (reserved e0 + g - g) 0); [lia|].
  destruct (Z.leb_spec (claims e0 + 1) 0); [lia|].
  rewrite i64_id by (unfold in_i64, two63 in *; lia).
  destruct e0; unfold setClaims, setReserved; simpl in *. f_equal; lia.
Qed.

(** A trim turns the claim into the smaller one. *)
Lemma trim_addClaim b e h g :
  ready b e -> 0 < g < h -> tokens_ok h ->
  trimEntry (h - g) (currentQuotaEpoch env) (addClaim h (touchedB b e)) = addClaim g (touchedB b e).
Proof.
  intros Hr Hg Ht. pose proof (touchedB_epoch b e Hr) as He. destruct Hr as (Hl & Hb & _).
  pose proof (touched_bucket_ok env (bTpm b) (bBurstPct b) _ Hb) as ((R1 & R2 & R3 & R4 & _) & _ & _ & _ & R5 & R6 & _).
  fold (touchedB b e) in *. set (e0 := touchedB b e) in *.
  unfold trimEntry. simpl. rewrite He, Z.eqb_refl. cbn [negb].
  unfold addClaim, reservedSubClamp. simpl. unbound.
  rewrite i64_id by (unfold in_i64, two63 in *; lia).
  destruct (Z.ltb_spec (reserved e0 + h - (h - g)) 0); [lia|].
  destruct e0; unfold setClaims, setReserved; simpl in *. f_equal; lia.
Qed.

End Bucket.

(** ** Operations key by key *)

Section Keys.
Context {RL : RateLib}.
Implicit Types s : RateLimiterStore.

Lemma load_Release_ne k k' amt ep s :
  k' <> k -> loadOrStore (ReleaseReservation k amt ep s) k' = loadOrStore s k' /\
             loadOrStore (TrimReservation k amt ep s) k' = loadOrStore s k'.
Proof.
  intros H. unfold ReleaseReservation, TrimReservation. destruct (_ || _); [done|].
  destruct (quotaMap s !! k); [|done]. by rewrite !load_put_ne.
Qed.

(** A fold of per-key operations acts on each key once. *)
Lemma foldl_keys (f : RateLimiterStore -> string * Z -> RateLimiterStore) (F : Z -> tokenWindowEntry -> tokenWindowEntry)
  (held : list (string * Z)) s :
  (forall s k h, (k, h) ∈ held -> loadOrStore (f s (k, h)) k = F h (loadOrStore s k)) ->
  (forall s k h k', k' <> k -> loadOrStore (f s (k, h)) k' = loadOrStore s k') ->
  NoDup held.*1 ->
  (forall k h, (k, h) ∈ held -> loadOrStore (foldl f s held) k = F h (loadOrStore s k)) /\
  (forall k, k ∉ held.*1 -> loadOrStore (foldl f s held) k = loadOrStore s k).
Proof.
  intros H1 H2. revert s. induction held as [|[k0 h0] held IH]; intros s Hnd.
  { split; [by intros ? ? ?%elem_of_nil|done]. }
  rewrite fmap_cons in Hnd. apply NoDup_cons in Hnd as [Hk0 Hnd]. simpl in Hk0.
  destruct (IH ltac:(intros; apply H1; by right) (f s (k0, h0)) Hnd) as [I1 I2]. split.
  - intros k h [Heq|Hin]%elem_of_cons; simpl.
    + injection Heq as -> ->. rewrite I2 by done. apply H1. by left.
    + rewrite (I1 _ _ Hin). rewrite H2; [done|]. intros ->. apply Hk0. apply list_elem_of_fmap. by exists (k0, h).
  - intros k Hk. rewrite fmap_cons, not_elem_of_cons in Hk. simpl in *. destruct Hk as [Hk Hk'].
    rewrite I2 by done. by apply H2.
Qed.

Definition releaseIf (ep h : Z) (e : tokenWindowEntry) : tokenWindowEntry :=
  if (h <=? 0) || (ep ==? 0) then e else releaseEntry h ep e.

Lemma load_Release k h ep s : 0 <= ep ->
  loadOrStore (ReleaseReservation k h ep s) k = releaseIf ep h (loadOrStore s k).
Proof.
  intros Hep. unfold releaseIf. destruct (Z.leb_spec h 0), (Z.eqb_spec ep 0); cbn [orb];
    unfold ReleaseReservation at 1; try (destruct (Z.leb_spec h 0); [|lia]); try (destruct (Z.eqb_spec ep 0); [|lia]);
    rewrite ?orb_true_r; cbn [orb]; try done.
  by apply Release_load; lia.
Qed.

Lemma releaseHeld_load ep (held : list (string * Z)) s : 0 <= ep -> NoDup held.*1 ->
  (forall k h, (k, h) ∈ held -> loadOrStore (releaseHeld held ep s) k = releaseIf ep h (loadOrStore s k)) /\
  (forall k, k ∉ held.*1 -> loadOrStore (releaseHeld held ep s) k = loadOrStore s k).
Proof.
  intros Hep Hnd. unfold releaseHeld. apply foldl_keys; [|intros; by apply load_Release_ne|done].
  intros. by apply load_Release.
Qed.

Lemma releaseAll_held keys amt ep s :
  releaseAll keys amt ep s = releaseHeld ((fun k => (k, amt)) <$> keys) ep s.
Proof. unfold releaseAll, releaseHeld. revert s. induction keys as [|k keys IH]; intros s; [done|]. simpl. apply IH. Qed.

End Keys.

(** ** The elastic ladder *)

Section Elastic.
Context {RL : RateLib} (env : quotaEnv) (Henv : env_ok env) (Hep : 0 < currentQuotaEpoch env).
Implicit Types s : RateLimiterStore.

Definition sameElse (ks : list string) (s s' : RateLimiterStore) : Prop :=
  forall k, k ∉ ks -> loadOrStore s' k = loadOrStore s k.

Lemma sameElse_put k e s : sameElse [k] s (putEntry k e s).
Proof. intros k' Hk. apply load_put_ne. intros ->. apply Hk. by left. Qed.

(** One bucket's elastic reservation. *)
Lemma elastic_step b firm rem s :
  ready env b (loadOrStore s (bKey b)) -> tokens_ok firm -> tokens_ok rem ->
  let '((ok, retry, ep, g), s') := ReserveTokensElastic env (bKey b) firm rem (bTpm b) (bBurstPct b) s in
  sameElse [bKey b] s s' /\
  holds env b g (loadOrStore s (bKey b)) (loadOrStore s' (bKey b)) /\
  if ok then retry = 0 /\ firm <= g <= firm + rem /\ tokens_ok g /\ ep = (if g =? 0 then 0 else currentQuotaEpoch env)
  else 1 <= retry <= 60 /\ ep = 0 /\ g = 0.
Proof.
  intros (Hl & Hb & Hre) Hf Hr. pose proof (burstTokensFor_bounds env (bTpm b) (bBurstPct b) Henv Hl) as Hbu.
  destruct (Z.le_gt_cases rem 0) as [Hr0|Hr0].
  - unfold ReserveTokensElastic. destruct (Z.ltb_spec firm 0); [unbound; lia|]. destruct (Z.leb_spec rem 0); [|lia].
    destruct (Z.le_gt_cases firm 0) as [Hf0|Hf0].
    { unfold ReserveTokens. destruct (Z.leb_spec firm 0); [|lia]. rewrite orb_true_r. simpl.
      split; [done|]. split; [by left|]. unbound. lia. }
    rewrite ReserveTokens_put by (unbound; lia). rewrite (reserveEntry_eq env firm _ _ _ Henv Hl Hb Hf).
    set (e0 := touched env (bTpm b) (bBurstPct b) (loadOrStore s (bKey b))).
    set (lv := levelOf env (bTpm b) (bBurstPct b) (loadOrStore s (bKey b))).
    pose proof (reserveRetry_bounds (reserved e0 + firm - lv) (bTpm b)).
    destruct (Z.ltb_spec (burstTokensFor env (bTpm b) (bBurstPct b)) firm); [|destruct (Z.ltb_spec lv (reserved e0 + firm))];
      cbn [fst snd andb]; (split; [apply sameElse_put|]); rewrite load_put_eq.
    + split; [by right|lia].
    + split; [by right|lia].
    + destruct (Z.eqb_spec (currentQuotaEpoch env) 0); [lia|]. cbn [negb]. unfold holds. destruct (Z.eqb_spec firm 0); [lia|].
      split; [done|]. unbound. lia.
  - rewrite Elastic_put by (unbound; lia).
    rewrite (reserveElasticEntry_eq env firm rem _ _ _ Henv Hl Hb Hf Hr0 Hr).
    set (e0 := touched env (bTpm b) (bBurstPct b) (loadOrStore s (bKey b))).
    set (lv := levelOf env (bTpm b) (bBurstPct b) (loadOrStore s (bKey b))).
    pose proof (reserveRetry_bounds (reserved e0 + firm - lv) (bTpm b)).
    destruct (Z.ltb_spec (burstTokensFor env (bTpm b) (bBurstPct b)) firm);
      [|destruct (Z.ltb_spec lv (reserved e0 + firm)); [|destruct (Z.eqb_spec (firm + Z.min (Z.min rem (burstTokensFor env (bTpm b) (bBurstPct b) - firm)) (lv - reserved e0 - firm)) 0)]];
      cbn [fst snd]; (split; [apply sameElse_put|]); rewrite load_put_eq.
    + split; [by right|lia].
    + split; [by right|lia].
    + rewrite Z.eqb_refl. split; [by right|]. unbound. lia.
    + unfold holds. destruct (Z.eqb_spec (firm + Z.min (Z.min rem (burstTokensFor env (bTpm b) (bBurstPct b) - firm)) (lv - reserved e0 - firm)) 0);
        [lia|]. split; [done|]. unbound. lia.
Qed.

(** *** The loop

    [s0] is the store before the ladder; [dn] are the buckets passed, with what
    each granted. *)
Definition heldOfDone (dn : list (quotaBucket * Z)) : list (string * Z) := (fun '(b, g) => (bKey b, g)) <$> dn.

Record passed (s0 : RateLimiterStore) (firm rem re : Z) (dn : list (quotaBucket * Z)) (s : RateLimiterStore) : Prop := {
  passed_holds : forall b g, (b, g) ∈ dn ->
    ready env b (loadOrStore s0 (bKey b)) /\ holds env b g (loadOrStore s0 (bKey b)) (loadOrStore s (bKey b)) /\
    firm + rem <= g /\ tokens_ok g;
  passed_else : sameElse (heldOfDone dn).*1 s0 s;
  passed_nodup : NoDup (heldOfDone dn).*1;
  passed_epoch : re = currentQuotaEpoch env \/ (re = 0 /\ forall b g, (b, g) ∈ dn -> g = 0)
}.

Lemma heldOfDone_snoc dn b g : heldOfDone (dn ++ [(b, g)]) = heldOfDone dn ++ [(bKey b, g)].
Proof. unfold heldOfDone. by rewrite fmap_app. Qed.

Lemma elem_heldOfDone k g dn : (k, g) ∈ heldOfDone dn <-> exists b, k = bKey b /\ (b, g) ∈ dn.
Proof.
  unfold heldOfDone. rewrite list_elem_of_fmap. split.
  - intros ([b h] & [= -> ->] & H). eauto.
  - intros (b & -> & H). by exists (b, g).
Qed.

(** Every bucket of [bs] and nothing else, with the claim [g]. *)
Definition ladderHolds (bs : list quotaBucket) (g : Z) (s s' : RateLimiterStore) : Prop :=
  (forall b, b ∈ bs -> holds env b g (loadOrStore s (bKey b)) (loadOrStore s' (bKey b))) /\
  sameElse (bKey <$> bs) s s'.

(** Rolling the passed buckets back leaves no claim. *)
Lemma passed_rollback s0 firm rem re dn s bs s1 :
  passed s0 firm rem re dn s -> 0 <= firm + rem ->
  (forall b g, (b, g) ∈ dn -> b ∈ bs) ->
  (forall b g, (b, g) ∈ dn -> loadOrStore s1 (bKey b) = loadOrStore s (bKey b)) ->
  (forall b, b ∈ bs -> bKey b ∉ (heldOfDone dn).*1 -> holds env b 0 (loadOrStore s0 (bKey b)) (loadOrStore s1 (bKey b))) ->
  sameElse (bKey <$> bs) s0 s1 ->
  (forall b b', b ∈ bs -> b' ∈ bs -> bKey b = bKey b' -> b = b') ->
  ladderHolds bs 0 s0 (releaseHeld (heldOfDone dn) re s1).
Proof.
  intros [P1 P2 P3 P4] Hfr Hsub Hs1 Hrest Helse Hinj.
  assert (0 <= re) as Hre by (destruct P4 as [->|[-> _]]; lia).
  destruct (releaseHeld_load re (heldOfDone dn) s1 Hre P3) as [R1 R2]. split.
  - intros b Hb. destruct (decide (bKey b ∈ (heldOfDone dn).*1)) as [Hin|Hin]; [|rewrite R2 by done; by apply Hrest].
    apply list_elem_of_fmap in Hin as ([k g] & Hk & Hin). simpl in Hk. subst k.
    rewrite (R1 _ _ Hin). apply elem_heldOfDone in Hin as (b' & Hk & Hin).
    assert (b = b') as <- by (apply Hinj; eauto). rewrite (Hs1 _ _ Hin).
    destruct (P1 _ _ Hin) as (Hr & Hh & Hg & Ht). unfold holds in *. rewrite Z.eqb_refl.
    unfold releaseIf. destruct (Z.eqb_spec g 0) as [->|Hne]; [done|].
    destruct (Z.leb_spec g 0); [lia|]. destruct P4 as [->|[_ P4]]; [|naive_solver].
    destruct (Z.eqb_spec (currentQuotaEpoch env) 0); [lia|]. cbn [orb]. rewrite Hh, release_addClaim by (done || lia). by right.
  - intros k Hk. rewrite R2; [by apply Helse|]. intros Hin. apply Hk.
    apply list_elem_of_fmap in Hin as ([k' g] & -> & Hin). apply elem_heldOfDone in Hin as (b' & -> & Hin).
    apply list_elem_of_fmap. eauto.
Qed.


Lemma heldOfDone_keys dn : (heldOfDone dn).*1 = bKey <$> dn.*1.
Proof.
  induction dn as [|[b g] dn IH]; [done|].
  change (bKey b :: (heldOfDone dn).*1 = bKey b :: (bKey <$> dn.*1)). by rewrite IH.
Qed.

Lemma key_of_done b g dn : (b, g) ∈ dn -> bKey b ∈ (heldOfDone dn).*1.
Proof.
  intros H. rewrite heldOfDone_keys. apply list_elem_of_fmap. exists b. split; [done|].
  apply list_elem_of_fmap. by exists (b, g).
Qed.

(** Passing one more bucket. *)
Lemma passed_snoc s0 firm rem re dn s b g rem1 s1 :
  passed s0 firm rem re dn s -> bKey b ∉ (heldOfDone dn).*1 -> ready env b (loadOrStore s0 (bKey b)) ->
  sameElse [bKey b] s s1 -> holds env b g (loadOrStore s0 (bKey b)) (loadOrStore s1 (bKey b)) ->
  tokens_ok g -> rem1 <= rem -> firm + rem1 <= g ->
  passed s0 firm rem1 (if re ==? 0 then if g =? 0 then 0 else currentQuotaEpoch env else re) (dn ++ [(b, g)]) s1.
Proof.
  intros [P1 P2 P3 P4] Hfresh Hready Helse Hh Hg Hr1 Hr2. constructor.
  - intros b' g'. rewrite elem_of_app, list_elem_of_singleton. intros [Hin|[= -> ->]]; [|by split_and!].
    destruct (P1 _ _ Hin) as (A1 & A2 & A3 & A4). split_and!; try done; try lia; try apply A4.
    rewrite Helse; [done|]. rewrite list_elem_of_singleton. intros Hk. apply Hfresh. rewrite <- Hk. by eapply key_of_done.
  - rewrite heldOfDone_snoc, fmap_app. intros k Hk. rewrite not_elem_of_app in Hk. destruct Hk as [Hk1 Hk2].
    rewrite Helse by done. by apply P2.
  - rewrite heldOfDone_snoc, fmap_app. apply NoDup_app. split_and!; [done| |apply NoDup_singleton].
    intros x Hx Hx'. apply list_elem_of_singleton in Hx'. by subst.
  - destruct P4 as [->|[-> P4]]; [left; by destruct (Z.eqb_spec (currentQuotaEpoch env) 0); [lia|]|].
    simpl. destruct (Z.eqb_spec g 0) as [->|]; [right|by left]. split; [done|].
    intros b' g'. rewrite elem_of_app, list_elem_of_singleton. intros [Hin|[= -> ->]]; eauto.
Qed.

Lemma NoDup_keys_inj bs (b b' : quotaBucket) :
  NoDup (bKey <$> bs) -> b ∈ bs -> b' ∈ bs -> bKey b = bKey b' -> b = b'.
Proof.
  induction bs as [|b0 bs IH]; [by intros _ ?%elem_of_nil|].
  rewrite fmap_cons. intros [Hk Hnd]%NoDup_cons. rewrite !elem_of_cons.
  intros [->|Hb] [->|Hb'] Heq; [done|..|by apply IH].
  - exfalso. apply Hk. rewrite Heq. apply list_elem_of_fmap. eauto.
  - exfalso. apply Hk. rewrite <- Heq. apply list_elem_of_fmap. eauto.
Qed.

Lemma elasticLoop_spec s0 si firm bs0 : tokens_ok firm -> NoDup (bKey <$> bs0) -> forall bs dn rem re s l,
  passed s0 firm rem re dn s -> tokens_ok rem -> dn.*1 ++ bs = bs0 ->
  (forall b, b ∈ bs -> ready env b (loadOrStore s0 (bKey b))) ->
  match elasticLoop env si firm rem bs (heldOfDone dn) re s l with
  | (inl retry, s', _) => 1 <= retry <= 60 /\ ladderHolds bs0 0 s0 s'
  | (inr (rem', held, re'), s', _) =>
      exists dn', held = heldOfDone dn' /\ dn'.*1 = bs0 /\ passed s0 firm rem' re' dn' s' /\ 0 <= rem' <= rem
  end.
Proof.
  intros Hf Hnd. induction bs as [|b bs IH]; intros dn rem re s l HP Hr Hbs Hready; simpl.
  { rewrite app_nil_r in Hbs. exists dn. unbound. split_and!; (done || lia). }
  assert (bKey b ∉ (heldOfDone dn).*1) as Hfresh.
  { rewrite heldOfDone_keys. rewrite <- Hbs, fmap_app, fmap_cons in Hnd.
    apply NoDup_app in Hnd as (_ & Hd & _). intros Hin. apply (Hd _ Hin). by left. }
  assert (loadOrStore s (bKey b) = loadOrStore s0 (bKey b)) as Hload by by apply (passed_else _ _ _ _ _ _ HP).
  pose proof (elastic_step b firm rem s) as Hstep. rewrite Hload in Hstep.
  specialize (Hstep (Hready b ltac:(left)) Hf Hr).
  destruct (ReserveTokensElastic env (bKey b) firm rem (bTpm b) (bBurstPct b) s) as [[[[ok retry] ep] g] s1].
  destruct Hstep as (Helse & Hholds & Hres). destruct ok; cbn [negb].
  - destruct Hres as (_ & Hg & Hgt & ->). rewrite <- heldOfDone_snoc.
    rewrite (i64_id (g - firm)) by (unfold in_i64, two63; unbound; lia).
    set (rem1 := Z.min rem (Z.max (g - firm) 0)).
    assert (0 <= rem1 <= rem /\ firm + rem1 <= g) as [Hr1 Hr2] by (unfold rem1; unbound; lia).
    assert (ready env b (loadOrStore s0 (bKey b))) as Hb by (apply Hready; by left).
    pose proof (passed_snoc s0 firm rem re dn s b g rem1 s1 HP Hfresh Hb Helse Hholds Hgt (proj2 Hr1) Hr2) as HP1.
    specialize (IH _ _ _ _ (if (if g =? 0 then 0 else currentQuotaEpoch env) !=? 0 then noteReservedBucket si b l else l) HP1
      ltac:(unbound; lia) ltac:(by rewrite fmap_app, <- app_assoc) ltac:(intros; apply Hready; by right)).
    destruct (elasticLoop _ _ _ _ _ _ _ _ _) as [[[retry'|[[rem' held] re']] s'] l']; [done|].
    destruct IH as (dn' & ? & ? & ? & ?). exists dn'. split_and!; (done || lia).
  - destruct Hres as (Hretry & -> & ->). split; [done|].
    eapply passed_rollback; [exact HP|unbound; lia|..].
    + intros b' g' Hin. rewrite <- Hbs. apply elem_of_app. left. apply list_elem_of_fmap. by exists (b', g').
    + intros b' g' Hin. apply Helse. rewrite list_elem_of_singleton. intros Hk. apply Hfresh. rewrite <- Hk.
      by eapply key_of_done.
    + intros b' Hb' Hk'. destruct (decide (bKey b' = bKey b)) as [He|He].
      * assert (b' = b) as ->; [|done]. apply (NoDup_keys_inj bs0); try done. rewrite <- Hbs. apply elem_of_app. right. by left.
      * rewrite Helse by (by rewrite list_elem_of_singleton). rewrite (passed_else _ _ _ _ _ _ HP) by done. by left.
    + intros k Hk. rewrite Helse.
      * apply (passed_else _ _ _ _ _ _ HP). rewrite heldOfDone_keys. intros Hin. apply Hk. rewrite <- Hbs, fmap_app. apply elem_of_app. by left.
      * rewrite list_elem_of_singleton. intros ->. apply Hk. rewrite <- Hbs, fmap_app, fmap_cons. apply elem_of_app. right. by left.
    + intros. by apply (NoDup_keys_inj bs0).
Qed.

(** *** Trimming to the common grant *)

Lemma trim_step_ne granted re s k h k' : k' <> k ->
  loadOrStore (if h >? granted then if granted ==? 0 then ReleaseReservation k h re s
               else TrimReservation k (i64 (h - granted)) re s else s) k' = loadOrStore s k'.
Proof.
  intros Hk. destruct (_ >? _); [|done]. destruct (_ ==? _); by apply load_Release_ne.
Qed.

Lemma passed_trim s0 firm rem re dn s :
  passed s0 firm rem re dn s -> 0 <= firm + rem ->
  ladderHolds dn.*1 (firm + rem) s0 (trimHeld (firm + rem) (heldOfDone dn) re s).
Proof.
  intros [P1 P2 P3 P4] Hfr. set (gr := firm + rem) in *.
  assert (0 <= re) as Hre by (destruct P4 as [->|[-> _]]; lia).
  destruct (foldl_keys (fun s '(k, h) => if h >? gr then if gr ==? 0 then ReleaseReservation k h re s
      else TrimReservation k (i64 (h - gr)) re s else s)
    (fun h e => if h >? gr then if gr ==? 0 then releaseIf re h e else trimEntry (h - gr) re e else e)
    (heldOfDone dn) s) as [T1 T2]; [|by intros; apply trim_step_ne|done|].
  { intros s' k h Hin. apply elem_heldOfDone in Hin as (b & -> & Hin). destruct (P1 _ _ Hin) as (_ & _ & Hg & Ht).
    destruct (Z.ltb_spec gr h); [|done]. destruct (Z.eqb_spec gr 0); [by apply load_Release|].
    rewrite i64_id by (unfold in_i64, two63; unbound; lia).
    destruct P4 as [->|[-> P4]]; [apply Release_load; lia|]. rewrite (P4 _ _ Hin) in *. lia. }
  split.
  - intros b Hb. apply list_elem_of_fmap in Hb as ([b' h] & -> & Hin). cbn [fst].
    unfold trimHeld. rewrite (T1 (bKey b') h) by (apply elem_heldOfDone; eauto).
    destruct (P1 _ _ Hin) as (Hr & Hh & Hg & Ht). unfold holds in *.
    destruct (Z.ltb_spec gr h) as [Hlt|Hle]; [|by assert (h = gr) as -> by lia].
    destruct P4 as [->|[_ P4]]; [|rewrite (P4 _ _ Hin) in *; lia].
    destruct (Z.eqb_spec h 0); [lia|]. rewrite Hh. destruct (Z.eqb_spec gr 0) as [E|].
    + unfold releaseIf. destruct (Z.leb_spec h 0), (Z.eqb_spec (currentQuotaEpoch env) 0); try lia. cbn [orb].
      right. apply release_addClaim; (done || lia).
    + apply trim_addClaim; (done || lia).
  - intros k Hk. unfold trimHeld. rewrite T2; [apply P2|]; by rewrite heldOfDone_keys.
Qed.

Lemma passed_nil s0 firm rem : passed s0 firm rem 0 [] s0.
Proof. constructor; [by intros ? ? ?%elem_of_nil|done|apply NoDup_nil_2|right; split; [done|by intros ? ? ?%elem_of_nil]]. Qed.

(** *** The firm ladder is the elastic one without an elastic part *)

Lemma ReserveTokens_epoch k want tpm bp s :
  0 < tpm -> 0 < want -> (ReserveTokens env k want tpm bp s).1.1.1 = true ->
  (ReserveTokens env k want tpm bp s).1.2 = currentQuotaEpoch env.
Proof.
  intros Ht Hw. rewrite ReserveTokens_put by done. cbn [fst]. unfold reserveEntry.
  destruct (_ >? _); [done|]. by destruct (_ >? _).
Qed.

Lemma reserveLoop_elastic si want bs : 0 < want -> in_i64 want -> Forall (fun b => 0 < bTpm b) bs ->
  forall taken re s l,
  elasticLoop env si want 0 bs ((fun k => (k, want)) <$> taken) re s l =
  match reserveLoop env si want bs taken re s l with
  | ((true, _, ep), s', l') => (inr (0, (fun k => (k, want)) <$> (taken ++ (bKey <$> bs)), ep), s', l')
  | ((false, retry, _), s', l') => (inl retry, s', l')
  end.
Proof.
  intros Hw Hi Hbs. induction Hbs as [|b bs Hb _ IH]; intros taken re s l; [simpl; by rewrite app_nil_r|].
  simpl. unfold ReserveTokensElastic. destruct (Z.ltb_spec want 0); [lia|]. destruct (Z.leb_spec 0 0); [|lia].
  pose proof (ReserveTokens_epoch (bKey b) want (bTpm b) (bBurstPct b) s Hb Hw) as Hepoch.
  destruct (ReserveTokens env (bKey b) want (bTpm b) (bBurstPct b) s) as [[[ok retry] ep] s1]. cbn [fst snd] in Hepoch.
  destruct ok; cbn [negb andb]; [|by rewrite releaseAll_held].
  rewrite Hepoch by done. destruct (Z.eqb_spec (currentQuotaEpoch env) 0); [lia|]. cbn [negb].
  rewrite Z.sub_diag, i64_id by (unfold in_i64, two63; lia).
  change (Z.min 0 (Z.max 0 0)) with 0.
  change [(bKey b, want)] with ((fun k => (k, want)) <$> [bKey b]). rewrite <- fmap_app. rewrite IH.
  by rewrite <- app_assoc.
Qed.

End Elastic.

(** ** Whole requests *)

Section Requests.
Context {RL : RateLib} {Svc : Type} {RS : RateLimitService Svc} (env : quotaEnv).
Implicit Types (s : RateLimiterStore) (v : Svc).

(** *** The charged buckets are among the released keys *)

Lemma bucketIf_sublist key tpm pct kind : bKey <$> bucketIf key tpm pct kind `sublist_of` [key].
Proof. unfold bucketIf. destruct (_ >? _); [done|apply sublist_nil_l]. Qed.

Lemma bucketIf_pos key tpm pct kind : Forall (fun b => 0 < bTpm b) (bucketIf key tpm pct kind).
Proof. unfold bucketIf. destruct (Z.ltb_spec 0 tpm); repeat constructor. done. Qed.

Lemma tenantBuckets_keys d t m v :
  bKey <$> (tenantBuckets d t m v).1.1 `sublist_of`
    (if t ==s "" then [] else t :: (if m ==s "" then [] else [modelQuotaKey t m])) /\
  Forall (fun b => 0 < bTpm b) (tenantBuckets d t m v).1.1.
Proof.
  unfold tenantBuckets. destruct (t ==s ""); [by split; constructor|].
  destruct (GetTenantRateLimit t v) as [rt v1].
  destruct (match rt with inl (_, t, b) => (t, b) | inr _ => (0, 0) end) as [tpm pct].
  destruct (m ==s ""); cbn [fst snd]; [split; [apply bucketIf_sublist|apply bucketIf_pos]|].
  destruct (GetTenantModelRateLimit t m v1) as [rm v2]. cbn [fst snd]. rewrite fmap_app, Forall_app.
  split; [|split; apply bucketIf_pos]. apply (sublist_app _ [t] _ [_]); apply bucketIf_sublist.
Qed.

Lemma userBuckets_keys d t m u pct v :
  bKey <$> (userBuckets d t m u pct v).1 `sublist_of`
    (if (u ==s "") || (t ==s "") then [] else UserQuotaKey t u :: (if m ==s "" then [] else [UserModelQuotaKey t u m])) /\
  Forall (fun b => 0 < bTpm b) (userBuckets d t m u pct v).1.
Proof.
  unfold userBuckets. destruct (_ || _); [by split; constructor|].
  destruct (GetUserRateLimit t u v) as [rt v1].
  destruct (m ==s ""); cbn [fst snd]; [split; [apply bucketIf_sublist|apply bucketIf_pos]|].
  destruct (GetUserModelRateLimit t u m v1) as [rm v2]. cbn [fst snd]. rewrite fmap_app, Forall_app.
  split; [|split; apply bucketIf_pos]. apply (sublist_app _ [_] _ [_]); apply bucketIf_sublist.
Qed.

Lemma keyBuckets_keys k pct v :
  bKey <$> (keyBuckets k pct v).1 `sublist_of` (if k ==s "" then [] else [KeyQuotaKey k]) /\
  Forall (fun b => 0 < bTpm b) (keyBuckets k pct v).1.
Proof.
  unfold keyBuckets. destruct (k ==s ""); [by split; constructor|].
  destruct (GetAPIKeyByID k v) as [[key|e] v1]; cbn [fst]; [split; [apply bucketIf_sublist|apply bucketIf_pos]|].
  split; [apply sublist_nil_l|constructor].
Qed.

Lemma quotaBuckets_keys t m u k si svc :
  bKey <$> (quotaBucketsFor t m u k si svc).1 `sublist_of` quotaReleaseKeysFor t m u k si /\
  Forall (fun b => 0 < bTpm b) (quotaBucketsFor t m u k si svc).1.
Proof.
  unfold quotaBucketsFor, quotaReleaseKeysFor. destruct svc as [v|]; [|split; [apply sublist_nil_l|constructor]].
  destruct (resolveQoSDefaults si (Some v)) as [rd sv].
  set (d := match rd with inl d => d | inr _ => zeroDefaults end). set (v0 := default v sv).
  pose proof (tenantBuckets_keys d t m v0) as [T1 T2]. destruct (tenantBuckets d t m v0) as [[tb pct] v1].
  pose proof (userBuckets_keys d t m u pct v1) as [U1 U2]. destruct (userBuckets d t m u pct v1) as [ub v2].
  pose proof (keyBuckets_keys k pct v2) as [K1 K2]. destruct (keyBuckets k pct v2) as [kb v3].
  cbn [fst snd] in *. rewrite !fmap_app, !Forall_app. split.
  - assert (forall (x y z w : list string), (if t ==s "" then [] else t :: x ++ (if u ==s "" then [] else y)) =
      (if t ==s "" then [] else t :: x) ++ (if (u ==s "") || (t ==s "") then [] else y)) as Hsplit.
    { intros. destruct (t ==s ""), (u ==s ""); simpl; by rewrite ?app_nil_r. }
    rewrite Hsplit by exact []. rewrite <- app_assoc. repeat apply sublist_app; try done.
    destruct (si ==s ""); [apply sublist_nil_l|apply bucketIf_sublist].
  - split_and!; try done. destruct (si ==s ""); [constructor|apply bucketIf_pos].
Qed.

Lemma quotaBuckets_NoDup t m u k si svc :
  ValidateQoSIdentity t = true -> ValidateQoSIdentity u = true ->
  NoDup (bKey <$> (quotaBucketsFor t m u k si svc).1).
Proof.
  intros Ht Hu. eapply sublist_NoDup; [apply (releaseKeys_NoDup t m u k si Ht Hu)|apply (quotaBuckets_keys t m u k si svc)].
Qed.

(** *** Reservation *)

Lemma reserveLoop_spec si want bs s l :
  env_ok env -> 0 < currentQuotaEpoch env -> 0 < want -> tokens_ok want ->
  NoDup (bKey <$> bs) -> Forall (fun b => 0 < bTpm b) bs -> bs <> [] ->
  (forall b, b ∈ bs -> ready env b (loadOrStore s (bKey b))) ->
  let '((ok, retry, ep), s', l') := reserveLoop env si want bs [] 0 s l in
  if ok then ladderHolds env bs want s s' /\ ep = currentQuotaEpoch env /\ retry = 0
  else ladderHolds env bs 0 s s' /\ 1 <= retry <= 60 /\ ep = 0.
Proof.
  intros He Hep Hw Ht Hnd Hpos Hne Hready.
  pose proof (elasticLoop_spec env He Hep s si want bs Ht Hnd bs [] 0 0 s l (passed_nil env s want 0)
    ltac:(unbound; lia) eq_refl Hready) as H.
  pose proof (reserveLoop_elastic env Hep si want bs Hw ltac:(unfold in_i64, two63; unbound; lia) Hpos [] 0 s l) as E.
  change ((fun k : string => (k, want)) <$> []) with (heldOfDone []) in E. rewrite E in H. clear E.
  assert (forall bs taken re s l, (reserveLoop env si want bs taken re s l).1.1.1.1 = true ->
    (reserveLoop env si want bs taken re s l).1.1.1.2 = 0) as Hretry.
  { clear. induction bs as [|b bs IH]; intros taken re s l; simpl; [done|].
    destruct (ReserveTokens _ _ _ _ _ _) as [[[ok r] ep] s1]. destruct ok; cbn [negb]; [apply IH|done]. }
  assert (forall bs taken re s l, (reserveLoop env si want bs taken re s l).1.1.1.1 = false ->
    (reserveLoop env si want bs taken re s l).1.1.2 = 0) as Hden.
  { clear. induction bs as [|b bs IH]; intros taken re s l; simpl; [done|].
    destruct (ReserveTokens _ _ _ _ _ _) as [[[ok r] ep] s1]. destruct ok; cbn [negb]; [apply IH|done]. }
  specialize (Hretry bs [] 0 s l). specialize (Hden bs [] 0 s l).
  destruct (reserveLoop env si want bs [] 0 s l) as [[[[ok retry] ep] s'] l']. cbn [fst snd] in *.
  destruct ok; [|by destruct H as [? ?]; split_and!; auto; lia].
  destruct H as (dn & Hheld & Hdn & [P1 P2 P3 P4] & Hrem).
  assert (forall b g, (b, g) ∈ dn -> g = want) as Hg.
  { intros b g Hin. assert ((bKey b, g) ∈ heldOfDone dn) as Hk by (apply elem_heldOfDone; eauto).
    rewrite <- Hheld in Hk. apply list_elem_of_fmap in Hk as (k0 & [= _ ->] & _). done. }
  split_and!; [split|..|by apply Hretry].
  - intros b Hb. rewrite <- Hdn in Hb. apply list_elem_of_fmap in Hb as ([b' g] & -> & Hin). cbn [fst].
    rewrite <- (Hg _ _ Hin). by apply P1.
  - rewrite <- Hdn, <- heldOfDone_keys. exact P2.
  - destruct P4 as [->|[_ P4]]; [done|exfalso]. destruct dn as [|[b g] dn]; [by rewrite <- Hdn in Hne|].
    pose proof (Hg b g ltac:(by left)). pose proof (P4 b g ltac:(by left)). lia.
Qed.

Lemma ladderHolds_refl bs s : ladderHolds env bs 0 s s.
Proof. split; [by left|done]. Qed.

Lemma reserveInternal_spec t m u k si want svc s l :
  env_ok env -> 0 < currentQuotaEpoch env ->
  ValidateQoSIdentity t = true -> ValidateQoSIdentity u = true -> tokens_ok want ->
  let bs := (quotaBucketsFor t m u k si svc).1 in
  (forall b, b ∈ bs -> ready env b (loadOrStore s (bKey b))) ->
  let '((ok, retry, ep), svc', s', l') := tokenQuotaReserveInternal env t m u k si want svc s l in
  let granted := if ok && (ep !=? 0) then want else 0 in
  ladderHolds env bs granted s s' /\ ep = (if granted =? 0 then 0 else currentQuotaEpoch env) /\
  if ok then retry = 0 /\ (bs <> [] -> t <> "" \/ si <> "" -> granted = want) else 1 <= retry <= 60.
Proof.
  intros He Hep Ht Hu Hw bs Hready. unfold tokenQuotaReserveInternal.
  assert (0 = (if 0 =? 0 then 0 else currentQuotaEpoch env)) as Hz by done.
  destruct (Z.leb_spec want 0) as [Hw0|Hw0]; cbn [orb].
  { assert (want = 0) as -> by (unbound; lia). cbn [andb negb Z.eqb]. split_and!; try done. apply ladderHolds_refl. }
  destruct ((t ==s "") && (si ==s "")) eqn:Hid.
  { apply andb_true_iff in Hid as [->%String.eqb_eq ->%String.eqb_eq]. cbn [andb negb Z.eqb].
    split_and!; try done; [apply ladderHolds_refl|]. by intros _ [?|?]. }
  pose proof (quotaBuckets_NoDup t m u k si svc Ht Hu) as Hnd. destruct (quotaBuckets_keys t m u k si svc) as [_ Hpos].
  unfold bs in *. destruct (quotaBucketsFor t m u k si svc) as [[|b bs'] svc']; cbn [fst] in *.
  { cbn [andb negb Z.eqb]. split_and!; try done. apply ladderHolds_refl. }
  pose proof (reserveLoop_spec si want (b :: bs') s l He Hep Hw0 Hw Hnd Hpos ltac:(done) Hready) as HL.
  destruct (reserveLoop env si want (b :: bs') [] 0 s l) as [[[[ok retry] ep] s'] l'].
  destruct ok; [destruct HL as (H1 & -> & ->)|destruct HL as (H1 & H2 & ->)]; cbn [andb]; [|exact (conj H1 (conj eq_refl H2))].
  destruct (Z.eqb_spec (currentQuotaEpoch env) 0); [lia|]. cbn [negb].
  destruct (Z.eqb_spec want 0); [lia|]. exact (conj H1 (conj eq_refl (conj eq_refl (fun _ _ => eq_refl)))).
Qed.

Lemma reserveElastic_spec t m u k si firm elastic svc s l :
  env_ok env -> 0 < currentQuotaEpoch env ->
  ValidateQoSIdentity t = true -> ValidateQoSIdentity u = true ->
  tokens_ok firm -> tokens_ok elastic ->
  let bs := (quotaBucketsFor t m u k si svc).1 in
  (forall b, b ∈ bs -> ready env b (loadOrStore s (bKey b))) ->
  let '((ok, retry, ep, granted, why), svc', s', l') :=
    tokenQuotaReserveElasticReason env t m u k si firm elastic svc s l in
  ladderHolds env bs granted s s' /\ ep = (if granted =? 0 then 0 else currentQuotaEpoch env) /\
  if ok then retry = 0 /\ 0 <= granted <= firm + elastic /\
    (bs <> [] -> t <> "" \/ si <> "" -> firm <= granted /\ (why = resvClampNone <-> granted = firm + elastic))
  else 1 <= retry <= 60 /\ granted = 0.
Proof.
  intros He Hep Ht Hu Hf Hel bs Hready. unfold tokenQuotaReserveElasticReason.
  destruct (Z.ltb_spec firm 0); [unbound; lia|].
  destruct (Z.leb_spec elastic 0) as [Hel0|Hel0].
  { assert (elastic = 0) as -> by (unbound; lia).
    pose proof (reserveInternal_spec t m u k si firm svc s l He Hep Ht Hu Hf Hready) as H0.
    destruct (tokenQuotaReserveInternal env t m u k si firm svc s l) as [[[[[ok retry] ep] svc'] s'] l'].
    cbv zeta in H0. fold bs in H0. destruct H0 as (H1 & H2 & H3). split; [done|]. split; [done|].
    destruct ok; [|done]. destruct H3 as [-> H3]. cbn [andb] in *. unbound.
    split_and!; [done|destruct (negb _); lia..|]. intros Hne Hid. rewrite (H3 Hne Hid). lia || (split; [lia|]; split; [lia|done]). }
  pose proof (quotaBuckets_NoDup t m u k si svc Ht Hu) as Hnd. destruct (quotaBuckets_keys t m u k si svc) as [_ Hpos].
  fold bs in Hnd, Hpos.
  destruct ((t ==s "") && (si ==s "")) eqn:Hid.
  { apply andb_true_iff in Hid as [->%String.eqb_eq ->%String.eqb_eq].
    split; [apply ladderHolds_refl|]. split; [done|]. unbound. split_and!; [done|lia..|naive_solver]. }
  unfold bs in *. destruct (quotaBucketsFor t m u k si svc) as [bs0 svc']. cbn [fst] in *.
  destruct bs0 as [|b bs'].
  { split; [apply ladderHolds_refl|]. split; [done|]. unbound. split_and!; [done|lia..|naive_solver]. }
  pose proof (elasticLoop_spec env He Hep s si firm (b :: bs') Hf Hnd (b :: bs') [] elastic 0 s l
    (passed_nil env s firm elastic) Hel eq_refl Hready) as HL. change (heldOfDone []) with (@nil (string * Z)) in HL.
  destruct (elasticLoop env si firm elastic (b :: bs') [] 0 s l) as [[[retry|[[rem held] re]] s'] l'];
    [by destruct HL|].
  destruct HL as (dn & -> & Hdn & HP & Hrem).
  pose proof (passed_trim env Hep s firm rem re dn s' HP ltac:(unbound; lia)) as HT. rewrite Hdn in HT.
  rewrite (i64_id (firm + rem)) by (unfold in_i64, two63; unbound; lia).
  assert (firm + rem <> 0 -> re = currentQuotaEpoch env) as Hre.
  { destruct HP as [P1 _ _ [?|[_ P4]]]; [done|]. destruct dn as [|[b0 g0] dn]; [done|].
    pose proof (P4 b0 g0 ltac:(by left)). destruct (P1 b0 g0 ltac:(by left)) as (_ & _ & ? & _). unbound. lia. }
  set (why := if rem <? elastic then _ else _).
  assert (why = resvClampNone <-> firm + rem = firm + elastic) as Hwhy.
  { unfold why. destruct (Z.ltb_spec rem elastic); [destruct (overBurst _ _ _ _)|]; split; done || lia. }
  destruct (Z.eqb_spec (firm + rem) 0) as [E|E].
  - rewrite E in HT, Hwhy |- *. split; [done|]. split; [done|]. unbound. split_and!; [done|lia..|]. intros. split; [lia|done].
  - rewrite (Hre E) in HT |- *. destruct (Z.eqb_spec (firm + rem) 0); [done|]. split; [done|]. split; [done|]. unbound.
    split_and!; [done|lia..|]. intros. split; [lia|done].
Qed.

(** C23: across every bucket of a request the reservation is all or nothing: a
    refusal leaves no claim on any of them and advises 1 to 60 seconds, an
    admission leaves one and the same claim on each, no less than the firm part,
    clamped exactly when it is reported clamped, and tagged with the current
    minute iff there is anything to release.  Buckets of other requests are
    untouched. *)
Theorem reserve_ladder_all_or_nothing t m u k si firm elastic svc s l :
  env_ok env -> 0 < currentQuotaEpoch env ->
  ValidateQoSIdentity t = true -> ValidateQoSIdentity u = true ->
  tokens_ok firm -> tokens_ok elastic ->
  (forall b, b ∈ (quotaBucketsFor t m u k si svc).1 -> ready env b (loadOrStore s (bKey b))) ->
  let bs := (quotaBucketsFor t m u k si svc).1 in
  let '((ok, retry, ep, granted, why), svc', s', l') :=
    tokenQuotaReserveElasticReason env t m u k si firm elastic svc s l in
  ladderHolds env bs granted s s' /\ ep = (if granted =? 0 then 0 else currentQuotaEpoch env) /\
  if ok then retry = 0 /\ 0 <= granted <= firm + elastic /\
    (bs <> [] -> t <> "" \/ si <> "" -> firm <= granted /\ (why = resvClampNone <-> granted = firm + elastic))
  else 1 <= retry <= 60 /\ granted = 0.
Proof. intros. by apply reserveElastic_spec. Qed.

(** *** Settlement *)

Definition inKeys (k : string) (ks : list string) : bool := bool_decide (k ∈ ks).

(** A bucket after the request's release. *)
Definition releasedBy (t m u k si : string) (amt ep : Z) (key : string) (e : tokenWindowEntry) : tokenWindowEntry :=
  if inKeys key (quotaReleaseKeysFor t m u k si) then releaseIf ep amt e else e.

Lemma release_spec t m u k si amt ep s key :
  ValidateQoSIdentity t = true -> ValidateQoSIdentity u = true -> 0 <= ep ->
  loadOrStore (tokenQuotaReleaseInternal t m u k si amt ep s) key = releasedBy t m u k si amt ep key (loadOrStore s key).
Proof.
  intros Ht Hu Hep. unfold tokenQuotaReleaseInternal, releasedBy, inKeys.
  pose proof (releaseKeys_NoDup t m u k si Ht Hu) as Hnd. set (ks := quotaReleaseKeysFor t m u k si) in *.
  destruct (Z.leb_spec amt 0) as [Ha|Ha].
  { unfold releaseIf. destruct (Z.leb_spec amt 0); [|lia]. simpl. by case_bool_decide. }
  rewrite releaseAll_held.
  assert (((fun k => (k, amt)) <$> ks).*1 = ks) as Hfst.
  { rewrite <- list_fmap_compose. by apply list_fmap_id. }
  destruct (releaseHeld_load ep ((fun k => (k, amt)) <$> ks) s Hep ltac:(by rewrite Hfst)) as [R1 R2].
  case_bool_decide as Hin; [|apply R2; by rewrite Hfst].
  apply R1. apply list_elem_of_fmap. eauto.
Qed.

Lemma release_no_claim ep amt e :
  entry_ok e -> reserved e = 0 -> claims e = 0 -> tokens_ok amt -> releaseIf ep amt e = e.
Proof.
  intros Hok Hr Hc Ha. unfold releaseIf, releaseEntry. destruct (_ || _) eqn:Hz; [done|].
  apply orb_false_iff in Hz as [Ha0%Z.leb_gt _]. destruct (negb _); [done|].
  unfold reservedSubClamp, claimsSubClamp. rewrite Hr. simpl. rewrite i64_id by (unfold in_i64, two63; unbound; lia).
  destruct (Z.ltb_spec (0 - amt) 0); [|lia]. simpl. rewrite Hc. simpl. destruct e; simpl in *. by subst.
Qed.

(** C24: settlement gives back what admission reserved.  After an admitted
    reservation, releasing what it granted leaves every bucket of the request
    with the claims it had before, even when the key service would by then name
    other buckets (the release reads no configuration); a bucket the request
    did not reserve on is unchanged unless it is one of the request's own keys
    and holds somebody's claim. *)
Theorem settlement_returns_the_reservation t m u k si firm elastic svc s l key :
  env_ok env -> 0 < currentQuotaEpoch env ->
  ValidateQoSIdentity t = true -> ValidateQoSIdentity u = true ->
  tokens_ok firm -> tokens_ok elastic -> firm + elastic <= 70368744177664 ->
  (forall b, b ∈ (quotaBucketsFor t m u k si svc).1 -> ready env b (loadOrStore s (bKey b))) ->
  let bs := (quotaBucketsFor t m u k si svc).1 in
  let '((ok, _, ep, granted, _), _, s', _) := tokenQuotaReserveElasticReason env t m u k si firm elastic svc s l in
  let s'' := tokenQuotaReleaseInternal t m u k si granted ep s' in
  ok = true ->
  (forall b, b ∈ bs -> holds env b 0 (loadOrStore s (bKey b)) (loadOrStore s'' (bKey b))) /\
  (key ∉ (bKey <$> bs) ->
   (key ∈ quotaReleaseKeysFor t m u k si ->
     entry_ok (loadOrStore s key) /\ reserved (loadOrStore s key) = 0 /\ claims (loadOrStore s key) = 0) ->
   loadOrStore s'' key = loadOrStore s key).
Proof.
  intros He Hep Ht Hu Hf Hel Hsum Hready bs.
  pose proof (reserveElastic_spec t m u k si firm elastic svc s l He Hep Ht Hu Hf Hel Hready) as H. fold bs in H.
  destruct (quotaBuckets_keys t m u k si svc) as [Hsub _].
  destruct (tokenQuotaReserveElasticReason env t m u k si firm elastic svc s l)
    as [[[[[[[ok retry] ep] granted] why] svc'] s'] l']. cbv zeta. intros ->.
  destruct H as ([H1 H2] & -> & _ & Hg & _).
  assert (tokens_ok granted) as Hgt by (unbound; lia).
  assert (0 <= (if granted =? 0 then 0 else currentQuotaEpoch env)) by (destruct (_ =? _); lia).
  split.
  - intros b Hb. rewrite release_spec by done. unfold releasedBy, inKeys. rewrite bool_decide_true.
    2: { eapply elem_of_submseteq; [|apply sublist_submseteq, Hsub]. apply list_elem_of_fmap. eauto. }
    specialize (H1 b Hb). unfold holds in *. rewrite Z.eqb_refl. destruct (Z.eqb_spec granted 0) as [->|Hne].
    + unfold releaseIf. destruct (Z.leb_spec 0 0); [done|lia].
    + rewrite H1. unfold releaseIf. destruct (Z.leb_spec granted 0), (Z.eqb_spec (currentQuotaEpoch env) 0); try lia.
      cbn [orb]. right. apply release_addClaim; [by apply Hready|lia|done].
  - intros Hnin Hown. rewrite release_spec by done. unfold releasedBy, inKeys. rewrite H2 by done.
    case_bool_decide as Hin; [|done]. destruct (Hown Hin) as (O1 & O2 & O3). by apply release_no_claim.
Qed.

(** *** The charge *)

(** What charging [count] does to a bucket, and its verdict. *)
Definition chargeOf (count : Z) (b : quotaBucket) (e : tokenWindowEntry) : (bool * Z) * tokenWindowEntry :=
  if count <=? 0 then ((true, 0), e) else allowEntry env count (bTpm b) (bBurstPct b) e.

Lemma SettleTokens_charge key count tpm bp s :
  SettleTokens env key count 0 0 tpm bp s = if count <=? 0 then ((true, 0), s) else AllowTokens env key count tpm bp s.
Proof. reflexivity. Qed.

Lemma settle_charge b count s : 0 < bTpm b ->
  let r := chargeOf count b (loadOrStore s (bKey b)) in
  let r' := SettleTokens env (bKey b) count 0 0 (bTpm b) (bBurstPct b) s in
  r'.1 = r.1 /\ loadOrStore r'.2 (bKey b) = r.2 /\ sameElse [bKey b] s r'.2.
Proof.
  intros Hb. rewrite SettleTokens_charge. unfold chargeOf.
  destruct (Z.leb_spec count 0); [exact (conj eq_refl (conj eq_refl (fun _ _ => eq_refl)))|].
  rewrite AllowTokens_put by lia.
  destruct (allowEntry env count (bTpm b) (bBurstPct b) (loadOrStore s (bKey b))) as [vd e]. cbv zeta. cbn [fst snd].
  split; [reflexivity|]. split; [apply load_put_eq|apply sameElse_put].
Qed.

Lemma chargeLoop_spec primary count bs : Forall (fun b => 0 < bTpm b) bs -> NoDup (bKey <$> bs) ->
  forall ok retry pr s,
  let r := chargeLoop env primary count bs (ok, retry, pr) s in
  let ch b := chargeOf count b (loadOrStore s (bKey b)) in
  (forall b, b ∈ bs -> loadOrStore r.2 (bKey b) = (ch b).2) /\ sameElse (bKey <$> bs) s r.2 /\
  (r.1.1.1 = true <-> ok = true /\ forall b, b ∈ bs -> (ch b).1.1 = true).
Proof.
  intros Hpos. induction Hpos as [|b bs Hb Hpos IH]; intros Hnd ok retry pr s; simpl.
  { split; [by intros ? ?%elem_of_nil|]. split; [done|]. split; [|by intros [? _]].
    intros; split; [done|]. by intros ? ?%elem_of_nil. }
  rewrite fmap_cons in Hnd. apply NoDup_cons in Hnd as [Hfresh Hnd].
  destruct (settle_charge b count s Hb) as (S1 & S2 & S3).
  destruct (SettleTokens env (bKey b) count 0 0 (bTpm b) (bBurstPct b) s) as [[ok1 r1] s1]. cbn [fst snd] in *.
  assert (forall b', b' ∈ bs -> loadOrStore s1 (bKey b') = loadOrStore s (bKey b')) as Hs1.
  { intros b' Hb'. apply S3. rewrite list_elem_of_singleton. intros Heq. apply Hfresh. rewrite <- Heq.
    apply list_elem_of_fmap. eauto. }
  set (acc := if negb ok1 then (false, Z.max retry r1, pr || (bKey b ==s primary)) else (ok, retry, pr || (bKey b ==s primary))).
  assert (acc.1.1 = ok && ok1) as Hacc by (unfold acc; destruct ok1; simpl; by rewrite ?andb_true_r, ?andb_false_r).
  destruct acc as [[ok2 retry2] pr2]. simpl in Hacc. specialize (IH Hnd ok2 retry2 pr2 s1).
  destruct IH as (I1 & I2 & I3). split_and!.
  - intros b' [->|Hb']%elem_of_cons; [by rewrite I2|]. rewrite I1 by done. by rewrite Hs1.
  - intros k' [Hk Hk']%not_elem_of_cons. rewrite I2 by done. apply S3. by rewrite list_elem_of_singleton.
  - rewrite I3, Hacc, andb_true_iff. split.
    + intros [[-> Hok1] H]. split; [done|]. intros b' [->|Hb']%elem_of_cons; [by rewrite <- S1|].
      rewrite <- Hs1 by done. by apply H.
    + intros [-> H]. split; [split; [done|]|].
      * specialize (H b ltac:(by left)). by rewrite <- S1 in H.
      * intros b' Hb'. rewrite Hs1 by done. apply H. by right.
Qed.

(** Settlement releases the request's reservation and then charges the
    tokens used exactly once on every bucket whose limit resolves now; no other
    bucket changes.  The verdict is refusal iff some bucket ended in debt. *)
Theorem consume_charges_each_bucket_once t m u k si count amt ep svc s :
  ValidateQoSIdentity t = true -> ValidateQoSIdentity u = true -> 0 <= ep ->
  t <> "" \/ si <> "" ->
  let bs := (quotaBucketsFor t m u k si svc).1 in
  let '((ok, retry), svc', s') := tokenQuotaConsumeInternal env t m u k si count amt ep svc s in
  let ch b := chargeOf count b (releasedBy t m u k si amt ep (bKey b) (loadOrStore s (bKey b))) in
  (forall b, b ∈ bs -> loadOrStore s' (bKey b) = (ch b).2) /\
  (forall key, key ∉ (bKey <$> bs) -> loadOrStore s' key = releasedBy t m u k si amt ep key (loadOrStore s key)) /\
  (ok = true <-> forall b, b ∈ bs -> (ch b).1.1 = true).
Proof.
  intros Ht Hu Hep Hid bs. unfold tokenQuotaConsumeInternal.
  assert ((t ==s "") && (si ==s "") = false) as ->.
  { destruct (String.eqb_spec t ""), (String.eqb_spec si ""); naive_solver. }
  pose proof (quotaBuckets_NoDup t m u k si svc Ht Hu) as Hnd. destruct (quotaBuckets_keys t m u k si svc) as [_ Hpos].
  unfold bs in *. destruct (quotaBucketsFor t m u k si svc) as [bs0 svc']. cbn [fst] in *.
  destruct ((amt <=? 0) && ((count <=? 0) || match bs0 with [] => true | _ => false end)) eqn:Hskip.
  - apply andb_true_iff in Hskip as [Ha Hc].
    assert (forall key e, releasedBy t m u k si amt ep key e = e) as Hrel.
    { intros. unfold releasedBy, releaseIf. rewrite Ha. simpl. by destruct (inKeys _ _). }
    unfold chargeOf. split_and!; [..|split; [intros _|done]].
    + intros b Hb. rewrite Hrel. destruct (count <=? 0); [done|]. destruct bs0; [by apply elem_of_nil in Hb|done].
    + intros. by rewrite Hrel.
    + intros b Hb. rewrite Hrel. destruct (count <=? 0); [done|]. destruct bs0; [by apply elem_of_nil in Hb|done].
  - set (s1 := tokenQuotaReleaseInternal t m u k si amt ep s).
    set (pk := if t ==s "" then VipSharedQuotaKey si else t).
    pose proof (chargeLoop_spec pk count bs0 Hpos Hnd true 0 false s1) as (C1 & C2 & C3).
    destruct (chargeLoop env pk count bs0 (true, 0, false) s1) as [[[ok retry] settled] s2]. cbn [fst snd] in *.
    assert (forall key, loadOrStore s1 key = releasedBy t m u k si amt ep key (loadOrStore s key)) as Hs1
      by (intros; by apply release_spec).
    assert (SettleTokens env pk count 0 0 0 0 s2 = ((true, 0), s2)) as Hprim.
    { rewrite SettleTokens_charge. destruct (count <=? 0); reflexivity. }
    rewrite Hprim.
    assert (forall b, b ∈ bs0 -> loadOrStore s2 (bKey b) =
       (chargeOf count b (releasedBy t m u k si amt ep (bKey b) (loadOrStore s (bKey b)))).2) as G1
      by (intros b Hb; rewrite <- Hs1; by apply C1).
    assert (forall key, key ∉ (bKey <$> bs0) -> loadOrStore s2 key = releasedBy t m u k si amt ep key (loadOrStore s key)) as G2
      by (intros key Hk; rewrite <- Hs1; by apply C2).
    assert (ok = true <-> forall b, b ∈ bs0 ->
       (chargeOf count b (releasedBy t m u k si amt ep (bKey b) (loadOrStore s (bKey b)))).1.1 = true) as G3.
    { rewrite C3. split; [intros [_ H] b Hb; rewrite <- Hs1; by apply H|].
      intros H. split; [done|]. intros b Hb. rewrite Hs1. by apply H. }
    by destruct settled.
Qed.

End Requests.

(** ** Witnesses *)

Lemma zero_ready b : limit_ok (bTpm b) -> ready (envAt 10 600000) b zeroEntry.
Proof.
  intros Hl. split; [done|]. split; [|by apply Z.leb_le].
  unfold bucket_ok, time_ok, envAt. cbn [tatMs zeroEntry reserved claims quotaNowMs currentQuotaEpoch].
  unfold limit_ok, two63 in *. pose proof zeroEntry_ok. split_and!; try done; lia.
Qed.

Definition theSvc : option fixedSvc := Some tt.

Lemma fixed_buckets :
  (quotaBucketsFor "acme" "m" "bob" "k1" "" theSvc).1 =
    [Bucket "acme" 100 0 FcResvBucketTenant; Bucket "acme|m" 40 0 FcResvBucketTenantModel].
Proof. reflexivity. Qed.

Lemma fixed_ready b :
  b ∈ (quotaBucketsFor "acme" "m" "bob" "k1" "" theSvc).1 ->
  ready (envAt 10 600000) b (loadOrStore New (bKey b)).
Proof.
  intros Hb. change (loadOrStore New (bKey b)) with zeroEntry. apply zero_ready.
  rewrite fixed_buckets, !elem_of_cons in Hb. unfold limit_ok. destruct Hb as [->|[->|[]%elem_of_nil]]; simpl; lia.
Qed.

Definition noResv : resvLedger := ∅.

#[local] Abbreviation demoReserve :=
  (tokenQuotaReserveElasticReason (envAt 10 600000) "acme" "m" "bob" "k1" "" 30 20 theSvc New noResv).

Lemma reserve_ladder_witness :
  demoReserve.1.1.1 = (true, 0, 10, 40, resvClampBurst) /\
  holds (envAt 10 600000) (Bucket "acme" 100 0 FcResvBucketTenant) 40 (loadOrStore New "acme")
    (loadOrStore demoReserve.1.2 "acme").
Proof.
  assert (demoReserve.1.1.1 = (true, 0, 10, 40, resvClampBurst)) as E by (vm_compute; reflexivity).
  split; [exact E|].
  pose proof (reserve_ladder_all_or_nothing (envAt 10 600000) "acme" "m" "bob" "k1" "" 30 20 theSvc New noResv
    (envAt_ok _ _) ltac:(vm_compute; reflexivity) eq_refl eq_refl ltac:(unfold tokens_ok; lia) ltac:(unfold tokens_ok; lia)
    fixed_ready) as H.
  destruct demoReserve as [[[[[[[ok retry] ep] granted] why] svc'] s'] l'].
  cbn [fst snd] in *. injection E as -> -> -> -> ->. destruct H as ([H _] & _).
  rewrite fixed_buckets in H. exact (H (Bucket "acme" 100 0 FcResvBucketTenant) ltac:(left)).
Defined.

Lemma settlement_witness :
  holds (envAt 10 600000) (Bucket "acme|m" 40 0 FcResvBucketTenantModel) 0 (loadOrStore New "acme|m")
    (loadOrStore (tokenQuotaReleaseInternal "acme" "m" "bob" "k1" "" 40 10 demoReserve.1.2) "acme|m").
Proof.
  assert (demoReserve.1.1.1 = (true, 0, 10, 40, resvClampBurst)) as E by (vm_compute; reflexivity).
  pose proof (settlement_returns_the_reservation (envAt 10 600000) "acme" "m" "bob" "k1" "" 30 20 theSvc New noResv "x"
    (envAt_ok _ _) ltac:(vm_compute; reflexivity) eq_refl eq_refl ltac:(unfold tokens_ok; lia) ltac:(unfold tokens_ok; lia)
    ltac:(lia) fixed_ready) as H.
  destruct demoReserve as [[[[[[[ok retry] ep] granted] why] svc'] s'] l'].
  cbn [fst snd] in *. injection E as -> -> -> -> ->. destruct (H eq_refl) as [H1 _].
  rewrite fixed_buckets in H1.
  exact (H1 (Bucket "acme|m" 40 0 FcResvBucketTenantModel) ltac:(right; left)).
Defined.

Lemma consume_witness :
  (tokenQuotaConsumeInternal (envAt 10 600000) "acme" "m" "bob" "k1" "" 25 40 10 theSvc demoReserve.1.2).1.1 = (true, 0) /\
  loadOrStore (tokenQuotaConsumeInternal (envAt 10 600000) "acme" "m" "bob" "k1" "" 25 40 10 theSvc demoReserve.1.2).2 "acme"
    = Entry 10 615000 0 0 10 100 0.
Proof.
  split; [vm_compute; reflexivity|].
  pose proof (consume_charges_each_bucket_once (envAt 10 600000) "acme" "m" "bob" "k1" "" 25 40 10 theSvc demoReserve.1.2
    eq_refl eq_refl ltac:(lia) ltac:(by left)) as H. cbv zeta in H.
  destruct (tokenQuotaConsumeInternal _ _ _ _ _ _ _ _ _ _ _) as [[[ok retry] svc'] s']. destruct H as [H _]. cbn [snd].
  rewrite fixed_buckets in H.
  refine (eq_trans (H (Bucket "acme" 100 0 FcResvBucketTenant) ltac:(left)) _). vm_compute. reflexivity.
Defined.
