(* ===== verification/Classes.v ===== *)
(** * Classes: objectives, class policies and the class of a request

    Models the validation and stored form of class policies and objectives
    (pkg/aikey/classes.go, pkg/aikey/class_patch.go) and the resolver of
    pkg/loxinet/ai_class.go with its export and switch (ai_class_dp.go,
    ai_class_config.go).  Priorities are int32 values; the resolver only
    compares them, so no arithmetic can leave that range. *)

From S2P Require Import Prelude StoreErr Objective Common Admission Gateway.
From Stdlib Require Import Ascii.

Open Scope Z_scope.
Open Scope igw_scope.

(** ** Validation and stored form (pkg/aikey/classes.go) *)

(** A validation error names its field. *)
Inductive validationError := ValidationError (field : string).

Definition byteBetween (lo hi c : ascii) : bool :=
  (N_of_ascii lo <=? N_of_ascii c)%N && (N_of_ascii c <=? N_of_ascii hi)%N.

Definition objectiveByte (c : ascii) : bool :=
  byteBetween "a" "z" c || byteBetween "A" "Z" c || byteBetween "0" "9" c
  || Ascii.eqb c "-" || Ascii.eqb c "_" || Ascii.eqb c ".".

Fixpoint allBytes (f : ascii -> bool) (s : string) : bool :=
  match s with
  | EmptyString => true
  | String c r => f c && allBytes f r
  end.

Definition validObjectiveName (name : string) : bool :=
  if (name ==s "") || (AIObjectiveNameMax <? String.length name)%nat then false
  else allBytes objectiveByte name.

(** strings.ToLower on the ASCII names it is applied to here. *)
Definition lowerByte (c : ascii) : ascii :=
  if byteBetween "A" "Z" c then ascii_of_N (N_of_ascii c + 32) else c.

Fixpoint ToLower (s : string) : string :=
  match s with
  | EmptyString => EmptyString
  | String c r => String (lowerByte c) (ToLower r)
  end.

Definition comma : ascii := ","%char.

(** The bytes a service name may not hold: comma, space, tab, CR, LF. *)
Definition serviceBadByte (c : ascii) : bool :=
  Ascii.eqb c comma || Ascii.eqb c " " || Ascii.eqb c "009" || Ascii.eqb c "013" || Ascii.eqb c "010".

Definition validService (svc : string) : bool :=
  negb ((svc ==s "") || negb (allBytes (fun c => negb (serviceBadByte c)) svc)).

(** The loop both validators run: refuse an invalid element, skip one already
    seen, keep the others in order. *)
Fixpoint dedupLoop (ok : string -> bool) (seen : gset string) (l : list string) : option (list string) :=
  match l with
  | [] => Some []
  | n :: r =>
      if negb (ok n) then None
      else if decide (n ∈ seen) then dedupLoop ok seen r
      else (n ::.) <$> dedupLoop ok ({[n]} ∪ seen) r
  end.

(** [sort.Strings]. *)
Definition sortStrings (l : list string) : list string := merge_sort String.le l.

Definition ValidateObjective (e : AIObjectiveEntry) : AIObjectiveEntry + validationError :=
  if negb (validObjectiveName (oName e)) then inr (ValidationError "name")
  else if HasPrefix (ToLower (oName e)) "tier:" then inr (ValidationError "name")
  else if (AIObjectiveServicesMax <? length (oServices e))%nat then inr (ValidationError "services")
  else match dedupLoop validService ∅ (oServices e) with
       | None => inr (ValidationError "services")
       | Some out => inl (Objective (oName e) (sortStrings out) (oPriority e) (oUpdatedAt e))
       end.

Definition validClassName (c : string) : bool :=
  (c ==s "") || (c ==s AIClassStandard) || (c ==s AIClassCritical) || (c ==s AIClassSheddable).

Definition validAllowed (name : string) : bool :=
  negb (negb (validObjectiveName name) && negb (IsAITierObjective name)).

Definition ValidateClassPolicy (p : AIClassPolicy) : AIClassPolicy + validationError :=
  if negb (validClassName (PriorityClass p)) then inr (ValidationError "priority_class")
  else if negb (DefaultObjective p ==s "") && negb (validObjectiveName (DefaultObjective p))
  then inr (ValidationError "default_objective")
  else if (AIObjectiveListMax <? length (AllowedObjectives p))%nat then inr (ValidationError "allowed_objectives")
  else match dedupLoop validAllowed ∅ (AllowedObjectives p) with
       | None => inr (ValidationError "allowed_objectives")
       | Some out => inl (ClassPolicy (PriorityClass p) (DefaultObjective p) (sortStrings out))
       end.

(** [strings.Join l ","]. *)
Fixpoint joinList (l : list string) : string :=
  match l with
  | [] => ""
  | [s] => s
  | s :: r => s +:+ String comma (joinList r)
  end.

Definition splitList (s : string) : list string :=
  if s ==s "" then [] else SplitByte comma s.

(** The three class columns of a tenant or key row, as the store holds them. *)
Record classColumns := ClassCols {
  colPriorityClass : string;
  colDefaultObjective : string;
  colAllowed : string
}.

#[export] Instance classColumns_eq_dec : EqDecision classColumns.
Proof. solve_decision. Defined.

Definition noCols : classColumns := ClassCols "" "" "".

(** What SetTenantClass and SetAPIKeyClass write of a validated policy. *)
Definition storeClass (p : AIClassPolicy) : classColumns :=
  ClassCols (PriorityClass p) (DefaultObjective p) (joinList (AllowedObjectives p)).

(** What readClass and readClassRows make of a row. *)
Definition scanClass (c : classColumns) : AIClassPolicy :=
  ClassPolicy (colPriorityClass c) (colDefaultObjective c) (splitList (colAllowed c)).

(** ** Patches (pkg/aikey/class_patch.go) *)

(** The statement's three parameters; [None] is the SQL NULL. *)
Definition patchArgs : Type := option string * option string * option string.

Definition classPatchArgs (patch : AIClassPatch) : patchArgs + validationError :=
  match ValidateClassPolicy (Apply patch noPolicy) with
  | inr e => inr e
  | inl p =>
      inl ((fun _ => PriorityClass p) <$> ptPriorityClass patch,
           (fun _ => DefaultObjective p) <$> ptDefaultObjective patch,
           (fun _ => joinList (AllowedObjectives p)) <$> ptAllowedObjectives patch)
  end.

(** The UPDATE's COALESCE of each parameter with the stored column. *)
Definition coalesceClass (a : patchArgs) (row : classColumns) : classColumns :=
  let '(pc, def, al) := a in
  ClassCols (default (colPriorityClass row) pc) (default (colDefaultObjective row) def)
            (default (colAllowed row) al).

(** ** The snapshot a class is resolved from (pkg/aikey/class_snapshot.go) *)

Record lkgTenantLimit := LkgTenant { ltTenant : string; ltRPS : Z; ltTokensPerMin : Z; ltBurstPct : Z }.
Record lkgTenantModelLimit := LkgTenantModel { lmTenant : string; lmModel : string; lmTokensPerMin : Z }.

(** The file's defaults row has the fields of RateLimitDefaultsEntry. *)
Record limitRows := LimitRows {
  lrTenants : list lkgTenantLimit;
  lrTenantModels : list lkgTenantModelLimit;
  lrDefaults : list RateLimitDefaultsEntry
}.

Record ClassSnapshot := Snapshot {
  Objectives : gmap string AIObjectiveEntry;
  Tenants : gmap string AIClassPolicy;
  Keys : gmap string AIClassPolicy;
  ReadAt : Z;
  Source : string;
  Gen : Z;
  limits : option limitRows
}.

(** [None] is the nil snapshot. *)
Definition Configured (c : option ClassSnapshot) : bool :=
  match c with
  | None => false
  | Some c => (0 <? size (Objectives c))%nat || (0 <? size (Tenants c))%nat || (0 <? size (Keys c))%nat
  end.

(** ** The resolver (pkg/loxinet/ai_class.go) *)

Definition aiTierNone : Z := 0.
Definition aiTierFlex : Z := 1.
Definition aiTierPriority : Z := 2.
Definition aiTierFast : Z := 3.

Definition aiClassNumStandard : Z := 0.
Definition aiClassNumCritical : Z := 1.
Definition aiClassNumSheddable : Z := 2.

Definition aiTierPriorityCritical : Z := 1.
Definition aiTierPrioritySheddable : Z := -1.

Definition MaxInt32 : Z := 2147483647.

Record classInput := ClassInput {
  inTenant : string;
  inKeyID : string;
  inSvc : string;
  inHint : string;
  inTier : Z;
  inBindingClass : string;
  inProfileClass : string
}.

Record classAnswer := ClassAnswer {
  aPriority : Z;
  aClass : Z;
  aDenied : bool;
  aObjective : string
}.

Definition capOfClass (class : string) : Z :=
  if class ==s AIClassStandard then 0
  else if class ==s AIClassSheddable then -1
  else MaxInt32.

Definition lowerCap (limit : Z) (c : string) : Z :=
  if capOfClass c <? limit then capOfClass c else limit.

Definition identityCap (tenantClass : string) (lowering : list string) : Z :=
  fold_left lowerCap lowering (if tenantClass ==s "" then 0 else capOfClass tenantClass).

Definition classNumOf (priority : Z) : Z :=
  if priority >? 0 then aiClassNumCritical
  else if priority <? 0 then aiClassNumSheddable
  else aiClassNumStandard.

Definition aiClassName (class : Z) : string :=
  if class ==? aiClassNumCritical then AIClassCritical
  else if class ==? aiClassNumSheddable then AIClassSheddable
  else AIClassStandard.

Definition aiTierPriorityOf (tier : Z) : Z :=
  if tier ==? aiTierFlex then aiTierPrioritySheddable else aiTierPriorityCritical.

Definition tierName (tier : Z) : string :=
  if tier ==? aiTierFlex then "flex"
  else if tier ==? aiTierPriority then "priority"
  else if tier ==? aiTierFast then "fast"
  else "".

Definition inList (l : list string) (name : string) : bool := existsb (fun n => n ==s name) l.

(** [Some] is the found objective that applies to the service. *)
Definition objectiveFor (snap : option ClassSnapshot) (name svc : string) : option AIObjectiveEntry :=
  match snap with
  | None => None
  | Some s =>
      if name ==s "" then None
      else match Objectives s !! name with
           | None => None
           | Some o =>
               if (length (oServices o) =? 0)%nat then Some o
               else if inList (oServices o) svc then Some o
               else None
           end
  end.

Definition tenantPolicy (snap : option ClassSnapshot) (inp : classInput) : AIClassPolicy :=
  match snap with
  | None => noPolicy
  | Some s => default noPolicy (Tenants s !! inTenant inp)
  end.

Definition keyPolicy (snap : option ClassSnapshot) (inp : classInput) : AIClassPolicy :=
  match snap with
  | None => noPolicy
  | Some s => if inKeyID inp ==s "" then noPolicy else default noPolicy (Keys s !! inKeyID inp)
  end.

(** The closure [allowed] of classResolve. *)
Definition allowedBy (tenantPol keyPol : AIClassPolicy) (name : string) : bool :=
  if negb (inList (AllowedObjectives tenantPol) name) then false
  else (length (AllowedObjectives keyPol) =? 0)%nat || inList (AllowedObjectives keyPol) name.

Definition defaultFor (tenantPol keyPol : AIClassPolicy) : string :=
  if negb (DefaultObjective keyPol ==s "") && allowedBy tenantPol keyPol (DefaultObjective keyPol)
  then DefaultObjective keyPol
  else DefaultObjective tenantPol.

(** The cap of a request. *)
Definition limitOf (snap : option ClassSnapshot) (inp : classInput) : Z :=
  identityCap (PriorityClass (tenantPolicy snap inp))
    [PriorityClass (keyPolicy snap inp); inBindingClass inp; inProfileClass inp].

(** What the request gets when it asks for nothing: base and baseName. *)
Definition baseOf (snap : option ClassSnapshot) (inp : classInput) : Z * string :=
  match objectiveFor snap (defaultFor (tenantPolicy snap inp) (keyPolicy snap inp)) (inSvc inp) with
  | Some o => (oPriority o, oName o)
  | None => (0, "")
  end.

(** The closure [may]. *)
Definition mayAsk (snap : option ClassSnapshot) (inp : classInput) (name : string) (priority : Z) : bool :=
  (priority <=? Z.min (baseOf snap inp).1 (limitOf snap inp))
  || allowedBy (tenantPolicy snap inp) (keyPolicy snap inp) name.

(** One hint's outcome. *)
Inductive hintOutcome :=
| NoHint
| HintApplied (asked : Z) (objective : string)
| HintDenied.

Definition headerHint (snap : option ClassSnapshot) (inp : classInput) : hintOutcome :=
  if inHint inp ==s "" then NoHint
  else match objectiveFor snap (inHint inp) (inSvc inp) with
       | Some o => if mayAsk snap inp (inHint inp) (oPriority o) then HintApplied (oPriority o) (oName o)
                   else HintDenied
       | None => HintDenied
       end.

Definition tierHint (snap : option ClassSnapshot) (inp : classInput) : hintOutcome :=
  if tierName (inTier inp) ==s "" then NoHint
  else
    let name := AITierObjectivePrefix +:+ tierName (inTier inp) in
    if mayAsk snap inp name (aiTierPriorityOf (inTier inp))
    then HintApplied (aiTierPriorityOf (inTier inp)) name
    else HintDenied.

Definition answerOf (limit asked : Z) (denied : bool) (objective : string) : classAnswer :=
  let priority := if asked >? limit then limit else asked in
  ClassAnswer priority (classNumOf priority) denied objective.

Definition classResolve (snap : option ClassSnapshot) (inp : classInput) : classAnswer :=
  let limit := limitOf snap inp in
  let '(base, baseName) := baseOf snap inp in
  match headerHint snap inp with
  | HintApplied asked name => answerOf limit asked false name
  | HintDenied => answerOf limit base true baseName
  | NoHint =>
      match tierHint snap inp with
      | HintApplied asked name => answerOf limit asked false name
      | HintDenied => answerOf limit base true baseName
      | NoHint => answerOf limit base false baseName
      end
  end.

(** ** The export and the switch (pkg/loxinet/ai_class_dp.go) *)

Record ai_gw_class_t := GwClass {
  gwPriority : Z;
  gwPriorityClass : Z;
  gwObjectiveDenied : Z;
  gwObjective : string
}.

(** [classOf] of the published bindings and profiles, by name. *)
Definition classByName (classes : gmap string string) (name : string) : string :=
  if name ==s "" then "" else default "" (classes !! name).

(** No argument of the export can make it panic, so its recovery arm, which
    answers -1 with the zeroed struct, has no case here; [out = false] is the
    nil pointer. *)
Definition llb_ai_class_resolve (bindings profiles : gmap string string) (snap : option ClassSnapshot)
  (tenant keyID binding profile svcIdent objectiveHint : string) (tier : Z) (out : bool)
  : Z * option ai_gw_class_t :=
  if negb out then (-1, None)
  else
    let inp := ClassInput tenant keyID svcIdent objectiveHint tier
                 (classByName bindings binding) (classByName profiles profile) in
    let ans := classResolve snap inp in
    (0, Some (GwClass (aPriority ans) (aClass ans) (if aDenied ans then 1 else 0)
                      (cCopyStr "" (aObjective ans) 64))).

(** netidLowersClass and JWTAuthProfileH.lowersClass, over the published
    classes by name. *)
Definition lowersClass (classes : gmap string string) : bool :=
  bool_decide (map_Exists (fun _ c => c = AIClassSheddable) classes).

(** The switch after a recompute, and what was published ([None]: no change). *)
Definition aiClassRecompute (bindings profiles : gmap string string) (snap : option ClassSnapshot)
  (onNow : bool) : bool * option bool :=
  let on := Configured snap || lowersClass bindings || lowersClass profiles in
  (on, if Bool.eqb onNow on then None else Some on).

(** The rule's stored [ai_objective_strict] (pkg/loxinet/ai_class_config.go):
    the replaced rule's value is kept when the request does not carry one. *)
Definition aiObjectiveStrictResolve (eRule : option bool) (present strict : bool) : bool :=
  match eRule with
  | Some stored => if negb present && negb strict then stored else strict
  | None => strict
  end.
