(* ===== verification/ClassProps.v ===== *)
(** * ClassProps: what the class of a request can be

    Theorems over Classes.v: a request stays under every cap of its identity,
    a hint raises only by a grant, the answer fits the data plane's struct, the
    stored form of a policy reads back as the policy, and a patch is the field
    update it names. *)

From S2P Require Import Prelude StoreErr Objective Common Admission Gateway Classes.
From Stdlib Require Import Ascii.

Open Scope Z_scope.
Open Scope igw_scope.

(** ** Caps *)

Lemma lowerCap_min limit c : lowerCap limit c = Z.min limit (capOfClass c).
Proof. unfold lowerCap. zcase; lia. Qed.

Lemma fold_lowerCap_le l limit :
  fold_left lowerCap l limit <= limit /\ Forall (fun c => fold_left lowerCap l limit <= capOfClass c) l.
Proof.
  revert limit. induction l as [|c l IH]; intros limit; simpl; [split; [lia|constructor]|].
  destruct (IH (lowerCap limit c)) as [H1 H2]. rewrite lowerCap_min in H1, H2 |- *.
  split; [lia|]. constructor; [lia|done].
Qed.

Lemma fold_lowerCap_mono l l' limit limit' :
  limit <= limit' -> Forall2 (fun c c' => capOfClass c <= capOfClass c') l l' ->
  fold_left lowerCap l limit <= fold_left lowerCap l' limit'.
Proof.
  intros Hle H. revert limit limit' Hle. induction H as [|c c' l l' Hc _ IH]; intros; simpl; [done|].
  apply IH. rewrite !lowerCap_min. lia.
Qed.

Lemma capOfClass_range c : -1 <= capOfClass c <= MaxInt32.
Proof. unfold capOfClass, MaxInt32. repeat case_match; lia. Qed.

Lemma capOfClass_positive c : 0 < capOfClass c -> c <> AIClassStandard /\ c <> AIClassSheddable.
Proof. intros H. split; intros ->; vm_compute in H; discriminate. Qed.

(** The tenant's own cap: standard when it sets none. *)
Definition tenantCap (class : string) : Z := if class ==s "" then 0 else capOfClass class.

Lemma limitOf_le snap inp :
  limitOf snap inp <= tenantCap (PriorityClass (tenantPolicy snap inp)) /\
  Forall (fun c => limitOf snap inp <= capOfClass c)
    [PriorityClass (keyPolicy snap inp); inBindingClass inp; inProfileClass inp].
Proof. apply fold_lowerCap_le. Qed.

Lemma limitOf_range snap inp : -1 <= limitOf snap inp <= MaxInt32.
Proof.
  assert (-1 <= tenantCap (PriorityClass (tenantPolicy snap inp)) <= MaxInt32) as Hb.
  { unfold tenantCap. case_match; [vm_compute; split; discriminate|apply capOfClass_range]. }
  unfold limitOf, identityCap. fold (tenantCap (PriorityClass (tenantPolicy snap inp))).
  simpl. rewrite !lowerCap_min.
  pose proof (capOfClass_range (PriorityClass (keyPolicy snap inp))).
  pose proof (capOfClass_range (inBindingClass inp)).
  pose proof (capOfClass_range (inProfileClass inp)). lia.
Qed.

(** ** The resolver's answer *)

Lemma answer_priority limit asked d o : aPriority (answerOf limit asked d o) = Z.min asked limit.
Proof. unfold answerOf. simpl. zcase; lia. Qed.

Lemma answer_class limit asked d o :
  aClass (answerOf limit asked d o) = classNumOf (aPriority (answerOf limit asked d o)).
Proof. done. Qed.

(** Every answer is [answerOf] of the limit: by cases on the two hints. *)
Inductive resolved (snap : option ClassSnapshot) (inp : classInput) : classAnswer -> Prop :=
| ResHeader o :
    inHint inp <> "" -> objectiveFor snap (inHint inp) (inSvc inp) = Some o ->
    mayAsk snap inp (inHint inp) (oPriority o) = true ->
    resolved snap inp (answerOf (limitOf snap inp) (oPriority o) false (oName o))
| ResTier :
    inHint inp = "" -> tierName (inTier inp) <> "" ->
    mayAsk snap inp (AITierObjectivePrefix +:+ tierName (inTier inp)) (aiTierPriorityOf (inTier inp)) = true ->
    resolved snap inp (answerOf (limitOf snap inp) (aiTierPriorityOf (inTier inp)) false
                         (AITierObjectivePrefix +:+ tierName (inTier inp)))
| ResHeaderDenied :
    inHint inp <> "" ->
    (forall o, objectiveFor snap (inHint inp) (inSvc inp) = Some o -> mayAsk snap inp (inHint inp) (oPriority o) = false) ->
    resolved snap inp (answerOf (limitOf snap inp) (baseOf snap inp).1 true (baseOf snap inp).2)
| ResTierDenied :
    inHint inp = "" -> tierName (inTier inp) <> "" ->
    mayAsk snap inp (AITierObjectivePrefix +:+ tierName (inTier inp)) (aiTierPriorityOf (inTier inp)) = false ->
    resolved snap inp (answerOf (limitOf snap inp) (baseOf snap inp).1 true (baseOf snap inp).2)
| ResDefault :
    inHint inp = "" -> tierName (inTier inp) = "" ->
    resolved snap inp (answerOf (limitOf snap inp) (baseOf snap inp).1 false (baseOf snap inp).2).

Lemma classResolve_resolved snap inp : resolved snap inp (classResolve snap inp).
Proof.
  unfold classResolve. destruct (baseOf snap inp) as [b bn] eqn:Hb.
  assert (b = (baseOf snap inp).1) as -> by by rewrite Hb.
  assert (bn = (baseOf snap inp).2) as -> by by rewrite Hb. clear Hb.
  unfold headerHint, tierHint.
  destruct (String.eqb_spec (inHint inp) "") as [Hh|Hh].
  - destruct (String.eqb_spec (tierName (inTier inp)) "") as [Ht|Ht]; [by constructor|].
    destruct (mayAsk _ _ _ (aiTierPriorityOf _)) eqn:Hm; by constructor.
  - destruct (objectiveFor _ _ _) as [o|] eqn:Ho.
    + destruct (mayAsk _ _ _ (oPriority o)) eqn:Hm; [by econstructor|].
      apply ResHeaderDenied; [done|]. intros o' Ho'. rewrite Ho in Ho'. by injection Ho' as <-.
    + apply ResHeaderDenied; [done|]. intros o' Ho'. congruence.
Qed.

Lemma resolved_limit snap inp : aPriority (classResolve snap inp) <= limitOf snap inp.
Proof. destruct (classResolve_resolved snap inp); rewrite answer_priority; lia. Qed.

Lemma resolved_class snap inp : aClass (classResolve snap inp) = classNumOf (aPriority (classResolve snap inp)).
Proof. destruct (classResolve_resolved snap inp); apply answer_class. Qed.

Lemma classNumOf_critical p : classNumOf p = aiClassNumCritical <-> 0 < p.
Proof. unfold classNumOf, aiClassNumCritical, aiClassNumSheddable, aiClassNumStandard. repeat zcase; lia. Qed.

Lemma class_names_agree p : aiClassName (classNumOf p) = AIClassOfPriority p.
Proof. unfold classNumOf, AIClassOfPriority. by repeat zcase. Qed.

(** ** Lowering a cap lowers the answer *)

(** The same request under another limit: [held] is what it gets without a
    hint, and a hint at or below it needs no grant. *)
Definition askUnder (limit base asked : Z) (granted : bool) : Z :=
  if (asked <=? Z.min base limit) || granted then Z.min asked limit else Z.min base limit.

Lemma askUnder_mono limit limit' base asked granted :
  limit' <= limit -> askUnder limit' base asked granted <= askUnder limit base asked granted.
Proof.
  unfold askUnder. intros Hl. destruct granted; rewrite ?orb_true_r, ?orb_false_r; [lia|].
  destruct (Z.leb_spec asked (Z.min base limit')), (Z.leb_spec asked (Z.min base limit)); lia.
Qed.

(** A request as its class sees it once its policies are read: what it asks
    for, by header or tier, as a priority and the name that needs the grant. *)
Definition asking (snap : option ClassSnapshot) (inp : classInput) : option (Z * string) :=
  if inHint inp ==s "" then
    if tierName (inTier inp) ==s "" then None
    else Some (aiTierPriorityOf (inTier inp), AITierObjectivePrefix +:+ tierName (inTier inp))
  else match objectiveFor snap (inHint inp) (inSvc inp) with
       | Some o => Some (oPriority o, inHint inp)
       | None => None
       end.

Lemma classResolve_asking snap inp :
  aPriority (classResolve snap inp) =
  match asking snap inp with
  | Some (p, name) => askUnder (limitOf snap inp) (baseOf snap inp).1 p
                        (allowedBy (tenantPolicy snap inp) (keyPolicy snap inp) name)
  | None => Z.min (baseOf snap inp).1 (limitOf snap inp)
  end.
Proof.
  unfold asking, askUnder. destruct (classResolve_resolved snap inp) as [o Hh Ho Hm|Hh Ht Hm|Hh Ho|Hh Ht Hm|Hh Ht];
    rewrite answer_priority; destruct (String.eqb_spec (inHint inp) ""); try done.
  - rewrite Ho. unfold mayAsk in Hm. by rewrite Hm.
  - destruct (String.eqb_spec (tierName (inTier inp)) ""); [done|]. unfold mayAsk in Hm. by rewrite Hm.
  - destruct (objectiveFor _ _ _) as [o|]; [|done]. specialize (Ho o eq_refl). unfold mayAsk in Ho. by rewrite Ho.
  - destruct (String.eqb_spec (tierName (inTier inp)) ""); [done|]. unfold mayAsk in Hm. by rewrite Hm.
  - by destruct (String.eqb_spec (tierName (inTier inp)) "").
Qed.

(** Without the binding's and the profile's class. *)
Definition uncapped (inp : classInput) : classInput :=
  ClassInput (inTenant inp) (inKeyID inp) (inSvc inp) (inHint inp) (inTier inp) "" "".

Lemma limitOf_uncapped snap inp : limitOf snap inp <= limitOf snap (uncapped inp).
Proof.
  apply fold_lowerCap_mono; [done|].
  apply Forall2_cons_2; [done|].
  apply Forall2_cons_2; [apply capOfClass_range|].
  apply Forall2_cons_2; [apply capOfClass_range|apply Forall2_nil_2].
Qed.

Lemma resolve_uncapped snap inp : aPriority (classResolve snap inp) <= aPriority (classResolve snap (uncapped inp)).
Proof.
  rewrite !classResolve_asking.
  change (asking snap (uncapped inp)) with (asking snap inp).
  change (baseOf snap (uncapped inp)) with (baseOf snap inp).
  change (tenantPolicy snap (uncapped inp)) with (tenantPolicy snap inp).
  change (keyPolicy snap (uncapped inp)) with (keyPolicy snap inp).
  pose proof (limitOf_uncapped snap inp). destruct (asking snap inp) as [[p name]|]; [by apply askUnder_mono|lia].
Qed.

(** C29: A request never gets a class its identity does not grant.  Its priority
    is at most the tenant's cap (standard when the tenant sets none) and at most
    the cap of each class its key, binding and JWT profile set; a binding's or
    profile's class never raises it over the same request without them; and,
    for a tenant class the validator accepts, it is critical only if the tenant
    row says critical and none of the other three says standard or sheddable.
    The class number handed to the data plane names the class of the priority. *)
Theorem class_capped_by_identity snap inp :
  validClassName (PriorityClass (tenantPolicy snap inp)) = true ->
  let ans := classResolve snap inp in
  let lowering := [PriorityClass (keyPolicy snap inp); inBindingClass inp; inProfileClass inp] in
  aPriority ans <= tenantCap (PriorityClass (tenantPolicy snap inp)) /\
  Forall (fun c => aPriority ans <= capOfClass c) lowering /\
  aPriority ans <= aPriority (classResolve snap (uncapped inp)) /\
  aiClassName (aClass ans) = AIClassOfPriority (aPriority ans) /\
  (aClass ans = aiClassNumCritical ->
   PriorityClass (tenantPolicy snap inp) = AIClassCritical /\
   Forall (fun c => c <> AIClassStandard /\ c <> AIClassSheddable) lowering).
Proof.
  intros Hv ans lowering.
  assert (Ht := resolved_limit snap inp). destruct (limitOf_le snap inp) as [H1 H2].
  assert (Forall (fun c => aPriority ans <= capOfClass c) lowering) as Hlow.
  { eapply Forall_impl; [exact H2|]. simpl. intros. unfold ans. lia. }
  split; [unfold ans; lia|]. split; [done|]. split; [apply resolve_uncapped|].
  split; [unfold ans; rewrite resolved_class; apply class_names_agree|].
  unfold ans. rewrite resolved_class. intros Hc%classNumOf_critical. split.
  - unfold tenantCap in H1. unfold validClassName in Hv.
    destruct (String.eqb_spec (PriorityClass (tenantPolicy snap inp)) ""); [lia|].
    destruct (capOfClass_positive (PriorityClass (tenantPolicy snap inp))) as [Hs Hd]; [lia|].
    apply orb_true_iff in Hv as [Hv|Hv]; [|by apply String.eqb_eq in Hv].
    apply orb_true_iff in Hv as [Hv|Hv]; [by apply String.eqb_eq in Hv|by apply String.eqb_eq in Hv].
  - eapply Forall_impl; [exact Hlow|]. simpl. intros c Hcc. apply capOfClass_positive. unfold ans in Hcc. lia.
Qed.

(** A deployment for the witnesses: tenant "acme" may be critical and may raise
    itself to "gold"; its key "k1" narrows nothing; "bulk" is sheddable. *)
Definition acmeSnapshot : ClassSnapshot :=
  Snapshot {[ "gold" := Objective "gold" [] 5 0; "bulk" := Objective "bulk" ["10.0.0.1:80"] (-3) 0;
              "plain" := Objective "plain" [] 0 0; "gold2" := Objective "gold2" [] 5 0 ]}
           {[ "acme" := ClassPolicy AIClassCritical "plain" ["gold"; "tier:fast"] ]}
           {[ "k1" := ClassPolicy "" "" [] ]} 0 AIClassSourceStore 1 None.

Definition acmeAsks (hint : string) (tier : Z) (binding : string) : classInput :=
  ClassInput "acme" "k1" "10.0.0.1:80" hint tier binding "".

Lemma class_capped_witness :
  aClass (classResolve (Some acmeSnapshot) (acmeAsks "gold" 0 "")) = aiClassNumCritical /\
  aPriority (classResolve (Some acmeSnapshot) (acmeAsks "gold" 0 AIClassSheddable)) <=
  aPriority (classResolve (Some acmeSnapshot) (uncapped (acmeAsks "gold" 0 AIClassSheddable))).
Proof.
  split; [vm_compute; reflexivity|].
  apply (class_capped_by_identity (Some acmeSnapshot) (acmeAsks "gold" 0 AIClassSheddable)).
  vm_compute; reflexivity.
Defined.

(** ** Raises need a grant *)

(** The name a request's hint needs a grant for. *)
Definition hintName (inp : classInput) : string :=
  if inHint inp ==s "" then AITierObjectivePrefix +:+ tierName (inTier inp) else inHint inp.

Lemma inList_spec l name : inList l name = true <-> name ∈ l.
Proof.
  unfold inList. rewrite existsb_exists. split.
  - intros (n & Hn%list_elem_of_In & ->%String.eqb_eq). done.
  - intros H. exists name. split; [by apply list_elem_of_In|apply String.eqb_refl].
Qed.

Lemma allowedBy_spec t k name :
  allowedBy t k name = true <->
  name ∈ AllowedObjectives t /\ (AllowedObjectives k = [] \/ name ∈ AllowedObjectives k).
Proof.
  unfold allowedBy. rewrite <- !inList_spec. destruct (inList (AllowedObjectives t) name); simpl; [|naive_solver].
  rewrite orb_true_iff, Nat.eqb_eq, length_zero_iff_nil. naive_solver.
Qed.

Lemma mayAsk_spec snap inp name p :
  mayAsk snap inp name p = true <->
  p <= Z.min (baseOf snap inp).1 (limitOf snap inp) \/
  allowedBy (tenantPolicy snap inp) (keyPolicy snap inp) name = true.
Proof. unfold mayAsk. by rewrite orb_true_iff, Z.leb_le. Qed.

(** Hints, by the header or by the body, raise a request only where the
    identity was granted the name, and lower it freely.  [held] is what the
    request gets without a hint.  An answer above [held] means the hint's name
    is in the tenant's list and, when the key has a list, in the key's too; a
    denied hint leaves exactly [held] under the default objective's name and is
    recorded; a named objective that exists for the service and asks for no more
    than [held] is applied as it is, without a grant; and a request with no hint
    is never recorded as denied. *)
Theorem class_raise_needs_a_grant snap inp :
  let ans := classResolve snap inp in
  let held := Z.min (baseOf snap inp).1 (limitOf snap inp) in
  (held < aPriority ans ->
   aDenied ans = false /\
   hintName inp ∈ AllowedObjectives (tenantPolicy snap inp) /\
   (AllowedObjectives (keyPolicy snap inp) = [] \/ hintName inp ∈ AllowedObjectives (keyPolicy snap inp))) /\
  (aDenied ans = true -> aPriority ans = held /\ aObjective ans = (baseOf snap inp).2) /\
  (forall o, inHint inp <> "" -> objectiveFor snap (inHint inp) (inSvc inp) = Some o -> oPriority o <= held ->
     aPriority ans = oPriority o /\ aDenied ans = false /\ aObjective ans = oName o) /\
  (inHint inp = "" -> tierName (inTier inp) = "" -> aDenied ans = false /\ aPriority ans = held).
Proof.
  intros ans held. subst ans. unfold hintName.
  destruct (classResolve_resolved snap inp) as [o Hh Ho Hm|Hh Ht Hm|Hh Ho|Hh Ht Hm|Hh Ht];
    rewrite answer_priority; fold held;
    destruct (String.eqb_spec (inHint inp) ""); try done;
    (split; [|split; [|split]]); try done; try (intros; lia); try (intros; split; [lia|done]).
  - apply mayAsk_spec in Hm as [Hm|Hm]; [intros; unfold held in *; lia|]. rewrite allowedBy_spec in Hm. by intros.
  - intros o' _ Ho' Hle. rewrite Ho in Ho'. injection Ho' as <-. unfold held in Hle. split; [lia|done].
  - apply mayAsk_spec in Hm as [Hm|Hm]; [intros; unfold held in *; lia|]. rewrite allowedBy_spec in Hm. by intros.
  - intros o Hne Hob Hle. specialize (Ho o Hob).
    assert (mayAsk snap inp (inHint inp) (oPriority o) = true) by (apply mayAsk_spec; by left). congruence.
Qed.

Lemma class_raise_witness :
  let inp := acmeAsks "gold2" aiTierNone "" in
  aDenied (classResolve (Some acmeSnapshot) inp) = true /\
  aPriority (classResolve (Some acmeSnapshot) inp) = Z.min (baseOf (Some acmeSnapshot) inp).1 (limitOf (Some acmeSnapshot) inp) /\
  aPriority (classResolve (Some acmeSnapshot) (acmeAsks "bulk" aiTierNone "")) = -3 /\
  hintName (acmeAsks "gold" aiTierNone "") ∈
    AllowedObjectives (tenantPolicy (Some acmeSnapshot) (acmeAsks "gold" aiTierNone "")).
Proof.
  intros inp. split; [vm_compute; reflexivity|]. split.
  - destruct (class_raise_needs_a_grant (Some acmeSnapshot) inp) as (_ & H & _).
    apply H. vm_compute; reflexivity.
  - split; [vm_compute; reflexivity|].
    destruct (class_raise_needs_a_grant (Some acmeSnapshot) (acmeAsks "gold" aiTierNone "")) as (H & _).
    apply H. vm_compute; reflexivity.
Defined.

(** ** The switch *)

Lemma unconfigured_lookup snap : Configured snap = false ->
  (forall name svc, objectiveFor snap name svc = None) /\
  (forall inp, tenantPolicy snap inp = noPolicy) /\ (forall inp, keyPolicy snap inp = noPolicy).
Proof.
  destruct snap as [s|]; [|done]. unfold Configured.
  intros [[H1 H2]%orb_false_iff H3]%orb_false_iff.
  apply Nat.ltb_ge in H1, H2, H3.
  assert (Objectives s = ∅) as Eo by (apply map_size_empty_inv; lia).
  assert (Tenants s = ∅) as Et by (apply map_size_empty_inv; lia).
  assert (Keys s = ∅) as Ek by (apply map_size_empty_inv; lia).
  unfold objectiveFor, tenantPolicy, keyPolicy. rewrite Eo, Et, Ek.
  split; [intros name svc; rewrite lookup_empty; by destruct (_ ==s _)|].
  split; intros inp; rewrite lookup_empty; [done|by destruct (_ ==s _)].
Qed.

Lemma lowersClass_byName classes name : lowersClass classes = false -> 0 <= capOfClass (classByName classes name).
Proof.
  unfold lowersClass, classByName. intros H%bool_decide_eq_false. destruct (name ==s ""); [vm_compute; discriminate|].
  destruct (classes !! name) as [c|] eqn:Hc; simpl; [|vm_compute; discriminate].
  unfold capOfClass. destruct (c ==s AIClassStandard); [done|].
  destruct (String.eqb_spec c AIClassSheddable) as [->|]; [|vm_compute; discriminate].
  exfalso. apply H. by exists name, AIClassSheddable.
Qed.

Lemma limitOf_unconfigured snap inp : Configured snap = false ->
  0 <= capOfClass (inBindingClass inp) -> 0 <= capOfClass (inProfileClass inp) -> limitOf snap inp = 0.
Proof.
  intros Hc Hb Hp. destruct (unconfigured_lookup snap Hc) as (_ & Ht & Hk).
  unfold limitOf, identityCap. rewrite Ht, Hk. simpl. rewrite !lowerCap_min.
  change (capOfClass "") with MaxInt32. unfold MaxInt32. lia.
Qed.

Lemma resolve_unconfigured snap inp : Configured snap = false ->
  0 <= capOfClass (inBindingClass inp) -> 0 <= capOfClass (inProfileClass inp) ->
  aPriority (classResolve snap inp) = if (inHint inp ==s "") && (inTier inp ==? aiTierFlex) then -1 else 0.
Proof.
  intros Hc Hb Hp. destruct (unconfigured_lookup snap Hc) as (Ho & Ht & Hk).
  rewrite classResolve_asking. unfold asking, askUnder, baseOf. rewrite limitOf_unconfigured, !Ho, Ht, Hk by done.
  destruct (inHint inp ==s ""); cbn [andb fst]; [|done].
  unfold tierName, aiTierPriorityOf. destruct (inTier inp ==? aiTierFlex); [done|].
  by repeat zcase.
Qed.

(** The switch is off exactly when no objective, tenant, key, binding or
    profile could lower or raise a request, but the resolver it skips does not
    then answer standard for every request: a request whose body says
    service_tier flex, and names no objective, resolves to sheddable, and every
    other one to standard. *)
Theorem class_switch_off_answers bindings profiles snap onNow tenant key binding profile svc hint tier :
  (aiClassRecompute bindings profiles snap onNow).1 = false ->
  exists g, llb_ai_class_resolve bindings profiles snap tenant key binding profile svc hint tier true = (0, Some g) /\
    gwPriorityClass g = (if (hint ==s "") && (tier ==? aiTierFlex) then aiClassNumSheddable else aiClassNumStandard).
Proof.
  unfold aiClassRecompute. simpl. intros [[Hc Hb]%orb_false_iff Hp]%orb_false_iff.
  eexists. split; [reflexivity|]. cbn [gwPriorityClass]. rewrite resolved_class, resolve_unconfigured; simpl;
    [by destruct (_ && _)|done|by apply lowersClass_byName..].
Qed.

Lemma class_switch_witness :
  exists g, llb_ai_class_resolve ∅ ∅ None "acme" "" "" "" "10.0.0.1:80" "" aiTierFlex true = (0, Some g) /\
    gwPriorityClass g = aiClassNumSheddable.
Proof.
  apply (class_switch_off_answers ∅ ∅ None true "acme" "" "" "" "10.0.0.1:80" "" aiTierFlex). vm_compute; reflexivity.
Defined.

(** ** The answer's types *)

Definition int32Range (z : Z) : Prop := -2147483648 <= z <= 2147483647.

(** What the objective table holds when every row was written by SetObjective:
    rows under their own, validated, names, with int32 priorities. *)
Definition wfObjectives (objs : gmap string AIObjectiveEntry) : Prop :=
  map_Forall (fun name o => oName o = name /\ validObjectiveName name = true /\ int32Range (oPriority o)) objs.

Definition wfSnapshot (snap : option ClassSnapshot) : Prop :=
  match snap with None => True | Some s => wfObjectives (Objectives s) end.

Lemma validObjectiveName_length name : validObjectiveName name = true -> (String.length name <= 63)%nat.
Proof.
  unfold validObjectiveName, AIObjectiveNameMax. destruct (_ || _) eqn:H; [done|].
  apply orb_false_iff in H as [_ H%Nat.ltb_ge]. done.
Qed.

Lemma substring_all n s : (String.length s <= n)%nat -> String.substring 0 n s = s.
Proof.
  revert n. induction s as [|c s IH]; intros [|n] H; simpl in *; try done; [lia|]. f_equal. apply IH. lia.
Qed.

Lemma cCopyStr_fits src n : (String.length src <= n)%nat -> cCopyStr "" src (S n) = src.
Proof.
  intros H. unfold cCopyStr. destruct (String.eqb_spec src "") as [->|]; [done|]. simpl.
  rewrite Nat.sub_0_r. by apply substring_all.
Qed.

Lemma objectiveFor_wf snap name svc o : wfSnapshot snap -> objectiveFor snap name svc = Some o ->
  oName o = name /\ (String.length name <= 63)%nat /\ int32Range (oPriority o).
Proof.
  destruct snap as [s|]; [|done]. simpl. intros Hwf. destruct (name ==s ""); [done|].
  destruct (Objectives s !! name) as [o'|] eqn:Ho; [|done].
  intros H. assert (o' = o) as -> by (repeat case_match; congruence).
  destruct (Hwf name o Ho) as (H1 & H2 & H3). split; [done|]. by split; [apply validObjectiveName_length|].
Qed.

Lemma baseOf_wf snap inp : wfSnapshot snap ->
  int32Range (baseOf snap inp).1 /\ (String.length (baseOf snap inp).2 <= 63)%nat.
Proof.
  intros Hwf. unfold baseOf. destruct (objectiveFor _ _ _) as [o|] eqn:Ho; [|split; [unfold int32Range; simpl|simpl]; lia].
  destruct (objectiveFor_wf _ _ _ _ Hwf Ho) as (-> & ? & ?). by split.
Qed.

Lemma tierName_length t : (String.length (AITierObjectivePrefix +:+ tierName t) <= 63)%nat.
Proof. unfold tierName. repeat zcase; vm_compute; lia. Qed.

Lemma classResolve_wf snap inp : wfSnapshot snap ->
  int32Range (aPriority (classResolve snap inp)) /\ (String.length (aObjective (classResolve snap inp)) <= 63)%nat.
Proof.
  intros Hwf. pose proof (limitOf_range snap inp) as Hl. unfold MaxInt32 in Hl.
  destruct (baseOf_wf snap inp Hwf) as [Hb Hbn].
  assert (forall a d o, int32Range a -> int32Range (aPriority (answerOf (limitOf snap inp) a d o))) as Ha.
  { intros. rewrite answer_priority. unfold int32Range in *. lia. }
  destruct (classResolve_resolved snap inp) as [o Hh Ho Hm|Hh Ht Hm|Hh Ho|Hh Ht Hm|Hh Ht]; (split; [apply Ha|]); try done.
  - by destruct (objectiveFor_wf _ _ _ _ Hwf Ho) as (? & ? & ?).
  - cbn [answerOf aObjective]. by destruct (objectiveFor_wf _ _ _ _ Hwf Ho) as (-> & ? & ?).
  - unfold aiTierPriorityOf. zcase; unfold int32Range; vm_compute; split; discriminate.
  - apply tierName_length.
Qed.

(** C40: Over objective rows SetObjective wrote, the export always answers 0 and
    a struct whose fields hold what the resolver decided, unclipped: the priority,
    which is an int32; the class the resolver chose, which is the number of that
    priority's sign and one of three that fit a byte; the denied flag as 0 or 1;
    and the objective's name or tier name, which fits the 64-byte field with its
    terminator, so the copy never truncates it. *)
Theorem class_answer_fits_the_struct bindings profiles snap tenant key binding profile svc hint tier :
  wfSnapshot snap ->
  let inp := ClassInput tenant key svc hint tier (classByName bindings binding) (classByName profiles profile) in
  let ans := classResolve snap inp in
  exists g, llb_ai_class_resolve bindings profiles snap tenant key binding profile svc hint tier true = (0, Some g) /\
    gwPriority g = aPriority ans /\ int32Range (gwPriority g) /\
    gwPriorityClass g = aClass ans /\ gwPriorityClass g = classNumOf (gwPriority g) /\
    gwPriorityClass g ∈ [aiClassNumStandard; aiClassNumCritical; aiClassNumSheddable] /\
    gwObjectiveDenied g = (if aDenied ans then 1 else 0) /\
    gwObjective g = aObjective ans /\ (String.length (gwObjective g) < 64)%nat.
Proof.
  intros Hwf inp ans. destruct (classResolve_wf snap inp Hwf) as [Hp Hn].
  eexists. split; [reflexivity|]. cbn [gwPriority gwPriorityClass gwObjectiveDenied gwObjective].
  fold inp. fold ans. rewrite (cCopyStr_fits _ 63) by done. pose proof (resolved_class snap inp) as Hc. fold ans in Hc.
  repeat (split; [done|]). split; [rewrite Hc; unfold classNumOf; repeat zcase; set_solver|].
  split; [done|]. split; [done|]. change (aObjective (classResolve snap inp)) with (aObjective ans) in *. unfold ans in *. lia.
Qed.

Lemma class_answer_witness :
  wfSnapshot (Some acmeSnapshot) /\
  exists g, llb_ai_class_resolve ∅ ∅ (Some acmeSnapshot) "acme" "k1" "" "" "10.0.0.1:80" "gold" 0 true = (0, Some g) /\
    gwObjective g = "gold" /\ gwPriority g = 5.
Proof.
  assert (wfSnapshot (Some acmeSnapshot)) as Hwf.
  { unfold wfSnapshot, wfObjectives, acmeSnapshot, Objectives, int32Range.
    repeat (apply map_Forall_insert_2; [vm_compute; repeat split; discriminate|]).
    apply map_Forall_empty. }
  split; [exact Hwf|].
  destruct (class_answer_fits_the_struct ∅ ∅ (Some acmeSnapshot) "acme" "k1" "" "" "10.0.0.1:80" "gold" 0 Hwf)
    as (g & H1 & H2 & _ & _ & _ & _ & _ & H3 & _).
  exists g. split; [exact H1|]. rewrite H2, H3. vm_compute. split; reflexivity.
Defined.

(** ** The stored form *)

Section dedup.
  Context (ok : string -> bool).

Lemma dedupLoop_spec seen l out : dedupLoop ok seen l = Some out ->
    NoDup out /\ Forall (fun n => ok n = true) out /\ (forall n, n ∈ out <-> n ∈ l /\ n ∉ seen).
  Proof.
    revert seen out. induction l as [|n l IH]; intros seen out; cbn [dedupLoop].
    { intros [= <-]. split; [constructor|]. split; [constructor|]. set_solver. }
    destruct (ok n) eqn:Hok; cbn [negb]; [|done].
    destruct (decide (n ∈ seen)) as [Hs|Hs].
    - intros (H1 & H2 & H3)%IH. split; [done|]. split; [done|]. set_solver.
    - intros (out' & Ho & ->)%fmap_Some. apply IH in Ho as (H1 & H2 & H3).
      split; [constructor; [rewrite H3; set_solver|done]|]. split; [by constructor|]. intros m.
      rewrite !elem_of_cons, H3. destruct (decide (m = n)); set_solver.
  Qed.

Lemma dedupLoop_id seen l : NoDup l -> Forall (fun n => ok n = true) l -> (forall n, n ∈ l -> n ∉ seen) ->
    dedupLoop ok seen l = Some l.
  Proof.
    intros Hnd Hok. revert seen. induction Hnd as [|n l Hn Hnd IH]; intros seen Hs; [done|].
    inversion_clear Hok as [|? ? H1 H2]. cbn [dedupLoop]. rewrite H1. cbn [negb].
    rewrite decide_False by (apply Hs; set_solver). rewrite IH; [done|done|set_solver].
  Qed.

Lemma dedupLoop_length seen l out : dedupLoop ok seen l = Some out -> (length out <= length l)%nat.
  Proof.
    revert seen out. induction l as [|n l IH]; intros seen out; cbn [dedupLoop]; [by intros [= <-]|].
    destruct (ok n); cbn [negb]; [|done]. destruct (decide (n ∈ seen)).
    - intros H%IH. simpl. lia.
    - intros (out' & Ho%IH & ->)%fmap_Some. simpl. lia.
  Qed.

  (** What both validators make of a list. *)
Lemma canonical_spec l out : dedupLoop ok ∅ l = Some out ->
    let c := sortStrings out in
    NoDup c /\ Forall (fun n => ok n = true) c /\ Sorted String.le c /\ (forall n, n ∈ c <-> n ∈ l) /\
    (length c <= length l)%nat /\ dedupLoop ok ∅ c = Some c /\ sortStrings c = c.
  Proof.
    intros H c. pose proof (dedupLoop_length _ _ _ H) as Hlen. apply dedupLoop_spec in H as (H1 & H2 & H3).
    assert (c ≡ₚ out) as Hp by apply merge_sort_Permutation.
    assert (Sorted String.le c) as Hs by apply (Sorted_merge_sort _).
    assert (NoDup c) by by rewrite Hp.
    assert (Forall (fun n => ok n = true) c) by by rewrite Hp.
    split; [done|]. split; [done|]. split; [done|].
    split; [intros n; rewrite Hp, H3; set_solver|]. split; [by rewrite Hp|].
    split; [apply dedupLoop_id; [done|done|set_solver]|].
    apply (Sorted_unique String.le); [apply (Sorted_merge_sort _)|done|apply merge_sort_Permutation].
  Qed.
End dedup.

(** A list element the join cannot hide: not empty, no comma. *)
Definition joinable (s : string) : Prop := s <> "" /\ ContainsByte comma s = false.

Lemma SplitByte_joinList s l : Forall joinable (s :: l) -> SplitByte comma (joinList (s :: l)) = s :: l.
Proof.
  revert s. induction l as [|t l IH]; intros s H; inversion_clear H as [|? ? [H1 H2] H3].
  - by apply SplitByte_plain.
  - change (joinList (s :: t :: l)) with (s +:+ String comma (joinList (t :: l))).
    rewrite SplitByte_cons by done. by rewrite IH.
Qed.

Lemma joinList_nonempty s l : joinable s -> joinList (s :: l) <> "".
Proof. intros [Hs _]. destruct s as [|c s]; [done|]. by destruct l. Qed.

Lemma split_joinList l : Forall joinable l -> splitList (joinList l) = l.
Proof.
  intros H. unfold splitList. destruct l as [|s l]; [done|].
  destruct (String.eqb_spec (joinList (s :: l)) "") as [E|_]; [|by apply SplitByte_joinList].
  inversion_clear H. by apply joinList_nonempty in E.
Qed.

Lemma allBytes_NotContains f c s : allBytes f s = true -> f c = false -> ContainsByte c s = false.
Proof.
  intros H Hc. induction s as [|d s IH]; [done|]. simpl in *. apply andb_true_iff in H as [Hd Hs].
  rewrite (IH Hs), orb_false_r. destruct (Ascii.eqb_spec c d) as [->|]; [congruence|].
  by destruct (Ascii.eqb_spec d c).
Qed.

Lemma validObjectiveName_joinable s : validObjectiveName s = true -> joinable s.
Proof.
  unfold validObjectiveName. destruct (String.eqb_spec s ""); [done|]. cbn [orb].
  destruct (_ <? _)%nat; [done|]. intros H. split; [done|]. eapply allBytes_NotContains; [done|vm_compute; reflexivity].
Qed.

Lemma validAllowed_joinable s : validAllowed s = true -> joinable s.
Proof.
  unfold validAllowed. destruct (validObjectiveName s) eqn:H; [intros _; by apply validObjectiveName_joinable|].
  cbn [negb andb]. rewrite negb_involutive. unfold IsAITierObjective.
  intros (n & Hn%list_elem_of_In & <-%String.eqb_eq)%existsb_exists.
  unfold AITierObjectives in Hn. rewrite !elem_of_cons in Hn.
  destruct Hn as [->|[->|[->|Hn]]]; [split; [discriminate|reflexivity]..|by apply not_elem_of_nil in Hn].
Qed.

Lemma validService_joinable s : validService s = true -> joinable s.
Proof.
  unfold validService. intros [H1 H2]%negb_true_iff%orb_false_iff.
  split; [by apply String.eqb_neq|]. apply negb_false_iff in H2.
  eapply allBytes_NotContains; [exact H2|vm_compute; reflexivity].
Qed.

Lemma ValidateClassPolicy_inl p q : ValidateClassPolicy p = inl q <->
  validClassName (PriorityClass p) = true /\
  (DefaultObjective p = "" \/ validObjectiveName (DefaultObjective p) = true) /\
  (length (AllowedObjectives p) <= AIObjectiveListMax)%nat /\
  exists out, dedupLoop validAllowed ∅ (AllowedObjectives p) = Some out /\
    q = ClassPolicy (PriorityClass p) (DefaultObjective p) (sortStrings out).
Proof.
  unfold ValidateClassPolicy. destruct (validClassName (PriorityClass p)); cbn [negb]; [|naive_solver].
  destruct (String.eqb_spec (DefaultObjective p) "") as [E|E]; cbn [negb andb].
  - destruct (Nat.ltb_spec AIObjectiveListMax (length (AllowedObjectives p))); [split; [done|intros (_ & _ & ? & _); lia]|].
    destruct (dedupLoop _ _ _); naive_solver.
  - destruct (validObjectiveName (DefaultObjective p)); cbn [negb]; [|naive_solver].
    destruct (Nat.ltb_spec AIObjectiveListMax (length (AllowedObjectives p))); [split; [done|intros (_ & _ & ? & _); lia]|].
    destruct (dedupLoop _ _ _); naive_solver.
Qed.

Lemma ValidateObjective_inl e e' : ValidateObjective e = inl e' ->
  validObjectiveName (oName e) = true /\ HasPrefix (ToLower (oName e)) "tier:" = false /\
  (length (oServices e) <= AIObjectiveServicesMax)%nat /\
  exists out, dedupLoop validService ∅ (oServices e) = Some out /\
    e' = Objective (oName e) (sortStrings out) (oPriority e) (oUpdatedAt e).
Proof.
  unfold ValidateObjective. destruct (validObjectiveName (oName e)); cbn [negb]; [|done].
  destruct (HasPrefix _ _); [done|]. destruct (Nat.ltb_spec AIObjectiveServicesMax (length (oServices e))); [done|].
  destruct (dedupLoop _ _ _) as [out|]; [|done]. intros [= <-]. eauto 6.
Qed.

Lemma joinable_Forall ok l : (forall s, ok s = true -> joinable s) -> Forall (fun s => ok s = true) l -> Forall joinable l.
Proof. intros H Hl. by eapply Forall_impl. Qed.

Lemma validated_policy p q : ValidateClassPolicy p = inl q ->
  ValidateClassPolicy q = inl q /\ scanClass (storeClass q) = q /\
  PriorityClass q = PriorityClass p /\ DefaultObjective q = DefaultObjective p /\
  (forall n, n ∈ AllowedObjectives q <-> n ∈ AllowedObjectives p) /\
  NoDup (AllowedObjectives q) /\ Sorted String.le (AllowedObjectives q).
Proof.
  intros (H1 & H2 & H3 & out & H4 & ->)%ValidateClassPolicy_inl.
  destruct (canonical_spec _ _ _ H4) as (C1 & C2 & C3 & C4 & C5 & C6 & C7).
  split. { apply ValidateClassPolicy_inl. cbn [PriorityClass DefaultObjective AllowedObjectives].
           split; [done|]. split; [done|]. split; [lia|]. exists (sortStrings out). by rewrite C7. }
  split; [|done]. unfold scanClass, storeClass. cbn.
  by rewrite split_joinList by (by eapply joinable_Forall; [apply validAllowed_joinable|]).
Qed.

(** A class policy or objective that the validator accepts is stored and read
    back as exactly what the validator returned: joining the list into its column
    and splitting the column again loses nothing.  The stored form keeps the
    class, the default and the set of names, sorted and without duplicates, and
    validating it again changes nothing. *)
Theorem stored_class_roundtrip p q e e' :
  ValidateClassPolicy p = inl q -> ValidateObjective e = inl e' ->
  (scanClass (storeClass q) = q /\ ValidateClassPolicy q = inl q /\
   PriorityClass q = PriorityClass p /\ DefaultObjective q = DefaultObjective p /\
   (forall n, n ∈ AllowedObjectives q <-> n ∈ AllowedObjectives p) /\
   NoDup (AllowedObjectives q) /\ Sorted String.le (AllowedObjectives q)) /\
  (splitList (joinList (oServices e')) = oServices e' /\ ValidateObjective e' = inl e' /\
   oName e' = oName e /\ oPriority e' = oPriority e /\
   (forall s, s ∈ oServices e' <-> s ∈ oServices e) /\
   NoDup (oServices e') /\ Sorted String.le (oServices e')).
Proof.
  intros Hq He. split.
  - destruct (validated_policy p q Hq) as (? & ? & ?). done.
  - apply ValidateObjective_inl in He as (H1 & H2 & H3 & out & H4 & ->).
    destruct (canonical_spec _ _ _ H4) as (C1 & C2 & C3 & C4 & C5 & C6 & C7).
    cbn [oServices oName oPriority].
    split; [apply split_joinList; by eapply joinable_Forall; [apply validService_joinable|]|].
    split; [|done]. unfold ValidateObjective. cbn [oServices oName oPriority oUpdatedAt].
    rewrite H1, H2, C6, C7. cbn [negb].
    by destruct (Nat.ltb_spec AIObjectiveServicesMax (length (sortStrings out))); [lia|].
Qed.

Lemma stored_class_witness :
  scanClass (storeClass (ClassPolicy AIClassCritical "plain" ["gold"; "tier:fast"])) =
    ClassPolicy AIClassCritical "plain" ["gold"; "tier:fast"] /\
  splitList (joinList ["10.0.0.1:80"; "10.0.0.2:80"]) = ["10.0.0.1:80"; "10.0.0.2:80"].
Proof.
  destruct (stored_class_roundtrip (ClassPolicy AIClassCritical "plain" ["tier:fast"; "gold"; "gold"])
    (ClassPolicy AIClassCritical "plain" ["gold"; "tier:fast"])
    (Objective "gold" ["10.0.0.2:80"; "10.0.0.1:80"; "10.0.0.2:80"] 5 0)
    (Objective "gold" ["10.0.0.1:80"; "10.0.0.2:80"] 5 0) eq_refl eq_refl) as [[H1 _] [H2 _]].
  split; [exact H1|exact H2].
Defined.

(** ** Patches *)

(** Two patches that name no field in common. *)
Definition disjointPatches (c d : AIClassPatch) : Prop :=
  (ptPriorityClass c = None \/ ptPriorityClass d = None) /\
  (ptDefaultObjective c = None \/ ptDefaultObjective d = None) /\
  (ptAllowedObjectives c = None \/ ptAllowedObjectives d = None).

Lemma Apply_valid patch q0 p : ValidateClassPolicy q0 = inl q0 ->
  ValidateClassPolicy (Apply patch noPolicy) = inl p ->
  ValidateClassPolicy (Apply patch q0) =
    inl (ClassPolicy (default (PriorityClass q0) ((fun _ => PriorityClass p) <$> ptPriorityClass patch))
                     (default (DefaultObjective q0) ((fun _ => DefaultObjective p) <$> ptDefaultObjective patch))
                     (default (AllowedObjectives q0) ((fun _ => AllowedObjectives p) <$> ptAllowedObjectives patch))).
Proof.
  intros (V1 & V2 & V3 & out0 & V4 & V5)%ValidateClassPolicy_inl (H1 & H2 & H3 & out & H4 & ->)%ValidateClassPolicy_inl.
  destruct q0 as [c d l], patch as [[pc|] [pd|] [pl|]]; cbn in *; injection V5 as V5;
    apply ValidateClassPolicy_inl; cbn; (split; [done|]); (split; [done|]); (split; [done|]);
    first [by exists out|exists out0; by rewrite <- V5].
Qed.

Lemma classPatchArgs_inl patch a : classPatchArgs patch = inl a ->
  exists p, ValidateClassPolicy (Apply patch noPolicy) = inl p /\
    a = ((fun _ => PriorityClass p) <$> ptPriorityClass patch,
         (fun _ => DefaultObjective p) <$> ptDefaultObjective patch,
         (fun _ => joinList (AllowedObjectives p)) <$> ptAllowedObjectives patch).
Proof.
  unfold classPatchArgs. destruct (ValidateClassPolicy _) as [p|e] eqn:E; [|done].
  intros H. exists p. split; [done|]. by injection H as <-.
Qed.

Lemma coalesce_comm c d a b row : disjointPatches c d ->
  classPatchArgs c = inl a -> classPatchArgs d = inl b ->
  coalesceClass a (coalesceClass b row) = coalesceClass b (coalesceClass a row).
Proof.
  intros (H1 & H2 & H3) (p & _ & ->)%classPatchArgs_inl (q & _ & ->)%classPatchArgs_inl.
  destruct c as [c1 c2 c3], d as [d1 d2 d3]. cbn in *.
  destruct H1 as [-> | ->], H2 as [-> | ->], H3 as [-> | ->]; cbn; reflexivity.
Qed.

(** The one-statement patch is the field update it names.  On a row that holds
    a validated policy, COALESCE with the patch's parameters leaves a row that
    reads back as what validating the patched policy would store, so no separate
    read is needed; and two patches that name different fields leave the same row
    in either order, so neither is lost when they race. *)
Theorem class_patch_is_field_update patch patch' a b q0 :
  ValidateClassPolicy q0 = inl q0 -> classPatchArgs patch = inl a -> classPatchArgs patch' = inl b ->
  ValidateClassPolicy (Apply patch q0) = inl (scanClass (coalesceClass a (storeClass q0))) /\
  (disjointPatches patch patch' -> forall row,
     coalesceClass a (coalesceClass b row) = coalesceClass b (coalesceClass a row)).
Proof.
  intros Hq Ha Hb. split; [|intros Hd row; by eapply coalesce_comm].
  apply classPatchArgs_inl in Ha as (p & Hp & ->).
  rewrite (Apply_valid patch q0 p Hq Hp).
  destruct (validated_policy _ _ Hp) as (_ & Hsp & _). destruct (validated_policy _ _ Hq) as (_ & Hsq & _).
  apply (f_equal AllowedObjectives) in Hsp, Hsq. unfold scanClass, storeClass in *. cbn in *. do 2 f_equal.
  by destruct (ptAllowedObjectives patch).
Qed.

Lemma class_patch_witness :
  ValidateClassPolicy (Apply (ClassPatch (Some AIClassStandard) None None) (ClassPolicy "" "plain" ["gold"])) =
    inl (ClassPolicy AIClassStandard "plain" ["gold"]) /\
  disjointPatches (ClassPatch (Some AIClassStandard) None None) (ClassPatch None (Some "") None).
Proof.
  split.
  - rewrite (proj1 (class_patch_is_field_update (ClassPatch (Some AIClassStandard) None None) (ClassPatch None (Some "") None)
      (Some AIClassStandard, None, None) (None, Some "", None) (ClassPolicy "" "plain" ["gold"]) eq_refl eq_refl eq_refl)).
    reflexivity.
  - unfold disjointPatches. cbn. tauto.
Defined.
