(* ===== verification/Tables.v ===== *)
(** * Tables: the key store's tables and the statements run on them

    The tables of pkg/aikey/schema.go and classes.go as finite maps on their
    primary keys, and one definition per SQL statement of service.go,
    qos_ladder.go, classes.go, class_patch.go and class_lkg_limits.go.  A
    statement that changes rows answers the new tables and the number of rows
    it touched, or the name of the unique index it violated.  The updated_at
    column of the limit tables is kept only where a read returns it. *)

From S2P Require Import Prelude StoreErr Objective Common Admission Gateway Classes.

Open Scope Z_scope.
Open Scope igw_scope.

(** ** Rows *)

Record keyRow := KeyRow {
  key_hash : string;
  krTenant : string;
  krName : string;
  krModels : string;
  krRPS : Z;
  krBurst : Z;
  krTPM : Z;
  krCreatedAt : Z;
  krExpiresAt : option Z;
  krEnabled : bool;
  krClientOp : option string;
  krFirstUsed : option Z;
  krClass : classColumns
}.

Record tenantRow := TenantRow {
  trRPS : Z;
  trTPM : Z;
  trBurstPct : Z;
  trUpdatedAt : Z;
  trClass : classColumns
}.

Record userRow := UserRow { urRPS : Z; urBurst : Z; urTPM : Z }.

Record objectiveRow := ObjectiveRow { orServices : string; orPriority : Z; orUpdatedAt : Z }.

(** Rows keyed by their primary keys. *)
Record Db := Tables {
  api_keys : gmap string keyRow;
  objectives : gmap string objectiveRow;
  tenant_rate_limits : gmap string tenantRow;
  tenant_model_rate_limits : gmap (string * string) Z;
  user_rate_limits : gmap (string * string) userRow;
  user_model_rate_limits : gmap (string * string * string) Z;
  rate_limit_defaults : gmap (string * string) RateLimitDefaultsEntry
}.

Definition emptyDb : Db := Tables ∅ ∅ ∅ ∅ ∅ ∅ ∅.

Definition setKeys (f : gmap string keyRow -> gmap string keyRow) (d : Db) : Db :=
  Tables (f (api_keys d)) (objectives d) (tenant_rate_limits d) (tenant_model_rate_limits d)
    (user_rate_limits d) (user_model_rate_limits d) (rate_limit_defaults d).
Definition setObjectives (f : gmap string objectiveRow -> gmap string objectiveRow) (d : Db) : Db :=
  Tables (api_keys d) (f (objectives d)) (tenant_rate_limits d) (tenant_model_rate_limits d)
    (user_rate_limits d) (user_model_rate_limits d) (rate_limit_defaults d).
Definition setTenants (f : gmap string tenantRow -> gmap string tenantRow) (d : Db) : Db :=
  Tables (api_keys d) (objectives d) (f (tenant_rate_limits d)) (tenant_model_rate_limits d)
    (user_rate_limits d) (user_model_rate_limits d) (rate_limit_defaults d).
Definition setTenantModels (f : gmap (string * string) Z -> gmap (string * string) Z) (d : Db) : Db :=
  Tables (api_keys d) (objectives d) (tenant_rate_limits d) (f (tenant_model_rate_limits d))
    (user_rate_limits d) (user_model_rate_limits d) (rate_limit_defaults d).
Definition setUsers (f : gmap (string * string) userRow -> gmap (string * string) userRow) (d : Db) : Db :=
  Tables (api_keys d) (objectives d) (tenant_rate_limits d) (tenant_model_rate_limits d)
    (f (user_rate_limits d)) (user_model_rate_limits d) (rate_limit_defaults d).
Definition setUserModels (f : gmap (string * string * string) Z -> gmap (string * string * string) Z) (d : Db) : Db :=
  Tables (api_keys d) (objectives d) (tenant_rate_limits d) (tenant_model_rate_limits d)
    (user_rate_limits d) (f (user_model_rate_limits d)) (rate_limit_defaults d).
Definition setDefaults (f : gmap (string * string) RateLimitDefaultsEntry -> gmap (string * string) RateLimitDefaultsEntry)
  (d : Db) : Db :=
  Tables (api_keys d) (objectives d) (tenant_rate_limits d) (tenant_model_rate_limits d)
    (user_rate_limits d) (user_model_rate_limits d) (f (rate_limit_defaults d)).

(** What a row-changing statement answers: tables and rows affected, or the
    violated index. *)
Definition execResult : Type := Db * Z + string.

Definition uqKeyHash : string := "uq_api_keys_key_hash".
Definition uqClientOp : string := "uq_api_keys_client_op".
Definition pkAPIKeys : string := "api_keys_pkey".

(** ** api_keys *)

(** Some other row already holds the hash, or the (tenant, operation id). *)
Definition hashTaken (d : Db) (keyID hash : string) : bool :=
  bool_decide (map_Exists (fun id r => id <> keyID /\ key_hash r = hash) (api_keys d)).

Definition clientOpTaken (d : Db) (tenant : string) (op : option string) : bool :=
  match op with
  | None => false
  | Some o => bool_decide (map_Exists (fun _ r => krTenant r = tenant /\ krClientOp r = Some o) (api_keys d))
  end.

Definition sqlInsertAPIKey (keyID : string) (r : keyRow) (d : Db) : execResult :=
  match api_keys d !! keyID with
  | Some _ => inr pkAPIKeys
  | None =>
      if hashTaken d keyID (key_hash r) then inr uqKeyHash
      else if clientOpTaken d (krTenant r) (krClientOp r) then inr uqClientOp
      else inl (setKeys (<[keyID := r]>) d, 1)
  end.

(** UPDATE ... WHERE key_id = k. *)
Definition updateKey (keyID : string) (f : keyRow -> keyRow) (d : Db) : execResult :=
  match api_keys d !! keyID with
  | None => inl (d, 0)
  | Some r =>
      if hashTaken d keyID (key_hash (f r)) then inr uqKeyHash
      else inl (setKeys (<[keyID := f r]>) d, 1)
  end.

Definition sqlRotateAPIKeyHash (hash : string) (now : Z) (keyID : string) : Db -> execResult :=
  updateKey keyID (fun r => KeyRow hash (krTenant r) (krName r) (krModels r) (krRPS r) (krBurst r) (krTPM r)
    now (krExpiresAt r) (krEnabled r) (krClientOp r) (krFirstUsed r) (krClass r)).

Definition sqlMarkAPIKeyFirstUse (now : Z) (keyID : string) (d : Db) : execResult :=
  match api_keys d !! keyID with
  | Some r =>
      match krFirstUsed r with
      | Some _ => inl (d, 0)
      | None => inl (setKeys (<[keyID := KeyRow (key_hash r) (krTenant r) (krName r) (krModels r) (krRPS r)
                  (krBurst r) (krTPM r) (krCreatedAt r) (krExpiresAt r) (krEnabled r) (krClientOp r) (Some now)
                  (krClass r)]>) d, 1)
      end
  | None => inl (d, 0)
  end.

Definition sqlUpdateAPIKeyEnabled (en : bool) (keyID : string) : Db -> execResult :=
  updateKey keyID (fun r => KeyRow (key_hash r) (krTenant r) (krName r) (krModels r) (krRPS r) (krBurst r) (krTPM r)
    (krCreatedAt r) (krExpiresAt r) en (krClientOp r) (krFirstUsed r) (krClass r)).

Definition sqlUpdateAPIKeyAllowedModels (models : string) (keyID : string) : Db -> execResult :=
  updateKey keyID (fun r => KeyRow (key_hash r) (krTenant r) (krName r) models (krRPS r) (krBurst r) (krTPM r)
    (krCreatedAt r) (krExpiresAt r) (krEnabled r) (krClientOp r) (krFirstUsed r) (krClass r)).

Definition sqlUpdateAPIKeyRPS (rps : Z) (keyID : string) : Db -> execResult :=
  updateKey keyID (fun r => KeyRow (key_hash r) (krTenant r) (krName r) (krModels r) rps (krBurst r) (krTPM r)
    (krCreatedAt r) (krExpiresAt r) (krEnabled r) (krClientOp r) (krFirstUsed r) (krClass r)).

Definition sqlUpdateAPIKeyBurst (burst : Z) (keyID : string) : Db -> execResult :=
  updateKey keyID (fun r => KeyRow (key_hash r) (krTenant r) (krName r) (krModels r) (krRPS r) burst (krTPM r)
    (krCreatedAt r) (krExpiresAt r) (krEnabled r) (krClientOp r) (krFirstUsed r) (krClass r)).

Definition sqlUpdateAPIKeyTPM (tpm : Z) (keyID : string) : Db -> execResult :=
  updateKey keyID (fun r => KeyRow (key_hash r) (krTenant r) (krName r) (krModels r) (krRPS r) (krBurst r) tpm
    (krCreatedAt r) (krExpiresAt r) (krEnabled r) (krClientOp r) (krFirstUsed r) (krClass r)).

Definition setKeyClass (f : classColumns -> classColumns) (r : keyRow) : keyRow :=
  KeyRow (key_hash r) (krTenant r) (krName r) (krModels r) (krRPS r) (krBurst r) (krTPM r)
    (krCreatedAt r) (krExpiresAt r) (krEnabled r) (krClientOp r) (krFirstUsed r) (f (krClass r)).

Definition sqlUpdateKeyClass (keyID : string) (c : classColumns) : Db -> execResult :=
  updateKey keyID (setKeyClass (fun _ => c)).

Definition sqlPatchKeyClass (keyID : string) (a : patchArgs) : Db -> execResult :=
  updateKey keyID (setKeyClass (coalesceClass a)).

Definition sqlDeleteAPIKeyByID (keyID : string) (d : Db) : execResult :=
  match api_keys d !! keyID with
  | None => inl (d, 0)
  | Some _ => inl (setKeys (delete keyID) d, 1)
  end.

(** The row, with its id, of the first key that satisfies a condition.  The
    unique indexes make it the only one for the conditions used below. *)
Definition findKey (f : string -> keyRow -> bool) (d : Db) : option (string * keyRow) :=
  head (filter (fun p => f p.1 p.2 = true) (map_to_list (api_keys d))).

Definition sqlSelectAPIKeyByClientOp (tenant op : string) : Db -> option (string * keyRow) :=
  findKey (fun _ r => bool_decide (krTenant r = tenant /\ krClientOp r = Some op)).

Definition sqlSelectAPIKeyByHash (hash : string) : Db -> option (string * keyRow) :=
  findKey (fun _ r => (key_hash r ==s hash) && krEnabled r).

Definition sqlSelectKeyHashByID (keyID : string) (d : Db) : option string := key_hash <$> api_keys d !! keyID.

Definition sqlSelectAPIKeyByID (keyID : string) (d : Db) : option keyRow := api_keys d !! keyID.

Definition sqlSelectAPIKeysByTenant (tenant : string) (d : Db) : list (string * keyRow) :=
  filter (fun p => krTenant p.2 = tenant) (map_to_list (api_keys d)).

Definition sqlSelectAllAPIKeys (d : Db) : list (string * keyRow) := map_to_list (api_keys d).

Definition sqlCountKnownTenants (d : Db) : Z :=
  Z.of_nat (size (list_to_set (krTenant ∘ snd <$> map_to_list (api_keys d)) ∪
                  dom (tenant_rate_limits d) : gset string)).

(** ** Objectives and classes *)

Definition sqlUpsertObjective (name services : string) (priority now : Z) (d : Db) : execResult :=
  inl (setObjectives (<[name := ObjectiveRow services priority now]>) d, 1).

Definition sqlDeleteObjective (name : string) (d : Db) : execResult :=
  match objectives d !! name with
  | None => inl (d, 0)
  | Some _ => inl (setObjectives (delete name) d, 1)
  end.

(** The rows of the SELECT, in an order the server chooses. *)
Definition sqlSelectObjectives (d : Db) : list (string * objectiveRow) := map_to_list (objectives d).

Definition noTenantRow (now : Z) : tenantRow := TenantRow 0 0 0 now noCols.

Definition setTenantClass (now : Z) (f : classColumns -> classColumns) (r : tenantRow) : tenantRow :=
  TenantRow (trRPS r) (trTPM r) (trBurstPct r) now (f (trClass r)).

Definition sqlUpsertTenantClass (tenant : string) (c : classColumns) (now : Z) (d : Db) : execResult :=
  inl (setTenants (<[tenant := setTenantClass now (fun _ => c) (default (noTenantRow now) (tenant_rate_limits d !! tenant))]>) d, 1).

Definition sqlPatchTenantClass (tenant : string) (a : patchArgs) (now : Z) (d : Db) : execResult :=
  inl (setTenants (<[tenant := setTenantClass now (coalesceClass a) (default (noTenantRow now) (tenant_rate_limits d !! tenant))]>) d, 1).

Definition setsClass (c : classColumns) : bool :=
  negb (colPriorityClass c ==s "") || negb (colDefaultObjective c ==s "") || negb (colAllowed c ==s "").

Definition sqlSelectTenantClass (tenant : string) (d : Db) : option classColumns :=
  trClass <$> tenant_rate_limits d !! tenant.

Definition sqlSelectTenantClasses (d : Db) : list (string * classColumns) :=
  filter (fun p => setsClass p.2 = true) (prod_map id trClass <$> map_to_list (tenant_rate_limits d)).

Definition sqlSelectKeyClass (keyID : string) (d : Db) : option classColumns := krClass <$> api_keys d !! keyID.

Definition sqlSelectKeyClasses (d : Db) : list (string * classColumns) :=
  filter (fun p => setsClass p.2 = true) (prod_map id krClass <$> map_to_list (api_keys d)).

(** ** Limits *)

Definition sqlUpsertTenantRateLimit (tenant : string) (rps tpm burst now : Z) (d : Db) : execResult :=
  inl (setTenants (<[tenant := TenantRow rps tpm burst now
    (trClass (default (noTenantRow now) (tenant_rate_limits d !! tenant)))]>) d, 1).

Definition sqlSelectTenantRateLimit (tenant : string) (d : Db) : option (Z * Z * Z) :=
  (fun r => (trRPS r, trTPM r, trBurstPct r)) <$> tenant_rate_limits d !! tenant.

Definition sqlSelectTenantRateLimitFull (tenant : string) (d : Db) : option (Z * Z * Z * Z) :=
  (fun r => (trRPS r, trTPM r, trBurstPct r, trUpdatedAt r)) <$> tenant_rate_limits d !! tenant.

Definition sqlUpsertTenantModelRateLimit (tenant model : string) (tpm : Z) (d : Db) : execResult :=
  inl (setTenantModels (<[(tenant, model) := tpm]>) d, 1).

Definition sqlDeleteTenantModelRateLimit (tenant model : string) (d : Db) : execResult :=
  inl (setTenantModels (delete (tenant, model)) d, match tenant_model_rate_limits d !! (tenant, model) with None => 0 | _ => 1 end).

Definition sqlSelectTenantModelRateLimit (tenant model : string) (d : Db) : option Z :=
  tenant_model_rate_limits d !! (tenant, model).

Definition sqlSelectTenantModelRateLimits (tenant : string) (d : Db) : list ModelRateLimit :=
  (fun p => ModelLimit p.1.2 p.2) <$> filter (fun p => p.1.1 = tenant) (map_to_list (tenant_model_rate_limits d)).

Definition sqlUpsertUserRateLimit (tenant user : string) (rps burst tpm : Z) (d : Db) : execResult :=
  inl (setUsers (<[(tenant, user) := UserRow rps burst tpm]>) d, 1).

Definition sqlSelectUserRateLimit (tenant user : string) (d : Db) : option userRow := user_rate_limits d !! (tenant, user).

Definition userLe (a b : string * userRow) : Prop := String.le a.1 b.1.
#[export] Instance userLe_dec : RelDecision userLe.
Proof. intros a b. unfold userLe. apply _. Defined.

Definition sqlSelectUserRateLimitsByTenant (tenant : string) (d : Db) : list (string * userRow) :=
  merge_sort userLe ((fun p => (p.1.2, p.2)) <$> filter (fun p => p.1.1 = tenant) (map_to_list (user_rate_limits d))).

Definition sqlDeleteUserRateLimit (tenant user : string) (d : Db) : execResult :=
  inl (setUsers (delete (tenant, user)) d, match user_rate_limits d !! (tenant, user) with None => 0 | _ => 1 end).

Definition sqlUpsertUserModelRateLimit (tenant user model : string) (tpm : Z) (d : Db) : execResult :=
  inl (setUserModels (<[(tenant, user, model) := tpm]>) d, 1).

Definition ofUser (tenant user : string) (k : string * string * string) : bool :=
  bool_decide (k.1 = (tenant, user)).

Definition sqlDeleteUserModelRateLimits (tenant user : string) (d : Db) : execResult :=
  inl (setUserModels (filter (fun p => ofUser tenant user p.1 = false)) d,
       Z.of_nat (length (filter (fun p => ofUser tenant user p.1 = true) (map_to_list (user_model_rate_limits d))))).

Definition sqlSelectUserModelRateLimit (tenant user model : string) (d : Db) : option Z :=
  user_model_rate_limits d !! (tenant, user, model).

Definition modelLe (a b : ModelRateLimit) : Prop := String.le (mModel a) (mModel b).
#[export] Instance modelLe_dec : RelDecision modelLe.
Proof. intros a b. unfold modelLe. apply _. Defined.

Definition sqlSelectUserModelRateLimits (tenant user : string) (d : Db) : list ModelRateLimit :=
  merge_sort modelLe ((fun p => ModelLimit p.1.2 p.2) <$>
    filter (fun p => ofUser tenant user p.1 = true) (map_to_list (user_model_rate_limits d))).

Definition sqlUpsertRateLimitDefaults (e : RateLimitDefaultsEntry) (d : Db) : execResult :=
  inl (setDefaults (<[(dScope e, dRuleIdent e) := e]>) d, 1).

Definition sqlSelectRateLimitDefaults (scope ident : string) (d : Db) : option RateLimitDefaultsEntry :=
  rate_limit_defaults d !! (scope, ident).

Definition sqlDeleteRateLimitDefaults (scope ident : string) (d : Db) : execResult :=
  inl (setDefaults (delete (scope, ident)) d, match rate_limit_defaults d !! (scope, ident) with None => 0 | _ => 1 end).

Definition sqlSelectAllTenantLimits (d : Db) : list lkgTenantLimit :=
  (fun p => LkgTenant p.1 (trRPS p.2) (trTPM p.2) (trBurstPct p.2)) <$> map_to_list (tenant_rate_limits d).

Definition sqlSelectAllTenantModelLimits (d : Db) : list lkgTenantModelLimit :=
  (fun p => LkgTenantModel p.1.1 p.1.2 p.2) <$> map_to_list (tenant_model_rate_limits d).

Definition sqlSelectAllRateLimitDefaults (d : Db) : list RateLimitDefaultsEntry :=
  snd <$> map_to_list (rate_limit_defaults d).
