(* ===== verification/ClassStore.v ===== *)
(** * ClassStore: the class snapshot, its refresh and the last-known-good file

    Models pkg/aikey/class_snapshot.go and class_lkg_limits.go and the row
    readers of classes.go.  A refresh takes a ticket, reads six result sets, and
    publishes what it read unless a newer read is already published; the file
    follows the published snapshot and is served by a process that starts while
    the store is away.  The file is its decoded content: encoding/json gives
    back the structure it was given.  A Go map is iterated in any order, so the
    content of the file is built from an arbitrary listing of the objectives.
    writeFileAtomic replaces the file or leaves it, and may report a failure
    either way. *)

From S2P Require Import Prelude StoreErr Objective Common Admission Gateway Classes Tables.

Open Scope Z_scope.
Open Scope igw_scope.

(** ** Cache keys (service.go, qos_ladder.go) *)

Definition cachePfxKeyHash : string := "ak:".
Definition cachePfxKeyID : string := "keyid:".
Definition cachePfxTenant : string := "rl:".
Definition cachePfxModel : string := "rlm:".
Definition cachePfxUser : string := "rlu:".
Definition cachePfxUserModel : string := "rlum:".
Definition cachePfxDefaults : string := "rld:".

Definition cacheKeyForHash (h : string) : string := cachePfxKeyHash +:+ h.
Definition cacheKeyForID (k : string) : string := cachePfxKeyID +:+ k.
Definition cacheKeyForTenant (t : string) : string := cachePfxTenant +:+ t.
Definition cacheKeyForModel (t m : string) : string := cachePfxModel +:+ t +:+ "|" +:+ m.
Definition cacheKeyForUser (t u : string) : string := cachePfxUser +:+ t +:+ "|" +:+ u.
Definition cacheKeyForUserModel (t u m : string) : string := cachePfxUserModel +:+ t +:+ "|" +:+ u +:+ "|" +:+ m.
Definition cacheKeyForDefaults (s r : string) : string := cachePfxDefaults +:+ s +:+ "|" +:+ r.

Record rateLimitCacheEntry := RLEntry { rlRPS : Z; rlTPM : Z; rlBurstPct : Z }.

Record defaultsCacheEntry := DefEntry {
  dcUserRPS : Z; dcUserTPM : Z; dcTenantRPS : Z; dcTenantTPM : Z; dcVipRPS : Z; dcVipTPM : Z;
  dcExists : bool
}.

Definition noLimit : rateLimitCacheEntry := RLEntry 0 0 0.
Definition noDefaultsEntry : defaultsCacheEntry := DefEntry 0 0 0 0 0 0 false.

Definition defaultsCached (e : RateLimitDefaultsEntry) : defaultsCacheEntry :=
  DefEntry (DefaultUserRPS e) (DefaultUserTPM e) (DefaultTenantRPS e) (DefaultTenantTPM e)
    (VipSharedRPS e) (VipSharedTPM e) true.

(** ** Row readers *)

Definition scanObjective (row : string * objectiveRow) : AIObjectiveEntry :=
  Objective row.1 (splitList (orServices row.2)) (orPriority row.2) (orUpdatedAt row.2).

Definition readObjectives (rows : list (string * objectiveRow)) : gmap string AIObjectiveEntry :=
  foldl (fun m row => <[row.1 := scanObjective row]> m) ∅ rows.

Definition readClassRows (rows : list (string * classColumns)) : gmap string AIClassPolicy :=
  foldl (fun m row => <[row.1 := scanClass row.2]> m) ∅ rows.

(** The three orders of [limitRows.sort]. *)
Definition tenantLimitLe (a b : lkgTenantLimit) : Prop := String.le (ltTenant a) (ltTenant b).
Definition tenantModelLe (a b : lkgTenantModelLimit) : Prop :=
  if lmTenant a ==s lmTenant b then String.le (lmModel a) (lmModel b) else String.le (lmTenant a) (lmTenant b).
Definition defaultsLe (a b : RateLimitDefaultsEntry) : Prop :=
  if dScope a ==s dScope b then String.le (dRuleIdent a) (dRuleIdent b) else String.le (dScope a) (dScope b).

#[export] Instance tenantLimitLe_dec : RelDecision tenantLimitLe.
Proof. intros a b. unfold tenantLimitLe. apply _. Defined.
#[export] Instance tenantModelLe_dec : RelDecision tenantModelLe.
Proof. intros a b. unfold tenantModelLe. destruct (_ ==s _); apply _. Defined.
#[export] Instance defaultsLe_dec : RelDecision defaultsLe.
Proof. intros a b. unfold defaultsLe. destruct (_ ==s _); apply _. Defined.

Definition sortRows (l : limitRows) : limitRows :=
  LimitRows (merge_sort tenantLimitLe (lrTenants l)) (merge_sort tenantModelLe (lrTenantModels l))
            (merge_sort defaultsLe (lrDefaults l)).

Definition readLimitRows (ts : list lkgTenantLimit) (ms : list lkgTenantModelLimit) (ds : list RateLimitDefaultsEntry)
  : limitRows := sortRows (LimitRows ts ms ds).

(** ** The file's limit rows, indexed for the outage fallbacks *)

Record lkgLimitSet := LimitSet {
  lsLimits : gmap string rateLimitCacheEntry;
  lsDefaults : gmap string defaultsCacheEntry
}.

Definition newLKGLimitSet (l : limitRows) : lkgLimitSet :=
  let m := foldl (fun m r => <[cacheKeyForTenant (ltTenant r) := RLEntry (ltRPS r) (ltTokensPerMin r) (ltBurstPct r)]> m)
             (∅ : gmap string rateLimitCacheEntry) (lrTenants l) in
  let m := foldl (fun m r => <[cacheKeyForModel (lmTenant r) (lmModel r) := RLEntry 0 (lmTokensPerMin r) 0]> m)
             m (lrTenantModels l) in
  LimitSet m (foldl (fun m r => <[cacheKeyForDefaults (dScope r) (dRuleIdent r) := defaultsCached r]> m)
                ∅ (lrDefaults l)).

Definition lkgRateLimit (set : option lkgLimitSet) (cacheKey : string) : option rateLimitCacheEntry :=
  match set with
  | None => None
  | Some s => Some (default noLimit (lsLimits s !! cacheKey))
  end.

Definition lkgDefaultsEntry (set : option lkgLimitSet) (cacheKey : string) : option defaultsCacheEntry :=
  match set with
  | None => None
  | Some s => Some (default noDefaultsEntry (lsDefaults s !! cacheKey))
  end.

(** ** The class side of a service *)

Record storeHealth := Health { hGen : Z; hReachable : bool; hLastOK : option Z }.

Definition classLKGVersion : Z := 2.
Definition classLKGVersion1 : Z := 1.

Record classLKGFile := LKGFile {
  fVersion : Z;
  fSourceTimestamp : Z;
  fObjectives : list AIObjectiveEntry;
  fTenants : gmap string AIClassPolicy;
  fKeys : gmap string AIClassPolicy;
  fTenantLimits : list lkgTenantLimit;
  fTenantModelLimits : list lkgTenantModelLimit;
  fDefaults : list RateLimitDefaultsEntry
}.

#[export] Instance lkgTenantLimit_eq_dec : EqDecision lkgTenantLimit.
Proof. solve_decision. Defined.
#[export] Instance lkgTenantModelLimit_eq_dec : EqDecision lkgTenantModelLimit.
Proof. solve_decision. Defined.
#[export] Instance classLKGFile_eq_dec : EqDecision classLKGFile.
Proof. solve_decision. Defined.

(** [csDir]: a configuration directory is set; [csHook]: the snapshots the
    change hook was called with, newest first. *)
Record classState := ClassState {
  csSnap : option ClassSnapshot;
  csDir : bool;
  csWritten : option classLKGFile;
  csTicks : Z;
  csReadGen : Z;
  csLkgLimits : option lkgLimitSet;
  csHealth : storeHealth;
  csHook : list ClassSnapshot
}.

Definition zeroClassState (dir : bool) : classState :=
  ClassState None dir None 0 0 None (Health 0 false None) [].

(** What the directory holds: no file, an unreadable one, or one that decodes. *)
Inductive lkgDisk := NoFile | Garbage | Decodes (f : classLKGFile).

Definition setHealth (h : storeHealth) (c : classState) : classState :=
  ClassState (csSnap c) (csDir c) (csWritten c) (csTicks c) (csReadGen c) (csLkgLimits c) h (csHook c).
Definition setWritten (w : option classLKGFile) (c : classState) : classState :=
  ClassState (csSnap c) (csDir c) w (csTicks c) (csReadGen c) (csLkgLimits c) (csHealth c) (csHook c).

Definition noteStoreRead (gen : Z) (ok : bool) (now : Z) (c : classState) : classState :=
  let h := csHealth c in
  if gen <? hGen h then c
  else setHealth (Health gen ok (if ok then Some now else hLastOK h)) c.

Definition StoreHealth (c : classState) : bool * option Z := (hReachable (csHealth c), hLastOK (csHealth c)).

Definition ClassSource (c : classState) : string * Z * Z :=
  match csSnap c with
  | None => (AIClassSourceNone, 0, 0)
  | Some s => (Source s, ReadAt s, csTicks c)
  end.

Definition publishClasses (snap : ClassSnapshot) (c : classState) : bool * classState :=
  let refuse := match csSnap c with
                | Some cur => (Source cur ==s AIClassSourceStore) && (Gen snap <=? Gen cur)
                | None => false
                end in
  if refuse then (false, c)
  else (true, ClassState (Some snap) (csDir c) (csWritten c) (csTicks c) (csReadGen c) None (csHealth c)
                (snap :: csHook c)).

(** What the six statements of one refresh read. *)
Record classRead := ClassRead {
  crObjectives : gmap string AIObjectiveEntry;
  crTenants : gmap string AIClassPolicy;
  crKeys : gmap string AIClassPolicy;
  crLimits : limitRows
}.

Definition takeTicket (c : classState) : Z * classState :=
  let gen := u64 (csReadGen c + 1) in
  (gen, ClassState (csSnap c) (csDir c) (csWritten c) (csTicks c) gen (csLkgLimits c) (csHealth c) (csHook c)).

Definition snapshotOf (gen now : Z) (r : classRead) : ClassSnapshot :=
  Snapshot (crObjectives r) (crTenants r) (crKeys r) now AIClassSourceStore gen (Some (crLimits r)).

(** *** The file *)

(** One swap-down of [sortObjectives]: j runs down while l[j] < l[j-1]. *)
Fixpoint sinkObjective (j : nat) (l : list AIObjectiveEntry) : list AIObjectiveEntry :=
  match j with
  | O => l
  | S j' =>
      match l !! j, l !! j' with
      | Some a, Some b =>
          if String.ltb (oName a) (oName b) then sinkObjective j' (<[j' := a]> (<[j := b]> l)) else l
      | _, _ => l
      end
  end.

Definition sortObjectives (l : list AIObjectiveEntry) : list AIObjectiveEntry :=
  foldl (fun l i => sinkObjective i l) l (seq 1 (length l - 1)).

(** [iter]: the objectives in the order the map was iterated. *)
Definition lkgContent (iter : list AIObjectiveEntry) (snap : ClassSnapshot) : classLKGFile :=
  LKGFile classLKGVersion 0 (sortObjectives iter) (Tenants snap) (Keys snap)
    (match limits snap with Some l => lrTenants l | None => [] end)
    (match limits snap with Some l => lrTenantModels l | None => [] end)
    (match limits snap with Some l => lrDefaults l | None => [] end).

Definition stampFile (at_ : Z) (f : classLKGFile) : classLKGFile :=
  LKGFile (fVersion f) at_ (fObjectives f) (fTenants f) (fKeys f) (fTenantLimits f) (fTenantModelLimits f) (fDefaults f).

(** The outcome of writeFileAtomic. *)
Inductive fileOutcome := FileWritten | FileFailed (replaced : bool).

Definition writeClassLKG (iter : list AIObjectiveEntry) (out : fileOutcome) (snap : ClassSnapshot)
  (c : classState) (d : lkgDisk) : classState * lkgDisk :=
  if negb (csDir c) then (c, d)
  else
    let body := lkgContent iter snap in
    if bool_decide (csWritten c = Some body) then (c, d)
    else
      let d' := Decodes (stampFile (ReadAt snap) body) in
      match out with
      | FileWritten => (setWritten (Some body) c, d')
      | FileFailed replaced => (c, if replaced then d' else d)
      end.

(** The published pointer is the one given: store snapshots are told apart by
    their tickets. *)
Definition isCurrent (snap : ClassSnapshot) (c : classState) : bool :=
  match csSnap c with
  | Some cur => (Source cur ==s Source snap) && (Gen cur ==? Gen snap)
  | None => false
  end.

Definition writeClassLKGIfCurrent (iter : list AIObjectiveEntry) (out : fileOutcome) (snap : ClassSnapshot)
  (c : classState) (d : lkgDisk) : classState * lkgDisk :=
  if negb (isCurrent snap c) then (c, d) else writeClassLKG iter out snap c d.

(** [iter]: the iteration order of the map just loaded. *)
Definition loadClassLKG (iter : list AIObjectiveEntry) (d : lkgDisk) (c : classState) : bool * classState :=
  match csSnap c with
  | Some _ => (false, c)
  | None =>
      if negb (csDir c) then (false, c)
      else match d with
           | NoFile | Garbage => (false, c)
           | Decodes f =>
               if negb (fVersion f ==? classLKGVersion) && negb (fVersion f ==? classLKGVersion1) then (false, c)
               else
                 let lims := if classLKGVersion <=? fVersion f
                             then Some (sortRows (LimitRows (fTenantLimits f) (fTenantModelLimits f) (fDefaults f)))
                             else None in
                 let objs := foldl (fun m o => <[oName o := o]> m) (∅ : gmap string AIObjectiveEntry) (fObjectives f) in
                 let snap := Snapshot objs (fTenants f) (fKeys f) (fSourceTimestamp f) AIClassSourceLKG 0 lims in
                 let h := csHealth c in
                 let h := match hLastOK h with
                          | None => Health (hGen h) (hReachable h) (Some (fSourceTimestamp f))
                          | Some _ => h
                          end in
                 (true, ClassState (Some snap) (csDir c)
                          (if fVersion f ==? classLKGVersion then Some (lkgContent iter snap) else csWritten c)
                          (csTicks c) (csReadGen c)
                          (match lims with Some l => Some (newLKGLimitSet l) | None => csLkgLimits c end)
                          h (snap :: csHook c))
           end
  end.

(** AppliedObjectives, sorted by name; [None]: nothing was ever read. *)
Definition AppliedObjectives (iter : list AIObjectiveEntry) (c : classState)
  : option (list AIObjectiveEntry * string * Z) :=
  match csSnap c with
  | None => None
  | Some s => Some (sortObjectives iter, Source s, ReadAt s)
  end.

(** *** The refresh *)

(** Everything after the statements of a refresh answered. *)
Definition finishRefresh (gen now : Z) (iter : list AIObjectiveEntry) (out : fileOutcome)
  (read : classRead + goErr) (c : classState) (d : lkgDisk) : option goErr * (classState * lkgDisk) :=
  match read with
  | inr e => (Some e, (noteStoreRead gen false now c, d))
  | inl r =>
      let snap := snapshotOf gen now r in
      let '(published, c) := publishClasses snap c in
      let '(c, d) := if published then writeClassLKGIfCurrent iter out snap c d else (c, d) in
      (None, (noteStoreRead gen true now c, d))
  end.

Definition RefreshClasses (now : Z) (iter : list AIObjectiveEntry) (out : fileOutcome)
  (read : classRead + goErr) (c : classState) (d : lkgDisk) : option goErr * (classState * lkgDisk) :=
  let '(gen, c) := takeTicket c in
  finishRefresh gen now iter out read c d.

Definition classTick (now : Z) (iter iter' : list AIObjectiveEntry) (out : fileOutcome)
  (read : classRead + goErr) (c : classState) (d : lkgDisk) : classState * lkgDisk :=
  let '(err, (c, d)) := RefreshClasses now iter out read c d in
  let c := match err with Some _ => (loadClassLKG iter' d c).2 | None => c end in
  let c := match csSnap c with
           | Some s => if Source s ==s AIClassSourceLKG
                       then ClassState (csSnap c) (csDir c) (csWritten c) (u64 (csTicks c + 1)) (csReadGen c)
                              (csLkgLimits c) (csHealth c) (csHook c)
                       else c
           | None => c
           end in
  (c, d).

(** LLB_AI_OBJECTIVE_REFRESH_SEC, in seconds. *)
Definition classRefreshDefaultSec : Z := 10.
Definition ClassRefreshInterval (env : string) : Z :=
  let sec := if env ==s "" then classRefreshDefaultSec
             else match ParseInt env with Some n => n | None => classRefreshDefaultSec end in
  if sec <? 1 then 1 else sec.

(** The budget of a refresh read and whether the clamp applied, in nanoseconds. *)
Definition refreshBudget (budget intervalNs : Z) : Z :=
  if budget >? Z.quot intervalNs 2 then Z.quot intervalNs 2 else budget.
