(* ===== verification/ClassStoreProps.v ===== *)
(** * ClassStoreProps: the snapshot in force and the last-known-good file

    Theorems over ClassStore.v: the file's content does not depend on the order
    a map is iterated in, a process that starts from it serves the classes and
    limits it was written from, and, under any interleaving of writes, refreshes
    and failures, the snapshot in force never goes back to an older read. *)

From S2P Require Import Prelude StoreErr Objective RateLimit RateSync Common Admission Gateway Identity Classes Tables ClassStore ClassProps.

Open Scope Z_scope.
Open Scope igw_scope.

(** ** The insertion sort *)

Definition objLe (a b : AIObjectiveEntry) : Prop := String.le (oName a) (oName b).

#[export] Instance objLe_trans : Transitive objLe.
Proof. intros a b c. unfold objLe. by etrans. Qed.

Lemma ltb_le a b : String.ltb (oName a) (oName b) = true -> objLe a b.
Proof. unfold String.ltb, objLe, String.le, String.leb. by destruct (String.compare _ _). Qed.

Lemma nltb_le a b : String.ltb (oName a) (oName b) = false -> objLe b a.
Proof.
  unfold String.ltb, objLe, String.le, String.leb. rewrite (String.compare_antisym (oName b)).
  by destruct (String.compare (oName a) (oName b)).
Qed.

Lemma sink_step pre b x post :
  sinkObjective (S (length pre)) ((pre ++ [b]) ++ x :: post) =
  if String.ltb (oName x) (oName b) then sinkObjective (length pre) (pre ++ x :: b :: post)
  else (pre ++ [b]) ++ x :: post.
Proof.
  cbn [sinkObjective]. rewrite <- app_assoc. cbn [app].
  rewrite (list_lookup_middle pre (x :: post) b (length pre)) by done.
  rewrite (lookup_app_r pre) by lia. replace (S (length pre) - length pre)%nat with 1%nat by lia. cbn [lookup list_lookup].
  destruct (String.ltb _ _); [|done]. f_equal.
  rewrite insert_app_r_alt by lia. replace (S (length pre) - length pre)%nat with 1%nat by lia.
  rewrite insert_app_r_alt by lia. by rewrite Nat.sub_diag.
Qed.

Lemma sink_spec pre x post : StronglySorted objLe pre ->
  exists pre', sinkObjective (length pre) (pre ++ x :: post) = pre' ++ post /\
    pre' ≡ₚ x :: pre /\ StronglySorted objLe pre'.
Proof.
  revert x post. induction pre as [|b pre IH] using rev_ind; intros x post Hs.
  { exists [x]. split; [done|]. split; [done|]. constructor; constructor. }
  rewrite length_app, Nat.add_1_r, sink_step. apply StronglySorted_app in Hs as (Hb & Hs & _).
  destruct (String.ltb _ _) eqn:Hlt.
  - destruct (IH x (b :: post) Hs) as (pre' & E & Hp & Hs'). exists (pre' ++ [b]). split; [by rewrite E, <- app_assoc|].
    split; [by rewrite Hp|].
    apply StronglySorted_app_2; [|done|constructor; constructor].
    intros y z Hy ->%list_elem_of_singleton. rewrite Hp, elem_of_cons in Hy. destruct Hy as [->|Hy]; [by apply ltb_le|].
    apply Hb; [done|set_solver].
  - exists ((pre ++ [b]) ++ [x]). split; [by rewrite <- !app_assoc|].
    split; [symmetry; apply Permutation_cons_append|]. apply nltb_le in Hlt.
    apply StronglySorted_app_2; [|apply StronglySorted_app_2; [done|done|constructor; constructor]|constructor; constructor].
    intros y z Hy ->%list_elem_of_singleton. apply elem_of_app in Hy as [Hy|Hy]; [|by apply list_elem_of_singleton in Hy as ->].
    transitivity b; [apply Hb; [done|set_solver]|done].
Qed.

(** After the outer loop's first i rounds the first i+1 elements are sorted. *)
Lemma sort_rounds n l pre post : l = pre ++ post -> pre <> [] -> length post = n -> StronglySorted objLe pre ->
  let r := foldl (fun l i => sinkObjective i l) l (seq (length pre) n) in
  r ≡ₚ l /\ StronglySorted objLe r.
Proof.
  revert l pre post. induction n as [|n IH]; intros l pre post -> Hne Hlen Hs; simpl.
  { destruct post; [|done]. by rewrite app_nil_r. }
  destruct post as [|x post]; [done|]. injection Hlen as Hlen.
  destruct (sink_spec pre x post Hs) as (pre' & E & Hp & Hs').
  assert (length pre' = S (length pre)) as Hl by by rewrite Hp.
  rewrite E, <- Hl. destruct (IH (pre' ++ post) pre' post) as [H1 H2]; [done|by destruct pre'|done|done|].
  split; [|done]. rewrite H1, Hp. simpl. by rewrite Permutation_middle.
Qed.

Lemma sortObjectives_spec l : sortObjectives l ≡ₚ l /\ StronglySorted objLe (sortObjectives l).
Proof.
  unfold sortObjectives. destruct l as [|x l]; [split; [done|constructor]|].
  replace (length (x :: l) - 1)%nat with (length l) by (simpl; lia).
  apply (sort_rounds (length l) (x :: l) [x] l); [done|done|done|constructor; constructor].
Qed.

Lemma sortObjectives_unique l l' : l ≡ₚ l' -> NoDup (oName <$> l) -> sortObjectives l = sortObjectives l'.
Proof.
  intros Hp Hnd. destruct (sortObjectives_spec l) as [P1 S1], (sortObjectives_spec l') as [P2 S2].
  apply (StronglySorted_unique_strong objLe); [|done|done|by rewrite P1, P2].
  intros a b Ha Hb Hab Hba. rewrite P1 in Ha. rewrite P2, <- Hp in Hb.
  assert (oName a = oName b) as E by by apply (anti_symm String.le).
  apply list_elem_of_lookup in Ha as [i Hi], Hb as [j Hj].
  assert (i = j) as ->; [|congruence].
  apply (NoDup_lookup _ _ _ (oName a) Hnd); rewrite list_lookup_fmap; [by rewrite Hi|by rewrite Hj, E].
Qed.

(** ** What a refresh reads of the tables *)

Definition readDb (d : Db) : classRead :=
  ClassRead (readObjectives (sqlSelectObjectives d)) (readClassRows (sqlSelectTenantClasses d))
    (readClassRows (sqlSelectKeyClasses d))
    (readLimitRows (sqlSelectAllTenantLimits d) (sqlSelectAllTenantModelLimits d) (sqlSelectAllRateLimitDefaults d)).

Lemma readObjectives_lookup d name :
  readObjectives (sqlSelectObjectives d) !! name = (fun r => scanObjective (name, r)) <$> objectives d !! name.
Proof.
  unfold readObjectives, sqlSelectObjectives. destruct (objectives d !! name) as [r|] eqn:E; simpl.
  - assert ((name, r) ∈ map_to_list (objectives d)) as Hin by by apply elem_of_map_to_list.
    apply (foldl_insert_elem fst scanObjective _ ∅ (name, r)); [|done].
    intros [n1 r1] [n2 r2] H1%elem_of_map_to_list H2%elem_of_map_to_list; simpl. intros <-. congruence.
  - rewrite (foldl_insert_ne fst scanObjective), lookup_empty; [done|].
    intros [n1 r1] H1%elem_of_map_to_list; simpl. intros ->. congruence.
Qed.

Lemma readObjectives_named d : map_Forall (fun name o => oName o = name) (readObjectives (sqlSelectObjectives d)).
Proof. intros name o. rewrite readObjectives_lookup. by intros (r & _ & ->)%fmap_Some. Qed.

(** Rows whose class columns say nothing are not read, and a policy that says
    nothing is what a missing row means. *)
Lemma readClassRows_lookup {R} (cls : R -> classColumns) (tbl : gmap string R) i :
  readClassRows (filter (fun p => setsClass p.2 = true) (prod_map id cls <$> map_to_list tbl)) !! i =
  (tbl !! i) ≫= (fun r => if setsClass (cls r) then Some (scanClass (cls r)) else None).
Proof.
  assert (forall k c, (k, c) ∈ filter (fun p => setsClass p.2 = true) (prod_map id cls <$> map_to_list tbl) <->
    setsClass c = true /\ exists r, tbl !! k = Some r /\ c = cls r) as Hin.
  { intros k c. rewrite list_elem_of_filter, list_elem_of_fmap. simpl. split.
    - intros (Hs & [k' r] & [= -> ->] & Hr%elem_of_map_to_list). eauto.
    - intros (Hs & r & Hr & ->). split; [done|]. exists (k, r). by rewrite elem_of_map_to_list. }
  unfold readClassRows. destruct (tbl !! i) as [r|] eqn:E; simpl.
  - destruct (setsClass (cls r)) eqn:Hs.
    + apply (foldl_insert_elem fst (fun p => scanClass p.2) _ ∅ (i, cls r)); [|apply Hin; eauto].
      intros [k1 c1] [k2 c2] (_ & r1 & H1 & ->)%Hin (_ & r2 & H2 & ->)%Hin; simpl. intros <-. congruence.
    + rewrite (foldl_insert_ne fst (fun p => scanClass p.2)), lookup_empty; [done|].
      intros [k1 c1] (Hs1 & r1 & H1 & ->)%Hin; simpl. intros ->. congruence.
  - rewrite (foldl_insert_ne fst (fun p => scanClass p.2)), lookup_empty; [done|].
    intros [k1 c1] (Hs1 & r1 & H1 & ->)%Hin; simpl. intros ->. congruence.
Qed.

(** ** The limit rows of the file *)

(** Identities the write surfaces accept: no delimiter in a tenant or a scope. *)
Definition wfLimits (d : Db) : Prop :=
  (forall t m v, tenant_model_rate_limits d !! (t, m) = Some v -> ContainsByte pipe t = false) /\
  (forall s i e, rate_limit_defaults d !! (s, i) = Some e ->
     ContainsByte pipe s = false /\ dScope e = s /\ dRuleIdent e = i).

Lemma cacheKeyForModel_inj t m t' m' :
  ContainsByte pipe t = false -> ContainsByte pipe t' = false ->
  cacheKeyForModel t m = cacheKeyForModel t' m' -> t = t' /\ m = m'.
Proof. unfold cacheKeyForModel. intros H1 H2 E%string_app_inj_l. by apply pipe_inj. Qed.

Lemma cacheKeyForDefaults_inj s i s' i' :
  ContainsByte pipe s = false -> ContainsByte pipe s' = false ->
  cacheKeyForDefaults s i = cacheKeyForDefaults s' i' -> s = s' /\ i = i'.
Proof. unfold cacheKeyForDefaults. intros H1 H2 E%string_app_inj_l. by apply pipe_inj. Qed.

Lemma elem_tenantLimits d x : x ∈ sqlSelectAllTenantLimits d <->
  exists t r, tenant_rate_limits d !! t = Some r /\ x = LkgTenant t (trRPS r) (trTPM r) (trBurstPct r).
Proof.
  unfold sqlSelectAllTenantLimits. rewrite list_elem_of_fmap. split.
  - intros ([t r] & -> & H%elem_of_map_to_list). eauto.
  - intros (t & r & H & ->). exists (t, r). by rewrite elem_of_map_to_list.
Qed.

Lemma elem_tenantModels d x : x ∈ sqlSelectAllTenantModelLimits d <->
  exists t m v, tenant_model_rate_limits d !! (t, m) = Some v /\ x = LkgTenantModel t m v.
Proof.
  unfold sqlSelectAllTenantModelLimits. rewrite list_elem_of_fmap. split.
  - intros ([[t m] v] & -> & H%elem_of_map_to_list). eauto.
  - intros (t & m & v & H & ->). exists (t, m, v). by rewrite elem_of_map_to_list.
Qed.

Lemma elem_allDefaults d x : x ∈ sqlSelectAllRateLimitDefaults d <->
  exists s i, rate_limit_defaults d !! (s, i) = Some x.
Proof.
  unfold sqlSelectAllRateLimitDefaults. rewrite list_elem_of_fmap. split.
  - intros ([[s i] e] & -> & H%elem_of_map_to_list). eauto.
  - intros (s & i & H). exists (s, i, x). by rewrite elem_of_map_to_list.
Qed.

Section limit_set.
  Context (d : Db) (Hwf : wfLimits d) (l : limitRows).
  Context (Ht : lrTenants l ≡ₚ sqlSelectAllTenantLimits d)
          (Hm : lrTenantModels l ≡ₚ sqlSelectAllTenantModelLimits d)
          (Hd : lrDefaults l ≡ₚ sqlSelectAllRateLimitDefaults d).

Lemma limitSet_tenant t :
    lkgRateLimit (Some (newLKGLimitSet l)) (cacheKeyForTenant t) =
    Some (match tenant_rate_limits d !! t with
          | Some r => RLEntry (trRPS r) (trTPM r) (trBurstPct r) | None => noLimit end).
  Proof.
    cbn [lkgRateLimit newLKGLimitSet lsLimits]. f_equal.
    rewrite (foldl_insert_ne (fun r => cacheKeyForModel (lmTenant r) (lmModel r)) (fun r => RLEntry 0 (lmTokensPerMin r) 0))
      by (intros x _ E; discriminate).
    destruct (tenant_rate_limits d !! t) as [r|] eqn:E.
    - rewrite (foldl_insert_elem (fun r => cacheKeyForTenant (ltTenant r))
        (fun r => RLEntry (ltRPS r) (ltTokensPerMin r) (ltBurstPct r)) _ ∅ (LkgTenant t (trRPS r) (trTPM r) (trBurstPct r))); [done| |].
      + intros y z. rewrite Ht. intros (t1 & r1 & H1 & ->)%elem_tenantLimits (t2 & r2 & H2 & ->)%elem_tenantLimits.
        intros Ek%string_app_inj_l. simpl in *. subst. congruence.
      + rewrite Ht. apply elem_tenantLimits. eauto.
    - rewrite (foldl_insert_ne (fun r => cacheKeyForTenant (ltTenant r))), lookup_empty; [done|].
      intros x. rewrite Ht. intros (t1 & r1 & H1 & ->)%elem_tenantLimits Ek%string_app_inj_l. simpl in *. congruence.
  Qed.

Lemma limitSet_model t m : ContainsByte pipe t = false ->
    lkgRateLimit (Some (newLKGLimitSet l)) (cacheKeyForModel t m) =
    Some (RLEntry 0 (default 0 (tenant_model_rate_limits d !! (t, m))) 0).
  Proof.
    intros Hp. cbn [lkgRateLimit newLKGLimitSet lsLimits]. f_equal.
    destruct (tenant_model_rate_limits d !! (t, m)) as [v|] eqn:E.
    - rewrite (foldl_insert_elem (fun r => cacheKeyForModel (lmTenant r) (lmModel r)) (fun r => RLEntry 0 (lmTokensPerMin r) 0)
        _ _ (LkgTenantModel t m v)); [done| |].
      + intros y z. rewrite Hm. intros (t1 & m1 & v1 & H1 & ->)%elem_tenantModels (t2 & m2 & v2 & H2 & ->)%elem_tenantModels.
        simpl. intros [-> ->]%cacheKeyForModel_inj; [congruence|by eapply (proj1 Hwf)..].
      + rewrite Hm. apply elem_tenantModels. eauto.
    - rewrite (foldl_insert_ne (fun r => cacheKeyForModel (lmTenant r) (lmModel r))).
      + rewrite (foldl_insert_ne (fun r => cacheKeyForTenant (ltTenant r))), lookup_empty; [done|]. intros x _ Ek. discriminate.
      + intros x. rewrite Hm. intros (t1 & m1 & v1 & H1 & ->)%elem_tenantModels. simpl.
        intros [-> ->]%cacheKeyForModel_inj; [congruence|by eapply (proj1 Hwf)|done].
  Qed.

Lemma limitSet_defaults s i : ContainsByte pipe s = false ->
    lkgDefaultsEntry (Some (newLKGLimitSet l)) (cacheKeyForDefaults s i) =
    Some (match rate_limit_defaults d !! (s, i) with Some e => defaultsCached e | None => noDefaultsEntry end).
  Proof.
    intros Hp. cbn [lkgDefaultsEntry newLKGLimitSet lsDefaults]. f_equal. destruct Hwf as [_ Hwd].
    destruct (rate_limit_defaults d !! (s, i)) as [e|] eqn:E.
    - destruct (Hwd s i e E) as (_ & Es & Ei). rewrite <- Es, <- Ei at 1.
      rewrite (foldl_insert_elem (fun r => cacheKeyForDefaults (dScope r) (dRuleIdent r)) defaultsCached _ ∅ e); [done| |].
      + intros y z. rewrite Hd. intros (s1 & i1 & H1)%elem_allDefaults (s2 & i2 & H2)%elem_allDefaults.
        destruct (Hwd _ _ _ H1) as (? & -> & ->), (Hwd _ _ _ H2) as (? & -> & ->).
        intros [-> ->]%cacheKeyForDefaults_inj; [congruence|done..].
      + rewrite Hd. apply elem_allDefaults. eauto.
    - rewrite (foldl_insert_ne (fun r => cacheKeyForDefaults (dScope r) (dRuleIdent r))), lookup_empty; [done|].
      intros x. rewrite Hd. intros (s1 & i1 & H1)%elem_allDefaults. destruct (Hwd _ _ _ H1) as (? & -> & ->).
      intros [-> ->]%cacheKeyForDefaults_inj; [congruence|done..].
  Qed.
End limit_set.

(** ** Restart from the file *)

(** What the process remembers having written is what the directory holds. *)
Definition diskHolds (c : classState) (dk : lkgDisk) : Prop :=
  forall b, csWritten c = Some b -> exists t, dk = Decodes (stampFile t b).

(** The published snapshot is of a ticket already handed out. *)
Definition ticketed (c : classState) : Prop :=
  0 <= csReadGen c /\ forall s, csSnap c = Some s -> 0 <= Gen s <= csReadGen c.

(** A listing of the objectives, in the order a map iteration happened to take. *)
Definition listing (iter : list AIObjectiveEntry) (m : gmap string AIObjectiveEntry) : Prop :=
  iter ≡ₚ (map_to_list m).*2.

Lemma takeTicket_small c : 0 <= csReadGen c -> csReadGen c + 1 < two64 -> (takeTicket c).1 = csReadGen c + 1.
Proof. intros. unfold takeTicket. cbn [fst]. apply u64_id. lia. Qed.

Lemma resolve_same_content s s' inp :
  Objectives s = Objectives s' -> Tenants s = Tenants s' -> Keys s = Keys s' ->
  classResolve (Some s) inp = classResolve (Some s') inp.
Proof.
  intros Ho Ht Hk.
  assert (tenantPolicy (Some s) inp = tenantPolicy (Some s') inp) as Et by (unfold tenantPolicy; by rewrite Ht).
  assert (keyPolicy (Some s) inp = keyPolicy (Some s') inp) as Ek by (unfold keyPolicy; by rewrite Hk).
  assert (forall n v, objectiveFor (Some s) n v = objectiveFor (Some s') n v) as Eo
    by (intros; unfold objectiveFor; by rewrite Ho).
  unfold classResolve, headerHint, tierHint, mayAsk, baseOf, limitOf. by rewrite !Et, !Ek, !Eo.
Qed.

Lemma objectives_reload iter (m : gmap string AIObjectiveEntry) :
  map_Forall (fun name o => oName o = name) m -> listing iter m ->
  foldl (fun m o => <[oName o := o]> m) ∅ (sortObjectives iter) = m.
Proof.
  intros Hn Hl. assert (forall o, o ∈ sortObjectives iter <-> exists name, m !! name = Some o) as Hin.
  { intros o. rewrite (proj1 (sortObjectives_spec iter)). rewrite Hl, list_elem_of_fmap. split.
    - intros ([n o'] & -> & H%elem_of_map_to_list). eauto.
    - intros (n & H). exists (n, o). by rewrite elem_of_map_to_list. }
  apply map_eq. intros name. destruct (m !! name) as [o|] eqn:E.
  - rewrite <- (Hn name o E). apply (foldl_insert_elem oName (fun o => o)); [|apply Hin; eauto].
    intros y z (n1 & H1)%Hin (n2 & H2)%Hin. rewrite (Hn _ _ H1), (Hn _ _ H2). intros ->. congruence.
  - rewrite (foldl_insert_ne oName (fun o => o)), lookup_empty; [done|].
    intros o (n & H)%Hin. rewrite (Hn _ _ H). intros ->. congruence.
Qed.

(** A refresh that answered leaves the file holding what was read. *)
Lemma refresh_writes_file now iter r c dk c' dk' :
  ticketed c -> csReadGen c + 1 < two64 -> csDir c = true -> diskHolds c dk ->
  RefreshClasses now iter FileWritten (inl r) c dk = (None, (c', dk')) ->
  let snap := snapshotOf (csReadGen c + 1) now r in
  csSnap c' = Some snap /\ exists t, dk' = Decodes (stampFile t (lkgContent iter snap)).
Proof.
  intros [Ht0 Ht] Hg Hdir Hdisk Hr snap. unfold RefreshClasses in Hr.
  destruct (takeTicket c) as [gen c0] eqn:E0. pose proof (takeTicket_small c Ht0 Hg) as Eg. rewrite E0 in Eg. cbn [fst] in Eg. subst gen.
  unfold takeTicket in E0. injection E0 as E1 E0. rewrite E1 in E0.
  unfold finishRefresh in Hr. fold snap in Hr. subst c0.
  unfold publishClasses in Hr. cbn [csSnap csDir csWritten csTicks csReadGen csHealth csHook] in Hr.
  assert (match csSnap c with Some cur => (Source cur ==s AIClassSourceStore) && (Gen snap <=? Gen cur) | None => false end = false) as Hpub.
  { destruct (csSnap c) as [cur|]; [|done]. specialize (Ht cur eq_refl). cbn [Gen snapshotOf snap].
    destruct (Z.leb_spec (csReadGen c + 1) (Gen cur)); [lia|]. apply andb_false_r. }
  rewrite Hpub in Hr. unfold writeClassLKGIfCurrent, isCurrent in Hr. cbn [csSnap] in Hr.
  rewrite String.eqb_refl, Z.eqb_refl in Hr. cbn [andb negb] in Hr.
  unfold writeClassLKG in Hr. cbn [csDir csWritten] in Hr. rewrite Hdir in Hr. cbn [negb] in Hr.
  destruct (bool_decide_reflect (csWritten c = Some (lkgContent iter snap))) as [Hw|Hw]; injection Hr as <- <-.
  - split; [unfold noteStoreRead; by destruct (_ <? _)|by apply Hdisk].
  - split; [unfold noteStoreRead; by destruct (_ <? _)|eauto].
Qed.

Lemma sortRows_perm l :
  lrTenants (sortRows l) ≡ₚ lrTenants l /\ lrTenantModels (sortRows l) ≡ₚ lrTenantModels l /\
  lrDefaults (sortRows l) ≡ₚ lrDefaults l.
Proof. split; [apply merge_sort_Permutation|]. split; apply merge_sort_Permutation. Qed.

(** C31: A gateway that starts while the store is away serves what the store last
    told its predecessor.  Whatever order the objective map was iterated in when
    the file was written, a process that loads the file resolves every request to
    the class the snapshot in force resolved it to, marks its source as the file,
    and answers the tenant, tenant|model and defaults limits of the tables as the
    refresh read them, a row that was not there as "no limit". *)
Theorem lkg_restart_serves_what_was_read now iter iter2 db c dk c' dk' :
  wfLimits db -> ticketed c -> csReadGen c + 1 < two64 -> csDir c = true -> diskHolds c dk ->
  listing iter (crObjectives (readDb db)) ->
  RefreshClasses now iter FileWritten (inl (readDb db)) c dk = (None, (c', dk')) ->
  exists c2, loadClassLKG iter2 dk' (zeroClassState true) = (true, c2) /\
    (ClassSource c2).1.1 = AIClassSourceLKG /\
    (forall inp, classResolve (csSnap c2) inp = classResolve (csSnap c') inp) /\
    (forall t, lkgRateLimit (csLkgLimits c2) (cacheKeyForTenant t) =
       Some (match tenant_rate_limits db !! t with
             | Some r => RLEntry (trRPS r) (trTPM r) (trBurstPct r) | None => noLimit end)) /\
    (forall t m, ContainsByte pipe t = false -> lkgRateLimit (csLkgLimits c2) (cacheKeyForModel t m) =
       Some (RLEntry 0 (default 0 (tenant_model_rate_limits db !! (t, m))) 0)) /\
    (forall s i, ContainsByte pipe s = false -> lkgDefaultsEntry (csLkgLimits c2) (cacheKeyForDefaults s i) =
       Some (match rate_limit_defaults db !! (s, i) with Some e => defaultsCached e | None => noDefaultsEntry end)).
Proof.
  intros Hwf Ht Hg Hdir Hdisk Hl Hr.
  destruct (refresh_writes_file now iter (readDb db) c dk c' dk' Ht Hg Hdir Hdisk Hr) as [Hs [t ->]].
  eexists. split; [cbn [loadClassLKG zeroClassState csSnap csDir negb stampFile lkgContent fVersion]; reflexivity|].
  cbn [ClassSource csSnap fst Source csLkgLimits]. split; [done|]. split.
  { intros inp. rewrite Hs. apply resolve_same_content; [|done|done].
    cbn [Objectives snapshotOf fObjectives stampFile lkgContent].
    apply objectives_reload; [apply readObjectives_named|done]. }
  cbn [snapshotOf limits crLimits readDb fTenantLimits fTenantModelLimits fDefaults stampFile lkgContent].
  set (l0 := LimitRows (sqlSelectAllTenantLimits db) (sqlSelectAllTenantModelLimits db) (sqlSelectAllRateLimitDefaults db)).
  destruct (sortRows_perm l0) as (P1 & P2 & P3).
  set (l1 := LimitRows (lrTenants (sortRows l0)) (lrTenantModels (sortRows l0)) (lrDefaults (sortRows l0))).
  destruct (sortRows_perm l1) as (Q1 & Q2 & Q3).
  assert (lrTenants (sortRows l1) ≡ₚ sqlSelectAllTenantLimits db) as E1 by (rewrite Q1; exact P1).
  assert (lrTenantModels (sortRows l1) ≡ₚ sqlSelectAllTenantModelLimits db) as E2 by (rewrite Q2; exact P2).
  assert (lrDefaults (sortRows l1) ≡ₚ sqlSelectAllRateLimitDefaults db) as E3 by (rewrite Q3; exact P3).
  split; [intros u; by apply (limitSet_tenant db (sortRows l1))|].
  split; [intros u m Hu; by apply (limitSet_model db Hwf (sortRows l1))|].
  intros s i Hs'. by apply (limitSet_defaults db Hwf (sortRows l1)).
Qed.

(** A store with an objective, a tenant with a class and limits, and a default. *)
Definition acmeDb : Db :=
  Tables ∅ {[ "gold" := ObjectiveRow "" 5 0 ]}
    {[ "acme" := TenantRow 10 1000 150 0 (ClassCols "critical" "gold" "gold") ]}
    {[ ("acme", "m") := 300 ]} ∅ ∅
    {[ ("global", "") := DefaultsEntry "global" "" 1 2 3 4 5 6 ]}.

Lemma lkg_restart_witness :
  exists c', RefreshClasses 7 [Objective "gold" [] 5 0] FileWritten (inl (readDb acmeDb)) (zeroClassState true) NoFile
      = (None, c') /\
    exists c2, loadClassLKG [] c'.2 (zeroClassState true) = (true, c2) /\
      lkgRateLimit (csLkgLimits c2) (cacheKeyForModel "acme" "m") = Some (RLEntry 0 300 0).
Proof.
  destruct (RefreshClasses 7 [Objective "gold" [] 5 0] FileWritten (inl (readDb acmeDb)) (zeroClassState true) NoFile)
    as [e [c' dk']] eqn:E.
  assert (e = None) as -> by (vm_compute in E; by injection E).
  exists (c', dk'). split; [done|].
  destruct (lkg_restart_serves_what_was_read 7 [Objective "gold" [] 5 0] [] acmeDb (zeroClassState true) NoFile c' dk')
    as (c2 & H1 & _ & _ & _ & H2 & _); [..|exact E|].
  - split; [intros t m v H|intros s i x H]; cbn [acmeDb tenant_model_rate_limits rate_limit_defaults] in H; apply lookup_singleton_Some in H as [[= <- <-] <-]; by repeat split.
  - split; [done|]. intros s H. discriminate.
  - reflexivity.
  - reflexivity.
  - intros b H. discriminate.
  - unfold listing. vm_compute. reflexivity.
  - exists c2. split; [exact H1|]. rewrite H2 by reflexivity. vm_compute. reflexivity.
Defined.
