(* ===== verification/ClassRuns.v ===== *)
(** * ClassRuns: refreshes of the class snapshot under interleaving

    Several refreshes can be under way at once: the ticker's, and one after
    every local write.  Each takes its ticket, runs six statements against
    whatever the tables hold at that moment, publishes, and writes the file,
    while other gateways keep writing the tables.  The step relation below
    interleaves those pieces at the code's own lock boundaries, and the theorem
    states what the tickets are for. *)

From S2P Require Import Prelude StoreErr Objective RateLimit RateSync Common Admission Gateway Classes Tables ClassStore.

Open Scope Z_scope.
Open Scope igw_scope.

(** What the statements that answered with versions [vs] of the tables read. *)
Definition partsAt (hist : list Db) (vs : list nat) : option classRead :=
  match mapM (fun v => hist !! v) vs with
  | Some [d1; d2; d3; d4; d5; d6] =>
      Some (ClassRead (readObjectives (sqlSelectObjectives d1)) (readClassRows (sqlSelectTenantClasses d2))
              (readClassRows (sqlSelectKeyClasses d3))
              (readLimitRows (sqlSelectAllTenantLimits d4) (sqlSelectAllTenantModelLimits d5)
                 (sqlSelectAllRateLimitDefaults d6)))
  | _ => None
  end.

(** Where a refresh is: the versions its statements have read, or about to write
    the file for the snapshot it published. *)
Inductive phase := Reading (vs : list nat) | Filing (snap : ClassSnapshot).

(** [hist]: every version the tables had, the last one current; [started]: the
    version current when each ticket was taken; [finished]: the refreshes that
    returned no error. *)
Record cworld := CWorld {
  hist : list Db;
  cls : classState;
  disk : lkgDisk;
  flight : gmap Z phase;
  started : gmap Z nat;
  finished : gset Z
}.

Definition cur (w : cworld) : nat := (length (hist w) - 1)%nat.

Inductive cstep : cworld -> cworld -> Prop :=
| StepWrite w d :
    cstep w (CWorld (hist w ++ [d]) (cls w) (disk w) (flight w) (started w) (finished w))
| StepTicket w g c :
    csReadGen (cls w) + 1 < two64 -> takeTicket (cls w) = (g, c) ->
    cstep w (CWorld (hist w) c (disk w) (<[g := Reading []]> (flight w)) (<[g := cur w]> (started w)) (finished w))
| StepStatement w g vs :
    flight w !! g = Some (Reading vs) -> (length vs < 6)%nat ->
    cstep w (CWorld (hist w) (cls w) (disk w) (<[g := Reading (vs ++ [cur w])]> (flight w)) (started w) (finished w))
| StepFail w g vs now :
    flight w !! g = Some (Reading vs) ->
    cstep w (CWorld (hist w) (noteStoreRead g false now (cls w)) (disk w) (delete g (flight w)) (started w) (finished w))
| StepPublish w g vs now r c :
    flight w !! g = Some (Reading vs) -> partsAt (hist w) vs = Some r ->
    publishClasses (snapshotOf g now r) (cls w) = (true, c) ->
    cstep w (CWorld (hist w) c (disk w) (<[g := Filing (snapshotOf g now r)]> (flight w)) (started w) (finished w))
| StepSuperseded w g vs now r c :
    flight w !! g = Some (Reading vs) -> partsAt (hist w) vs = Some r ->
    publishClasses (snapshotOf g now r) (cls w) = (false, c) ->
    cstep w (CWorld (hist w) (noteStoreRead g true now c) (disk w) (delete g (flight w)) (started w) ({[g]} ∪ finished w))
| StepFile w g snap now iter out c d :
    flight w !! g = Some (Filing snap) ->
    writeClassLKGIfCurrent iter out snap (cls w) (disk w) = (c, d) ->
    cstep w (CWorld (hist w) (noteStoreRead g true now c) d (delete g (flight w)) (started w) ({[g]} ∪ finished w))
| StepLoad w iter b c :
    loadClassLKG iter (disk w) (cls w) = (b, c) ->
    cstep w (CWorld (hist w) c (disk w) (flight w) (started w) (finished w)).

(** A process that has just started, with any file left behind. *)
Definition freshWorld (d : Db) (dir : bool) (dk : lkgDisk) : cworld :=
  CWorld [d] (zeroClassState dir) dk ∅ ∅ ∅.

(** ** The invariant *)

(** The snapshot is what versions no older than its ticket's read held. *)
Definition readSince (w : cworld) (s : ClassSnapshot) (v0 : nat) : Prop :=
  exists vs r, Forall (fun v => v0 <= v)%nat vs /\ partsAt (hist w) vs = Some r /\
    Objectives s = crObjectives r /\ Tenants s = crTenants r /\ Keys s = crKeys r /\ limits s = Some (crLimits r).

(** In force from the store, at ticket [g] or a later one. *)
Definition snapInForce (w : cworld) (g : Z) : Prop :=
  exists s, csSnap (cls w) = Some s /\ Source s = AIClassSourceStore /\ g <= Gen s.

Record classInv (w : cworld) : Prop := {
  inv_hist : hist w <> [];
  inv_gen : 0 <= csReadGen (cls w);
  inv_started : forall g v, started w !! g = Some v -> 0 < g <= csReadGen (cls w) /\ (v <= cur w)%nat;
  inv_mono : forall g g' v v', started w !! g = Some v -> started w !! g' = Some v' -> g <= g' -> (v <= v')%nat;
  inv_reading : forall g vs, flight w !! g = Some (Reading vs) ->
    exists v, started w !! g = Some v /\ Forall (fun u => v <= u)%nat vs;
  inv_filing : forall g s, flight w !! g = Some (Filing s) -> snapInForce w g;
  inv_finished : forall g, g ∈ finished w -> snapInForce w g;
  inv_source : forall s, csSnap (cls w) = Some s -> Source s = AIClassSourceStore ->
    exists v, started w !! Gen s = Some v /\ readSince w s v
}.

Lemma cur_snoc w d : hist w <> [] -> (cur w <= length (hist w ++ [d]) - 1)%nat.
Proof. intros _. unfold cur. rewrite length_app. simpl. lia. Qed.

Lemma mapM_lookup_app (h : list Db) d vs ds :
  mapM (fun v => h !! v) vs = Some ds -> mapM (fun v => (h ++ [d]) !! v) vs = Some ds.
Proof.
  revert ds. induction vs as [|v vs IH]; intros ds; simpl; [done|].
  intros (x & Hx & (xs & Hxs & [= <-])%bind_Some)%bind_Some.
  rewrite (lookup_app_l_Some h [d] v x Hx). simpl. by rewrite (IH xs Hxs).
Qed.

Lemma partsAt_app h d vs r : partsAt h vs = Some r -> partsAt (h ++ [d]) vs = Some r.
Proof.
  unfold partsAt. destruct (mapM (fun v => h !! v) vs) as [ds|] eqn:E; [|done].
  by rewrite (mapM_lookup_app h d vs ds E).
Qed.

Lemma note_snap g ok now c : csSnap (noteStoreRead g ok now c) = csSnap c.
Proof. unfold noteStoreRead. by destruct (_ <? _). Qed.

Lemma note_gen g ok now c : csReadGen (noteStoreRead g ok now c) = csReadGen c.
Proof. unfold noteStoreRead. by destruct (_ <? _). Qed.

Lemma file_snap iter out s c d c' d' : writeClassLKGIfCurrent iter out s c d = (c', d') ->
  csSnap c' = csSnap c /\ csReadGen c' = csReadGen c.
Proof.
  unfold writeClassLKGIfCurrent, writeClassLKG. intros H.
  repeat case_match; simplify_eq; done.
Qed.

Lemma publish_true s c c' : publishClasses s c = (true, c') ->
  csSnap c' = Some s /\ csReadGen c' = csReadGen c /\
  (forall x, csSnap c = Some x -> Source x = AIClassSourceStore -> Gen x < Gen s).
Proof.
  unfold publishClasses. destruct (csSnap c) as [x|] eqn:E.
  - destruct (String.eqb_spec (Source x) AIClassSourceStore) as [Hs|Hs]; cbn [andb].
    + destruct (Z.leb_spec (Gen s) (Gen x)); [done|]. intros [= <-]. split; [done|]. split; [done|].
      intros ? [= <-] _. lia.
    + intros [= <-]. split; [done|]. split; [done|]. by intros ? [= <-].
  - intros [= <-]. done.
Qed.

Lemma publish_false s c c' : publishClasses s c = (false, c') ->
  c' = c /\ exists x, csSnap c = Some x /\ Source x = AIClassSourceStore /\ Gen s <= Gen x.
Proof.
  unfold publishClasses. destruct (csSnap c) as [x|] eqn:E; [|done].
  destruct (String.eqb_spec (Source x) AIClassSourceStore) as [Hs|Hs]; cbn [andb]; [|done].
  destruct (Z.leb_spec (Gen s) (Gen x)); [|done]. intros [= <-]. eauto.
Qed.

Lemma load_snap iter d c b c' : loadClassLKG iter d c = (b, c') ->
  csReadGen c' = csReadGen c /\
  (csSnap c' = csSnap c \/ exists s, csSnap c = None /\ csSnap c' = Some s /\ Source s = AIClassSourceLKG).
Proof.
  unfold loadClassLKG. destruct (csSnap c) as [s|] eqn:E; [intros [= <- <-]; eauto|].
  destruct (csDir c); cbn [negb]; [|intros [= <- <-]; eauto].
  destruct d as [| |f]; [intros [= <- <-]; eauto..|].
  destruct (_ && _); [intros [= <- <-]; eauto|]. intros [= <- <-]. split; [done|]. right. eexists. done.
Qed.

(** Only the snapshot and the ticket counter matter to the invariant. *)
Lemma snapInForce_eq w w' g : csSnap (cls w') = csSnap (cls w) -> snapInForce w g -> snapInForce w' g.
Proof. unfold snapInForce. by intros ->. Qed.

Lemma readSince_app w d s v :
  readSince w s v -> readSince (CWorld (hist w ++ [d]) (cls w) (disk w) (flight w) (started w) (finished w)) s v.
Proof. intros (vs & r & H1 & H2 & H3). exists vs, r. split; [done|]. split; [by apply partsAt_app|done]. Qed.

(** ** Every step keeps the invariant *)

(** The clauses a step does not touch. *)
Ltac inv_same I :=
  try first [exact (inv_hist _ I) | exact (inv_gen _ I) | exact (inv_started _ I) | exact (inv_mono _ I)
            | exact (inv_reading _ I) | exact (inv_source _ I)].

Lemma inv_step_write w d : classInv w ->
  classInv (CWorld (hist w ++ [d]) (cls w) (disk w) (flight w) (started w) (finished w)).
Proof.
  intros I. pose proof (cur_snoc w d (inv_hist w I)) as Hc. constructor; cbn [hist cls flight started finished].
  - by destruct (hist w).
  - exact (inv_gen w I).
  - intros g v H%(inv_started w I). unfold cur at 1. cbn [hist]. lia.
  - apply (inv_mono w I).
  - apply (inv_reading w I).
  - intros g s H%(inv_filing w I). by eapply snapInForce_eq.
  - intros g H%(inv_finished w I). by eapply snapInForce_eq.
  - intros s H1 H2. destruct (inv_source w I s H1 H2) as (v & Hv & Hr). exists v. split; [done|]. by apply readSince_app.
Qed.

Lemma inv_step_ticket w g c : classInv w -> csReadGen (cls w) + 1 < two64 -> takeTicket (cls w) = (g, c) ->
  classInv (CWorld (hist w) c (disk w) (<[g := Reading []]> (flight w)) (<[g := cur w]> (started w)) (finished w)).
Proof.
  intros I Hg Ht. pose proof (inv_gen w I). unfold takeTicket in Ht. rewrite u64_id in Ht by lia. injection Ht as <- <-.
  assert (started w !! (csReadGen (cls w) + 1) = None) as Hnew.
  { destruct (started w !! _) as [v|] eqn:E; [|done]. apply (inv_started w I) in E. lia. }
  constructor; cbn [hist cls flight started finished csReadGen csSnap]; inv_same I.
  - lia.
  - intros g v [[<- <-]|[_ Hv]]%lookup_insert_Some; [unfold cur; cbn; lia|].
    apply (inv_started w I) in Hv. unfold cur in *. cbn in *. lia.
  - intros g g' v v' [[<- <-]|[Hne Hv]]%lookup_insert_Some [[<- <-]|[Hne' Hv']]%lookup_insert_Some Hle; [done|..].
    + apply (inv_started w I) in Hv'. lia.
    + by apply (inv_started w I) in Hv as [_ Hv].
    + by eapply (inv_mono w I g g').
  - intros g vs [[<- [= <-]]|[Hne Hv]]%lookup_insert_Some; [exists (cur w); by rewrite lookup_insert_eq|].
    destruct (inv_reading w I g vs Hv) as (v & Hs & Hf). exists v. by rewrite lookup_insert_ne.
  - intros g s [[<- [=]]|[Hne Hv]]%lookup_insert_Some. apply (inv_filing w I) in Hv. by eapply snapInForce_eq.
  - intros g Hf%(inv_finished w I). by eapply snapInForce_eq.
  - intros s H1 H2. destruct (inv_source w I s H1 H2) as (v & Hv & Hr). exists v. split; [|done].
    rewrite lookup_insert_ne; [done|]. intros E. congruence.
Qed.

Lemma inv_step_statement w g vs : classInv w -> flight w !! g = Some (Reading vs) ->
  classInv (CWorld (hist w) (cls w) (disk w) (<[g := Reading (vs ++ [cur w])]> (flight w)) (started w) (finished w)).
Proof.
  intros I Hg. constructor; cbn [hist cls flight started finished]; inv_same I.
  - intros g' vs' [[<- [= <-]]|[Hne Hv]]%lookup_insert_Some; [|by apply (inv_reading w I)].
    destruct (inv_reading w I g vs Hg) as (v & Hs & Hf). exists v. split; [done|].
    apply Forall_app. split; [done|]. apply Forall_singleton. by apply (inv_started w I) in Hs as [_ ?].
  - intros g' s [[<- [=]]|[Hne Hv]]%lookup_insert_Some. apply (inv_filing w I) in Hv. by eapply snapInForce_eq.
  - intros g' Hf%(inv_finished w I). by eapply snapInForce_eq.
Qed.

(** A refresh that leaves, with nothing published. *)
Lemma inv_step_leave w g c dk fin : classInv w ->
  csSnap c = csSnap (cls w) -> csReadGen c = csReadGen (cls w) ->
  (forall g', g' ∈ fin -> g' ∈ finished w \/ snapInForce w g') ->
  classInv (CWorld (hist w) c dk (delete g (flight w)) (started w) fin).
Proof.
  intros I Es Eg Hfin. constructor; cbn [hist cls flight started finished]; rewrite ?Es, ?Eg; inv_same I.
  - intros g' vs [_ Hv]%lookup_delete_Some. by apply (inv_reading w I).
  - intros g' s [_ Hv]%lookup_delete_Some. apply (inv_filing w I) in Hv. by eapply snapInForce_eq.
  - intros g' [Hf%(inv_finished w I)|Hf]%Hfin; by eapply snapInForce_eq.
Qed.

Lemma inv_step_publish w g vs now r c : classInv w -> flight w !! g = Some (Reading vs) ->
  partsAt (hist w) vs = Some r -> publishClasses (snapshotOf g now r) (cls w) = (true, c) ->
  classInv (CWorld (hist w) c (disk w) (<[g := Filing (snapshotOf g now r)]> (flight w)) (started w) (finished w)).
Proof.
  intros I Hg Hr (Es & Eg & Hlt)%publish_true.
  assert (forall g', snapInForce w g' -> snapInForce (CWorld (hist w) c (disk w)
    (<[g := Filing (snapshotOf g now r)]> (flight w)) (started w) (finished w)) g') as Hmono.
  { intros g' (s & H1 & H2 & H3). exists (snapshotOf g now r). cbn [cls]. split; [done|]. split; [done|].
    specialize (Hlt s H1 H2). cbn in *. lia. }
  constructor; cbn [hist cls flight started finished]; rewrite ?Es, ?Eg; inv_same I.
  - intros g' vs' [[_ [=]]|[_ Hv]]%lookup_insert_Some. by apply (inv_reading w I).
  - intros g' s [[<- [= <-]]|[_ Hv]]%lookup_insert_Some; [|by apply Hmono, (inv_filing w I g' s)].
    exists (snapshotOf g now r). cbn. split; [done|]. split; [done|lia].
  - intros g' Hf. by apply Hmono, (inv_finished w I).
  - intros s [= <-] _. destruct (inv_reading w I g vs Hg) as (v & Hs & Hf). exists v. split; [done|]. exists vs, r. done.
Qed.

Lemma inv_step_load w iter b c : classInv w -> loadClassLKG iter (disk w) (cls w) = (b, c) ->
  classInv (CWorld (hist w) c (disk w) (flight w) (started w) (finished w)).
Proof.
  intros I [Eg [Es|(s & En & Es & Hs)]]%load_snap.
  - constructor; cbn [hist cls flight started finished]; rewrite ?Es, ?Eg; inv_same I.
    + intros g s Hv%(inv_filing w I). by eapply snapInForce_eq.
    + intros g Hf%(inv_finished w I). by eapply snapInForce_eq.
  - assert (forall g, ~ snapInForce w g) as Hno by (intros g (x & Hx & _); congruence).
    constructor; cbn [hist cls flight started finished]; rewrite ?Es, ?Eg; inv_same I.
    + intros g s' Hv%(inv_filing w I). by destruct (Hno g).
    + intros g Hf%(inv_finished w I). by destruct (Hno g).
    + intros s' [= <-] Hc. rewrite Hs in Hc. discriminate.
Qed.

Lemma classInv_step w w' : classInv w -> cstep w w' -> classInv w'.
Proof.
  intros I Hst. revert I.
  destruct Hst as [w0 d|w0 g c Hg Ht|w0 g vs Hf Hl|w0 g vs now Hf|w0 g vs now r c Hf Hr Hp|w0 g vs now r c Hf Hr Hp
    |w0 g snap now iter out c d Hf Hw|w0 iter b c Hl]; intros I.
  - by apply inv_step_write.
  - by apply inv_step_ticket.
  - by apply inv_step_statement.
  - apply inv_step_leave; [done|apply note_snap|apply note_gen|eauto].
  - by eapply inv_step_publish.
  - apply publish_false in Hp as [-> (x & H1 & H2 & H3)].
    apply inv_step_leave; [done|apply note_snap|apply note_gen|].
    intros g' [->%elem_of_singleton|?]%elem_of_union; [right|by left]. by exists x.
  - destruct (file_snap _ _ _ _ _ _ _ Hw) as [Es Eg].
    apply inv_step_leave; [done|by rewrite note_snap|by rewrite note_gen|].
    intros g' [->%elem_of_singleton|?]%elem_of_union; [right|by left]. by eapply (inv_filing w0).
  - by eapply inv_step_load.
Qed.

Lemma classInv_fresh d dir dk : classInv (freshWorld d dir dk).
Proof.
  constructor; cbn; try done; intros *; rewrite ?lookup_empty; done.
Qed.

Lemma classInv_run d dir dk w : rtc cstep (freshWorld d dir dk) w -> classInv w.
Proof. intros H. eapply (rtc_invariant cstep); [|apply classInv_fresh|exact H]. intros. by eapply classInv_step. Qed.

(** ** Nothing goes back *)

Lemma snapInForce_step w w' g : cstep w w' -> snapInForce w g -> snapInForce w' g.
Proof.
  intros Hst. destruct Hst as [w d|w g0 c Hg Ht|w g0 vs Hf Hl|w g0 vs now Hf|w g0 vs now r c Hf Hr Hp|w g0 vs now r c Hf Hr Hp
    |w g0 snap now iter out c d Hf Hw|w iter b c Hl]; intros H.
  - by eapply snapInForce_eq.
  - unfold takeTicket in Ht. injection Ht as <- <-. by eapply snapInForce_eq.
  - by eapply snapInForce_eq.
  - eapply snapInForce_eq; [|done]. apply note_snap.
  - apply publish_true in Hp as (Es & _ & Hlt). destruct H as (s & H1 & H2 & H3).
    exists (snapshotOf g0 now r). cbn. split; [done|]. split; [done|]. specialize (Hlt s H1 H2). cbn in Hlt. lia.
  - apply publish_false in Hp as [-> _]. eapply snapInForce_eq; [|done]. apply note_snap.
  - destruct (file_snap _ _ _ _ _ _ _ Hw) as [Es _]. eapply snapInForce_eq; [|done]. cbn. by rewrite note_snap.
  - apply load_snap in Hl as [_ [Es|(s & En & _)]]; [by eapply snapInForce_eq|].
    destruct H as (x & Hx & _). congruence.
Qed.

Lemma snapInForce_run w w' g : rtc cstep w w' -> snapInForce w g -> snapInForce w' g.
Proof. induction 1 as [|w w1 w' Hst _ IH]; [done|]. intros H. eapply IH, snapInForce_step; done. Qed.

Lemma started_step w w' g v : classInv w -> cstep w w' -> started w !! g = Some v -> started w' !! g = Some v.
Proof.
  intros I Hst. revert I. destruct Hst as [w0 d|w0 g0 c Hg Ht| | | | | | ]; intros I Hv; try exact Hv.
  cbn [started]. rewrite lookup_insert_ne; [done|]. intros ->. pose proof (inv_gen w0 I).
  unfold takeTicket in Ht. rewrite u64_id in Ht by lia. injection Ht as <- _. apply (inv_started w0 I) in Hv. lia.
Qed.

Lemma started_run w w' g v : classInv w -> rtc cstep w w' -> started w !! g = Some v -> started w' !! g = Some v.
Proof.
  intros I Hrun. revert I. induction Hrun as [|w w1 w' Hst _ IH]; [done|]. intros I Hv.
  apply IH; [by eapply classInv_step|by eapply started_step].
Qed.

(** C30: Under every interleaving of table writes, refreshes, failures, file writes
    and loads, once a snapshot of the store is in force only snapshots of the
    store with the same or a later ticket replace it, and the file never does.
    And once a refresh returned without error, whether it published or found a
    newer read published, every part of the snapshot in force was read from a
    version of the tables no older than the one current when that refresh took its
    ticket: a write that committed before the refresh it triggered is in force
    when that refresh returns, on every later request, and a slow read that
    started before the write cannot undo it. *)
Theorem snapshot_never_goes_back d dir dk w w' :
  rtc cstep (freshWorld d dir dk) w -> rtc cstep w w' ->
  (forall s, csSnap (cls w) = Some s -> Source s = AIClassSourceStore ->
     exists s', csSnap (cls w') = Some s' /\ Source s' = AIClassSourceStore /\ Gen s <= Gen s') /\
  (forall g v, started w !! g = Some v -> g ∈ finished w ->
     exists s, csSnap (cls w') = Some s /\ Source s = AIClassSourceStore /\ g <= Gen s /\ readSince w' s v).
Proof.
  intros H0 H1. assert (classInv w) as I by by eapply classInv_run.
  assert (classInv w') as I' by (eapply classInv_run; by etrans). split.
  - intros s Hs Hsrc. apply (snapInForce_run w w' (Gen s) H1). exists s. by split; [|split; [|lia]].
  - intros g v Hg Hf%(inv_finished w I). destruct (snapInForce_run w w' g H1 Hf) as (s & Hs & Hsrc & Hle).
    exists s. split; [done|]. split; [done|]. split; [done|].
    destruct (inv_source w' I' s Hs Hsrc) as (v' & Hv' & vs & r & Hvs & Hr). exists vs, r. split; [|done].
    assert (started w' !! g = Some v) as Hg'.
    { by eapply (started_run w). }
    eapply Forall_impl; [exact Hvs|]. pose proof (inv_mono w' I' _ _ _ _ Hg' Hv' Hle) as Hvv. cbn beta. intros u Hu. lia.
Qed.

(** One step of a concrete run. *)
Tactic Notation "runStep" uconstr(c) :=
  eapply rtc_l; [eapply c; first [vm_compute; reflexivity|cbn; lia]|cbn -[two64]].

(** A refresh starts and stalls after its statements; a write commits; the
    refresh the write triggered reads, publishes and finishes; the slow one then
    finds itself superseded. *)
Definition overtaken : Prop :=
  exists w w', rtc cstep (freshWorld emptyDb false NoFile) w /\ rtc cstep w w' /\
    started w !! 2 = Some 1%nat /\ 2 ∈ finished w /\ 1 ∈ finished w' /\
    exists s, csSnap (cls w') = Some s /\ Source s = AIClassSourceStore /\ 2 <= Gen s /\ readSince w' s 1.

Lemma snapshot_never_goes_back_witness : overtaken.
Proof.
  assert (exists w, rtc cstep (freshWorld emptyDb false NoFile) w /\
    started w !! 2 = Some 1%nat /\ 2 ∈ finished w /\
    exists w', rtc cstep w w' /\ 1 ∈ finished w') as (w & H1 & H2 & H3 & w' & H4 & H5).
  { eexists. split.
    - unfold freshWorld. runStep StepTicket. do 6 (runStep (StepStatement _ 1)).
      eapply rtc_l; [apply (StepWrite _ emptyDb)|cbn -[two64]].
      runStep StepTicket. do 6 (runStep (StepStatement _ 2)).
      runStep (StepPublish _ 2 _ 5). runStep (StepFile _ 2 _ 6 [] FileWritten). apply rtc_refl.
    - split; [vm_compute; reflexivity|]. split; [vm_compute; reflexivity|].
      eexists. split; [eapply rtc_l; [eapply (StepSuperseded _ 1 _ 7); vm_compute; reflexivity|apply rtc_refl]|].
      vm_compute; reflexivity. }
  exists w, w'. split; [exact H1|]. split; [exact H4|]. split; [exact H2|]. split; [exact H3|]. split; [exact H5|].
  destruct (snapshot_never_goes_back emptyDb false NoFile w w' H1 H4) as [_ H]. exact (H 2 1%nat H2 H3).
Defined.
