(* ===== verification/GoCache.v ===== *)
(** * GoCache: the expiring cache the key store keeps

    github.com/patrickmn/go-cache is third-party code, so it is an interface:
    the operations the key store calls and the behaviour its documentation
    promises.  The instance below, a finite map with expiry times, shows the
    laws are consistent and makes the clients executable. *)

From S2P Require Import Prelude.

Open Scope Z_scope.

(** Times and lifetimes are nanoseconds. *)
Class GoCache := {
  cacheT : Type -> Type;
  cacheNew : forall {V}, cacheT V;
  cacheGet : forall {V}, Z -> string -> cacheT V -> option V;
  cacheSet : forall {V}, Z -> Z -> string -> V -> cacheT V -> cacheT V;
  cacheDelete : forall {V}, string -> cacheT V -> cacheT V
}.

(** [cacheSet now ttl k v c]: the value is there until now + ttl, inclusive. *)
Class GoCacheLaws (C : GoCache) : Prop := {
  get_new : forall V t k, cacheGet (V := V) t k cacheNew = None;
  get_set : forall V t now ttl k (v : V) c,
    cacheGet t k (cacheSet now ttl k v c) = if t <=? now + ttl then Some v else None;
  get_set_ne : forall V t now ttl k k' (v : V) c, k <> k' ->
    cacheGet t k' (cacheSet now ttl k v c) = cacheGet t k' c;
  get_delete : forall V t k (c : cacheT V), cacheGet t k (cacheDelete k c) = None;
  get_delete_ne : forall V t k k' (c : cacheT V), k <> k' -> cacheGet t k' (cacheDelete k c) = cacheGet t k' c;
  get_expires : forall V t t' k (v : V) c, t <= t' -> cacheGet t' k c = Some v -> cacheGet t k c = Some v
}.

Definition mapCacheGet {V} (t : Z) (k : string) (c : gmap string (V * Z)) : option V :=
  match c !! k with
  | Some (v, exp) => if t <=? exp then Some v else None
  | None => None
  end.

#[export] Instance mapCache : GoCache := {|
  cacheT V := gmap string (V * Z);
  cacheNew V := ∅;
  cacheGet V := mapCacheGet;
  cacheSet V now ttl k v c := <[k := (v, now + ttl)]> c;
  cacheDelete V k c := delete k c
|}.

#[export] Instance mapCache_laws : GoCacheLaws mapCache.
Proof.
  split; intros; cbn in *; unfold mapCacheGet in *.
  - by rewrite lookup_empty.
  - by rewrite lookup_insert_eq.
  - by rewrite lookup_insert_ne.
  - by rewrite lookup_delete_eq.
  - by rewrite lookup_delete_ne.
  - destruct (_ !! _) as [[w e]|]; [|done]. destruct (Z.leb_spec t' e); [|done].
    destruct (Z.leb_spec t e); [done|lia].
Qed.
