(* ===== verification/KeyStore.v ===== *)
(** * KeyStore: the data-plane API-key service

    Models pkg/aikey: service.go, qos_ladder.go, key_patch.go, tx.go,
    invalidate.go and the store-backed operations of classes.go and
    class_patch.go.  An operation is a function on a node: the service (its
    expiring cache, last-known values, guard, negative cache, class state and
    the invalidations it handed to the peers), the tables of the store, and
    what the store and the clock do next.  Each statement consumes one outcome
    of the script: it is answered, or it breaks with an error the driver chose
    and the server applied it or not.  Validation comes before the store handle
    and the store handle before any statement, as in the source.

    The hash of a raw key (SHA-256, hex) and the random draws of a create are
    arguments.  Log lines, metrics and the operation budget's clock are not
    modelled; the reads' budget is the environment of the lookup guard. *)

From S2P Require Import Prelude StoreErr LookupGuard Objective RateLimit RateSync Common Admission Gateway Identity Classes Tables ClassStore GoCache.

Open Scope Z_scope.
Open Scope igw_scope.

(** ** Cached values *)

Record userRateLimitCacheEntry := UserEntryC { ucRPS : Z; ucBurst : Z; ucTPM : Z }.
Definition noUserLimit : userRateLimitCacheEntry := UserEntryC 0 0 0.

(** What a cache slot holds: the dynamic type the reader asserts. *)
Inductive cacheVal :=
| CvEntry (e : ApiKeyEntry)
| CvSummary (k : ApiKeySummary)
| CvLimit (e : rateLimitCacheEntry)
| CvUser (e : userRateLimitCacheEntry)
| CvDefaults (e : defaultsCacheEntry).

Definition asEntry (v : cacheVal) : option ApiKeyEntry := match v with CvEntry e => Some e | _ => None end.
Definition asSummary (v : cacheVal) : option ApiKeySummary := match v with CvSummary k => Some k | _ => None end.
Definition asLimit (v : cacheVal) : option rateLimitCacheEntry := match v with CvLimit e => Some e | _ => None end.
Definition asUser (v : cacheVal) : option userRateLimitCacheEntry := match v with CvUser e => Some e | _ => None end.
Definition asDefaults (v : cacheVal) : option defaultsCacheEntry := match v with CvDefaults e => Some e | _ => None end.

Record KeyInvalidation := Invalidation { ivKeyHash : string; ivKeyID : string }.

(** CacheExpirationTime, in nanoseconds. *)
Definition cacheTTL : Z := 5 * 60 * 1000000000.

Definition apiKeyPrefix : string := "lxb_".
Definition minSuppliedKeyLen : nat := 16.
Definition maxSuppliedKeyLen : nat := 512.
Definition maxClientOpIDLen : nat := 128.

(** ** Errors an operation answers with *)

Inductive opErr :=
| EValidation (field : string)
| EStore (e : goErr)
| EKeyNotFound
| EKeyAlreadyDelivered (keyID : string)
| EConflict
| EObjectiveNotFound
| EUserRateLimitNotFound
| ERateLimitDefaultsNotFound
| ETenantRateLimitNotFound.

(** ** Pure validation *)

Definition printableByte (c : Ascii.ascii) : bool :=
  (33 <=? Ascii.N_of_ascii c)%N && (Ascii.N_of_ascii c <=? 126)%N.

Definition validateSuppliedKey (raw : string) : bool :=
  negb ((String.length raw <? minSuppliedKeyLen)%nat || (maxSuppliedKeyLen <? String.length raw)%nat)
  && allBytes printableByte raw.

Definition validateClientOpID (i : string) : bool :=
  negb (maxClientOpIDLen <? String.length i)%nat && allBytes printableByte i.

(** strings.Split of the allowed_models column. *)
Definition splitModels (s : string) : list string := if s ==s "" then [] else SplitByte comma s.

Definition summaryOfEntry (e : ApiKeyEntry) : ApiKeySummary :=
  KeySummary (eKeyID e) (eTenantID e) (eName e) (eAllowedModels e) (eRateLimitRPS e) (eBurstSize e) (eTokensPerMin e)
    (eCreatedAt e) (eExpiresAt e) (eEnabled e) "" noPolicy.

(** What the by-hash and by-id reads scan of a row. *)
Definition scanEntry (p : string * keyRow) : ApiKeyEntry :=
  let '(id, r) := p in
  KeyEntry id (key_hash r) "" (krTenant r) (krName r) (splitModels (krModels r)) (krRPS r) (krBurst r) (krTPM r)
    (krCreatedAt r) (krExpiresAt r) (krEnabled r) (default "" (krClientOp r)) noPolicy.

Definition scanSummary (id : string) (r : keyRow) : ApiKeySummary :=
  KeySummary id (krTenant r) (krName r) (splitModels (krModels r)) (krRPS r) (krBurst r) (krTPM r)
    (krCreatedAt r) (krExpiresAt r) (krEnabled r) (default "" (krClientOp r)) noPolicy.

(** ** The store's behaviour *)

(** One statement: answered, or broken with the driver's error, applied by the
    server or not. *)
Inductive outcome := Answered | Broken (e : goErr) (applied : bool).

(** What one guarded read meets beside the statement's own outcome. *)
Record readWorld := ReadWorld { rwSlot : bool; rwDone : bool; rwTook : Z }.

(** A statement's failure: the error, and the unique index it names. *)
Record stmtErr := StmtErr { seErr : goErr; seUnique : option string }.

(** SQLSTATE 23505: the server answered. *)
Definition uniqueErr : goErr :=
  GoErr false false false true false false false false false false false false false false.

Section KeyStore.
Context {GC : GoCache} (cfg : lookupGuardConfig) (hashKey : string -> string).

Record Service := Svc {
  sConnected : bool;
  sSink : bool;
  sFanOut : list KeyInvalidation;
  Cache : cacheT cacheVal;
  rlLastKnown : gmap string cacheVal;
  sGuard : lookupGuard;
  sNegative : negativeKeyCache;
  sClass : classState
}.

(** New returns a service with no store attached. *)
Definition newService (dir : bool) : Service :=
  Svc false false [] cacheNew ∅ zeroGuard emptyNeg (zeroClassState dir).

(** [nPending]: first uses to be recorded off the worker; [nFile]: what the next
    writes of the last-known-good file do. *)
Record node := Node {
  nSvc : Service;
  nDb : Db;
  nScript : list outcome;
  nReads : list readWorld;
  nNow : Z;
  nDisk : lkgDisk;
  nFile : fileOutcome;
  nPending : list string
}.

Definition setSvc (s : Service) (n : node) : node :=
  Node s (nDb n) (nScript n) (nReads n) (nNow n) (nDisk n) (nFile n) (nPending n).
Definition setDb (d : Db) (n : node) : node :=
  Node (nSvc n) d (nScript n) (nReads n) (nNow n) (nDisk n) (nFile n) (nPending n).

(** *** Operations on a node *)

Definition Op (A : Type) : Type := node -> A * node.

Definition retO {A} (a : A) : Op A := fun n => (a, n).
Definition bindO {A B} (m : Op A) (f : A -> Op B) : Op B := fun n => let '(a, n) := m n in f a n.

(** Run the rest on success, return the error otherwise. *)
Definition tryO {A B} (m : Op (A + opErr)) (f : A -> Op (B + opErr)) : Op (B + opErr) :=
  fun n => match m n with
           | (inl a, n) => f a n
           | (inr e, n) => (inr e, n)
           end.

Notation "'let^' x := m 'in' k" := (bindO m (fun x => k)) (at level 10, x pattern, k at level 200).
Notation "'let?' x := m 'in' k" := (tryO m (fun x => k)) (at level 10, x pattern, k at level 200).

Definition modSvc (f : Service -> Service) : Op unit := fun n => (tt, setSvc (f (nSvc n)) n).
Definition failO {A} (e : opErr) : Op (A + opErr) := retO (inr e).
Definition okO {A} (a : A) : Op (A + opErr) := retO (inl a).
Definition nowO : Op Z := fun n => (nNow n, n).

(** [if bad then return err]. *)
Definition guardO (good : bool) (e : opErr) : Op (unit + opErr) := retO (if good then inl tt else inr e).

(** *** Statements *)

Definition nextOutcome : Op outcome := fun n =>
  match nScript n with
  | [] => (Answered, n)
  | o :: l => (o, Node (nSvc n) (nDb n) l (nReads n) (nNow n) (nDisk n) (nFile n) (nPending n))
  end.

Definition execDb (f : Db -> execResult) : Op (Z + stmtErr) :=
  let^ o := nextOutcome in
  fun n =>
    match o with
    | Answered => match f (nDb n) with
                  | inl (d, c) => (inl c, setDb d n)
                  | inr ix => (inr (StmtErr uniqueErr (Some ix)), n)
                  end
    | Broken e applied =>
        (inr (StmtErr e None),
         if applied then match f (nDb n) with inl (d, _) => setDb d n | inr _ => n end else n)
    end.

Definition queryDb {A} (f : Db -> A) : Op (A + goErr) :=
  let^ o := nextOutcome in
  fun n => match o with
           | Answered => (inl (f (nDb n)), n)
           | Broken e _ => (inr e, n)
           end.

(** QueryRowContext(...).Scan: no row is sql.ErrNoRows. *)
Definition queryRow {A} (f : Db -> option A) : Op (A + goErr) :=
  let^ r := queryDb f in
  retO (match r with
        | inl (Some a) => inl a
        | inl None => inr errNoRows
        | inr e => inr e
        end).

(** A write whose failure the caller is told about, classified. *)
Definition writeDb (f : Db -> execResult) : Op (Z + opErr) :=
  let^ r := execDb f in
  retO (match r with inl c => inl c | inr e => inr (EStore (writeErr (seErr e))) end).

(** [s.store()]: the pool, or errStoreUnavailable. *)
Definition store : Op (unit + opErr) := fun n =>
  (if sConnected (nSvc n) then inl tt else inr (EStore errStoreUnavailable), n).

(** One transaction: BEGIN, the body, COMMIT; anything else rolls back. *)
Definition inTx {A} (body : Op (A + opErr)) : Op (A + opErr) := fun n =>
  match nextOutcome n with
  | (Broken e _, n) => (inr (EStore (writeErr e)), n)
  | (Answered, n) =>
      match body n with
      | (inr e, n') => (inr e, setDb (nDb n) n')
      | (inl a, n') =>
          match nextOutcome n' with
          | (Answered, n') => (inl a, n')
          | (Broken e applied, n') =>
              (inr (EStore (writeErr e)), if applied then n' else setDb (nDb n) n')
          end
      end
  end.

(** *** The guarded data-path read *)

Definition nextRead : Op readWorld := fun n =>
  match nReads n with
  | [] => (ReadWorld true false 0, n)
  | r :: l => (r, Node (nSvc n) (nDb n) (nScript n) l (nNow n) (nDisk n) (nFile n) (nPending n))
  end.

Definition setGuard (g : lookupGuard) (s : Service) : Service :=
  Svc (sConnected s) (sSink s) (sFanOut s) (Cache s) (rlLastKnown s) g (sNegative s) (sClass s).

(** The statement runs only when the read is admitted: a refused read consumes
    no outcome of the store. *)
Definition guardedRead {A} (f : Db -> option A) : Op (A + goErr) :=
  let^ rw := nextRead in
  fun n =>
    let s := nSvc n in
    let env := ReadEnv (sConnected s) (nNow n) (nNow n + rwTook rw) (rwSlot rw) (rwDone rw) in
    let admitted := sConnected s && match admitLookup cfg (startNs env) (gotSlot env) (sGuard s) with
                                    | (inl _, _) => true | (inr _, _) => false end in
    let '(r, n) := if admitted then queryRow f n else (inr errStoreUnavailable, n) in
    let '(err, g) := dataPathRead cfg env (match r with inl _ => None | inr e => Some e end) (sGuard s) in
    let n := setSvc (setGuard g (nSvc n)) n in
    (match err, r with
     | None, inl a => inl a
     | Some e, _ => inr e
     | None, inr e => inr e
     end, n).

(** *** Cached values *)

Definition setCache (f : cacheT cacheVal -> cacheT cacheVal) (s : Service) : Service :=
  Svc (sConnected s) (sSink s) (sFanOut s) (f (Cache s)) (rlLastKnown s) (sGuard s) (sNegative s) (sClass s).
Definition setLastKnown (f : gmap string cacheVal -> gmap string cacheVal) (s : Service) : Service :=
  Svc (sConnected s) (sSink s) (sFanOut s) (Cache s) (f (rlLastKnown s)) (sGuard s) (sNegative s) (sClass s).
Definition setNegative (g : negativeKeyCache) (s : Service) : Service :=
  Svc (sConnected s) (sSink s) (sFanOut s) (Cache s) (rlLastKnown s) (sGuard s) g (sClass s).
Definition setClass (c : classState) (s : Service) : Service :=
  Svc (sConnected s) (sSink s) (sFanOut s) (Cache s) (rlLastKnown s) (sGuard s) (sNegative s) c.

Definition cacheSetO (k : string) (v : cacheVal) : Op unit := fun n =>
  (tt, setSvc (setCache (cacheSet (nNow n) cacheTTL k v) (nSvc n)) n).
Definition cacheDeleteO (k : string) : Op unit := modSvc (setCache (cacheDelete k)).

(** rememberRateLimit, rememberUserRateLimit, rememberDefaults and
    rememberKeySummary: one writer path for both layers. *)
Definition remember (k : string) (v : cacheVal) : Op unit :=
  let^ _ := cacheSetO k v in modSvc (setLastKnown (<[k := v]>)).

Definition rememberRateLimit (k : string) (e : rateLimitCacheEntry) : Op unit := remember k (CvLimit e).
Definition rememberUserRateLimit (k : string) (e : userRateLimitCacheEntry) : Op unit := remember k (CvUser e).
Definition rememberDefaults (k : string) (e : defaultsCacheEntry) : Op unit := remember k (CvDefaults e).
Definition rememberKeySummary (keyID : string) (k : ApiKeySummary) : Op unit :=
  remember (cacheKeyForID keyID) (CvSummary k).

Definition lastKnownRateLimit (s : Service) (k : string) : option rateLimitCacheEntry :=
  match rlLastKnown s !! k ≫= asLimit with
  | Some e => Some e
  | None => lkgRateLimit (csLkgLimits (sClass s)) k
  end.
Definition lastKnownUserRateLimit (s : Service) (k : string) : option userRateLimitCacheEntry :=
  rlLastKnown s !! k ≫= asUser.
Definition lastKnownDefaults (s : Service) (k : string) : option defaultsCacheEntry :=
  match rlLastKnown s !! k ≫= asDefaults with
  | Some e => Some e
  | None => lkgDefaultsEntry (csLkgLimits (sClass s)) k
  end.
Definition lastKnownKeySummary (s : Service) (keyID : string) : option ApiKeySummary :=
  rlLastKnown s !! cacheKeyForID keyID ≫= asSummary.
Definition forgetKeySummary (keyID : string) : Op unit := modSvc (setLastKnown (delete (cacheKeyForID keyID))).

(** The cached value of the asserted type, if any. *)
Definition cachedO {A} (as_ : cacheVal -> option A) (k : string) : Op (option A) := fun n =>
  (cacheGet (nNow n) k (Cache (nSvc n)) ≫= as_, n).

Definition lastO {A} (f : Service -> option A) : Op (option A) := fun n => (f (nSvc n), n).

(** *** Invalidation (invalidate.go) *)

Definition evict (inv : KeyInvalidation) (s : Service) : Service :=
  let s := if ivKeyHash inv ==s "" then s
           else setNegative (forgetNegative (ivKeyHash inv) (sNegative s))
                  (setCache (cacheDelete (cacheKeyForHash (ivKeyHash inv))) s) in
  if ivKeyID inv ==s "" then s
  else setLastKnown (delete (cacheKeyForID (ivKeyID inv)))
         (setCache (cacheDelete (cacheKeyForID (ivKeyID inv))) s).

Definition evictAndFanOut (inv : KeyInvalidation) : Op unit := modSvc (fun s =>
  let s := evict inv s in
  if sSink s then Svc (sConnected s) (sSink s) (inv :: sFanOut s) (Cache s) (rlLastKnown s) (sGuard s) (sNegative s) (sClass s)
  else s).

Definition ApplyInvalidation (inv : KeyInvalidation) : Op unit := modSvc (evict inv).

Definition SetInvalidationSink (on : bool) : Op unit := modSvc (fun s =>
  Svc (sConnected s) on (sFanOut s) (Cache s) (rlLastKnown s) (sGuard s) (sNegative s) (sClass s)).

(** Attach, once the preflight and the DDL ran ([ok]): the pool is adopted. *)
Definition Attach (ok : bool) : Op bool := fun n =>
  if ok then
    let s := nSvc n in
    (true, setSvc (Svc true (sSink s) (sFanOut s) (Cache s) (rlLastKnown s) (sGuard s) (sNegative s) (sClass s)) n)
  else (false, n).

(** *** Class refresh after a write *)

Definition readStep {A B} (q : Op (A + goErr)) (k : A -> Op (B + goErr)) : Op (B + goErr) := fun n =>
  match q n with
  | (inl a, n) => k a n
  | (inr e, n) => (inr (readErr e), n)
  end.

(** The four reads of refreshClasses, six statements. *)
Definition readClasses : Op (classRead + goErr) := fun n =>
  if negb (sConnected (nSvc n)) then (inr errStoreUnavailable, n)
  else
    readStep (queryDb sqlSelectObjectives) (fun objs =>
    readStep (queryDb sqlSelectTenantClasses) (fun tenants =>
    readStep (queryDb sqlSelectKeyClasses) (fun keys =>
    readStep (queryDb sqlSelectAllTenantLimits) (fun ts =>
    readStep (queryDb sqlSelectAllTenantModelLimits) (fun ms =>
    readStep (queryDb sqlSelectAllRateLimitDefaults) (fun ds =>
      retO (inl (ClassRead (readObjectives objs) (readClassRows tenants) (readClassRows keys)
                   (readLimitRows ts ms ds))))))))) n.

(** RefreshClasses on the node; its error is only logged by the writers. *)
Definition refreshClassesAfterWrite : Op unit := fun n =>
  let '(r, n) := readClasses n in
  let iter := match r with inl cr => (map_to_list (crObjectives cr)).*2 | inr _ => [] end in
  let '(_, (c, d)) := RefreshClasses (nNow n) iter (nFile n) r (sClass (nSvc n)) (nDisk n) in
  (tt, Node (setClass c (nSvc n)) (nDb n) (nScript n) (nReads n) (nNow n) d (nFile n) (nPending n)).

(** *** Keys *)

Definition keyHashByID (keyID : string) : Op (string + opErr) :=
  let^ r := queryRow (sqlSelectKeyHashByID keyID) in
  retO (match r with
        | inl h => inl h
        | inr e => if isNoRows e then inr EKeyNotFound else inr (EStore (readErr e))
        end).

(** What the insert's failure means to the caller. *)
Definition insertErr (supplied : bool) (e : stmtErr) : opErr :=
  match seUnique e with
  | Some ix =>
      if supplied && (ix ==s uqKeyHash) then EConflict
      else if ix ==s uqClientOp then EConflict
      else EStore (writeErr (seErr e))
  | None => EStore (writeErr (seErr e))
  end.

(** The row a create inserts, with no class yet. *)
Definition newKeyRow (e : ApiKeyEntry) (hash : string) (now : Z) : keyRow :=
  KeyRow hash (eTenantID e) (eName e) (joinList (eAllowedModels e)) (eRateLimitRPS e) (eBurstSize e) (eTokensPerMin e)
    now (eExpiresAt e) (eEnabled e) (if eClientOpID e ==s "" then None else Some (eClientOpID e)) None noCols.

Definition insertKey (entry : ApiKeyEntry) (class : AIClassPolicy) (keyID keyHash returned : string) (now : Z)
  : Op (ApiKeyCreated * option string + opErr) :=
  let^ r := execDb (sqlInsertAPIKey keyID (newKeyRow entry keyHash now)) in
  match r with
  | inr e => failO (insertErr (negb (eApiKey entry ==s "")) e)
  | inl _ =>
      if policyIsZero class then okO (KeyCreated returned keyID false, None)
      else
        let? _ := writeDb (sqlUpdateKeyClass keyID (storeClass class)) in
        okO (KeyCreated returned keyID false, None)
  end.

(** The transaction's body: the answer, and the hash a retry replaced. *)
Definition createBody (entry : ApiKeyEntry) (class : AIClassPolicy) (keyID keyHash returned : string) (now : Z)
  : Op (ApiKeyCreated * option string + opErr) :=
  if eClientOpID entry ==s "" then insertKey entry class keyID keyHash returned now
  else
    let^ r := queryRow (sqlSelectAPIKeyByClientOp (eTenantID entry) (eClientOpID entry)) in
    match r with
    | inl (existingID, row) =>
        match krFirstUsed row with
        | Some _ => failO (EKeyAlreadyDelivered existingID)
        | None =>
            let? _ := writeDb (sqlRotateAPIKeyHash keyHash now existingID) in
            okO (KeyCreated returned existingID true, Some (key_hash row))
        end
    | inr e =>
        if isNoRows e then insertKey entry class keyID keyHash returned now
        else failO (EStore (readErr e))
    end.

(** [keyID] and [secret] are the two random draws, in hex. *)
Definition CreateKey (entry : ApiKeyEntry) (keyID secret : string) : Op (ApiKeyCreated + opErr) :=
  let? _ := guardO (ValidateQoSIdentity (eTenantID entry)) (EValidation "tenant_id") in
  match ValidateClassPolicy (eClass entry) with
  | inr (ValidationError f) => failO (EValidation f)
  | inl class =>
      let? _ := guardO ((eClientOpID entry ==s "") || validateClientOpID (eClientOpID entry)) (EValidation "client_op_id") in
      let? _ := guardO ((eApiKey entry ==s "") || validateSuppliedKey (eApiKey entry)) (EValidation "api_key") in
      let? _ := store in
      let supplied := negb (eApiKey entry ==s "") in
      let rawKey := if supplied then eApiKey entry else apiKeyPrefix +:+ secret in
      let returned := if supplied then "" else rawKey in
      let keyHash := hashKey rawKey in
      let^ _ := modSvc (fun s => setNegative (forgetNegative keyHash (sNegative s)) s) in
      let^ now := nowO in
      let? out := inTx (createBody entry class keyID keyHash returned now) in
      let '(created, rotated) := out in
      let^ _ := match rotated with
                | Some old => if (old ==s "") || (old ==s keyHash) then retO tt
                              else evictAndFanOut (Invalidation old (cKeyID created))
                | None => retO tt
                end in
      let^ _ := if negb (Reused created) && negb (policyIsZero class) then refreshClassesAfterWrite else retO tt in
      okO created
  end.

(** What CreateAPIKey returns beside the error: the raw key and the id. *)
Definition CreateAPIKey (entry : ApiKeyEntry) (keyID secret : string) : Op (string * string + opErr) :=
  let? created := CreateKey entry keyID secret in okO (RawKey created, cKeyID created).

(** *** Validation *)

(** Layer 1 and 1b: the caches.  [inl None] means the store must be asked. *)
Definition validateCached (keyHash : string) : Op (option ApiKeyEntry + validateErr) :=
  let^ c := cachedO asEntry (cacheKeyForHash keyHash) in
  match c with
  | Some e => retO (inl (Some e))
  | None => fun n =>
      let '(hit, neg) := negativeHit cfg (nNow n) keyHash (sNegative (nSvc n)) in
      (if hit then inr ErrInvalidKey else inl None, setSvc (setNegative neg (nSvc n)) n)
  end.

(** What the store answered is written to the caches. *)
Definition validateFill (keyHash : string) (row : string * keyRow) : Op ApiKeyEntry :=
  let entry := scanEntry row in
  let^ _ := cacheSetO (cacheKeyForHash keyHash) (CvEntry entry) in
  let^ _ := rememberKeySummary (eKeyID entry) (summaryOfEntry entry) in
  let^ _ := match krClientOp row.2, krFirstUsed row.2 with
            | Some _, None => fun n => (tt, Node (nSvc n) (nDb n) (nScript n) (nReads n) (nNow n) (nDisk n) (nFile n)
                                              (eKeyID entry :: nPending n))
            | _, _ => retO tt
            end in
  retO entry.

Definition svcValidateAPIKey (rawKey : string) : Op (ApiKeyEntry + validateErr) :=
  let keyHash := hashKey rawKey in
  let^ c := validateCached keyHash in
  match c with
  | inl (Some e) => retO (inl e)
  | inr e => retO (inr e)
  | inl None =>
      let^ r := guardedRead (sqlSelectAPIKeyByHash keyHash) in
      match r with
      | inl row => let^ e := validateFill keyHash row in retO (inl e)
      | inr e =>
          if isNoRows e then
            let^ _ := (fun n => (tt, setSvc (setNegative (rememberNegative cfg (nNow n) keyHash (sNegative (nSvc n))) (nSvc n)) n)) in
            retO (inr ErrInvalidKey)
          else if isDBUnavailable e then retO (inr (ErrStore e))
          else retO (inr (ErrStore (readErr e)))
      end
  end.

(** The goroutine of markFirstUse, when it runs. *)
Definition markFirstUse (keyID : string) : Op unit := fun n =>
  if sConnected (nSvc n) then let '(_, n) := execDb (sqlMarkAPIKeyFirstUse (nNow n) keyID) n in (tt, n)
  else (tt, n).

Definition RevokeAPIKey (keyID : string) : Op (unit + opErr) :=
  let? _ := store in
  let? h := keyHashByID keyID in
  let? _ := writeDb (sqlUpdateAPIKeyEnabled false keyID) in
  let^ _ := evictAndFanOut (Invalidation h keyID) in
  okO tt.

Definition DeleteAPIKey (keyID : string) : Op (unit + opErr) :=
  let? _ := store in
  let? h := keyHashByID keyID in
  let? _ := writeDb (sqlDeleteAPIKeyByID keyID) in
  let^ _ := evictAndFanOut (Invalidation h keyID) in
  okO tt.

(** One optional statement of a patch. *)
Definition patchStep {A} (o : option A) (stmt : A -> Db -> execResult) : Op (unit + opErr) :=
  match o with
  | None => okO tt
  | Some a => let? _ := writeDb (stmt a) in okO tt
  end.

Definition patchBody (keyID : string) (patch : ApiKeyPatch) (args : patchArgs) : Op (string + opErr) :=
  let? h := keyHashByID keyID in
  let? _ := patchStep (pAllowedModels patch) (fun l => sqlUpdateAPIKeyAllowedModels (joinList l) keyID) in
  let? _ := patchStep (pEnabled patch) (fun b => sqlUpdateAPIKeyEnabled b keyID) in
  let? _ := patchStep (pRateLimitRPS patch) (fun v => sqlUpdateAPIKeyRPS v keyID) in
  let? _ := patchStep (pBurstSize patch) (fun v => sqlUpdateAPIKeyBurst v keyID) in
  let? _ := patchStep (pTokensPerMin patch) (fun v => sqlUpdateAPIKeyTPM v keyID) in
  let? _ := patchStep (if classPatchIsZero (pClass patch) then None else Some tt) (fun _ => sqlPatchKeyClass keyID args) in
  okO h.

Definition negativeField (o : option Z) : bool := match o with Some v => v <? 0 | None => false end.

Definition PatchAPIKeyAll (keyID : string) (patch : ApiKeyPatch) : Op (unit + opErr) :=
  if patchIsZero patch then okO tt
  else
    let? _ := guardO (negb (negativeField (pRateLimitRPS patch) || negativeField (pBurstSize patch)
                            || negativeField (pTokensPerMin patch))) (EValidation "") in
    match classPatchArgs (pClass patch) with
    | inr (ValidationError f) => failO (EValidation f)
    | inl args =>
        let? _ := store in
        let? h := inTx (patchBody keyID patch args) in
        let^ _ := evictAndFanOut (Invalidation h keyID) in
        let^ _ := if classPatchIsZero (pClass patch) then retO tt else refreshClassesAfterWrite in
        okO tt
    end.

(** PatchAPIKey, PatchAPIKeyRateLimits and PatchAPIKeyClass are arms of it. *)
Definition PatchAPIKey (keyID : string) (models : option (list string)) (en : option bool) : Op (unit + opErr) :=
  PatchAPIKeyAll keyID (KeyPatch models en None None None noPatch).
Definition PatchAPIKeyRateLimits (keyID : string) (rps burst tpm : option Z) : Op (unit + opErr) :=
  match rps, burst, tpm with
  | None, None, None => okO tt
  | _, _, _ => PatchAPIKeyAll keyID (KeyPatch None None rps burst tpm noPatch)
  end.
Definition PatchAPIKeyClass (keyID : string) (p : AIClassPatch) : Op (unit + opErr) :=
  if classPatchIsZero p then okO tt else PatchAPIKeyAll keyID (KeyPatch None None None None None p).

Definition svcGetAPIKeyByID (keyID : string) : Op (ApiKeySummary + opErr) :=
  let^ c := cachedO asSummary (cacheKeyForID keyID) in
  match c with
  | Some k => okO k
  | None =>
      let^ r := guardedRead (sqlSelectAPIKeyByID keyID) in
      match r with
      | inl row => let^ _ := rememberKeySummary keyID (scanSummary keyID row) in okO (scanSummary keyID row)
      | inr e =>
          if isNoRows e then let^ _ := forgetKeySummary keyID in failO EKeyNotFound
          else
            let^ l := lastO (fun s => lastKnownKeySummary s keyID) in
            match l with
            | Some k => okO k
            | None => if isDBUnavailable e then failO (EStore e) else failO (EStore (readErr e))
            end
      end
  end.

(** Store-direct listings of the configuration surface. *)
Definition listO {A} (f : Db -> A) : Op (A + opErr) :=
  let? _ := store in
  let^ r := queryDb f in
  retO (match r with inl a => inl a | inr e => inr (EStore (readErr e)) end).

Definition ListAPIKeys (tenantID : string) : Op (list ApiKeySummary + opErr) :=
  listO (fun d => (fun p => scanSummary p.1 p.2) <$>
                  (if tenantID ==s "" then sqlSelectAllAPIKeys d else sqlSelectAPIKeysByTenant tenantID d)).

Definition KnownTenantCount : Op (Z + opErr) := listO sqlCountKnownTenants.

(** *** Tenant limits *)

Definition limitOfRow (r : option (Z * Z * Z)) : rateLimitCacheEntry :=
  match r with Some (rps, tpm, b) => RLEntry rps tpm b | None => noLimit end.

Definition SetTenantRateLimit (tenantID : string) (rps tpm burstPct : Z) : Op (unit + opErr) :=
  let? _ := guardO (ValidateQoSIdentity tenantID) (EValidation "tenant_id") in
  let? _ := guardO (negb (tenantID ==s "")) (EValidation "tenant_id") in
  let? _ := store in
  let^ now := nowO in
  let? _ := writeDb (sqlUpsertTenantRateLimit tenantID rps tpm burstPct now) in
  let^ _ := rememberRateLimit (cacheKeyForTenant tenantID) (RLEntry rps tpm burstPct) in
  let^ _ := refreshClassesAfterWrite in
  okO tt.

(** The outage fallback of a limit read: the last confirmed value, or fail. *)
Definition orLastKnown {A B} (f : Service -> option A) (k : A -> B) : Op (B + opErr) :=
  let^ l := lastO f in
  match l with
  | Some a => okO (k a)
  | None => failO (EStore errStoreUnavailable)
  end.

Definition svcGetTenantRateLimit (tenantID : string) : Op (Z * Z * Z + opErr) :=
  let key := cacheKeyForTenant tenantID in
  let triple := fun e => (rlRPS e, rlTPM e, rlBurstPct e) in
  let^ c := cachedO asLimit key in
  match c with
  | Some e => okO (triple e)
  | None =>
      let^ r := guardedRead (sqlSelectTenantRateLimit tenantID) in
      match r with
      | inl (rps, tpm, b) => let^ _ := rememberRateLimit key (RLEntry rps tpm b) in okO (rps, tpm, b)
      | inr e =>
          if isNoRows e then let^ _ := rememberRateLimit key noLimit in okO (0, 0, 0)
          else orLastKnown (fun s => lastKnownRateLimit s key) triple
      end
  end.

Definition SetTenantModelRateLimit (tenantID model : string) (tpm : Z) : Op (unit + opErr) :=
  let? _ := guardO (ValidateQoSIdentity tenantID) (EValidation "tenant_id") in
  let? _ := guardO (ValidateQoSIdentity model) (EValidation "model") in
  let? _ := guardO (negb (model ==s "")) (EValidation "model") in
  let? _ := store in
  let key := cacheKeyForModel tenantID model in
  if tpm <=? 0 then
    let? _ := writeDb (sqlDeleteTenantModelRateLimit tenantID model) in
    let^ _ := rememberRateLimit key noLimit in
    let^ _ := cacheDeleteO key in
    let^ _ := refreshClassesAfterWrite in
    okO tt
  else
    let? _ := writeDb (sqlUpsertTenantModelRateLimit tenantID model tpm) in
    let^ _ := rememberRateLimit key (RLEntry 0 tpm 0) in
    let^ _ := refreshClassesAfterWrite in
    okO tt.

Definition svcGetTenantModelRateLimit (tenantID model : string) : Op (Z + opErr) :=
  if model ==s "" then okO 0
  else
    let key := cacheKeyForModel tenantID model in
    let^ c := cachedO asLimit key in
    match c with
    | Some e => okO (rlTPM e)
    | None =>
        let^ r := guardedRead (sqlSelectTenantModelRateLimit tenantID model) in
        match r with
        | inl t => let^ _ := rememberRateLimit key (RLEntry 0 t 0) in okO t
        | inr e =>
            if negb (isNoRows e) then orLastKnown (fun s => lastKnownRateLimit s key) rlTPM
            else let^ _ := rememberRateLimit key (RLEntry 0 0 0) in okO 0
        end
    end.

(** The model rows of SetTenantLimits: statements, then cached values. *)
Fixpoint tenantModelStmts (tenantID : string) (ml : list ModelRateLimit) : Op (unit + opErr) :=
  match ml with
  | [] => okO tt
  | m :: ml =>
      let? _ := writeDb (if mTokensPerMin m <=? 0 then sqlDeleteTenantModelRateLimit tenantID (mModel m)
                         else sqlUpsertTenantModelRateLimit tenantID (mModel m) (mTokensPerMin m)) in
      tenantModelStmts tenantID ml
  end.

Fixpoint tenantModelCaches (tenantID : string) (ml : list ModelRateLimit) : Op unit :=
  match ml with
  | [] => retO tt
  | m :: ml =>
      let key := cacheKeyForModel tenantID (mModel m) in
      let^ _ := if mTokensPerMin m <=? 0
                then let^ _ := rememberRateLimit key noLimit in cacheDeleteO key
                else rememberRateLimit key (RLEntry 0 (mTokensPerMin m) 0) in
      tenantModelCaches tenantID ml
  end.

Definition SetTenantLimits (tenantID : string) (rps tpm burstPct : Z) (ml : list ModelRateLimit) : Op (unit + opErr) :=
  let? _ := guardO (ValidateQoSIdentity tenantID) (EValidation "tenant_id") in
  let? _ := guardO (negb (tenantID ==s "")) (EValidation "tenant_id") in
  let? _ := guardO (forallb (fun m => ValidateQoSIdentity (mModel m) && negb (mModel m ==s "")) ml) (EValidation "model") in
  let? _ := store in
  let^ now := nowO in
  let? _ := inTx (let? _ := writeDb (sqlUpsertTenantRateLimit tenantID rps tpm burstPct now) in
                  tenantModelStmts tenantID ml) in
  let^ _ := rememberRateLimit (cacheKeyForTenant tenantID) (RLEntry rps tpm burstPct) in
  let^ _ := tenantModelCaches tenantID ml in
  let^ _ := refreshClassesAfterWrite in
  okO tt.

Definition GetTenantModelRateLimits (tenantID : string) : Op (list ModelRateLimit + opErr) :=
  listO (sqlSelectTenantModelRateLimits tenantID).

(** The tenant's row and its model rows; only a tenant with neither is not found. *)
Definition GetTenantRateLimitEntry (tenantID : string) : Op (TenantRateLimitEntry + opErr) :=
  let? _ := store in
  let^ r := queryRow (sqlSelectTenantRateLimitFull tenantID) in
  let rest := fun (noTenantRow : bool) (mk : list ModelRateLimit -> TenantRateLimitEntry) =>
    let? ml := GetTenantModelRateLimits tenantID in
    if noTenantRow && (length ml =? 0)%nat then failO ETenantRateLimitNotFound else okO (mk ml) in
  match r with
  | inl (rps, tpm, b, at_) => rest false (fun ml => TenantEntry tenantID rps tpm b ml (Some at_) noPolicy)
  | inr e => if isNoRows e then rest true (fun ml => TenantEntry tenantID 0 0 0 ml None noPolicy)
             else failO (EStore (readErr e))
  end.

(** *** User limits *)

(** The names of the pair's model rows; a statement that breaks is only logged. *)
Definition forgetUserModelRateLimits (tenantID userID : string) : Op unit :=
  let^ r := queryDb (sqlSelectUserModelRateLimits tenantID userID) in
  match r with
  | inr _ => retO tt
  | inl rows =>
      (fix forget (rows : list ModelRateLimit) : Op unit :=
         match rows with
         | [] => retO tt
         | m :: rows =>
             let key := cacheKeyForUserModel tenantID userID (mModel m) in
             let^ _ := rememberUserRateLimit key noUserLimit in
             let^ _ := cacheDeleteO key in
             forget rows
         end) rows
  end.

Fixpoint userModelStmts (tenantID userID : string) (ml : list ModelRateLimit) : Op (unit + opErr) :=
  match ml with
  | [] => okO tt
  | m :: ml =>
      if mTokensPerMin m <=? 0 then userModelStmts tenantID userID ml
      else
        let? _ := writeDb (sqlUpsertUserModelRateLimit tenantID userID (mModel m) (mTokensPerMin m)) in
        userModelStmts tenantID userID ml
  end.

Fixpoint userModelCaches (tenantID userID : string) (ml : list ModelRateLimit) : Op unit :=
  match ml with
  | [] => retO tt
  | m :: ml =>
      let^ _ := rememberUserRateLimit (cacheKeyForUserModel tenantID userID (mModel m))
                  (if mTokensPerMin m <=? 0 then noUserLimit else UserEntryC 0 0 (mTokensPerMin m)) in
      userModelCaches tenantID userID ml
  end.

Definition userEntryDecides (e : UserRateLimitEntry) : bool :=
  (uRPS e >? 0) || (uTokensPerMin e >? 0) || existsb (fun m => mTokensPerMin m >? 0) (uModelLimits e).

(** The model loop's checks, in order: the field of the first violation. *)
Fixpoint userModelCheck (ml : list ModelRateLimit) : option string :=
  match ml with
  | [] => None
  | m :: ml =>
      if negb (ValidateQoSIdentity (mModel m)) then Some "model"
      else if (mModel m ==s "") || (mTokensPerMin m <? 0) then Some "model_limits"
      else userModelCheck ml
  end.

Definition SetUserRateLimit (e : UserRateLimitEntry) : Op (unit + opErr) :=
  let t := uTenantID e in
  let u := uUserID e in
  let? _ := guardO (ValidateQoSIdentity t) (EValidation "tenant_id") in
  let? _ := guardO (ValidateQoSIdentity u) (EValidation "user_id") in
  let? _ := guardO (negb ((t ==s "") || (u ==s ""))) (EValidation "") in
  let? _ := guardO (negb ((uRPS e <? 0) || (uBurstSize e <? 0) || (uTokensPerMin e <? 0))) (EValidation "") in
  match userModelCheck (uModelLimits e) with
  | Some f => failO (EValidation f)
  | None =>
      let? _ := guardO (userEntryDecides e) (EValidation "") in
      let? _ := store in
      let? _ := inTx (let? _ := writeDb (sqlUpsertUserRateLimit t u (uRPS e) (uBurstSize e) (uTokensPerMin e)) in
                      let^ _ := forgetUserModelRateLimits t u in
                      let? _ := writeDb (sqlDeleteUserModelRateLimits t u) in
                      userModelStmts t u (uModelLimits e)) in
      let^ _ := rememberUserRateLimit (cacheKeyForUser t u) (UserEntryC (uRPS e) (uBurstSize e) (uTokensPerMin e)) in
      let^ _ := userModelCaches t u (uModelLimits e) in
      okO tt
  end.

Definition svcGetUserRateLimit (tenantID userID : string) : Op (Z * Z * Z + opErr) :=
  let key := cacheKeyForUser tenantID userID in
  let triple := fun e => (ucRPS e, ucBurst e, ucTPM e) in
  let^ c := cachedO asUser key in
  match c with
  | Some e => okO (triple e)
  | None =>
      let^ r := guardedRead (sqlSelectUserRateLimit tenantID userID) in
      match r with
      | inl row => let^ _ := rememberUserRateLimit key (UserEntryC (urRPS row) (urBurst row) (urTPM row)) in
                   okO (urRPS row, urBurst row, urTPM row)
      | inr e =>
          if isNoRows e then let^ _ := rememberUserRateLimit key noUserLimit in okO (0, 0, 0)
          else orLastKnown (fun s => lastKnownUserRateLimit s key) triple
      end
  end.

Definition svcGetUserModelRateLimit (tenantID userID model : string) : Op (Z + opErr) :=
  if model ==s "" then okO 0
  else
    let key := cacheKeyForUserModel tenantID userID model in
    let^ c := cachedO asUser key in
    match c with
    | Some e => okO (ucTPM e)
    | None =>
        let^ r := guardedRead (sqlSelectUserModelRateLimit tenantID userID model) in
        match r with
        | inl t => let^ _ := rememberUserRateLimit key (UserEntryC 0 0 t) in okO t
        | inr e =>
            if negb (isNoRows e) then orLastKnown (fun s => lastKnownUserRateLimit s key) ucTPM
            else let^ _ := rememberUserRateLimit key (UserEntryC 0 0 0) in okO 0
        end
    end.

(** The row of the user and its model rows, read from the store directly. *)
Definition GetUserRateLimitEntry (tenantID userID : string) : Op (UserRateLimitEntry + opErr) :=
  let? _ := store in
  let^ r := queryRow (sqlSelectUserRateLimit tenantID userID) in
  match r with
  | inr e => if isNoRows e then failO EUserRateLimitNotFound else failO (EStore (readErr e))
  | inl row =>
      let^ ms := queryDb (sqlSelectUserModelRateLimits tenantID userID) in
      match ms with
      | inr e => failO (EStore (readErr e))
      | inl ml => okO (UserEntry tenantID userID (urRPS row) (urBurst row) (urTPM row) ml)
      end
  end.

Definition ListUserRateLimits (tenantID : string) : Op (list UserRateLimitEntry + opErr) :=
  listO (fun d => (fun p => UserEntry tenantID p.1 (urRPS p.2) (urBurst p.2) (urTPM p.2) []) <$>
                  sqlSelectUserRateLimitsByTenant tenantID d).

Definition DeleteUserRateLimit (tenantID userID : string) : Op (unit + opErr) :=
  let? _ := store in
  let? _ := inTx (let? n := writeDb (sqlDeleteUserRateLimit tenantID userID) in
                  if n ==? 0 then failO EUserRateLimitNotFound
                  else
                    let^ _ := forgetUserModelRateLimits tenantID userID in
                    let? _ := writeDb (sqlDeleteUserModelRateLimits tenantID userID) in
                    okO tt) in
  let^ _ := rememberUserRateLimit (cacheKeyForUser tenantID userID) noUserLimit in
  let^ _ := cacheDeleteO (cacheKeyForUser tenantID userID) in
  okO tt.

(** *** Defaults *)

(** The scope rule: 'global' takes no rule_ident, 'rule' needs a valid one. *)
Definition scopeError (e : RateLimitDefaultsEntry) : option string :=
  if dScope e ==s RateLimitScopeGlobal then
    if dRuleIdent e ==s "" then None else Some "rule_ident"
  else if dScope e ==s RateLimitScopeRule then
    if dRuleIdent e ==s "" then Some "rule_ident"
    else if ValidateQoSIdentity (dRuleIdent e) then None else Some "rule_ident"
  else Some "scope".

Definition defaultsValues (e : RateLimitDefaultsEntry) : list Z :=
  [DefaultUserRPS e; DefaultUserTPM e; DefaultTenantRPS e; DefaultTenantTPM e; VipSharedRPS e; VipSharedTPM e].

Definition SetRateLimitDefaults (e : RateLimitDefaultsEntry) : Op (unit + opErr) :=
  match scopeError e with
  | Some f => failO (EValidation f)
  | None =>
      let? _ := guardO (negb (existsb (fun v => v <? 0) (defaultsValues e))) (EValidation "") in
      let? _ := guardO (existsb (fun v => v >? 0) (defaultsValues e)) (EValidation "") in
      let? _ := store in
      let? _ := writeDb (sqlUpsertRateLimitDefaults e) in
      let^ _ := rememberDefaults (cacheKeyForDefaults (dScope e) (dRuleIdent e)) (defaultsCached e) in
      let^ _ := refreshClassesAfterWrite in
      okO tt
  end.

(** The closure [fill]. *)
Definition fillDefaults (scope ident : string) (e : defaultsCacheEntry) : RateLimitDefaultsEntry * bool :=
  (DefaultsEntry scope ident (dcUserRPS e) (dcUserTPM e) (dcTenantRPS e) (dcTenantTPM e) (dcVipRPS e) (dcVipTPM e),
   dcExists e).

Definition svcGetRateLimitDefaults (scope ident : string) : Op (RateLimitDefaultsEntry * bool + opErr) :=
  let key := cacheKeyForDefaults scope ident in
  let^ c := cachedO asDefaults key in
  match c with
  | Some e => okO (fillDefaults scope ident e)
  | None =>
      let^ r := guardedRead (sqlSelectRateLimitDefaults scope ident) in
      match r with
      | inl row => let^ _ := rememberDefaults key (defaultsCached row) in okO (fillDefaults scope ident (defaultsCached row))
      | inr e =>
          if isNoRows e then let^ _ := rememberDefaults key noDefaultsEntry in okO (noDefaults scope ident, false)
          else orLastKnown (fun s => lastKnownDefaults s key) (fillDefaults scope ident)
      end
  end.

Definition GetRateLimitDefaultsEntry (scope ident : string) : Op (RateLimitDefaultsEntry + opErr) :=
  let? _ := store in
  let^ r := queryRow (sqlSelectRateLimitDefaults scope ident) in
  retO (match r with
        | inl row => inl row
        | inr e => if isNoRows e then inr ERateLimitDefaultsNotFound else inr (EStore (readErr e))
        end).

Definition DeleteRateLimitDefaults (scope ident : string) : Op (unit + opErr) :=
  let? _ := store in
  let? n := writeDb (sqlDeleteRateLimitDefaults scope ident) in
  if n ==? 0 then failO ERateLimitDefaultsNotFound
  else
    let^ _ := rememberDefaults (cacheKeyForDefaults scope ident) noDefaultsEntry in
    let^ _ := cacheDeleteO (cacheKeyForDefaults scope ident) in
    let^ _ := refreshClassesAfterWrite in
    okO tt.

(** *** Objectives and classes *)

Definition SetObjective (e : AIObjectiveEntry) : Op (unit + opErr) :=
  match ValidateObjective e with
  | inr (ValidationError f) => failO (EValidation f)
  | inl e =>
      let? _ := store in
      let^ now := nowO in
      let? _ := writeDb (sqlUpsertObjective (oName e) (joinList (oServices e)) (oPriority e) now) in
      let^ _ := refreshClassesAfterWrite in
      okO tt
  end.

Definition DeleteObjective (name : string) : Op (unit + opErr) :=
  let? _ := store in
  let? n := writeDb (sqlDeleteObjective name) in
  if n ==? 0 then failO EObjectiveNotFound
  else let^ _ := refreshClassesAfterWrite in okO tt.

(** ListObjectives, by name. *)
Definition ListObjectives : Op (list AIObjectiveEntry + opErr) :=
  listO (fun d => sortObjectives ((map_to_list (readObjectives (sqlSelectObjectives d))).*2)).

(** The store's objectives when it answers now, else the ones applied. *)
Definition ObjectiveList : Op (AIObjectiveList + opErr) := fun n =>
  let '(gen, c) := takeTicket (sClass (nSvc n)) in
  let n := setSvc (setClass c (nSvc n)) n in
  let '(r, n) := ListObjectives n in
  let ok := match r with inl _ => true | inr _ => false end in
  let n := setSvc (setClass (noteStoreRead gen ok (nNow n) (sClass (nSvc n))) (nSvc n)) n in
  let '(reachable, lastOK) := StoreHealth (sClass (nSvc n)) in
  match r with
  | inl objs => (inl (ObjectiveListOf objs AIClassSourceStore (nNow n) reachable lastOK), n)
  | inr e =>
      let iter := match csSnap (sClass (nSvc n)) with Some s => (map_to_list (Objectives s)).*2 | None => [] end in
      match AppliedObjectives iter (sClass (nSvc n)) with
      | None => (inr e, n)
      | Some (applied, source, at_) => (inl (ObjectiveListOf applied source at_ reachable lastOK), n)
      end
  end.

Definition SetTenantClass (tenantID : string) (p : AIClassPolicy) : Op (unit + opErr) :=
  let? _ := guardO (ValidateQoSIdentity tenantID) (EValidation "tenant_id") in
  let? _ := guardO (negb (tenantID ==s "")) (EValidation "tenant_id") in
  match ValidateClassPolicy p with
  | inr (ValidationError f) => failO (EValidation f)
  | inl p =>
      let? _ := store in
      let^ now := nowO in
      let? _ := writeDb (sqlUpsertTenantClass tenantID (storeClass p) now) in
      let^ _ := refreshClassesAfterWrite in
      okO tt
  end.

(** readClass: [missing] is the answer for no row. *)
Definition readClass (q : Db -> option classColumns) (missing : option opErr) : Op (AIClassPolicy + opErr) :=
  let? _ := store in
  let^ r := queryRow q in
  retO (match r with
        | inl c => inl (scanClass c)
        | inr e => if isNoRows e then match missing with Some x => inr x | None => inl noPolicy end
                   else inr (EStore (readErr e))
        end).

Definition GetTenantClass (tenantID : string) : Op (AIClassPolicy + opErr) :=
  readClass (sqlSelectTenantClass tenantID) None.
Definition GetAPIKeyClass (keyID : string) : Op (AIClassPolicy + opErr) :=
  readClass (sqlSelectKeyClass keyID) (Some EKeyNotFound).

Definition SetAPIKeyClass (keyID : string) (p : AIClassPolicy) : Op (unit + opErr) :=
  match ValidateClassPolicy p with
  | inr (ValidationError f) => failO (EValidation f)
  | inl p =>
      let? _ := store in
      let? n := writeDb (sqlUpdateKeyClass keyID (storeClass p)) in
      if n ==? 0 then failO EKeyNotFound
      else let^ _ := refreshClassesAfterWrite in okO tt
  end.

Definition PatchTenantClass (tenantID : string) (patch : AIClassPatch) : Op (unit + opErr) :=
  if classPatchIsZero patch then okO tt
  else
    let? _ := guardO (ValidateQoSIdentity tenantID) (EValidation "tenant_id") in
    let? _ := guardO (negb (tenantID ==s "")) (EValidation "tenant_id") in
    match classPatchArgs patch with
    | inr (ValidationError f) => failO (EValidation f)
    | inl args =>
        let? _ := store in
        let^ now := nowO in
        let? _ := writeDb (sqlPatchTenantClass tenantID args now) in
        let^ _ := refreshClassesAfterWrite in
        okO tt
    end.

Definition ListAPIKeyClasses : Op (gmap string AIClassPolicy + opErr) :=
  listO (fun d => readClassRows (sqlSelectKeyClasses d)).

(** *** The interfaces the gateway uses *)

(** The error a data-path caller sees. *)
Definition asGoErr (e : opErr) : goErr := match e with EStore g => g | _ => plainErr end.

Definition toGo {A} (m : Op (A + opErr)) (n : node) : (A + goErr) * node :=
  let '(r, n) := m n in (match r with inl a => inl a | inr e => inr (asGoErr e) end, n).

#[export] Instance keyStoreReads : RateLimitService node := {|
  GetTenantRateLimit t := toGo (svcGetTenantRateLimit t);
  GetTenantModelRateLimit t m := toGo (svcGetTenantModelRateLimit t m);
  GetAPIKeyByID k := toGo (svcGetAPIKeyByID k);
  GetUserRateLimit t u := toGo (svcGetUserRateLimit t u);
  GetUserModelRateLimit t u m := toGo (svcGetUserModelRateLimit t u m);
  GetRateLimitDefaults s i := toGo (svcGetRateLimitDefaults s i)
|}.

#[export] Instance keyStoreValidator : ApiKeyValidator node := {|
  ValidateAPIKey raw := svcValidateAPIKey raw
|}.
End KeyStore.
