(* ===== verification/KeyStoreLogic.v ===== *)
(** * KeyStoreLogic: reasoning about operations of the key store

    A weakest-precondition layer for the operations of KeyStore.v, the rules for
    its statements, transactions and guarded reads, and the coherence invariant:
    every cached or last-known value the service holds is what the tables say. *)

From S2P Require Import Prelude StoreErr LookupGuard Objective RateLimit RateSync Common Admission Gateway Identity Classes Tables ClassStore GoCache KeyStore.

Open Scope Z_scope.
Open Scope igw_scope.

(** ** Tables in order *)

(** What the constraints of api_keys and the generated identifiers give. *)
Definition dbOk (d : Db) : Prop :=
  (forall k r, api_keys d !! k = Some r -> k <> "" /\ key_hash r <> "") /\
  (forall k k' r r', api_keys d !! k = Some r -> api_keys d !! k' = Some r' -> key_hash r = key_hash r' -> k = k').

Lemma findKey_Some f d k r : findKey f d = Some (k, r) -> api_keys d !! k = Some r /\ f k r = true.
Proof.
  unfold findKey. intros H.
  assert ((k, r) ∈ filter (fun p => f p.1 p.2 = true) (map_to_list (api_keys d))) as Hin
    by (destruct (filter _ _) as [|x l]; [done|]; injection H as ->; left).
  apply list_elem_of_filter in Hin as [Hf Hin%elem_of_map_to_list]. done.
Qed.

Lemma findKey_None f d k r : findKey f d = None -> api_keys d !! k = Some r -> f k r = false.
Proof.
  unfold findKey. intros H Hr. destruct (f k r) eqn:Hf; [|done].
  assert ((k, r) ∈ filter (fun p => f p.1 p.2 = true) (map_to_list (api_keys d))) as Hin
    by (apply list_elem_of_filter; by rewrite elem_of_map_to_list).
  destruct (filter _ _); [by apply not_elem_of_nil in Hin|done].
Qed.

Lemma byHash_Some d h k r : dbOk d ->
  sqlSelectAPIKeyByHash h d = Some (k, r) <-> api_keys d !! k = Some r /\ key_hash r = h /\ krEnabled r = true.
Proof.
  intros [_ Hu]. unfold sqlSelectAPIKeyByHash. split.
  - intros [H1 [H2%String.eqb_eq H3]%andb_true_iff]%findKey_Some. done.
  - intros (H1 & H2 & H3). destruct (findKey _ d) as [[k' r']|] eqn:E.
    + apply findKey_Some in E as [E1 [E2%String.eqb_eq _]%andb_true_iff].
      assert (k' = k) as -> by (eapply Hu; [exact E1|exact H1|congruence]). congruence.
    + apply (findKey_None _ _ k r) in E; [|done]. cbn beta in E. by rewrite H2, String.eqb_refl, H3 in E.
Qed.

(** ** Slots: what a cache key is a key of *)

Inductive slot :=
| SlHash (h : string)
| SlID (k : string)
| SlTenant (t : string)
| SlModel (t m : string)
| SlUser (t u : string)
| SlUserModel (t u m : string)
| SlDefaults (s i : string).

#[export] Instance slot_eq_dec : EqDecision slot.
Proof. solve_decision. Defined.

Definition slotKey (sl : slot) : string :=
  match sl with
  | SlHash h => cacheKeyForHash h
  | SlID k => cacheKeyForID k
  | SlTenant t => cacheKeyForTenant t
  | SlModel t m => cacheKeyForModel t m
  | SlUser t u => cacheKeyForUser t u
  | SlUserModel t u m => cacheKeyForUserModel t u m
  | SlDefaults s i => cacheKeyForDefaults s i
  end.

(** The identities of a composite key that come before a delimiter hold none. *)
Definition slotOk (sl : slot) : Prop :=
  match sl with
  | SlHash _ | SlID _ | SlTenant _ => True
  | SlModel t _ | SlUser t _ => ContainsByte pipe t = false
  | SlUserModel t u _ => ContainsByte pipe t = false /\ ContainsByte pipe u = false
  | SlDefaults s _ => ContainsByte pipe s = false
  end.

Lemma slotKey_inj a b : slotOk a -> slotOk b -> slotKey a = slotKey b -> a = b.
Proof.
  destruct a, b; cbn [slotKey slotOk]; intros Ha Hb E; try discriminate;
    unfold cacheKeyForHash, cacheKeyForID, cacheKeyForTenant, cacheKeyForModel, cacheKeyForUser, cacheKeyForUserModel,
      cacheKeyForDefaults in E; apply string_app_inj_l in E; [congruence..| | | | ].
  - by apply pipe_inj in E as [-> ->].
  - by apply pipe_inj in E as [-> ->].
  - destruct Ha, Hb. apply pipe_inj in E as [-> E]; [|done..]. by apply pipe_inj in E as [-> ->].
  - by apply pipe_inj in E as [-> ->].
Qed.

(** The value the tables give a slot. *)
Definition userOfRow (r : option userRow) : userRateLimitCacheEntry :=
  match r with Some r => UserEntryC (urRPS r) (urBurst r) (urTPM r) | None => noUserLimit end.
Definition defaultsOfRow (r : option RateLimitDefaultsEntry) : defaultsCacheEntry :=
  match r with Some e => defaultsCached e | None => noDefaultsEntry end.

Definition slotFits (d : Db) (sl : slot) (v : cacheVal) : Prop :=
  match sl with
  | SlHash h => exists row, sqlSelectAPIKeyByHash h d = Some row /\ v = CvEntry (scanEntry row)
  | SlID k => exists r, api_keys d !! k = Some r /\
                (v = CvSummary (scanSummary k r) \/ v = CvSummary (summaryOfEntry (scanEntry (k, r))))
  | SlTenant t => v = CvLimit (limitOfRow (sqlSelectTenantRateLimit t d))
  | SlModel t m => v = CvLimit (RLEntry 0 (default 0 (sqlSelectTenantModelRateLimit t m d)) 0)
  | SlUser t u => v = CvUser (userOfRow (sqlSelectUserRateLimit t u d))
  | SlUserModel t u m => v = CvUser (UserEntryC 0 0 (default 0 (sqlSelectUserModelRateLimit t u m d)))
  | SlDefaults s i => v = CvDefaults (defaultsOfRow (sqlSelectRateLimitDefaults s i d))
  end.

Section Logic.
Context {GC : GoCache} {GL : GoCacheLaws GC} (cfg : lookupGuardConfig) (hashKey : string -> string).
#[local] Abbreviation node := (node (GC := GC)).
#[local] Abbreviation Service := (Service (GC := GC)).
#[local] Abbreviation Op := (Op (GC := GC)).

(** ** Coherence *)

(** The outage fallback never reads a last-known value under a hash key. *)
Definition lastRead (sl : slot) : Prop := match sl with SlHash _ => False | _ => True end.

Definition holds (s : Service) (sl : slot) (v : cacheVal) : Prop :=
  (exists t, cacheGet t (slotKey sl) (Cache s) = Some v) \/ (lastRead sl /\ rlLastKnown s !! slotKey sl = Some v).

(** On the slots satisfying [P]. *)
Definition cohOn (P : slot -> Prop) (s : Service) (d : Db) : Prop :=
  forall sl v, slotOk sl -> P sl -> holds s sl v -> slotFits d sl v.

Definition coh (s : Service) (d : Db) : Prop := cohOn (fun _ => True) s d.

(** The file's rows are not served: the store has answered this process. *)
Definition answered (s : Service) : Prop := csLkgLimits (sClass s) = None.

Definition coherent (n : node) : Prop := dbOk (nDb n) /\ answered (nSvc n) /\ coh (nSvc n) (nDb n).

Lemma cohOn_mono (P Q : slot -> Prop) s d : (forall sl, Q sl -> P sl) -> cohOn P s d -> cohOn Q s d.
Proof. intros H Hc sl v Ho Hq. by apply Hc; [|apply H]. Qed.

(** The tables changed only at slots outside [P]. *)
Lemma cohOn_db (P : slot -> Prop) s d d' : cohOn P s d ->
  (forall sl v, slotOk sl -> P sl -> holds s sl v -> slotFits d sl v -> slotFits d' sl v) -> cohOn P s d'.
Proof. intros H Hd sl v Ho Hp Hh. apply Hd; [done..|]. by apply H. Qed.

Lemma cohOn_remember (P : slot -> Prop) s d sl v now ttl :
  cohOn (fun x => P x /\ x <> sl) s d -> slotOk sl -> (P sl -> slotFits d sl v) ->
  cohOn P (setLastKnown (<[slotKey sl := v]>) (setCache (cacheSet now ttl (slotKey sl) v) s)) d.
Proof.
  intros H Hok Hv sl' v' Hok' HP Hh. destruct (decide (sl' = sl)) as [->|Hne].
  - destruct Hh as [[t Ht]|[_ Hl]]; cbn in *.
    + rewrite get_set in Ht. destruct (t <=? now + ttl); simplify_eq. by apply Hv.
    + rewrite lookup_insert_eq in Hl. simplify_eq. by apply Hv.
  - assert (slotKey sl <> slotKey sl') as Hk by (intros E; by apply Hne, slotKey_inj).
    apply H; [done|done|]. destruct Hh as [[t Ht]|[Hr Hl]]; cbn in *.
    + rewrite get_set_ne in Ht by done. left. eauto.
    + rewrite lookup_insert_ne in Hl by done. by right.
Qed.

Lemma cohOn_set (P : slot -> Prop) s d h v now ttl : cohOn (fun x => P x /\ x <> SlHash h) s d -> slotFits d (SlHash h) v ->
  cohOn P (setCache (cacheSet now ttl (cacheKeyForHash h) v) s) d.
Proof.
  intros H Hv sl' v' Hok' HP Hh. destruct (decide (sl' = SlHash h)) as [->|Hne].
  - destruct Hh as [[t Ht]|[[] _]]; cbn in *. rewrite get_set in Ht. by destruct (t <=? now + ttl); simplify_eq.
  - assert (cacheKeyForHash h <> slotKey sl') as Hk by (intros E; by apply Hne, (slotKey_inj sl' (SlHash h))).
    apply H; [done|done|]. destruct Hh as [[t Ht]|[Hr Hl]]; cbn in *; [|by right].
    rewrite get_set_ne in Ht by done. left. eauto.
Qed.

Lemma cohOn_delete (P : slot -> Prop) s d k : cohOn P s d -> cohOn P (setCache (cacheDelete k) s) d.
Proof.
  intros H sl v Hok HP Hh. apply H; [done|done|]. destruct Hh as [[t Ht]|Hl]; [|by right]. left. exists t. cbn in Ht.
  destruct (decide (k = slotKey sl)) as [->|Hne]; [by rewrite get_delete in Ht|by rewrite get_delete_ne in Ht].
Qed.

Lemma cohOn_forget (P : slot -> Prop) s d k : cohOn P s d -> cohOn P (setLastKnown (delete k) s) d.
Proof.
  intros H sl v Hok HP Hh. apply H; [done|done|]. destruct Hh as [Hc|[Hr Hl]]; [by left|]. right. cbn in Hl.
  by apply lookup_delete_Some in Hl as [_ Hl].
Qed.

(** Services with the same cached values. *)
Lemma cohOn_same (P : slot -> Prop) s s' d : Cache s' = Cache s -> rlLastKnown s' = rlLastKnown s ->
  cohOn P s d -> cohOn P s' d.
Proof. unfold cohOn, holds. by intros -> ->. Qed.

Lemma cohOn_evict (P : slot -> Prop) s d h k : h <> "" -> k <> "" ->
  cohOn (fun x => P x /\ x <> SlHash h /\ x <> SlID k) s d -> cohOn P (evict (Invalidation h k) s) d.
Proof.
  intros Hh Hk H sl v Hok HP Hhold. unfold evict in Hhold. cbn [ivKeyHash ivKeyID] in Hhold.
  destruct (String.eqb_spec h ""); [done|]. destruct (String.eqb_spec k ""); [done|].
  destruct (decide (sl = SlHash h)) as [->|N1].
  { exfalso. destruct Hhold as [[t Ht]|[[] _]]. cbn in Ht.
    rewrite get_delete_ne in Ht by (intros E; discriminate). by rewrite get_delete in Ht. }
  destruct (decide (sl = SlID k)) as [->|N2].
  { exfalso. destruct Hhold as [[t Ht]|[_ Hl]]; cbn in *; [by rewrite get_delete in Ht|by rewrite lookup_delete_eq in Hl]. }
  apply H; [done|done|]. destruct Hhold as [[t Ht]|[Hr Hl]]; cbn in *.
  - left. exists t. rewrite !get_delete_ne in Ht; [done|..]; intros E;
      [by apply N1, (slotKey_inj sl (SlHash h))|by apply N2, (slotKey_inj sl (SlID k))].
  - right. by apply lookup_delete_Some in Hl as [_ Hl].
Qed.

(** ** Weakest preconditions *)

Definition wp {A} (m : Op A) (Q : A -> node -> Prop) (n : node) : Prop := Q (m n).1 (m n).2.

Lemma wp_ret {A} (a : A) Q n : Q a n -> wp (retO a) Q n.
Proof. done. Qed.

Lemma wp_bind {A B} (m : Op A) (f : A -> Op B) Q n : wp m (fun a n' => wp (f a) Q n') n -> wp (bindO m f) Q n.
Proof. unfold wp, bindO. by destruct (m n). Qed.

Lemma wp_try {A B} (m : Op (A + opErr)) (f : A -> Op (B + opErr)) Q n :
  wp m (fun r n' => match r with inl a => wp (f a) Q n' | inr e => Q (inr e) n' end) n -> wp (tryO m f) Q n.
Proof. unfold wp, tryO. by destruct (m n) as [[a|e] n']. Qed.

Lemma wp_mono {A} (m : Op A) (Q R : A -> node -> Prop) n : (forall a n', Q a n' -> R a n') -> wp m Q n -> wp m R n.
Proof. unfold wp. auto. Qed.

Lemma wp_run {A} (m : Op A) (Q : A -> node -> Prop) n a n' : wp m Q n -> m n = (a, n') -> Q a n'.
Proof. unfold wp. by intros H E; rewrite E in H. Qed.

(** ** What the store does *)

(** Every failure is one the server did not apply, and none pretends to be an
    answered empty result. *)
Definition definiteOutcome (o : outcome) : Prop :=
  match o with Answered => True | Broken e applied => applied = false /\ isNoRows e = false end.

Definition definite (n : node) : Prop := Forall definiteOutcome (nScript n).

(** Nothing but the script, the reads' environment and the pending first uses
    moved: what a statement that changes no row leaves. *)
Definition later (n n' : node) : Prop :=
  nSvc n' = nSvc n /\ nDb n' = nDb n /\ nNow n' = nNow n /\ definite n'.

Lemma later_refl n : definite n -> later n n.
Proof. done. Qed.

Lemma wp_next Q n : definite n ->
  (forall o n', definiteOutcome o -> later n n' -> Q o n') -> wp nextOutcome Q n.
Proof.
  intros Hd HQ. unfold wp, nextOutcome. destruct (nScript n) as [|o l] eqn:E; cbn; [by apply HQ|].
  unfold definite in Hd. rewrite E in Hd. inversion_clear Hd. by apply HQ.
Qed.

Lemma wp_query {A} (f : Db -> A) Q n : definite n ->
  (forall n', later n n' -> Q (inl (f (nDb n))) n') ->
  (forall e n', isNoRows e = false -> later n n' -> Q (inr e) n') -> wp (queryDb f) Q n.
Proof.
  intros Hd H1 H2. unfold queryDb. apply wp_bind, wp_next; [done|].
  intros [|e b] n' Ho Hl; unfold wp; cbn; [destruct Hl as (? & E & ?); rewrite E; by apply H1|by apply H2; [apply Ho|]].
Qed.

Lemma wp_queryRow {A} (f : Db -> option A) Q n : definite n ->
  (forall a n', f (nDb n) = Some a -> later n n' -> Q (inl a) n') ->
  (forall n', f (nDb n) = None -> later n n' -> Q (inr errNoRows) n') ->
  (forall e n', isNoRows e = false -> later n n' -> Q (inr e) n') -> wp (queryRow f) Q n.
Proof.
  intros Hd H1 H2 H3. unfold queryRow. apply wp_bind, wp_query; [done|..].
  - intros n' Hl. apply wp_ret. destruct (f (nDb n)) eqn:E; [by apply H1|by apply H2].
  - intros e n' He Hl. apply wp_ret. by apply H3.
Qed.

Lemma wp_exec (f : Db -> execResult) Q n : definite n ->
  (forall c d n', f (nDb n) = inl (d, c) -> later n n' -> Q (inl c) (setDb d n')) ->
  (forall e n', later n n' -> Q (inr e) n') -> wp (execDb f) Q n.
Proof.
  intros Hd H1 H2. unfold execDb. apply wp_bind, wp_next; [done|].
  intros [|e b] n' Ho Hl; unfold wp; cbn.
  - destruct Hl as (Es & Ed & Hl). rewrite Ed. destruct (f (nDb n)) as [[d c]|ix] eqn:E; cbn; [by apply H1|by apply H2].
  - destruct Ho as [-> _]. cbn. by apply H2.
Qed.

Lemma wp_write (f : Db -> execResult) Q n : definite n ->
  (forall c d n', f (nDb n) = inl (d, c) -> later n n' -> Q (inl c) (setDb d n')) ->
  (forall e n', later n n' -> Q (inr (EStore e)) n') -> wp (writeDb f) Q n.
Proof.
  intros Hd H1 H2. unfold writeDb. apply wp_bind, wp_exec; [done|..]; intros; apply wp_ret; auto.
Qed.

Lemma wp_store Q n : (sConnected (nSvc n) = true -> Q (inl tt) n) -> (forall e, Q (inr (EStore e)) n) -> wp store Q n.
Proof. intros H1 H2. unfold wp, store. cbn. destruct (sConnected (nSvc n)) eqn:E; [by apply H1|apply H2]. Qed.

Lemma wp_guard good e Q n : (good = true -> Q (inl tt) n) -> (good = false -> Q (inr e) n) -> wp (guardO good e) Q n.
Proof. intros H1 H2. unfold wp, guardO, retO. cbn. destruct good; auto. Qed.

(** A body that leaves its error or its result; the tables go back on an error
    and on a COMMIT the server did not apply. *)
Lemma wp_inTx {A} (body : Op (A + opErr)) Q n : definite n ->
  (forall e n', later n n' -> Q (inr e) n') ->
  (forall n', later n n' ->
   wp body (fun r n1 => definite n1 /\
     match r with
     | inl a => (forall n2, later n1 n2 -> Q (inl a) n2) /\
                (forall e n2, nSvc n2 = nSvc n1 -> nDb n2 = nDb n -> nNow n2 = nNow n1 -> definite n2 -> Q (inr e) n2)
     | inr e => Q (inr e) (setDb (nDb n) n1)
     end) n') -> wp (inTx body) Q n.
Proof.
  intros Hd H1 H2. unfold wp, inTx.
  assert (wp nextOutcome (fun o n' => definiteOutcome o /\ later n n') n) as H by by apply wp_next.
  unfold wp in H. destruct (nextOutcome n) as [[|e b] n'] eqn:E; cbn [fst snd] in H; destruct H as [Ho Hl]; cbn; [|by apply H1].
  specialize (H2 n' Hl). unfold wp in H2. destruct (body n') as [[a|e] n1] eqn:Eb; cbn [fst snd] in *; destruct H2 as [Hd1 H2].
  - destruct H2 as [H2 H3].
    assert (wp nextOutcome (fun o n' => definiteOutcome o /\ later n1 n') n1) as H by by apply wp_next.
    unfold wp in H. destruct (nextOutcome n1) as [[|e b] n2] eqn:E2; cbn [fst snd] in H; destruct H as [Ho' Hl']; cbn; [by apply H2|].
    destruct Ho' as [-> _]. destruct Hl' as (? & ? & ? & ?). apply H3; cbn; [done|by destruct Hl as (? & -> & ?)|done|done].
  - cbn. destruct Hl as (? & E1 & ?). by rewrite E1.
Qed.

(** ** The guarded read *)

(** The read answers what the statement would: a row, no row, or an error that
    is not "no rows"; the service moves only in its guard. *)
Definition sameCaches (s s' : Service) : Prop :=
  Cache s' = Cache s /\ rlLastKnown s' = rlLastKnown s /\ sClass s' = sClass s /\ sNegative s' = sNegative s
  /\ sConnected s' = sConnected s /\ sFanOut s' = sFanOut s.

Definition readMoved (n n' : node) : Prop :=
  sameCaches (nSvc n) (nSvc n') /\ nDb n' = nDb n /\ nNow n' = nNow n /\ definite n'.

Lemma dataPathRead_err env fnErr g :
  (dataPathRead cfg env fnErr g).1 = fnErr \/
  exists e, (dataPathRead cfg env fnErr g).1 = Some e /\ isNoRows e = false.
Proof.
  unfold dataPathRead. destruct (connected env); cbn [negb]; [|right; by eexists].
  destruct (admitLookup _ _ _ _) as [[tok|[]] g']; cbn; try (right; eexists; done). by left.
Qed.

Lemma dataPathRead_notAdmitted env fnErr g :
  connected env && match admitLookup cfg (startNs env) (gotSlot env) g with (inl _, _) => true | (inr _, _) => false end = false ->
  exists e, (dataPathRead cfg env fnErr g).1 = Some e /\ isNoRows e = false.
Proof.
  unfold dataPathRead. destruct (connected env); cbn [negb andb]; [|intros _; by eexists].
  destruct (admitLookup _ _ _ _) as [[tok|[]] g']; cbn; intros; [done|by eexists..].
Qed.

Lemma wp_guardedRead {A} (f : Db -> option A) Q n : definite n ->
  (forall a n', f (nDb n) = Some a -> readMoved n n' -> Q (inl a) n') ->
  (forall n', f (nDb n) = None -> readMoved n n' -> Q (inr errNoRows) n') ->
  (forall e n', isNoRows e = false -> readMoved n n' -> Q (inr e) n') -> wp (guardedRead cfg f) Q n.
Proof.
  intros Hd H1 H2 H3. unfold guardedRead. apply wp_bind.
  assert (exists rw n0, nextRead n = (rw, n0) /\ later n n0) as (rw & n0 & E0 & Es & Ed & En & Hd0).
  { unfold nextRead. destruct (nReads n); eexists _, _; (split; [reflexivity|done]). }
  unfold wp. rewrite E0. cbn [fst snd].
  set (env := ReadEnv _ _ _ _ _).
  destruct (sConnected (nSvc n0) && _) eqn:Hadm.
  - assert (wp (queryRow f) (fun r n1 => later n0 n1 /\ match r with
      | inl a => f (nDb n) = Some a
      | inr e => (e = errNoRows /\ f (nDb n) = None) \/ isNoRows e = false end) n0) as Hq.
    { apply wp_queryRow; rewrite ?Ed; eauto. }
    unfold wp in Hq. destruct (queryRow f n0) as [r n1]. cbn [fst snd] in Hq. destruct Hq as [(Es1 & Ed1 & En1 & Hd1) Hr].
    pose proof (dataPathRead_err env (match r with inl _ => None | inr e => Some e end) (sGuard (nSvc n0))) as He.
    destruct (dataPathRead cfg env _ _) as [err g]. cbn [fst snd] in *.
    assert (readMoved n (setSvc (setGuard g (nSvc n1)) n1)) as Hm.
    { split; [|cbn; split; [congruence|split; [congruence|done]]]. cbn. rewrite Es1, Es. done. }
    destruct He as [->|(e & -> & He)]; [|destruct r; by apply H3].
    destruct r as [a|e]; [by apply H1|]. destruct Hr as [[-> Hr]|Hr]; [by apply H2|by apply H3].
  - destruct (dataPathRead_notAdmitted env (Some errStoreUnavailable) (sGuard (nSvc n0)) Hadm) as (e & He & Hn).
    destruct (dataPathRead cfg env _ _) as [err g]. cbn [fst snd] in *. rewrite He. apply H3; [done|].
    split; [|cbn; split; [congruence|split; [congruence|done]]]. cbn. by rewrite Es.
Qed.

(** ** Rules under coherence *)

(** The tables are as they were and everything held agrees with them. *)
Definition kept (n n' : node) : Prop :=
  coherent n' /\ nDb n' = nDb n /\ definite n' /\ nNow n' = nNow n /\ sConnected (nSvc n') = sConnected (nSvc n) /\
  sFanOut (nSvc n') = sFanOut (nSvc n).

Lemma kept_refl n : coherent n -> definite n -> kept n n.
Proof. done. Qed.

Lemma kept_trans n1 n2 n3 : kept n1 n2 -> kept n2 n3 -> kept n1 n3.
Proof.
  intros (_ & E1 & _ & E2 & E3 & E4) (H & E1' & Hd & E2' & E3' & E4'). split; [done|]. rewrite E1', E2', E3', E4'. done.
Qed.

Lemma kept_later n n' : coherent n -> later n n' -> kept n n'.
Proof.
  intros (H1 & H2 & H3) (Es & Ed & En & Hd). split; [|by rewrite Es]. unfold coherent. by rewrite Es, Ed.
Qed.

Lemma kept_readMoved n n' : coherent n -> readMoved n n' -> kept n n'.
Proof.
  intros (H1 & H2 & H3) ((E1 & E2 & E3 & E4 & E5 & E6) & Ed & En & Hd). split; [|done]. split; [by rewrite Ed|].
  split; [unfold answered in *; by rewrite E3|]. rewrite Ed. by eapply cohOn_same.
Qed.

(** The readers' one writer path. *)
Lemma wp_remember sl v Q n : coherent n -> definite n -> slotOk sl -> slotFits (nDb n) sl v ->
  (forall n', kept n n' -> Q tt n') -> wp (remember (slotKey sl) v) Q n.
Proof.
  intros (H1 & H2 & H3) Hd Hok Hv HQ. unfold wp, remember, bindO, cacheSetO, modSvc. cbn. apply HQ.
  split; [|done]. split; [done|]. split; [done|]. apply cohOn_remember; [|done|done].
  eapply cohOn_mono; [|exact H3]. done.
Qed.

Lemma wp_cached {A} (as_ : cacheVal -> option A) sl Q n : coherent n -> slotOk sl ->
  (forall a v, as_ v = Some a -> slotFits (nDb n) sl v -> Q (Some a) n) -> Q None n ->
  wp (cachedO as_ (slotKey sl)) Q n.
Proof.
  intros (_ & _ & H) Hok HQ HN. unfold wp, cachedO. cbn.
  destruct (cacheGet (nNow n) (slotKey sl) (Cache (nSvc n))) as [v|] eqn:E; cbn; [|done].
  destruct (as_ v) as [a|] eqn:Ea; [|done]. eapply HQ; [done|]. apply H; [done|done|]. left. eauto.
Qed.

(** A value read from the last-known map fits. *)
Lemma lastKnown_fits {A} (as_ : cacheVal -> option A) sl n a : coherent n -> slotOk sl -> lastRead sl ->
  rlLastKnown (nSvc n) !! slotKey sl ≫= as_ = Some a -> exists v, as_ v = Some a /\ slotFits (nDb n) sl v.
Proof.
  intros (_ & _ & H) Hok Hl (v & Hv & Ha)%bind_Some. exists v. split; [done|]. apply H; [done|done|by right].
Qed.

Lemma lastLimit_fits sl n e : coherent n -> slotOk sl -> lastRead sl ->
  lastKnownRateLimit (nSvc n) (slotKey sl) = Some e -> slotFits (nDb n) sl (CvLimit e).
Proof.
  intros Hc Hok Hl He. unfold lastKnownRateLimit in He.
  destruct (rlLastKnown (nSvc n) !! slotKey sl ≫= asLimit) as [e'|] eqn:E.
  - injection He as ->. apply (lastKnown_fits _ _ _ _ Hc Hok Hl) in E as ([] & Hv & Hf); try done. by injection Hv as ->.
  - destruct Hc as (_ & Ha & _). unfold answered in Ha. by rewrite Ha in He.
Qed.

Lemma lastDefaults_fits sl n e : coherent n -> slotOk sl -> lastRead sl ->
  lastKnownDefaults (nSvc n) (slotKey sl) = Some e -> slotFits (nDb n) sl (CvDefaults e).
Proof.
  intros Hc Hok Hl He. unfold lastKnownDefaults in He.
  destruct (rlLastKnown (nSvc n) !! slotKey sl ≫= asDefaults) as [e'|] eqn:E.
  - injection He as ->. apply (lastKnown_fits _ _ _ _ Hc Hok Hl) in E as ([] & Hv & Hf); try done. by injection Hv as ->.
  - destruct Hc as (_ & Ha & _). unfold answered in Ha. by rewrite Ha in He.
Qed.

Lemma lastUser_fits sl n e : coherent n -> slotOk sl -> lastRead sl ->
  lastKnownUserRateLimit (nSvc n) (slotKey sl) = Some e -> slotFits (nDb n) sl (CvUser e).
Proof.
  intros Hc Hok Hl E. apply (lastKnown_fits _ _ _ _ Hc Hok Hl) in E as ([] & Hv & Hf); try done. by injection Hv as ->.
Qed.

(** What a read leaves: the same tables, coherence, and an answer that satisfies
    the specification; an error only under [absent]. *)
Definition readPost {A} (n : node) (spec : A -> Prop) (absent : Prop) (r : A + opErr) (n' : node) : Prop :=
  kept n n' /\ match r with inl a => spec a | inr _ => absent end.

(** No value of the slot was ever confirmed by the store. *)
Definition neverKnown (sl : slot) (n : node) : Prop := rlLastKnown (nSvc n) !! slotKey sl = None.

(** The shape the five limit reads share: the cached value, else the row, else
    the remembered "no row", else the last value the store confirmed. *)
Section ladder_read.
  Context {A B C : Type} (as_ : cacheVal -> option A) (mk : A -> cacheVal) (sl : slot)
    (row : Db -> option C) (val : option C -> A) (last : Service -> option A) (out : A -> B).
  Hypothesis as_mk : forall a v, as_ v = Some a -> v = mk a.
  Hypothesis fits : forall d a, slotFits d sl (mk a) <-> a = val (row d).
  Hypothesis Hok : slotOk sl.
  Hypothesis Hlast : forall n a, coherent n -> last (nSvc n) = Some a -> slotFits (nDb n) sl (mk a).
  Hypothesis Htype : forall d v, slotFits d sl v -> exists a, v = mk a.
  Hypothesis Hkept : forall s a, rlLastKnown s !! slotKey sl = Some (mk a) -> last s = Some a.
  Hypothesis Hread : lastRead sl.

Definition ladderRead : Op (B + opErr) :=
    bindO (cachedO as_ (slotKey sl)) (fun c =>
    match c with
    | Some e => okO (out e)
    | None =>
        bindO (guardedRead cfg row) (fun r =>
        match r with
        | inl x => bindO (remember (slotKey sl) (mk (val (Some x)))) (fun _ => okO (out (val (Some x))))
        | inr e =>
            if isNoRows e then bindO (remember (slotKey sl) (mk (val None))) (fun _ => okO (out (val None)))
            else orLastKnown last out
        end)
    end).

Lemma ladderRead_spec n : coherent n -> definite n ->
    wp ladderRead (readPost n (fun b => b = out (val (row (nDb n)))) (neverKnown sl n)) n.
  Proof.
    intros Hc Hd. unfold ladderRead. apply wp_bind, wp_cached; [done|done|..].
    { intros a v Ha%as_mk Hf. subst v. apply fits in Hf as ->. by split; [apply kept_refl|]. }
    apply wp_bind, wp_guardedRead; [done|..].
    - intros x n' Hx Hm%kept_readMoved; [|done]. pose proof Hm as (Hc' & Ed & Hd' & _). apply wp_bind.
      apply wp_remember; [done|done|done|by apply fits; rewrite Ed, Hx|].
      intros n2 H2. apply wp_ret. split; [|by rewrite Hx]. by eapply kept_trans.
    - intros n' Hx Hm%kept_readMoved; [|done]. pose proof Hm as (Hc' & Ed & Hd' & _). cbn. apply wp_bind.
      apply wp_remember; [done|done|done|by apply fits; rewrite Ed, Hx|].
      intros n2 H2. apply wp_ret. split; [|by rewrite Hx]. by eapply kept_trans.
    - intros e n' He Hmv. pose proof (kept_readMoved n n' Hc Hmv) as Hm. rewrite He. destruct Hm as (Hc' & Ed & Hrest).
      unfold orLastKnown, wp, bindO, lastO. cbn. destruct (last (nSvc n')) as [a|] eqn:El; cbn; (split; [done|]).
      + apply Hlast in El; [|done]. apply fits in El. by rewrite El, Ed.
      + destruct Hmv as ((_ & E & _) & _). unfold neverKnown. rewrite <- E.
        destruct (rlLastKnown (nSvc n') !! slotKey sl) as [v|] eqn:Ev; [|done]. exfalso.
        destruct (Htype (nDb n') v) as [a ->]; [apply Hc'; [done|done|by right]|]. by rewrite (Hkept _ a Ev) in El.
  Qed.
End ladder_read.

Lemma wp_ext {A} (m m' : Op A) Q n : m n = m' n -> wp m' Q n -> wp m Q n.
Proof. unfold wp. by intros ->. Qed.

Lemma bindO_ext {A B} (m : Op A) (f g : A -> Op B) n : (forall a n', f a n' = g a n') -> bindO m f n = bindO m g n.
Proof. intros H. unfold bindO. destruct (m n). apply H. Qed.

(** The two writings of a read agree on every outcome of its cache and store. *)
Ltac ladder_eq :=
  apply bindO_ext; intros [?|] ?; [reflexivity|];
  apply bindO_ext; intros [?|?] ?;
  [repeat match goal with x : (_ * _)%type |- _ => destruct x end; reflexivity
  |match goal with |- context [isNoRows ?e] => destruct (isNoRows e) end; reflexivity].

Ltac last_kept :=
  intros s' a' E'; unfold lastKnownRateLimit, lastKnownUserRateLimit, lastKnownDefaults; cbn [slotKey] in E'; rewrite E'; reflexivity.

Definition tenantTriple (e : rateLimitCacheEntry) : Z * Z * Z := (rlRPS e, rlTPM e, rlBurstPct e).
Definition userTriple (e : userRateLimitCacheEntry) : Z * Z * Z := (ucRPS e, ucBurst e, ucTPM e).

Lemma getTenant_spec t n : coherent n -> definite n ->
  wp (svcGetTenantRateLimit cfg t)
    (readPost n (fun b => b = tenantTriple (limitOfRow (sqlSelectTenantRateLimit t (nDb n)))) (neverKnown (SlTenant t) n)) n.
Proof.
  intros Hc Hd.
  apply (wp_ext _ (ladderRead asLimit CvLimit (SlTenant t) (sqlSelectTenantRateLimit t) limitOfRow
    (fun s => lastKnownRateLimit s (cacheKeyForTenant t)) tenantTriple)).
  - unfold svcGetTenantRateLimit. ladder_eq.
  - apply ladderRead_spec; [by intros a [] [= <-]| |done| |by intros d v ->; eexists|last_kept|done|done|done].
    + intros d a. cbn. split; [by intros [= ->]|by intros ->].
    + intros n' a Hc' Ha. by apply (lastLimit_fits (SlTenant t)).
Qed.

Lemma getModel_spec t m n : coherent n -> definite n -> ContainsByte pipe t = false ->
  wp (svcGetTenantModelRateLimit cfg t m)
    (readPost n (fun b => b = if m ==s "" then 0 else default 0 (sqlSelectTenantModelRateLimit t m (nDb n))) (neverKnown (SlModel t m) n)) n.
Proof.
  intros Hc Hd Hp. unfold svcGetTenantModelRateLimit. destruct (m ==s ""); [by apply wp_ret; split; [apply kept_refl|]|].
  eapply (wp_ext _ (ladderRead asLimit CvLimit (SlModel t m) (sqlSelectTenantModelRateLimit t m)
    (fun o => RLEntry 0 (default 0 o) 0) (fun s => lastKnownRateLimit s (cacheKeyForModel t m)) rlTPM)).
  - ladder_eq.
  - apply (ladderRead_spec asLimit CvLimit (SlModel t m)); [by intros a [] [= <-]| |done| |by intros d v ->; eexists|last_kept|done|done|done].
    + intros d a. cbn. split; [by intros [= ->]|by intros ->].
    + intros n' a Hc' Ha. by apply (lastLimit_fits (SlModel t m)).
Qed.

Lemma getUser_spec t u n : coherent n -> definite n -> ContainsByte pipe t = false ->
  wp (svcGetUserRateLimit cfg t u)
    (readPost n (fun b => b = userTriple (userOfRow (sqlSelectUserRateLimit t u (nDb n)))) (neverKnown (SlUser t u) n)) n.
Proof.
  intros Hc Hd Hp.
  apply (wp_ext _ (ladderRead asUser CvUser (SlUser t u) (sqlSelectUserRateLimit t u) userOfRow
    (fun s => lastKnownUserRateLimit s (cacheKeyForUser t u)) userTriple)).
  - unfold svcGetUserRateLimit. ladder_eq.
  - apply ladderRead_spec; [by intros a [] [= <-]| |done| |by intros d v ->; eexists|last_kept|done|done|done].
    + intros d a. cbn. split; [by intros [= ->]|by intros ->].
    + intros n' a Hc' Ha. by apply (lastUser_fits (SlUser t u)).
Qed.

Lemma getUserModel_spec t u m n : coherent n -> definite n -> ContainsByte pipe t = false -> ContainsByte pipe u = false ->
  wp (svcGetUserModelRateLimit cfg t u m)
    (readPost n (fun b => b = if m ==s "" then 0 else default 0 (sqlSelectUserModelRateLimit t u m (nDb n))) (neverKnown (SlUserModel t u m) n)) n.
Proof.
  intros Hc Hd Hp Hu. unfold svcGetUserModelRateLimit. destruct (m ==s ""); [by apply wp_ret; split; [apply kept_refl|]|].
  eapply (wp_ext _ (ladderRead asUser CvUser (SlUserModel t u m) (sqlSelectUserModelRateLimit t u m)
    (fun o => UserEntryC 0 0 (default 0 o)) (fun s => lastKnownUserRateLimit s (cacheKeyForUserModel t u m)) ucTPM)).
  - ladder_eq.
  - apply (ladderRead_spec asUser CvUser (SlUserModel t u m)); [by intros a [] [= <-]| |done| |by intros d v ->; eexists|last_kept|done|done|done].
    + intros d a. cbn. split; [by intros [= ->]|by intros ->].
    + intros n' a Hc' Ha. by apply (lastUser_fits (SlUserModel t u m)).
Qed.

(** The answer for a defaults row: its values, and whether it exists. *)
Lemma getDefaults_spec s i n : coherent n -> definite n -> ContainsByte pipe s = false ->
  wp (svcGetRateLimitDefaults cfg s i)
    (readPost n (fun b => b = fillDefaults s i (defaultsOfRow (sqlSelectRateLimitDefaults s i (nDb n)))) (neverKnown (SlDefaults s i) n)) n.
Proof.
  intros Hc Hd Hp.
  apply (wp_ext _ (ladderRead asDefaults CvDefaults (SlDefaults s i) (sqlSelectRateLimitDefaults s i) defaultsOfRow
    (fun v => lastKnownDefaults v (cacheKeyForDefaults s i)) (fillDefaults s i))).
  - unfold svcGetRateLimitDefaults. ladder_eq.
  - apply ladderRead_spec; [by intros a [] [= <-]| |done| |by intros d v ->; eexists|last_kept|done|done|done].
    + intros d a. cbn. split; [by intros [= ->]|by intros ->].
    + intros n' a Hc' Ha. by apply (lastDefaults_fits (SlDefaults s i)).
Qed.

(** ** Keys *)

(** A by-ID view of a row: the operation id may be missing from it. *)
Definition summaryOf (d : Db) (k : string) (x : ApiKeySummary) : Prop :=
  exists r, api_keys d !! k = Some r /\ (x = scanSummary k r \/ x = summaryOfEntry (scanEntry (k, r))).

Lemma summary_fits d k x : slotFits d (SlID k) (CvSummary x) <-> summaryOf d k x.
Proof. cbn. unfold summaryOf. split; intros (r & Hr & [H|H]); exists r; (split; [done|]); [injection H as ->|injection H as ->|subst|subst]; auto. Qed.

Lemma kept_forget n k : coherent n -> definite n ->
  kept n (setSvc (setLastKnown (delete k) (nSvc n)) n).
Proof.
  intros (H1 & H2 & H3) Hd. split; [|done]. split; [done|]. split; [done|]. by apply cohOn_forget.
Qed.

Lemma getByID_spec k n : coherent n -> definite n ->
  wp (svcGetAPIKeyByID cfg k) (readPost n (fun x => summaryOf (nDb n) k x) True) n.
Proof.
  intros Hc Hd. unfold svcGetAPIKeyByID. apply wp_bind. change (cacheKeyForID k) with (slotKey (SlID k)).
  apply wp_cached; [done|done|..].
  { intros a [] Ha Hf; try done. injection Ha as ->. apply summary_fits in Hf. by split; [apply kept_refl|]. }
  apply wp_bind, wp_guardedRead; [done|..].
  - intros r n' Hr Hm%kept_readMoved; [|done]. pose proof Hm as (Hc' & Ed & Hd' & _). apply wp_bind.
    assert (summaryOf (nDb n) k (scanSummary k r)) as Hs by (exists r; auto).
    apply (wp_remember (SlID k)); [done|done|done|apply summary_fits; by rewrite Ed|].
    intros n2 H2. apply wp_ret. split; [by eapply kept_trans|done].
  - intros n' Hr Hm%kept_readMoved; [|done]. pose proof Hm as (Hc' & Ed & Hd' & _). cbn. unfold wp, bindO, forgetKeySummary, modSvc. cbn.
    split; [|done]. eapply kept_trans; [exact Hm|]. by apply kept_forget.
  - intros e n' He Hm%kept_readMoved; [|done]. pose proof Hm as (Hc' & Ed & Hd' & _). rewrite He.
    unfold wp, bindO, lastO. cbn. destruct (lastKnownKeySummary (nSvc n') k) as [x|] eqn:El; cbn.
    + split; [done|]. rewrite <- Ed. unfold lastKnownKeySummary in El.
      apply (lastKnown_fits asSummary (SlID k)) in El as ([] & Hv & Hf); try done. injection Hv as ->. by apply summary_fits.
    + destruct (isDBUnavailable e); by split.
Qed.

Lemma kept_negative n neg : coherent n -> definite n -> kept n (setSvc (setNegative neg (nSvc n)) n).
Proof. intros (H1 & H2 & H3) Hd. split; [|done]. split; [done|]. split; [done|]. by eapply cohOn_same. Qed.

Lemma kept_pending n l : coherent n -> definite n ->
  kept n (Node (nSvc n) (nDb n) (nScript n) (nReads n) (nNow n) (nDisk n) (nFile n) l).
Proof. intros Hc Hd. done. Qed.

Definition entryOf (d : Db) (raw : string) (e : ApiKeyEntry) : Prop :=
  exists row, sqlSelectAPIKeyByHash (hashKey raw) d = Some row /\ e = scanEntry row.

Definition validatePost (n : node) (raw : string) (r : ApiKeyEntry + validateErr) (n' : node) : Prop :=
  kept n n' /\ match r with inl e => entryOf (nDb n) raw e | inr _ => True end.

Lemma fill_spec raw row n : coherent n -> definite n -> sqlSelectAPIKeyByHash (hashKey raw) (nDb n) = Some row ->
  wp (validateFill (hashKey raw) row) (fun e n' => kept n n' /\ e = scanEntry row) n.
Proof.
  intros Hc Hd Hr. unfold validateFill. apply wp_bind. unfold wp at 1, cacheSetO. cbn [fst snd].
  set (n1 := setSvc _ n).
  assert (kept n n1) as Hk1.
  { destruct Hc as (H1 & H2 & H3). split; [|done]. split; [done|]. split; [done|].
    apply cohOn_set; [|exists row; done]. eapply cohOn_mono; [|exact H3]. done. }
  pose proof Hk1 as (Hc1 & Ed1 & Hd1 & _). destruct row as [k r].
  assert (api_keys (nDb n) !! k = Some r) as Hrow by by apply findKey_Some in Hr as [? _].
  apply wp_bind, (wp_remember (SlID k)); [done|done|done| |].
  { exists r. split; [by rewrite Ed1|by right]. }
  intros n2 H2. assert (kept n n2) as Hk2 by exact (kept_trans n n1 n2 Hk1 H2). pose proof Hk2 as (Hc2 & _ & Hd2 & _).
  apply wp_bind. cbn [snd]. destruct (krClientOp r), (krFirstUsed r); unfold wp; cbn; (split; [|done]); done.
Qed.

Lemma validate_spec raw n : coherent n -> definite n -> wp (svcValidateAPIKey cfg hashKey raw) (validatePost n raw) n.
Proof.
  intros Hc Hd. unfold svcValidateAPIKey, validateCached. apply wp_bind, wp_bind.
  change (cacheKeyForHash (hashKey raw)) with (slotKey (SlHash (hashKey raw))).
  apply wp_cached; [done|done|..].
  { intros e [] Ha (row & Hr & Hv); try done. injection Ha as ->. injection Hv as ->. apply wp_ret, wp_ret.
    split; [by apply kept_refl|by exists row]. }
  unfold wp at 1. destruct (negativeHit _ _ _ _) as [hit neg]. cbn [fst snd].
  assert (Hk1 := kept_negative n neg Hc Hd). set (n1 := setSvc _ n) in *. pose proof Hk1 as (Hc1 & Ed1 & Hd1 & _).
  destruct hit; [by apply wp_ret; split|].
  apply wp_bind, wp_guardedRead; [done|..].
  - intros row n' Hr Hm%kept_readMoved; [|done]. pose proof Hm as (Hc' & Ed & Hd' & _). apply wp_bind.
    eapply wp_mono; [|apply fill_spec; [done|done|by rewrite Ed]]. cbn. intros e n2 [Hk2 ->]. apply wp_ret.
    split; [eapply kept_trans; [exact Hk1|]; by eapply kept_trans|]. exists row. by rewrite <- Ed1.
  - intros n' Hr Hm%kept_readMoved; [|done]. pose proof Hm as (Hc' & Ed & Hd' & _). cbn. unfold wp, bindO. cbn.
    split; [|done]. eapply kept_trans; [exact Hk1|]. eapply kept_trans; [exact Hm|]. by apply kept_negative.
  - intros e n' He Hm%kept_readMoved; [|done]. rewrite He. destruct (isDBUnavailable e); apply wp_ret; (split; [exact (kept_trans _ _ _ Hk1 Hm)|done]).
Qed.

(** *** Refresh and eviction keep coherence *)

Lemma RefreshClasses_lkg now iter out read c dk :
  csLkgLimits c = None -> csLkgLimits (RefreshClasses now iter out read c dk).2.1 = None.
Proof.
  intros H. unfold RefreshClasses, takeTicket, finishRefresh, publishClasses, writeClassLKGIfCurrent, writeClassLKG, noteStoreRead.
  destruct read as [r|e]; cbn; repeat (case_match; simplify_eq/=; try done).
Qed.

Lemma readClasses_later Q n : definite n -> (forall r n', later n n' -> Q r n') -> wp readClasses Q n.
Proof.
  intros Hd HQ. unfold wp, readClasses. destruct (sConnected (nSvc n)); cbn [negb]; [|by apply HQ].
  assert (forall A B (f : Db -> A) (k : A -> Op (B + goErr)) n1 (R : B + goErr -> node -> Prop), later n n1 ->
    (forall a n2, later n n2 -> wp (k a) R n2) -> (forall e n2, later n n2 -> R (inr e) n2) ->
    wp (readStep (queryDb f) k) R n1) as Hstep.
  { intros A B f k n1 R Hl H1 H2. unfold readStep.
    assert (wp (queryDb f) (fun _ n2 => later n n2) n1) as Hq.
    { destruct Hl as (Es & Ed & En & Hd1). apply wp_query; [done|..]; intros; unfold later in *; intuition congruence. }
    unfold wp in *. destruct (queryDb f n1) as [[a|e] n2]; cbn [fst snd] in *; auto. }
  change (wp (readStep (queryDb sqlSelectObjectives) (fun objs =>
    readStep (queryDb sqlSelectTenantClasses) (fun tenants =>
    readStep (queryDb sqlSelectKeyClasses) (fun keys =>
    readStep (queryDb sqlSelectAllTenantLimits) (fun ts =>
    readStep (queryDb sqlSelectAllTenantModelLimits) (fun ms =>
    readStep (queryDb sqlSelectAllRateLimitDefaults) (fun ds =>
      retO (inl (ClassRead (readObjectives objs) (readClassRows tenants) (readClassRows keys)
                   (readLimitRows ts ms ds)))))))))) Q n).
  repeat (apply Hstep; [done| |intros; by apply HQ]; intros ? ? ?).
  apply wp_ret. by apply HQ.
Qed.

Lemma wp_refresh Q n : coherent n -> definite n -> (forall n', kept n n' -> Q tt n') -> wp refreshClassesAfterWrite Q n.
Proof.
  intros Hc Hd HQ. unfold wp, refreshClassesAfterWrite.
  assert (wp readClasses (fun _ n' => later n n') n) as Hr by by apply readClasses_later.
  unfold wp in Hr. destruct (readClasses n) as [r n1]. cbn [fst snd] in Hr.
  apply kept_later in Hr; [|done]. pose proof Hr as (Hc1 & Ed1 & Hd1 & En1 & Ec1).
  destruct Hc1 as (H1 & H2 & H3).
  set (iter := match r with inl _ => _ | inr _ => _ end).
  pose proof (RefreshClasses_lkg (nNow n1) iter (nFile n1) r _ (nDisk n1) H2) as Hl.
  destruct (RefreshClasses _ _ _ _ _ _) as [err [c dk]]. cbn [fst snd] in *. apply HQ.
  split; [|done]. split; [done|]. split; [done|]. by eapply cohOn_same.
Qed.
End Logic.
