(* ===== verification/KeyStoreWrites.v ===== *)
(** * KeyStoreWrites: what a write of the key store leaves behind

    For each write of KeyStore.v against a store whose failures are definite: it
    either returns success with its row changed and every cached value agreeing
    with the tables, or returns an error with the tables as they were. *)

From S2P Require Import Prelude StoreErr LookupGuard Objective RateLimit RateSync Common Admission Gateway Identity Classes Tables ClassStore GoCache KeyStore KeyStoreLogic.

Open Scope Z_scope.
Open Scope igw_scope.

(** ** Slots a statement does not touch *)

Lemma fits_tenant d t r sl v : sl <> SlTenant t -> slotFits d sl v -> slotFits (setTenants (<[t := r]>) d) sl v.
Proof.
  intros Hne H. destruct sl as [h|k|t'| | | |]; try exact H. cbn in *. unfold sqlSelectTenantRateLimit in *. cbn.
  rewrite lookup_insert_ne; [done|congruence].
Qed.

Lemma fits_tenantModel d f t m sl v : (forall k, k <> (t, m) -> f (tenant_model_rate_limits d) !! k = tenant_model_rate_limits d !! k) ->
  sl <> SlModel t m -> slotFits d sl v -> slotFits (setTenantModels f d) sl v.
Proof.
  intros Hf Hne H. destruct sl as [h|k|t'|t' m'| | |]; try exact H. cbn in *. unfold sqlSelectTenantModelRateLimit in *. cbn.
  rewrite Hf; [done|congruence].
Qed.

Lemma fits_defaults d f s i sl v : (forall k, k <> (s, i) -> f (rate_limit_defaults d) !! k = rate_limit_defaults d !! k) ->
  sl <> SlDefaults s i -> slotFits d sl v -> slotFits (setDefaults f d) sl v.
Proof.
  intros Hf Hne H. destruct sl as [h|k|t'|t' m'| | |s' i']; try exact H. cbn in *. unfold sqlSelectRateLimitDefaults in *. cbn.
  rewrite Hf; [done|congruence].
Qed.

(** A key row that changed, with its hash before and after. *)
Lemma byHash_other d d' h : dbOk d -> dbOk d' ->
  (forall k r, key_hash r = h -> api_keys d !! k = Some r <-> api_keys d' !! k = Some r) ->
  sqlSelectAPIKeyByHash h d' = sqlSelectAPIKeyByHash h d.
Proof.
  intros Hd Hd' H. destruct (sqlSelectAPIKeyByHash h d) as [[k r]|] eqn:E.
  - apply byHash_Some in E as (H1 & H2 & H3); [|done]. apply byHash_Some; [done|]. by rewrite <- H.
  - destruct (sqlSelectAPIKeyByHash h d') as [[k r]|] eqn:E'; [|done].
    apply byHash_Some in E' as (H1 & H2 & H3); [|done]. apply H in H1; [|done].
    assert (sqlSelectAPIKeyByHash h d = Some (k, r)) by by apply byHash_Some. congruence.
Qed.

Lemma fits_keys d f k sl v : dbOk d -> dbOk (setKeys f d) ->
  (forall k', k' <> k -> f (api_keys d) !! k' = api_keys d !! k') ->
  (forall h, sl = SlHash h -> forall r, key_hash r = h -> api_keys d !! k <> Some r /\ f (api_keys d) !! k <> Some r) ->
  sl <> SlID k -> slotFits d sl v -> slotFits (setKeys f d) sl v.
Proof.
  intros Hd Hd' Hf Hh Hne H. destruct sl as [h|k'| | | | |]; try exact H.
  - destruct H as (row & Hr & ->). exists row. split; [|done]. rewrite <- Hr. apply byHash_other; [done|done|].
    intros k' r Hk. cbn. destruct (decide (k' = k)) as [->|]; [|by rewrite Hf].
    destruct (Hh h eq_refl r Hk) as [N1 N2]. split; intros E; contradiction.
  - destruct H as (r & Hr & Hv). exists r. split; [|done]. cbn. rewrite Hf; [done|congruence].
Qed.

Lemma hashTaken_false d k h k' r : hashTaken d k h = false -> api_keys d !! k' = Some r -> key_hash r = h -> k' = k.
Proof.
  unfold hashTaken. intros H%bool_decide_eq_false Hr Hh. destruct (decide (k' = k)); [done|].
  exfalso. apply H. by exists k', r.
Qed.

(** Replacing or adding a row under a hash no other row holds keeps the indexes. *)
Lemma dbOk_insert d k r : dbOk d -> k <> "" -> key_hash r <> "" -> hashTaken d k (key_hash r) = false ->
  dbOk (setKeys (<[k := r]>) d).
Proof.
  intros [H1 H2] Hk Hr Ht. split; cbn.
  - intros k' r' [[<- <-]|[_ H]]%lookup_insert_Some; [done|by eapply H1].
  - intros k1 k2 r1 r2 [[<- <-]|[N1 L1]]%lookup_insert_Some [[<- <-]|[N2 L2]]%lookup_insert_Some E; [done|..].
    + symmetry. by eapply hashTaken_false.
    + by eapply hashTaken_false.
    + by eapply H2.
Qed.

Lemma dbOk_delete d k : dbOk d -> dbOk (setKeys (delete k) d).
Proof.
  intros [H1 H2]. split; cbn.
  - intros k' r' [_ H]%lookup_delete_Some. by eapply H1.
  - intros k1 k2 r1 r2 [_ L1]%lookup_delete_Some [_ L2]%lookup_delete_Some. by eapply H2.
Qed.

Section Writes.
Context {GC : GoCache} {GL : GoCacheLaws GC} (cfg : lookupGuardConfig) (hashKey : string -> string).
#[local] Abbreviation node := (node (GC := GC)).
#[local] Abbreviation Service := (Service (GC := GC)).
#[local] Abbreviation Op := (Op (GC := GC)).

(** Coherent but at the slots outside [P]. *)
Definition almost (P : slot -> Prop) (n : node) : Prop :=
  dbOk (nDb n) /\ answered (nSvc n) /\ cohOn P (nSvc n) (nDb n) /\ definite n.

Lemma almost_all n : almost (fun _ => True) n <-> coherent n /\ definite n.
Proof. unfold almost, coherent, coh. tauto. Qed.

(** What a write leaves. *)
Definition wrote {A} (n : node) (done : Db -> Prop) (r : A + opErr) (n' : node) : Prop :=
  coherent n' /\ definite n' /\ match r with inl _ => done (nDb n') | inr _ => nDb n' = nDb n end.

Lemma wrote_err {A} n (done : Db -> Prop) e n' : coherent n -> later n n' -> wrote (A := A) n done (inr e) n'.
Proof. intros Hc Hl. apply kept_later in Hl as (H1 & H2 & H3 & _); [|done]. done. Qed.

Lemma wrote_err_same {A} n (done : Db -> Prop) e : coherent n -> definite n -> wrote (A := A) n done (inr e) n.
Proof. done. Qed.

Lemma wp_remember_after (P : slot -> Prop) sl v Q n :
  almost (fun x => P x /\ x <> sl) n -> slotOk sl -> (P sl -> slotFits (nDb n) sl v) ->
  (forall n', almost P n' -> nDb n' = nDb n -> Q tt n') -> wp (remember (slotKey sl) v) Q n.
Proof.
  intros (H1 & H2 & H3 & Hd) Hok Hv HQ. unfold wp, remember, bindO, cacheSetO, modSvc. cbn. apply HQ; [|done].
  split; [done|]. split; [done|]. split; [|done]. by apply cohOn_remember.
Qed.

Lemma wp_cacheDelete P k Q n : almost P n -> (forall n', almost P n' -> nDb n' = nDb n -> Q tt n') -> wp (cacheDeleteO k) Q n.
Proof.
  intros (H1 & H2 & H3 & Hd) HQ. unfold wp, cacheDeleteO, modSvc. cbn. apply HQ; [|done].
  split; [done|]. split; [done|]. split; [|done]. by apply cohOn_delete.
Qed.

Lemma wp_fanOut P h k Q n : h <> "" -> k <> "" -> almost (fun x => P x /\ x <> SlHash h /\ x <> SlID k) n ->
  (forall n', almost P n' -> nDb n' = nDb n ->
     (sSink (nSvc n) = true -> sFanOut (nSvc n') = Invalidation h k :: sFanOut (nSvc n)) -> Q tt n') ->
  wp (evictAndFanOut (Invalidation h k)) Q n.
Proof.
  intros Hh Hk (H1 & H2 & H3 & Hd) HQ. unfold wp, evictAndFanOut, modSvc. cbn [fst snd].
  assert (sSink (evict (Invalidation h k) (nSvc n)) = sSink (nSvc n) /\ sFanOut (evict (Invalidation h k) (nSvc n)) = sFanOut (nSvc n)
    /\ sClass (evict (Invalidation h k) (nSvc n)) = sClass (nSvc n)) as (E1 & E2 & E3)
    by (unfold evict; by destruct (_ ==s _), (_ ==s _)).
  apply HQ; cbn [nSvc nDb setSvc].
  - split; [done|]. split.
    { unfold answered in *. rewrite <- E3 in H2. by destruct (sSink (evict (Invalidation h k) (nSvc n))). }
    split; [|done]. apply (cohOn_same P (evict (Invalidation h k) (nSvc n)));
      [by destruct (sSink (evict (Invalidation h k) (nSvc n)))..|by apply cohOn_evict].
  - done.
  - intros Hs. rewrite E1, Hs. cbn. by rewrite E2.
Qed.

Lemma wp_refresh_after Q n : almost (fun _ => True) n ->
  (forall n', almost (fun _ => True) n' -> nDb n' = nDb n -> sFanOut (nSvc n') = sFanOut (nSvc n) -> Q tt n') ->
  wp refreshClassesAfterWrite Q n.
Proof.
  intros [Hc Hd]%almost_all HQ. apply wp_refresh; [done|done|]. intros n' (H1 & H2 & H3 & _ & _ & H4).
  apply HQ; [by apply almost_all|done|done].
Qed.

Lemma wp_now Q n : Q (nNow n) n -> wp nowO Q n.
Proof. done. Qed.

(** The tables after a statement, with everything held as before. *)
Lemma almost_svc P n n' d : coherent n -> nSvc n' = nSvc n -> definite n' -> dbOk d ->
  (forall sl v, slotOk sl -> P sl -> holds (nSvc n) sl v -> slotFits (nDb n) sl v -> slotFits d sl v) ->
  almost P (setDb d n').
Proof.
  intros (H1 & H2 & H3) Es Hd Hok HP. unfold almost. cbn. rewrite Es.
  split; [done|]. split; [done|]. split; [|done]. eapply cohOn_db; [|exact HP].
  eapply cohOn_mono; [|exact H3]. done.
Qed.

Lemma almost_setDb P n n' d : coherent n -> later n n' -> dbOk d ->
  (forall sl v, slotOk sl -> P sl -> holds (nSvc n) sl v -> slotFits (nDb n) sl v -> slotFits d sl v) ->
  almost P (setDb d n').
Proof. intros Hc (Es & _ & _ & Hd). by apply almost_svc. Qed.

(** ** Tenant limits and defaults *)

Lemma finish_write {A} n n' (done : Db -> Prop) (a : A) : almost (fun _ => True) n' -> done (nDb n') -> wrote n done (inl a) n'.
Proof. intros [H1 H2]%almost_all H3. done. Qed.

(** The row an upsert leaves: the limits given, the class it had. *)
Definition tenantRowOf (t : string) (rps tpm b now : Z) (d : Db) : tenantRow :=
  TenantRow rps tpm b now (trClass (default (noTenantRow now) (tenant_rate_limits d !! t))).

Lemma setTenant_spec t rps tpm b n : coherent n -> definite n ->
  wp (SetTenantRateLimit t rps tpm b)
    (wrote n (fun d => d = setTenants (<[t := tenantRowOf t rps tpm b (nNow n) (nDb n)]>) (nDb n))) n.
Proof.
  intros Hc Hd. unfold SetTenantRateLimit.
  apply wp_try, wp_guard; [intros _|done]. apply wp_try, wp_guard; [intros _|done]. apply wp_try, wp_store; [intros _|done].
  apply wp_bind, wp_now, wp_try, wp_write; [done| |intros; by apply wrote_err].
  intros c d n' Hx Hl. injection Hx as <- _. apply wp_bind, (wp_remember_after (fun _ => True) (SlTenant t)).
  - eapply almost_setDb; [done|done|apply Hc|]. intros sl v _ [_ Hne] _. by apply fits_tenant.
  - done.
  - intros _. cbn. unfold sqlSelectTenantRateLimit. cbn. by rewrite lookup_insert_eq.
  - intros n2 H2 E2. apply wp_bind, wp_refresh_after; [done|]. intros n3 H3 E3 _. apply wp_ret, finish_write; [done|].
    by rewrite E3, E2.
Qed.

(** The statement for one model row: upsert, or delete at no limit. *)
Definition modelStmt (t : string) (m : ModelRateLimit) (d : Db) : Db :=
  if mTokensPerMin m <=? 0 then setTenantModels (delete (t, mModel m)) d
  else setTenantModels (<[(t, mModel m) := mTokensPerMin m]>) d.

Lemma setModel_spec t m tpm n : coherent n -> definite n ->
  wp (SetTenantModelRateLimit t m tpm)
    (wrote n (fun d => d = modelStmt t (ModelLimit m tpm) (nDb n))) n.
Proof.
  intros Hc Hd. unfold SetTenantModelRateLimit.
  apply wp_try, wp_guard; [intros Ht|done]. apply wp_try, wp_guard; [intros _|done]. apply wp_try, wp_guard; [intros _|done].
  apply wp_try, wp_store; [intros _|done]. apply valid_pipe in Ht.
  unfold modelStmt. cbn [mModel mTokensPerMin].
  destruct (Z.leb_spec tpm 0); apply wp_try, wp_write; try done; try (intros; by apply wrote_err).
  - intros c d n' Hx Hl. injection Hx as <- _. apply wp_bind, (wp_remember_after (fun _ => True) (SlModel t m)).
    + eapply almost_setDb; [done|done|apply Hc|]. intros sl v _ [_ Hne] _. apply fits_tenantModel with (t := t) (m := m); [|done].
      intros k Hk. by apply lookup_delete_ne.
    + done.
    + intros _. cbn. unfold sqlSelectTenantModelRateLimit. cbn. by rewrite lookup_delete_eq.
    + intros n2 H2 E2. apply wp_bind, (wp_cacheDelete (fun _ => True)); [done|]. intros n3 H3 E3.
      apply wp_bind, wp_refresh_after; [done|]. intros n4 H4 E4 _. apply wp_ret, finish_write; [done|].
      by rewrite E4, E3, E2.
  - intros c d n' Hx Hl. injection Hx as <- _. apply wp_bind, (wp_remember_after (fun _ => True) (SlModel t m)).
    + eapply almost_setDb; [done|done|apply Hc|]. intros sl v _ [_ Hne] _. apply fits_tenantModel with (t := t) (m := m); [|done].
      intros k Hk. by apply lookup_insert_ne.
    + done.
    + intros _. cbn. unfold sqlSelectTenantModelRateLimit. cbn. by rewrite lookup_insert_eq.
    + intros n2 H2 E2. apply wp_bind, wp_refresh_after; [done|]. intros n3 H3 E3 _. apply wp_ret, finish_write; [done|].
      by rewrite E3, E2.
Qed.

(** *** The tenant's limits and its model rows in one transaction *)

Definition modelStmts (t : string) (ml : list ModelRateLimit) (d : Db) : Db := foldl (fun d m => modelStmt t m d) d ml.

Lemma modelStmts_keys t ml d :
  api_keys (modelStmts t ml d) = api_keys d /\ tenant_rate_limits (modelStmts t ml d) = tenant_rate_limits d /\
  user_rate_limits (modelStmts t ml d) = user_rate_limits d /\
  user_model_rate_limits (modelStmts t ml d) = user_model_rate_limits d /\
  rate_limit_defaults (modelStmts t ml d) = rate_limit_defaults d.
Proof.
  revert d. induction ml as [|m ml IH]; intros d; [done|]. cbn [modelStmts foldl]. fold (modelStmts t ml (modelStmt t m d)).
  destruct (IH (modelStmt t m d)) as (-> & -> & -> & -> & ->). unfold modelStmt. by destruct (_ <=? 0).
Qed.

Lemma modelStmts_other t ml d k : (forall m, m ∈ ml -> k <> (t, mModel m)) ->
  tenant_model_rate_limits (modelStmts t ml d) !! k = tenant_model_rate_limits d !! k.
Proof.
  revert d. induction ml as [|m ml IH]; intros d Hk; [done|]. cbn [modelStmts foldl]. fold (modelStmts t ml (modelStmt t m d)).
  rewrite IH by set_solver. assert (k <> (t, mModel m)) by set_solver.
  unfold modelStmt. destruct (_ <=? 0); cbn; [by rewrite lookup_delete_ne|by rewrite lookup_insert_ne].
Qed.

Lemma modelStmts_head t m ml d : (forall m', m' ∈ ml -> mModel m <> mModel m') ->
  default 0 (tenant_model_rate_limits (modelStmts t (m :: ml) d) !! (t, mModel m)) = Z.max 0 (mTokensPerMin m).
Proof.
  intros Hn. cbn [modelStmts foldl]. fold (modelStmts t ml (modelStmt t m d)).
  rewrite modelStmts_other by (intros m' Hm' [= E]; by apply (Hn m')).
  unfold modelStmt. destruct (Z.leb_spec (mTokensPerMin m) 0); cbn.
  - rewrite lookup_delete_eq. cbn. lia.
  - rewrite lookup_insert_eq. cbn. lia.
Qed.

Lemma tenantModelStmts_spec t ml Q n : definite n ->
  (forall n', nSvc n' = nSvc n -> nNow n' = nNow n -> definite n' -> nDb n' = modelStmts t ml (nDb n) -> Q (inl tt) n') ->
  (forall e n', nSvc n' = nSvc n -> nNow n' = nNow n -> definite n' -> Q (inr e) n') ->
  wp (tenantModelStmts t ml) Q n.
Proof.
  revert n. induction ml as [|m ml IH]; intros n Hd H1 H2; cbn [tenantModelStmts]; [by apply wp_ret, H1|].
  apply wp_try, wp_write; [done| |intros e n' (? & ? & ? & ?); by apply H2].
  intros c d n' Hx (Es & Ed & En & Hd'). apply IH; [done|..].
  - intros n2 E1 E2 E3 E4. apply H1; [by rewrite E1|by rewrite E2|done|]. rewrite E4. cbn [nDb setDb modelStmts foldl].
    unfold modelStmts. f_equal. unfold modelStmt. destruct (_ <=? 0); cbn in Hx; by injection Hx as <- _.
  - intros e n2 E1 E2 E3. apply H2; [by rewrite E1|by rewrite E2|done].
Qed.

Lemma tenantModelCaches_spec t ml d0 Q n : ContainsByte pipe t = false ->
  almost (fun x => forall m, m ∈ ml -> x <> SlModel t (mModel m)) n -> nDb n = modelStmts t ml d0 ->
  (forall n', almost (fun _ => True) n' -> nDb n' = nDb n -> Q tt n') -> wp (tenantModelCaches t ml) Q n.
Proof.
  intros Ht. revert d0 n. induction ml as [|m ml IH]; intros d0 n Ha Ed HQ; cbn [tenantModelCaches].
  { apply wp_ret, HQ; [|done]. destruct Ha as (? & ? & H & ?). repeat (split; [done|]). split; [|done].
    eapply cohOn_mono; [|exact H]. intros sl _ x Hx. by apply not_elem_of_nil in Hx. }
  set (P := fun x => forall m', m' ∈ ml -> x <> SlModel t (mModel m')).
  assert (almost (fun x => P x /\ x <> SlModel t (mModel m)) n) as Hhead.
  { destruct Ha as (? & ? & H & ?). repeat (split; [done|]). split; [|done]. eapply cohOn_mono; [|exact H].
    intros sl [HP Hne] x [->|Hx]%elem_of_cons; [done|by apply HP]. }
  assert (P (SlModel t (mModel m)) -> default 0 (sqlSelectTenantModelRateLimit t (mModel m) (nDb n)) = Z.max 0 (mTokensPerMin m)) as Hval.
  { intros HP. rewrite Ed. unfold sqlSelectTenantModelRateLimit. apply modelStmts_head. intros m' Hm' E.
    apply (HP m' Hm'). by rewrite E. }
  apply wp_bind. destruct (Z.leb_spec (mTokensPerMin m) 0).
  - apply wp_bind, (wp_remember_after P (SlModel t (mModel m))); [done|done| |].
    { intros HP. cbn. rewrite (Hval HP). by replace (Z.max 0 (mTokensPerMin m)) with 0 by lia. }
    intros n2 H2 E2. apply (wp_cacheDelete P); [done|]. intros n3 H3 E3.
    apply (IH (modelStmt t m d0)); [done|by rewrite E3, E2|]. intros n4 H4 E4. apply HQ; [done|by rewrite E4, E3].
  - apply (wp_remember_after P (SlModel t (mModel m))); [done|done| |].
    { intros HP. cbn. rewrite (Hval HP). by replace (Z.max 0 (mTokensPerMin m)) with (mTokensPerMin m) by lia. }
    intros n2 H2 E2. apply (IH (modelStmt t m d0)); [done|by rewrite E2|]. intros n3 H3 E3. apply HQ; [done|by rewrite E3].
Qed.

Lemma modelStmts_congr t ml a b : tenant_model_rate_limits a = tenant_model_rate_limits b ->
  tenant_model_rate_limits (modelStmts t ml a) = tenant_model_rate_limits (modelStmts t ml b).
Proof.
  revert a b. induction ml as [|m l IH]; intros x y E; [done|]. apply IH. unfold modelStmt.
  destruct (_ <=? 0); cbn; by rewrite E.
Qed.

(** The tenant row, then its model rows. *)
Definition tenantStmts (t : string) (r : tenantRow) (ml : list ModelRateLimit) (d : Db) : Db :=
  modelStmts t ml (setTenants (<[t := r]>) d).

Lemma tenantStmts_row t r ml d :
  sqlSelectTenantRateLimit t (tenantStmts t r ml d) = Some (trRPS r, trTPM r, trBurstPct r).
Proof.
  unfold sqlSelectTenantRateLimit, tenantStmts.
  destruct (modelStmts_keys t ml (setTenants (<[t := r]>) d)) as (_ & -> & _). cbn. by rewrite lookup_insert_eq.
Qed.

Lemma dbOk_tenantStmts t r ml d : dbOk d -> dbOk (tenantStmts t r ml d).
Proof.
  unfold dbOk, tenantStmts. by destruct (modelStmts_keys t ml (setTenants (<[t := r]>) d)) as (-> & _).
Qed.

Lemma fits_tenantStmts t r ml d sl v : sl <> SlTenant t -> (forall m, m ∈ ml -> sl <> SlModel t (mModel m)) ->
  slotFits d sl v -> slotFits (tenantStmts t r ml d) sl v.
Proof.
  intros Hne HP Hfit. unfold tenantStmts.
  destruct (modelStmts_keys t ml (setTenants (<[t := r]>) d)) as (K1 & K2 & K3 & K4 & K5).
  destruct sl as [h|k|t'|t' m'|t' u|t' u m'|s i]; cbn in *.
  - destruct Hfit as (row & Hr & Hv). exists row. split; [|done]. unfold sqlSelectAPIKeyByHash, findKey in *. by rewrite K1.
  - by rewrite K1.
  - unfold sqlSelectTenantRateLimit in *. rewrite K2. cbn. rewrite lookup_insert_ne; [done|congruence].
  - unfold sqlSelectTenantModelRateLimit in *. rewrite modelStmts_other; [done|]. intros m Hm [= -> ->]. by apply (HP m Hm).
  - unfold sqlSelectUserRateLimit in *. by rewrite K3.
  - unfold sqlSelectUserModelRateLimit in *. by rewrite K4.
  - unfold sqlSelectRateLimitDefaults in *. by rewrite K5.
Qed.

(** A node whose service and tables are those of a coherent one. *)
Lemma coherent_same n n' : coherent n -> nSvc n' = nSvc n -> nDb n' = nDb n -> coherent n'.
Proof. intros H Es Ed. unfold coherent. by rewrite Es, Ed. Qed.

Lemma tenantTx_spec t rps tpm b now ml Q n : coherent n -> definite n ->
  let r := TenantRow rps tpm b now (trClass (default (noTenantRow now) (tenant_rate_limits (nDb n) !! t))) in
  (forall n', nSvc n' = nSvc n -> definite n' -> nDb n' = tenantStmts t r ml (nDb n) -> Q (inl tt) n') ->
  (forall e n', nSvc n' = nSvc n -> nDb n' = nDb n -> definite n' -> Q (inr e) n') ->
  wp (inTx (tryO (writeDb (sqlUpsertTenantRateLimit t rps tpm b now)) (fun _ => tenantModelStmts t ml))) Q n.
Proof.
  intros Hc Hd r H1 H2. apply wp_inTx; [done|intros e n' (? & ? & ? & ?); by apply H2|]. intros n0 (Es & Ed & En & Hd0).
  apply wp_try, wp_write; [done| |].
  2:{ intros e n1 (Es1 & Ed1 & En1 & Hd1). split; [done|]. apply H2; cbn; [congruence|done|done]. }
  intros c d n1 Hx (Es1 & Ed1 & En1 & Hd1). rewrite Ed in Hx. cbn in Hx. injection Hx as <- _.
  apply tenantModelStmts_spec; [done|..]; cbn.
  - intros n2 E1 E2 Hd2 E4. split; [done|]. split.
    + intros n3 (F1 & F2 & F3 & Hd3). apply H1; [congruence|done|]. by rewrite F2, E4.
    + intros e n3 F1 F2 F3 Hd3. apply H2; [congruence|done|done].
  - intros e n2 E1 E2 Hd2. split; [done|]. apply H2; cbn; [congruence|done|done].
Qed.

Lemma setTenantLimits_spec t rps tpm b ml n : coherent n -> definite n ->
  wp (SetTenantLimits t rps tpm b ml)
    (wrote n (fun d => d = tenantStmts t (tenantRowOf t rps tpm b (nNow n) (nDb n)) ml (nDb n))) n.
Proof.
  intros Hc Hd. unfold SetTenantLimits.
  apply wp_try, wp_guard; [intros Ht|done]. apply wp_try, wp_guard; [intros _|done]. apply wp_try, wp_guard; [intros _|done].
  apply wp_try, wp_store; [intros _|done]. apply valid_pipe in Ht. apply wp_bind, wp_now, wp_try.
  apply tenantTx_spec; [done|done| |].
  2:{ intros e n' Es Ed Hd'. split; [by eapply coherent_same|done]. }
  intros n1 Es Hd1 Ed. destruct Hc as (H1 & H2 & H3).
  apply wp_bind, (wp_remember_after (fun x => forall m, m ∈ ml -> x <> SlModel t (mModel m)) (SlTenant t)).
  - split; [rewrite Ed; by apply dbOk_tenantStmts|]. split; [by rewrite Es|]. split; [|done]. rewrite Es, Ed.
    eapply cohOn_db; [eapply cohOn_mono; [|exact H3]; done|]. intros sl v Hok [HP Hne] _. by apply fits_tenantStmts.
  - done.
  - intros _. cbn. by rewrite Ed, tenantStmts_row.
  - intros n2 H4 E2. apply wp_bind, (tenantModelCaches_spec t ml _ _ _ Ht H4 (eq_trans E2 Ed)).
    intros n3 H5 E3. apply wp_bind, wp_refresh_after; [done|]. intros n4 H6 E4 _. apply wp_ret, finish_write; [done|].
    by rewrite E4, E3, E2, Ed.
Qed.

(** *** Defaults *)

Lemma setDefaults_spec e n : coherent n -> definite n ->
  wp (SetRateLimitDefaults e) (wrote n (fun d => d = setDefaults (<[(dScope e, dRuleIdent e) := e]>) (nDb n))) n.
Proof.
  intros Hc Hd. unfold SetRateLimitDefaults. destruct (scopeError e) as [f|] eqn:Hsc; [done|].
  assert (ContainsByte pipe (dScope e) = false) as Hp.
  { unfold scopeError in Hsc. destruct (String.eqb_spec (dScope e) RateLimitScopeGlobal) as [->|]; [done|].
    by destruct (String.eqb_spec (dScope e) RateLimitScopeRule) as [->|]. }
  apply wp_try, wp_guard; [intros _|done]. apply wp_try, wp_guard; [intros _|done]. apply wp_try, wp_store; [intros _|done].
  apply wp_try, wp_write; [done| |intros; by apply wrote_err].
  intros c d n' Hx Hl. injection Hx as <- _. apply wp_bind, (wp_remember_after (fun _ => True) (SlDefaults (dScope e) (dRuleIdent e))).
  - eapply almost_setDb; [done|done|apply Hc|]. intros sl v _ [_ Hne] _.
    apply fits_defaults with (s := dScope e) (i := dRuleIdent e); [|done]. intros k Hk. by apply lookup_insert_ne.
  - done.
  - intros _. cbn. unfold sqlSelectRateLimitDefaults. cbn. by rewrite lookup_insert_eq.
  - intros n2 H2 E2. apply wp_bind, wp_refresh_after; [done|]. intros n3 H3 E3 _. apply wp_ret, finish_write; [done|].
    by rewrite E3, E2.
Qed.

Lemma deleteDefaults_spec s i n : coherent n -> definite n -> ContainsByte pipe s = false ->
  wp (DeleteRateLimitDefaults s i) (wrote n (fun d => d = setDefaults (delete (s, i)) (nDb n))) n.
Proof.
  intros Hc Hd Hp. unfold DeleteRateLimitDefaults. apply wp_try, wp_store; [intros _|done].
  apply wp_try, wp_write; [done| |intros; by apply wrote_err].
  intros c d n' Hx Hl. injection Hx as <- <-.
  destruct (rate_limit_defaults (nDb n) !! (s, i)) as [e|] eqn:E; cbn.
  - apply wp_bind, (wp_remember_after (fun _ => True) (SlDefaults s i)).
    + eapply almost_setDb; [done|done|apply Hc|]. intros sl v _ [_ Hne] _.
      apply fits_defaults with (s := s) (i := i); [|done]. intros k Hk. by apply lookup_delete_ne.
    + done.
    + intros _. cbn. unfold sqlSelectRateLimitDefaults. cbn. by rewrite lookup_delete_eq.
    + intros n2 H2 E2. apply wp_bind, (wp_cacheDelete (fun _ => True)); [done|]. intros n3 H3 E3.
      apply wp_bind, wp_refresh_after; [done|]. intros n4 H4 E4 _. apply wp_ret, finish_write; [done|].
      by rewrite E4, E3, E2.
  - apply wp_ret. destruct Hl as (Es & Ed & En & Hd').
    assert (setDefaults (delete (s, i)) (nDb n) = nDb n) as Esame.
    { destruct (nDb n) eqn:Edb. unfold setDefaults. cbn in *. f_equal. by apply delete_id. }
    split; [|split; [done|cbn; by rewrite Esame]]. apply (coherent_same n); [done|done|cbn; by rewrite Esame].
Qed.

(** ** Keys *)

(** A statement that touched only the row of [k], under the same hash. *)
Lemma almost_key n n' g k r : coherent n -> nSvc n' = nSvc n -> definite n' -> api_keys (nDb n) !! k = Some r ->
  dbOk (setKeys g (nDb n)) -> (forall k', k' <> k -> g (api_keys (nDb n)) !! k' = api_keys (nDb n) !! k') ->
  (forall r', g (api_keys (nDb n)) !! k = Some r' -> key_hash r' = key_hash r) ->
  almost (fun x => True /\ x <> SlHash (key_hash r) /\ x <> SlID k) (setDb (setKeys g (nDb n)) n').
Proof.
  intros Hc Es Hd Hr Hok Hg Hh. eapply almost_svc; [done|done|done|done|]. intros sl v _ (_ & N1 & N2) _.
  apply fits_keys with (k := k); [apply Hc|done|done| |done].
  intros h -> r0 Er0. split; intros E.
  - rewrite Hr in E. injection E as ->. congruence.
  - apply Hh in E. congruence.
Qed.

Lemma hashTaken_self d k r : dbOk d -> api_keys d !! k = Some r -> hashTaken d k (key_hash r) = false.
Proof.
  intros [_ Hu] Hr. apply bool_decide_eq_false. intros (k' & r' & H1 & H2 & H3). by apply H2, (Hu k' k r' r).
Qed.

(** An UPDATE of the row of [k] that keeps its hash. *)
Lemma updateKey_same d k f r : dbOk d -> api_keys d !! k = Some r -> (forall x, key_hash (f x) = key_hash x) ->
  updateKey k f d = inl (setKeys (<[k := f r]>) d, 1) /\ dbOk (setKeys (<[k := f r]>) d).
Proof.
  intros Hok Hr Hf. unfold updateKey. rewrite Hr, Hf, (hashTaken_self d k r Hok Hr). split; [done|].
  apply dbOk_insert; [done|by eapply Hok|rewrite Hf; by eapply Hok|rewrite Hf; by apply hashTaken_self].
Qed.

(** What a key mutation leaves: its hash and id were named to the peers. *)
Definition told (n : node) (k : string) {A} (r : A + opErr) (n' : node) : Prop :=
  match r with
  | inl _ => exists row, api_keys (nDb n) !! k = Some row /\
      (sSink (nSvc n) = true -> Invalidation (key_hash row) k ∈ sFanOut (nSvc n'))
  | inr _ => True
  end.

Lemma keyHash_spec k Q n : definite n ->
  (forall r n', api_keys (nDb n) !! k = Some r -> later n n' -> Q (inl (key_hash r)) n') ->
  (forall e n', later n n' -> Q (inr e) n') -> wp (keyHashByID k) Q n.
Proof.
  intros Hd H1 H2. unfold keyHashByID. apply wp_bind, wp_queryRow; [done|..].
  - intros h n' Hh Hl. apply wp_ret. unfold sqlSelectKeyHashByID in Hh. apply fmap_Some in Hh as (r & Hr & ->). by apply H1.
  - intros n' _ Hl. apply wp_ret. by apply H2.
  - intros e n' He Hl. apply wp_ret. rewrite He. by apply H2.
Qed.

Lemma later_trans n1 n2 n3 : later n1 n2 -> later n2 n3 -> later n1 n3.
Proof. intros (A1 & A2 & A3 & A4) (B1 & B2 & B3 & B4). repeat split; congruence || done. Qed.

Definition setEnabledRow (b : bool) (x : keyRow) : keyRow :=
  KeyRow (key_hash x) (krTenant x) (krName x) (krModels x) (krRPS x) (krBurst x) (krTPM x) (krCreatedAt x) (krExpiresAt x)
    b (krClientOp x) (krFirstUsed x) (krClass x).

Lemma revoke_spec k n : coherent n -> definite n ->
  wp (RevokeAPIKey k) (fun r n' => told n k r n' /\
    wrote n (fun d => exists row, api_keys (nDb n) !! k = Some row /\ d = setKeys (<[k := setEnabledRow false row]>) (nDb n)) r n') n.
Proof.
  intros Hc Hd. unfold RevokeAPIKey. apply wp_try, wp_store; [intros _|done].
  apply wp_try, keyHash_spec; [done| |intros; split; [done|by apply wrote_err]].
  intros r n1 Hr Hl1. pose proof Hl1 as (Es1 & Ed1 & En1 & Hd1).
  apply wp_try, wp_write; [done| |intros e n2 Hl2; split; [done|apply wrote_err; [done|by eapply later_trans]]].
  intros c d n2 Hx Hl2. rewrite Ed1 in Hx. unfold sqlUpdateAPIKeyEnabled in Hx.
  set (f := setEnabledRow false). change (updateKey k f (nDb n) = inl (d, c)) in Hx.
  destruct (updateKey_same (nDb n) k f r) as [E Hok]; [apply Hc|done|done|].
  rewrite E in Hx. injection Hx as <- _. destruct Hc as (C1 & C2 & C3). destruct (proj1 C1 k r Hr) as [Hk Hh].
  apply wp_bind, (wp_fanOut (fun _ => True)); [done|done|..].
  - apply (almost_key n n2 (<[k := f r]>) k r); [done|by destruct Hl2 as (-> & _)|apply Hl2|done|done|by intros; apply lookup_insert_ne|].
    intros r'. rewrite lookup_insert_eq. by intros [= <-].
  - intros n3 H3 E3 Hf. apply wp_ret. destruct Hl2 as (Es2 & _). split; [|apply finish_write; [done|]].
    + exists r. split; [done|]. cbn in Hf. rewrite Es2, Es1 in Hf. intros Hs. rewrite (Hf Hs). left.
    + exists r. by rewrite E3.
Qed.

Lemma deleteKey_spec k n : coherent n -> definite n ->
  wp (DeleteAPIKey k) (fun r n' => told n k r n' /\ wrote n (fun d => d = setKeys (delete k) (nDb n)) r n') n.
Proof.
  intros Hc Hd. unfold DeleteAPIKey. apply wp_try, wp_store; [intros _|done].
  apply wp_try, keyHash_spec; [done| |intros; split; [done|by apply wrote_err]].
  intros r n1 Hr Hl1. pose proof Hl1 as (Es1 & Ed1 & En1 & Hd1).
  apply wp_try, wp_write; [done| |intros e n2 Hl2; split; [done|apply wrote_err; [done|by eapply later_trans]]].
  intros c d n2 Hx Hl2. rewrite Ed1 in Hx. unfold sqlDeleteAPIKeyByID in Hx. rewrite Hr in Hx. injection Hx as <- _.
  destruct Hc as (C1 & C2 & C3). destruct (proj1 C1 k r Hr) as [Hk Hh].
  apply wp_bind, (wp_fanOut (fun _ => True)); [done|done|..].
  - apply (almost_key n n2 (delete k) k r); [done|by destruct Hl2 as (-> & _)|apply Hl2|done|by apply dbOk_delete|by intros; apply lookup_delete_ne|].
    intros r'. by rewrite lookup_delete_eq.
  - intros n3 H3 E3 Hf. apply wp_ret. destruct Hl2 as (Es2 & _). split; [|apply finish_write; [done|]].
    + exists r. split; [done|]. cbn in Hf. rewrite Es2, Es1 in Hf. intros Hs. rewrite (Hf Hs). left.
    + by rewrite E3.
Qed.

(** *** Patches *)

(** In a transaction that has so far only rewritten the row of [k]. *)
Definition atRow (n0 : node) (k : string) (r : keyRow) (n : node) : Prop :=
  nSvc n = nSvc n0 /\ definite n /\ nDb n = setKeys (<[k := r]>) (nDb n0).

Lemma patchStep_spec {A} (o : option A) (stmt : A -> Db -> execResult) (g : A -> keyRow -> keyRow) n0 k r0 r Q n :
  (forall a d, stmt a d = updateKey k (g a) d) -> (forall a x, key_hash (g a x) = key_hash x) ->
  dbOk (nDb n0) -> api_keys (nDb n0) !! k = Some r0 -> atRow n0 k r n -> key_hash r = key_hash r0 ->
  (forall n', atRow n0 k (match o with Some a => g a r | None => r end) n' -> Q (inl tt) n') ->
  (forall e n', nSvc n' = nSvc n0 -> definite n' -> Q (inr e) n') -> wp (patchStep o stmt) Q n.
Proof.
  intros Hs Hg Hok Hr0 (Es & Hd & Ed) Hh H1 H2. unfold patchStep. destruct o as [a|]; [|by apply wp_ret, H1].
  assert (dbOk (nDb n)) as Hokn.
  { rewrite Ed. apply dbOk_insert; [done|by eapply Hok|rewrite Hh; by eapply Hok|rewrite Hh; by apply hashTaken_self]. }
  apply wp_try, wp_write; [done| |intros e n' (? & ? & ? & ?); apply H2; [congruence|done]].
  intros c d n' Hx (Es' & Ed' & En' & Hd'). rewrite Hs in Hx.
  destruct (updateKey_same (nDb n) k (g a) r) as [E _]; [done|rewrite Ed; cbn; by rewrite lookup_insert_eq|by intros; apply Hg|].
  rewrite E in Hx. injection Hx as <- _. apply wp_ret, H1. split; [cbn; congruence|]. split; [done|]. cbn.
  rewrite Ed. unfold setKeys. cbn. by rewrite insert_insert_eq.
Qed.

Definition setModelsRow (l : list string) (x : keyRow) : keyRow :=
  KeyRow (key_hash x) (krTenant x) (krName x) (joinList l) (krRPS x) (krBurst x) (krTPM x) (krCreatedAt x) (krExpiresAt x)
    (krEnabled x) (krClientOp x) (krFirstUsed x) (krClass x).
Definition setLimitsRow (rps burst tpm : option Z) (x : keyRow) : keyRow :=
  KeyRow (key_hash x) (krTenant x) (krName x) (krModels x) (default (krRPS x) rps) (default (krBurst x) burst)
    (default (krTPM x) tpm) (krCreatedAt x) (krExpiresAt x) (krEnabled x) (krClientOp x) (krFirstUsed x) (krClass x).

(** The row a patch asks for, field by field. *)
Definition patchRow (patch : ApiKeyPatch) (args : patchArgs) (r : keyRow) : keyRow :=
  KeyRow (key_hash r) (krTenant r) (krName r) (default (krModels r) (joinList <$> pAllowedModels patch))
    (default (krRPS r) (pRateLimitRPS patch)) (default (krBurst r) (pBurstSize patch)) (default (krTPM r) (pTokensPerMin patch))
    (krCreatedAt r) (krExpiresAt r) (default (krEnabled r) (pEnabled patch)) (krClientOp r) (krFirstUsed r)
    (if classPatchIsZero (pClass patch) then krClass r else coalesceClass args (krClass r)).

Lemma patchBody_spec k patch args Q n : dbOk (nDb n) -> definite n ->
  (forall r n', api_keys (nDb n) !! k = Some r -> atRow n k (patchRow patch args r) n' -> Q (inl (key_hash r)) n') ->
  (forall e n', nSvc n' = nSvc n -> definite n' -> Q (inr e) n') -> wp (patchBody k patch args) Q n.
Proof.
  intros Hok Hd H1 H2. unfold patchBody.
  apply wp_try, keyHash_spec; [done| |intros e n' (? & ? & ? & ?); by apply H2].
  intros r n0 Hr (Es & Ed & En & Hd0).
  assert (atRow n k r n0) as A0.
  { split; [done|]. split; [done|]. rewrite Ed. destruct (nDb n). unfold setKeys. cbn in *. by rewrite insert_id. }
  apply wp_try; eapply (patchStep_spec _ _ setModelsRow n k r r); try done. intros n1 A1.
  apply wp_try; eapply (patchStep_spec _ _ setEnabledRow n k r); [done|done|done|done|exact A1|by destruct (pAllowedModels patch)| |done]. intros n2 A2.
  apply wp_try; eapply (patchStep_spec _ _ (fun v => setLimitsRow (Some v) None None) n k r);
    [done|done|done|done|exact A2|by destruct (pAllowedModels patch), (pEnabled patch)| |done]. intros n3 A3.
  apply wp_try; eapply (patchStep_spec _ _ (fun v => setLimitsRow None (Some v) None) n k r);
    [done|done|done|done|exact A3|by destruct (pAllowedModels patch), (pEnabled patch), (pRateLimitRPS patch)| |done]. intros n4 A4.
  apply wp_try; eapply (patchStep_spec _ _ (fun v => setLimitsRow None None (Some v)) n k r);
    [done|done|done|done|exact A4|by destruct (pAllowedModels patch), (pEnabled patch), (pRateLimitRPS patch), (pBurstSize patch)| |done].
  intros n5 A5.
  apply wp_try; eapply (patchStep_spec _ _ (fun _ => setKeyClass (coalesceClass args)) n k r);
    [done|done|done|done|exact A5|by destruct (pAllowedModels patch), (pEnabled patch), (pRateLimitRPS patch), (pBurstSize patch), (pTokensPerMin patch)| |done].
  intros n6 A6. apply wp_ret, H1; [done|].
  destruct A6 as (E1 & E2 & E3). split; [done|]. split; [done|]. rewrite E3. f_equal. f_equal. unfold patchRow.
  by destruct r, (classPatchIsZero (pClass patch)), (pAllowedModels patch), (pEnabled patch), (pRateLimitRPS patch),
    (pBurstSize patch), (pTokensPerMin patch).
Qed.

Lemma patch_spec k patch n : coherent n -> definite n ->
  wp (PatchAPIKeyAll k patch) (fun r n' => (patchIsZero patch = false -> told n k r n') /\
    wrote n (fun d => patchIsZero patch = true \/ exists row args, api_keys (nDb n) !! k = Some row /\
       classPatchArgs (pClass patch) = inl args /\ d = setKeys (<[k := patchRow patch args row]>) (nDb n)) r n') n.
Proof.
  intros Hc Hd. unfold PatchAPIKeyAll. destruct (patchIsZero patch) eqn:Hz.
  { apply wp_ret. split; [done|]. split; [done|]. split; [done|by left]. }
  apply wp_try, wp_guard; [intros _|done]. destruct (classPatchArgs (pClass patch)) as [args|[f]] eqn:Ha; [|done].
  apply wp_try, wp_store; [intros _|done]. apply wp_try, wp_inTx; [done|intros; split; [done|by apply wrote_err]|].
  intros n0 (Es & Ed & En & Hd0).
  assert (forall e n2, nSvc n2 = nSvc n -> nDb n2 = nDb n -> definite n2 ->
    wrote n (fun d => false = true \/ exists row args0, api_keys (nDb n) !! k = Some row /\
       inl args = inl (B := validationError) args0 /\ d = setKeys (<[k := patchRow patch args0 row]>) (nDb n)) (inr (A := unit) e) n2) as Herr.
  { intros e n2 F1 F2 F3. split; [by eapply coherent_same|done]. }
  apply patchBody_spec; [rewrite Ed; apply Hc|done| |].
  2:{ intros e n1 E1 E2. split; [done|]. split; [done|]. apply Herr; cbn; congruence || done. }
  intros r n1 Hr (E1 & E2 & E3). rewrite Ed in Hr, E3. split; [done|]. split.
  2:{ intros e n2 F1 F2 F3 F4. split; [done|]. apply Herr; congruence || done. }
  intros n2 (F1 & F2 & F3 & F4). destruct Hc as (C1 & C2 & C3). destruct (proj1 C1 k r Hr) as [Hk Hh].
  assert (n2 = setDb (setKeys (<[k := patchRow patch args r]>) (nDb n)) n2) as En2.
  { rewrite <- E3, <- F2. by destruct n2. }
  apply wp_bind, (wp_fanOut (fun _ => True)); [done|done|..].
  - assert (almost (fun x => True /\ x <> SlHash (key_hash r) /\ x <> SlID k)
      (setDb (setKeys (<[k := patchRow patch args r]>) (nDb n)) n2)) as Hal.
    { apply (almost_key n n2 (<[k := patchRow patch args r]>) k r); [done|congruence|done|done| |by intros; apply lookup_insert_ne|].
      - apply dbOk_insert; [done|done|done|exact (hashTaken_self (nDb n) k r C1 Hr)].
      - intros r'. rewrite lookup_insert_eq. by intros [= <-]. }
    by rewrite En2.
  - intros n3 H3 E4 Hf.
    assert (told n k (inl (B := opErr) tt) n3) as Ht.
    { exists r. split; [done|]. rewrite F1, E1, Es in Hf. intros Hs. rewrite (Hf Hs). left. }
    assert (nDb n3 = setKeys (<[k := patchRow patch args r]>) (nDb n)) as Edone by congruence.
    apply wp_bind. destruct (classPatchIsZero (pClass patch)).
    + apply wp_ret, wp_ret. split; [done|]. apply finish_write; [done|]. right. eauto.
    + apply wp_refresh_after; [done|]. intros n4 H4 E5 E6. apply wp_ret. split; [intros _; unfold told; by rewrite E6|].
      apply finish_write; [done|]. right. exists r, args. by rewrite E5.
Qed.

(** *** Creates *)

(** The key material of a create: supplied, or minted from the secret drawn. *)
Definition rawOf (entry : ApiKeyEntry) (secret : string) : string :=
  if eApiKey entry ==s "" then apiKeyPrefix +:+ secret else eApiKey entry.
Definition returnedOf (entry : ApiKeyEntry) (secret : string) : string :=
  if eApiKey entry ==s "" then rawOf entry secret else "".

(** No row holds the hash of the new material, and the identifiers are not empty. *)
Definition freshMaterial (entry : ApiKeyEntry) (keyID secret : string) (d : Db) : Prop :=
  keyID <> "" /\ hashKey (rawOf entry secret) <> "" /\
  forall k r, api_keys d !! k = Some r -> key_hash r <> hashKey (rawOf entry secret).

Definition createdRow (entry : ApiKeyEntry) (class : AIClassPolicy) (h : string) (now : Z) : keyRow :=
  setKeyClass (fun _ => if policyIsZero class then noCols else storeClass class) (newKeyRow entry h now).

Definition rotatedRow (h : string) (now : Z) (r : keyRow) : keyRow :=
  KeyRow h (krTenant r) (krName r) (krModels r) (krRPS r) (krBurst r) (krTPM r)
    now (krExpiresAt r) (krEnabled r) (krClientOp r) (krFirstUsed r) (krClass r).

Definition noHash (d : Db) (h : string) : Prop := forall k r, api_keys d !! k = Some r -> key_hash r <> h.

Lemma noHash_taken d h k : noHash d h -> hashTaken d k h = false.
Proof. intros H. apply bool_decide_eq_false. intros (k' & r' & H1 & _ & H3). by apply (H k' r'). Qed.

(** What the transaction wrote. *)
Definition createdIn (entry : ApiKeyEntry) (class : AIClassPolicy) (keyID h ret : string) (now : Z) (d : Db)
  (out : ApiKeyCreated * option string) (d' : Db) : Prop :=
  (out = (KeyCreated ret keyID false, None) /\ api_keys d !! keyID = None /\
   (eClientOpID entry <> "" -> sqlSelectAPIKeyByClientOp (eTenantID entry) (eClientOpID entry) d = None) /\
   d' = setKeys (<[keyID := createdRow entry class h now]>) d) \/
  (exists k row, sqlSelectAPIKeyByClientOp (eTenantID entry) (eClientOpID entry) d = Some (k, row) /\
     krFirstUsed row = None /\ out = (KeyCreated ret k true, Some (key_hash row)) /\
     d' = setKeys (<[k := rotatedRow h now row]>) d).

(** The body of the create left its result, or an error with the service as it
    was; [d0] are the tables the transaction began with. *)
Definition bodyPost (s0 : Service) (P : ApiKeyCreated * option string -> Db -> Prop)
  (r : ApiKeyCreated * option string + opErr) (n' : node) : Prop :=
  nSvc n' = s0 /\ definite n' /\ match r with inl out => P out (nDb n') | inr _ => True end.

Lemma insertKey_spec entry class keyID h ret now n : definite n -> dbOk (nDb n) -> h <> "" -> keyID <> "" ->
  noHash (nDb n) h ->
  wp (insertKey entry class keyID h ret now)
    (bodyPost (nSvc n) (fun out d' => out = (KeyCreated ret keyID false, None) /\ api_keys (nDb n) !! keyID = None /\
       d' = setKeys (<[keyID := createdRow entry class h now]>) (nDb n))) n.
Proof.
  intros Hd Hok Hh Hk Hfresh. unfold insertKey.
  apply wp_bind, wp_exec; [done| |intros e n' (? & ? & ? & ?); by apply wp_ret].
  intros c d n' Hx (Es & Ed & En & Hd'). unfold sqlInsertAPIKey in Hx.
  destruct (api_keys (nDb n) !! keyID) eqn:Hnew; [done|].
  destruct (hashTaken _ _ _); [done|]. destruct (clientOpTaken _ _ _); [done|]. injection Hx as <- <-.
  destruct (policyIsZero class) eqn:Hz.
  { apply wp_ret. split; [done|]. split; [done|]. split; [done|]. split; [done|].
    unfold createdRow, setKeyClass. by rewrite Hz. }
  assert (dbOk (setKeys (<[keyID := newKeyRow entry h now]>) (nDb n))) as Hok1
    by (apply dbOk_insert; [done|done|done|by apply noHash_taken]).
  apply wp_try, wp_write; [done| |intros e n2 (? & ? & ? & ?); split; [cbn in *; congruence|done]].
  intros c2 d2 n2 Hx2 (Es2 & Ed2 & En2 & Hd2). cbn in Hx2. unfold sqlUpdateKeyClass in Hx2.
  destruct (updateKey_same (setKeys (<[keyID := newKeyRow entry h now]>) (nDb n)) keyID (setKeyClass (fun _ => storeClass class))
    (newKeyRow entry h now)) as [E _]; [done|cbn; by rewrite lookup_insert_eq|done|].
  rewrite E in Hx2. injection Hx2 as <- _. apply wp_ret. split; [cbn in *; congruence|]. split; [done|].
  split; [done|]. split; [done|]. unfold createdRow, setKeys. cbn. rewrite insert_insert_eq, Hz. done.
Qed.

Lemma createBody_spec entry class keyID h ret now n : definite n -> dbOk (nDb n) -> h <> "" -> keyID <> "" ->
  noHash (nDb n) h ->
  wp (createBody entry class keyID h ret now) (bodyPost (nSvc n) (createdIn entry class keyID h ret now (nDb n))) n.
Proof.
  intros Hd Hok Hh Hk Hfresh. unfold createBody. destruct (String.eqb_spec (eClientOpID entry) "") as [Hop|Hop].
  { eapply wp_mono; [|by apply insertKey_spec]. intros r n' (H1 & H2 & H3). split; [done|]. split; [done|].
    destruct r; [|done]. destruct H3 as (-> & H4 & H5). by left. }
  apply wp_bind, wp_queryRow; [done|..].
  - intros [k row] n1 Hq (Es & Ed & En & Hd1). destruct (krFirstUsed row) eqn:Hf; [by apply wp_ret|].
    assert (api_keys (nDb n) !! k = Some row) as Hrow by by apply findKey_Some in Hq as [? _].
    apply wp_try, wp_write; [done| |intros e n2 (? & ? & ? & ?); split; [congruence|done]].
    intros c d n2 Hx (Es2 & Ed2 & En2 & Hd2). rewrite Ed in Hx. unfold sqlRotateAPIKeyHash, updateKey in Hx.
    rewrite Hrow in Hx. destruct (hashTaken _ _ _); [done|]. injection Hx as <- _.
    apply wp_ret. split; [cbn; congruence|]. split; [done|]. right. exists k, row. done.
  - intros n1 Hq (Es & Ed & En & Hd1). cbn. rewrite <- Es, <- Ed. eapply wp_mono; [|apply insertKey_spec; rewrite ?Ed; done].
    intros r n' (H1 & H2 & H3). split; [done|]. split; [done|]. destruct r; [|done]. destruct H3 as (-> & H4 & H5). left.
    split; [done|]. split; [done|]. split; [by rewrite Ed|done].
  - intros e n1 He (Es & Ed & En & Hd1). rewrite He. by apply wp_ret.
Qed.

(** After an insert nothing held can contradict the new row: its id and hash had
    no row before. *)
Lemma almost_created n n' keyID r : coherent n -> nSvc n' = nSvc n -> definite n' -> keyID <> "" -> key_hash r <> "" ->
  api_keys (nDb n) !! keyID = None -> noHash (nDb n) (key_hash r) ->
  almost (fun _ => True) (setDb (setKeys (<[keyID := r]>) (nDb n)) n').
Proof.
  intros Hc Es Hd Hk Hh Hnew Hno. assert (Hc' := Hc). destruct Hc' as (C1 & _ & _).
  assert (dbOk (setKeys (<[keyID := r]>) (nDb n))) as Hok by (apply dbOk_insert; [done|done|done|by apply noHash_taken]).
  eapply almost_svc; [done|done|done|done|]. intros sl v _ _ _ Hfit.
  destruct (decide (sl = SlID keyID)) as [->|N1]; [destruct Hfit as (x & Hx & _); congruence|].
  destruct (decide (sl = SlHash (key_hash r))) as [->|N2].
  { destruct Hfit as ([k x] & Hx & _). apply findKey_Some in Hx as [Hx [E%String.eqb_eq _]%andb_true_iff]. by apply Hno in Hx. }
  eapply fits_keys with (k := keyID); [done|done|by intros; apply lookup_insert_ne| |done|done].
  intros h -> r0 E. split; [congruence|]. cbn. rewrite lookup_insert_eq. intros [= <-]. congruence.
Qed.

(** After a rotation only the old hash and the id can. *)
Lemma almost_rotated n n' k row h now : coherent n -> nSvc n' = nSvc n -> definite n' -> h <> "" ->
  api_keys (nDb n) !! k = Some row -> noHash (nDb n) h ->
  almost (fun x => True /\ x <> SlHash (key_hash row) /\ x <> SlID k) (setDb (setKeys (<[k := rotatedRow h now row]>) (nDb n)) n').
Proof.
  intros Hc Es Hd Hh Hrow Hno. assert (Hc' := Hc). destruct Hc' as (C1 & _ & _).
  assert (dbOk (setKeys (<[k := rotatedRow h now row]>) (nDb n))) as Hok
    by (apply dbOk_insert; [done|by eapply C1|done|by apply noHash_taken]).
  eapply almost_svc; [done|done|done|done|]. intros sl v _ (_ & N1 & N2) _ Hfit.
  destruct (decide (sl = SlHash h)) as [->|N3].
  { destruct Hfit as ([k' x] & Hx & _). apply findKey_Some in Hx as [Hx [E%String.eqb_eq _]%andb_true_iff]. by apply Hno in Hx. }
  eapply fits_keys with (k := k); [done|done|by intros; apply lookup_insert_ne| |done|done].
  intros h' -> r0 E. split; [rewrite Hrow; intros [= <-]; congruence|]. cbn. rewrite lookup_insert_eq. intros [= <-]. cbn in E. congruence.
Qed.

Definition createPost (entry : ApiKeyEntry) (keyID secret : string) (n : node) (r : ApiKeyCreated + opErr) (n' : node) : Prop :=
  coherent n' /\ definite n' /\
  match r with
  | inl c => exists class rotated, ValidateClassPolicy (eClass entry) = inl class /\
      createdIn entry class keyID (hashKey (rawOf entry secret)) (returnedOf entry secret) (nNow n) (nDb n) (c, rotated) (nDb n')
  | inr _ => nDb n' = nDb n
  end.

Lemma create_spec entry keyID secret n : coherent n -> definite n -> freshMaterial entry keyID secret (nDb n) ->
  wp (CreateKey hashKey entry keyID secret) (createPost entry keyID secret n) n.
Proof.
  intros Hc Hd (Hk & Hh & Hfresh). unfold CreateKey. apply wp_try, wp_guard; [intros _|done].
  destruct (ValidateClassPolicy (eClass entry)) as [class|[f]] eqn:Hclass; [|done].
  apply wp_try, wp_guard; [intros _|done]. apply wp_try, wp_guard; [intros _|done]. apply wp_try, wp_store; [intros _|done].
  assert ((if negb (eApiKey entry ==s "") then eApiKey entry else apiKeyPrefix +:+ secret) = rawOf entry secret) as ->
    by (unfold rawOf; by destruct (_ ==s _)).
  assert ((if negb (eApiKey entry ==s "") then "" else rawOf entry secret) = returnedOf entry secret) as ->
    by (unfold returnedOf; by destruct (_ ==s _)).
  set (h := hashKey (rawOf entry secret)) in *.
  apply wp_bind. unfold wp at 1, modSvc. cbn [fst snd].
  pose proof (kept_negative n (forgetNegative h (sNegative (nSvc n))) Hc Hd) as Hk1.
  set (n1 := setSvc _ n) in *. pose proof Hk1 as (Hc1 & Ed1 & Hd1 & En1 & _).
  apply wp_bind, wp_now, wp_try. rewrite En1.
  assert (forall e n', nSvc n' = nSvc n1 -> nDb n' = nDb n1 -> definite n' -> createPost entry keyID secret n (inr e) n') as Herr.
  { intros e n' F1 F2 F3. split; [by eapply coherent_same|]. split; [done|]. by rewrite F2, Ed1. }
  apply wp_inTx; [done|intros e n' (? & ? & ? & ?); by apply Herr|]. intros n2 (Es2 & Ed2 & En2 & Hd2).
  eapply wp_mono; [|apply createBody_spec; [done|rewrite Ed2, Ed1; apply Hc|done|done|unfold noHash; by rewrite Ed2, Ed1]].
  rewrite Ed2, Ed1, Es2. cbn. intros [[created rotated]|e] n3 (Es3 & Hd3 & Hpost); (split; [done|]); [|by apply Herr].
  change (nSvc n3 = nSvc n1) in Es3.
  split; [|intros e n4 F1 F2 F3 F4; apply Herr; [by rewrite F1, Es3|by rewrite F2, Ed1|done]].
  intros n4 (Es4 & Ed4 & En4 & Hd4).
  assert (n4 = setDb (nDb n3) n4) as En4' by (rewrite <- Ed4; by destruct n4).
  assert (forall n5, almost (fun _ => True) n5 -> nDb n5 = nDb n3 ->
    wp (bindO (if negb (Reused created) && negb (policyIsZero class) then refreshClassesAfterWrite else retO tt) (fun _ => okO created))
      (createPost entry keyID secret n) n5) as Hend.
  { intros n5 H5 E5.
    assert (forall n6, almost (fun _ => True) n6 -> nDb n6 = nDb n5 -> createPost entry keyID secret n (inl created) n6) as Hfin.
    { intros n6 [H6 H6']%almost_all E6. split; [done|]. split; [done|]. exists class, rotated. split; [done|]. by rewrite E6, E5. }
    apply wp_bind. destruct (_ && _); [apply wp_refresh_after; [done|]; intros n6 H6 E6 _; by apply wp_ret, Hfin|by apply wp_ret, wp_ret, Hfin]. }
  apply wp_bind. destruct Hpost as [(E & Hnew & _ & Ed)|(k & row & Hq & Hf & E & Ed)]; injection E as -> ->.
  - apply wp_ret, Hend; [|by rewrite Ed4]. rewrite En4', Ed, <- Ed1. apply almost_created;
      [done|congruence|done|done|done|by rewrite Ed1|unfold noHash; by rewrite Ed1].
  - assert (api_keys (nDb n) !! k = Some row) as Hrow by by apply findKey_Some in Hq as [? _].
    destruct Hc as (C1 & C2 & C3). destruct (proj1 C1 k row Hrow) as [Hk' Hh'].
    destruct (String.eqb_spec (key_hash row) ""); [done|]. destruct (String.eqb_spec (key_hash row) h) as [Eh|Eh];
      [by destruct (Hfresh k row Hrow)|]. cbn [orb].
    apply (wp_fanOut (fun _ => True)); [done|done| |intros n5 H5 E5 _; apply Hend; [done|by rewrite E5, Ed4]].
    rewrite En4', Ed, <- Ed1. apply almost_rotated;
      [done|congruence|done|done|by rewrite Ed1|unfold noHash; by rewrite Ed1].
Qed.
End Writes.
