(* ===== verification/KeyStoreUsers.v ===== *)
(** * KeyStoreUsers: the remaining writes of the key store

    The user limits, whose writers forget the cached model quotas inside the
    transaction, and the writes that change columns no data-path read returns
    (classes, objectives, first use). *)

From S2P Require Import Prelude StoreErr LookupGuard Objective RateLimit RateSync Common Admission Gateway Identity Classes Tables ClassStore GoCache KeyStore KeyStoreLogic KeyStoreWrites.

Open Scope Z_scope.
Open Scope igw_scope.

(** ** Rows a read scans the same *)

Definition sameScan (r r' : keyRow) : Prop :=
  key_hash r' = key_hash r /\ krEnabled r' = krEnabled r /\
  forall k, scanEntry (k, r') = scanEntry (k, r) /\ scanSummary k r' = scanSummary k r.

Lemma fits_sameScan d k r r' sl v : dbOk d -> dbOk (setKeys (<[k := r']>) d) -> api_keys d !! k = Some r -> sameScan r r' ->
  slotFits d sl v -> slotFits (setKeys (<[k := r']>) d) sl v.
Proof.
  intros Hok Hok' Hr (Eh & Ee & Es) H. destruct sl as [h|k'| | | | |]; try exact H.
  - destruct H as ([k0 r0] & Hq & ->). apply byHash_Some in Hq as (H1 & H2 & H3); [|done].
    destruct (decide (k0 = k)) as [->|Hne].
    + rewrite Hr in H1. injection H1 as <-. exists (k, r'). split; [|by rewrite (proj1 (Es k))].
      apply byHash_Some; [done|]. cbn. rewrite lookup_insert_eq, Eh, Ee. done.
    + exists (k0, r0). split; [|done]. apply byHash_Some; [done|]. cbn. by rewrite lookup_insert_ne.
  - destruct H as (r0 & Hr0 & Hv). destruct (decide (k' = k)) as [->|Hne].
    + rewrite Hr in Hr0. injection Hr0 as <-. exists r'. split; [cbn; by rewrite lookup_insert_eq|].
      by rewrite (proj1 (Es k)), (proj2 (Es k)).
    + exists r0. cbn. by rewrite lookup_insert_ne.
Qed.

(** A tenant row whose limits did not move. *)
Lemma fits_sameTenant d t r sl v :
  (trRPS r, trTPM r, trBurstPct r) = default (0, 0, 0) (sqlSelectTenantRateLimit t d) ->
  slotFits d sl v -> slotFits (setTenants (<[t := r]>) d) sl v.
Proof.
  intros Hr H. destruct (decide (sl = SlTenant t)) as [->|Hne]; [|by apply fits_tenant].
  cbn in *. rewrite H. f_equal. unfold sqlSelectTenantRateLimit in *. cbn. rewrite lookup_insert_eq. cbn.
  destruct (tenant_rate_limits d !! t) as [r0|]; cbn in *; injection Hr as -> -> ->; done.
Qed.

(** ** User rows *)

Lemma fits_user d f t u sl v : (forall k, k <> (t, u) -> f (user_rate_limits d) !! k = user_rate_limits d !! k) ->
  sl <> SlUser t u -> slotFits d sl v -> slotFits (setUsers f d) sl v.
Proof.
  intros Hf Hne H. destruct sl as [h|k|t'|t' m'|t' u'| |]; try exact H. cbn in *. unfold sqlSelectUserRateLimit in *. cbn.
  rewrite Hf; [done|congruence].
Qed.

Lemma fits_userModels d f (P : string * string * string -> Prop) sl v :
  (forall k, P k -> f (user_model_rate_limits d) !! k = user_model_rate_limits d !! k) ->
  (forall t u m, sl = SlUserModel t u m -> P (t, u, m)) -> slotFits d sl v -> slotFits (setUserModels f d) sl v.
Proof.
  intros Hf HP H. destruct sl as [h|k|t'|t' m'|t' u'|t' u' m'|]; try exact H. cbn in *. unfold sqlSelectUserModelRateLimit in *. cbn.
  by rewrite Hf by auto.
Qed.

(** The pair's rows after the DELETE. *)
Lemma dropped_same (t u : string) (m : gmap (string * string * string) Z) (k : string * string * string) : k.1 <> (t, u) ->
  filter (fun p => ofUser t u p.1 = false) m !! k = m !! k.
Proof.
  intros Hk. destruct (m !! k) as [x|] eqn:E; [|apply map_lookup_filter_None; by left].
  apply map_lookup_filter_Some. split; [done|]. by apply bool_decide_eq_false.
Qed.

Lemma dropped_none (t u : string) (m : gmap (string * string * string) Z) (k : string * string * string) : k.1 = (t, u) ->
  filter (fun p => ofUser t u p.1 = false) m !! k = None.
Proof.
  intros Hk. apply map_lookup_filter_None. right. intros x _. unfold ofUser. cbn. by rewrite bool_decide_true.
Qed.

Section Users.
Context {GC : GoCache} {GL : GoCacheLaws GC} (cfg : lookupGuardConfig) (hashKey : string -> string).
#[local] Abbreviation node := (node (GC := GC)).
#[local] Abbreviation Service := (Service (GC := GC)).
#[local] Abbreviation Op := (Op (GC := GC)).

(** The store answers every statement. *)
Definition quiet (n : node) : Prop := Forall (eq Answered) (nScript n).

Lemma quiet_definite n : quiet n -> definite n.
Proof. intros H. eapply Forall_impl; [exact H|]. by intros o <-. Qed.

(** Only the script moved. *)
Definition moved (n n' : node) : Prop := nSvc n' = nSvc n /\ nDb n' = nDb n /\ quiet n'.

Lemma wp_exec_quiet (f : Db -> execResult) d c Q n : quiet n -> f (nDb n) = inl (d, c) ->
  (forall n', moved n n' -> Q (inl c) (setDb d n')) -> wp (writeDb f) Q n.
Proof.
  intros Hq Hf HQ. unfold writeDb. apply wp_bind. unfold wp, execDb, bindO, nextOutcome. destruct (nScript n) as [|o l] eqn:E.
  - cbn. rewrite Hf. cbn. apply HQ. done.
  - unfold quiet in Hq. rewrite E in Hq. inversion_clear Hq as [|? ? <- Hl]. cbn. rewrite Hf. cbn. apply (HQ (Node _ _ l _ _ _ _ _)). done.
Qed.

Lemma wp_query_quiet {A} (f : Db -> A) Q n : quiet n -> (forall n', moved n n' -> Q (inl (f (nDb n))) n') -> wp (queryDb f) Q n.
Proof.
  intros Hq HQ. unfold wp, queryDb, bindO, nextOutcome. destruct (nScript n) as [|o l] eqn:E; [by apply HQ|].
  unfold quiet in Hq. rewrite E in Hq. inversion_clear Hq as [|? ? <- Hl]. cbn. by apply HQ.
Qed.

Lemma wp_inTx_quiet {A} (body : Op (A + opErr)) Q n : quiet n ->
  (forall n', moved n n' -> wp body (fun r n1 => quiet n1 /\
     match r with inl a => forall n2, moved n1 n2 -> Q (inl a) n2 | inr e => Q (inr e) (setDb (nDb n) n1) end) n') ->
  wp (inTx body) Q n.
Proof.
  intros Hq H. unfold wp, inTx, nextOutcome.
  assert (exists n', (match nScript n with [] => (Answered, n) | o :: l => (o, Node (nSvc n) (nDb n) l (nReads n) (nNow n) (nDisk n) (nFile n) (nPending n)) end)
    = (Answered, n') /\ moved n n') as (n' & -> & Hm).
  { destruct (nScript n) as [|o l] eqn:E; [by eexists|]. unfold quiet in Hq. rewrite E in Hq.
    inversion_clear Hq as [|? ? <- Hl]. by eexists. }
  specialize (H n' Hm). unfold wp in H. destruct (body n') as [[a|e] n1] eqn:Eb; cbn [fst snd] in H; destruct H as [Hq1 H].
  - destruct (nScript n1) as [|o l] eqn:E; [by apply H|]. unfold quiet in Hq1. rewrite E in Hq1.
    inversion_clear Hq1 as [|? ? <- Hl]. by apply H.
  - destruct Hm as (_ & E & _). cbn. rewrite E. exact H.
Qed.

(** The loop of forgetUserModelRateLimits, against the tables the transaction is
    about to leave: every slot it clears holds "no limit" there. *)
Definition dropUser (t u : string) (d : Db) : Db := setUserModels (filter (fun p => ofUser t u p.1 = false)) d.

Lemma dropUser_none t u m d : sqlSelectUserModelRateLimit t u m (dropUser t u d) = None.
Proof. by apply dropped_none. Qed.

Definition cohAfter (P : slot -> Prop) (d : Db) (n : node) : Prop := answered (nSvc n) /\ cohOn P (nSvc n) d.

Lemma forget_rows t u d Q : ContainsByte pipe t = false -> ContainsByte pipe u = false ->
  forall (rows : list ModelRateLimit) (P : slot -> Prop) n, quiet n ->
  cohAfter (fun x => P x /\ forall m, m ∈ rows -> x <> SlUserModel t u (mModel m)) (dropUser t u d) n ->
  (forall n', quiet n' -> nDb n' = nDb n -> cohAfter P (dropUser t u d) n' -> Q tt n') ->
  wp ((fix forget (rows : list ModelRateLimit) : Op unit :=
         match rows with
         | [] => retO tt
         | m :: rows =>
             bindO (rememberUserRateLimit (cacheKeyForUserModel t u (mModel m)) noUserLimit) (fun _ =>
             bindO (cacheDeleteO (cacheKeyForUserModel t u (mModel m))) (fun _ => forget rows))
         end) rows) Q n.
Proof.
  intros Ht Hu. induction rows as [|m rows IH]; intros P n Hq [Ha Hc] HQ.
  { apply wp_ret, HQ; [done|done|]. split; [done|]. eapply cohOn_mono; [|exact Hc]. intros sl HP. split; [done|].
    intros m Hm. by apply not_elem_of_nil in Hm. }
  apply wp_bind. unfold wp at 1, rememberUserRateLimit, remember, bindO, cacheSetO, modSvc. cbn [fst snd].
  apply wp_bind. unfold wp at 1, cacheDeleteO, modSvc. cbn [fst snd]. apply (IH P); [done| |done].
  split; [done|]. cbn [nSvc setSvc]. apply cohOn_delete.
  apply (cohOn_remember _ _ _ (SlUserModel t u (mModel m))); [|done|].
  - eapply cohOn_mono; [|exact Hc]. intros sl [[HP H1] H2]. split; [done|]. intros m' [->|Hm]%elem_of_cons; [done|by apply H1].
  - intros _. unfold slotFits. by rewrite dropUser_none.
Qed.

Lemma model_row_listed t u m d : (exists v, sqlSelectUserModelRateLimit t u m d = Some v) ->
  exists x, x ∈ sqlSelectUserModelRateLimits t u d /\ mModel x = m.
Proof.
  intros [v Hv]. exists (ModelLimit m v). split; [|done]. unfold sqlSelectUserModelRateLimits.
  rewrite merge_sort_Permutation. apply list_elem_of_fmap. exists ((t, u, m), v). split; [done|].
  apply list_elem_of_filter. split; [unfold ofUser; cbn; by rewrite bool_decide_true|]. by apply elem_of_map_to_list.
Qed.

(** Forgetting makes what is held agree with the tables after the DELETE. *)
Lemma forget_spec t u P Q n : ContainsByte pipe t = false -> ContainsByte pipe u = false -> quiet n -> answered (nSvc n) ->
  cohOn P (nSvc n) (nDb n) ->
  (forall n', quiet n' -> nDb n' = nDb n -> cohAfter P (dropUser t u (nDb n)) n' -> Q tt n') ->
  wp (forgetUserModelRateLimits t u) Q n.
Proof.
  intros Ht Hu Hq Ha Hc HQ. unfold forgetUserModelRateLimits. apply wp_bind, wp_query_quiet; [done|].
  intros n' (Es & Ed & Hq'). apply (forget_rows t u (nDb n) Q Ht Hu _ P); [done| |intros; apply HQ; congruence || done].
  split; [unfold answered; by rewrite Es|]. rewrite Es.
  eapply cohOn_db; [eapply cohOn_mono; [|exact Hc]; by intros sl [? _]|]. intros sl v Hok [HP Hrows] _ Hfit.
  destruct sl as [h|k|t'|t' m'|t' u'|t' u' m'|]; try exact Hfit. cbn in *. unfold sqlSelectUserModelRateLimit in *. cbn.
  destruct (decide ((t', u') = (t, u))) as [[= -> ->]|Hne]; [|by rewrite dropped_same].
  rewrite dropped_none by done. destruct (user_model_rate_limits (nDb n) !! (t, u, m')) as [x|] eqn:E; [|done].
  destruct (model_row_listed t u m' (nDb n)) as (y & Hy & Em); [by exists x|]. exfalso. apply (Hrows y Hy). by rewrite Em.
Qed.
(** *** The rows of an entry *)

Definition userStmt (t u : string) (m : ModelRateLimit) (d : Db) : Db :=
  if mTokensPerMin m <=? 0 then d else setUserModels (<[(t, u, mModel m) := mTokensPerMin m]>) d.
Definition userStmts (t u : string) (ml : list ModelRateLimit) (d : Db) : Db := foldl (fun d m => userStmt t u m d) d ml.

(** The quota an entry names for a model; zero is "no quota". *)
Definition limitNamed (m : string) (ml : list ModelRateLimit) : Z :=
  match find (fun x => mModel x ==s m) ml with Some x => Z.max 0 (mTokensPerMin x) | None => 0 end.

Definition modelQuota (t u m : string) (d : Db) : Z := default 0 (sqlSelectUserModelRateLimit t u m d).

Lemma userStmts_keys t u ml d : setUserModels (fun _ => ∅) (userStmts t u ml d) = setUserModels (fun _ => ∅) d.
Proof.
  revert d. induction ml as [|m ml IH]; intros d; [done|]. cbn [userStmts foldl]. fold (userStmts t u ml (userStmt t u m d)).
  rewrite IH. unfold userStmt. by destruct (_ <=? 0).
Qed.

Lemma userStmts_other t u ml d t' u' m : ((t', u') = (t, u) -> forall x, x ∈ ml -> mModel x <> m) ->
  sqlSelectUserModelRateLimit t' u' m (userStmts t u ml d) = sqlSelectUserModelRateLimit t' u' m d.
Proof.
  revert d. induction ml as [|x ml IH]; intros d H; [done|]. cbn [userStmts foldl]. fold (userStmts t u ml (userStmt t u x d)).
  rewrite IH by (intros E y Hy; apply H; [done|by right]). unfold userStmt. destruct (_ <=? 0); [done|].
  apply lookup_insert_ne. intros [= E1 E2 E3]. apply (H ltac:(congruence) x); [left|done].
Qed.

Lemma userStmts_quota t u ml d m : NoDup (mModel <$> ml) -> modelQuota t u m d = 0 ->
  modelQuota t u m (userStmts t u ml d) = limitNamed m ml.
Proof.
  revert d. induction ml as [|x ml IH]; intros d Hnd H0; [done|]. cbn [userStmts foldl]. fold (userStmts t u ml (userStmt t u x d)).
  apply NoDup_cons in Hnd as [Hx Hnd]. unfold limitNamed. cbn [find]. destruct (String.eqb_spec (mModel x) m) as [<-|Hne].
  - unfold modelQuota. rewrite userStmts_other by (intros _ y Hy E; apply Hx, list_elem_of_fmap; by exists y).
    unfold userStmt, modelQuota in *. destruct (Z.leb_spec (mTokensPerMin x) 0); [rewrite H0; lia|].
    unfold sqlSelectUserModelRateLimit. cbn. rewrite lookup_insert_eq. cbn. lia.
  - apply IH; [done|]. unfold modelQuota. unfold userStmt. destruct (_ <=? 0); [done|].
    unfold sqlSelectUserModelRateLimit. cbn. rewrite lookup_insert_ne by congruence. exact H0.
Qed.

Lemma fits_userStmts t u ml d sl v : (forall m, m ∈ ml -> sl <> SlUserModel t u (mModel m)) ->
  slotFits d sl v -> slotFits (userStmts t u ml d) sl v.
Proof.
  revert d. induction ml as [|m ml IH]; intros d Hne H; [done|]. cbn [userStmts foldl]. fold (userStmts t u ml (userStmt t u m d)).
  apply IH; [intros m' Hm'; apply Hne; by right|]. unfold userStmt. destruct (_ <=? 0); [done|].
  apply fits_userModels with (P := fun k => k <> (t, u, mModel m)); [|intros t' u' m' -> [= -> -> ->]; by apply (Hne m); [left|]|done].
  intros k Hk. by apply lookup_insert_ne.
Qed.

Lemma dbOk_keys d d' : api_keys d' = api_keys d -> dbOk d -> dbOk d'.
Proof. intros E [H1 H2]. unfold dbOk. by rewrite E. Qed.

Lemma userModelStmts_spec t u ml Q n : quiet n ->
  (forall n', quiet n' -> nSvc n' = nSvc n -> nDb n' = userStmts t u ml (nDb n) -> Q (inl tt) n') ->
  wp (userModelStmts t u ml) Q n.
Proof.
  revert n. induction ml as [|m ml IH]; intros n Hq HQ; cbn [userModelStmts]; [by apply wp_ret, HQ|].
  cbn [userStmts foldl] in HQ. fold (userStmts t u ml (userStmt t u m (nDb n))) in HQ. unfold userStmt in HQ.
  destruct (mTokensPerMin m <=? 0); [by apply IH|].
  apply wp_try. eapply wp_exec_quiet; [done|reflexivity|]. intros n' (Es & Ed & Hq'). apply IH; [done|].
  intros n2 H2 E2 D2. apply HQ; [done|by rewrite E2|done].
Qed.

Lemma userModelCaches_spec t u (ml : list ModelRateLimit) Q : ContainsByte pipe t = false -> ContainsByte pipe u = false ->
  forall n, almost (fun x => forall m, m ∈ ml -> x <> SlUserModel t u (mModel m)) n ->
  (forall m, m ∈ ml -> modelQuota t u (mModel m) (nDb n) = Z.max 0 (mTokensPerMin m)) ->
  (forall n', almost (fun _ => True) n' -> nDb n' = nDb n -> Q tt n') -> wp (userModelCaches t u ml) Q n.
Proof.
  intros Ht Hu. induction ml as [|m ml IH]; intros n Ha Hv HQ; cbn [userModelCaches].
  { apply wp_ret, HQ; [|done]. destruct Ha as (H1 & H2 & H3 & H4). split; [done|]. split; [done|]. split; [|done].
    eapply cohOn_mono; [|exact H3]. intros sl _ x Hx. by apply not_elem_of_nil in Hx. }
  apply wp_bind. apply (wp_remember_after (fun x => forall m', m' ∈ ml -> x <> SlUserModel t u (mModel m')) (SlUserModel t u (mModel m))).
  - destruct Ha as (H1 & H2 & H3 & H4). split; [done|]. split; [done|]. split; [|done]. eapply cohOn_mono; [|exact H3].
    intros sl [H5 H6] m' [->|Hm]%elem_of_cons; [done|by apply H5].
  - done.
  - intros _. unfold slotFits. fold (modelQuota t u (mModel m) (nDb n)). rewrite Hv by left.
    destruct (Z.leb_spec (mTokensPerMin m) 0); [by replace (Z.max 0 (mTokensPerMin m)) with 0 by lia|].
    by replace (Z.max 0 (mTokensPerMin m)) with (mTokensPerMin m) by lia.
  - intros n' Ha' Ed. apply IH; [done|intros m' Hm'; rewrite Ed; apply Hv; by right|intros n2 H2 E2; apply HQ; [done|by rewrite E2]].
Qed.

Lemma limitNamed_elem ml m : NoDup (mModel <$> ml) -> m ∈ ml -> limitNamed (mModel m) ml = Z.max 0 (mTokensPerMin m).
Proof.
  induction ml as [|x ml IH]; [by intros _ ?%not_elem_of_nil|]. intros [Hx Hnd]%NoDup_cons [->|Hm]%elem_of_cons; unfold limitNamed; cbn [find].
  - by rewrite String.eqb_refl.
  - destruct (String.eqb_spec (mModel x) (mModel m)) as [E|]; [|by apply IH].
    exfalso. apply Hx, list_elem_of_fmap. by exists m.
Qed.

(** ** SetUserRateLimit and DeleteUserRateLimit *)

(** The tables with exactly the rows an entry names for its pair. *)
Definition userWritten (e : UserRateLimitEntry) (d : Db) : Db :=
  let '(UserEntry t u rps burst tpm ml) := e in
  userStmts t u ml (dropUser t u (setUsers (<[(t, u) := UserRow rps burst tpm]>) d)).
Definition userDropped (t u : string) (d : Db) : Db := dropUser t u (setUsers (delete (t, u)) d).

Lemma setUser_spec e n : coherent n -> quiet n -> NoDup (mModel <$> uModelLimits e) ->
  wp (SetUserRateLimit e) (wrote n (fun d => d = userWritten e (nDb n))) n.
Proof.
  intros Hc Hq Hnd. pose proof (quiet_definite n Hq) as Hd. unfold SetUserRateLimit. destruct e as [t u rps burst tpm ml].
  cbn [uTenantID uUserID uRPS uBurstSize uTokensPerMin uModelLimits] in *.
  apply wp_try, wp_guard; [intros Ht|done]. apply wp_try, wp_guard; [intros Hu|done].
  do 2 (apply wp_try, wp_guard; [intros _|done]). destruct (userModelCheck ml) as [f|]; [done|].
  apply wp_try, wp_guard; [intros _|done]. apply wp_try, wp_store; [intros _|done]. apply valid_pipe in Ht, Hu.
  apply wp_try, wp_inTx_quiet; [done|]. intros n0 (Es & Ed & Hq0). destruct Hc as (C1 & C2 & C3).
  apply wp_try. eapply wp_exec_quiet; [done|reflexivity|]. intros n1 (Es1 & Ed1 & Hq1).
  set (d1 := setUsers (<[(t, u) := UserRow rps burst tpm]>) (nDb n0)).
  assert (dbOk d1) as Hok1 by (subst d1; rewrite Ed; exact C1).
  apply wp_bind, (forget_spec t u (fun x => x <> SlUser t u)); [done|done|done|unfold answered; cbn; by rewrite Es1, Es| |].
  { cbn [nSvc nDb setDb]. rewrite Es1, Es. eapply cohOn_db; [eapply cohOn_mono; [|exact C3]; done|]. intros sl v _ Hne _ Hf.
    unfold d1. rewrite Ed.
    apply fits_user with (t := t) (u := u); [|done|done]. intros k Hk. by apply lookup_insert_ne. }
  intros n2 Hq2 Ed2 [Ha2 Hc2]. cbn [nDb setDb] in Ed2, Hc2. fold d1 in Ed2, Hc2.
  apply wp_try. eapply wp_exec_quiet; [done|reflexivity|]. intros n3 (Es3 & Ed3 & Hq3). rewrite Ed2.
  fold (dropUser t u d1). apply userModelStmts_spec; [done|]. intros n4 Hq4 Es4 Ed4. cbn [nDb nSvc setDb] in Es4, Ed4.
  split; [done|]. intros n5 (Es5 & Ed5 & Hq5).
  assert (nDb n5 = userStmts t u ml (dropUser t u d1)) as Edb by by rewrite Ed5.
  assert (setUserModels (fun _ => ∅) (nDb n5) = setUserModels (fun _ => ∅) d1) as Ek by (rewrite Edb, userStmts_keys; done).
  assert (forall m, modelQuota t u m (nDb n5) = limitNamed m ml) as Hquota.
  { intros m. rewrite Edb. apply userStmts_quota; [done|]. unfold modelQuota. by rewrite dropUser_none. }
  assert (sqlSelectUserRateLimit t u (nDb n5) = Some (UserRow rps burst tpm)) as Hrow.
  { unfold sqlSelectUserRateLimit. apply (f_equal user_rate_limits) in Ek. cbn in Ek. rewrite Ek. by rewrite lookup_insert_eq. }
  apply wp_bind, (wp_remember_after (fun x => forall m, m ∈ ml -> x <> SlUserModel t u (mModel m)) (SlUser t u)).
  - split; [apply (dbOk_keys d1); [by apply (f_equal api_keys) in Ek|done]|]. split; [unfold answered; by rewrite Es5, Es4, Es3|].
    split; [|by apply quiet_definite]. rewrite Es5, Es4, Es3, Edb.
    eapply cohOn_db; [eapply cohOn_mono; [|exact Hc2]; by intros sl [_ ?]|]. intros sl v _ [Hne _] _. by apply fits_userStmts.
  - done.
  - intros _. cbn. by rewrite Hrow.
  - intros n6 Ha6 Ed6. apply wp_bind, (userModelCaches_spec t u ml); [done|done|done| |].
    + intros m Hm. by rewrite Ed6, Hquota, limitNamed_elem.
    + intros n7 Ha7 Ed7. apply wp_ret, finish_write; [done|]. rewrite Ed7, Ed6, Edb. unfold d1. by rewrite Ed.
Qed.

Lemma deleteUser_spec t u n : coherent n -> quiet n -> ContainsByte pipe t = false -> ContainsByte pipe u = false ->
  wp (DeleteUserRateLimit t u) (wrote n (fun d => d = userDropped t u (nDb n))) n.
Proof.
  intros Hc Hq Ht Hu. pose proof (quiet_definite n Hq) as Hd. unfold DeleteUserRateLimit.
  apply wp_try, wp_store; [intros _|done].
  apply wp_try, wp_inTx_quiet; [done|]. intros n0 (Es & Ed & Hq0). destruct Hc as (C1 & C2 & C3).
  apply wp_try. eapply wp_exec_quiet; [done|reflexivity|]. intros n1 (Es1 & Ed1 & Hq1).
  destruct (user_rate_limits (nDb n0) !! (t, u)) as [r|] eqn:Er; cbn [Z.eqb].
  2:{ apply wp_ret. split; [done|]. split; [|split; [by apply quiet_definite|done]].
      apply (coherent_same n); [done|cbn; by rewrite Es1, Es|done]. }
  set (d1 := setUsers (delete (t, u)) (nDb n0)).
  assert (dbOk d1) as Hok1 by (subst d1; rewrite Ed; exact C1).
  apply wp_bind, (forget_spec t u (fun x => x <> SlUser t u)); [done|done|done|unfold answered; cbn; by rewrite Es1, Es| |].
  { cbn [nSvc nDb setDb]. rewrite Es1, Es. eapply cohOn_db; [eapply cohOn_mono; [|exact C3]; done|]. intros sl v _ Hne _ Hf.
    unfold d1. rewrite Ed.
    apply fits_user with (t := t) (u := u); [|done|done]. intros k Hk. by apply lookup_delete_ne. }
  intros n2 Hq2 Ed2 [Ha2 Hc2]. cbn [nDb setDb] in Ed2, Hc2. fold d1 in Ed2, Hc2.
  apply wp_try. eapply wp_exec_quiet; [done|reflexivity|]. intros n3 (Es3 & Ed3 & Hq3). rewrite Ed2.
  fold (dropUser t u d1). apply wp_ret. split; [done|]. intros n5 (Es5 & Ed5 & Hq5). cbn [nDb nSvc setDb] in Es5, Ed5.
  assert (sqlSelectUserRateLimit t u (nDb n5) = None) as Hrow by (rewrite Ed5; cbn; by apply lookup_delete_eq).
  apply wp_bind, (wp_remember_after (fun _ => True) (SlUser t u)).
  - split; [by rewrite Ed5|]. split; [unfold answered; by rewrite Es5, Es3|]. split; [|by apply quiet_definite].
    rewrite Es5, Es3, Ed5. eapply cohOn_mono; [|exact Hc2]. by intros sl [_ ?].
  - done.
  - intros _. cbn. by rewrite Hrow.
  - intros n6 Ha6 Ed6. apply wp_bind, (wp_cacheDelete (fun _ => True)); [done|]. intros n7 Ha7 Ed7.
    apply wp_ret, finish_write; [done|]. rewrite Ed7, Ed6, Ed5. unfold d1. by rewrite Ed.
Qed.

(** ** Writes no data-path read can see *)

Definition inert (f : Db -> execResult) : Prop := forall d d' c, dbOk d -> f d = inl (d', c) ->
  dbOk d' /\ forall sl v, slotFits d sl v -> slotFits d' sl v.

Lemma inert_updateKey k g : (forall r, sameScan r (g r)) -> inert (updateKey k g).
Proof.
  intros Hg d d' c Hok H. destruct (api_keys d !! k) as [r|] eqn:Hr; [|unfold updateKey in H; rewrite Hr in H; by injection H as <- _].
  destruct (updateKey_same d k g r Hok Hr) as [E Hok']; [intros x; apply Hg|]. rewrite E in H. injection H as <- _.
  split; [done|]. intros sl v. by apply (fits_sameScan d k r).
Qed.

Lemma inert_firstUse now k : inert (sqlMarkAPIKeyFirstUse now k).
Proof.
  intros d d' c Hok H. unfold sqlMarkAPIKeyFirstUse in H. destruct (api_keys d !! k) as [r|] eqn:Hr; [|by injection H as <- _].
  destruct (krFirstUsed r); injection H as <- _; [done|].
  assert (dbOk (setKeys (<[k := KeyRow (key_hash r) (krTenant r) (krName r) (krModels r) (krRPS r) (krBurst r) (krTPM r)
    (krCreatedAt r) (krExpiresAt r) (krEnabled r) (krClientOp r) (Some now) (krClass r)]>) d)) as Hok'
    by (destruct (proj1 Hok k r Hr); apply dbOk_insert; [done|done|done|exact (hashTaken_self d k r Hok Hr)]).
  split; [done|]. intros sl v. by apply (fits_sameScan d k r).
Qed.

Lemma inert_keyClass k f : inert (updateKey k (setKeyClass f)).
Proof. by apply inert_updateKey. Qed.

Lemma inert_tenantClass t f now : inert (fun d => inl (setTenants (<[t := setTenantClass now f
  (default (noTenantRow now) (tenant_rate_limits d !! t))]>) d, 1)).
Proof.
  intros d d' c Hok [= <- _]. split; [done|]. intros sl v. apply fits_sameTenant. unfold sqlSelectTenantRateLimit. cbn.
  by destruct (tenant_rate_limits d !! t).
Qed.

Lemma inert_objective n s p now : inert (sqlUpsertObjective n s p now).
Proof. intros d d' c Hok [= <- _]. done. Qed.

Lemma inert_deleteObjective n : inert (sqlDeleteObjective n).
Proof. intros d d' c Hok H. unfold sqlDeleteObjective in H. by destruct (objectives d !! n); injection H as <- _. Qed.

Lemma wp_inert {A} f (done : Db -> Prop) (k : Z -> Op (A + opErr)) n : inert f -> coherent n -> definite n ->
  (forall c d n', f (nDb n) = inl (d, c) -> nDb n' = d -> coherent n' -> definite n' -> wp (k c) (wrote n done) n') ->
  wp (tryO (writeDb f) k) (wrote n done) n.
Proof.
  intros Hf Hc Hd Hk. apply wp_try, wp_write; [done| |intros; by apply wrote_err].
  intros c d n' Hx Hl. destruct (Hf (nDb n) d c) as [Hok Hfit]; [apply Hc|done|].
  assert (almost (fun _ => True) (setDb d n')) as [H1 H2]%almost_all by (eapply almost_setDb; [done|done|done|]; eauto).
  by eapply Hk.
Qed.

Lemma wrote_refresh n n' (done : Db -> Prop) : coherent n' -> definite n' -> done (nDb n') ->
  wp (bindO refreshClassesAfterWrite (fun _ => okO tt)) (wrote n done) n'.
Proof. intros Hc Hd H. apply wp_bind, wp_refresh; [done|done|]. intros n2 (H1 & E & H2 & _). apply wp_ret. split; [done|]. by rewrite E. Qed.

(** A statement that touched no row changed nothing. *)
Lemma wrote_none {A} n n' (done : Db -> Prop) e : coherent n' -> definite n' -> nDb n' = nDb n -> wrote (A := A) n done (inr e) n'.
Proof. done. Qed.

Lemma updateKey_none k g d d' : updateKey k g d = inl (d', 0) -> d' = d.
Proof. unfold updateKey. destruct (api_keys d !! k); [destruct (hashTaken _ _ _)|]; congruence. Qed.

(** The tables a statement leaves. *)
Definition after (f : Db -> execResult) (d d' : Db) : Prop := exists c, f d = inl (d', c).

Lemma setObjective_spec e n : coherent n -> definite n -> wp (SetObjective e)
  (wrote n (fun d => exists e', ValidateObjective e = inl e' /\
     after (sqlUpsertObjective (oName e') (joinList (oServices e')) (oPriority e') (nNow n)) (nDb n) d)) n.
Proof.
  intros Hc Hd. unfold SetObjective. destruct (ValidateObjective e) as [e'|[f]]; [|done].
  apply wp_try, wp_store; [intros _|done]. apply wp_bind, wp_now, wp_inert; [apply inert_objective|done|done|].
  intros c d n' Hx <- Hc' Hd'. apply wrote_refresh; [done|done|]. exists e'. split; [done|]. by exists c.
Qed.

Lemma deleteObjective_spec name n : coherent n -> definite n ->
  wp (DeleteObjective name) (wrote n (after (sqlDeleteObjective name) (nDb n))) n.
Proof.
  intros Hc Hd. unfold DeleteObjective. apply wp_try, wp_store; [intros _|done].
  apply wp_inert; [apply inert_deleteObjective|done|done|]. intros c d n' Hx <- Hc' Hd'.
  destruct (Z.eqb_spec c 0) as [->|]; [|apply wrote_refresh; [done|done|by exists c]].
  apply wrote_none; [done|done|]. unfold sqlDeleteObjective in Hx. by destruct (objectives (nDb n) !! name); simplify_eq.
Qed.

Lemma setTenantClass_spec t p n : coherent n -> definite n -> wp (SetTenantClass t p)
  (wrote n (fun d => exists p', ValidateClassPolicy p = inl p' /\ after (sqlUpsertTenantClass t (storeClass p') (nNow n)) (nDb n) d)) n.
Proof.
  intros Hc Hd. unfold SetTenantClass. do 2 (apply wp_try, wp_guard; [intros _|done]).
  destruct (ValidateClassPolicy p) as [p'|[f]]; [|done]. apply wp_try, wp_store; [intros _|done].
  apply wp_bind, wp_now, wp_inert; [apply inert_tenantClass|done|done|].
  intros c d n' Hx <- Hc' Hd'. apply wrote_refresh; [done|done|]. exists p'. split; [done|]. by exists c.
Qed.

Lemma patchTenantClass_spec t p n : coherent n -> definite n -> wp (PatchTenantClass t p)
  (wrote n (fun d => d = nDb n \/ exists args, classPatchArgs p = inl args /\ after (sqlPatchTenantClass t args (nNow n)) (nDb n) d)) n.
Proof.
  intros Hc Hd. unfold PatchTenantClass. destruct (classPatchIsZero p).
  { apply wp_ret. split; [done|]. split; [done|by left]. }
  do 2 (apply wp_try, wp_guard; [intros _|done]).
  destruct (classPatchArgs p) as [args|[f]]; [|done]. apply wp_try, wp_store; [intros _|done].
  apply wp_bind, wp_now, wp_inert; [apply inert_tenantClass|done|done|].
  intros c d n' Hx <- Hc' Hd'. apply wrote_refresh; [done|done|]. right. exists args. split; [done|]. by exists c.
Qed.

Lemma setKeyClass_spec k p n : coherent n -> definite n -> wp (SetAPIKeyClass k p)
  (wrote n (fun d => exists p', ValidateClassPolicy p = inl p' /\ after (sqlUpdateKeyClass k (storeClass p')) (nDb n) d)) n.
Proof.
  intros Hc Hd. unfold SetAPIKeyClass. destruct (ValidateClassPolicy p) as [p'|[f]]; [|done].
  apply wp_try, wp_store; [intros _|done]. apply wp_inert; [apply inert_keyClass|done|done|]. intros c d n' Hx <- Hc' Hd'.
  destruct (Z.eqb_spec c 0) as [->|]; [|apply wrote_refresh; [done|done|exists p'; split; [done|by exists c]]].
  apply wrote_none; [done|done|]. by eapply updateKey_none.
Qed.

Lemma markFirstUse_spec k n : coherent n -> definite n -> wp (markFirstUse k)
  (fun _ n' => coherent n' /\ definite n' /\ (nDb n' = nDb n \/ after (sqlMarkAPIKeyFirstUse (nNow n) k) (nDb n) (nDb n'))) n.
Proof.
  intros Hc Hd. unfold wp, markFirstUse. destruct (sConnected (nSvc n)); [|auto].
  assert (wp (execDb (sqlMarkAPIKeyFirstUse (nNow n) k)) (fun _ n' => coherent n' /\ definite n' /\
    (nDb n' = nDb n \/ after (sqlMarkAPIKeyFirstUse (nNow n) k) (nDb n) (nDb n'))) n) as H.
  { apply wp_exec; [done| |].
    - intros c d n' Hx Hl. destruct (inert_firstUse (nNow n) k (nDb n) d c) as [Hok Hfit]; [apply Hc|done|].
      assert (almost (fun _ => True) (setDb d n')) as [H1 H2]%almost_all by (eapply almost_setDb; [done|done|done|]; eauto).
      split; [done|]. split; [done|]. right. by exists c.
    - intros e n' Hl. destruct (kept_later n n' Hc Hl) as (? & ? & ? & _). auto. }
  unfold wp in H. destruct (execDb _ n) as [r n']. exact H.
Qed.
End Users.
