(* ===== verification/KeyStoreProps.v ===== *)
(** * KeyStoreProps: the key store refines its tables

    Runs of a node: the reads of the data path, the writes of the configuration
    surface, invalidations from peers, class refreshes and whatever the store
    and the clock do next.  The abstract machine is the tables alone: a read is
    a query and a write is its statement.  The theorems show that what the
    service caches, remembers through outages and evicts never shows. *)

From S2P Require Import Prelude StoreErr LookupGuard Objective RateLimit RateSync Common Admission Gateway Identity Classes Tables ClassStore GoCache KeyStore KeyStoreLogic KeyStoreWrites KeyStoreUsers.

Open Scope Z_scope.
Open Scope igw_scope.

(** ** Operations *)

Inductive readOp :=
| RdValidate (raw : string)
| RdTenant (t : string)
| RdModel (t m : string)
| RdKey (k : string)
| RdUser (t u : string)
| RdUserModel (t u m : string)
| RdDefaults (s i : string).

Inductive writeOp :=
| WrCreate (e : ApiKeyEntry) (keyID secret : string)
| WrRevoke (k : string)
| WrDelete (k : string)
| WrPatch (k : string) (p : ApiKeyPatch)
| WrTenant (t : string) (rps tpm b : Z)
| WrModel (t m : string) (tpm : Z)
| WrLimits (t : string) (rps tpm b : Z) (ml : list ModelRateLimit)
| WrUser (e : UserRateLimitEntry)
| WrDropUser (t u : string)
| WrDefaults (e : RateLimitDefaultsEntry)
| WrDropDefaults (s i : string)
| WrObjective (e : AIObjectiveEntry)
| WrDropObjective (name : string)
| WrTenantClass (t : string) (p : AIClassPolicy)
| WrPatchTenantClass (t : string) (p : AIClassPatch)
| WrKeyClass (k : string) (p : AIClassPolicy).

(** What a read answers. *)
Inductive answer :=
| AnKey (e : ApiKeyEntry)
| AnSummary (k : ApiKeySummary)
| AnTriple (x : Z * Z * Z)
| AnQuota (x : Z)
| AnDefaults (x : RateLimitDefaultsEntry * bool).

(** ** The abstract machine: the tables *)

(** The identities a composed cache key separates: the config writes and the
    claims mapper refuse the others. *)
Definition separable (r : readOp) : Prop :=
  match r with
  | RdModel t _ | RdUser t _ => ContainsByte pipe t = false
  | RdUserModel t u _ => ContainsByte pipe t = false /\ ContainsByte pipe u = false
  | RdDefaults s _ => ContainsByte pipe s = false
  | _ => True
  end.

Section Spec.
Context (hashKey : string -> string).

Definition specRead (r : readOp) (d : Db) (a : answer) : Prop :=
  match r with
  | RdValidate raw => exists row, sqlSelectAPIKeyByHash (hashKey raw) d = Some row /\ a = AnKey (scanEntry row)
  | RdTenant t => a = AnTriple (default (0, 0, 0) (sqlSelectTenantRateLimit t d))
  | RdModel t m => a = AnQuota (if m ==s "" then 0 else default 0 (sqlSelectTenantModelRateLimit t m d))
  | RdKey k => exists r, sqlSelectAPIKeyByID k d = Some r /\
                 (a = AnSummary (scanSummary k r) \/ a = AnSummary (summaryOfEntry (scanEntry (k, r))))
  | RdUser t u => a = AnTriple match sqlSelectUserRateLimit t u d with
                                | Some r => (urRPS r, urBurst r, urTPM r)
                                | None => (0, 0, 0)
                                end
  | RdUserModel t u m => a = AnQuota (if m ==s "" then 0 else default 0 (sqlSelectUserModelRateLimit t u m d))
  | RdDefaults s i => a = AnDefaults match sqlSelectRateLimitDefaults s i d with
                                      | Some e => (DefaultsEntry s i (DefaultUserRPS e) (DefaultUserTPM e) (DefaultTenantRPS e)
                                                     (DefaultTenantTPM e) (VipSharedRPS e) (VipSharedTPM e), true)
                                      | None => (noDefaults s i, false)
                                      end
  end.

(** The tables a write leaves when it answers success. *)
Definition specWrite (w : writeOp) (now : Z) (d d' : Db) : Prop :=
  match w with
  | WrCreate e keyID secret => exists class out, ValidateClassPolicy (eClass e) = inl class /\
      createdIn e class keyID (hashKey (rawOf e secret)) (returnedOf e secret) now d out d'
  | WrRevoke k => exists row, api_keys d !! k = Some row /\ d' = setKeys (<[k := setEnabledRow false row]>) d
  | WrDelete k => d' = setKeys (delete k) d
  | WrPatch k p => patchIsZero p = true \/ exists row args, api_keys d !! k = Some row /\
      classPatchArgs (pClass p) = inl args /\ d' = setKeys (<[k := patchRow p args row]>) d
  | WrTenant t rps tpm b => d' = setTenants (<[t := tenantRowOf t rps tpm b now d]>) d
  | WrModel t m tpm => d' = modelStmt t (ModelLimit m tpm) d
  | WrLimits t rps tpm b ml => d' = tenantStmts t (tenantRowOf t rps tpm b now d) ml d
  | WrUser e => d' = userWritten e d
  | WrDropUser t u => d' = userDropped t u d
  | WrDefaults e => d' = setDefaults (<[(dScope e, dRuleIdent e) := e]>) d
  | WrDropDefaults s i => d' = setDefaults (delete (s, i)) d
  | WrObjective e => exists e', ValidateObjective e = inl e' /\
      after (sqlUpsertObjective (oName e') (joinList (oServices e')) (oPriority e') now) d d'
  | WrDropObjective name => after (sqlDeleteObjective name) d d'
  | WrTenantClass t p => exists p', ValidateClassPolicy p = inl p' /\ after (sqlUpsertTenantClass t (storeClass p') now) d d'
  | WrPatchTenantClass t p => d' = d \/ exists args, classPatchArgs p = inl args /\ after (sqlPatchTenantClass t args now) d d'
  | WrKeyClass k p => exists p', ValidateClassPolicy p = inl p' /\ after (sqlUpdateKeyClass k (storeClass p')) d d'
  end.
End Spec.

(** ** The node *)

Section Runs.
Context {GC : GoCache} {GL : GoCacheLaws GC} (cfg : lookupGuardConfig) (hashKey : string -> string).
#[local] Abbreviation node := (node (GC := GC)).
#[local] Abbreviation Service := (Service (GC := GC)).
#[local] Abbreviation Op := (Op (GC := GC)).

Definition answerWith {A E} (f : A -> answer) (m : Op (A + E)) : Op (option answer) := fun n =>
  let '(r, n) := m n in (match r with inl a => Some (f a) | inr _ => None end, n).

Definition runRead (r : readOp) : Op (option answer) :=
  match r with
  | RdValidate raw => answerWith AnKey (svcValidateAPIKey cfg hashKey raw)
  | RdTenant t => answerWith AnTriple (svcGetTenantRateLimit cfg t)
  | RdModel t m => answerWith AnQuota (svcGetTenantModelRateLimit cfg t m)
  | RdKey k => answerWith AnSummary (svcGetAPIKeyByID cfg k)
  | RdUser t u => answerWith AnTriple (svcGetUserRateLimit cfg t u)
  | RdUserModel t u m => answerWith AnQuota (svcGetUserModelRateLimit cfg t u m)
  | RdDefaults s i => answerWith AnDefaults (svcGetRateLimitDefaults cfg s i)
  end.

Definition succeeds {A E} (m : Op (A + E)) : Op bool := fun n =>
  let '(r, n) := m n in (match r with inl _ => true | inr _ => false end, n).

Definition runWrite (w : writeOp) : Op bool :=
  match w with
  | WrCreate e keyID secret => succeeds (CreateKey hashKey e keyID secret)
  | WrRevoke k => succeeds (RevokeAPIKey k)
  | WrDelete k => succeeds (DeleteAPIKey k)
  | WrPatch k p => succeeds (PatchAPIKeyAll k p)
  | WrTenant t rps tpm b => succeeds (SetTenantRateLimit t rps tpm b)
  | WrModel t m tpm => succeeds (SetTenantModelRateLimit t m tpm)
  | WrLimits t rps tpm b ml => succeeds (SetTenantLimits t rps tpm b ml)
  | WrUser e => succeeds (SetUserRateLimit e)
  | WrDropUser t u => succeeds (DeleteUserRateLimit t u)
  | WrDefaults e => succeeds (SetRateLimitDefaults e)
  | WrDropDefaults s i => succeeds (DeleteRateLimitDefaults s i)
  | WrObjective e => succeeds (SetObjective e)
  | WrDropObjective name => succeeds (DeleteObjective name)
  | WrTenantClass t p => succeeds (SetTenantClass t p)
  | WrPatchTenantClass t p => succeeds (PatchTenantClass t p)
  | WrKeyClass k p => succeeds (SetAPIKeyClass k p)
  end.

(** What a write asks of its caller and of the store: a create draws material no
    row holds; a write of user limits names each model once and meets a store
    that answers; a delete by composed identity names a separable one. *)
Definition ready (w : writeOp) (n : node) : Prop :=
  match w with
  | WrCreate e keyID secret => freshMaterial hashKey e keyID secret (nDb n)
  | WrUser e => quiet n /\ NoDup (mModel <$> uModelLimits e)
  | WrDropUser t u => quiet n /\ ContainsByte pipe t = false /\ ContainsByte pipe u = false
  | WrDropDefaults s _ => ContainsByte pipe s = false
  | _ => True
  end.

Inductive kstep (n : node) : node -> Prop :=
| KRead r : separable r -> kstep n (runRead r n).2
| KWrite w : ready w n -> kstep n (runWrite w n).2
| KFirstUse k : kstep n (markFirstUse k n).2
| KRefresh : kstep n (refreshClassesAfterWrite n).2
| KObjectives : kstep n (ObjectiveList n).2
| KInvalidate inv : kstep n (ApplyInvalidation inv n).2
| KSink on : kstep n (SetInvalidationSink on n).2
| KAttach ok : kstep n (Attach ok n).2
| KWorld script reads now disk file pending : Forall definiteOutcome script ->
    kstep n (Node (nSvc n) (nDb n) script reads now disk file pending).

(** ** One step *)

Lemma wp_answer {A E} (f : A -> answer) (m : Op (A + E)) (P : A -> Prop) (S : answer -> Prop) (X : Prop) n :
  wp m (fun r n' => kept n n' /\ match r with inl a => P a | inr _ => X end) n -> (forall a, P a -> S (f a)) ->
  wp (answerWith f m) (fun r n' => kept n n' /\ match r with Some a => S a | None => X end) n.
Proof.
  unfold wp, answerWith. intros H HS. destruct (m n) as [[a|e] n']; cbn in *; destruct H; split; auto.
Qed.

(** A limit read may fail only before the store confirmed its value once; key
    reads may fail whenever the store does not answer. *)
Definition mayFail (r : readOp) (n : node) : Prop :=
  match r with
  | RdValidate _ | RdKey _ => True
  | RdTenant t => neverKnown (SlTenant t) n
  | RdModel t m => neverKnown (SlModel t m) n
  | RdUser t u => neverKnown (SlUser t u) n
  | RdUserModel t u m => neverKnown (SlUserModel t u m) n
  | RdDefaults s i => neverKnown (SlDefaults s i) n
  end.

(** The answer is what the tables say; tables, clock and fan-out did not move. *)
Definition readOk (r : readOp) (n : node) (a : option answer) (n' : node) : Prop :=
  kept n n' /\ match a with Some a => specRead hashKey r (nDb n) a | None => mayFail r n end.

Lemma read_step r n : coherent n -> definite n -> separable r -> wp (runRead r) (readOk r n) n.
Proof.
  intros Hc Hd Hs. destruct r as [raw|t|t m|k|t u|t u m|s i]; cbn [runRead separable] in *.
  - eapply wp_answer; [by apply validate_spec|]. intros e (row & H1 & ->). by exists row.
  - eapply wp_answer; [by apply getTenant_spec|]. intros x ->. cbn. by destruct (sqlSelectTenantRateLimit t (nDb n)) as [[[? ?] ?]|].
  - eapply wp_answer; [by apply getModel_spec|]. by intros x ->.
  - eapply wp_answer; [by apply getByID_spec|]. intros x (r & H1 & [->| ->]); exists r; auto.
  - eapply wp_answer; [by apply getUser_spec|]. intros x ->. cbn. by destruct (sqlSelectUserRateLimit t u (nDb n)).
  - destruct Hs. eapply wp_answer; [by apply getUserModel_spec|]. by intros x ->.
  - eapply wp_answer; [by apply getDefaults_spec|]. intros x ->. cbn. by destruct (sqlSelectRateLimitDefaults s i (nDb n)).
Qed.

Definition writeOk (w : writeOp) (n : node) (ok : bool) (n' : node) : Prop :=
  coherent n' /\ definite n' /\ if ok then specWrite hashKey w (nNow n) (nDb n) (nDb n') else nDb n' = nDb n.

Lemma wp_succeeds {A} w (m : Op (A + opErr)) (Q : A + opErr -> node -> Prop) n :
  wp m Q n -> (forall r n', Q r n' -> wrote n (specWrite hashKey w (nNow n) (nDb n)) r n') -> wp (succeeds m) (writeOk w n) n.
Proof. unfold wp, succeeds. intros H HQ. apply HQ in H. destruct (m n) as [[a|e] n']; exact H. Qed.

Lemma write_step w n : coherent n -> definite n -> ready w n -> wp (runWrite w) (writeOk w n) n.
Proof.
  intros Hc Hd Hr. destruct w; cbn [runWrite ready] in *.
  - eapply wp_succeeds; [by apply create_spec|]. intros [c|?] n' (H1 & H2 & H3); (split; [done|]; split; [done|]); [|done].
    destruct H3 as (class & rot & H3 & H4). by exists class, (c, rot).
  - eapply wp_succeeds; [by apply revoke_spec|]. by intros r n' [_ ?].
  - eapply wp_succeeds; [by apply deleteKey_spec|]. by intros r n' [_ ?].
  - eapply wp_succeeds; [by apply patch_spec|]. by intros r n' [_ ?].
  - eapply wp_succeeds; [by apply setTenant_spec|done].
  - eapply wp_succeeds; [by apply setModel_spec|done].
  - eapply wp_succeeds; [by apply setTenantLimits_spec|done].
  - destruct Hr. eapply wp_succeeds; [by apply setUser_spec|done].
  - destruct Hr as (? & ? & ?). eapply wp_succeeds; [by apply deleteUser_spec|done].
  - eapply wp_succeeds; [by apply setDefaults_spec|done].
  - eapply wp_succeeds; [by apply deleteDefaults_spec|done].
  - eapply wp_succeeds; [by apply setObjective_spec|done].
  - eapply wp_succeeds; [by apply deleteObjective_spec|done].
  - eapply wp_succeeds; [by apply setTenantClass_spec|done].
  - eapply wp_succeeds; [by apply patchTenantClass_spec|done].
  - eapply wp_succeeds; [by apply setKeyClass_spec|done].
Qed.

Lemma evict_coherent inv n : coherent n -> coherent (setSvc (evict inv (nSvc n)) n).
Proof.
  intros (H1 & H2 & H3). split; [done|]. cbn. unfold evict. destruct (ivKeyHash inv ==s ""), (ivKeyID inv ==s ""); (split; [done|]); [done|..].
  - by apply cohOn_forget, cohOn_delete.
  - by eapply cohOn_same; [..|apply cohOn_delete; exact H3].
  - apply cohOn_forget, cohOn_delete. by eapply cohOn_same; [..|apply cohOn_delete; exact H3].
Qed.

Lemma wp_list {A} (f : Db -> A) Q n : definite n -> (forall r n', later n n' -> Q r n') -> wp (listO f) Q n.
Proof.
  intros Hd HQ. unfold listO. apply wp_try, wp_store; [intros _|intros; by apply HQ].
  apply wp_bind, wp_query; [done|..]; intros; by apply wp_ret, HQ.
Qed.

Lemma class_coherent c n : coherent n -> csLkgLimits c = csLkgLimits (sClass (nSvc n)) -> coherent (setSvc (setClass c (nSvc n)) n).
Proof. intros (H1 & H2 & H3) E. split; [done|]. split; [unfold answered; cbn; by rewrite E|]. by eapply cohOn_same. Qed.

Lemma objectiveList_spec n : coherent n -> definite n -> wp ObjectiveList (fun _ n' => coherent n' /\ definite n') n.
Proof.
  intros Hc Hd. unfold wp, ObjectiveList. cbn [takeTicket].
  set (c := ClassState _ _ _ _ _ _ _ _). pose proof (class_coherent c n Hc eq_refl) as Hc1. set (n1 := setSvc _ n) in *.
  assert (wp ListObjectives (fun _ n' => later n1 n') n1) as Hl by (by apply wp_list).
  unfold wp in Hl. destruct (ListObjectives n1) as [r n2]. cbn [fst snd] in Hl. destruct (kept_later n1 n2 Hc1 Hl) as (Hc2 & _ & Hd2 & _).
  set (c2 := noteStoreRead _ _ _ _). assert (csLkgLimits c2 = csLkgLimits (sClass (nSvc n2))) as E
    by (unfold c2, noteStoreRead; by destruct (_ <? _)).
  pose proof (class_coherent c2 n2 Hc2 E). destruct (StoreHealth _) as [re la]. destruct r as [objs|e]; [done|].
  by destruct (AppliedObjectives _ _) as [[[? ?] ?]|].
Qed.

Lemma kstep_inv n n' : kstep n n' -> coherent n -> definite n -> coherent n' /\ definite n'.
Proof.
  intros [r Hr|w Hw|k| | |inv|on|ok|script reads now disk file pending Hs] Hc Hd.
  - destruct (read_step r n Hc Hd Hr) as [(? & _ & ? & _) _]. done.
  - destruct (write_step w n Hc Hd Hw) as (? & ? & _). done.
  - destruct (markFirstUse_spec k n Hc Hd) as (? & ? & _). done.
  - apply (wp_refresh (fun _ n' => coherent n' /\ definite n')); [done|done|]. intros n2 (? & _ & ? & _). done.
  - by apply objectiveList_spec.
  - split; [by apply evict_coherent|done].
  - done.
  - by destruct ok.
  - done.
Qed.

Lemma run_inv n n' : rtc kstep n n' -> coherent n -> definite n -> coherent n' /\ definite n'.
Proof. induction 1 as [|n1 n2 n3 H1 _ IH]; [done|]. intros Hc Hd. destruct (kstep_inv _ _ H1 Hc Hd). auto. Qed.

(** A service that has just been made holds nothing. *)
Lemma new_coherent n dir : nSvc n = newService dir -> dbOk (nDb n) -> coherent n.
Proof.
  intros Es Hok. split; [done|]. rewrite Es. split; [done|]. intros sl v _ _ [[t Ht]|[_ Hl]]; cbn in *.
  - by rewrite get_new in Ht.
  - by rewrite lookup_empty in Hl.
Qed.


(** ** Keys that are dead *)

(** No read of the node answers the key of [raw]. *)
Definition neverValidates (raw : string) (n : node) : Prop :=
  forall e, (svcValidateAPIKey cfg hashKey raw n).1 <> inl e.

Lemma dead_in_tables raw n : coherent n -> definite n -> sqlSelectAPIKeyByHash (hashKey raw) (nDb n) = None -> neverValidates raw n.
Proof.
  intros Hc Hd Hn e He. destruct (validate_spec cfg hashKey raw n Hc Hd) as [_ H]. rewrite He in H.
  destruct H as (row & Hr & _). congruence.
Qed.

(** The row of [k] was the only one under its hash: disabled, or gone, no
    enabled row answers the hash. *)
Lemma byHash_gone d g k row : dbOk d -> dbOk (setKeys g d) -> api_keys d !! k = Some row ->
  (forall k', k' <> k -> g (api_keys d) !! k' = api_keys d !! k') ->
  (forall r, g (api_keys d) !! k = Some r -> krEnabled r = false) -> sqlSelectAPIKeyByHash (key_hash row) (setKeys g d) = None.
Proof.
  intros Hok Hok' Hr Hg He. destruct (sqlSelectAPIKeyByHash _ _) as [[k' r']|] eqn:E; [|done].
  apply byHash_Some in E as (H1 & H2 & H3); [|done]. cbn in H1. destruct (decide (k' = k)) as [->|Hne].
  - apply He in H1. congruence.
  - rewrite Hg in H1 by done. destruct Hne. by apply (proj2 Hok k' k r' row).
Qed.

(** The tables after a revoke or a delete of [k]. *)
Definition killed (k : string) (row : keyRow) (d d' : Db) : Prop :=
  d' = setKeys (<[k := setEnabledRow false row]>) d \/ d' = setKeys (delete k) d.

Lemma killed_change k row d d' : dbOk d -> api_keys d !! k = Some row -> killed k row d d' ->
  exists g, d' = setKeys g d /\ dbOk d' /\ (forall k', k' <> k -> g (api_keys d) !! k' = api_keys d !! k') /\
    (forall r, g (api_keys d) !! k = Some r -> krEnabled r = false /\ key_hash r = key_hash row).
Proof.
  intros Hok Hr [->| ->]; eexists; (split; [reflexivity|]).
  - destruct (updateKey_same d k (setEnabledRow false) row) as [_ H]; [done|done|done|]. split; [done|].
    split; [by intros; apply lookup_insert_ne|]. intros r. rewrite lookup_insert_eq. by intros [= <-].
  - split; [by apply dbOk_delete|]. split; [by intros; apply lookup_delete_ne|]. intros r. by rewrite lookup_delete_eq.
Qed.

Lemma killed_dead k row d d' : dbOk d -> api_keys d !! k = Some row -> killed k row d d' ->
  sqlSelectAPIKeyByHash (key_hash row) d' = None.
Proof.
  intros Hok Hr Hk. destruct (killed_change k row d d' Hok Hr Hk) as (g & -> & Hok' & H1 & H2).
  eapply byHash_gone; [done|done|done|done|]. intros r E. by apply H2 in E as [? _].
Qed.

(** ** Retried creates *)

(** The unique index on (tenant, operation id). *)
Definition opUnique (d : Db) : Prop := forall k k' r r' o, api_keys d !! k = Some r -> api_keys d !! k' = Some r' ->
  krClientOp r = Some o -> krClientOp r' = Some o -> krTenant r = krTenant r' -> k = k'.

Definition ownedBy (entry : ApiKeyEntry) (r : keyRow) : Prop := krTenant r = eTenantID entry /\ krClientOp r = Some (eClientOpID entry).

Lemma byOp_Some entry d k r : opUnique d -> api_keys d !! k = Some r -> ownedBy entry r ->
  sqlSelectAPIKeyByClientOp (eTenantID entry) (eClientOpID entry) d = Some (k, r).
Proof.
  intros Hu Hr [Ht Ho]. unfold sqlSelectAPIKeyByClientOp. destruct (findKey _ d) as [[k' r']|] eqn:E.
  - apply findKey_Some in E as [Hr' [Ht' Ho']%bool_decide_eq_true]. assert (k' = k) as ->; [|congruence].
    by apply (Hu k' k r' r (eClientOpID entry)); [..|congruence].
  - apply (findKey_None _ _ k r) in E; [|done]. apply bool_decide_eq_false in E. by destruct E.
Qed.

(** Replacing a row by one of the same tenant and operation, or adding one whose
    operation no row has, keeps the index. *)
Lemma opUnique_insert d k r : opUnique d ->
  (forall k' r' o, api_keys d !! k' = Some r' -> krClientOp r = Some o -> krClientOp r' = Some o -> krTenant r' = krTenant r -> k' = k) ->
  opUnique (setKeys (<[k := r]>) d).
Proof.
  intros Hu H k1 k2 r1 r2 o. cbn. intros [[<- <-]|[N1 L1]]%lookup_insert_Some [[<- <-]|[N2 L2]]%lookup_insert_Some E1 E2 Et; [done|..].
  - symmetry. by eapply H.
  - by eapply H.
  - by eapply Hu.
Qed.

(** What a create that answered left under its id. *)
Lemma created_row entry class keyID h ret now d out d' : opUnique d -> eClientOpID entry <> "" ->
  createdIn entry class keyID h ret now d out d' ->
  opUnique d' /\ exists row, api_keys d' !! cKeyID out.1 = Some row /\ ownedBy entry row /\ krFirstUsed row = None /\ key_hash row = h.
Proof.
  intros Hu Hop [(-> & Hnew & Hno & ->)|(k & row & Hq & Hf & -> & ->)]; cbn.
  - assert (ownedBy entry (createdRow entry class h now)) as Hown
      by (split; [done|]; cbn; by destruct (String.eqb_spec (eClientOpID entry) "")).
    split; [|exists (createdRow entry class h now); by rewrite lookup_insert_eq].
    apply opUnique_insert; [done|]. intros k' r' o Hr' Ho Ho' Ht. exfalso. destruct Hown as [Ht1 Ho1]. specialize (Hno Hop).
    unfold sqlSelectAPIKeyByClientOp in Hno. apply (findKey_None _ _ k' r') in Hno; [|done].
    apply bool_decide_eq_false in Hno. apply Hno. split; congruence.
  - apply findKey_Some in Hq as [Hr Hown%bool_decide_eq_true].
    split; [|exists (rotatedRow h now row); by rewrite lookup_insert_eq].
    apply opUnique_insert; [done|]. intros k' r' o Hr' Ho Ho' Ht. by eapply Hu.
Qed.

Lemma create_run entry keyID secret n r n' : coherent n -> definite n -> freshMaterial hashKey entry keyID secret (nDb n) ->
  CreateKey hashKey entry keyID secret n = (r, n') -> createPost hashKey entry keyID secret n r n'.
Proof. intros Hc Hd Hf E. eapply wp_run; [by apply create_spec|done]. Qed.

(** The checks before the store, which depend on the request alone. *)
Definition createValid (entry : ApiKeyEntry) : bool :=
  ValidateQoSIdentity (eTenantID entry) && ((eClientOpID entry ==s "") || validateClientOpID (eClientOpID entry))
  && ((eApiKey entry ==s "") || validateSuppliedKey (eApiKey entry)).

Lemma create_valid entry keyID secret n c n' : CreateKey hashKey entry keyID secret n = (inl c, n') ->
  createValid entry = true /\ exists class, ValidateClassPolicy (eClass entry) = inl class.
Proof.
  unfold CreateKey, createValid, tryO, guardO, retO. intros H. destruct (ValidateQoSIdentity _); [|done].
  destruct (ValidateClassPolicy _) as [class|[f]]; [|done]. destruct (_ || validateClientOpID _); [|done].
  destruct (_ || validateSuppliedKey _); [|done]. eauto.
Qed.

Lemma wp_queryRow_quiet {A} (f : Db -> option A) a Q n : quiet n -> f (nDb n) = Some a ->
  (forall n', moved n n' -> Q (inl a) n') -> wp (queryRow f) Q n.
Proof. intros Hq Hf HQ. unfold queryRow. apply wp_bind, wp_query_quiet; [done|]. intros n' Hm. rewrite Hf. by apply wp_ret, HQ. Qed.

(** On a store that answers, a retry of a create whose key was not used yet succeeds. *)
Lemma retry_succeeds entry keyID secret k row n : quiet n -> sConnected (nSvc n) = true -> createValid entry = true ->
  (exists class, ValidateClassPolicy (eClass entry) = inl class) -> eClientOpID entry <> "" ->
  noHash (nDb n) (hashKey (rawOf entry secret)) ->
  sqlSelectAPIKeyByClientOp (eTenantID entry) (eClientOpID entry) (nDb n) = Some (k, row) -> krFirstUsed row = None ->
  wp (CreateKey hashKey entry keyID secret) (fun r _ => exists c, r = inl c) n.
Proof.
  intros Hq Hconn [[H1 H2]%andb_true_iff H3]%andb_true_iff [class Hclass] Hop Hno Hsel Hfu. unfold CreateKey.
  rewrite H1, H2, H3, Hclass. unfold guardO. do 3 apply wp_try, wp_ret. apply wp_try.
  assert (store n = (inl tt, n)) as Est by (unfold store; by rewrite Hconn). unfold wp at 1. rewrite Est. cbn [fst snd].
  assert ((if negb (eApiKey entry ==s "") then eApiKey entry else apiKeyPrefix +:+ secret) = rawOf entry secret) as ->
    by (unfold rawOf; by destruct (eApiKey entry ==s "")).
  set (h := hashKey (rawOf entry secret)) in *.
  apply wp_bind. unfold wp at 1, modSvc. cbn [fst snd]. apply wp_bind, wp_now, wp_try, wp_inTx_quiet; [done|].
  intros n1 (Es & Ed & Hq1). cbn [nDb setSvc] in Ed. unfold createBody.
  destruct (String.eqb_spec (eClientOpID entry) ""); [done|].
  apply wp_bind. eapply wp_queryRow_quiet; [done|rewrite Ed; exact Hsel|]. intros n2 (Es2 & Ed2 & Hq2). rewrite Hfu.
  apply wp_try. assert (api_keys (nDb n) !! k = Some row) as Hr by by apply findKey_Some in Hsel as [? _].
  eapply wp_exec_quiet; [done| |].
  { unfold sqlRotateAPIKeyHash, updateKey. rewrite Ed2, Ed, Hr. cbn [key_hash]. rewrite (noHash_taken _ _ k Hno). reflexivity. }
  intros n3 (Es3 & Ed3 & Hq3). apply wp_ret. split; [done|]. intros n4 _.
  unfold wp, bindO, evictAndFanOut, modSvc, okO, retO. cbn.
  destruct ((key_hash row ==s "") || (key_hash row ==s h)); cbn; eauto.
Qed.

(** The tables a retry may find: as the create left them, or with the key's
    first use recorded. *)
Definition firstUseMarked (k : string) (d d' : Db) : Prop := exists now, after (sqlMarkAPIKeyFirstUse now k) d d'.

Lemma marked_row k row d d' : opUnique d -> api_keys d !! k = Some row -> krFirstUsed row = None -> firstUseMarked k d d' ->
  opUnique d' /\ exists row' now, api_keys d' !! k = Some row' /\ krFirstUsed row' = Some now /\ krTenant row' = krTenant row /\
    krClientOp row' = krClientOp row.
Proof.
  intros Hu Hr Hf (now & c & H). unfold sqlMarkAPIKeyFirstUse in H. rewrite Hr, Hf in H. injection H as <- _. split.
  - apply opUnique_insert; [done|]. intros k' r' o Hr' Ho Ho' Ht. by eapply Hu.
  - eexists _, now. cbn. rewrite lookup_insert_eq. done.
Qed.

(** C32: a create with a client operation id, of a key the service generates (not
    one the caller supplies), happens once.  When it answered and is retried with
    the same request and a freshly drawn secret, whatever operations, one at a time,
    happened in between that left the tables alone, the retry answers the same key
    id, adds no row, replaces the raw key that was lost (the earlier one never
    validates again here) or answers an error with the tables unchanged; on an
    attached store that answers it does succeed; and once the key's first use is
    recorded a retry changes nothing.  The tables respect their unique indexes and
    a statement that fails was not applied. *)
Theorem create_retry_is_idempotent entry k1 s1 k2 s2 n c1 n1 n2 r n3 :
  coherent n -> definite n -> opUnique (nDb n) -> eClientOpID entry <> "" -> eApiKey entry = "" ->
  freshMaterial hashKey entry k1 s1 (nDb n) -> CreateKey hashKey entry k1 s1 n = (inl c1, n1) ->
  rtc kstep n1 n2 -> freshMaterial hashKey entry k2 s2 (nDb n2) -> CreateKey hashKey entry k2 s2 n2 = (r, n3) ->
  (nDb n2 = nDb n1 ->
   match r with
   | inl c2 => cKeyID c2 = cKeyID c1 /\ Reused c2 = true /\ dom (api_keys (nDb n3)) = dom (api_keys (nDb n1)) /\
       (exists row, api_keys (nDb n3) !! cKeyID c1 = Some row /\ key_hash row = hashKey (rawOf entry s2)) /\
       neverValidates (rawOf entry s1) n3
   | inr _ => nDb n3 = nDb n1
   end /\
   (quiet n2 -> sConnected (nSvc n2) = true -> exists c2, r = inl c2)) /\
  (firstUseMarked (cKeyID c1) (nDb n1) (nDb n2) -> (exists e, r = inr e) /\ nDb n3 = nDb n2).
Proof.
  intros Hc Hd Hu Hop _ F1 E1 Hrun F2 E2. pose proof (create_valid _ _ _ _ _ _ E1) as [Hv Hcl].
  destruct (create_run _ _ _ _ _ _ Hc Hd F1 E1) as (Hc1 & Hd1 & class & rot & _ & Hin).
  destruct (created_row _ _ _ _ _ _ _ _ _ Hu Hop Hin) as (Hu1 & row & Hr & Hown & Hf & Hh). cbn [fst] in Hr.
  destruct (run_inv _ _ Hrun Hc1 Hd1) as [Hc2 Hd2].
  destruct (create_run _ _ _ _ _ _ Hc2 Hd2 F2 E2) as (Hc3 & Hd3 & Hout). split.
  - intros Edb. assert (sqlSelectAPIKeyByClientOp (eTenantID entry) (eClientOpID entry) (nDb n2) = Some (cKeyID c1, row)) as Hsel
      by (rewrite Edb; by apply byOp_Some). split.
    + destruct r as [c2|e]; [|by rewrite Hout, Edb]. destruct Hout as (class2 & rot2 & _ & [(_ & _ & Hno & _)|(k & row' & Hq & _ & [= -> _] & Ed3)]);
        [specialize (Hno Hop); congruence|]. rewrite Hsel in Hq. injection Hq as <- <-. cbn. rewrite Ed3, Edb. cbn.
      split; [done|]. split; [done|]. split; [apply dom_insert_lookup_L; by rewrite Hr|].
      split; [exists (rotatedRow (hashKey (rawOf entry s2)) (nNow n2) row); by rewrite lookup_insert_eq|].
      apply dead_in_tables; [done|done|]. destruct (sqlSelectAPIKeyByHash _ _) as [[k' r']|] eqn:E; [|done]. exfalso.
      apply byHash_Some in E as (L & Eh & _); [|apply Hc3]. rewrite Ed3, Edb in L. cbn in L.
      destruct F2 as (_ & _ & F2). rewrite Edb in F2. apply lookup_insert_Some in L as [[<- <-]|[Hne L]].
      * cbn in Eh. apply (F2 _ _ Hr). congruence.
      * apply Hne. destruct Hc1 as ((_ & U) & _). apply (U (cKeyID c1) k' row r' Hr L). congruence.
    + intros Hq Hconn. pose proof (retry_succeeds entry k2 s2 (cKeyID c1) row n2 Hq Hconn Hv Hcl Hop) as H.
      unfold wp in H. rewrite E2 in H. apply H; [exact (proj2 (proj2 F2))|done|done].
  - intros Hm. destruct (marked_row _ row _ _ Hu1 Hr Hf Hm) as (Hu2 & row' & now & Hr' & Hf' & Et & Eo).
    assert (sqlSelectAPIKeyByClientOp (eTenantID entry) (eClientOpID entry) (nDb n2) = Some (cKeyID c1, row')) as Hsel
      by (apply byOp_Some; [done|done|]; destruct Hown; split; congruence).
    destruct r as [c2|e]; [|eauto]. exfalso. destruct Hout as (class2 & rot2 & _ & [(_ & _ & Hno & _)|(k & row2 & Hq & Hf2 & _)]);
      [specialize (Hno Hop)|]; congruence.
Qed.
End Runs.

(** ** A node that runs *)

(** One node with the default guard, and a stand-in for the hash. *)
Module Demo.
Definition cfg : lookupGuardConfig := readLookupGuardConfig (fun _ => "").
Definition hash (s : string) : string := "h" +:+ s.
Definition entry : ApiKeyEntry := KeyEntry "" "" "" "acme" "ci" ["llama"] 5 10 1000 0 None true "op-1" noPolicy.
Definition start : node := Node (newService false) emptyDb [] [] 0 NoFile FileWritten [].
Definition attached : node := (SetInvalidationSink true (Attach true start).2).2.
Definition limited : node := (runWrite hash (WrTenant "acme" 10 1000 50) attached).2.
Definition created : node := (runWrite hash (WrCreate entry "k1" "s1") attached).2.
Definition validated : node := (runRead cfg hash (RdValidate "lxb_s1") created).2.
Definition revoked : node := (runWrite hash (WrRevoke "k1") validated).2.
Definition retried : node := (CreateKey hash entry "k2" "s2" created).2.

Lemma start_ok : dbOk (nDb start).
Proof. split; cbn; intros *; by rewrite lookup_empty. Qed.

Lemma fresh d k s : k <> "" -> (forall id r, api_keys d !! id = Some r -> key_hash r <> hash (apiKeyPrefix +:+ s)) ->
  freshMaterial hash entry k s d.
Proof. done. Qed.

Lemma attached_run : rtc (kstep cfg hash) start attached.
Proof.
  apply (rtc_l _ start (Attach true start).2); [constructor|]. apply (rtc_l _ _ attached); [exact (KSink cfg hash _ true)|apply rtc_refl].
Qed.

Lemma created_run : rtc (kstep cfg hash) start created.
Proof.
  eapply rtc_r; [exact attached_run|]. apply (KWrite cfg hash attached (WrCreate entry "k1" "s1")).
  apply fresh; [done|]. intros id r. cbn. by rewrite lookup_empty.
Qed.

Lemma created_rows : api_keys (nDb created) = <["k1" := createdRow entry noPolicy "hlxb_s1" 0]> ∅.
Proof. vm_compute. reflexivity. Qed.

Lemma validated_run : rtc (kstep cfg hash) start validated.
Proof. eapply rtc_r; [exact created_run|]. by apply (KRead cfg hash created (RdValidate "lxb_s1")). Qed.
End Demo.


Lemma create_retry_witness :
  exists c2 n3, CreateKey Demo.hash Demo.entry "k2" "s2" Demo.created = (inl c2, n3) /\ cKeyID c2 = "k1" /\
    neverValidates Demo.cfg Demo.hash "lxb_s1" n3.
Proof.
  exists (KeyCreated "lxb_s2" "k1" true), Demo.retried. split; [vm_compute; reflexivity|].
  destruct (create_retry_is_idempotent Demo.cfg Demo.hash Demo.entry "k1" "s1" "k2" "s2" Demo.attached (KeyCreated "lxb_s1" "k1" false)
    Demo.created Demo.created (inl (KeyCreated "lxb_s2" "k1" true)) Demo.retried) as [H _].
  - destruct (run_inv Demo.cfg Demo.hash _ _ Demo.attached_run) as [H _]; [by eapply new_coherent; [|exact Demo.start_ok]|constructor|exact H].
  - constructor.
  - intros k k' r r' o. cbn. by rewrite lookup_empty.
  - done.
  - done.
  - apply Demo.fresh; [done|]. intros id r. cbn. by rewrite lookup_empty.
  - vm_compute; reflexivity.
  - apply rtc_refl.
  - apply Demo.fresh; [done|]. intros id r. rewrite Demo.created_rows. intros [[_ <-]|[_ E]]%lookup_insert_Some; [done|by rewrite lookup_empty in E].
  - vm_compute; reflexivity.
  - destruct (H eq_refl) as [(E1 & _ & _ & _ & E2) _]. split; [exact E1|exact E2].
Defined.

(** ** What the writers of user limits do not keep *)

Module UserDemo.
Definition pair (ml : list ModelRateLimit) : UserRateLimitEntry := UserEntry "acme" "bob" 5 10 0 ml.
Definition down : goErr := errStoreUnavailable.
(** The store answers until it breaks at the COMMIT of the second write, then stays away. *)
Definition stored : node := (SetUserRateLimit (pair [ModelLimit "llama" 100]) Demo.attached).2.
Definition script (n : node) (l : list outcome) : node := Node (nSvc n) (nDb n) l (nReads n) (nNow n) (nDisk n) (nFile n) (nPending n).
Definition rolledBack : node :=
  (SetUserRateLimit (pair [ModelLimit "llama" 200])
     (script stored [Answered; Answered; Answered; Answered; Answered; Broken down false; Broken down false])).2.
Definition twice : node := (SetUserRateLimit (pair [ModelLimit "llama" 100; ModelLimit "llama" 0]) Demo.attached).2.
End UserDemo.

(** A write of user limits that failed and changed no row makes the next read,
    during the outage, answer "no quota" for a pair that has one: the writer's
    comment says the forgotten entry is only read again from the store. *)
Lemma failed_user_write_lifts_the_quota :
  nDb UserDemo.rolledBack = nDb UserDemo.stored /\
  sqlSelectUserModelRateLimit "acme" "bob" "llama" (nDb UserDemo.rolledBack) = Some 100 /\
  (svcGetUserModelRateLimit Demo.cfg "acme" "bob" "llama" UserDemo.rolledBack).1 = inl 0.
Proof. vm_compute. done. Qed.

(** An entry that names a model twice, once with a quota and once without, stores
    the quota and caches its absence. *)
Lemma repeated_model_hides_the_quota :
  sqlSelectUserModelRateLimit "acme" "bob" "llama" (nDb UserDemo.twice) = Some 100 /\
  (svcGetUserModelRateLimit Demo.cfg "acme" "bob" "llama" UserDemo.twice).1 = inl 0.
Proof. vm_compute. done. Qed.

(** The two views of a row by id differ in the operation id. *)
Lemma summaries_differ_in_the_operation k r o : krClientOp r = Some o ->
  sClientOpID (scanSummary k r) = o /\ sClientOpID (summaryOfEntry (scanEntry (k, r))) = "".
Proof. intros E. cbn. by rewrite E. Qed.
