(* ===== verification/KeyStoreRaces.v ===== *)
(** * KeyStoreRaces: revocation against validations in flight

    ValidateAPIKey (pkg/aikey/service.go) is not one step: it looks in the caches,
    asks the store, and only then writes the row it read to the cache, and other
    goroutines run in between.  [validateAsk] is the validation up to the store's
    answer and [validateFill] the write of it; a system is a node and the
    validations that have read a row and not written it yet.  Its steps interleave
    both halves of any number of validations with every read and write of the
    service, invalidations, and any behaviour of the store, of the clock and of the
    other writers of the shared tables.

    The theorem is that a revoked or deleted key is dead on a node that has no
    validation of it in flight; [late_fill_revives_a_revoked_key] is the schedule
    that is left out. *)

From S2P Require Import Prelude StoreErr LookupGuard Objective RateLimit RateSync Common Admission Gateway Identity Classes Tables ClassStore GoCache KeyStore KeyStoreLogic KeyStoreWrites KeyStoreUsers KeyStoreProps.

Open Scope Z_scope.
Open Scope igw_scope.

Section Races.
Context {GC : GoCache} {GL : GoCacheLaws GC} (cfg : lookupGuardConfig) (hashKey : string -> string).
#[local] Abbreviation node := (node (GC := GC)).
#[local] Abbreviation Service := (Service (GC := GC)).
#[local] Abbreviation Op := (Op (GC := GC)).

(** ** Validation in two halves *)

Inductive asked :=
| AskCached (e : ApiKeyEntry)
| AskRow (row : string * keyRow)
| AskErr (e : validateErr).

Definition validateAsk (rawKey : string) : Op asked :=
  let keyHash := hashKey rawKey in
  bindO (validateCached cfg keyHash) (fun c =>
  match c with
  | inl (Some e) => retO (AskCached e)
  | inr e => retO (AskErr e)
  | inl None =>
      bindO (guardedRead cfg (sqlSelectAPIKeyByHash keyHash)) (fun r =>
      match r with
      | inl row => retO (AskRow row)
      | inr e =>
          if isNoRows e then
            bindO (fun n => (tt, setSvc (setNegative (rememberNegative cfg (nNow n) keyHash (sNegative (nSvc n))) (nSvc n)) n))
              (fun _ => retO (AskErr ErrInvalidKey))
          else if isDBUnavailable e then retO (AskErr (ErrStore e))
          else retO (AskErr (ErrStore (readErr e)))
      end)
  end).

(** The halves, one after the other, are the validation. *)
Lemma validate_splits raw n :
  svcValidateAPIKey cfg hashKey raw n =
  match validateAsk raw n with
  | (AskCached e, n') => (inl e, n')
  | (AskErr e, n') => (inr e, n')
  | (AskRow row, n') => let '(e, n2) := validateFill (hashKey raw) row n' in (inl e, n2)
  end.
Proof.
  unfold svcValidateAPIKey, validateAsk, bindO, retO.
  destruct (validateCached cfg (hashKey raw) n) as [[[e|]|e] n1]; [done| |done].
  destruct (guardedRead cfg _ n1) as [[row|e] n2]; [done|]. by destruct (isNoRows e), (isDBUnavailable e).
Qed.

(** ** The system *)

Record vsys := VSys { vNode : node; vFlights : list (string * (string * keyRow)) }.

Definition isValidate (r : readOp) : bool := match r with RdValidate _ => true | _ => false end.

Definition takeOff (raw : string) (a : asked) (fl : list (string * (string * keyRow)))
  : list (string * (string * keyRow)) :=
  match a with AskRow row => (hashKey raw, row) :: fl | _ => fl end.

(** [VWorld]: the store, the clock, the disk and whoever else writes the tables. *)
Inductive vstep : vsys -> vsys -> Prop :=
| VAsk raw n fl :
    vstep (VSys n fl) (VSys (validateAsk raw n).2 (takeOff raw (validateAsk raw n).1 fl))
| VFill h row n fl1 fl2 :
    vstep (VSys n (fl1 ++ (h, row) :: fl2)) (VSys (validateFill h row n).2 (fl1 ++ fl2))
| VRead r n fl : isValidate r = false -> vstep (VSys n fl) (VSys (runRead cfg hashKey r n).2 fl)
| VWrite w n fl : vstep (VSys n fl) (VSys (runWrite hashKey w n).2 fl)
| VFirstUse k n fl : vstep (VSys n fl) (VSys (markFirstUse k n).2 fl)
| VRefresh n fl : vstep (VSys n fl) (VSys (refreshClassesAfterWrite n).2 fl)
| VObjectives n fl : vstep (VSys n fl) (VSys (ObjectiveList n).2 fl)
| VInvalidate inv n fl : vstep (VSys n fl) (VSys (ApplyInvalidation inv n).2 fl)
| VSink on n fl : vstep (VSys n fl) (VSys (SetInvalidationSink on n).2 fl)
| VAttach ok n fl : vstep (VSys n fl) (VSys (Attach ok n).2 fl)
| VWorld d script reads now disk file pending n fl :
    vstep (VSys n fl) (VSys (Node (nSvc n) d script reads now disk file pending) fl).

(** A step after which no enabled row has the hash [h]. *)
Definition deadStep (h : string) (s s' : vsys) : Prop :=
  vstep s s' /\ sqlSelectAPIKeyByHash h (nDb (vNode s')) = None.

(** No validation of the hash has read a row and not written it. *)
Definition grounded (h : string) (s : vsys) : Prop := Forall (fun f => f.1 <> h) (vFlights s).

(** ** What leaves the cache slot of a hash empty *)

Section Frame.
Context (h : string).

Definition bare (n : node) : Prop := forall t, cacheGet t (cacheKeyForHash h) (Cache (nSvc n)) = None.

Definition frames {A} (m : Op A) : Prop := forall n, bare n -> bare (m n).2.

Lemma fr_ret {A} (a : A) : frames (retO a).
Proof. by intros n Hn. Qed.

Lemma fr_bind {A B} (m : Op A) (f : A -> Op B) : frames m -> (forall a, frames (f a)) -> frames (bindO m f).
Proof. intros Hm Hf n Hn. unfold bindO. specialize (Hm n Hn). destruct (m n). by apply Hf. Qed.

Lemma fr_try {A B} (m : Op (A + opErr)) (f : A -> Op (B + opErr)) :
  frames m -> (forall a, frames (f a)) -> frames (tryO m f).
Proof. intros Hm Hf n Hn. unfold tryO. specialize (Hm n Hn). destruct (m n) as [[]]; [by apply Hf|done]. Qed.

(** What does not write the service's cache at all. *)
Definition keepsCache {A} (m : Op A) : Prop := forall n, Cache (nSvc (m n).2) = Cache (nSvc n).

Lemma fr_keeps {A} (m : Op A) : keepsCache m -> frames m.
Proof. intros H n Hn t. rewrite H. apply Hn. Qed.

Lemma fr_modSvc f : (forall s, Cache (f s) = Cache s) -> frames (modSvc f).
Proof. intros H. apply fr_keeps. intros n. apply H. Qed.

Lemma kc_next : keepsCache nextOutcome.
Proof. intros n. unfold nextOutcome. by destruct (nScript n). Qed.

Lemma fr_next : frames nextOutcome.
Proof. apply fr_keeps, kc_next. Qed.

Lemma fr_exec f : frames (execDb f).
Proof.
  apply fr_bind; [apply fr_next|]. intros o. apply fr_keeps. intros n. destruct o as [|e []].
  - destruct (f (nDb n)) as [[]|]; done.
  - destruct (f (nDb n)) as [[]|]; done.
  - done.
Qed.

Lemma fr_query {A} (f : Db -> A) : frames (queryDb f).
Proof. apply fr_bind; [apply fr_next|]. intros []; apply fr_keeps; by intros n. Qed.

Lemma fr_row {A} (f : Db -> option A) : frames (queryRow f).
Proof. apply fr_bind; [apply fr_query|]. intros; apply fr_ret. Qed.

Lemma fr_write f : frames (writeDb f).
Proof. apply fr_bind; [apply fr_exec|]. intros; apply fr_ret. Qed.

Lemma fr_store : frames store.
Proof. apply fr_keeps. by intros n. Qed.

Lemma fr_guard b e : frames (guardO b e).
Proof. apply fr_ret. Qed.

Lemma fr_tx {A} (body : Op (A + opErr)) : frames body -> frames (inTx body).
Proof.
  intros Hb n Hn. unfold inTx. pose proof (fr_next n Hn) as H1. destruct (nextOutcome n) as [[|e ap] n1]; [|done].
  specialize (Hb n1 H1). destruct (body n1) as [[a|e] n2]; [|done]. pose proof (fr_next n2 Hb) as H2.
  destruct (nextOutcome n2) as [[|e []] n3]; done.
Qed.

Lemma fr_read {A} (f : Db -> option A) : frames (guardedRead cfg f).
Proof.
  apply fr_bind.
  { apply fr_keeps. intros n. unfold nextRead. by destruct (nReads n). }
  intros rw n Hn. pose proof (fr_row f n Hn) as H1.
  cbv zeta. match goal with |- context [if ?b then queryRow f n else _] => destruct b end.
  - destruct (queryRow f n) as [r n1]. destruct (dataPathRead cfg _ _ _) as [err g]. exact H1.
  - destruct (dataPathRead cfg _ _ _) as [err g]. exact Hn.
Qed.

Lemma fr_cached {A} (as_ : cacheVal -> option A) k : frames (cachedO as_ k).
Proof. apply fr_keeps. by intros n. Qed.

Lemma fr_set k v : k <> cacheKeyForHash h -> frames (cacheSetO k v).
Proof. intros Hk n Hn t. cbn. rewrite get_set_ne by done. apply Hn. Qed.

Lemma fr_delete k : frames (cacheDeleteO k).
Proof.
  intros n Hn t. cbn. destruct (decide (k = cacheKeyForHash h)) as [->|Hk]; [apply get_delete|].
  rewrite get_delete_ne by done. apply Hn.
Qed.

Lemma fr_remember k v : k <> cacheKeyForHash h -> frames (remember k v).
Proof. intros Hk. apply fr_bind; [by apply fr_set|]. intros _. by apply fr_modSvc. Qed.

Lemma fr_evict inv : frames (modSvc (evict inv)).
Proof.
  assert (forall k s, (forall t, cacheGet t (cacheKeyForHash h) (Cache s) = None) ->
    forall t, cacheGet t (cacheKeyForHash h) (Cache (setCache (cacheDelete k) s)) = None) as Hd.
  { intros k s Hs t. cbn. destruct (decide (k = cacheKeyForHash h)) as [->|Hk]; [apply get_delete|].
    rewrite get_delete_ne by done. apply Hs. }
  intros n Hn. unfold bare. cbn. unfold evict. destruct (ivKeyHash inv ==s ""), (ivKeyID inv ==s ""); cbn.
  - apply Hn.
  - apply (Hd _ (nSvc n)), Hn.
  - apply (Hd _ (nSvc n)), Hn.
  - apply (Hd _ (setCache (cacheDelete (cacheKeyForHash (ivKeyHash inv))) (nSvc n))), Hd, Hn.
Qed.

Lemma fr_fanOut inv : frames (evictAndFanOut inv).
Proof.
  intros n Hn. pose proof (fr_evict inv n Hn) as H. unfold bare in *. cbn in *. intros t. specialize (H t).
  by destruct (sSink (evict inv (nSvc n))).
Qed.

Lemma fr_classes : frames readClasses.
Proof.
  assert (forall A B (q : Op (A + goErr)) (k : A -> Op (B + goErr)),
    frames q -> (forall a, frames (k a)) -> frames (readStep q k)) as Hs.
  { intros A B q k Hq Hk n Hn. unfold readStep. specialize (Hq n Hn). destruct (q n) as [[]]; [by apply Hk|done]. }
  intros n Hn. unfold readClasses. destruct (negb _); [done|].
  apply (Hs _ _ _ _ (fr_query _)); [intros|exact Hn]. do 5 (apply Hs; [apply fr_query|intros]). apply fr_ret.
Qed.

Lemma fr_refresh : frames refreshClassesAfterWrite.
Proof.
  intros n Hn. unfold refreshClassesAfterWrite. pose proof (fr_classes n Hn) as H1.
  destruct (readClasses n) as [r n1]. cbn [snd] in H1. destruct (RefreshClasses _ _ _ _ _ _) as [? [c d]]. exact H1.
Qed.


Ltac frame_step :=
  match goal with
  | |- frames (bindO _ _) => apply fr_bind; [|intros]
  | |- frames (tryO _ _) => apply fr_try; [|intros]
  | |- frames (inTx _) => apply fr_tx
  | |- frames (retO _) => apply fr_ret
  | |- frames (okO _) => apply fr_ret
  | |- frames (failO _) => apply fr_ret
  | |- frames (guardO _ _) => apply fr_ret
  | |- frames store => apply fr_store
  | |- frames nowO => apply fr_keeps; by intros ?
  | |- frames (execDb _) => apply fr_exec
  | |- frames (queryDb _) => apply fr_query
  | |- frames (queryRow _) => apply fr_row
  | |- frames (writeDb _) => apply fr_write
  | |- frames (guardedRead _ _) => apply fr_read
  | |- frames (cachedO _ _) => apply fr_cached
  | |- frames (lastO _) => apply fr_keeps; by intros ?
  | |- frames (cacheDeleteO _) => apply fr_delete
  | |- frames (evictAndFanOut _) => apply fr_fanOut
  | |- frames refreshClassesAfterWrite => apply fr_refresh
  | |- frames (modSvc _) => apply fr_modSvc; by intros ?
  | |- frames (remember _ _) => apply fr_remember; discriminate
  | |- frames (match ?x with _ => _ end) => destruct x
  end.

Ltac frame := repeat (frame_step; cbv beta).

Lemma fr_stmts t ml : frames (tenantModelStmts t ml).
Proof. induction ml as [|m ml IH]; cbn [tenantModelStmts]; frame. exact IH. Qed.

Lemma fr_caches t ml : frames (tenantModelCaches t ml).
Proof. induction ml as [|m ml IH]; cbn [tenantModelCaches]; unfold rememberRateLimit; frame; exact IH. Qed.

Lemma fr_userStmts t u ml : frames (userModelStmts t u ml).
Proof. induction ml as [|m ml IH]; cbn [userModelStmts]; frame; exact IH. Qed.

Lemma fr_userCaches t u ml : frames (userModelCaches t u ml).
Proof. induction ml as [|m ml IH]; cbn [userModelCaches]; unfold rememberUserRateLimit; frame; exact IH. Qed.

Lemma fr_forget t u : frames (forgetUserModelRateLimits t u).
Proof.
  apply fr_bind; [apply fr_query|]. intros [rows|e]; [|apply fr_ret].
  induction rows as [|m rows IH]; [apply fr_ret|].
  unfold rememberUserRateLimit in *. frame. exact IH.
Qed.

(** Every write of the service. *)
Lemma fr_runWrite w : frames (runWrite hashKey w).
Proof.
  assert (forall A E (m : Op (A + E)), frames m -> frames (succeeds m)) as Hs.
  { intros A E m Hm n Hn. unfold succeeds. specialize (Hm n Hn). by destruct (m n). }
  destruct w; cbn [runWrite]; apply Hs.
  - unfold CreateKey, createBody, insertKey. frame.
  - unfold RevokeAPIKey, keyHashByID. frame.
  - unfold DeleteAPIKey, keyHashByID. frame.
  - unfold PatchAPIKeyAll, patchBody, patchStep, keyHashByID. frame.
  - unfold SetTenantRateLimit, rememberRateLimit. frame.
  - unfold SetTenantModelRateLimit, rememberRateLimit. frame.
  - unfold SetTenantLimits, rememberRateLimit. frame; [apply fr_stmts|apply fr_caches].
  - unfold SetUserRateLimit, rememberUserRateLimit. frame; [apply fr_forget|apply fr_userStmts|apply fr_userCaches].
  - unfold DeleteUserRateLimit, rememberUserRateLimit. frame. apply fr_forget.
  - unfold SetRateLimitDefaults, rememberDefaults. frame.
  - unfold DeleteRateLimitDefaults, rememberDefaults. frame.
  - unfold SetObjective. frame.
  - unfold DeleteObjective. frame.
  - unfold SetTenantClass. frame.
  - unfold PatchTenantClass. frame.
  - unfold SetAPIKeyClass. frame.
Qed.

(** Every read but the validation. *)
Lemma fr_runRead r : isValidate r = false -> frames (runRead cfg hashKey r).
Proof.
  assert (forall A E (g : A -> answer) (m : Op (A + E)), frames m -> frames (answerWith g m)) as Ha.
  { intros A E g m Hm n Hn. unfold answerWith. specialize (Hm n Hn). by destruct (m n). }
  intros Hr. destruct r; try done; cbn [runRead]; apply Ha.
  - unfold svcGetTenantRateLimit, rememberRateLimit, orLastKnown. frame.
  - unfold svcGetTenantModelRateLimit, rememberRateLimit, orLastKnown. frame.
  - unfold svcGetAPIKeyByID, rememberKeySummary, forgetKeySummary. frame.
  - unfold svcGetUserRateLimit, rememberUserRateLimit, orLastKnown. frame.
  - unfold svcGetUserModelRateLimit, rememberUserRateLimit, orLastKnown. frame.
  - unfold svcGetRateLimitDefaults, rememberDefaults, orLastKnown. frame.
Qed.

Lemma fr_ask raw : frames (validateAsk raw).
Proof.
  unfold validateAsk, validateCached. frame; apply fr_keeps; intros n; cbn; try done. by destruct (negativeHit _ _ _ _).
Qed.

Lemma fr_firstUse k : frames (markFirstUse k).
Proof.
  intros n Hn. unfold markFirstUse. destruct (sConnected (nSvc n)); [|done].
  pose proof (fr_exec (sqlMarkAPIKeyFirstUse (nNow n) k) n Hn) as H. by destruct (execDb _ n).
Qed.

Lemma fr_objectives : frames ObjectiveList.
Proof.
  intros n Hn. unfold ObjectiveList. destruct (takeTicket _) as [gen c]. cbv zeta.
  assert (frames ListObjectives) as Hl by (unfold ListObjectives, listO; frame).
  assert (bare (setSvc (setClass c (nSvc n)) n)) as Hb by exact Hn. specialize (Hl _ Hb).
  destruct (ListObjectives _) as [r n1]. cbn [snd] in Hl. destruct (StoreHealth _) as [re la].
  destruct r as [objs|e]; [exact Hl|]. destruct (AppliedObjectives _ _) as [[[? ?] ?]|]; exact Hl.
Qed.

Lemma fr_fill x row : x <> h -> frames (validateFill x row).
Proof.
  intros Hx. unfold validateFill, rememberKeySummary. frame; try (by apply fr_keeps; intros n).
  apply fr_set. intros E. apply Hx. unfold cacheKeyForHash in E. by apply string_app_inj_l in E.
Qed.

End Frame.

(** ** The revoke and the delete *)

Lemma row_answered {A} (f : Db -> option A) n a n' : queryRow f n = (inl a, n') ->
  f (nDb n) = Some a /\ nDb n' = nDb n /\ nSvc n' = nSvc n.
Proof.
  unfold queryRow, queryDb, bindO, nextOutcome, retO. destruct (nScript n) as [|[|e ap] l]; cbn;
    try (destruct (f (nDb n)) eqn:E; intros [= <- <-]; done); done.
Qed.

Lemma write_answered f n c n' : writeDb f n = (inl c, n') ->
  f (nDb n) = inl (nDb n', c) /\ nSvc n' = nSvc n.
Proof.
  unfold writeDb, execDb, bindO, nextOutcome, retO. destruct (nScript n) as [|[|e ap] l]; cbn;
    try (destruct (f (nDb n)) as [[d c']|ix] eqn:E; cbn; intros [= <- <-]; done).
Qed.

Lemma evict_bare h k n : h <> "" -> bare h (evictAndFanOut (Invalidation h k) n).2.
Proof.
  intros Hh. assert (bare h (setSvc (setNegative (forgetNegative h (sNegative (nSvc n)))
    (setCache (cacheDelete (cacheKeyForHash h)) (nSvc n))) n)) as Hb by (intros t; apply get_delete).
  assert (bare h (ApplyInvalidation (Invalidation h k) n).2) as H1.
  { unfold bare. cbn. unfold evict. cbn. destruct (String.eqb_spec h ""); [done|].
    exact (fr_evict h (Invalidation "" k) _ Hb). }
  intros t. specialize (H1 t). cbn in *. by destruct (sSink (evict _ _)).
Qed.

Lemma kill_answers w k n n' : dbOk (nDb n) -> w = WrRevoke k \/ w = WrDelete k -> runWrite hashKey w n = (true, n') ->
  exists row, api_keys (nDb n) !! k = Some row /\ killed k row (nDb n) (nDb n') /\ bare (key_hash row) n' /\
    (sSink (nSvc n) = true -> Invalidation (key_hash row) k ∈ sFanOut (nSvc n')).
Proof.
  intros Hok Hw. assert (forall f, (forall d c row, api_keys (nDb n) !! k = Some row -> f (nDb n) = inl (d, c) -> killed k row (nDb n) d) ->
    succeeds (tryO store (fun _ => tryO (keyHashByID k) (fun h => tryO (writeDb f) (fun _ =>
      bindO (evictAndFanOut (Invalidation h k)) (fun _ => okO tt))))) n = (true, n') ->
    exists row, api_keys (nDb n) !! k = Some row /\ killed k row (nDb n) (nDb n') /\ bare (key_hash row) n' /\
      (sSink (nSvc n) = true -> Invalidation (key_hash row) k ∈ sFanOut (nSvc n'))) as H.
  { intros f Hf. unfold succeeds, tryO, store, keyHashByID, bindO at 1 2, retO at 1.
    destruct (sConnected (nSvc n)); [|done].
    destruct (queryRow (sqlSelectKeyHashByID k) n) as [[h|e] n1] eqn:E1; [|by destruct (isNoRows e)].
    destruct (writeDb f n1) as [[c|e] n2] eqn:E2; [|done]. cbn [bindO okO retO]. intros Hn.
    apply row_answered in E1 as (Hh & Ed1 & Es1). apply write_answered in E2 as [Hx Es2]. rewrite Ed1 in Hx.
    unfold sqlSelectKeyHashByID in Hh. destruct (api_keys (nDb n) !! k) as [row|] eqn:Er; [|done]. injection Hh as <-.
    injection Hn as <-. exists row. split; [done|]. split; [exact (Hf _ _ _ eq_refl Hx)|].
    split; [apply evict_bare; by apply (proj1 Hok k row Er)|].
    intros Hs. cbn. assert (sSink (evict (Invalidation (key_hash row) k) (nSvc n2)) = true) as ->.
    { unfold evict. cbn. rewrite Es2, Es1. by destruct (_ ==s _), (_ ==s _). }
    left. }
  destruct Hw as [->| ->]; apply H; intros d c row Hr Hx.
  - left. unfold sqlUpdateAPIKeyEnabled, updateKey in Hx. rewrite Hr in Hx. by destruct (hashTaken _ _ _); [|injection Hx as <- _].
  - right. unfold sqlDeleteAPIKeyByID in Hx. rewrite Hr in Hx. by injection Hx as <- _.
Qed.

(** ** A dead key *)

Lemma read_answered {A} (f : Db -> option A) n a n' : guardedRead cfg f n = (inl a, n') -> f (nDb n) = Some a.
Proof.
  unfold guardedRead, bindO. assert (nDb (nextRead n).2 = nDb n) as Ed by (unfold nextRead; by destruct (nReads n)).
  destruct (nextRead n) as [rw n0]. cbn [snd] in Ed. cbv zeta.
  match goal with |- context [if ?b then queryRow f n0 else _] => destruct b end.
  - destruct (queryRow f n0) as [[x|e] n1] eqn:E1; destruct (dataPathRead cfg _ _ _) as [[err|] g]; intros [= -> <-].
    apply row_answered in E1 as [E1 _]. by rewrite <- Ed.
  - destruct (dataPathRead cfg _ _ _) as [[err|] g]; discriminate.
Qed.

(** With nothing cached and no enabled row, a validation answers an error. *)
Lemma dead_ask raw n : bare (hashKey raw) n -> sqlSelectAPIKeyByHash (hashKey raw) (nDb n) = None ->
  exists e, (validateAsk raw n).1 = AskErr e.
Proof.
  intros Hb Hn. unfold validateAsk, validateCached, cachedO, bindO, retO. rewrite (Hb (nNow n)). cbn [mbind option_bind].
  destruct (negativeHit _ _ _ _) as [[] neg]; [eauto|].
  destruct (guardedRead cfg _ _) as [[row|e] n2] eqn:E.
  - apply read_answered in E. cbn in E. congruence.
  - destruct (isNoRows e), (isDBUnavailable e); cbn; eauto.
Qed.

(** Nothing is cached under the hash, and nobody is about to cache it. *)
Definition deadAt (h : string) (s : vsys) : Prop :=
  bare h (vNode s) /\ grounded h s /\ sqlSelectAPIKeyByHash h (nDb (vNode s)) = None.

Lemma deadAt_step h s s' : deadAt h s -> deadStep h s s' -> deadAt h s'.
Proof.
  intros (Hb & Hg & Hn) [Hs Hn']. destruct Hs; (split; [|split; [|exact Hn']]);
    cbn [vNode vFlights] in *; try exact Hg.
  - by apply fr_ask.
  - unfold grounded, takeOff in *. cbn in *. destruct (String.eqb_spec (hashKey raw) h) as [<-|Hne].
    + destruct (dead_ask raw n Hb Hn) as [e ->]. exact Hg.
    + destruct (validateAsk raw n).1; [done|by constructor|done].
  - unfold grounded in Hg. cbn in Hg. apply Forall_app in Hg as [_ [Hx _]%Forall_cons]. by apply fr_fill.
  - unfold grounded in *. cbn in *. apply Forall_app in Hg as [H1 [_ H2]%Forall_cons]. by apply Forall_app.
  - by apply fr_runRead.
  - by apply fr_runWrite.
  - by apply fr_firstUse.
  - by apply fr_refresh.
  - by apply fr_objectives.
  - by apply fr_evict.
  - exact Hb.
  - destruct ok; exact Hb.
  - exact Hb.
Qed.

Lemma deadAt_run h s s' : rtc (deadStep h) s s' -> deadAt h s -> deadAt h s'.
Proof. induction 1; eauto using deadAt_step. Qed.

(** No validation of [raw] answers an entry: not from the cache, not with a row,
    and none is about to be written. *)
Definition refusesKey (raw : string) (s : vsys) : Prop :=
  (forall e, (svcValidateAPIKey cfg hashKey raw (vNode s)).1 <> inl e) /\
  (exists e, (validateAsk raw (vNode s)).1 = AskErr e) /\ grounded (hashKey raw) s.

Lemma deadAt_refuses raw s : deadAt (hashKey raw) s -> refusesKey raw s.
Proof.
  intros (Hb & Hg & Hn). destruct (dead_ask raw (vNode s) Hb Hn) as [e He]. split; [|eauto].
  intros x. rewrite validate_splits. destruct (validateAsk raw (vNode s)) as [a n']. cbn in He. by subst a.
Qed.

(** C4: a revoked or deleted key is dead at once here and, once the invalidation
    arrives, on every peer.  When the revoke or delete of a key answers success on
    a node whose tables respect their unique indexes, and no validation of that key
    is in flight there (has read its row from the store and not yet written it to
    the cache), then in every later state no validation of the raw key answers an
    entry, from the cache or from the store, whatever both halves of other
    validations, reads, writes, invalidations, outages and other writers of the
    tables do in between, as long as no enabled row comes back under the key's
    hash; the peers were handed the key's hash and id (when a sink is set); and
    the same holds of a peer from the moment it applies that invalidation with no
    validation of the key in flight.  The statements of the revoke itself are not
    interleaved with another write of the same row.  A validation that is in
    flight across the revoke does revive the key
    ([late_fill_revives_a_revoked_key]). *)
Theorem dead_key_never_validates n fl w k n' raw :
  dbOk (nDb n) -> w = WrRevoke k \/ w = WrDelete k -> runWrite hashKey w n = (true, n') ->
  exists row, api_keys (nDb n) !! k = Some row /\ let inv := Invalidation (key_hash row) k in
    sqlSelectAPIKeyByHash (key_hash row) (nDb n') = None /\
    (sSink (nSvc n) = true -> inv ∈ sFanOut (nSvc n')) /\
    (hashKey raw = key_hash row ->
     (grounded (key_hash row) (VSys n' fl) ->
      forall s, rtc (deadStep (key_hash row)) (VSys n' fl) s -> refusesKey raw s) /\
     (forall p flp, sqlSelectAPIKeyByHash (key_hash row) (nDb p) = None ->
      grounded (key_hash row) (VSys p flp) ->
      forall s, rtc (deadStep (key_hash row)) (VSys (ApplyInvalidation inv p).2 flp) s -> refusesKey raw s)).
Proof.
  intros Hok Hw Hex. destruct (kill_answers w k n n' Hok Hw Hex) as (row & Hr & Hk & Hb & Hf).
  pose proof (killed_dead k row (nDb n) (nDb n') Hok Hr Hk) as Hdead.
  exists row. split; [done|]. intros inv. split; [done|]. split; [done|]. intros Hraw. rewrite <- Hraw in *. split.
  - intros Hg s Hrun. apply deadAt_refuses, (deadAt_run _ _ _ Hrun). done.
  - intros p flp Hn Hg s Hrun. apply deadAt_refuses, (deadAt_run _ _ _ Hrun). split; [|done].
    intros t. pose proof (evict_bare (hashKey raw) k p) as H. cbn in *. unfold bare in H. cbn in H. subst inv.
    rewrite Hraw in H |- *. specialize (H (proj2 (proj1 Hok k row Hr)) t). by destruct (sSink (evict _ _)).
Qed.

End Races.

(** The key validates before the revoke; afterwards, with a validation of another
    key in flight across it, it never does. *)
Lemma dead_key_witness :
  (exists e, (svcValidateAPIKey Demo.cfg Demo.hash "lxb_s1" Demo.validated).1 = inl e) /\
  refusesKey Demo.cfg Demo.hash "lxb_s1"
    (VSys (validateFill "other" ("k9", createdRow Demo.entry noPolicy "other" 0) Demo.revoked).2 []).
Proof.
  split; [eexists; vm_compute; reflexivity|].
  destruct (dead_key_never_validates Demo.cfg Demo.hash Demo.validated
    [("other", ("k9", createdRow Demo.entry noPolicy "other" 0))] (WrRevoke "k1") "k1" Demo.revoked "lxb_s1")
    as (row & Hr & Hn & _ & H); [| |vm_compute; reflexivity|].
  - destruct (run_inv Demo.cfg Demo.hash _ _ Demo.validated_run) as [Hc _];
      [by eapply new_coherent; [|exact Demo.start_ok]|constructor|apply Hc].
  - by left.
  - vm_compute in Hr. injection Hr as <-. destruct (H eq_refl) as [H1 _]. apply H1.
    + by constructor.
    + eapply rtc_l; [|apply rtc_refl]. split; [apply (VFill Demo.cfg Demo.hash _ _ _ [] [])|]. vm_compute. reflexivity.
Defined.

(** The row a validation had read before the revoke reached the store is written
    to the cache after the revoke evicted it: the revoked key validates here. *)
Lemma late_fill_revives_a_revoked_key : let row := ("k1", createdRow Demo.entry noPolicy "hlxb_s1" 0) in
  sqlSelectAPIKeyByHash (Demo.hash "lxb_s1") (nDb Demo.created) = Some row /\
  (RevokeAPIKey "k1" Demo.created).1 = inl tt /\
  (svcValidateAPIKey Demo.cfg Demo.hash "lxb_s1"
     (validateFill (Demo.hash "lxb_s1") row (RevokeAPIKey "k1" Demo.created).2).2).1 = inl (scanEntry row).
Proof. vm_compute. done. Qed.
