(* ===== verification/GatewayStore.v ===== *)
(** * GatewayStore: the admission ladder over the key store

    The composition of Admission.v with KeyStore.v.  The tables, read directly,
    are a service of their own; the key store simulates it, answering the same
    limits or failing, and the ladder run over the key store admits only what
    the ladder run over the tables admits. *)

From S2P Require Import Prelude StoreErr LookupGuard Objective RateLimit RateSync QuotaProps Common Admission Gateway Identity AdmissionProps Classes Tables ClassStore GoCache KeyStore KeyStoreLogic KeyStoreWrites KeyStoreUsers KeyStoreProps.

Open Scope Z_scope.
Open Scope igw_scope.

(** ** The tables as a service *)

#[export] Instance tableReads : RateLimitService Db := {|
  GetTenantRateLimit t d := (inl (default (0, 0, 0) (sqlSelectTenantRateLimit t d)), d);
  GetTenantModelRateLimit t m d := (inl (if m ==s "" then 0 else default 0 (sqlSelectTenantModelRateLimit t m d)), d);
  GetAPIKeyByID k d := (match sqlSelectAPIKeyByID k d with Some r => inl (scanSummary k r) | None => inr plainErr end, d);
  GetUserRateLimit t u d :=
    (inl match sqlSelectUserRateLimit t u d with Some r => (urRPS r, urBurst r, urTPM r) | None => (0, 0, 0) end, d);
  GetUserModelRateLimit t u m d := (inl (if m ==s "" then 0 else default 0 (sqlSelectUserModelRateLimit t u m d)), d);
  GetRateLimitDefaults s i d :=
    (inl match sqlSelectRateLimitDefaults s i d with
         | Some e => (DefaultsEntry s i (DefaultUserRPS e) (DefaultUserTPM e) (DefaultTenantRPS e) (DefaultTenantTPM e)
                        (VipSharedRPS e) (VipSharedTPM e), true)
         | None => (noDefaults s i, false)
         end, d)
|}.

#[export] Instance tableStable : StableReads Db.
Proof. split; done. Qed.

(** ** Simulation of the ladder *)

Section Simulation.
Context {RL : RateLib} {S1 S2 : Type} {R1 : RateLimitService S1} {R2 : RateLimitService S2} {ST : StableReads S2}.
Context (rel : S1 -> S2 -> Prop).

(** An answer of the first service is the second's; a failure promises nothing. *)
Definition sameAnswer {A} (r1 r2 : A + goErr) : Prop := match r1 with inl _ => r2 = r1 | inr _ => True end.

(** The limits of a key, or its absence; a failure is an outage. *)
Definition sameKey (r1 r2 : ApiKeySummary + goErr) : Prop :=
  match r1, r2 with
  | inl a, inl b => sRateLimitRPS a = sRateLimitRPS b /\ sBurstSize a = sBurstSize b /\ sTokensPerMin a = sTokensPerMin b
  | inl _, inr _ => False
  | inr e, inl _ => isDBUnavailable e = true
  | inr e, inr e' => isDBUnavailable e = true \/ isDBUnavailable e' = false
  end.

(** A read of the first service agrees with the second's and keeps the relation. *)
Definition simRead {A} (P : A + goErr -> A + goErr -> Prop) (f1 : S1 -> (A + goErr) * S1) (f2 : S2 -> (A + goErr) * S2) : Prop :=
  forall s1 s2, rel s1 s2 -> P (f1 s1).1 (f2 s2).1 /\ rel (f1 s1).2 s2.

(** The reads one request makes. *)
Class SimReads (k t u si m : string) : Prop := {
  sim_tenant : simRead sameAnswer (GetTenantRateLimit t) (GetTenantRateLimit t);
  sim_model : simRead sameAnswer (GetTenantModelRateLimit t m) (GetTenantModelRateLimit t m);
  sim_key : simRead sameKey (GetAPIKeyByID k) (GetAPIKeyByID k);
  sim_user : simRead sameAnswer (GetUserRateLimit t u) (GetUserRateLimit t u);
  sim_usermodel : simRead sameAnswer (GetUserModelRateLimit t u m) (GetUserModelRateLimit t u m);
  sim_global : simRead sameAnswer (GetRateLimitDefaults RateLimitScopeGlobal "") (GetRateLimitDefaults RateLimitScopeGlobal "");
  sim_rule : simRead sameAnswer (GetRateLimitDefaults RateLimitScopeRule si) (GetRateLimitDefaults RateLimitScopeRule si)
}.

(** What the first run passes, the second passes with a related result. *)
Definition simM {A B} (P : A -> B -> Prop) (m1 : M (Svc := S1) A) (m2 : M (Svc := S2) B) : Prop :=
  forall s1 s2 s a g', rel s1 s2 -> m1 (Some s1, s) = (inr a, g') ->
  exists s1' s' b, g' = (Some s1', s') /\ rel s1' s2 /\ P a b /\ m2 (Some s2, s) = (inr b, (Some s2, s')).

Lemma sim_ret {A B} (P : A -> B -> Prop) a b : P a b -> simM P (ret a) (ret b).
Proof. intros H s1 s2 s a' g' Hr [= <- <-]. by exists s1, s, b. Qed.

Lemma sim_deny {A B} (P : A -> B -> Prop) w m2 : simM P (deny w) m2.
Proof. by intros s1 s2 s a g' _ [=]. Qed.

Lemma sim_bind {A B C D} (P : A -> B -> Prop) (Q : C -> D -> Prop) m1 m2 f1 f2 :
  simM P m1 m2 -> (forall a b, P a b -> simM Q (f1 a) (f2 b)) -> simM Q (bind m1 f1) (bind m2 f2).
Proof.
  intros Hm Hf s1 s2 s c g' Hr (a & g1 & H1 & H2)%bind_inr.
  destruct (Hm _ _ _ _ _ Hr H1) as (s1' & s' & b & -> & Hr' & HP & E). unfold bind. rewrite E. by eapply Hf.
Qed.

Lemma sim_gets {A} (f : RateLimiterStore -> A) : simM eq (gets f) (gets f).
Proof. intros s1 s2 s a g' Hr [= <- <-]. by exists s1, s, (f s). Qed.

Lemma sim_onStore {A} (f : RateLimiterStore -> A * RateLimiterStore) : simM eq (onStore f) (onStore f).
Proof. intros s1 s2 s a g' Hr. cbn. destruct (f s) as [x s']. intros [= <- <-]. by exists s1, s', x. Qed.

Lemma sim_guard b w : simM eq (guardM b w) (guardM b w).
Proof. destruct b; [by apply sim_ret|apply sim_deny]. Qed.

Lemma sim_orDown {A} (r1 r2 : A + goErr) : sameAnswer r1 r2 -> simM eq (orDown r1) (orDown r2).
Proof. destruct r1; cbn; [intros ->; by apply sim_ret|intros _; apply sim_deny]. Qed.

Lemma sim_readSvc {A} P (dflt : A) f1 f2 : simRead P f1 f2 -> (forall s, (f2 s).2 = s) ->
  simM P (readSvc dflt f1) (readSvc dflt f2).
Proof.
  intros Hf Hs s1 s2 s a g' Hr. cbn. destruct (Hf s1 s2 Hr) as [HP Hr']. specialize (Hs s2).
  destruct (f1 s1) as [r1 v1], (f2 s2) as [r2 v2]. cbn in *. subst v2. intros [= <- <-]. by exists v1, s, r2.
Qed.

Lemma defaults_total si (s2 : S2) s : defaultsM si (Some s2, s) = (inr (resolveQoSDefaults si (Some s2)).1, (Some s2, s)).
Proof.
  destruct (defaultsM si (Some s2, s)) as [[w|r] g] eqn:E; [|by apply defaultsM_inr in E as (-> & -> & _)].
  unfold defaultsM in E. by destruct (resolveQoSDefaults si (Some s2)).
Qed.

Section Request.
Context {k t u si m : string} {HS : SimReads k t u si m}.

Lemma sim_resolve s1 s2 : rel s1 s2 ->
  sameAnswer (resolveQoSDefaults si (Some s1)).1 (resolveQoSDefaults si (Some s2)).1 /\
  exists s1', (resolveQoSDefaults si (Some s1)).2 = Some s1' /\ rel s1' s2.
Proof.
  intros Hr. unfold resolveQoSDefaults. destruct (sim_global s1 s2 Hr) as [H1 Hr1].
  pose proof (stable_defaults RateLimitScopeGlobal "" s2) as E1.
  destruct (GetRateLimitDefaults RateLimitScopeGlobal "" s1) as [[[g gOK]|e] v1]; [|cbn; eauto].
  cbn [fst snd sameAnswer] in *. destruct (GetRateLimitDefaults RateLimitScopeGlobal "" s2) as [r2 v2]. cbn [fst snd] in *. subst r2 v2.
  destruct (si ==s ""); [cbn; eauto|]. destruct (sim_rule v1 s2 Hr1) as [H2 Hr2].
  pose proof (stable_defaults RateLimitScopeRule si s2) as E2.
  destruct (GetRateLimitDefaults RateLimitScopeRule si v1) as [[[r rOK]|e] v3]; [|cbn; eauto].
  cbn [fst snd sameAnswer] in *. destruct (GetRateLimitDefaults RateLimitScopeRule si s2) as [r2 v2]. cbn [fst snd] in *. subst r2 v2.
  cbn. eauto.
Qed.

Lemma sim_defaults : simM sameAnswer (defaultsM si) (defaultsM si).
Proof.
  intros s1 s2 s a g' Hr E. destruct (sim_resolve s1 s2 Hr) as (HA & s1' & Es & Hr'). rewrite defaults_total.
  unfold defaultsM in E. destruct (resolveQoSDefaults si (Some s1)) as [r sv]. cbn in *. injection E as <- <-. subst sv.
  by exists s1', s, (resolveQoSDefaults si (Some s2)).1.
Qed.

Lemma sim_check f code : simM eq (checkM f code) (checkM f code).
Proof. unfold checkM. eapply sim_bind; [apply sim_onStore|]. intros [ok r] ? <-. apply sim_guard. Qed.

Lemma sim_latch env tpm key : simM eq (latch env tpm key) (latch env tpm key).
Proof. unfold latch. eapply sim_bind; [apply sim_gets|]. intros b ? <-. apply sim_guard. Qed.

Lemma sim_warming b : simM eq (warmingGate b) (warmingGate b).
Proof. unfold warmingGate. eapply sim_bind; [apply sim_gets|]. intros w ? <-. apply sim_guard. Qed.

Lemma sim_keyStage now : simM eq (keyStage now k) (keyStage now k).
Proof.
  unfold keyStage. destruct (k ==s ""); [by apply sim_ret|].
  eapply sim_bind; [apply sim_readSvc; [apply sim_key|intros; apply stable_key]|]. intros r1 r2 HK.
  apply (sim_bind eq).
  - destruct r1 as [a|e], r2 as [b|e']; cbn in HK; [|done|rewrite HK; apply sim_deny|].
    + destruct HK as (-> & -> & ->). by apply sim_ret.
    + destruct (isDBUnavailable e); [apply sim_deny|]. destruct HK as [?| ->]; [done|by apply sim_ret].
  - intros [[rps bu] tpm] ? <-. eapply sim_bind; [apply sim_check|]. intros _ _ _. by apply sim_ret.
Qed.

Lemma sim_userStage now d : simM eq (userStage now d t u) (userStage now d t u).
Proof.
  unfold userStage. destruct (_ || _); [by apply sim_ret|].
  eapply sim_bind; [apply sim_readSvc; [apply sim_user|intros; apply stable_user]|]. intros r1 r2 HA.
  eapply sim_bind; [by apply sim_orDown|]. intros [[rps b] tpm] ? <-.
  destruct (if rps <=? 0 then _ else _) as [uR uB]. eapply sim_bind; [apply sim_check|]. intros _ _ _. by apply sim_ret.
Qed.

Lemma sim_tenantStage env now d kT uT : simM eq (tenantStage env now d k t u m kT uT) (tenantStage env now d k t u m kT uT).
Proof.
  unfold tenantStage. destruct (t ==s ""); [by apply sim_ret|].
  eapply sim_bind; [apply sim_readSvc; [apply sim_tenant|intros; apply stable_tenant]|]. intros r1 r2 HA.
  eapply sim_bind; [by apply sim_orDown|]. intros [[rps tpm] b] ? <-. eapply sim_bind; [apply sim_check|]. intros _ _ _.
  eapply (sim_bind sameAnswer).
  { destruct (m ==s ""); [by apply sim_ret|]. apply sim_readSvc; [apply sim_model|intros; apply stable_model]. }
  intros rm1 rm2 HM. eapply sim_bind; [by apply sim_orDown|]. intros mT ? <-.
  eapply (sim_bind sameAnswer).
  { destruct (_ || _); [by apply sim_ret|]. apply sim_readSvc; [apply sim_usermodel|intros; apply stable_usermodel]. }
  intros ru1 ru2 HU. eapply sim_bind; [by apply sim_orDown|]. intros uM ? <-.
  eapply sim_bind; [apply sim_warming|]. intros _ _ _.
  repeat (eapply sim_bind; [apply sim_latch|]; intros _ _ _). apply sim_latch.
Qed.

(** The ladder over the first service passes only what it passes over the second. *)
Lemma sim_ladder env now : simM eq (ladder env now k t u si m) (ladder env now k t u si m).
Proof.
  unfold ladder. eapply sim_bind; [apply sim_defaults|]. intros r1 r2 HA. eapply sim_bind; [by apply sim_orDown|]. intros d ? <-.
  eapply sim_bind; [apply sim_keyStage|]. intros kT ? <-. eapply sim_bind; [apply sim_userStage|]. intros uT ? <-.
  apply sim_tenantStage.
Qed.
End Request.
End Simulation.

(** ** The key store simulates its tables *)

Section KeyStoreSim.
Context {GC : GoCache} {GL : GoCacheLaws GC} (cfg : lookupGuardConfig).
#[local] Abbreviation node := (node (GC := GC)).
#[local] Abbreviation Op := (Op (GC := GC)).

(** Every failure of the store is one the classification calls an outage. *)
Definition outageOutcome (o : outcome) : Prop :=
  match o with Answered => True | Broken e _ => isDBUnavailable (readErr e) = true end.
Definition outages (n : node) : Prop := Forall outageOutcome (nScript n).

(** *** Operations that only consume the script *)

Definition consumes {A} (op : Op A) : Prop := forall n, exists l, nScript n = l ++ nScript (op n).2.

Lemma consumes_same {A} (op : Op A) : (forall n, nScript (op n).2 = nScript n) -> consumes op.
Proof. intros H n. exists []. by rewrite H. Qed.

Lemma consumes_bind {A B} (op : Op A) (f : A -> Op B) : consumes op -> (forall a, consumes (f a)) -> consumes (bindO op f).
Proof.
  intros H1 H2 n. unfold bindO. destruct (H1 n) as [l1 E1]. destruct (op n) as [a n1]. destruct (H2 a n1) as [l2 E2].
  exists (l1 ++ l2). cbn in E1. by rewrite E1, E2, app_assoc.
Qed.

Lemma consumes_guardedRead {A} (f : Db -> option A) : consumes (guardedRead cfg f).
Proof.
  unfold guardedRead. apply consumes_bind; [apply consumes_same; intros n; unfold nextRead; by destruct (nReads n)|].
  intros rw n. cbv zeta. destruct (sConnected _ && _).
  - unfold queryRow, queryDb, bindO, nextOutcome. destruct (nScript n) as [|o l] eqn:E.
    + exists []. cbn. destruct (f (nDb n)); cbn; destruct (dataPathRead _ _ _ _); cbn; by rewrite E.
    + exists [o]. destruct o; cbn; [destruct (f (nDb n)); cbn|]; destruct (dataPathRead _ _ _ _); done.
  - exists []. by destruct (dataPathRead _ _ _ _).
Qed.

Ltac consume :=
  repeat first
    [ apply consumes_guardedRead | apply consumes_bind | progress intros
    | solve [apply consumes_same; intros; reflexivity] | case_match ].

Lemma consumes_tenant t : consumes (svcGetTenantRateLimit cfg t).
Proof. unfold svcGetTenantRateLimit, orLastKnown. consume. Qed.
Lemma consumes_model t m : consumes (svcGetTenantModelRateLimit cfg t m).
Proof. unfold svcGetTenantModelRateLimit, orLastKnown. consume. Qed.
Lemma consumes_user t u : consumes (svcGetUserRateLimit cfg t u).
Proof. unfold svcGetUserRateLimit, orLastKnown. consume. Qed.
Lemma consumes_usermodel t u m : consumes (svcGetUserModelRateLimit cfg t u m).
Proof. unfold svcGetUserModelRateLimit, orLastKnown. consume. Qed.
Lemma consumes_defaults s i : consumes (svcGetRateLimitDefaults cfg s i).
Proof. unfold svcGetRateLimitDefaults, orLastKnown. consume. Qed.
Lemma consumes_key k : consumes (svcGetAPIKeyByID cfg k).
Proof. unfold svcGetAPIKeyByID. consume. Qed.

Lemma outages_after {A} (op : Op A) n : consumes op -> outages n -> outages (op n).2.
Proof. intros H Ho. destruct (H n) as [l E]. unfold outages in *. rewrite E in Ho. by apply Forall_app in Ho as [_ ?]. Qed.

(** *** The key's read *)

(** A failed read is a missing row, or an outage. *)
Definition missingOrOut {A} (row : option A) (e : goErr) : Prop :=
  (isNoRows e = true /\ row = None) \/ (isNoRows e = false /\ isDBUnavailable (readErr e) = true).

Lemma queryRow_error {A} (f : Db -> option A) n e : definite n -> outages n -> (queryRow f n).1 = inr e -> missingOrOut (f (nDb n)) e.
Proof.
  unfold queryRow, queryDb, bindO, nextOutcome, definite, outages. destruct (nScript n) as [|o l].
  - intros _ _. cbn. destruct (f (nDb n)); [done|]. intros [= <-]. by left.
  - intros [Hd _]%Forall_cons [Ho _]%Forall_cons. destruct o as [|e' b]; cbn.
    + destruct (f (nDb n)); [done|]. intros [= <-]. by left.
    + intros [= ->]. right. split; [apply Hd|exact Ho].
Qed.

Lemma dataPathRead_outage env fnErr g e : (dataPathRead cfg env fnErr g).1 = Some e -> fnErr = Some e \/ e = errStoreUnavailable.
Proof.
  unfold dataPathRead. destruct (connected env); cbn [negb]; [|intros [= <-]; by right].
  destruct (admitLookup _ _ _ _) as [[tok|[]] g']; cbn; intros H; [by left|injection H as <-; by right..].
Qed.

Lemma guardedRead_error {A} (f : Db -> option A) n e : definite n -> outages n -> (guardedRead cfg f n).1 = inr e ->
  missingOrOut (f (nDb n)) e.
Proof.
  intros Hd Ho. unfold guardedRead, bindO.
  assert (exists rw n0, nextRead n = (rw, n0) /\ nScript n0 = nScript n /\ nDb n0 = nDb n) as (rw & n0 & -> & Es & Ed)
    by (unfold nextRead; destruct (nReads n); eexists _, _; (split; [reflexivity|done])).
  assert (missingOrOut (f (nDb n)) errStoreUnavailable) as Hdown by by right.
  cbv zeta. set (env := ReadEnv _ _ _ _ _). destruct (sConnected (nSvc n0) && _).
  - pose proof (queryRow_error f n0) as Hq. unfold definite, outages in Hq. rewrite Es, Ed in Hq.
    destruct (queryRow f n0) as [r n1]. cbn [fst] in Hq.
    pose proof (dataPathRead_outage env (match r with inl _ => None | inr e => Some e end) (sGuard (nSvc n0))) as Hp.
    destruct (dataPathRead cfg env _ _) as [[e'|] g]; cbn [fst] in *.
    + intros [= ->]. destruct (Hp e eq_refl) as [H| ->]; [|done]. destruct r; [done|]. injection H as ->. by apply Hq.
    + destruct r; [done|]. intros [= ->]. by apply Hq.
  - pose proof (dataPathRead_outage env (Some errStoreUnavailable) (sGuard (nSvc n0))) as Hp.
    destruct (dataPathRead cfg env _ _) as [[e'|] g]; cbn [fst] in *; intros [= <-]; [|done].
    destruct (Hp e' eq_refl) as [[= <-]| ->]; done.
Qed.

Lemma getByID_error k n e : definite n -> outages n -> (svcGetAPIKeyByID cfg k n).1 = inr e ->
  isDBUnavailable (asGoErr e) = true \/ (isDBUnavailable (asGoErr e) = false /\ sqlSelectAPIKeyByID k (nDb n) = None).
Proof.
  intros Hd Ho. unfold svcGetAPIKeyByID, bindO, cachedO. cbn [fst snd].
  destruct (cacheGet _ _ _ ≫= _); [done|]. pose proof (guardedRead_error (sqlSelectAPIKeyByID k) n) as Hg.
  destruct (guardedRead cfg _ n) as [[row|e'] n1]; cbn [fst] in Hg; [done|].
  destruct (Hg e' Hd Ho eq_refl) as [[-> Hr]|[-> Hu]]; [cbn; intros [= <-]; by right|].
  unfold lastO. destruct (lastKnownKeySummary (nSvc n1) k); [done|]. unfold failO, retO.
  destruct (isDBUnavailable e') eqn:E; intros [= <-]; left; [exact E|exact Hu].
Qed.

(** *** The instance *)

Definition simulates (n : node) (d : Db) : Prop := coherent n /\ definite n /\ outages n /\ nDb n = d.

Lemma sim_of_spec {A} (op : Op (A + opErr)) (val : Db -> A) X (f2 : Db -> (A + goErr) * Db) : consumes op ->
  (forall n, coherent n -> definite n -> wp op (readPost n (fun a => a = val (nDb n)) (X n)) n) -> (forall d, (f2 d).1 = inl (val d)) ->
  simRead simulates sameAnswer (toGo op) f2.
Proof.
  intros Hcons Hop Hf n d (Hc & Hd & Ho & <-). pose proof (outages_after op n Hcons Ho) as Ho'. destruct (Hop n Hc Hd) as [Hk Hr].
  unfold toGo. destruct (op n) as [r n']. cbn [fst snd] in *. destruct Hk as (Hc' & Ed & Hd' & _). split; [|done].
  rewrite Hf. destruct r; cbn; [by subst|done].
Qed.

Lemma key_store_simulates k t u si m : ContainsByte pipe t = false -> ContainsByte pipe u = false ->
  SimReads (R1 := keyStoreReads cfg) simulates k t u si m.
Proof.
  intros Ht Hu. split.
  - apply (sim_of_spec _ (fun d => tenantTriple (limitOfRow (sqlSelectTenantRateLimit t d))) (neverKnown (SlTenant t))); [apply consumes_tenant|intros; by apply getTenant_spec|]. intros d. cbn.
    by destruct (sqlSelectTenantRateLimit t d) as [[[? ?] ?]|].
  - apply (sim_of_spec _ (fun d => if m ==s "" then 0 else default 0 (sqlSelectTenantModelRateLimit t m d)) (neverKnown (SlModel t m))); [apply consumes_model|intros; by apply getModel_spec|done].
  - intros n d (Hc & Hd & Ho & <-). pose proof (outages_after _ n (consumes_key k) Ho) as Ho'.
    pose proof (getByID_error k n) as He. destruct (getByID_spec cfg k n Hc Hd) as [(Hc' & Ed & Hd' & _) Hr].
    cbn [GetAPIKeyByID keyStoreReads tableReads]. unfold toGo. destruct (svcGetAPIKeyByID cfg k n) as [r n']. cbn [fst snd] in *.
    split; [|done]. destruct r as [x|e]; cbn.
    + destruct Hr as (row & Hrow & Hx). unfold sqlSelectAPIKeyByID. rewrite Hrow. by destruct Hx as [->| ->].
    + destruct (He e Hd Ho eq_refl) as [Hu'|[Hu' ->]]; [destruct (sqlSelectAPIKeyByID k (nDb n)); auto|by right].
  - apply (sim_of_spec _ (fun d => userTriple (userOfRow (sqlSelectUserRateLimit t u d))) (neverKnown (SlUser t u))); [apply consumes_user|intros; by apply getUser_spec|]. intros d. cbn.
    by destruct (sqlSelectUserRateLimit t u d).
  - apply (sim_of_spec _ (fun d => if m ==s "" then 0 else default 0 (sqlSelectUserModelRateLimit t u m d)) (neverKnown (SlUserModel t u m))); [apply consumes_usermodel|intros; by apply getUserModel_spec|done].
  - apply (sim_of_spec _ (fun d => fillDefaults RateLimitScopeGlobal "" (defaultsOfRow (sqlSelectRateLimitDefaults RateLimitScopeGlobal "" d))) (neverKnown (SlDefaults RateLimitScopeGlobal ""))); [apply consumes_defaults|intros; by apply getDefaults_spec|]. intros d. cbn.
    by destruct (sqlSelectRateLimitDefaults _ _ d).
  - apply (sim_of_spec _ (fun d => fillDefaults RateLimitScopeRule si (defaultsOfRow (sqlSelectRateLimitDefaults RateLimitScopeRule si d))) (neverKnown (SlDefaults RateLimitScopeRule si))); [apply consumes_defaults|intros; by apply getDefaults_spec|]. intros d. cbn.
    by destruct (sqlSelectRateLimitDefaults _ _ d).
Qed.

(** ** The composition *)

Context {RL : RateLib} (hashKey : string -> string).
#[local] Existing Instance keyStoreReads.

(** C22: admission over the key store enforces what the tables say.  On a node that
    has run since it was made, a request with a tenant that the admission check
    admits is also admitted, with the same effect on the limiters, by the check run
    directly on the tables; the tables did not move and the node still agrees with
    them; and every token bucket the tables configure for the request, except the
    service's shared one, is neither warming nor in debt in the state admission
    leaves.  No cached, remembered or missing answer admits a request the tables
    would refuse.  The run is one of the key store's: this node is the only writer
    of the tables, its operations take effect one at a time, creates bring key
    material no row holds, and writes of user limits meet a store that answers and
    name each model once; statements that failed were not applied by the server and
    from here on the store's failures are outages; the tenant and the user of the
    request contain no pipe byte. *)
Theorem admission_enforces_the_tables dir n0 n env now k t u si m s retry code g' :
  nSvc n0 = newService dir -> dbOk (nDb n0) -> definite n0 -> rtc (kstep cfg hashKey) n0 n -> outages n ->
  t <> "" -> ContainsByte pipe t = false -> ContainsByte pipe u = false ->
  rateLimitCheckInternal (RS := keyStoreReads cfg) env now k t u si m (Some n, s) = ((aiDecisionAllow, retry, code), g') ->
  exists n' s', g' = (Some n', s') /\ coherent n' /\ nDb n' = nDb n /\ sameQuota s s' /\
    rateLimitCheckInternal (RS := tableReads) env now k t u si m (Some (nDb n), s) = ((aiDecisionAllow, 0, ""), (Some (nDb n), s')) /\
    forall b, b ∈ (quotaBucketsFor t m u k si (Some (nDb n))).1 -> bKind b <> FcResvBucketService ->
      QuotaWarming s' = false /\ IsTokenQuotaExceeded env (bKey b) s' = false.
Proof.
  intros Es Hok Hd0 Hrun Ho Ht Hpt Hpu H. destruct (run_inv cfg hashKey n0 n Hrun) as [Hc Hd]; [by eapply new_coherent|done|].
  apply admitted_runs_ladder in H as (v & [= <-] & H); [|done]. pose proof (key_store_simulates k t u si m Hpt Hpu) as HS.
  destruct (sim_ladder (R1 := keyStoreReads cfg) simulates (k := k) (t := t) (u := u) (si := si) (m := m) env now n (nDb n) s tt g')
    as (n' & s' & [] & -> & (Hc' & _ & _ & Ed) & _ & HL); [done|done|].
  pose proof HL as (_ & s2 & [= <-] & HQ & HB)%ladder_admits; [|done].
  exists n', s'. split; [done|]. split; [done|]. split; [done|]. split; [done|]. split.
  - unfold rateLimitCheckInternal, noIdentity. cbn [fst]. destruct (String.eqb_spec t ""); [done|]. rewrite andb_false_r. cbn [andb].
    by rewrite HL.
  - intros b Hb Hk. destruct (sameQuota_exceeded env (bKey b) s s' HQ) as [-> ->]. by apply HB.
Qed.
End KeyStoreSim.

Lemma admission_over_store_witness :
  (quotaBucketsFor "acme" "" "" "" "" (Some (nDb Demo.limited))).1 = [Bucket "acme" 1000 50 FcResvBucketTenant] /\
  IsTokenQuotaExceeded (envAt 10 600000) "acme"
    (rateLimitCheckInternal (RL := openLib) (RS := keyStoreReads Demo.cfg) (envAt 10 600000) 0 "" "acme" "" "" ""
       (Some Demo.limited, demoBucket)).2.2 = false.
Proof.
  split; [vm_compute; reflexivity|].
  pose (out := rateLimitCheckInternal (RL := openLib) (RS := keyStoreReads Demo.cfg) (envAt 10 600000) 0 "" "acme" "" "" ""
       (Some Demo.limited, demoBucket)).
  destruct (admission_enforces_the_tables Demo.cfg (RL := openLib) Demo.hash false Demo.start Demo.limited (envAt 10 600000) 0
    "" "acme" "" "" "" demoBucket 0 "" out.2) as (n' & s' & E & _ & _ & _ & _ & HB).
  - reflexivity.
  - exact Demo.start_ok.
  - constructor.
  - eapply rtc_r; [exact Demo.attached_run|]. by apply (KWrite Demo.cfg Demo.hash Demo.attached (WrTenant "acme" 10 1000 50)).
  - constructor.
  - done.
  - reflexivity.
  - reflexivity.
  - vm_compute. reflexivity.
  - change (IsTokenQuotaExceeded (envAt 10 600000) "acme" out.2.2 = false). rewrite E.
    apply (HB (Bucket "acme" 1000 50 FcResvBucketTenant)); [vm_compute; left|done].
Defined.
