(* ===== verification/KvSelect.v ===== *)
(** * KvSelect: choosing an endpoint by cached prefix and load

    pkg/loxinet/ai_kv_unified.go: the candidates of one KV-exact lookup, the
    capacity-weighted bounded-load selector and its soft variant, the relief
    pass over the whole fleet, the load-adaptive coefficients, and the
    environment knobs they read once.  The environment is an argument. *)

From S2P Require Import Prelude.

Open Scope Z_scope.
Open Scope igw_scope.

(** ** Environment knobs *)

(** [os.Getenv]. *)
Definition Env : Type := string -> string.

(** A decimal integer in a range, or nothing. *)
Definition intKnob (v : string) (lo hi : Z) : option Z :=
  match ParseInt v with
  | Some n => if (n >=? lo) && (n <=? hi) then Some n else None
  | None => None
  end.

Definition two32 : Z := 4294967296.
Definition u32 (z : Z) : Z := z mod two32.

Definition kvCapacityClampMax : Z := 8000000.
Definition kvUnifiedDefaultMeanLoadFactor : Z := 175.
Definition kvLbDefaultLoadPenalty : Z := 32.
Definition kvSoftCostScale : Z := 1000.
Definition kvNegligibleOverlap : Z := 0.

Definition kvAdaptiveEpsFloorPct : Z := 175.
Definition kvAdaptiveEpsCapPct : Z := 300.
Definition kvAdaptiveEpsSlopeNum : Z := 125.
Definition kvAdaptiveEpsSlopeDen : Z := 10.
Definition kvAdaptiveLambdaFloor : Z := 50000.
Definition kvAdaptiveLambdaCap : Z := 100000.
Definition kvAdaptiveLambdaSlope : Z := 5000.
Definition kvAdaptiveLoadAnchor : Z := 16.
Definition kvAdaptiveLoadSat : Z := 26.
Definition kvAdaptiveCapRefMilli : Z := 15284310.

(** The values that switch a flag off, and those that switch it on. *)
Definition offWord (v : string) : bool :=
  (v ==s "0") || (v ==s "false") || (v ==s "off") || (v ==s "no") || (v ==s "FALSE") || (v ==s "Off") || (v ==s "No").

Definition onWord (v : string) : bool :=
  (v ==s "1") || (v ==s "true") || (v ==s "on") || (v ==s "yes") || (v ==s "TRUE") || (v ==s "On") || (v ==s "Yes").

Definition kvUnifiedModeOn (env : Env) : bool := negb (offWord (env "LOXILB_KV_UNIFIED_MODE")).

Definition kvMeanLoadFactor (env : Env) : Z :=
  let v := env "LOXILB_KV_MEAN_LOAD_FACTOR" in
  if negb (v ==s "") then default kvUnifiedDefaultMeanLoadFactor (intKnob v 100 1000)
  else kvUnifiedDefaultMeanLoadFactor.

Definition kvLbModeFromLegacy (env : Env) : string :=
  if offWord (env "LOXILB_KV_UNIFIED_MODE") then "off" else "hard".

Definition kvLbMode (env : Env) : string :=
  let v := env "LOXILB_KV_LB_MODE" in
  if (v ==s "off") || (v ==s "hard") || (v ==s "soft") || (v ==s "adaptive") || (v ==s "adaptive-soft") then v
  else if v ==s "" then kvLbModeFromLegacy env
  else "hard".

Definition kvLoadPenalty (env : Env) : Z :=
  let v := env "LOXILB_KV_LOAD_PENALTY" in
  if negb (v ==s "") then default kvLbDefaultLoadPenalty (intKnob v 1 100000) else kvLbDefaultLoadPenalty.

Definition kvSpillReliefSetting (env : Env) : string :=
  let v := env "LOXILB_KV_SPILL_RELIEF" in
  if onWord v then "on" else if offWord v then "off" else "auto".

Definition kvSpillReliefFor (env : Env) (singleRole : bool) : bool :=
  let s := kvSpillReliefSetting env in
  if s ==s "on" then true else if s ==s "off" then false else singleRole.

Definition kvCapActualMilli (env : Env) : Z :=
  let v := env "LOXILB_KV_CAP_SUM_MILLI" in
  if v ==s "" then 0
  else match ParseUint v with
       | None => 0
       | Some n =>
           if n ==? 0 then 0
           else let ref := kvAdaptiveCapRefMilli in
                if (ref >? 0) && ((n >? u64 (ref * 8)) || (u64 (n * 8) <? ref)) then 0 else n
       end.

Definition kvCapNormEnabled (env : Env) : bool :=
  (kvAdaptiveCapRefMilli !=? 0) && (kvCapActualMilli env !=? 0).

(** ** Candidates *)

Record kvCandidate := KvCandidate {
  cEp : Z;        (* epIdx *)
  cOverlap : Z;   (* overlap *)
  cCapacity : Z;  (* capacity, 32 bits *)
  cLoad : Z       (* load, 32 bits *)
}.

#[export] Instance kvCandidate_eq_dec : EqDecision kvCandidate.
Proof. solve_decision. Defined.

Definition kvCtrlWeightAt (weights : option (list Z)) (epIdx : Z) : Z :=
  match weights with
  | None => 100
  | Some ws =>
      if (epIdx <? 0) || (epIdx >=? Z.of_nat (length ws)) then 100
      else let w := default 0 (ws !! Z.to_nat epIdx) in if w <? 100 then w else 100
  end.

Definition kvWeightedCapacity (capacity weight : Z) : Z :=
  if weight >=? 100 then capacity else u32 (u64 (capacity * weight) / 100).

Definition kvClampCapacity (c : Z) : Z :=
  if c ==? 0 then 1 else if c >? kvCapacityClampMax then kvCapacityClampMax else c.

Definition kvCapFor (totalLoad capI totalCap meanLoadFactorPct : Z) : Z :=
  let num := u64 (u64 (meanLoadFactorPct * totalLoad) * capI) in
  let den := u64 (100 * totalCap) in
  if den ==? 0 then 1
  else let cap := u64 (u64 (num + den) - 1) / den in
       if cap <? 1 then 1 else cap.

(** The loops below keep the index of the best candidate so far: a candidate
    that is not eligible is skipped, the first eligible one is taken, a later
    one replaces it when it is better. *)
Fixpoint pick {A} (ok : A -> bool) (better : A -> A -> bool) (i : nat) (best : option (nat * A)) (l : list A) : option (nat * A) :=
  match l with
  | [] => best
  | c :: l' =>
      let best' :=
        if ok c then
          match best with
          | None => Some (i, c)
          | Some (_, b) => if better c b then Some (i, c) else best
          end
        else best in
      pick ok better (S i) best' l'
  end.

Definition hasOverlap (c : kvCandidate) : bool := cOverlap c >? 0.

(** Higher overlap, then lower index. *)
Definition moreOverlap (c b : kvCandidate) : bool :=
  (cOverlap c >? cOverlap b) || ((cOverlap c ==? cOverlap b) && (cEp c <? cEp b)).

Definition sumLoad (cands : list kvCandidate) : Z := foldl (fun t c => u64 (t + cLoad c)) 0 cands.

Definition sumCap (cands : list kvCandidate) : Z := foldl (fun t c => u64 (t + kvClampCapacity (cCapacity c))) 0 cands.

Definition capOf (cands : list kvCandidate) (mlf : Z) (c : kvCandidate) : Z :=
  kvCapFor (sumLoad cands) (kvClampCapacity (cCapacity c)) (sumCap cands) mlf.

(** Higher overlap, then lower load, then lower index. *)
Definition affinityThenLoad (c b : kvCandidate) : bool :=
  (cOverlap c >? cOverlap b)
  || ((cOverlap c ==? cOverlap b) && (cLoad c <? cLoad b))
  || ((cOverlap c ==? cOverlap b) && (cLoad c ==? cLoad b) && (cEp c <? cEp b)).

(** Lower load, then lower index. *)
Definition lessLoad (c b : kvCandidate) : bool :=
  (cLoad c <? cLoad b) || ((cLoad c ==? cLoad b) && (cEp c <? cEp b)).

(** Lower load, then higher overlap, then lower index. *)
Definition loadThenAffinity (c b : kvCandidate) : bool :=
  (cLoad c <? cLoad b)
  || ((cLoad c ==? cLoad b) && (cOverlap c >? cOverlap b))
  || ((cLoad c ==? cLoad b) && (cOverlap c ==? cOverlap b) && (cEp c <? cEp b)).

Definition kvUnifiedSelect (cands : list kvCandidate) (mlf : Z) : Z * bool :=
  match cands with
  | [] => (-1, false)
  | _ =>
      let under c := hasOverlap c && negb (cLoad c >=? capOf cands mlf c) in
      match pick hasOverlap moreOverlap 0 None cands with
      | None => (-1, false)
      | Some (argmaxIdx, _) =>
          let fallback _ :=
            match pick hasOverlap loadThenAffinity 0 None cands with
            | Some (i, c) => (cEp c, negb (Nat.eqb i argmaxIdx))
            | None => (-1, false)
            end in
          match pick under affinityThenLoad 0 None cands with
          | Some (i, c) =>
              let least := if cOverlap c <=? kvNegligibleOverlap then pick under lessLoad 0 None cands else None in
              match least with
              | Some (j, d) => (cEp d, negb (Nat.eqb j argmaxIdx))
              | None => (cEp c, negb (Nat.eqb i argmaxIdx))
              end
          | None => fallback tt
          end
      end
  end.

Definition kvArmPureArgmax (cands : list kvCandidate) : Z :=
  match pick hasOverlap moreOverlap 0 None cands with
  | Some (_, c) => cEp c
  | None => -1
  end.

(** [cost] of a candidate: the blocks it must recompute, and its queue. *)
Definition softCost (promptBlocks lam : Z) (c : kvCandidate) : Z :=
  u64 (u64 (u64 (promptBlocks - cOverlap c) * kvSoftCostScale) + u64 (lam * cLoad c) / kvClampCapacity (cCapacity c)).

Definition maxOverlap (cands : list kvCandidate) : Z :=
  foldl (fun m c => if hasOverlap c && (cOverlap c >? m) then cOverlap c else m) 0 cands.

(** Lower cost, then higher overlap, then lower load, then lower index. *)
Definition cheaper (cost : kvCandidate -> Z) (c b : kvCandidate) : bool :=
  (cost c <? cost b)
  || ((cost c ==? cost b) && (cOverlap c >? cOverlap b))
  || ((cost c ==? cost b) && (cOverlap c ==? cOverlap b) && (cLoad c <? cLoad b))
  || ((cost c ==? cost b) && (cOverlap c ==? cOverlap b) && (cLoad c ==? cLoad b) && (cEp c <? cEp b)).

Definition kvSoftBlendSelect (cands : list kvCandidate) (lambda : Z) : Z * bool :=
  match cands with
  | [] => (-1, false)
  | _ =>
      match pick hasOverlap moreOverlap 0 None cands with
      | None => (-1, false)
      | Some (argmaxIdx, _) =>
          match pick hasOverlap (cheaper (softCost (maxOverlap cands) lambda)) 0 None cands with
          | Some (i, c) => (cEp c, negb (Nat.eqb i argmaxIdx))
          | None => (-1, false)
          end
      end
  end.

Definition kvSelectArm (cands : list kvCandidate) (mode : string) (mlf lambda : Z) : Z * bool :=
  if mode ==s "off" then (kvArmPureArgmax cands, false)
  else if mode ==s "soft" then kvSoftBlendSelect cands lambda
  else if mode ==s "adaptive" then kvUnifiedSelect cands mlf
  else if mode ==s "adaptive-soft" then kvSoftBlendSelect cands lambda
  else kvUnifiedSelect cands mlf.

(** The relief pass: the last candidate of the selected endpoint, if any. *)
Definition lastOf (selEp : Z) (cands : list kvCandidate) : option kvCandidate :=
  foldl (fun r c => if cEp c ==? selEp then Some c else r) None cands.

Definition kvSpillReliefTarget (fleetCands : list kvCandidate) (selEp mlf : Z) : Z * bool :=
  if Z.of_nat (length fleetCands) <? 2 then (selEp, false)
  else match lastOf selEp fleetCands with
       | None => (selEp, false)
       | Some sel =>
           if cLoad sel <? capOf fleetCands mlf sel then (selEp, false)
           else match pick (fun c => negb (cLoad c >=? capOf fleetCands mlf c)) lessLoad 0 None fleetCands with
                | Some (_, r) => if cEp r !=? selEp then (cEp r, true) else (selEp, false)
                | None => (selEp, false)
                end
       end.

(** ** Load-adaptive coefficients *)

Definition kvAdaptiveSumLoad : list kvCandidate -> Z := sumLoad.

Definition kvAdaptiveNormalizedLoad (env : Env) (cands : list kvCandidate) : Z :=
  let l := kvAdaptiveSumLoad cands in
  if negb (kvCapNormEnabled env) then l else u64 (l * kvAdaptiveCapRefMilli) / kvCapActualMilli env.

Definition kvAdaptiveMeanLoadFactor (env : Env) (cands : list kvCandidate) : Z :=
  let l := kvAdaptiveNormalizedLoad env cands in
  if l <=? kvAdaptiveLoadAnchor then kvAdaptiveEpsFloorPct
  else if l >=? kvAdaptiveLoadSat then kvAdaptiveEpsCapPct
  else let delta := u64 (l - kvAdaptiveLoadAnchor) in
       let eps := u64 (kvAdaptiveEpsFloorPct + u64 (kvAdaptiveEpsSlopeNum * delta) / kvAdaptiveEpsSlopeDen) in
       u32 (if eps >? kvAdaptiveEpsCapPct then kvAdaptiveEpsCapPct else eps).

Definition kvAdaptiveLoadPenalty (env : Env) (cands : list kvCandidate) : Z :=
  let l := kvAdaptiveNormalizedLoad env cands in
  if l <=? kvAdaptiveLoadAnchor then kvAdaptiveLambdaFloor
  else if l >=? kvAdaptiveLoadSat then kvAdaptiveLambdaCap
  else let delta := u64 (l - kvAdaptiveLoadAnchor) in
       let lam := u64 (kvAdaptiveLambdaFloor + u64 (kvAdaptiveLambdaSlope * delta)) in
       u32 (if lam >? kvAdaptiveLambdaCap then kvAdaptiveLambdaCap else lam).

Definition kvAdaptiveEwmaAlpha : Z := 1.
Definition kvAdaptiveEwmaScale : Z := 4.

Definition kvAdaptiveEwmaLoad (svcKey : string) (rawL : Z) (st : gmap string Z) : Z * gmap string Z :=
  match st !! svcKey with
  | None => (rawL, <[svcKey := rawL]> st)
  | Some prev =>
      let smoothed := u64 (u64 (kvAdaptiveEwmaAlpha * rawL) + u64 ((kvAdaptiveEwmaScale - kvAdaptiveEwmaAlpha) * prev)) / kvAdaptiveEwmaScale in
      (smoothed, <[svcKey := smoothed]> st)
  end.
