(* ===== verification/KvSelectProps.v ===== *)
(** * KvSelectProps: the bounded-load selector, its relief pass and its laws *)

From S2P Require Import Prelude KvSelect.

Open Scope Z_scope.
Open Scope igw_scope.

(** ** The selection loop *)

(** A strict order whose ties are an equivalence. *)
Class StrictWeak {A} (better : A -> A -> bool) : Prop := {
  sw_asym a b : better a b = true -> better b a = false;
  sw_trans a b c : better a b = false -> better b c = false -> better a c = false
}.

Lemma sw_irrefl {A} (better : A -> A -> bool) `{!StrictWeak better} a : better a a = false.
Proof. destruct (better a a) eqn:E; [|done]. by apply sw_asym in E as E'; rewrite E' in E. Qed.

(** Boolean comparisons of integers as propositions, for [lia]. *)
Ltac bool_props :=
  rewrite <- ?not_true_iff_false in *;
  rewrite ?orb_true_iff, ?andb_true_iff, ?Z.ltb_lt, ?Z.leb_le, ?Z.eqb_eq in *.

#[export] Instance moreOverlap_sw : StrictWeak moreOverlap.
Proof. split; unfold moreOverlap; intros; bool_props; lia. Qed.
#[export] Instance lessLoad_sw : StrictWeak lessLoad.
Proof. split; unfold lessLoad; intros; bool_props; lia. Qed.
#[export] Instance affinityThenLoad_sw : StrictWeak affinityThenLoad.
Proof. split; unfold affinityThenLoad; intros; bool_props; lia. Qed.
#[export] Instance cheaper_sw cost : StrictWeak (cheaper cost).
Proof. split; unfold cheaper; intros; bool_props; lia. Qed.

Section Pick.
Context {A : Type} (ok : A -> bool) (better : A -> A -> bool).

Lemma pick_in i best l j c :
  pick ok better i best l = Some (j, c) ->
  best = Some (j, c) \/ (exists k, l !! k = Some c /\ j = (i + k)%nat /\ ok c = true).
Proof.
  revert i best. induction l as [|d l IH]; intros i best; simpl; [by left|].
  intros H. apply IH in H as [H|(k & Hk & -> & Hok)].
  - destruct (ok d) eqn:Ed; [|by left].
    destruct best as [[i0 b]|].
    1: destruct (better d b) eqn:Eb; [|by left].
    all: injection H as <- <-; right; exists 0%nat; split; [done|]; split; [lia|done].
  - right. exists (S k). split; [done|]. split; [lia|done].
Qed.

Lemma pick_some i best l : (is_Some best \/ Exists (fun c => ok c = true) l) -> is_Some (pick ok better i best l).
Proof.
  revert i best. induction l as [|d l IH]; intros i best; simpl.
  { intros [H|H]; [done|by inversion H]. }
  intros H. apply IH. destruct (ok d) eqn:Ed.
  - left. destruct best as [[??]|]; [destruct (better d a)|]; eauto.
  - destruct H as [H|H]; [by left|]. right. apply Exists_cons in H as [H|H]; [congruence|done].
Qed.

Lemma pick_none i l : (forall c, c ∈ l -> ok c = false) -> pick ok better i None l = None.
Proof.
  revert i. induction l as [|d l IH]; intros i H; simpl; [done|].
  rewrite (H d) by set_solver. apply IH. set_solver.
Qed.

Lemma pick_best `{!StrictWeak better} i best l j c :
  pick ok better i best l = Some (j, c) ->
  (forall j0 b, best = Some (j0, b) -> better b c = false) /\
  (forall d, d ∈ l -> ok d = true -> better d c = false).
Proof.
  revert i best. induction l as [|d l IH]; intros i best; simpl.
  { intros ->. split; [|set_solver]. intros ?? [= <- <-]. by apply sw_irrefl. }
  intros H. apply IH in H as [Hb Hl]. split.
  - intros j0 b ->. destruct (ok d); [|by eapply Hb].
    destruct (better d b) eqn:E; [|by eapply Hb].
    eapply sw_trans; [by apply sw_asym|by eapply Hb].
  - intros e [->|He]%elem_of_cons Hok; [|by apply Hl].
    rewrite Hok in Hb. destruct best as [[j0 b]|]; [|by eapply Hb].
    destruct (better d b) eqn:E; [by eapply Hb|].
    eapply sw_trans; [done|by eapply Hb].
Qed.
End Pick.

(** ** Sums without wrap-around *)

Definition loads (cands : list kvCandidate) : Z := foldr (fun c t => cLoad c + t) 0 cands.
Definition caps (cands : list kvCandidate) : Z := foldr (fun c t => kvClampCapacity (cCapacity c) + t) 0 cands.

(** Counts the data plane can report: at most 1024 candidates, 2^31 requests in
    flight between them. *)
Record fleetOk (cands : list kvCandidate) : Prop := {
  fo_nonneg : Forall (fun c => 0 <= cLoad c /\ 0 <= cCapacity c) cands;
  fo_loads : loads cands <= 2147483648;
  fo_length : (length cands <= 1024)%nat
}.

Lemma clamp_bounds c : 0 <= c -> 1 <= kvClampCapacity c <= kvCapacityClampMax.
Proof. intros. unfold kvClampCapacity, kvCapacityClampMax. repeat zcase; lia. Qed.

Lemma loads_nonneg cands : Forall (fun c => 0 <= cLoad c /\ 0 <= cCapacity c) cands -> 0 <= loads cands.
Proof. unfold loads. induction 1 as [|c l [H _] _ IH]; simpl; lia. Qed.

Lemma caps_bounds cands :
  Forall (fun c => 0 <= cLoad c /\ 0 <= cCapacity c) cands ->
  Z.of_nat (length cands) <= caps cands <= kvCapacityClampMax * Z.of_nat (length cands).
Proof.
  unfold caps. induction 1 as [|c l [_ H] _ IH]; cbn [foldr length]; [lia|]. pose proof (clamp_bounds _ H).
  rewrite Nat2Z.inj_succ. lia.
Qed.

(** A wrapping accumulator is the plain sum while the sum fits. *)
Lemma foldl_u64 {A} (f : A -> Z) l acc :
  Forall (fun a => 0 <= f a) l -> 0 <= acc -> acc + foldr (fun a t => f a + t) 0 l < two64 ->
  foldl (fun t a => u64 (t + f a)) acc l = acc + foldr (fun a t => f a + t) 0 l.
Proof.
  revert acc. induction l as [|a l IH]; intros acc Hl Hacc Hlt; simpl in *; [lia|].
  apply Forall_cons in Hl as [Ha Hl].
  assert (0 <= foldr (fun a t => f a + t) 0 l) by (clear -Hl; induction Hl; simpl; lia).
  rewrite u64_id by lia. rewrite IH; [lia|done|lia|lia].
Qed.

Lemma sumLoad_eq cands : fleetOk cands -> sumLoad cands = loads cands.
Proof.
  intros [H1 H2 _]. unfold sumLoad, loads in *. rewrite foldl_u64; [lia| |lia|unfold two64; lia].
  eapply Forall_impl; [exact H1|]. by intros c [? _].
Qed.

Lemma sumCap_eq cands : fleetOk cands -> sumCap cands = caps cands.
Proof.
  intros [H1 _ H3]. pose proof (caps_bounds _ H1). unfold sumCap. 
  rewrite (foldl_u64 (fun c => kvClampCapacity (cCapacity c))); [unfold caps; lia| |lia|unfold caps, kvCapacityClampMax, two64 in *; lia].
  eapply Forall_impl; [exact H1|]. intros c [_ ?]. pose proof (clamp_bounds (cCapacity c)). lia.
Qed.

(** The bound of a candidate: its capacity's share of the total load, scaled by
    the load factor and rounded up, and at least one. *)
Lemma capOf_spec cands mlf c :
  fleetOk cands -> cands <> [] -> c ∈ cands -> 0 <= mlf <= 1000 ->
  let share := mlf * loads cands * kvClampCapacity (cCapacity c) in
  let q := capOf cands mlf c in
  1 <= q /\ share <= q * (100 * caps cands) /\ (q = 1 \/ q * (100 * caps cands) < share + 100 * caps cands).
Proof.
  intros Hok Hne Hc Hm share q. unfold q, capOf. rewrite sumLoad_eq, sumCap_eq by done.
  destruct Hok as [H1 H2 H3]. pose proof (caps_bounds _ H1) as Hcap. pose proof (loads_nonneg _ H1) as Hl.
  pose proof H1 as Hall. rewrite Forall_forall in Hall. destruct (Hall c Hc) as [_ Hc0]. pose proof (clamp_bounds _ Hc0) as Hcl.
  assert (1 <= Z.of_nat (length cands)) by (destruct cands; [done|simpl; lia]).
  set (W := kvClampCapacity (cCapacity c)) in *. set (L := loads cands) in *. set (C := caps cands) in *.
  assert (C <= 8192000000) by (unfold kvCapacityClampMax in Hcap; lia).
  assert (0 <= mlf * L <= 2147483648000) by nia.
  assert (0 <= share <= 17179869184000000000) by (unfold share, kvCapacityClampMax in *; nia).
  unfold kvCapFor. rewrite (u64_id (mlf * L)) by (unfold two64; lia).
  rewrite (u64_id (mlf * L * W)) by (unfold two64, share in *; lia).
  rewrite (u64_id (100 * C)) by (unfold two64; lia). fold share.
  rewrite (u64_id (share + 100 * C)) by (unfold two64; lia).
  rewrite (u64_id (share + 100 * C - 1)) by (unfold two64; lia).
  destruct (Z.eqb_spec (100 * C) 0) as [|_]; [lia|].
  pose proof (ceil_div_spec share (100 * C) ltac:(lia) ltac:(lia)) as Hq. simpl in Hq.
  rewrite quot_floor in Hq by lia. destruct (Z.ltb_spec ((share + 100 * C - 1) / (100 * C)) 1); nia.
Qed.

(** The bound as plain arithmetic: the share of the total load that the capacity
    is of the fleet's, scaled by the factor in percent and rounded up, and at least
    one request. *)
Definition loadBound (cands : list kvCandidate) (mlf : Z) (c : kvCandidate) : Z :=
  Z.max 1 (- (- (mlf * loads cands * kvClampCapacity (cCapacity c)) / (100 * caps cands))).

Lemma capOf_is_bound cands mlf c :
  fleetOk cands -> cands <> [] -> c ∈ cands -> 0 <= mlf <= 1000 -> capOf cands mlf c = loadBound cands mlf c.
Proof.
  intros Hok Hne Hc Hm. destruct (capOf_spec cands mlf c Hok Hne Hc Hm) as (H1 & H2 & H3). unfold loadBound.
  pose proof (caps_bounds _ (fo_nonneg _ Hok)) as Hcap. assert (1 <= Z.of_nat (length cands)) by (destruct cands; [done|simpl; lia]).
  set (share := mlf * loads cands * _) in *. set (D := 100 * caps cands) in *. assert (0 < D) by lia.
  pose proof (Z.div_mod (- share) D ltac:(lia)). pose proof (Z.mod_pos_bound (- share) D ltac:(lia)).
  set (q := - share / D) in *. set (g := capOf cands mlf c) in *. destruct H3 as [H3|H3]; nia.
Qed.

(** With a load factor above one, some candidate is under its bound. *)
Lemma under_bound_exists cands mlf :
  fleetOk cands -> cands <> [] -> 100 < mlf <= 1000 -> exists c, c ∈ cands /\ cLoad c < capOf cands mlf c.
Proof.
  intros Hok Hne Hm. destruct (decide (Exists (fun c => cLoad c < capOf cands mlf c) cands)) as [H|H].
  { apply Exists_exists in H as (c & ? & ?). by exists c. }
  exfalso. rewrite <- Forall_Exists_neg in H. rewrite Forall_forall in H.
  pose proof (caps_bounds _ (fo_nonneg _ Hok)) as Hcap. pose proof (loads_nonneg _ (fo_nonneg _ Hok)) as Hl.
  assert (1 <= Z.of_nat (length cands)) as Hlen by (destruct cands; [done|simpl; lia]).
  assert (mlf * loads cands * caps cands <= loads cands * (100 * caps cands)) as Hsum.
  { assert (forall l, (forall c, c ∈ l -> c ∈ cands) ->
        mlf * loads cands * caps l <= loads l * (100 * caps cands)) as Hind.
    { induction l as [|d l IH]; intros Hin; [simpl; lia|].
      specialize (IH ltac:(set_solver)). pose proof (Hin d ltac:(set_solver)) as Hd.
      destruct (capOf_spec cands mlf d Hok Hne Hd ltac:(lia)) as (_ & Hq & _). specialize (H d Hd).
      change (caps (d :: l)) with (kvClampCapacity (cCapacity d) + caps l).
      change (loads (d :: l)) with (cLoad d + loads l). nia. }
    by apply Hind. }
  assert (loads cands = 0) as H0.
  { assert (0 <= loads cands * caps cands) by nia. assert ((mlf - 100) * (loads cands * caps cands) <= 0) by lia.
    assert (loads cands * caps cands <= 0) by nia. nia. }
  destruct cands as [|d l]; [done|]. 
  destruct (capOf_spec (d :: l) mlf d Hok Hne ltac:(set_solver) ltac:(lia)) as (H1 & _ & _).
  pose proof (H d ltac:(set_solver)). pose proof (fo_nonneg _ Hok) as [[? _] Hr]%Forall_cons.
  pose proof (loads_nonneg _ Hr). change (loads (d :: l)) with (cLoad d + loads l) in H0. lia.
Qed.

(** ** The bounded-load selection *)

Definition underBound (cands : list kvCandidate) (mlf : Z) (c : kvCandidate) : bool :=
  hasOverlap c && negb (cLoad c >=? capOf cands mlf c).

Lemma underBound_spec cands mlf c :
  underBound cands mlf c = true <-> 0 < cOverlap c /\ cLoad c < capOf cands mlf c.
Proof. unfold underBound, hasOverlap. rewrite andb_true_iff, negb_true_iff, Z.ltb_lt, Z.leb_gt. done. Qed.

(** The selector is the loop over the candidates under their bounds whenever one
    of those has an overlap; the refinement for a negligible overlap never runs. *)
Lemma unified_under cands mlf i c a ca :
  pick (underBound cands mlf) affinityThenLoad 0 None cands = Some (i, c) ->
  pick hasOverlap moreOverlap 0 None cands = Some (a, ca) ->
  kvUnifiedSelect cands mlf = (cEp c, negb (Nat.eqb i a)).
Proof.
  intros Hp Ha. unfold kvUnifiedSelect. fold (underBound cands mlf). destruct cands as [|d l]; [done|].
  set (cs := d :: l) in *. rewrite Ha, Hp.
  apply pick_in in Hp as [|(k & _ & _ & Hok)]; [done|]. apply underBound_spec in Hok as [Hok _].
  unfold kvNegligibleOverlap. by destruct (Z.leb_spec (cOverlap c) 0); [lia|].
Qed.

Lemma pick_head_some {A} (ok : A -> bool) better l c : c ∈ l -> ok c = true -> exists i d, pick ok better 0 None l = Some (i, d).
Proof.
  intros Hc Hok. destruct (pick_some ok better 0 None l) as [[i d] H]; [|by eauto].
  right. apply Exists_exists. eauto.
Qed.


Definition demoFleet : list kvCandidate :=
  [KvCandidate 0 9 4000 12; KvCandidate 1 7 0 0; KvCandidate 2 7 4000 3; KvCandidate 3 2 4000000000 1].

Lemma demoFleet_ok : fleetOk demoFleet.
Proof. split; [repeat constructor; simpl; lia|vm_compute; congruence|simpl; lia]. Qed.


(** ** Relief over the fleet *)

Lemma lastOf_spec selEp cands :
  (exists c, c ∈ cands /\ cEp c = selEp) -> exists c, lastOf selEp cands = Some c /\ c ∈ cands /\ cEp c = selEp.
Proof.
  intros (c & Hc & Hs). unfold lastOf. induction cands as [|d l IH] using rev_ind; [by apply not_elem_of_nil in Hc|].
  rewrite foldl_app. simpl. destruct (Z.eqb_spec (cEp d) selEp) as [E|E].
  - exists d. split; [done|]. split; [set_solver|done].
  - apply elem_of_app in Hc as [Hc|Hc]; [|set_solver].
    destruct (IH Hc) as (e & ? & ? & ?). exists e. split; [done|]. split; [set_solver|done].
Qed.

(** Relief leaves no hot endpoint. Over a fleet of at least two endpoints and
    a load factor above one, the pass always ends on an endpoint under its
    fleet-wide bound: it keeps the selected endpoint exactly when that one is
    under its bound, and otherwise moves to the least loaded endpoint that is,
    which is a different one and always exists. *)
Theorem relief_leaves_no_hotspot fleet selEp mlf :
  fleetOk fleet -> (2 <= length fleet)%nat -> NoDup (cEp <$> fleet) -> selEp ∈ cEp <$> fleet -> 100 < mlf <= 1000 ->
  exists sel c moved, sel ∈ fleet /\ cEp sel = selEp /\ c ∈ fleet /\
    kvSpillReliefTarget fleet selEp mlf = (cEp c, moved) /\ cLoad c < capOf fleet mlf c /\
    (moved = true <-> capOf fleet mlf sel <= cLoad sel) /\ (moved = true <-> cEp c <> selEp) /\
    (moved = true -> forall d, d ∈ fleet -> cLoad d < capOf fleet mlf d -> cLoad c <= cLoad d).
Proof.
  intros Hok Hlen Hnd Hsel Hm. apply list_elem_of_fmap in Hsel as (s0 & -> & Hs0).
  destruct (lastOf_spec (cEp s0) fleet) as (sel & Hlast & Hin & Hep); [by eauto|].
  assert (fleet <> []) as Hne by (by destruct fleet).
  unfold kvSpillReliefTarget. destruct (Z.ltb_spec (Z.of_nat (length fleet)) 2) as [|_]; [lia|]. rewrite Hlast.
  exists sel. destruct (Z.ltb_spec (cLoad sel) (capOf fleet mlf sel)) as [Hlt|Hge].
  { exists sel, false. rewrite Hep. repeat split; try done; lia. }
  destruct (under_bound_exists fleet mlf Hok Hne Hm) as (u & Hu & Hul).
  destruct (pick_head_some (fun c => negb (cLoad c >=? capOf fleet mlf c)) lessLoad fleet u Hu) as (i & r & Hp).
  { apply negb_true_iff, Z.leb_gt. lia. }
  rewrite Hp. pose proof Hp as [|(k & Hk & _ & Hr)]%pick_in; [done|]. apply negb_true_iff, Z.leb_gt in Hr.
  apply pick_best in Hp as [_ Hb]; [|apply _]. apply list_elem_of_lookup_2 in Hk.
  assert (cEp r <> cEp s0) as Hneq.
  { intros E. assert (r = sel) as ->; [|lia].
    apply list_elem_of_lookup in Hk as [ir Hir]. apply list_elem_of_lookup in Hin as [j His].
    assert (ir = j) as ->; [|congruence]. eapply (NoDup_lookup (cEp <$> fleet)); [done| |].
    - rewrite list_lookup_fmap, Hir. reflexivity.
    - rewrite list_lookup_fmap, His. simpl. congruence. }
  destruct (Z.eqb_spec (cEp r) (cEp s0)) as [|_]; [done|]. simpl.
  exists r, true. repeat split; try done. intros _ d Hd Hdl.
  specialize (Hb d Hd). unfold lessLoad in Hb. rewrite negb_true_iff, Z.leb_gt in Hb. specialize (Hb ltac:(lia)). bool_props. lia.
Qed.

Definition hotFleet : list kvCandidate := [KvCandidate 0 9 4000 90; KvCandidate 1 0 4000 2; KvCandidate 2 0 4000 5].

Lemma relief_witness : kvSpillReliefTarget hotFleet 0 175 = (1, true) /\ 2 < capOf hotFleet 175 (KvCandidate 1 0 4000 2).
Proof.
  destruct (relief_leaves_no_hotspot hotFleet 0 175) as (sel & c & mv & _ & _ & _ & E & Hlt & _).
  - split; [repeat constructor; simpl; lia|vm_compute; congruence|simpl; lia].
  - simpl. lia.
  - vm_compute. repeat constructor; set_solver.
  - vm_compute. left.
  - lia.
  - vm_compute in E. injection E as _ _. split; vm_compute; reflexivity.
Defined.

(** ** An idle fleet, and the soft cost *)

(** Two loops that agree on the candidates they meet pick the same one. *)
Lemma pick_ext {A} (ok1 ok2 : A -> bool) (better1 better2 : A -> A -> bool) (l : list A) i best :
  (forall c, c ∈ l -> ok1 c = ok2 c) ->
  (forall c d, c ∈ l -> d ∈ l \/ (exists j, best = Some (j, d)) -> ok1 c = true -> better1 c d = better2 c d) ->
  pick ok1 better1 i best l = pick ok2 better2 i best l.
Proof.
  revert i best. induction l as [|c l IH]; intros i best Hok Hb; simpl; [done|].
  rewrite <- (Hok c) by set_solver. destruct (ok1 c) eqn:Ec.
  - destruct best as [[j b]|].
    + rewrite <- (Hb c b) by (first [done|set_solver|right; eauto]).
      apply IH; [set_solver|]. intros d e Hd He Hd1. apply Hb; [set_solver| |done].
      destruct He as [He|[j' He]]; [set_solver|]. destruct (better1 c b); simplify_eq; [set_solver|right; eauto].
    + apply IH; [set_solver|]. intros d e Hd He Hd1. apply Hb; [set_solver| |done].
      destruct He as [He|[j' He]]; [set_solver|]. simplify_eq. set_solver.
  - apply IH; [set_solver|]. intros d e Hd He Hd1. apply Hb; [set_solver| |done]. destruct He; [set_solver|by right].
Qed.

Lemma maxOverlap_ge cands c : c ∈ cands -> cOverlap c <= maxOverlap cands.
Proof.
  assert (forall l m, m <= foldl (fun m c => if hasOverlap c && (cOverlap c >? m) then cOverlap c else m) m l) as Hmono.
  { induction l as [|d l IH]; intros m; simpl; [lia|]. etrans; [|apply IH].
    destruct (hasOverlap d && (cOverlap d >? m)) eqn:E; [|lia]. split_bools. lia. }
  assert (forall l m, c ∈ l -> 0 <= m -> cOverlap c <= foldl (fun m c => if hasOverlap c && (cOverlap c >? m) then cOverlap c else m) m l) as H.
  { induction l as [|d l IH]; intros m Hc Hm; [set_solver|]. simpl. apply elem_of_cons in Hc as [<-|Hc].
    - etrans; [|apply Hmono]. unfold hasOverlap. destruct ((cOverlap c >? 0) && (cOverlap c >? m)) eqn:E; [lia|].
      apply andb_false_iff in E as [E|E]; apply Z.ltb_ge in E; lia.
    - apply IH; [done|]. destruct (hasOverlap d && (cOverlap d >? m)) eqn:E; [|done]. split_bools. lia. }
  intros. unfold maxOverlap. by apply H.
Qed.

(** No value the loops compute wraps. *)
Record blendOk (cands : list kvCandidate) (lambda : Z) : Prop := {
  bo_fleet : fleetOk cands;
  bo_overlap : Forall (fun c => cOverlap c <= 4294967296) cands;
  bo_lambda : 0 <= lambda <= 100000
}.

Lemma load_le_loads cands c : fleetOk cands -> c ∈ cands -> 0 <= cLoad c <= loads cands.
Proof.
  intros Hok. pose proof (fo_nonneg _ Hok) as Hn. clear Hok. induction Hn as [|d l [Hd _] Hl IH]; intros Hc; [set_solver|].
  pose proof (loads_nonneg _ Hl). change (loads (d :: l)) with (cLoad d + loads l).
  apply elem_of_cons in Hc as [->|Hc]; [lia|]. specialize (IH Hc). lia.
Qed.

Lemma maxOverlap_bounds cands b : 0 <= b -> Forall (fun c => cOverlap c <= b) cands -> 0 <= maxOverlap cands <= b.
Proof.
  intros Hb H. unfold maxOverlap.
  cut (forall m, 0 <= m <= b ->
    0 <= foldl (fun m c => if hasOverlap c && (cOverlap c >? m) then cOverlap c else m) m cands <= b); [intros Hc; apply Hc; lia|].
  induction H as [|c l Hc Hl IH]; intros m Hm; simpl; [done|]. apply IH.
  destruct (hasOverlap c && (cOverlap c >? m)) eqn:E; [|lia]. split_bools. unfold hasOverlap in *. split_bools. lia.
Qed.

(** The cost in exact arithmetic. *)
Definition exactCost (cands : list kvCandidate) (lambda : Z) (c : kvCandidate) : Z :=
  (maxOverlap cands - cOverlap c) * 1000 + lambda * cLoad c / kvClampCapacity (cCapacity c).

Lemma softCost_exact cands lambda c :
  blendOk cands lambda -> c ∈ cands -> 0 < cOverlap c ->
  softCost (maxOverlap cands) lambda c = exactCost cands lambda c.
Proof.
  intros [Hf Ho Hl] Hc Hp. pose proof (load_le_loads _ _ Hf Hc) as Hlc. pose proof (fo_loads _ Hf).
  pose proof (maxOverlap_bounds cands 4294967296 ltac:(lia) Ho). pose proof (maxOverlap_ge _ _ Hc).
  pose proof (fo_nonneg _ Hf) as Hn. rewrite Forall_forall in Hn. destruct (Hn c Hc) as [_ Hcap].
  pose proof (clamp_bounds _ Hcap) as Hcl. unfold softCost, exactCost, kvSoftCostScale.
  assert (0 <= lambda * cLoad c <= 214748364800000) by nia.
  rewrite (u64_id (maxOverlap cands - cOverlap c)) by (unfold two64; lia).
  rewrite (u64_id (_ * 1000)) by (unfold two64; lia). rewrite (u64_id (lambda * _)) by (unfold two64; lia).
  apply u64_id. pose proof (Z.div_pos (lambda * cLoad c) (kvClampCapacity (cCapacity c)) ltac:(lia) ltac:(lia)).
  pose proof (Z.div_le_upper_bound (lambda * cLoad c) (kvClampCapacity (cCapacity c)) 214748364800000 ltac:(lia)).
  unfold two64. nia.
Qed.

(** The soft selector minimises the expected cost. Among the candidates with
    cached blocks it returns one whose exact cost (blocks to recompute in
    thousandths, plus the load penalty over its capacity) is least, and among
    those the one with most cached blocks; no intermediate value wraps. *)
Theorem soft_blend_minimises_cost cands lambda :
  blendOk cands lambda -> Exists (fun c => 0 < cOverlap c) cands ->
  exists c spilled, c ∈ cands /\ 0 < cOverlap c /\ kvSoftBlendSelect cands lambda = (cEp c, spilled) /\
    (spilled = false -> cEp c = kvArmPureArgmax cands) /\
    forall d, d ∈ cands -> 0 < cOverlap d ->
      exactCost cands lambda c <= exactCost cands lambda d /\
      (exactCost cands lambda c = exactCost cands lambda d -> cOverlap d <= cOverlap c).
Proof.
  intros Hok (u & Hu & Hup)%Exists_exists. unfold kvSoftBlendSelect, kvArmPureArgmax.
  destruct (pick_head_some hasOverlap moreOverlap cands u Hu) as (a & ca & Ha); [by apply Z.ltb_lt|].
  destruct (pick_head_some hasOverlap (cheaper (softCost (maxOverlap cands) lambda)) cands u Hu) as (i & c & Hp); [by apply Z.ltb_lt|].
  rewrite Ha, Hp. pose proof Hp as [|(k & Hk & -> & Hc)]%pick_in; [done|]. apply Z.ltb_lt in Hc.
  pose proof Ha as [|(k' & Hk' & -> & _)]%pick_in; [done|].
  apply pick_best in Hp as [_ Hb]; [|apply _]. assert (c ∈ cands) as Hin by (by eapply list_elem_of_lookup_2).
  exists c, (negb (Nat.eqb (0 + k) (0 + k'))). split; [done|]. split; [done|]. split; [by destruct cands|]. split.
  { intros Heq%negb_false_iff%Nat.eqb_eq. simpl in Heq. subst. congruence. }
  intros d Hd Hdp. specialize (Hb d Hd ltac:(by apply Z.ltb_lt)). unfold cheaper in Hb.
  rewrite !(softCost_exact cands) in Hb by done. bool_props. lia.
Qed.

(** Loops with the same eligibility and the same order on eligible candidates. *)
Lemma pick_ext_ok {A} (ok : A -> bool) (better1 better2 : A -> A -> bool) (l : list A) :
  (forall c d, c ∈ l -> d ∈ l -> ok c = true -> ok d = true -> better1 c d = better2 c d) ->
  pick ok better1 0 None l = pick ok better2 0 None l.
Proof.
  intros Hb. assert (forall l' i best, (forall c, c ∈ l' -> c ∈ l) ->
    (forall j b, best = Some (j, b) -> b ∈ l /\ ok b = true) -> pick ok better1 i best l' = pick ok better2 i best l') as H.
  { induction l' as [|c l' IH]; intros i best Hin Hbest; simpl; [done|].
    destruct (ok c) eqn:Ec; [|apply IH; [set_solver|done]]. destruct best as [[j b]|].
    - destruct (Hbest j b eq_refl) as [Hb1 Hb2]. rewrite <- (Hb c b) by (done || set_solver). apply IH; [set_solver|].
      intros ?? E. destruct (better1 c b); simplify_eq; [split; [set_solver|done]|done].
    - apply IH; [set_solver|]. intros ?? [= <- <-]. split; [set_solver|done]. }
  apply H; [done|]. done.
Qed.

(** On an idle fleet every selector mode is the pure cache winner: with no
    request in flight the bounded-load, soft and adaptive selectors return the
    endpoint with most cached blocks (lowest index on a tie) and report no
    spill, for every load factor and penalty in range. *)
Theorem idle_fleet_modes_agree cands mode mlf lambda :
  blendOk cands lambda -> 0 <= mlf <= 1000 -> Forall (fun c => cLoad c = 0) cands ->
  kvSelectArm cands mode mlf lambda = (kvArmPureArgmax cands, false).
Proof.
  intros Hok Hm Hz. rewrite Forall_forall in Hz.
  assert (kvUnifiedSelect cands mlf = (kvArmPureArgmax cands, false)) as Hhard.
  { destruct (decide (cands = [])) as [->|Hne]; [done|]. unfold kvArmPureArgmax.
    destruct (pick hasOverlap moreOverlap 0 None cands) as [[a ca]|] eqn:Ha.
    - rewrite (unified_under _ _ a ca a ca); [by rewrite Nat.eqb_refl| |done]. rewrite <- Ha. apply pick_ext.
      + intros c Hc. unfold underBound. destruct (capOf_spec cands mlf c (bo_fleet _ _ Hok) Hne Hc Hm) as (H1 & _).
        rewrite (Hz c Hc). destruct (Z.leb_spec (capOf cands mlf c) 0); [lia|]. by rewrite andb_true_r.
      + intros c d Hc [Hd|[? [=]]] _. unfold affinityThenLoad, moreOverlap. rewrite (Hz c Hc), (Hz d Hd). simpl.
        by rewrite andb_false_r, andb_true_r, orb_false_r.
    - unfold kvUnifiedSelect. destruct cands; [done|]. by rewrite Ha. }
  assert (kvSoftBlendSelect cands lambda = (kvArmPureArgmax cands, false)) as Hsoft.
  { unfold kvSoftBlendSelect, kvArmPureArgmax. destruct cands as [|d0 l]; [done|]. set (cands := d0 :: l) in *.
    replace (pick hasOverlap (cheaper (softCost (maxOverlap cands) lambda)) 0 None cands)
      with (pick hasOverlap moreOverlap 0 None cands).
    { destruct (pick _ _ _ _ _) as [[a ca]|]; [|done]. by rewrite Nat.eqb_refl. }
    apply (pick_ext_ok hasOverlap). intros c d Hc Hd Hc1 Hd1. apply Z.ltb_lt in Hc1, Hd1.
    unfold cheaper, moreOverlap. rewrite !(softCost_exact cands) by done. unfold exactCost.
    rewrite (Hz c Hc), (Hz d Hd), !Z.mul_0_r, !Z.div_0_l by
      (pose proof (fo_nonneg _ (bo_fleet _ _ Hok)) as Hn; rewrite Forall_forall in Hn;
       first [pose proof (clamp_bounds _ (proj2 (Hn c Hc))); lia|pose proof (clamp_bounds _ (proj2 (Hn d Hd))); lia]).
    apply eq_true_iff_eq. bool_props. lia. }
  unfold kvSelectArm. by repeat case_match.
Qed.

Definition idleFleet : list kvCandidate := [KvCandidate 4 3 10 0; KvCandidate 2 8 0 0; KvCandidate 1 8 500 0].

Lemma soft_blend_witness : kvSoftBlendSelect demoFleet 32 = (0, false) /\ exactCost demoFleet 32 (KvCandidate 0 9 4000 12) <= exactCost demoFleet 32 (KvCandidate 1 7 0 0).
Proof.
  destruct (soft_blend_minimises_cost demoFleet 32) as (c & sp & _ & _ & E & _).
  - split; [exact demoFleet_ok|repeat constructor; simpl; lia|lia].
  - left. simpl. lia.
  - vm_compute in E. injection E as _ _. split; vm_compute; congruence.
Defined.

Lemma idle_fleet_witness : kvSelectArm idleFleet "adaptive" 175 50000 = (1, false).
Proof.
  rewrite (idle_fleet_modes_agree idleFleet "adaptive" 175 50000).
  - vm_compute. reflexivity.
  - split; [split; [repeat constructor; simpl; lia|vm_compute; congruence|simpl; lia]|repeat constructor; simpl; lia|lia].
  - lia.
  - repeat constructor.
Defined.

(** ** Knobs and the adaptive law *)

Lemma intKnob_range v lo hi n : intKnob v lo hi = Some n -> lo <= n <= hi.
Proof. unfold intKnob. destruct (ParseInt v) as [k|]; [|done]. destruct (_ && _) eqn:E; [|done]. intros [= <-]. split_bools. lia. Qed.

Lemma kvMeanLoadFactor_range env : 100 <= kvMeanLoadFactor env <= 1000.
Proof.
  unfold kvMeanLoadFactor, kvUnifiedDefaultMeanLoadFactor. destruct (negb _); [|lia].
  destruct (intKnob _ 100 1000) as [n|] eqn:E; simpl; [|lia]. by apply intKnob_range in E.
Qed.

Lemma kvLoadPenalty_range env : 1 <= kvLoadPenalty env <= 100000.
Proof.
  unfold kvLoadPenalty, kvLbDefaultLoadPenalty. destruct (negb _); [|lia].
  destruct (intKnob _ 1 100000) as [n|] eqn:E; simpl; [|lia]. by apply intKnob_range in E.
Qed.

Lemma kvCapActualMilli_range env :
  kvCapActualMilli env = 0 \/ kvAdaptiveCapRefMilli <= 8 * kvCapActualMilli env /\ kvCapActualMilli env <= 8 * kvAdaptiveCapRefMilli.
Proof.
  unfold kvCapActualMilli. destruct (_ ==s _); [by left|]. destruct (ParseUint _) as [n|] eqn:E; [|by left].
  assert (0 <= n < two64) as Hn.
  { unfold ParseUint in E. destruct (env _) as [|a s]; [done|]. destruct (parse_digits 0 _) as [v|] eqn:Ev; [|done].
    destruct (Z.ltb_spec v two64); [|done]. injection E as ->. split; [|done].
    assert (forall s acc v, 0 <= acc -> parse_digits acc s = Some v -> 0 <= v) as Hp.
    { clear. induction s as [|a s IH]; intros acc v Ha; simpl; [by intros [= <-]|].
      unfold digit_of. destruct (_ && _) eqn:E; [|done]. split_bools. intros H'. eapply IH; [|exact H']. lia. }
    eapply Hp; [|exact Ev]. lia. }
  destruct (Z.eqb_spec n 0); [by left|]. unfold kvAdaptiveCapRefMilli. change (15284310 >? 0) with true. cbn [andb].
  change (u64 (15284310 * 8)) with 122274480.
  destruct ((n >? 122274480) || (u64 (n * 8) <? 15284310)) eqn:Eb; [by left|]. split_bools.
  rewrite u64_id in * by (unfold two64; lia). right. lia.
Qed.

(** The clamped linear law. *)
Definition clampedLinear (floor cap num den anchor l : Z) : Z := Z.max floor (Z.min cap (floor + num * (l - anchor) / den)).

Lemma clampedLinear_mono floor cap num den anchor l l' :
  0 <= num -> 0 < den -> l <= l' -> clampedLinear floor cap num den anchor l <= clampedLinear floor cap num den anchor l'.
Proof.
  intros Hn Hd Hl. unfold clampedLinear. pose proof (Z.div_le_mono (num * (l - anchor)) (num * (l' - anchor)) den Hd ltac:(nia)). lia.
Qed.

Lemma normalizedLoad_eq env cands : fleetOk cands ->
  kvAdaptiveNormalizedLoad env cands =
  if kvCapNormEnabled env then loads cands * kvAdaptiveCapRefMilli / kvCapActualMilli env else loads cands.
Proof.
  intros Hok. unfold kvAdaptiveNormalizedLoad, kvAdaptiveSumLoad. rewrite sumLoad_eq by done.
  destruct (kvCapNormEnabled env); [|done]. cbn [negb]. rewrite u64_id; [done|].
  pose proof (loads_nonneg _ (fo_nonneg _ Hok)). pose proof (fo_loads _ Hok). unfold kvAdaptiveCapRefMilli, two64. lia.
Qed.

(** The adaptive coefficients follow the clamped linear law. For every
    environment the load factor and the penalty are the law at the normalised
    load: the load itself, or the load scaled by a ratio between one eighth and
    eight when the fleet's capacity is declared. They stay within 175..300 and
    50000..100000 and never decrease when the load grows. *)
Theorem adaptive_law_exact env cands cands' :
  fleetOk cands -> fleetOk cands' -> loads cands <= loads cands' ->
  let l := kvAdaptiveNormalizedLoad env cands in
  kvAdaptiveMeanLoadFactor env cands = clampedLinear 175 300 125 10 16 l /\
  kvAdaptiveLoadPenalty env cands = clampedLinear 50000 100000 5000 1 16 l /\
  (l = loads cands \/ exists a, kvAdaptiveCapRefMilli <= 8 * a /\ a <= 8 * kvAdaptiveCapRefMilli /\ l = loads cands * kvAdaptiveCapRefMilli / a) /\
  kvAdaptiveMeanLoadFactor env cands <= kvAdaptiveMeanLoadFactor env cands' /\
  kvAdaptiveLoadPenalty env cands <= kvAdaptiveLoadPenalty env cands'.
Proof.
  intros Hok Hok' Hle l.
  assert (forall c, 0 <= kvAdaptiveNormalizedLoad env c ->
    kvAdaptiveMeanLoadFactor env c = clampedLinear 175 300 125 10 16 (kvAdaptiveNormalizedLoad env c) /\
    kvAdaptiveLoadPenalty env c = clampedLinear 50000 100000 5000 1 16 (kvAdaptiveNormalizedLoad env c)) as Hlaw.
  { intros c. unfold kvAdaptiveMeanLoadFactor, kvAdaptiveLoadPenalty. generalize (kvAdaptiveNormalizedLoad env c) as x. intros x Hx.
    unfold kvAdaptiveLoadAnchor, kvAdaptiveLoadSat, kvAdaptiveEpsFloorPct, kvAdaptiveEpsCapPct, kvAdaptiveEpsSlopeNum,
      kvAdaptiveEpsSlopeDen, kvAdaptiveLambdaFloor, kvAdaptiveLambdaCap, kvAdaptiveLambdaSlope, clampedLinear. rewrite Z.div_1_r.
    destruct (Z.leb_spec x 16).
    { pose proof (Z.div_le_upper_bound (125 * (x - 16)) 10 0 ltac:(lia)). lia. }
    destruct (Z.leb_spec 26 x).
    { pose proof (Z.div_le_lower_bound (125 * (x - 16)) 10 125 ltac:(lia)). lia. }
    assert (x ∈ [17;18;19;20;21;22;23;24;25]) as Hin by (rewrite !elem_of_cons, elem_of_nil; lia).
    by repeat (apply elem_of_cons in Hin as [->|Hin]; [vm_compute; split; reflexivity|]); apply elem_of_nil in Hin. }
  pose proof (loads_nonneg _ (fo_nonneg _ Hok)) as H0. pose proof (loads_nonneg _ (fo_nonneg _ Hok')) as H0'.
  assert ((l = loads cands \/ exists a, kvAdaptiveCapRefMilli <= 8 * a /\ a <= 8 * kvAdaptiveCapRefMilli /\ l = loads cands * kvAdaptiveCapRefMilli / a)
    /\ 0 <= l <= kvAdaptiveNormalizedLoad env cands') as [Hl Hb].
  { unfold l. rewrite !normalizedLoad_eq by done. destruct (kvCapNormEnabled env) eqn:En; [|split; [by left|lia]].
    apply andb_true_iff in En as [_ En]. apply negb_true_iff, Z.eqb_neq in En.
    destruct (kvCapActualMilli_range env) as [|[Ha1 Ha2]]; [done|].
    assert (0 < kvCapActualMilli env) by (unfold kvAdaptiveCapRefMilli in *; lia). split; [right; eauto|].
    split; [apply Z.div_pos; unfold kvAdaptiveCapRefMilli; lia|]. apply Z.div_le_mono; unfold kvAdaptiveCapRefMilli; lia. }
  destruct (Hlaw cands ltac:(fold l; lia)) as [E1 E2]. destruct (Hlaw cands' ltac:(lia)) as [E1' E2']. fold l in E1, E2.
  rewrite E1, E2, E1', E2'. split; [done|]. split; [done|]. split; [done|].
  split; apply clampedLinear_mono; lia.
Qed.

Lemma adaptive_law_witness :
  kvAdaptiveMeanLoadFactor (fun _ => ""%string) demoFleet = 175 /\ kvAdaptiveMeanLoadFactor (fun _ => ""%string) hotFleet = 300.
Proof.
  destruct (adaptive_law_exact (fun _ => ""%string) demoFleet hotFleet) as (E & _).
  - exact demoFleet_ok.
  - split; [repeat constructor; simpl; lia|vm_compute; congruence|simpl; lia].
  - vm_compute. congruence.
  - split; [rewrite E|]; vm_compute; reflexivity.
Defined.

(** ** Corner cases *)

(** The fallback of a saturated set can be the affinity winner itself: no spill. *)
Lemma saturated_without_a_spill :
  kvUnifiedSelect [KvCandidate 0 9 10 5; KvCandidate 1 3 10 5] 100 = (0, false) /\
  Forall (fun c => capOf [KvCandidate 0 9 10 5; KvCandidate 1 3 10 5] 100 c <= cLoad c) [KvCandidate 0 9 10 5; KvCandidate 1 3 10 5].
Proof. split; [vm_compute; reflexivity|]. repeat constructor; vm_compute; discriminate. Qed.

(** A tie on overlap that load decides is reported as a spill, with nobody over the cap. *)
Lemma tie_reported_as_spill :
  kvUnifiedSelect [KvCandidate 0 5 10 2; KvCandidate 1 5 10 1] 300 = (1, true) /\
  Forall (fun c => cLoad c < capOf [KvCandidate 0 5 10 2; KvCandidate 1 5 10 1] 300 c) [KvCandidate 0 5 10 2; KvCandidate 1 5 10 1].
Proof. split; [vm_compute; reflexivity|]. repeat constructor; vm_compute; reflexivity. Qed.
