(* ===== verification/KvInventory.v ===== *)
(** * KvInventory: the cached blocks of one endpoint, and what engines say of them

    pkg/loxinet/ai_kv_subscriber.go (inventory, events, resync decision) and
    ai_kv_wire_bindings.go (the two msgpack bindings).  msgpack decoding is a
    third-party package: a payload is given as the dynamic values its decoder
    returns.  The conversion of a float to an unsigned integer is left to the
    platform by the language and is an argument. *)

From S2P Require Import Prelude KvSelect.

Open Scope Z_scope.
Open Scope igw_scope.

(** ** Inventory *)

Definition kvMaxBlocksDefault : Z := 1000000.

Definition kvResolveMaxBlocks (env : Env) : Z :=
  let v := env "LOXILB_KV_MAX_BLOCKS" in
  if negb (v ==s "") then default kvMaxBlocksDefault (intKnob v 1000 100000000) else kvMaxBlocksDefault.

(** [order] is the container/list, oldest first; [elem] the hashes that have an
    element in it (an element is named by its value, which is unique). *)
Record kvInventory := KvInventory {
  blocks : gset Z;
  elem : gset Z;
  order : list Z;
  maxBlocks : Z;
  lastSeq : Z;
  lastRecv : Z;
  svcLabel : string;
  epLabel : string
}.

Definition newKvInventory (env : Env) : kvInventory := KvInventory ∅ ∅ [] (kvResolveMaxBlocks env) (-1) 0 "" "".

Definition setBlocks (inv : kvInventory) (b e : gset Z) (o : list Z) : kvInventory :=
  KvInventory b e o (maxBlocks inv) (lastSeq inv) (lastRecv inv) (svcLabel inv) (epLabel inv).

Definition setRecv (now : Z) (inv : kvInventory) : kvInventory :=
  KvInventory (blocks inv) (elem inv) (order inv) (maxBlocks inv) (lastSeq inv) now (svcLabel inv) (epLabel inv).

Definition setLastSeq (seq : Z) (inv : kvInventory) : kvInventory :=
  KvInventory (blocks inv) (elem inv) (order inv) (maxBlocks inv) seq (lastRecv inv) (svcLabel inv) (epLabel inv).

Definition addBlock (inv : kvInventory) (h : Z) : kvInventory :=
  if decide (h ∈ blocks inv) then inv
  else setBlocks inv ({[h]} ∪ blocks inv) ({[h]} ∪ elem inv) (order inv ++ [h]).

(** The eviction loop: each round takes the front of the list. *)
Fixpoint evictOver (n : nat) (inv : kvInventory) : kvInventory * Z :=
  match n with
  | O => (inv, 0)
  | S n' =>
      if (maxBlocks inv >? 0) && (Z.of_nat (size (blocks inv)) >? maxBlocks inv) then
        match order inv with
        | [] => (inv, 0)
        | oldest :: rest =>
            let '(inv', k) := evictOver n' (setBlocks inv (blocks inv ∖ {[oldest]}) (elem inv ∖ {[oldest]}) rest) in
            (inv', k + 1)
        end
      else (inv, 0)
  end.

(** A round removes an element of the list, so its length bounds the rounds. *)
Definition AddBlocks (now : Z) (hashes : list Z) (inv : kvInventory) : kvInventory * Z :=
  let inv1 := foldl addBlock inv hashes in
  let '(inv2, evicted) := evictOver (length (order inv1)) inv1 in
  (setRecv now inv2, evicted).

Definition removeBlock (inv : kvInventory) (h : Z) : kvInventory :=
  if decide (h ∈ elem inv)
  then setBlocks inv (blocks inv ∖ {[h]}) (elem inv ∖ {[h]}) (filter (fun x => x <> h) (order inv))
  else setBlocks inv (blocks inv ∖ {[h]}) (elem inv) (order inv).

Definition RemoveBlocks (now : Z) (hashes : list Z) (inv : kvInventory) : kvInventory :=
  setRecv now (foldl removeBlock inv hashes).

Definition ClearAll (now : Z) (inv : kvInventory) : kvInventory := setRecv now (setBlocks inv ∅ ∅ []).

Definition MatchCount (queryHashes : list Z) (inv : kvInventory) : Z :=
  foldl (fun count h => if decide (h ∈ blocks inv) then count + 1 else count) 0 queryHashes.

Definition Size (inv : kvInventory) : Z := Z.of_nat (size (blocks inv)).

(** ** Resynchronisation *)

Definition kvSeqResumeWindow : Z := 64.

Definition kvResyncDecision (seq lastSeq : Z) : bool :=
  if lastSeq <? 0 then false
  else if seq <? lastSeq then false
  else if seq >? i64 (lastSeq + kvSeqResumeWindow) then false
  else true.

(** ** Events *)

Inductive kvEventType := kvEventBlockStored | kvEventBlockRemoved | kvEventAllBlocksCleared | kvEventUnknown.

Record kvEvent := KvEvent {
  evType : kvEventType;
  evHashes : list Z;
  evTokens : list Z;
  evLora : bool;
  evExtraKeys : bool;
  evBlockSize : Z
}.

Definition plainEvent (t : kvEventType) (hashes : list Z) : kvEvent := KvEvent t hashes [] false false 0.

(** ** Dynamic values *)

Inductive intKind := I8 | I16 | I32 | I64 | U8 | U16 | U32 | U64.

Inductive goVal :=
  | GNil
  | GInt (k : intKind) (v : Z)
  | GFloat64 (bits : Z)
  | GStr (s : string)
  | GArr (l : list goVal)
  | GMapS (m : list (string * goVal))    (* map[string]interface{} *)
  | GMapI (m : list (goVal * goVal))     (* map[interface{}]interface{} *)
  | GOther.                              (* bool, bytes, float32, extensions *)

(** A Go map as the list of its entries; keys are distinct. *)
Fixpoint assocGet (k : string) (m : list (string * goVal)) : option goVal :=
  match m with
  | [] => None
  | (k', v) :: m' => if k ==s k' then Some v else assocGet k m'
  end.

(** [uint32(t)] on every element; one that is not an integer voids the list. *)
Fixpoint tokenIDs (l : list goVal) : option (list Z) :=
  match l with
  | [] => Some []
  | GInt _ v :: l' => match tokenIDs l' with Some r => Some (u32 v :: r) | None => None end
  | _ :: _ => None
  end.

Definition extractTokenIDs (raw : goVal) : list Z :=
  match raw with
  | GArr l => default [] (tokenIDs l)
  | _ => []
  end.

Definition kvFieldEmpty (raw : goVal) : bool :=
  match raw with
  | GNil => true
  | GMapS m => Nat.eqb (length m) 0
  | GMapI m => Nat.eqb (length m) 0
  | GArr l => Nat.eqb (length l) 0
  | GInt _ v => v ==? 0
  | GStr s => s ==s ""
  | GFloat64 _ | GOther => false
  end.

Definition kvPerBlockFieldEmpty (raw : goVal) : bool :=
  match raw with
  | GArr l => forallb kvFieldEmpty l
  | _ => kvFieldEmpty raw
  end.

(** ** Decoders *)

Definition KvWireVllmArrayV1 : string := "vllm-kv-tagged-array-v1".
Definition KvWireVllmMapV2 : string := "vllm-kv-tagged-map-v2".
Definition KvWireSglangRankV1 : string := "sglang-kv-tagged-array-rank-v1".
Definition KvWireTrtllmJSONV1 : string := "trtllm-kv-json-v1".

(** [kvWireError.Reason]. *)
Inductive kvWireReason := KvWireReasonSchemaMismatch | KvWireReasonDecodeError | KvWireReasonRankMismatch.

#[export] Instance kvWireReason_eq_dec : EqDecision kvWireReason.
Proof. solve_decision. Defined.

Record kvWireBatch := KvWireBatch { Events : list kvEvent; DPRank : option Z }.

Section Decode.
Context (f2u : Z -> Z).

(** The integer kinds the hash switch lists; the others are skipped. *)
Definition blockHash (v : goVal) : option Z :=
  match v with
  | GInt I64 h | GInt I8 h | GInt I16 h | GInt I32 h => Some (u64 h)
  | GInt U64 h => Some h
  | GFloat64 b => Some (f2u b)
  | _ => None
  end.

Definition extractBlockHashes (raw : goVal) : option (list Z) :=
  match raw with
  | GArr l => Some (omap blockHash l)
  | _ => None
  end.

Definition decodeKVEvent (raw : goVal) : option kvEvent :=
  match raw with
  | GArr (GStr tag :: rest) =>
      let arr := GStr tag :: rest in
      if tag ==s "BlockStored" then
        match rest with
        | [] => None
        | hs :: _ =>
            match extractBlockHashes hs with
            | None => None
            | Some hashes =>
                Some (KvEvent kvEventBlockStored hashes
                  (match arr !! 3%nat with Some t => extractTokenIDs t | None => [] end)
                  (match arr !! 5%nat with Some x => negb (kvFieldEmpty x) | None => false end)
                  (match arr !! 8%nat with Some x => negb (kvPerBlockFieldEmpty x) | None => false end)
                  0)
            end
        end
      else if tag ==s "BlockRemoved" then
        match rest with
        | [] => None
        | hs :: _ => plainEvent kvEventBlockRemoved <$> extractBlockHashes hs
        end
      else if tag ==s "AllBlocksCleared" then Some (plainEvent kvEventAllBlocksCleared [])
      else Some (plainEvent kvEventUnknown [])
  | _ => None
  end.

Definition kvWireEventIsMap (raw : goVal) : bool :=
  match raw with GMapS _ | GMapI _ => true | _ => false end.

Definition kvWireDecodeRank (raw : list goVal) : option Z :=
  match raw !! 2%nat with
  | Some (GInt _ v) => Some (i64 v)
  | _ => None
  end.

Fixpoint decodeArrayEvents (l : list goVal) : list kvEvent + kvWireReason :=
  match l with
  | [] => inl []
  | evRaw :: l' =>
      if kvWireEventIsMap evRaw then inr KvWireReasonSchemaMismatch
      else match decodeArrayEvents l' with
           | inr r => inr r
           | inl evs => inl (match decodeKVEvent evRaw with Some ev => ev :: evs | None => evs end)
           end
  end.

(** The outer array of both bindings. *)
Definition decodeBatch (events : list goVal -> list kvEvent + kvWireReason) (payload : option (list goVal)) : kvWireBatch + kvWireReason :=
  match payload with
  | None => inr KvWireReasonDecodeError
  | Some raw =>
      match raw with
      | _ :: GArr eventsRaw :: _ =>
          match events eventsRaw with
          | inl evs => inl (KvWireBatch evs (kvWireDecodeRank raw))
          | inr r => inr r
          end
      | _ => inr KvWireReasonDecodeError
      end
  end.

Definition kvWireDecodeArrayV1 : option (list goVal) -> kvWireBatch + kvWireReason := decodeBatch decodeArrayEvents.

(** [map[interface{}]interface{}] with string keys only. *)
Fixpoint stringKeys (m : list (goVal * goVal)) : option (list (string * goVal)) :=
  match m with
  | [] => Some []
  | (GStr k, v) :: m' => match stringKeys m' with Some r => Some ((k, v) :: r) | None => None end
  | _ => None
  end.

Definition mapEvent (m : list (string * goVal)) : kvEvent + kvWireReason :=
  let field k := default GNil (assocGet k m) in
  let tag := match field "type" with GStr s => s | _ => "" end in
  if tag ==s "BlockStored" then
    match extractBlockHashes (field "block_hashes") with
    | None => inr KvWireReasonDecodeError
    | Some [] => inr KvWireReasonDecodeError
    | Some hashes =>
        inl (KvEvent kvEventBlockStored hashes
          (match assocGet "token_ids" m with Some t => extractTokenIDs t | None => [] end)
          (match assocGet "lora_id" m with Some v => negb (kvFieldEmpty v) | None => false end)
          (match assocGet "extra_keys" m with Some v => negb (kvPerBlockFieldEmpty v) | None => false end)
          (match extractTokenIDs (GArr [field "block_size"]) with [bs] => if bs >? 0 then bs else 0 | _ => 0 end))
    end
  else if tag ==s "BlockRemoved" then
    match extractBlockHashes (field "block_hashes") with
    | None => inr KvWireReasonDecodeError
    | Some hashes => inl (plainEvent kvEventBlockRemoved hashes)
    end
  else if tag ==s "AllBlocksCleared" then inl (plainEvent kvEventAllBlocksCleared [])
  else if tag ==s "" then inr KvWireReasonDecodeError
  else inr KvWireReasonSchemaMismatch.

Definition kvWireDecodeMapEvent (raw : goVal) : kvEvent + kvWireReason :=
  match raw with
  | GMapS m => mapEvent m
  | GMapI m2 => match stringKeys m2 with Some m => mapEvent m | None => inr KvWireReasonDecodeError end
  | GArr _ => inr KvWireReasonSchemaMismatch
  | _ => inr KvWireReasonDecodeError
  end.

Fixpoint decodeMapEvents (l : list goVal) : list kvEvent + kvWireReason :=
  match l with
  | [] => inl []
  | evRaw :: l' =>
      match kvWireDecodeMapEvent evRaw with
      | inr r => inr r
      | inl ev => match decodeMapEvents l' with inl evs => inl (ev :: evs) | inr r => inr r end
      end
  end.

Definition kvWireDecodeMapV2 : option (list goVal) -> kvWireBatch + kvWireReason := decodeBatch decodeMapEvents.
End Decode.
