(* ===== verification/KvEngines.v ===== *)
(** * KvEngines: engine contracts, wire bindings and the TensorRT-LLM stream

    pkg/enginecontract (the compiled registry), the wire-schema resolution of
    ai_kv_wire_bindings.go, the drain ownership of ai_kv_trtllm_ownership.go and
    the JSON decoder of ai_kv_trtllm_source.go.  JSON parsing is the standard
    library's: an envelope is given as the record it decodes to.  SHA-256 is an
    argument; bytes are integers. *)

From S2P Require Import Prelude KvSelect KvInventory Classes.

Open Scope Z_scope.
Open Scope igw_scope.

(** ** The compiled contract registry *)

Record ContractRef := { refID : string; refGen : Z }.

Record engineProfile := EngineProfile {
  epID : string;
  epEngine : string;
  epFamilyDefault : bool;
  epWireSchema : string
}.

Definition Generation : Z := 1.

Definition Profiles : list engineProfile := [
  EngineProfile "llamacpp-nokv-v1" "llamacpp" false "none";
  EngineProfile "sglang-kv-rank-v1" "sglang" true "sglang-kv-tagged-array-rank-v1";
  EngineProfile "trtllm-kv-http-preview-v1" "trtllm" false "trtllm-kv-json-v1";
  EngineProfile "trtllm-kv-http-v1" "trtllm" true "trtllm-kv-json-v1";
  EngineProfile "vllm-kv-array-v1" "vllm" false "vllm-kv-tagged-array-v1";
  EngineProfile "vllm-kv-map-v2" "vllm" true "vllm-kv-tagged-map-v2"].

Fixpoint findProfile (ok : engineProfile -> bool) (l : list engineProfile) : option engineProfile :=
  match l with
  | [] => None
  | p :: l' => if ok p then Some p else findProfile ok l'
  end.

Definition CurrentRef (engineFamily : string) : option ContractRef :=
  match findProfile (fun p => (epEngine p ==s engineFamily) && epFamilyDefault p) Profiles with
  | Some p => Some {| refID := epID p; refGen := Generation |}
  | None => None
  end.

Definition ProfileByID (id : string) : option engineProfile := findProfile (fun p => epID p ==s id) Profiles.

(** ** Wire schemas *)

Definition kvLegacyWireProfile (engine : string) : option string :=
  if engine ==s "" then Some "vllm-kv-array-v1"
  else if engine ==s "vllm" then Some "vllm-kv-array-v1"
  else if engine ==s "sglang" then Some "sglang-kv-rank-v1"
  else if engine ==s "trtllm" then Some "trtllm-kv-http-v1"
  else None.

Definition kvLegacyVllmWireOverride (engine value : string) : string :=
  if negb (engine ==s "") && negb (engine ==s "vllm") then ""
  else let v := ToLower (TrimSpace value) in
       if (v ==s "map") || (v ==s "v2") || (v ==s "vllm-kv-map-v2") then "vllm-kv-map-v2" else "".

Definition kvResolveWireSchema (env : Env) (engine contractID : string) : option string :=
  let profID :=
    if contractID ==s "" then
      match kvLegacyWireProfile engine with
      | None => None
      | Some legacyID =>
          let override := kvLegacyVllmWireOverride engine (env "LOXILB_KV_VLLM_WIRE") in
          Some (if negb (override ==s "") then override else legacyID)
      end
    else Some contractID in
  match profID with
  | None => None
  | Some id =>
      match ProfileByID id with
      | None => None
      | Some prof => if epWireSchema prof ==s "none" then None else Some (epWireSchema prof)
      end
  end.

(** ** Drain ownership *)

Inductive trtllmFault := KvTrtllmFaultSequenceGap | KvTrtllmFaultOwnershipLost.

Record kvTrtllmOwnerState := OwnerState {
  ownEpoch : Z;
  acquiredAt : Z;
  cursor : option Z;              (* cursor, when cursorSet *)
  faulted : option trtllmFault;   (* faultReason, when faulted *)
  faultAt : Z;
  gaps : Z;
  dups : Z
}.

(** kvTrtllmOwnerReg and the epoch allocator. *)
Record ownerReg := OwnerReg { ownMap : gmap (Z * Z) kvTrtllmOwnerState; ownNext : Z }.

Definition freshOwner (epoch now : Z) : kvTrtllmOwnerState := OwnerState epoch now None None 0 0 0.

Definition kvTrtllmOwnershipAcquire (now svc ep : Z) (r : ownerReg) : ownerReg :=
  let epoch := u64 (ownNext r + 1) in
  OwnerReg (<[(svc, ep) := freshOwner epoch now]> (ownMap r)) epoch.

Definition kvTrtllmOwnershipForget (svc ep : Z) (r : ownerReg) : ownerReg :=
  OwnerReg (delete (svc, ep) (ownMap r)) (ownNext r).

Definition kvTrtllmOwnershipForgetAll (svc : Z) (r : ownerReg) : ownerReg :=
  OwnerReg (filter (fun p => p.1.1 <> svc) (ownMap r)) (ownNext r).

(** One observed envelope on an endpoint's record: the verdict and the record. *)
Definition observeOwner (now eventID : Z) (created : bool) (st : kvTrtllmOwnerState) : option trtllmFault * kvTrtllmOwnerState :=
  if created then
    (None, OwnerState (ownEpoch st) (acquiredAt st) (Some eventID) None (faultAt st) (gaps st) (dups st))
  else
    let at_ c f := OwnerState (ownEpoch st) (acquiredAt st) (Some c) f in
    match cursor st with
    | None => (None, at_ eventID (faulted st) (faultAt st) (gaps st) (dups st))
    | Some c =>
        if eventID ==? u64 (c + 1) then (None, at_ eventID (faulted st) (faultAt st) (gaps st) (dups st))
        else if eventID >? u64 (c + 1) then
          (Some KvTrtllmFaultSequenceGap, at_ eventID (Some KvTrtllmFaultSequenceGap) now (u64 (gaps st + 1)) (dups st))
        else
          (Some KvTrtllmFaultOwnershipLost, at_ eventID (Some KvTrtllmFaultOwnershipLost) now (gaps st) (u64 (dups st + 1)))
    end.

Definition kvTrtllmOwnershipObserve (now svc ep eventID : Z) (created : bool) (r : ownerReg) : option trtllmFault * ownerReg :=
  let '(st, next) :=
    match ownMap r !! (svc, ep) with
    | Some st => (st, ownNext r)
    | None => let epoch := u64 (ownNext r + 1) in (freshOwner epoch now, epoch)
    end in
  let '(v, st') := observeOwner now eventID created st in
  (v, OwnerReg (<[(svc, ep) := st']> (ownMap r)) next).

(** The receipt: the state itself, or nothing. *)
Definition KvTrtllmOwnership (svc ep : Z) (r : ownerReg) : option kvTrtllmOwnerState := ownMap r !! (svc, ep).

(** ** The JSON stream *)

Record trtllmToken := { TokenID : Z; TokenExtraID : Z }.

Record trtllmStoredBlock := StoredBlock {
  BlockHash : string;
  Tokens : list trtllmToken;
  CacheSalt : string;
  MmKeys : list string
}.

Record trtllmEventData := EventData {
  dType : string;
  ParentHash : string;
  Blocks : list trtllmStoredBlock;
  BlockHashes : list string
}.

Record trtllmEventEnvelope := Envelope {
  EventID : Z;
  WindowSize : Z;
  HashAlgo : string;
  Data : trtllmEventData
}.

Definition kvTrtllmParseU64 (n : string) : option Z :=
  if (n ==s "") || (n ==s "null") then None
  else match ParseUint n with
       | Some u => Some u
       | None => match ParseInt n with Some i => Some (u64 i) | None => None end
       end.

Record trtllmChainEntry := ChainEntry { chainKey : Z; chainDigest : list Z }.

Record trtllmWireDecoder := TrtllmDecoder {
  tBlockSize : Z;
  tWindow : Z;
  tChain : gmap Z trtllmChainEntry;
  ownerBound : option (Z * Z)
}.

Definition newTrtllmWireDecoder (blockSize : Z) : trtllmWireDecoder :=
  TrtllmDecoder (if blockSize <=? 0 then 16 else blockSize) (-1) ∅ None.

Definition bindOwner (now svc ep : Z) (d : trtllmWireDecoder) (r : ownerReg) : trtllmWireDecoder * ownerReg :=
  (TrtllmDecoder (tBlockSize d) (tWindow d) (tChain d) (Some (svc, ep)), kvTrtllmOwnershipAcquire now svc ep r).

Definition kvTrtllmChainMapCap : Z := 2000000.

(** Little-endian bytes of a 32-bit word, and the big-endian key of a digest. *)
Definition le4 (t : Z) : list Z := [t mod 256; (t / 256) mod 256; (t / 65536) mod 256; (t / 16777216) mod 256].

Definition be8 (d : list Z) : Z := foldl (fun a b => a * 256 + b) 0 (take 8 d).

Section Rehash.
Context (sha256 : list Z -> list Z).

Definition kvSglangRehashBlock (parent : option (list Z)) (tokens : list Z) : list Z * Z :=
  let digest := sha256 (default [] parent ++ concat (le4 <$> tokens)) in (digest, be8 digest).

Definition kvTrtllmBlockClean (blk : trtllmStoredBlock) : bool :=
  if existsb (fun t => TokenExtraID t !=? 0) (Tokens blk) then false
  else if negb (Nat.eqb (length (MmKeys blk)) 0) then false
  else let salt := TrimSpace (CacheSalt blk) in (salt ==s "") || (salt ==s "null").

(** The walk over the blocks of a stored event. *)
Fixpoint storedBlocks (blockSize : Z) (parent : option (list Z)) (bs : list trtllmStoredBlock) (chain : gmap Z trtllmChainEntry) :
    list Z * list Z * gmap Z trtllmChainEntry :=
  match bs with
  | [] => ([], [], chain)
  | blk :: bs' =>
      if (Z.of_nat (length (Tokens blk)) !=? blockSize) || negb (kvTrtllmBlockClean blk) then ([], [], chain)
      else
        let blkToks := (fun t => u32 (TokenID t)) <$> Tokens blk in
        let '(digest, key) := kvSglangRehashBlock parent blkToks in
        let chain1 :=
          match kvTrtllmParseU64 (BlockHash blk) with
          | Some eh => <[eh := ChainEntry key digest]> (if Z.of_nat (size chain) >=? kvTrtllmChainMapCap then ∅ else chain)
          | None => chain
          end in
        let '(keys, toks, chain2) := storedBlocks blockSize (Some digest) bs' chain1 in
        (key :: keys, blkToks ++ toks, chain2)
  end.

Definition translateStored (data : trtllmEventData) (d : trtllmWireDecoder) : list Z * list Z * gmap Z trtllmChainEntry :=
  match kvTrtllmParseU64 (ParentHash data) with
  | Some ph =>
      match tChain d !! ph with
      | None => ([], [], tChain d)
      | Some entry => storedBlocks (tBlockSize d) (Some (chainDigest entry)) (Blocks data) (tChain d)
      end
  | None => storedBlocks (tBlockSize d) None (Blocks data) (tChain d)
  end.

Fixpoint removedKeys (hs : list string) (chain : gmap Z trtllmChainEntry) : list Z * gmap Z trtllmChainEntry :=
  match hs with
  | [] => ([], chain)
  | n :: hs' =>
      match kvTrtllmParseU64 n with
      | None => removedKeys hs' chain
      | Some eh =>
          match chain !! eh with
          | Some entry => let '(keys, chain') := removedKeys hs' (delete eh chain) in (chainKey entry :: keys, chain')
          | None => removedKeys hs' chain
          end
      end
  end.

Definition translateRemoved (data : trtllmEventData) (d : trtllmWireDecoder) : list Z * gmap Z trtllmChainEntry :=
  removedKeys (BlockHashes data) (tChain d).

Definition setChain (d : trtllmWireDecoder) (w : Z) (chain : gmap Z trtllmChainEntry) : trtllmWireDecoder :=
  TrtllmDecoder (tBlockSize d) w chain (ownerBound d).

Definition translate (env : trtllmEventEnvelope) (d : trtllmWireDecoder) : option kvEvent * trtllmWireDecoder :=
  let ty := dType (Data env) in
  if negb (tWindow d <? 0) && (WindowSize env !=? tWindow d) && negb (ty ==s "created") then (None, d)
  else
    let d := if tWindow d <? 0 then setChain d (WindowSize env) (tChain d) else d in
    if ty ==s "created" then (Some (plainEvent kvEventAllBlocksCleared []), setChain d (WindowSize env) ∅)
    else if ty ==s "stored" then
      let '(keys, toks, chain) := translateStored (Data env) d in
      (if Nat.eqb (length keys) 0 then None else Some (KvEvent kvEventBlockStored keys toks false false 0), setChain d (tWindow d) chain)
    else if ty ==s "removed" then
      let '(keys, chain) := translateRemoved (Data env) d in
      (if Nat.eqb (length keys) 0 then None else Some (plainEvent kvEventBlockRemoved keys), setChain d (tWindow d) chain)
    else (None, d).

Definition trtllmDecode (now : Z) (payload : option trtllmEventEnvelope) (d : trtllmWireDecoder) (r : ownerReg) :
    (kvWireBatch + kvWireReason) * trtllmWireDecoder * ownerReg :=
  match payload with
  | None => (inr KvWireReasonDecodeError, d, r)
  | Some env =>
      let '(verdict, r) :=
        match ownerBound d with
        | Some (svc, ep) => kvTrtllmOwnershipObserve now svc ep (EventID env) (dType (Data env) ==s "created") r
        | None => (None, r)
        end in
      match verdict with
      | Some _ => (inl (KvWireBatch [plainEvent kvEventAllBlocksCleared []] None), setChain d (-1) ∅, r)
      | None =>
          let '(ev, d) := translate env d in
          (inl (KvWireBatch (match ev with Some e => [e] | None => [] end) None), d, r)
      end
  end.
End Rehash.

(** ** Admission of an endpoint *)

Record kvTrtllmServerInfo := { KvCacheHashAlgo : string; TokensPerBlock : option Z }.

Definition kvTrtllmHashAlgoV1 : string := "v1_block_key".

Inductive trtllmVerdict := RefusedAlgo | RefusedBlockSize | VerdictOK | VerdictLegacyOK.

Definition kvTrtllmAdmissionEvaluate (info : kvTrtllmServerInfo) (blockSize : Z) : trtllmVerdict :=
  if negb (KvCacheHashAlgo info ==s "") && negb (KvCacheHashAlgo info ==s kvTrtllmHashAlgoV1) then RefusedAlgo
  else match TokensPerBlock info with
       | Some n => if n !=? blockSize then RefusedBlockSize else VerdictOK
       | None => if KvCacheHashAlgo info ==s "" then VerdictLegacyOK else VerdictOK
       end.
