(* ===== verification/KvEnginesProps.v ===== *)
(** * KvEnginesProps: keys of the TensorRT-LLM stream, and its ownership *)

From S2P Require Import Prelude KvSelect KvInventory KvEngines.

Open Scope Z_scope.
Open Scope igw_scope.

(** ** Keys of a prompt *)

Section Keys.
Context (sha256 : list Z -> list Z).

(** The digests the request path computes for the full blocks of a prompt. *)
Fixpoint promptDigests (parent : option (list Z)) (bs : list (list Z)) : list (list Z) :=
  match bs with
  | [] => []
  | b :: bs' => let d := sha256 (default [] parent ++ concat (le4 <$> b)) in d :: promptDigests (Some d) bs'
  end.

Definition promptKeys (bs : list (list Z)) : list Z := be8 <$> promptDigests None bs.

Lemma promptDigests_app par a b :
  promptDigests par (a ++ b) =
  promptDigests par a ++ promptDigests (match last (promptDigests par a) with Some d => Some d | None => par end) b.
Proof.
  revert par. induction a as [|x a IH]; intros par; simpl; [done|]. f_equal. rewrite IH, last_cons. f_equal. f_equal.
  by destruct (last (promptDigests _ a)).
Qed.

Lemma promptDigests_length par bs : length (promptDigests par bs) = length bs.
Proof. revert par. induction bs; intros; simpl; [done|]. by rewrite IHbs. Qed.

(** The blocks of an event the request path can reproduce: the longest prefix of
    full, plain blocks. *)
Definition plainBlock (blockSize : Z) (b : trtllmStoredBlock) : bool :=
  (Z.of_nat (length (Tokens b)) ==? blockSize) && kvTrtllmBlockClean b.

Fixpoint plainPrefix (blockSize : Z) (bs : list trtllmStoredBlock) : list trtllmStoredBlock :=
  match bs with
  | [] => []
  | b :: bs' => if plainBlock blockSize b then b :: plainPrefix blockSize bs' else []
  end.

Definition tokensOf (b : trtllmStoredBlock) : list Z := (fun t => u32 (TokenID t)) <$> Tokens b.

(** [paths] gives the token blocks, from the root, of the engine blocks the
    translation map knows. *)
Definition chainOk (paths : gmap Z (list (list Z))) (chain : gmap Z trtllmChainEntry) : Prop :=
  forall eh e, chain !! eh = Some e ->
    exists path, paths !! eh = Some path /\ last (promptDigests None path) = Some (chainDigest e) /\ chainKey e = be8 (chainDigest e).

(** The engine names the block at the end of a path. *)
Definition namePath (paths : gmap Z (list (list Z))) (name : string) (path : list (list Z)) : gmap Z (list (list Z)) :=
  match kvTrtllmParseU64 name with Some eh => <[eh := path]> paths | None => paths end.

Fixpoint namePaths (blockSize : Z) (p0 : list (list Z)) (bs : list trtllmStoredBlock) (paths : gmap Z (list (list Z))) : gmap Z (list (list Z)) :=
  match bs with
  | [] => paths
  | b :: bs' =>
      if plainBlock blockSize b then
        let p1 := p0 ++ [tokensOf b] in namePaths blockSize p1 bs' (namePath paths (BlockHash b) p1)
      else paths
  end.

Lemma storedBlocks_spec bsz bs p0 parent chain paths :
  parent = last (promptDigests None p0) -> chainOk paths chain ->
  let '(keys, toks, chain') := storedBlocks sha256 bsz parent bs chain in
  chainOk (namePaths bsz p0 bs paths) chain' /\
  keys = drop (length p0) (promptKeys (p0 ++ (tokensOf <$> plainPrefix bsz bs))) /\
  toks = concat (tokensOf <$> plainPrefix bsz bs).
Proof.
  revert p0 parent chain paths. induction bs as [|b bs IH]; intros p0 parent chain paths Hp Hc; simpl.
  { rewrite app_nil_r. split; [done|]. split; [|done]. unfold promptKeys. rewrite drop_ge; [done|].
    rewrite length_fmap, promptDigests_length. lia. }
  unfold plainBlock. destruct (Z.eqb_spec (Z.of_nat (length (Tokens b))) bsz) as [Hl|Hl]; simpl.
  2:{ rewrite app_nil_r. split; [done|]. split; [|done]. unfold promptKeys. rewrite drop_ge; [done|].
      rewrite length_fmap, promptDigests_length. lia. }
  destruct (kvTrtllmBlockClean b); simpl.
  2:{ rewrite app_nil_r. split; [done|]. split; [|done]. unfold promptKeys. rewrite drop_ge; [done|].
      rewrite length_fmap, promptDigests_length. lia. }
  fold (tokensOf b). set (digest := sha256 (default [] parent ++ concat (le4 <$> tokensOf b))).
  set (chain1 := match kvTrtllmParseU64 (BlockHash b) with Some _ => _ | None => _ end).
  assert (promptDigests None (p0 ++ [tokensOf b]) = promptDigests None p0 ++ [digest]) as Hd.
  { rewrite promptDigests_app. simpl. unfold digest. rewrite Hp. by destruct (last (promptDigests None p0)). }
  assert (last (promptDigests None (p0 ++ [tokensOf b])) = Some digest) as Hlast by (by rewrite Hd, last_snoc).
  assert (chainOk (namePath paths (BlockHash b) (p0 ++ [tokensOf b])) chain1) as Hc1.
  { unfold namePath, chain1. destruct (kvTrtllmParseU64 (BlockHash b)) as [eh|]; [|done].
    intros eh' e [[<- <-]|[Hne He]]%lookup_insert_Some.
    - exists (p0 ++ [tokensOf b]). by rewrite lookup_insert_eq.
    - rewrite lookup_insert_ne by done. apply Hc. by destruct (_ >=? _). }
  specialize (IH (p0 ++ [tokensOf b]) (Some digest) chain1 _ (eq_sym Hlast) Hc1).
  destruct (storedBlocks sha256 bsz (Some digest) bs chain1) as [[keys toks] chain'].
  destruct IH as (IH1 & -> & ->). split; [done|]. split; [|done].
  change (list_fmap _ _ tokensOf (plainPrefix bsz bs)) with (tokensOf <$> plainPrefix bsz bs).
  replace (p0 ++ tokensOf b :: (tokensOf <$> plainPrefix bsz bs)) with ((p0 ++ [tokensOf b]) ++ (tokensOf <$> plainPrefix bsz bs))
    by (by rewrite <- app_assoc). unfold promptKeys.
  rewrite (promptDigests_app None (p0 ++ [tokensOf b])), Hd, !fmap_app. cbn [fmap list_fmap].
  assert (length (be8 <$> promptDigests None p0) = length p0) as Hlen by (by rewrite length_fmap, promptDigests_length).
  set (X := be8 <$> promptDigests None p0) in *. set (Y := be8 <$> promptDigests _ _).
  rewrite length_app, <- Hlen. cbn [length].
  rewrite (drop_app_length' (X ++ [be8 digest])) by (by rewrite length_app).
  by rewrite <- app_assoc, drop_app_length.
Qed.

(** The token blocks above an event's blocks, when the translation map knows them. *)
Definition anchorOf (paths : gmap Z (list (list Z))) (d : trtllmWireDecoder) (data : trtllmEventData) : option (list (list Z)) :=
  match kvTrtllmParseU64 (ParentHash data) with
  | None => Some []
  | Some ph => match tChain d !! ph with Some _ => paths !! ph | None => None end
  end.

(** A stored event is indexed under the keys the request path computes. While
    the translation map names only paths of token blocks, a stored event whose
    parent it knows yields exactly the keys of its plain full blocks in the
    prompt that starts at the root, and the map then also names those blocks; an
    event below an unknown parent yields nothing. The engine's own hashes never
    become keys. *)
Theorem trtllm_keys_are_prompt_keys paths env d :
  chainOk paths (tChain d) -> dType (Data env) = "stored"%string -> (tWindow d < 0 \/ WindowSize env = tWindow d) ->
  let new := tokensOf <$> plainPrefix (tBlockSize d) (Blocks (Data env)) in
  let '(ev, d') := translate sha256 env d in
  match anchorOf paths d (Data env) with
  | None => ev = None /\ tChain d' = tChain d
  | Some p0 =>
      chainOk (namePaths (tBlockSize d) p0 (Blocks (Data env)) paths) (tChain d') /\
      ev = if Nat.eqb (length new) 0 then None
           else Some (KvEvent kvEventBlockStored (drop (length p0) (promptKeys (p0 ++ new))) (concat new) false false 0)
  end.
Proof.
  intros Hc Hty Hw new. unfold translate. rewrite Hty. cbn [String.eqb Ascii.eqb Bool.eqb]. 
  replace (negb (tWindow d <? 0) && (WindowSize env !=? tWindow d) && negb false) with false.
  2:{ destruct Hw as [Hw|Hw]; [destruct (Z.ltb_spec (tWindow d) 0); [done|lia]|]. by rewrite Hw, Z.eqb_refl, andb_false_r. }
  set (d1 := if tWindow d <? 0 then setChain d (WindowSize env) (tChain d) else d).
  assert (tChain d1 = tChain d /\ tBlockSize d1 = tBlockSize d) as [Ec Eb] by (unfold d1; by destruct (_ <? _)).
  simpl. unfold translateStored, anchorOf. rewrite Ec, Eb.
  assert (forall p0 parent, parent = last (promptDigests None p0) ->
    let '(keys, toks, chain) := storedBlocks sha256 (tBlockSize d) parent (Blocks (Data env)) (tChain d) in
    chainOk (namePaths (tBlockSize d) p0 (Blocks (Data env)) paths) chain /\
    (if Nat.eqb (length keys) 0 then None else Some (KvEvent kvEventBlockStored keys toks false false 0)) =
    if Nat.eqb (length new) 0 then None
    else Some (KvEvent kvEventBlockStored (drop (length p0) (promptKeys (p0 ++ new))) (concat new) false false 0)) as Hgo.
  { intros p0 parent Hp. pose proof (storedBlocks_spec (tBlockSize d) (Blocks (Data env)) p0 parent (tChain d) paths Hp Hc) as H.
    destruct (storedBlocks _ _ _ _ _) as [[keys toks] chain]. destruct H as (H1 & -> & ->). split; [done|]. fold new.
    replace (length (drop (length p0) (promptKeys (p0 ++ new)))) with (length new); [done|].
    unfold promptKeys. rewrite length_drop, length_fmap, promptDigests_length, length_app. lia. }
  destruct (kvTrtllmParseU64 (ParentHash (Data env))) as [ph|].
  - destruct (tChain d !! ph) as [e|] eqn:Ee; [|done].
    destruct (Hc ph e Ee) as (path & Hpath & Hlast & _). rewrite Hpath.
    specialize (Hgo path (Some (chainDigest e)) (eq_sym Hlast)).
    destruct (storedBlocks _ _ _ _ _) as [[keys toks] chain]. exact Hgo.
  - specialize (Hgo [] None eq_refl). destruct (storedBlocks _ _ _ _ _) as [[keys toks] chain]. exact Hgo.
Qed.
End Keys.

(** ** Drain ownership *)

(** Events as the stream shows them: identifier, and whether it announces a fresh
    cache. *)
Definition observeAll (now : Z) (es : list (Z * bool)) (st : kvTrtllmOwnerState) : kvTrtllmOwnerState :=
  foldl (fun st e => (observeOwner now e.1 e.2 st).2) st es.

(** Two consecutive events that do not follow each other, with no announcement at
    or after the second. *)
Definition discontinuity (es : list (Z * bool)) : Prop :=
  exists l1 x y l2, es = l1 ++ x :: y :: l2 /\ y.1 <> u64 (x.1 + 1) /\ Forall (fun e => e.2 = false) (y :: l2).

Lemma observe_cursor now es st e : cursor (observeAll now (es ++ [e]) st) = Some e.1.
Proof.
  unfold observeAll. rewrite foldl_app. simpl. generalize (foldl (fun st e => (observeOwner now e.1 e.2 st).2) st es) as s. intros s.
  unfold observeOwner. destruct e.2; [done|]. destruct (cursor s); [|done]. by repeat zcase.
Qed.

Lemma discontinuity_snoc es x y :
  discontinuity ((es ++ [x]) ++ [y]) <-> y.2 = false /\ (y.1 <> u64 (x.1 + 1) \/ discontinuity (es ++ [x])).
Proof.
  split.
  - intros (l1 & a & b & l2 & E & Hne & Hf). destruct l2 as [|z l2 _] using rev_ind.
    + replace (l1 ++ [a; b]) with ((l1 ++ [a]) ++ [b]) in E by (by rewrite <- app_assoc).
      apply app_inj_tail in E as [E ->]. apply app_inj_tail in E as [_ ->]. apply Forall_cons in Hf as [Hf _]. split; [done|by left].
    + replace (l1 ++ a :: b :: l2 ++ [z]) with ((l1 ++ a :: b :: l2) ++ [z]) in E by (by rewrite <- app_assoc).
      apply app_inj_tail in E as [E ->]. rewrite app_comm_cons in Hf. apply Forall_app in Hf as [Hf Hz]. apply Forall_cons in Hz as [Hz _].
      split; [done|]. right. exists l1, a, b, l2. done.
  - intros [Hy [Hne|(l1 & a & b & l2 & E & Hne & Hf)]].
    + exists es, x, y, []. split; [by rewrite <- app_assoc|]. split; [done|]. by constructor.
    + exists l1, a, b, (l2 ++ [y]). rewrite E. split; [by rewrite <- app_assoc|]. split; [done|].
      rewrite app_comm_cons. apply Forall_app. split; [done|by constructor].
Qed.

(** A drain that was not contiguous is fenced until the engine announces a
    fresh cache. After any events on an acquired drain, the record is faulted
    exactly when two consecutive events since the last announcement did not
    follow each other (a hole or a repetition). A decoder bound to the drain
    turns the second of them into a clear of the inventory and forgets its
    translations, so that nothing of the incomplete stream stays indexed. *)
Theorem drain_fault_exact now epoch es :
  let st := observeAll now es (freshOwner epoch now) in
  (faulted st <> None <-> discontinuity es) /\
  forall sha256 svc ep env d r x es', ownerBound d = Some (svc, ep) -> es = es' ++ [x] -> ownMap r !! (svc, ep) = Some st ->
    dType (Data env) <> "created"%string -> EventID env <> u64 (x.1 + 1) ->
    let '(res, d', r') := trtllmDecode sha256 now (Some env) d r in
    res = inl (KvWireBatch [plainEvent kvEventAllBlocksCleared []] None) /\ tChain d' = ∅ /\
    exists st', ownMap r' !! (svc, ep) = Some st' /\ faulted st' <> None.
Proof.
  intros st. split.
  - unfold st. clear st. induction es as [|y es IH] using rev_ind.
    { simpl. split; [done|]. intros (l1 & ? & ? & ? & E & _). by destruct l1. }
    destruct es as [|x es _] using rev_ind.
    { simpl. unfold observeOwner. destruct y as [i []]; simpl; (split; [done|]); intros (l1 & ? & ? & ? & E & _);
        destruct l1 as [|? [|]]; discriminate E. }
    rewrite discontinuity_snoc. rewrite <- IH. clear IH.
    pose proof (observe_cursor now es (freshOwner epoch now) x) as Hcur.
    set (s := observeAll now (es ++ [x]) (freshOwner epoch now)) in *.
    replace (observeAll now ((es ++ [x]) ++ [y]) (freshOwner epoch now)) with (observeOwner now y.1 y.2 s).2
      by (unfold s, observeAll; by rewrite (foldl_app _ (es ++ [x]) [y])).
    unfold observeOwner. destruct (y.2); simpl; [split; [done|by intros [? _]]|]. rewrite Hcur.
    destruct (Z.eqb_spec y.1 (u64 (x.1 + 1))) as [E|E]; simpl.
    + split; [intros H; split; [done|by right]|]. intros [_ [?|?]]; done.
    + destruct (_ <? _); simpl; (split; [intros _; split; [done|by left]|done]).
  - intros sha256 svc ep env d r x es' Hb -> Hr Hty Hid. unfold trtllmDecode. rewrite Hb.
    unfold kvTrtllmOwnershipObserve. rewrite Hr.
    replace (dType (Data env) ==s "created") with false by (symmetry; by apply String.eqb_neq).
    unfold observeOwner. unfold st. rewrite observe_cursor. destruct (Z.eqb_spec (EventID env) (u64 (x.1 + 1))); [done|].
    destruct (_ <? _); simpl; (split; [done|]); (split; [done|]); eexists; rewrite lookup_insert_eq; (split; [done|]); done.
Qed.

(** ** Witnesses *)

Definition demoSha (l : list Z) : list Z := take 32 (rev l ++ repeat 0 32).

Definition demoBlock (hash : string) (a b : Z) : trtllmStoredBlock :=
  StoredBlock hash [{| TokenID := a; TokenExtraID := 0 |}; {| TokenID := b; TokenExtraID := 0 |}] "null" [].

Definition demoStored : trtllmEventEnvelope :=
  Envelope 4 128 "" (EventData "stored" "null" [demoBlock "900" 1 2; demoBlock "901" 3 4] []).

Lemma trtllm_keys_witness :
  (translate demoSha demoStored (newTrtllmWireDecoder 2)).1 =
  Some (KvEvent kvEventBlockStored (promptKeys demoSha [[1; 2]; [3; 4]]) [1; 2; 3; 4] false false 0).
Proof.
  pose proof (trtllm_keys_are_prompt_keys demoSha ∅ demoStored (newTrtllmWireDecoder 2)) as H.
  specialize (H ltac:(intros ? ? E; inversion E) eq_refl ltac:(left; reflexivity)).
  cbv zeta in H. destruct (translate demoSha demoStored (newTrtllmWireDecoder 2)) as [ev d'].
  destruct H as [_ ->]. reflexivity.
Defined.

Lemma drain_fault_witness :
  faulted (observeAll 5 [(0, true); (1, false); (3, false)] (freshOwner 1 5)) <> None /\
  discontinuity [(0, true); (1, false); (3, false)].
Proof.
  destruct (drain_fault_exact 5 1 [(0, true); (1, false); (3, false)]) as [H _].
  assert (discontinuity [(0, true); (1, false); (3, false)]) as Hd.
  { exists [(0, true)], (1, false), (3, false), []. split; [reflexivity|]. split; [vm_compute; congruence|repeat constructor]. }
  split; [by apply H|exact Hd].
Defined.
