(* ===== verification/KvStream.v ===== *)
(** * KvStream: the event streams that feed an inventory

    pkg/loxinet/ai_kv_subscriber.go: the loop of one (endpoint, rank) stream,
    replay, and the registry of services with the subscribers they run.  The
    transport is the environment: a message, an error that ends in a new
    connection, or nothing.  What the parsers make of a payload's bytes is the
    payload.  Metrics other than the freshness flag are left out. *)

From S2P Require Import Prelude KvSelect KvInventory KvEngines.

Open Scope Z_scope.
Open Scope igw_scope.

(** ** Decoders of a stream *)

Record payload := Payload { asMsgpack : option (list goVal); asJSON : option trtllmEventEnvelope }.

Inductive wireDec := DecArray | DecMap | DecTrtllm (d : trtllmWireDecoder).

Definition kvWireDecoderFor (wireSchema : string) (blockSize : Z) : option wireDec :=
  if (wireSchema ==s KvWireVllmArrayV1) || (wireSchema ==s KvWireSglangRankV1) then Some DecArray
  else if wireSchema ==s KvWireVllmMapV2 then Some DecMap
  else if wireSchema ==s KvWireTrtllmJSONV1 then Some (DecTrtllm (newTrtllmWireDecoder blockSize))
  else None.

(** The shared state of an endpoint: its inventory, the freshness series and the
    drain-ownership registry. *)
Record epState := EpState { epInv : kvInventory; epFresh : option bool; epOwn : ownerReg }.

(** The locals of one rank's goroutine. *)
Record rankState := RankState {
  rsRank : Z;
  rsSchema : string;
  rsDec : wireDec;
  rankLastSeq : Z;
  resyncPending : bool
}.

Section Stream.
Context (f2u : Z -> Z) (sha256 : list Z -> list Z).

Definition wireDecode (now : Z) (p : payload) (dec : wireDec) (own : ownerReg) : (kvWireBatch + kvWireReason) * wireDec * ownerReg :=
  match dec with
  | DecArray => (kvWireDecodeArrayV1 f2u (asMsgpack p), dec, own)
  | DecMap => (kvWireDecodeMapV2 f2u (asMsgpack p), dec, own)
  | DecTrtllm d => let '(r, d', own') := trtllmDecode sha256 now (asJSON p) d own in (r, DecTrtllm d', own')
  end.

(** Apply one event to the inventory alone (replay). *)
Definition applyEvent (now : Z) (inv : kvInventory) (ev : kvEvent) : kvInventory :=
  match evType ev with
  | kvEventBlockStored => (AddBlocks now (evHashes ev) inv).1
  | kvEventBlockRemoved => RemoveBlocks now (evHashes ev) inv
  | kvEventAllBlocksCleared => ClearAll now inv
  | kvEventUnknown => inv
  end.

(** The live loop also keeps the freshness flag. *)
Definition liveEvent (now : Z) (ep : epState) (ev : kvEvent) : epState :=
  let inv := applyEvent now (epInv ep) ev in
  let fresh :=
    match evType ev with
    | kvEventBlockStored => if negb (Nat.eqb (length (evHashes ev)) 0) then Some true else epFresh ep
    | kvEventAllBlocksCleared => Some false
    | _ => epFresh ep
    end in
  EpState inv fresh (epOwn ep).

Definition clearStale (now : Z) (ep : epState) : epState := EpState (ClearAll now (epInv ep)) (Some false) (epOwn ep).

(** [replayKvEvents]: the payloads the replay socket delivered before its end. *)
Fixpoint replayKvEvents (now : Z) (ps : list payload) (dec : wireDec) (ep : epState) : wireDec * epState :=
  match ps with
  | [] => (dec, ep)
  | p :: ps' =>
      let '(r, dec1, own1) := wireDecode now p dec (epOwn ep) in
      let inv1 := match r with inl batch => foldl (applyEvent now) (epInv ep) (Events batch) | inr _ => epInv ep end in
      replayKvEvents now ps' dec1 (EpState inv1 (epFresh ep) own1)
  end.

(** One message. [replay] is the replay client when there is one: what it delivers
    from a sequence number on. *)
Definition onMessage (now : Z) (replay : option (Z -> list payload)) (seqField : option Z) (p : payload)
    (st : rankState) (ep : epState) : rankState * epState :=
  let seq := match seqField with Some u => i64 u | None => 0 end in
  let last := rankLastSeq st in
  let justResynced := resyncPending st in
  let ep := if justResynced && negb (kvResyncDecision seq last) then clearStale now ep else ep in
  let '(dec, ep) :=
    if (last >=? 0) && (seq >? i64 (last + 1)) then
      match replay with
      | Some rp => replayKvEvents now (rp (i64 (last + 1))) (rsDec st) ep
      | None => (rsDec st, if negb justResynced && negb (kvResyncDecision seq last) then clearStale now ep else ep)
      end
    else (rsDec st, ep) in
  let ep := if (last >=? 0) && (seq <? last) && negb justResynced then clearStale now ep else ep in
  let '(r, dec, own) := wireDecode now p dec (epOwn ep) in
  let ep := EpState (epInv ep) (epFresh ep) own in
  let skip := RankState (rsRank st) (rsSchema st) dec last false in
  match r with
  | inr _ => (skip, ep)
  | inl batch =>
      let mismatch := match DPRank batch with Some r => r !=? rsRank st | None => false end in
      if (rsSchema st ==s KvWireSglangRankV1) && mismatch then (skip, ep)
      else
        let ep := foldl (liveEvent now) ep (Events batch) in
        let inv := if rsRank st ==? 0 then setLastSeq seq (epInv ep) else epInv ep in
        (RankState (rsRank st) (rsSchema st) dec seq false, EpState inv (epFresh ep) (epOwn ep))
  end.

(** What the transport gives the loop. *)
Inductive streamInput :=
  | RecvShort                                  (* fewer than three frames *)
  | RecvError                                  (* an error, then a new connection *)
  | RecvMsg (seqField : option Z) (p : payload).

Definition streamStep (now : Z) (replay : option (Z -> list payload)) (i : streamInput) (st : rankState) (ep : epState) : rankState * epState :=
  match i with
  | RecvShort => (st, ep)
  | RecvError => (RankState (rsRank st) (rsSchema st) (rsDec st) (rankLastSeq st) true, ep)
  | RecvMsg seqField p => onMessage now replay seqField p st ep
  end.

(** The start of [runKvSubscriberLoopBinding]: nothing runs for a schema without a
    decoder. *)
Definition streamStart (now : Z) (svc epIdx rank : Z) (schema : string) (blockSize : Z) (ep : epState) : option (rankState * epState) :=
  match kvWireDecoderFor schema blockSize with
  | None => None
  | Some dec =>
      let '(dec, own) :=
        match dec with
        | DecTrtllm d => let '(d', own') := bindOwner now svc epIdx d (epOwn ep) in (DecTrtllm d', own')
        | _ => (dec, epOwn ep)
        end in
      let first := rank ==? 0 in
      Some (RankState rank schema dec (if first then lastSeq (epInv ep) else -1) false,
            EpState (epInv ep) (if first then Some false else epFresh ep) own)
  end.
End Stream.

(** ** Services *)

Record kvSubStartArgs := SubStartArgs {
  saEp : Z;
  saRank : Z;
  saIP : string;
  saPort : Z;
  saAlgo : string;
  saEngine : string;
  saBlockSize : Z;
  saContract : string
}.

(** [cancelFns] and [startArgs] are set together and keyed alike; a cancelled
    stream is one whose key is gone from both. *)
Record kvServiceState := KvServiceState {
  inventories : gmap Z kvInventory;
  cancelFns : gset (Z * Z);
  startArgs : gmap (Z * Z) kvSubStartArgs;
  svcAlgo : string;
  zeroHitStreak : Z;
  zeroHitWarned : bool;
  coldSeedTick : Z
}.

Definition newKvServiceState : kvServiceState := KvServiceState ∅ ∅ ∅ "" 0 false 0.

Definition kvServicesMap : Type := gmap Z kvServiceState.

(** Labels are the decimal forms of the identifiers. *)
Definition newLabelled (env : Env) (itoa : Z -> string) (svc ep : Z) : kvInventory :=
  let i := newKvInventory env in
  KvInventory (blocks i) (elem i) (order i) (maxBlocks i) (lastSeq i) (lastRecv i) (itoa svc) (itoa ep).

Definition KvSubscriberStartRank (env : Env) (itoa : Z -> string) (svcID : Z) (a : kvSubStartArgs) (m : kvServicesMap) : kvServicesMap :=
  let svc := default newKvServiceState (m !! svcID) in
  let algo := if svcAlgo svc ==s "" then saAlgo a else svcAlgo svc in
  let key := (saEp a, saRank a) in
  if decide (key ∈ cancelFns svc) then
    <[svcID := KvServiceState (inventories svc) (cancelFns svc) (startArgs svc) algo
        (zeroHitStreak svc) (zeroHitWarned svc) (coldSeedTick svc)]> m
  else
    let invs := match inventories svc !! saEp a with
                | Some _ => inventories svc
                | None => <[saEp a := newLabelled env itoa svcID (saEp a)]> (inventories svc)
                end in
    <[svcID := KvServiceState invs ({[key]} ∪ cancelFns svc) (<[key := a]> (startArgs svc)) algo
        (zeroHitStreak svc) (zeroHitWarned svc) (coldSeedTick svc)]> m.

Definition KvSubscriberStop (svcID epIdx : Z) (m : kvServicesMap) (own : ownerReg) : kvServicesMap * ownerReg :=
  match m !! svcID with
  | None => (m, own)
  | Some svc =>
      (<[svcID := KvServiceState (delete epIdx (inventories svc)) (filter (fun k => k.1 <> epIdx) (cancelFns svc))
          (filter (fun p => ~ (p.1.1 = epIdx /\ p.1 ∈ cancelFns svc)) (startArgs svc)) (svcAlgo svc)
          (zeroHitStreak svc) (zeroHitWarned svc) (coldSeedTick svc)]> m,
       kvTrtllmOwnershipForget svcID epIdx own)
  end.

Definition KvSubscriberStopAll (svcID : Z) (m : kvServicesMap) (own : ownerReg) : kvServicesMap * ownerReg :=
  match m !! svcID with
  | None => (m, own)
  | Some _ => (delete svcID m, kvTrtllmOwnershipForgetAll svcID own)
  end.

(** [args] is the iteration over [startArgs]. *)
Definition KvSubscriberRebindWire (env : Env) (itoa : Z -> string) (svcID : Z) (contractID : string) (args : list kvSubStartArgs)
    (m : kvServicesMap) (own : ownerReg) : kvServicesMap * ownerReg :=
  match m !! svcID with
  | None => (m, own)
  | Some _ =>
      if negb (existsb (fun a => negb (saContract a ==s contractID)) args) || Nat.eqb (length args) 0 then (m, own)
      else
        let '(m1, own1) := KvSubscriberStopAll svcID m own in
        (foldl (fun m a => KvSubscriberStartRank env itoa svcID
            (SubStartArgs (saEp a) (saRank a) (saIP a) (saPort a) (saAlgo a) (saEngine a) (saBlockSize a) contractID) m) m1 args, own1)
  end.
