(* ===== verification/KvStreamProps.v ===== *)
(** * KvStreamProps: inventories and the streams that feed them *)

From S2P Require Import Prelude KvSelect KvInventory KvEngines KvStream.

Open Scope Z_scope.
Open Scope igw_scope.

(** ** The inventory is a bounded queue of distinct hashes *)

Record invShape (inv : kvInventory) : Prop := {
  is_blocks : blocks inv = list_to_set (order inv);
  is_elem : elem inv = blocks inv;
  is_nodup : NoDup (order inv)
}.

Definition capped (inv : kvInventory) : Prop := 0 < maxBlocks inv -> Z.of_nat (length (order inv)) <= maxBlocks inv.

Definition invOk (inv : kvInventory) : Prop := invShape inv /\ capped inv.

(** The operations on the queue itself. *)
Definition pushNew (o : list Z) (h : Z) : list Z := if decide (h ∈ o) then o else o ++ [h].

Definition keepNewest (max : Z) (o : list Z) : list Z :=
  if max >? 0 then drop (length o - Z.to_nat max) o else o.

Inductive invOp := OpStore (hs : list Z) | OpRemove (hs : list Z) | OpClear.

Definition queueOp (max : Z) (o : list Z) (op : invOp) : list Z :=
  match op with
  | OpStore hs => keepNewest max (foldl pushNew o hs)
  | OpRemove hs => filter (fun h => h ∉ hs) o
  | OpClear => []
  end.

Definition inventoryOp (inv : kvInventory) (nop : Z * invOp) : kvInventory :=
  match nop.2 with
  | OpStore hs => (AddBlocks nop.1 hs inv).1
  | OpRemove hs => RemoveBlocks nop.1 hs inv
  | OpClear => ClearAll nop.1 inv
  end.

Lemma size_blocks inv : invShape inv -> size (blocks inv) = length (order inv).
Proof. intros [-> _ Hn]. by apply size_list_to_set. Qed.

Lemma in_blocks inv h : invShape inv -> h ∈ blocks inv <-> h ∈ order inv.
Proof. intros [-> _ _]. apply elem_of_list_to_set. Qed.

Lemma addBlock_spec inv h :
  invShape inv -> invShape (addBlock inv h) /\ order (addBlock inv h) = pushNew (order inv) h /\ maxBlocks (addBlock inv h) = maxBlocks inv.
Proof.
  intros Hs. pose proof (in_blocks inv h Hs) as Hin. unfold addBlock, pushNew. destruct Hs as [Hb He Hn].
  destruct (decide (h ∈ blocks inv)) as [H|H]; [rewrite decide_True by tauto; done|].
  rewrite decide_False by tauto. split; [|done]. split; simpl.
  - rewrite list_to_set_app_L, Hb. simpl. set_solver.
  - by rewrite He.
  - apply NoDup_app. split; [done|]. split; [set_solver|apply NoDup_singleton].
Qed.

Lemma addAll_spec hs inv :
  invShape inv -> invShape (foldl addBlock inv hs) /\ order (foldl addBlock inv hs) = foldl pushNew (order inv) hs /\
  maxBlocks (foldl addBlock inv hs) = maxBlocks inv.
Proof.
  revert inv. induction hs as [|h hs IH]; intros inv Hs; simpl; [done|].
  destruct (addBlock_spec inv h Hs) as (H1 & H2 & H3). destruct (IH _ H1) as (H4 & H5 & H6).
  split; [done|]. rewrite H5, H2, H6, H3. done.
Qed.

Lemma evictOver_spec n inv :
  invShape inv -> (length (order inv) <= n)%nat ->
  invShape (evictOver n inv).1 /\ order (evictOver n inv).1 = keepNewest (maxBlocks inv) (order inv) /\
  maxBlocks (evictOver n inv).1 = maxBlocks inv.
Proof.
  revert inv. induction n as [|n IH]; intros inv Hs Hn; simpl.
  { split; [done|]. split; [|done]. destruct (order inv); [|simpl in Hn; lia]. unfold keepNewest. by zcase. }
  rewrite (size_blocks _ Hs). unfold keepNewest. destruct (Z.ltb_spec 0 (maxBlocks inv)) as [Hm|Hm]; [|simpl; done].
  cbn [andb]. destruct (Z.ltb_spec (maxBlocks inv) (Z.of_nat (length (order inv)))) as [Hl|Hl].
  - destruct (order inv) as [|x rest] eqn:Eo; [simpl in Hl; lia|]. destruct Hs as [Hb He Hd]. rewrite Eo in Hb, Hd.
    apply NoDup_cons in Hd as [Hx Hd].
    set (inv1 := setBlocks inv (blocks inv ∖ {[x]}) (elem inv ∖ {[x]}) rest).
    assert (invShape inv1) as Hs1.
    { split; simpl; [|by rewrite He|done]. rewrite Hb, list_to_set_cons. set_solver. }
    destruct (IH inv1 Hs1) as (H1 & H2 & H3); [simpl in Hn |- *; lia|].
    destruct (evictOver n inv1) as [inv' k]. simpl in *. split; [done|]. split; [|done].
    rewrite H2. unfold keepNewest. destruct (Z.ltb_spec 0 (maxBlocks inv)); [|lia].
    replace (S (length rest) - Z.to_nat (maxBlocks inv))%nat with (S (length rest - Z.to_nat (maxBlocks inv))) by lia. done.
  - simpl. split; [done|]. split; [|done]. replace (length (order inv) - Z.to_nat (maxBlocks inv))%nat with 0%nat by lia. done.
Qed.

Lemma keepNewest_length max o : 0 < max -> Z.of_nat (length (keepNewest max o)) <= max.
Proof. intros H. unfold keepNewest. destruct (Z.ltb_spec 0 max); [|lia]. rewrite length_drop. lia. Qed.

Lemma keepNewest_small max o : (0 < max -> Z.of_nat (length o) <= max) -> keepNewest max o = o.
Proof.
  intros H. unfold keepNewest. destruct (Z.ltb_spec 0 max); [|done].
  replace (length o - Z.to_nat max)%nat with 0%nat by lia. done.
Qed.

Lemma AddBlocks_spec now hs inv :
  invShape inv -> invOk (AddBlocks now hs inv).1 /\ order (AddBlocks now hs inv).1 = queueOp (maxBlocks inv) (order inv) (OpStore hs) /\
  maxBlocks (AddBlocks now hs inv).1 = maxBlocks inv.
Proof.
  intros Hs. destruct (addAll_spec hs inv Hs) as (H1 & H2 & H3). unfold AddBlocks.
  destruct (evictOver_spec (length (order (foldl addBlock inv hs))) _ H1 ltac:(lia)) as (H4 & H5 & H6).
  destruct (evictOver _ _) as [inv2 k]. simpl in *. rewrite H5, H2, H3 in *.
  split; [|by rewrite H6]. split; [by destruct H4|]. unfold capped. simpl. rewrite H6, H5. apply keepNewest_length.
Qed.

Lemma removeBlock_spec inv h :
  invShape inv -> invShape (removeBlock inv h) /\ order (removeBlock inv h) = filter (fun x => x <> h) (order inv) /\
  maxBlocks (removeBlock inv h) = maxBlocks inv.
Proof.
  intros Hs. pose proof (in_blocks inv h Hs) as Hin. destruct Hs as [Hb He Hn]. unfold removeBlock.
  assert (list_to_set (filter (fun x => x <> h) (order inv)) = blocks inv ∖ {[h]}) as Hset.
  { apply set_eq. intros x. rewrite elem_of_list_to_set, list_elem_of_filter, Hb. set_solver. }
  destruct (decide (h ∈ elem inv)) as [H|H].
  - split; [|done]. split; simpl; [done|by rewrite He|by apply NoDup_filter].
  - rewrite He in H. assert (filter (fun x => x <> h) (order inv) = order inv) as Hf.
    { clear -H Hin. assert (h ∉ order inv) as Hn by tauto. clear H Hin. induction (order inv) as [|x l IH]; [done|].
      rewrite filter_cons, decide_True by set_solver. f_equal. apply IH. set_solver. }
    rewrite Hf. split; [|done]. split; simpl; [rewrite Hb in *; set_solver|rewrite He; set_solver|done].
Qed.

Lemma RemoveBlocks_spec now hs inv :
  invShape inv -> invShape (RemoveBlocks now hs inv) /\ order (RemoveBlocks now hs inv) = queueOp (maxBlocks inv) (order inv) (OpRemove hs) /\
  maxBlocks (RemoveBlocks now hs inv) = maxBlocks inv.
Proof.
  intros Hs. unfold RemoveBlocks, queueOp.
  assert (forall hs inv, invShape inv -> invShape (foldl removeBlock inv hs) /\
    order (foldl removeBlock inv hs) = filter (fun h => h ∉ hs) (order inv) /\ maxBlocks (foldl removeBlock inv hs) = maxBlocks inv) as H.
  { clear. induction hs as [|h hs IH]; intros inv Hs; simpl.
    - split; [done|]. split; [|done]. induction (order inv) as [|x l IHl]; [done|].
      rewrite filter_cons, decide_True by set_solver. by f_equal.
    - destruct (removeBlock_spec inv h Hs) as (H1 & H2 & H3). destruct (IH _ H1) as (H4 & H5 & H6).
      split; [done|]. rewrite H6, H5, H2, H3. split; [|done]. rewrite list_filter_filter. apply list_filter_iff. set_solver. }
  destruct (H hs inv Hs) as (H1 & H2 & H3). split; [by destruct H1|done].
Qed.

Lemma filter_length {A} (P : A -> Prop) `{forall x, Decision (P x)} l : (length (filter P l) <= length l)%nat.
Proof. induction l as [|x l IH]; simpl; [done|]. rewrite filter_cons. case_decide; simpl; lia. Qed.

Lemma inventoryOp_spec inv nop :
  invOk inv -> invOk (inventoryOp inv nop) /\ order (inventoryOp inv nop) = queueOp (maxBlocks inv) (order inv) nop.2 /\
  maxBlocks (inventoryOp inv nop) = maxBlocks inv.
Proof.
  intros [Hs Hc]. destruct nop as [now [hs|hs|]]; cbn [inventoryOp fst snd].
  - by apply AddBlocks_spec.
  - destruct (RemoveBlocks_spec now hs inv Hs) as (H1 & H2 & H3). split; [|done]. split; [done|].
    unfold capped. rewrite H2, H3. cbn [queueOp]. intros Hm. specialize (Hc Hm). pose proof (filter_length (fun h => h ∉ hs) (order inv)). lia.
  - split; [|done]. split; [split; simpl; [done|done|constructor]|]. unfold capped. simpl. lia.
Qed.

Definition matches (o q : list Z) : Z := Z.of_nat (length (filter (fun h => h ∈ o) q)).

Lemma MatchCount_spec q inv : invShape inv -> MatchCount q inv = matches (order inv) q.
Proof.
  intros Hs. unfold MatchCount, matches.
  assert (forall q acc, foldl (fun count h => if decide (h ∈ blocks inv) then count + 1 else count) acc q =
    acc + Z.of_nat (length (filter (fun h => h ∈ order inv) q))) as H; [|by rewrite H].
  clear q. induction q as [|h q IH]; intros acc; simpl; [lia|]. rewrite IH, filter_cons.
  pose proof (in_blocks inv h Hs). destruct (decide (h ∈ blocks inv)).
  - rewrite decide_True by tauto. simpl. lia.
  - rewrite decide_False by tauto. lia.
Qed.

(** C25: an inventory is a bounded queue. Through any sequence of stores, removals
    and clears, its set, index and list hold the same distinct hashes in order of
    first store; a store keeps what was there, adds the new hashes once and then
    drops the oldest until the cap holds, a removal drops exactly its hashes. The
    size never exceeds the cap, and a lookup counts exactly the queried hashes
    that are in the queue. *)
Theorem inventory_is_bounded_queue env ops q :
  let inv := foldl inventoryOp (newKvInventory env) ops in
  let o := foldl (queueOp (kvResolveMaxBlocks env)) [] (snd <$> ops) in
  order inv = o /\ blocks inv = list_to_set o /\ elem inv = list_to_set o /\ NoDup o /\
  Size inv = Z.of_nat (length o) /\ Size inv <= kvResolveMaxBlocks env <= 100000000 /\ MatchCount q inv = matches o q.
Proof.
  intros inv o.
  assert (forall i o', invOk i -> order i = o' -> let i' := foldl inventoryOp i ops in
    invOk i' /\ order i' = foldl (queueOp (maxBlocks i)) o' (snd <$> ops) /\ maxBlocks i' = maxBlocks i) as H.
  { clear. induction ops as [|op ops IH]; intros i o' Hi <-; simpl; [done|].
    destruct (inventoryOp_spec i op Hi) as (H1 & H2 & H3).
    destruct (IH _ _ H1 eq_refl) as (H4 & H5 & H6). split; [done|]. rewrite H5, H6, H2, H3. done. }
  destruct (H (newKvInventory env) []) as ([Hs Hc] & Ho & Hm); [|done|].
  { split; [split; simpl; [done|done|constructor]|]. unfold capped. simpl. lia. }
  fold inv in Hs, Hc, Ho, Hm. change (maxBlocks (newKvInventory env)) with (kvResolveMaxBlocks env) in *. fold o in Ho.
  assert (1 <= kvResolveMaxBlocks env <= 100000000) as Hr.
  { unfold kvResolveMaxBlocks, kvMaxBlocksDefault. destruct (negb _); [|lia].
    destruct (intKnob _ 1000 100000000) as [n|] eqn:E; simpl; [|lia].
    unfold intKnob in E. destruct (ParseInt _); [|done]. destruct (_ && _) eqn:Eb; [|done]. split_bools. simplify_eq. lia. }
  unfold Size. rewrite (size_blocks _ Hs), (MatchCount_spec _ _ Hs). unfold capped in Hc. rewrite Hm in Hc. rewrite Ho in *.
  destruct Hs as [Hb He Hn]. rewrite Ho in *. rewrite He. split; [done|]. split; [done|]. split; [done|]. split; [done|].
  split; [done|]. split; [lia|done].
Qed.

(** ** One message *)

Section Messages.
Context (f2u : Z -> Z) (sha256 : list Z -> list Z).

(** The sequence number resumes at the last one or at most the window ahead. *)
Definition resumes (seq last : Z) : bool := (last <=? seq) && (seq <=? last + kvSeqResumeWindow).

(** What a message keeps of the inventory: after a reconnection only a resumed
    stream keeps it, otherwise also a stream with no history. *)
Definition keeps (st : rankState) (seq : Z) : bool :=
  if resyncPending st then (0 <=? rankLastSeq st) && resumes seq (rankLastSeq st)
  else (rankLastSeq st <? 0) || resumes seq (rankLastSeq st).

(** The batch of a payload, when the binding and the rank check accept it. *)
Definition accepted (now : Z) (p : payload) (st : rankState) (ep : epState) : option kvWireBatch :=
  match (wireDecode f2u sha256 now p (rsDec st) (epOwn ep)).1.1 with
  | inr _ => None
  | inl b => if (rsSchema st ==s KvWireSglangRankV1) && match DPRank b with Some r => r !=? rsRank st | None => false end
             then None else Some b
  end.

Definition seqOf (seqField : option Z) : Z := match seqField with Some u => i64 u | None => 0 end.

Lemma liveEvents_inv now evs ep : epInv (foldl (liveEvent now) ep evs) = foldl (applyEvent now) (epInv ep) evs.
Proof. revert ep. induction evs as [|e evs IH]; intros ep; simpl; [done|]. by rewrite IH. Qed.

Lemma liveEvents_own now evs ep : epOwn (foldl (liveEvent now) ep evs) = epOwn ep.
Proof. revert ep. induction evs as [|e evs IH]; intros ep; simpl; [done|]. by rewrite IH. Qed.

(** The inventory a message starts from. *)
Definition baseInv (now : Z) (st : rankState) (seq : Z) (inv : kvInventory) : kvInventory :=
  if keeps st seq then inv else ClearAll now inv.

(** The rule of one message. *)
Lemma message_resync now seqField p st ep :
  -1 <= rankLastSeq st <= 4611686018427387904 ->
  let seq := seqOf seqField in
  let base := baseInv now st seq (epInv ep) in
  let '(st', ep') := onMessage f2u sha256 now None seqField p st ep in
  resyncPending st' = false /\ rsRank st' = rsRank st /\ rsSchema st' = rsSchema st /\
  match accepted now p st ep with
  | None => epInv ep' = base /\ rankLastSeq st' = rankLastSeq st
  | Some b =>
      epInv ep' = (if rsRank st ==? 0 then setLastSeq seq else id) (foldl (applyEvent now) base (Events b)) /\ rankLastSeq st' = seq
  end.
Proof.
  intros Hl seq base. unfold onMessage. fold (seqOf seqField). fold seq. set (last := rankLastSeq st) in *.
  assert (in_i64 seq) as Hseq by (unfold seq, seqOf; destruct seqField; [apply i64_range|unfold in_i64, two63; lia]).
  assert (kvResyncDecision seq last = (0 <=? last) && resumes seq last) as Hdec.
  { unfold kvResyncDecision, resumes, kvSeqResumeWindow. rewrite i64_id by (unfold in_i64, two63; lia).
    destruct (Z.ltb_spec last 0), (Z.leb_spec 0 last); simpl; try done; try lia.
    destruct (Z.ltb_spec seq last), (Z.leb_spec last seq); simpl; try done; try lia.
    destruct (Z.ltb_spec (last + 64) seq), (Z.leb_spec seq (last + 64)); try done; lia. }
  set (ep1 := if resyncPending st && negb (kvResyncDecision seq last) then clearStale now ep else ep).
  set (ep2 := if (last >=? 0) && (seq >? i64 (last + 1)) && (negb (resyncPending st) && negb (kvResyncDecision seq last)) then clearStale now ep1 else ep1).
  set (ep3 := if (last >=? 0) && (seq <? last) && negb (resyncPending st) then clearStale now ep2 else ep2).
  assert (epInv ep3 = base /\ epOwn ep3 = epOwn ep) as [Hbase Hown].
  { unfold ep3, ep2, ep1, base, baseInv, keeps. fold last. rewrite Hdec. unfold resumes, kvSeqResumeWindow.
    rewrite i64_id by (unfold in_i64, two63; lia).
    destruct (resyncPending st); rewrite ?andb_false_r; cbn [negb andb].
    - destruct ((0 <=? last) && _); done.
    - rewrite andb_true_r. destruct (Z.ltb_spec last 0), (Z.leb_spec 0 last); cbn [orb andb]; try done; try lia.
      destruct (Z.leb_spec last seq), (Z.ltb_spec seq last); cbn [andb]; try (exfalso; lia).
      + destruct (Z.leb_spec seq (last + 64)), (Z.ltb_spec (last + 1) seq); try done; exfalso; lia.
      + destruct (Z.ltb_spec (last + 1) seq); try done; exfalso; lia. }
  match goal with |- context [if (last >=? 0) && (seq >? i64 (last + 1)) then ?a else ?b] =>
    replace (if (last >=? 0) && (seq >? i64 (last + 1)) then a else b) with (rsDec st, ep2)
      by (unfold ep2; destruct ((last >=? 0) && (seq >? i64 (last + 1))); done) end.
  fold ep3. unfold accepted. rewrite Hown.
  destruct (wireDecode f2u sha256 now p (rsDec st) (epOwn ep)) as [[[b|r] dec] own]; simpl; [|by rewrite Hbase].
  destruct ((rsSchema st ==s KvWireSglangRankV1) && _); simpl; [by rewrite Hbase|].
  rewrite liveEvents_inv. simpl. rewrite Hbase. split; [done|]. split; [done|]. split; [done|]. split; [|done]. by zcase.
Qed.

(** One message of a live stream, without a replay client. The three places
    that decide between keeping and clearing (the first message after a
    reconnection, a gap, a regression) amount to one rule: the inventory is kept
    exactly when the sequence resumes at the last accepted number or at most 64
    ahead, or when a stream that was never interrupted has no history; otherwise
    it is cleared before the message counts. A rejected payload or a payload of
    another rank then applies nothing and does not advance the sequence; an
    accepted one applies its events in order and becomes the last number. *)
Theorem message_resync_rule now seqField p st ep :
  -1 <= rankLastSeq st <= 4611686018427387904 ->
  let seq := seqOf seqField in
  let base := baseInv now st seq (epInv ep) in
  let '(st', ep') := onMessage f2u sha256 now None seqField p st ep in
  resyncPending st' = false /\ rsRank st' = rsRank st /\ rsSchema st' = rsSchema st /\
  match accepted now p st ep with
  | None => epInv ep' = base /\ rankLastSeq st' = rankLastSeq st
  | Some b =>
      epInv ep' = (if rsRank st ==? 0 then setLastSeq seq else id) (foldl (applyEvent now) base (Events b)) /\ rankLastSeq st' = seq
  end.
Proof. apply message_resync. Qed.

(** ** Blocks and the publisher that announced them *)

Definition storedBy (b : kvWireBatch) : list Z :=
  concat ((fun e => match evType e with kvEventBlockStored => evHashes e | _ => [] end) <$> Events b).

Lemma foldl_pushNew_in hs o h : h ∈ foldl pushNew o hs -> h ∈ o \/ h ∈ hs.
Proof.
  revert o. induction hs as [|x hs IH]; intros o; simpl; [by left|]. intros [H|H]%IH; [|set_solver].
  unfold pushNew in H. destruct (decide (x ∈ o)); set_solver.
Qed.

Lemma applyEvent_spec now inv e :
  invOk inv -> invOk (applyEvent now inv e) /\
  forall h, h ∈ order (applyEvent now inv e) -> h ∈ order inv \/ (evType e = kvEventBlockStored /\ h ∈ evHashes e).
Proof.
  intros Hok. unfold applyEvent. destruct (evType e).
  - destruct (inventoryOp_spec inv (now, OpStore (evHashes e)) Hok) as (H1 & H2 & _). cbn [inventoryOp fst snd] in *.
    split; [done|]. intros h. rewrite H2. cbn [queueOp]. unfold keepNewest. intros Hh.
    assert (h ∈ foldl pushNew (order inv) (evHashes e)) as [?|?]%foldl_pushNew_in; [|by left|by right].
    destruct (_ >? _); [|done]. by eapply subseteq_drop.
  - destruct (inventoryOp_spec inv (now, OpRemove (evHashes e)) Hok) as (H1 & H2 & _). cbn [inventoryOp fst snd] in *.
    split; [done|]. intros h. rewrite H2. cbn [queueOp]. intros [_ ?]%list_elem_of_filter. by left.
  - destruct (inventoryOp_spec inv (now, OpClear) Hok) as (H1 & H2 & _). cbn [inventoryOp fst snd] in *.
    split; [done|]. intros h. rewrite H2. set_solver.
  - split; [done|]. by left.
Qed.

Lemma applyEvents_spec now evs inv :
  invOk inv -> invOk (foldl (applyEvent now) inv evs) /\
  forall h, h ∈ order (foldl (applyEvent now) inv evs) -> h ∈ order inv \/ h ∈ storedBy (KvWireBatch evs None).
Proof.
  revert inv. induction evs as [|e evs IH]; intros inv Hok; simpl; [by split; [|left]|].
  destruct (applyEvent_spec now inv e Hok) as [H1 H2]. destruct (IH _ H1) as [H3 H4]. split; [done|].
  intros h [H|H]%H4.
  - apply H2 in H as [H|[Ht H]]; [by left|]. right. unfold storedBy. simpl. rewrite Ht. set_solver.
  - right. unfold storedBy in *. simpl. set_solver.
Qed.

Lemma evictOver_lastSeq n inv : lastSeq (evictOver n inv).1 = lastSeq inv.
Proof.
  revert inv. induction n as [|n IH]; intros inv; cbn [evictOver]; [done|]. repeat case_match; simplify_eq/=; try done;
    match goal with H : evictOver n ?i = _ |- _ => pose proof (IH i) as Hi; rewrite H in Hi; done end.
Qed.

Lemma foldl_lastSeq (f : kvInventory -> Z -> kvInventory) hs inv :
  (forall i h, lastSeq (f i h) = lastSeq i) -> lastSeq (foldl f inv hs) = lastSeq inv.
Proof. intros Hf. revert inv. induction hs as [|h hs IH]; intros inv; [done|]. cbn [foldl]. by rewrite IH, Hf. Qed.

Lemma applyEvent_lastSeq now inv e : lastSeq (applyEvent now inv e) = lastSeq inv.
Proof.
  unfold applyEvent. destruct (evType e); try done.
  - unfold AddBlocks. cbn zeta. set (i1 := foldl addBlock _ _). pose proof (evictOver_lastSeq (length (order i1)) i1) as Hi.
    destruct (evictOver _ i1) as [i2 k]. cbn in Hi |- *. rewrite Hi. apply foldl_lastSeq. intros i h. unfold addBlock. by destruct (decide _).
  - cbn. apply foldl_lastSeq. intros i h. unfold removeBlock. by destruct (decide _).
Qed.

Lemma applyEvents_lastSeq now evs inv : lastSeq (foldl (applyEvent now) inv evs) = lastSeq inv.
Proof. revert inv. induction evs as [|e evs IH]; intros inv; [done|]. cbn [foldl]. by rewrite IH, applyEvent_lastSeq. Qed.

(** The hashes that the payloads of a replay store. *)
Fixpoint replayStores (now : Z) (ps : list payload) (dec : wireDec) (own : ownerReg) : list Z :=
  match ps with
  | [] => []
  | p :: ps =>
      let '(r, dec1, own1) := wireDecode f2u sha256 now p dec own in
      match r with inl b => storedBy b | inr _ => [] end ++ replayStores now ps dec1 own1
  end.

Lemma replay_spec now ps dec ep :
  invOk (epInv ep) ->
  let ep' := (replayKvEvents f2u sha256 now ps dec ep).2 in
  invOk (epInv ep') /\ lastSeq (epInv ep') = lastSeq (epInv ep) /\
  forall h, h ∈ order (epInv ep') -> h ∈ order (epInv ep) \/ h ∈ replayStores now ps dec (epOwn ep).
Proof.
  revert dec ep. induction ps as [|p ps IH]; intros dec ep Hok; cbn [replayKvEvents replayStores]; [by split_and!; [| |left]|].
  destruct (wireDecode f2u sha256 now p dec (epOwn ep)) as [[r dec1] own1]. destruct r as [b|r].
  - destruct (applyEvents_spec now (Events b) (epInv ep) Hok) as [H1 H2].
    destruct (IH dec1 (EpState (foldl (applyEvent now) (epInv ep) (Events b)) (epFresh ep) own1) H1) as (I1 & I2 & I3).
    split; [done|]. split; [by rewrite I2; cbn; rewrite applyEvents_lastSeq|]. intros h [H|H]%I3; [apply H2 in H as [H|H]|]; [by left|set_solver..].
  - destruct (IH dec1 (EpState (epInv ep) (epFresh ep) own1) Hok) as (I1 & I2 & I3). split; [done|]. split; [done|]. intros h [H|H]%I3; [by left|set_solver].
Qed.

(** The streams of one endpoint: the ranks in their live loop, and for each rank
    the publisher incarnation its events come from since it last cleared the
    inventory; with every store that was replayed or accepted. *)
Record world := World {
  wRanks : gmap Z rankState;
  wEp : epState;
  wCur : gmap Z Z;
  wLog : list (Z * Z * list Z)
}.

(** A restart is visible: a message of another incarnation than the rank's events
    came from does not resume its sequence, or, when the rank has replayed but
    accepted no message yet, the connection broke before it. *)
Definition restartVisible (w : world) (r inc seq : Z) (st : rankState) : Prop :=
  match wCur w !! r with
  | Some i => i = inc \/ (if rankLastSeq st <? 0 then resyncPending st = true else resumes seq (rankLastSeq st) = false)
  | None => True
  end.

(** What a message adds to the record; a rank that clears starts anew. *)
Definition noteMessage (w : world) (r inc : Z) (kept : bool) (a : option kvWireBatch) : gmap Z Z * list (Z * Z * list Z) :=
  match a with
  | Some b => (<[r := inc]> (wCur w), (r, inc, storedBy b) :: wLog w)
  | None => (if kept then wCur w else delete r (wCur w), wLog w)
  end.

(** The steps of the goroutine of a rank: payloads of its startup replay, which one
    connection to one incarnation delivers; the start of its live loop; an error
    that ends in a new connection; a message. Steps of different ranks interleave. *)
Inductive wstep (w : world) : world -> Prop :=
  | WReplay r now inc ps dec :
      wRanks w !! r = None -> wCur w !! r = None \/ wCur w !! r = Some inc ->
      wstep w (World (wRanks w) (replayKvEvents f2u sha256 now ps dec (wEp w)).2 (<[r := inc]> (wCur w))
        ((r, inc, replayStores now ps dec (epOwn (wEp w))) :: wLog w))
  | WStart r now svc epIdx schema blockSize st ep' :
      wRanks w !! r = None -> streamStart now svc epIdx r schema blockSize (wEp w) = Some (st, ep') ->
      wstep w (World (<[r := st]> (wRanks w)) ep' (wCur w) (wLog w))
  | WError r st now st' ep' :
      wRanks w !! r = Some st -> streamStep f2u sha256 now None RecvError st (wEp w) = (st', ep') ->
      wstep w (World (<[r := st']> (wRanks w)) ep' (wCur w) (wLog w))
  | WMessage r st now inc u p st' ep' cur' log' :
      wRanks w !! r = Some st -> 0 <= seqOf u <= 4611686018427387904 -> restartVisible w r inc (seqOf u) st ->
      streamStep f2u sha256 now None (RecvMsg u p) st (wEp w) = (st', ep') ->
      (cur', log') = noteMessage w r inc (keeps st (seqOf u)) (accepted now p st (wEp w)) ->
      wstep w (World (<[r := st']> (wRanks w)) ep' cur' log').

(** A new inventory, before any of its ranks runs. *)
Definition startWorld (w : world) : Prop :=
  invOk (epInv (wEp w)) /\ order (epInv (wEp w)) = [] /\ lastSeq (epInv (wEp w)) = -1 /\ wCur w = ∅ /\ wRanks w = ∅.

Definition traced (w : world) (h : Z) : Prop :=
  exists r i hs, wCur w !! r = Some i /\ (r, i, hs) ∈ wLog w /\ h ∈ hs.

Definition seqRange (n : Z) : Prop := -1 <= n <= 4611686018427387904.

Definition worldInv (w : world) : Prop :=
  invOk (epInv (wEp w)) /\ seqRange (lastSeq (epInv (wEp w))) /\ (forall h, h ∈ order (epInv (wEp w)) -> traced w h) /\
  forall r st, wRanks w !! r = Some st -> seqRange (rankLastSeq st).

Lemma setLastSeq_ok seq inv : invOk inv -> invOk (setLastSeq seq inv).
Proof. by intros [[] ?]. Qed.

Lemma baseInv_spec now st seq inv : invOk inv -> invOk (baseInv now st seq inv) /\ lastSeq (baseInv now st seq inv) = lastSeq inv /\
  (keeps st seq = true -> order (baseInv now st seq inv) = order inv) /\ (keeps st seq = false -> order (baseInv now st seq inv) = []).
Proof.
  intros Hok. unfold baseInv. destruct (keeps st seq); [done|].
  destruct (inventoryOp_spec inv (now, OpClear) Hok) as (H1 & H2 & _). split_and!; [done|done|done|]. intros _. exact H2.
Qed.

(** A rank whose events come from another incarnation keeps nothing. *)
Lemma visible_restart_clears w r inc i seq st :
  wCur w !! r = Some i -> restartVisible w r inc seq st -> keeps st seq = true -> i = inc.
Proof.
  unfold restartVisible, keeps. intros -> [?|H] K; [done|exfalso]. destruct (Z.ltb_spec (rankLastSeq st) 0).
  - rewrite H in K. destruct (Z.leb_spec 0 (rankLastSeq st)); [lia|done].
  - rewrite H, andb_false_r in K. by destruct (resyncPending st).
Qed.

Lemma traced_source w ranks ep r inc hs : forall h,
  (wCur w !! r = None \/ wCur w !! r = Some inc) -> traced w h \/ h ∈ hs -> traced (World ranks ep (<[r := inc]> (wCur w)) ((r, inc, hs) :: wLog w)) h.
Proof.
  intros h Hc [(r0 & i & hs0 & H0 & Hl & Hh)|Hh].
  - exists r0, i, hs0. cbn [wCur wLog]. split; [|split; [set_solver|done]].
    destruct (decide (r0 = r)) as [->|]; [|by rewrite lookup_insert_ne]. rewrite lookup_insert_eq. destruct Hc; congruence.
  - exists r, inc, hs. cbn [wCur wLog]. rewrite lookup_insert_eq. split; [done|]. split; [left|done].
Qed.

Lemma message_inv w r st now inc u p st' ep' cur' log' :
  worldInv w -> wRanks w !! r = Some st -> 0 <= seqOf u <= 4611686018427387904 -> restartVisible w r inc (seqOf u) st ->
  streamStep f2u sha256 now None (RecvMsg u p) st (wEp w) = (st', ep') ->
  (cur', log') = noteMessage w r inc (keeps st (seqOf u)) (accepted now p st (wEp w)) ->
  worldInv (World (<[r := st']> (wRanks w)) ep' cur' log').
Proof.
  intros (Hok & Hls & Htr & Hrk) Hr Hseq Hvis Hst Hn. pose proof (Hrk r st Hr) as Hl.
  pose proof (message_resync now u p st (wEp w) Hl) as Hm. cbv zeta in Hm. cbn [streamStep] in Hst. rewrite Hst in Hm. destruct Hm as (_ & _ & _ & Hm).
  destruct (baseInv_spec now st (seqOf u) (epInv (wEp w)) Hok) as (Hb & Hbl & Hkeep & Hclear).
  set (base := baseInv now st (seqOf u) (epInv (wEp w))) in *. unfold noteMessage in Hn.
  destruct (accepted now p st (wEp w)) as [b|]; destruct Hm as [Hinv Hlast]; injection Hn as -> ->; unfold worldInv; cbn [wRanks wEp].
  - destruct (applyEvents_spec now (Events b) base Hb) as [Hok' Hin]. split_and!.
    + rewrite Hinv. destruct (rsRank st ==? 0); [by apply setLastSeq_ok|done].
    + rewrite Hinv. unfold seqRange in *. destruct (rsRank st ==? 0); cbn; [lia|]. rewrite applyEvents_lastSeq, Hbl. lia.
    + intros h Hh. assert (h ∈ order base \/ h ∈ storedBy b) as Hh' by (rewrite Hinv in Hh; by destruct (rsRank st ==? 0); apply Hin).
      destruct (keeps st (seqOf u)) eqn:Ek.
      * apply traced_source; [|destruct Hh' as [Hb'|?]; [left; apply Htr; by rewrite <- Hkeep|by right]].
        destruct (wCur w !! r) as [i|] eqn:Ec; [right|by left]. by rewrite (visible_restart_clears _ _ _ _ _ _ Ec Hvis Ek).
      * destruct Hh' as [Hb'|Hh']; [rewrite Hclear in Hb' by done; set_solver|].
        exists r, inc, (storedBy b). cbn [wCur wLog]. rewrite lookup_insert_eq. split; [done|]. split; [left|done].
    + intros r' st2 [[<- <-]|[Hne H]]%lookup_insert_Some; [rewrite Hlast; unfold seqRange; lia|by eapply Hrk].
  - split_and!; [by rewrite Hinv|by rewrite Hinv, Hbl| |].
    + intros h. rewrite Hinv. intros Hh. destruct (keeps st (seqOf u)) eqn:Ek; [|rewrite Hclear in Hh by done; set_solver].
      rewrite Hkeep in Hh by done. exact (Htr h Hh).
    + intros r' st2 [[<- <-]|[Hne H]]%lookup_insert_Some; [by rewrite Hlast|by eapply Hrk].
Qed.

Lemma wstep_inv w w' : worldInv w -> wstep w w' -> worldInv w'.
Proof.
  intros Hi [r now inc ps dec Hr Hc|r now svc epIdx schema bs st ep' Hr Hs|r st now st' ep' Hr [= <- <-]|r st now inc u p st' ep' cur' log' Hr Hseq Hvis Hst Hn];
    [| | |by eapply message_inv]; destruct Hi as (Hok & Hls & Htr & Hrk).
  - destruct (replay_spec now ps dec (wEp w) Hok) as (R1 & R2 & R3). split_and!; cbn [wEp wRanks]; [done|by rewrite R2| |done].
    intros h Hh. apply traced_source; [done|]. apply R3 in Hh as [Hh|Hh]; [left; by apply Htr|by right].
  - unfold streamStart in Hs. destruct (kvWireDecoderFor schema bs) as [dec|]; [|done]. destruct (match dec with DecTrtllm _ => _ | _ => _ end) as [dec' own].
    injection Hs as <- <-. split_and!; cbn [wEp wRanks epInv]; [done|done|done|].
    intros r' st' [[<- <-]|[Hne H]]%lookup_insert_Some; [|by eapply Hrk]. cbn. destruct (r ==? 0); [done|unfold seqRange; lia].
  - split_and!; cbn [wEp wRanks]; [done|done|done|]. intros r' st' [[<- <-]|[Hne H]]%lookup_insert_Some; [exact (Hrk r st Hr)|by eapply Hrk].
Qed.

(** C33: no phantom blocks. From a new inventory of an endpoint, take any
    interleaving of its ranks' startup replays, loop starts, messages, rejected
    payloads, reconnections and engine restarts. Assume a restart shows: the
    restarted publisher does not resume within the window of the last accepted
    sequence number, and a rank that has replayed but accepted nothing yet sees its
    connection break first. Then every block of the shared inventory was stored by
    a replayed or accepted event of the publisher incarnation its rank is still on:
    a restart leaves none of the dead engine's blocks behind. (Sequence numbers up
    to 2^62; a message is one step. A restart inside the window is not noticed,
    [early_restart_keeps_phantoms].) *)
Theorem no_phantom_blocks w0 w h :
  startWorld w0 -> rtc wstep w0 w -> h ∈ blocks (epInv (wEp w)) -> traced w h.
Proof.
  intros (H1 & H2 & H3 & H4 & H5) Hrun. assert (worldInv w) as (Hok & _ & Htr & _).
  { assert (worldInv w0) as Hi.
    { split_and!; [done|rewrite H3; unfold seqRange; lia|rewrite H2; set_solver|]. intros r st. by rewrite H5, lookup_empty. }
    clear -Hi Hrun. induction Hrun; [done|]. eauto using wstep_inv. }
  intros Hh. apply Htr. by apply (in_blocks _ h (proj1 Hok)).
Qed.
End Messages.

(** ** Wire bindings *)

Lemma decodeMapEvents_spec f2u evs out :
  decodeMapEvents f2u evs = inl out <-> Forall2 (fun raw ev => kvWireDecodeMapEvent f2u raw = inl ev) evs out.
Proof.
  revert out. induction evs as [|e evs IH]; intros out; simpl.
  { split; [intros [= <-]; constructor|]. intros H. by apply Forall2_nil_inv_l in H as ->. }
  split.
  - destruct (kvWireDecodeMapEvent f2u e) as [ev|r] eqn:Ee; [|done].
    destruct (decodeMapEvents f2u evs) as [evs'|r]; [|done]. intros [= <-]. constructor; [done|by apply IH].
  - intros (ev & evs' & He & Hevs & ->)%Forall2_cons_inv_l. apply IH in Hevs. by rewrite He, Hevs.
Qed.

Lemma decodeArrayEvents_spec f2u evs :
  decodeArrayEvents f2u evs =
  if existsb kvWireEventIsMap evs then inr KvWireReasonSchemaMismatch else inl (omap (decodeKVEvent f2u) evs).
Proof.
  induction evs as [|e evs IH]; simpl; [done|]. destruct (kvWireEventIsMap e); simpl; [done|].
  rewrite IH. destruct (existsb _ evs); [done|]. by destruct (decodeKVEvent f2u e).
Qed.

(** A batch of the wrong wire family is never skipped. The map binding accepts
    a batch exactly when every event decodes, and then applies all of them in
    order; a batch of array events is a schema mismatch. The array binding skips
    events it cannot read, except that a single map event makes the whole batch
    a schema mismatch. Either binding rejects what is not an array with an event
    array in second place. *)
Theorem wire_bindings_fail_loudly f2u ts evs rest :
  let raw := Some (ts :: GArr evs :: rest) in
  (forall b, kvWireDecodeMapV2 f2u raw = inl b <->
     Forall2 (fun e ev => kvWireDecodeMapEvent f2u e = inl ev) evs (Events b) /\ DPRank b = kvWireDecodeRank (ts :: GArr evs :: rest)) /\
  (evs <> [] -> Forall (fun e => exists l, e = GArr l) evs -> kvWireDecodeMapV2 f2u raw = inr KvWireReasonSchemaMismatch) /\
  (kvWireDecodeArrayV1 f2u raw =
     if existsb kvWireEventIsMap evs then inr KvWireReasonSchemaMismatch
     else inl (KvWireBatch (omap (decodeKVEvent f2u) evs) (kvWireDecodeRank (ts :: GArr evs :: rest)))) /\
  (forall bad, (forall ts' evs' rest', bad <> Some (ts' :: GArr evs' :: rest')) ->
     kvWireDecodeMapV2 f2u bad = inr KvWireReasonDecodeError /\ kvWireDecodeArrayV1 f2u bad = inr KvWireReasonDecodeError).
Proof.
  intros raw. split; [|split; [|split]].
  - intros [es rk]. unfold kvWireDecodeMapV2, decodeBatch, raw. cbn [Events DPRank]. rewrite <- decodeMapEvents_spec.
    destruct (decodeMapEvents f2u evs) as [es'|r]; split.
    + intros [= <- <-]. done.
    + by intros [[= <-] ->].
    + done.
    + by intros [? _].
  - intros Hne Hall. destruct evs as [|e evs]; [done|]. apply Forall_cons in Hall as [[l ->] _]. done.
  - unfold kvWireDecodeArrayV1, decodeBatch, raw. rewrite decodeArrayEvents_spec. by destruct (existsb _ evs).
  - intros bad Hbad. unfold kvWireDecodeMapV2, kvWireDecodeArrayV1, decodeBatch.
    destruct bad as [[|a [|[] rest']]|]; try done. exfalso. by eapply Hbad.
Qed.

(** Block hashes that the engine encodes as 8, 16 or 32-bit unsigned integers are
    dropped, while token identifiers of the same kinds are kept. *)
Lemma small_unsigned_hashes_dropped f2u :
  extractBlockHashes f2u (GArr [GInt U32 4000000000; GInt U8 200; GInt U64 7]) = Some [7] /\
  extractTokenIDs (GArr [GInt U32 4000000000; GInt U8 200; GInt U64 7]) = [4000000000; 200; 7].
Proof. done. Qed.

Definition storedMsg (hs : list Z) : payload :=
  Payload (Some [GFloat64 0; GArr [GArr [GStr "BlockStored"; GArr (GInt U64 <$> hs)]]]) None.

Definition demoRank : rankState := RankState 0 KvWireVllmArrayV1 DecArray (-1) false.
Definition demoEp : epState := EpState (newKvInventory (fun _ => ""%string)) None (OwnerReg ∅ 0).
Definition demoWorld : world := World ∅ demoEp ∅ [].

(** A publisher that dies after its first message and restarts at zero is not
    seen: the numbers are equal, which counts as a resumed stream. *)
Lemma early_restart_keeps_phantoms :
  let f2u := fun z => z in let sha := fun l => l in
  let '(st1, ep1) := onMessage f2u sha 1 None (Some 0) (storedMsg [11; 12]) demoRank demoEp in
  let '(st2, ep2) := onMessage f2u sha 2 None (Some 0) (storedMsg [77]) st1 ep1 in
  order (epInv ep2) = [11; 12; 77].
Proof. vm_compute. reflexivity. Qed.

Lemma message_resync_witness :
  let st := RankState 0 KvWireVllmArrayV1 DecArray 500 false in
  keeps st 3 = false /\
  epInv (onMessage (fun z => z) (fun l => l) 9 None (Some 3) (storedMsg [5]) st demoEp).2 =
  setLastSeq 3 (foldl (applyEvent 9) (ClearAll 9 (epInv demoEp)) [plainEvent kvEventBlockStored [5]]).
Proof.
  intros st. split; [vm_compute; reflexivity|].
  pose proof (message_resync_rule (fun z => z) (fun l => l) 9 (Some 3) (storedMsg [5]) st demoEp ltac:(simpl; lia)) as H.
  cbv zeta in H. destruct (onMessage _ _ _ _ _ _ _ _) as [st' ep']. destruct H as (_ & _ & _ & H).
  destruct H as [H _]. exact H.
Defined.

(** A rank replays two blocks of incarnation 1, starts, accepts a message of it, and
    then one of incarnation 2: only the last block remains, and it is traced. *)
Lemma no_phantom_witness :
  let f2u := fun z : Z => z in let sha := fun l : list Z => l in
  let ep0 := (replayKvEvents f2u sha 1 [storedMsg [5; 6]] DecArray demoEp).2 in
  let '(st1, ep1) := onMessage f2u sha 2 None (Some 40) (storedMsg [11; 12]) demoRank (EpState (epInv ep0) (Some false) (epOwn ep0)) in
  let '(st2, ep2) := onMessage f2u sha 3 None (Some 0) (storedMsg [77]) st1 ep1 in
  order (epInv ep0) = [5; 6] /\ order (epInv ep1) = [5; 6; 11; 12] /\ order (epInv ep2) = [77] /\
  traced (World {[0 := st2]} ep2 {[0 := 2]} [(0, 2, [77]); (0, 1, [11; 12]); (0, 1, [5; 6])]) 77.
Proof.
  intros f2u sha ep0. destruct (onMessage _ _ 2 _ _ _ _ _) as [st1 ep1] eqn:E1. destruct (onMessage _ _ 3 _ _ _ _ _) as [st2 ep2] eqn:E2.
  pose proof E1 as X1. pose proof E2 as X2. vm_compute in X1. injection X1 as F1 F2. rewrite <- F1, <- F2 in X2. vm_compute in X2. injection X2 as F3 F4.
  split; [reflexivity|]. split; [rewrite <- F2; reflexivity|]. split; [rewrite <- F4; reflexivity|].
  apply (no_phantom_blocks f2u sha demoWorld (World {[0 := st2]} ep2 {[0 := 2]} [(0, 2, [77]); (0, 1, [11; 12]); (0, 1, [5; 6])]) 77);
    [| |rewrite <- F4; vm_compute; reflexivity].
  - split; [split; [split; [reflexivity|reflexivity|constructor]|unfold capped; simpl; lia]|]. split_and!; reflexivity.
  - set (w1 := World ∅ ep0 {[0 := 1]} [(0, 1, [5; 6])]). set (w2 := World {[0 := demoRank]} (EpState (epInv ep0) (Some false) (epOwn ep0)) {[0 := 1]} [(0, 1, [5; 6])]).
    set (w3 := World {[0 := st1]} ep1 {[0 := 1]} [(0, 1, [11; 12]); (0, 1, [5; 6])]).
    apply (rtc_l _ _ w1); [exact (WReplay f2u sha demoWorld 0 1 1 [storedMsg [5; 6]] DecArray eq_refl (or_introl eq_refl))|].
    apply (rtc_l _ _ w2); [exact (WStart f2u sha w1 0 1 7 0 KvWireVllmArrayV1 0 demoRank (wEp w2) eq_refl eq_refl)|].
    apply (rtc_l _ _ w3).
    + apply (WMessage f2u sha w2 0 demoRank 2 1 (Some 40) (storedMsg [11; 12]) st1 ep1); [reflexivity|vm_compute; split; congruence|by left|exact E1|reflexivity].
    + apply rtc_once. apply (WMessage f2u sha w3 0 st1 3 2 (Some 0) (storedMsg [77]) st2 ep2); [reflexivity|vm_compute; split; congruence| |exact E2|].
      * right. rewrite <- F1. reflexivity.
      * unfold w3. rewrite <- F1, <- F2. reflexivity.
Defined.
