(* ===== verification/KvBest.v ===== *)
(** * KvBest: the best endpoint of a KV-exact lookup

    pkg/loxinet/ai_kv_subscriber.go: the scan of the services' inventories, the
    zero-hit watchdog, cold-start seeding and the export the proxy calls.  The
    iteration order of Go maps is an argument: [svcOrder] lists the services and
    [epOrder] the endpoints of each. *)

From S2P Require Import Prelude KvSelect KvInventory KvEngines KvStream.

Open Scope Z_scope.
Open Scope igw_scope.

(** ** Knobs *)

Definition posKnob (v : string) (lo dflt : Z) : Z :=
  if negb (v ==s "") then
    match ParseInt v with Some n => if n >=? lo then n else dflt | None => dflt end
  else dflt.

Definition kvZeroHitNDefault : Z := 50.
Definition kvColdSeedNDefault : Z := 16.
Definition kvColdSeedMinBlocksDefault : Z := 16.

Definition kvZeroHitN (env : Env) : Z := posKnob (env "LOXILB_KV_ZERO_HIT_N") 1 kvZeroHitNDefault.
Definition kvColdSeedMinBlocks (env : Env) : Z := posKnob (env "LOXILB_KV_COLDSTART_MIN_BLOCKS") 0 kvColdSeedMinBlocksDefault.
Definition kvColdSeedN (env : Env) : Z := posKnob (env "LOXILB_KV_COLDSTART_SEED_N") 0 kvColdSeedNDefault.

(** ** Watchdog *)

Definition setZeroHit (streak : Z) (warned : bool) (svc : kvServiceState) : kvServiceState :=
  KvServiceState (inventories svc) (cancelFns svc) (startArgs svc) (svcAlgo svc) streak warned (coldSeedTick svc).

(** The service after one lookup, and the effects: a warning, a counter. *)
Definition kvZeroHitWatchdog (env : Env) (hadInv : bool) (svcBest : Z) (svc : kvServiceState) : kvServiceState * bool * bool :=
  if negb hadInv then (svc, false, false)
  else if svcBest >? 0 then (setZeroHit 0 false svc, false, false)
  else
    let streak := u64 (zeroHitStreak svc + 1) in
    let fire := streak >=? kvZeroHitN env in
    let warnEdge := fire && negb (zeroHitWarned svc) in
    (setZeroHit streak (if fire then true else zeroHitWarned svc) svc, warnEdge, fire).

(** ** Scan *)

Definition maskBit (mask ep : Z) : bool := Z.land mask (u32 (Z.shiftl 1 ep)) !=? 0.

Definition kvLoadCapFromArrays (load capacity : option (list Z)) (epIdx : Z) : Z * Z :=
  match load, capacity with
  | Some ls, Some cs =>
      if epIdx <? 0 then (0, 0)
      else (default 0 (cs !! Z.to_nat epIdx), default 0 (ls !! Z.to_nat epIdx))
  | _, _ => (0, 0)
  end.

Definition kvSvcScanTargets (svcID : Z) (svcOrder : list Z) (m : kvServicesMap) : list Z :=
  if svcID !=? 0 then match m !! svcID with Some _ => [svcID] | None => [] end else svcOrder.

(** What one lookup asks. *)
Record lookup := Lookup {
  qHashes : list Z;
  qPrefill : Z;
  qExcluded : Z;
  qLoad : option (list Z);
  qCap : option (list Z);
  qWeight : option (list Z);
  qLoadAware : bool;
  qRelief : bool
}.

Record scanAcc := ScanAcc {
  aBestEp : Z;
  aBestScore : Z;
  aCands : list kvCandidate;
  aFleet : list kvCandidate;
  aTotalLoad : Z;
  aHadInv : bool;
  aSvcBest : Z;
  aInvBlocks : Z
}.

(** An endpoint this lookup may use. *)
Definition eligibleEp (q : lookup) (epIdx : Z) : bool :=
  negb ((epIdx <? 0) || (epIdx >=? 32)) && maskBit (qPrefill q) epIdx && negb (maskBit (qExcluded q) epIdx).

(** One endpoint of the scan. *)
Definition scanEp (q : lookup) (svc : kvServiceState) (a : scanAcc) (epIdx : Z) : scanAcc :=
  match inventories svc !! epIdx with
  | None => a
  | Some inv =>
      if negb (eligibleEp q epIdx) then a
      else
        let sz := Size inv in
        let hadInv := if sz >? 0 then true else aHadInv a in
        let invBlocks := if sz >? 0 then aInvBlocks a + sz else aInvBlocks a in
        let score := MatchCount (qHashes q) inv in
        let svcBest := if score >? aSvcBest a then score else aSvcBest a in
        let '(bestScore, bestEp) := if score >? aBestScore a then (score, epIdx) else (aBestScore a, aBestEp a) in
        let '(cap0, load) := kvLoadCapFromArrays (qLoad q) (qCap q) epIdx in
        let cand := KvCandidate epIdx score (kvWeightedCapacity cap0 (kvCtrlWeightAt (qWeight q) epIdx)) load in
        let collect := qLoadAware q && ((score >? 0) || qRelief q) in
        ScanAcc bestEp bestScore
          (if collect && (score >? 0) then aCands a ++ [cand] else aCands a)
          (if collect && qRelief q then aFleet a ++ [cand] else aFleet a)
          (if collect && (score >? 0) then u64 (aTotalLoad a + load) else aTotalLoad a)
          hadInv svcBest invBlocks
  end.

(** One service, then its watchdog. *)
Definition scanSvc (env : Env) (q : lookup) (epOrder : Z -> list Z) (am : scanAcc * kvServicesMap) (id : Z) : scanAcc * kvServicesMap :=
  let '(a, m) := am in
  match m !! id with
  | None => (a, m)
  | Some svc =>
      let a0 := ScanAcc (aBestEp a) (aBestScore a) (aCands a) (aFleet a) (aTotalLoad a) false 0 0 in
      let a1 := foldl (scanEp q svc) a0 (epOrder id) in
      let '(svc', _, _) := kvZeroHitWatchdog env (aHadInv a1) (aSvcBest a1) svc in
      (a1, <[id := svc']> m)
  end.

Definition emptyAcc : scanAcc := ScanAcc (-1) 0 [] [] 0 false 0 0.

Definition kvSvcScanInventories (env : Env) (q : lookup) (svcOrder : list Z) (epOrder : Z -> list Z) (svcID : Z) (m : kvServicesMap) : scanAcc * kvServicesMap :=
  foldl (scanSvc env q epOrder) (emptyAcc, m) (kvSvcScanTargets svcID svcOrder m).

(** ** Cold-start seeding *)

Definition setTick (t : Z) (svc : kvServiceState) : kvServiceState :=
  KvServiceState (inventories svc) (cancelFns svc) (startArgs svc) (svcAlgo svc) (zeroHitStreak svc) (zeroHitWarned svc) t.

(** The body of the loop over the 32 slots: is this a seed target? *)
Definition seedTarget (floor prefillMask excludedMask bestEp : Z) (svc : kvServiceState) (ep : Z) : bool :=
  if negb (maskBit prefillMask ep) || maskBit excludedMask ep then false
  else if match inventories svc !! ep with Some inv => Size inv >=? floor | None => false end then false
  else negb (ep ==? bestEp).

Fixpoint firstFrom (ok : Z -> bool) (n : nat) (ep : Z) : option Z :=
  match n with
  | O => None
  | S n' => if ok ep then Some ep else firstFrom ok n' (ep + 1)
  end.

Definition kvColdStartSeed (env : Env) (svcID prefillMask excludedMask bestEp : Z) (m : kvServicesMap) : Z * bool * kvServicesMap :=
  let n := kvColdSeedN env in
  if (n ==? 0) || (svcID ==? 0) then (bestEp, false, m)
  else match m !! svcID with
       | None => (bestEp, false, m)
       | Some svc =>
           let tick := u64 (coldSeedTick svc + 1) in
           let svc := setTick tick svc in
           let m := <[svcID := svc]> m in
           if tick mod n !=? 0 then (bestEp, false, m)
           else
             let floor := let f := kvColdSeedMinBlocks env in if f <? 1 then 1 else f in
             match firstFrom (seedTarget floor prefillMask excludedMask bestEp svc) 32 0 with
             | Some ep => (ep, true, m)
             | None => (bestEp, false, m)
             end
       end.

(** ** The export *)

Definition KvExactModeSingleRole : Z := 3.

(** The first eight bytes of each hash, big-endian. *)
Fixpoint cBlockHashesToUint64 (raw : list Z) (hashSize : nat) (nHashes : nat) : list Z :=
  match nHashes with
  | O => []
  | S n => be8 raw :: cBlockHashesToUint64 (drop hashSize raw) hashSize n
  end.

(** The C arguments: hashes, masks, per-endpoint arrays (nil or empty is none). *)
Record cLookup := CLookup {
  cRaw : option (list Z);
  cHashSize : Z;
  cNHashes : Z;
  cPrefill : Z;
  cExcluded : Z;
  cLoads : option (list Z);
  cCaps : option (list Z);
  cWeights : option (list Z);
  cSvcID : Z;
  cExactMode : Z
}.

Definition llb_ai_kv_best_worker (env : Env) (svcOrder : list Z) (epOrder : Z -> list Z) (c : cLookup) (m : kvServicesMap) :
    Z * option Z * kvServicesMap :=
  match cRaw c with
  | None => (-1, None, m)
  | Some raw =>
      if (cNHashes c <=? 0) || (cHashSize c <=? 0) then (-1, None, m)
      else
        let goHashes := if cHashSize c <? 8 then [] else cBlockHashesToUint64 raw (Z.to_nat (cHashSize c)) (Z.to_nat (cNHashes c)) in
        if Nat.eqb (length goHashes) 0 then (-1, None, m)
        else
          let mode := kvLbMode env in
          let loadAware := negb (mode ==s "off") in
          let spillRelief := loadAware && kvSpillReliefFor env (cExactMode c ==? KvExactModeSingleRole) in
          let q := Lookup goHashes (cPrefill c) (cExcluded c) (cLoads c) (cCaps c) (cWeights c) loadAware spillRelief in
          let '(a, m) := kvSvcScanInventories env q svcOrder epOrder (cSvcID c) m in
          if (aBestEp a <? 0) || (aBestScore a <=? 0) then (-1, None, m)
          else
            let bestEp :=
              if negb loadAware then aBestEp a
              else
                let adaptive := (mode ==s "adaptive") || (mode ==s "adaptive-soft") in
                let eps := if adaptive then kvAdaptiveMeanLoadFactor env (aCands a) else kvMeanLoadFactor env in
                let lambda := if adaptive then kvAdaptiveLoadPenalty env (aCands a) else kvLoadPenalty env in
                let '(selEp, spilled) := kvSelectArm (aCands a) mode eps lambda in
                if selEp >=? 0 then
                  if spillRelief && negb spilled then
                    let '(rEp, rSpilled) := kvSpillReliefTarget (aFleet a) selEp eps in
                    if rSpilled then rEp else selEp
                  else selEp
                else aBestEp a in
            let '(seedEp, seeded, m) := kvColdStartSeed env (cSvcID c) (cPrefill c) (cExcluded c) bestEp m in
            (if seeded then seedEp else bestEp, Some (aBestScore a), m)
  end.
