(* ===== verification/KvBestProps.v ===== *)
(** * KvBestProps: what a KV-exact lookup answers *)

From S2P Require Import Prelude KvSelect KvSelectProps KvInventory KvEngines KvStream KvBest.

Open Scope Z_scope.
Open Scope igw_scope.

(** ** The selectors answer with a candidate *)

(** [r] is an endpoint of [l], or no endpoint. *)
Definition answersFrom (l : list kvCandidate) (r : Z) : Prop := r = -1 \/ exists c, c ∈ l /\ cEp c = r.

Lemma pick_from {A} (ok : A -> bool) better l i c : pick ok better 0 None l = Some (i, c) -> c ∈ l /\ ok c = true.
Proof. intros [|(k & Hk & _ & Hok)]%pick_in; [done|]. split; [by eapply list_elem_of_lookup_2|done]. Qed.

Lemma unified_from cands mlf : answersFrom cands (kvUnifiedSelect cands mlf).1.
Proof.
  unfold kvUnifiedSelect. destruct cands as [|d l]; [by left|]. set (cs := d :: l).
  destruct (pick hasOverlap moreOverlap 0 None cs) as [[a ca]|]; [|by left].
  destruct (pick _ affinityThenLoad 0 None cs) as [[i c]|] eqn:Ec.
  - apply pick_from in Ec as [Hc _]. destruct (cOverlap c <=? kvNegligibleOverlap); [|right; eauto].
    destruct (pick _ lessLoad 0 None cs) as [[j e]|] eqn:Ee; right; [|eauto]. apply pick_from in Ee as [He _]. eauto.
  - destruct (pick _ loadThenAffinity 0 None cs) as [[j e]|] eqn:Ee; [|by left]. apply pick_from in Ee as [He _]. right; eauto.
Qed.

Lemma soft_from cands lambda : answersFrom cands (kvSoftBlendSelect cands lambda).1.
Proof.
  unfold kvSoftBlendSelect. destruct cands as [|d l]; [by left|]. set (cs := d :: l).
  destruct (pick hasOverlap moreOverlap 0 None cs) as [[a ca]|]; [|by left].
  destruct (pick _ (cheaper _) 0 None cs) as [[i c]|] eqn:Ec; [|by left]. apply pick_from in Ec as [Hc _]. right; eauto.
Qed.

Lemma argmax_from cands : answersFrom cands (kvArmPureArgmax cands).
Proof.
  unfold kvArmPureArgmax. destruct (pick _ _ 0 None cands) as [[i c]|] eqn:Ec; [|by left]. apply pick_from in Ec as [Hc _]. right; eauto.
Qed.

#[export] Hint Resolve unified_from soft_from argmax_from : igw.

Lemma arm_from cands mode mlf lambda : answersFrom cands (kvSelectArm cands mode mlf lambda).1.
Proof. unfold kvSelectArm. repeat destruct (_ ==s _); simpl; auto with igw. Qed.

Lemma relief_from fleet selEp mlf :
  (kvSpillReliefTarget fleet selEp mlf).2 = true -> exists c, c ∈ fleet /\ cEp c = (kvSpillReliefTarget fleet selEp mlf).1.
Proof.
  unfold kvSpillReliefTarget. destruct (_ <? 2); [done|]. destruct (lastOf selEp fleet) as [s|]; [|done]. destruct (_ <? _); [done|].
  destruct (pick _ lessLoad 0 None fleet) as [[i r]|] eqn:E; [|done]. apply pick_from in E as [Hr _].
  destruct (_ !=? _); simpl; [eauto|done].
Qed.

(** ** The scan *)

(** An inventory one lookup reads. *)
Definition readInventory (q : lookup) (epOrder : Z -> list Z) (m : kvServicesMap) (ids : list Z) (ep : Z) (inv : kvInventory) : Prop :=
  exists id svc, id ∈ ids /\ m !! id = Some svc /\ ep ∈ epOrder id /\ inventories svc !! ep = Some inv /\ eligibleEp q ep = true.

Record scanOk (q : lookup) (seen : Z -> kvInventory -> Prop) (a : scanAcc) : Prop := {
  so_best : (aBestEp a = -1 /\ aBestScore a = 0) \/
            (0 < aBestScore a /\ eligibleEp q (aBestEp a) = true /\ exists inv, seen (aBestEp a) inv /\ MatchCount (qHashes q) inv = aBestScore a);
  so_max : forall ep inv, seen ep inv -> MatchCount (qHashes q) inv <= aBestScore a;
  so_cands : Forall (fun c => eligibleEp q (cEp c) = true /\ 0 < cOverlap c) (aCands a);
  so_fleet : Forall (fun c => eligibleEp q (cEp c) = true) (aFleet a);
  so_hit : qLoadAware q = true -> 0 < aBestScore a -> aCands a <> []
}.

Lemma scanEp_ok q svc a ep seen (seen' : Z -> kvInventory -> Prop) :
  scanOk q seen a ->
  (forall e i, seen' e i <-> seen e i \/ (e = ep /\ inventories svc !! ep = Some i /\ eligibleEp q ep = true)) ->
  scanOk q seen' (scanEp q svc a ep).
Proof.
  intros [Hb Hm Hc Hf Hh] Hs. unfold scanEp.
  assert (forall e i, seen e i -> seen' e i) as Hmono by (intros; apply Hs; auto).
  destruct (inventories svc !! ep) as [inv|] eqn:Ei; [destruct (eligibleEp q ep) eqn:Ee; simpl|].
  2,3: split; [destruct Hb as [|(? & ? & i & ? & ?)]; [by left|right; eauto 6]|intros e i [?|(_ & ? & ?)]%Hs; eauto; congruence|done|done|done].
  destruct (kvLoadCapFromArrays _ _ ep) as [cap0 load].
  set (sc := MatchCount (qHashes q) inv). destruct (Z.ltb_spec (aBestScore a) sc) as [Hlt|Hge].
  - assert (0 < sc) by (destruct Hb as [[_ ?]|[? _]]; lia).
    replace (sc >? 0) with true by (symmetry; apply Z.ltb_lt; lia). rewrite orb_true_l, !andb_true_r.
    split; simpl.
    + right. split; [lia|]. split; [done|]. exists inv. split; [apply Hs; right; eauto|done].
    + intros e i [Hi|(-> & [= <-] & _)]%Hs; [|subst sc; lia]. etrans; [by eapply Hm|lia].
    + destruct (qLoadAware q); [|done]. apply Forall_app. split; [done|]. repeat constructor; simpl; [done|lia].
    + destruct (qLoadAware q), (qRelief q); simpl; try done. apply Forall_app. split; [done|]. by repeat constructor.
    + intros -> _. by destruct (aCands a).
  - split; simpl.
    + destruct Hb as [|(? & ? & i & ? & ?)]; [by left|right; eauto 6].
    + intros e i [Hi|(-> & [= <-] & _)]%Hs; [by eapply Hm|done].
    + destruct (qLoadAware q && _) eqn:E1; simpl; [|done]. destruct (Z.ltb_spec 0 sc); simpl; [|done].
      apply Forall_app. split; [done|]. by repeat constructor.
    + destruct (qLoadAware q && _ && qRelief q); [|done]. apply Forall_app. split; [done|]. by repeat constructor.
    + intros Hla Hpos. destruct (_ && _); [by destruct (aCands a)|]. by apply Hh.
Qed.

Lemma scanEps_ok q svc eps a seen (seen' : Z -> kvInventory -> Prop) :
  scanOk q seen a ->
  (forall e i, seen' e i <-> seen e i \/ (e ∈ eps /\ inventories svc !! e = Some i /\ eligibleEp q e = true)) ->
  scanOk q seen' (foldl (scanEp q svc) a eps).
Proof.
  revert a seen. induction eps as [|ep eps IH]; intros a seen Ha Hs; simpl.
  { destruct Ha as [Hb Hm Hc Hf Hh]. assert (forall e i, seen' e i <-> seen e i) as E by (intros; rewrite Hs; set_solver).
    split; [destruct Hb as [|(? & ? & i & ? & ?)]; [by left|right; split; [|split; [|exists i; rewrite E]]; done]|intros e i ?%E; by eapply Hm|done..]. }
  eapply (IH _ (fun e i => seen e i \/ (e = ep /\ inventories svc !! ep = Some i /\ eligibleEp q ep = true))).
  - eapply scanEp_ok; [done|]. done.
  - intros e i. rewrite Hs, elem_of_cons. naive_solver.
Qed.

Lemma watchdog_inventories env h b svc : inventories (kvZeroHitWatchdog env h b svc).1.1 = inventories svc.
Proof. unfold kvZeroHitWatchdog. destruct (negb h); [done|]. by destruct (b >? 0). Qed.

(** Two registries with the same inventories. *)
Definition sameInventories (m m' : kvServicesMap) : Prop := forall id, inventories <$> m !! id = inventories <$> m' !! id.

Lemma scanSvcs_ok env q epOrder ids a m m0 seen (seen' : Z -> kvInventory -> Prop) :
  scanOk q seen a -> sameInventories m m0 ->
  (forall e i, seen' e i <-> seen e i \/ readInventory q epOrder m0 ids e i) ->
  scanOk q seen' (foldl (scanSvc env q epOrder) (a, m) ids).1 /\ sameInventories (foldl (scanSvc env q epOrder) (a, m) ids).2 m0.
Proof.
  revert a m seen. induction ids as [|id ids IH]; intros a m seen Ha Hsame Hs; simpl.
  { split; [|done]. apply (scanEps_ok q newKvServiceState [] a seen); [done|]. intros e i. rewrite Hs. unfold readInventory. set_solver. }
  pose proof (Hsame id) as Hid. destruct (m !! id) as [svc|] eqn:Em; simpl in Hid.
  - destruct (m0 !! id) as [svc0|] eqn:Em0; [|done]. simpl in Hid. injection Hid as Hid.
    destruct (kvZeroHitWatchdog env _ _ svc) as [[svc' w] c] eqn:Ew.
    eapply (IH _ _ (fun e i => seen e i \/ (e ∈ epOrder id /\ inventories svc !! e = Some i /\ eligibleEp q e = true))).
    + eapply scanEps_ok; [|done]. destruct Ha as [Hb Hm Hc Hf Hh]. by split.
    + intros id'. unfold kvServicesMap in *. destruct (decide (id' = id)) as [->|Hne]; [|by rewrite lookup_insert_ne].
      rewrite lookup_insert_eq, Em0. simpl. rewrite <- Hid. f_equal.
      pose proof (watchdog_inventories env (aHadInv (foldl (scanEp q svc) (ScanAcc (aBestEp a) (aBestScore a) (aCands a) (aFleet a) (aTotalLoad a) false 0 0) (epOrder id)))
        (aSvcBest (foldl (scanEp q svc) (ScanAcc (aBestEp a) (aBestScore a) (aCands a) (aFleet a) (aTotalLoad a) false 0 0) (epOrder id))) svc) as W.
      by rewrite Ew in W.
    + intros e i. rewrite Hs. unfold readInventory. setoid_rewrite elem_of_cons. rewrite Hid. naive_solver.
  - destruct (m0 !! id) as [svc0|] eqn:Em0; [done|]. eapply (IH _ _ seen); [done|done|].
    intros e i. rewrite Hs. unfold readInventory. setoid_rewrite elem_of_cons. naive_solver.
Qed.

(** ** The answer *)

(** The hashes of a call, none when its arguments are rejected. *)
Definition callHashes (c : cLookup) : list Z :=
  match cRaw c with
  | None => []
  | Some raw =>
      if (cNHashes c <=? 0) || (cHashSize c <? 8) then []
      else cBlockHashesToUint64 raw (Z.to_nat (cHashSize c)) (Z.to_nat (cNHashes c))
  end.

Definition callLookup (env : Env) (c : cLookup) : lookup :=
  let loadAware := negb (kvLbMode env ==s "off") in
  Lookup (callHashes c) (cPrefill c) (cExcluded c) (cLoads c) (cCaps c) (cWeights c) loadAware
    (loadAware && kvSpillReliefFor env (cExactMode c ==? KvExactModeSingleRole)).

(** The choice among the scanned endpoints, before seeding. *)
Definition chosenEp (env : Env) (q : lookup) (a : scanAcc) : Z :=
  if negb (qLoadAware q) then aBestEp a
  else
    let mode := kvLbMode env in
    let adaptive := (mode ==s "adaptive") || (mode ==s "adaptive-soft") in
    let eps := if adaptive then kvAdaptiveMeanLoadFactor env (aCands a) else kvMeanLoadFactor env in
    let lambda := if adaptive then kvAdaptiveLoadPenalty env (aCands a) else kvLoadPenalty env in
    let '(selEp, spilled) := kvSelectArm (aCands a) mode eps lambda in
    if selEp >=? 0 then
      if qRelief q && negb spilled then
        let '(rEp, rSpilled) := kvSpillReliefTarget (aFleet a) selEp eps in
        if rSpilled then rEp else selEp
      else selEp
    else aBestEp a.

Lemma callHashes_nil raw h n : cBlockHashesToUint64 raw h n = [] -> n = O.
Proof. by destruct n. Qed.

(** The export is the scan, the choice and the seed. *)
Lemma best_worker_eq env svcOrder epOrder c m :
  llb_ai_kv_best_worker env svcOrder epOrder c m =
  if Nat.eqb (length (callHashes c)) 0 then (-1, None, m)
  else
    let '(a, m1) := kvSvcScanInventories env (callLookup env c) svcOrder epOrder (cSvcID c) m in
    if aBestScore a <=? 0 then (-1, None, m1)
    else
      let ep := chosenEp env (callLookup env c) a in
      let '(seedEp, seeded, m2) := kvColdStartSeed env (cSvcID c) (cPrefill c) (cExcluded c) ep m1 in
      (if seeded then seedEp else ep, Some (aBestScore a), m2).
Proof.
  unfold llb_ai_kv_best_worker, callLookup, callHashes. destruct (cRaw c) as [raw|]; [|done].
  destruct (Z.leb_spec (cNHashes c) 0); [done|]. rewrite orb_false_l.
  destruct (Z.leb_spec (cHashSize c) 0); destruct (Z.ltb_spec (cHashSize c) 8); try lia; [done|done|].
  rewrite orb_false_l. set (hs := cBlockHashesToUint64 _ _ _). destruct (Nat.eqb (length hs) 0); [done|].
  set (q := Lookup hs _ _ _ _ _ _ _).
  pose proof (scanSvcs_ok env q epOrder (kvSvcScanTargets (cSvcID c) svcOrder m) emptyAcc m m (fun _ _ => False)
    (readInventory q epOrder m (kvSvcScanTargets (cSvcID c) svcOrder m))) as [Hok _].
  { split; simpl; [by left|done|by constructor|by constructor|by intros _ ?]. }
  { done. }
  { naive_solver. }
  unfold kvSvcScanInventories. destruct (foldl _ (emptyAcc, m) _) as [a m1]. simpl in Hok.
  destruct (so_best _ _ _ Hok) as [[-> ->]|(Hpos & Hel & _)]; [done|].
  replace (aBestEp a <? 0) with false; [done|]. symmetry. apply Z.ltb_ge. unfold eligibleEp in Hel. split_bools. lia.
Qed.

(** The lookup at the start of a call reads these inventories. *)
Definition callReads (env : Env) (svcOrder : list Z) (epOrder : Z -> list Z) (c : cLookup) (m : kvServicesMap) : Z -> kvInventory -> Prop :=
  readInventory (callLookup env c) epOrder m (kvSvcScanTargets (cSvcID c) svcOrder m).

Lemma scan_spec env svcOrder epOrder c m :
  scanOk (callLookup env c) (callReads env svcOrder epOrder c m) (kvSvcScanInventories env (callLookup env c) svcOrder epOrder (cSvcID c) m).1 /\
  sameInventories (kvSvcScanInventories env (callLookup env c) svcOrder epOrder (cSvcID c) m).2 m.
Proof.
  apply (scanSvcs_ok _ _ _ _ _ _ _ (fun (_ : Z) (_ : kvInventory) => False)); [|done|unfold callReads; intros e i; naive_solver].
  split; simpl; [by left|done|by constructor|by constructor|by intros _ ?].
Qed.

Lemma chosen_eligible env q seen a : scanOk q seen a -> 0 < aBestScore a -> eligibleEp q (chosenEp env q a) = true.
Proof.
  intros [Hb _ Hc Hf _] Hpos. rewrite Forall_forall in Hc, Hf. assert (eligibleEp q (aBestEp a) = true) by (destruct Hb as [[_ ?]|(_ & ? & _)]; [lia|done]).
  unfold chosenEp. destruct (negb (qLoadAware q)); [done|].
  match goal with |- context [kvSelectArm _ _ ?e ?l] => set (eps := e); set (lam := l) end. cbv zeta.
  pose proof (arm_from (aCands a) (kvLbMode env) eps lam) as Harm. destruct (kvSelectArm _ _ eps lam) as [selEp spilled]. simpl in Harm.
  destruct (Z.leb_spec 0 selEp); [|done]. destruct Harm as [->|(d & Hd & <-)]; [lia|].
  assert (eligibleEp q (cEp d) = true) by by apply Hc.
  destruct (qRelief q && negb spilled); [|done]. pose proof (relief_from (aFleet a) (cEp d) eps) as Hr.
  destruct (kvSpillReliefTarget _ _ _) as [rEp rs]. destruct rs; [|done]. destruct (Hr eq_refl) as (r & Hin & E). simpl in E. subst rEp. by apply Hf.
Qed.

Lemma firstFrom_spec ok n ep r :
  firstFrom ok n ep = Some r -> ok r = true /\ ep <= r < ep + Z.of_nat n /\ forall k, ep <= k < r -> ok k = false.
Proof.
  revert ep. induction n as [|n IH]; intros ep; simpl; [done|]. destruct (ok ep) eqn:E.
  - intros [= <-]. split; [done|]. split; [lia|]. lia.
  - intros (? & ? & Hk)%IH. split; [done|]. split; [lia|]. intros k Hr. destruct (decide (k = ep)) as [->|]; [done|]. apply Hk. lia.
Qed.

Lemma firstFrom_none ok n ep : firstFrom ok n ep = None -> forall k, ep <= k < ep + Z.of_nat n -> ok k = false.
Proof.
  revert ep. induction n as [|n IH]; intros ep; simpl; [lia|]. destruct (ok ep) eqn:E; [done|].
  intros Hn k Hk. destruct (decide (k = ep)) as [->|]; [done|]. apply (IH _ Hn). lia.
Qed.

Lemma seed_eligible env svcID prefill excl best m :
  let '(ep, seeded, _) := kvColdStartSeed env svcID prefill excl best m in
  if seeded then 0 <= ep < 32 /\ maskBit prefill ep = true /\ maskBit excl ep = false else ep = best.
Proof.
  unfold kvColdStartSeed. destruct (_ || _); [done|]. destruct (m !! svcID) as [svc|]; [|done]. destruct (_ !=? 0); [done|].
  destruct (firstFrom _ 32 0) as [r|] eqn:E; [|done]. apply firstFrom_spec in E as (Ht & Hr & _). split; [lia|].
  unfold seedTarget in Ht. destruct (maskBit prefill r), (maskBit excl r); done.
Qed.

(** C26: what a lookup answers. It reports a hit exactly when some inventory it
    may read, of a service it targets and of an eligible endpoint, holds one of
    the prompt's blocks; the depth it reports is then the largest number of blocks
    any of them holds. Whatever the selection mode, the load figures, the relief
    pass or the cold-start seed made of it, the endpoint it names is in range, a
    prefill endpoint and not excluded; a miss is always the pair of no endpoint and no depth. *)
Theorem best_worker_answer env svcOrder epOrder c m :
  let '(ep, out, _) := llb_ai_kv_best_worker env svcOrder epOrder c m in
  let reads := callReads env svcOrder epOrder c m in
  match out with
  | Some depth =>
      0 <= ep < 32 /\ maskBit (cPrefill c) ep = true /\ maskBit (cExcluded c) ep = false /\
      0 < depth /\ (exists e inv, reads e inv /\ MatchCount (callHashes c) inv = depth) /\
      (forall e inv, reads e inv -> MatchCount (callHashes c) inv <= depth)
  | None => ep = -1 /\ forall e inv, reads e inv -> MatchCount (callHashes c) inv <= 0
  end.
Proof.
  rewrite best_worker_eq. destruct (callHashes c) as [|h hs] eqn:Eh; simpl Nat.eqb.
  { cbv zeta iota beta. split; [done|]. intros e inv _. reflexivity. }
  cbv iota. rewrite <- Eh. destruct (scan_spec env svcOrder epOrder c m) as [Hok _].
  destruct (kvSvcScanInventories _ _ _ _ _ m) as [a m1]. simpl in Hok. destruct (Z.leb_spec (aBestScore a) 0) as [Hle|Hpos].
  { split; [done|]. intros e inv Hr. etrans; [by apply (so_max _ _ _ Hok e)|done]. }
  pose proof (chosen_eligible env _ _ _ Hok Hpos) as Hel. cbv zeta.
  pose proof (seed_eligible env (cSvcID c) (cPrefill c) (cExcluded c) (chosenEp env (callLookup env c) a) m1) as Hs.
  destruct (kvColdStartSeed _ _ _ _ _ m1) as [[sEp seeded] m2].
  assert (forall P : Prop, (0 < aBestScore a -> (exists e inv, callReads env svcOrder epOrder c m e inv /\ MatchCount (callHashes c) inv = aBestScore a) -> P) -> P) as K.
  { intros P HP. destruct (so_best _ _ _ Hok) as [[_ ?]|(? & _ & i & ? & ?)]; [lia|]. apply HP; eauto. }
  apply K. intros _ Hex.
  assert (0 <= (if seeded then sEp else chosenEp env (callLookup env c) a) < 32 /\
    maskBit (cPrefill c) (if seeded then sEp else chosenEp env (callLookup env c) a) = true /\
    maskBit (cExcluded c) (if seeded then sEp else chosenEp env (callLookup env c) a) = false) as (? & ? & ?).
  { destruct seeded; [done|]. unfold eligibleEp in Hel. simpl in Hel. split_bools. split; [lia|]. auto. }
  do 4 (split; [done|]). split; [done|]. intros e inv Hr. by apply (so_max _ _ _ Hok e).
Qed.
