(* ===== verification/KvOrder.v ===== *)
(** * KvOrder: the answer does not depend on the order of a map

    Go iterates maps in a random order.  In the load-aware modes the answer of a
    lookup for one service is a function of that service's own state: neither the
    iteration order nor another service can change it. *)

From S2P Require Import Prelude KvSelect KvSelectProps KvInventory KvEngines KvStream KvBest KvBestProps.

Open Scope Z_scope.
Open Scope igw_scope.

(** ** Folds and picks over permutations *)

Lemma foldl_perm {A B} (f : B -> A -> B) :
  (forall b x y, f (f b x) y = f (f b y) x) -> forall l l' b, l ≡ₚ l' -> foldl f b l = foldl f b l'.
Proof.
  intros Hc l l' b H. revert b. induction H as [|x l l' _ IH|x y l|l l2 l3 _ IH1 _ IH2]; intros b; simpl; [done|apply IH|by rewrite Hc|].
  by rewrite IH1.
Qed.

Lemma sumLoad_perm l l' : l ≡ₚ l' -> sumLoad l = sumLoad l'.
Proof. apply foldl_perm. intros. unfold u64. rewrite !Zplus_mod_idemp_l. f_equal. lia. Qed.

Lemma sumCap_perm l l' : l ≡ₚ l' -> sumCap l = sumCap l'.
Proof. apply foldl_perm. intros. unfold u64. rewrite !Zplus_mod_idemp_l. f_equal. lia. Qed.

Lemma maxOverlap_perm l l' : l ≡ₚ l' -> maxOverlap l = maxOverlap l'.
Proof.
  apply foldl_perm. intros b x y. unfold hasOverlap.
  destruct (Z.ltb_spec 0 (cOverlap x)), (Z.ltb_spec 0 (cOverlap y)); simpl; try done.
  destruct (Z.ltb_spec b (cOverlap x)), (Z.ltb_spec b (cOverlap y)); repeat zcase; lia.
Qed.

Lemma capOf_perm l l' mlf c : l ≡ₚ l' -> capOf l mlf c = capOf l' mlf c.
Proof. intros H. unfold capOf. by rewrite (sumLoad_perm l l' H), (sumCap_perm l l' H). Qed.

(** Two candidates with the same endpoint are the same candidate. *)
Definition oneEach (l : list kvCandidate) : Prop := NoDup (cEp <$> l).

Lemma oneEach_inj l c d : oneEach l -> c ∈ l -> d ∈ l -> cEp c = cEp d -> c = d.
Proof.
  unfold oneEach. induction l as [|x l IH]; [set_solver|]. rewrite fmap_cons, NoDup_cons. intros [Hx Hn] Hc Hd E.
  apply elem_of_cons in Hc as [->|Hc]; apply elem_of_cons in Hd as [->|Hd]; [done| | |by apply IH].
  - destruct Hx. rewrite E. by apply list_elem_of_fmap_2.
  - destruct Hx. rewrite <- E. by apply list_elem_of_fmap_2.
Qed.

Lemma oneEach_NoDup l : oneEach l -> NoDup l.
Proof. apply NoDup_fmap_1. Qed.

#[export] Instance oneEach_perm : Proper ((≡ₚ) ==> iff) oneEach.
Proof. intros l l' H. unfold oneEach. by rewrite H. Qed.

(** An order that compares endpoints last separates all candidates. *)
Class EpLast (better : kvCandidate -> kvCandidate -> bool) : Prop := {
  ep_last_sw :: StrictWeak better;
  ep_last a b : better a b = false -> better b a = false -> cEp a = cEp b
}.

#[export] Instance loadThenAffinity_sw : StrictWeak loadThenAffinity.
Proof. split; unfold loadThenAffinity; intros; bool_props; lia. Qed.
#[export] Instance moreOverlap_last : EpLast moreOverlap.
Proof. split; [apply _|]. unfold moreOverlap; intros; bool_props; lia. Qed.
#[export] Instance lessLoad_last : EpLast lessLoad.
Proof. split; [apply _|]. unfold lessLoad; intros; bool_props; lia. Qed.
#[export] Instance affinityThenLoad_last : EpLast affinityThenLoad.
Proof. split; [apply _|]. unfold affinityThenLoad; intros; bool_props; lia. Qed.
#[export] Instance loadThenAffinity_last : EpLast loadThenAffinity.
Proof. split; [apply _|]. unfold loadThenAffinity; intros; bool_props; lia. Qed.
#[export] Instance cheaper_last cost : EpLast (cheaper cost).
Proof. split; [apply _|]. unfold cheaper; intros; bool_props; lia. Qed.

Lemma pick_index {A} (ok : A -> bool) better l i c : pick ok better 0 None l = Some (i, c) -> l !! i = Some c.
Proof. by intros [|(k & Hk & -> & _)]%pick_in. Qed.

Lemma pick_all_none {A} (ok : A -> bool) better l : pick ok better 0 None l = None -> forall c, c ∈ l -> ok c = false.
Proof.
  intros H c Hc. destruct (ok c) eqn:E; [|done]. destruct (pick_head_some ok better l c Hc E) as (i & d & E'). congruence.
Qed.

(** The outcome of a pick, but for the index it was found at. *)
Lemma pick_perm (ok ok' : kvCandidate -> bool) better better' `{!EpLast better} l l' :
  oneEach l -> l ≡ₚ l' -> (forall c, ok c = ok' c) -> (forall c d, better c d = better' c d) ->
  snd <$> pick ok better 0 None l = snd <$> pick ok' better' 0 None l'.
Proof.
  intros Hn Hp Hok Hbe. rewrite (pick_ext ok' ok better' better l') by (intros; by rewrite ?Hok, ?Hbe).
  destruct (pick ok better 0 None l) as [[i c]|] eqn:E.
  - pose proof (pick_from _ _ _ _ _ E) as [Hc Hoc]. apply pick_best in E as [_ Hb]; [|apply _].
    destruct (pick_head_some ok better l' c) as (j & d & E'); [by rewrite <- Hp|done|]. rewrite E'. simpl. f_equal.
    pose proof (pick_from _ _ _ _ _ E') as [Hd Hod]. rewrite <- Hp in Hd. apply pick_best in E' as [_ Hb']; [|apply _].
    eapply oneEach_inj; [done|done|done|]. apply (ep_last (better := better)); [apply Hb'; [by rewrite <- Hp|done]|by apply Hb].
  - rewrite pick_none; [done|]. intros c Hc. rewrite <- Hp in Hc. by eapply pick_all_none.
Qed.

Lemma pick_same_index (ok1 ok2 : kvCandidate -> bool) b1 b2 l i c j d :
  oneEach l -> pick ok1 b1 0 None l = Some (i, c) -> pick ok2 b2 0 None l = Some (j, d) -> Nat.eqb i j = bool_decide (c = d).
Proof.
  intros Hn%oneEach_NoDup Hc%pick_index Hd%pick_index. apply Bool.eq_true_iff_eq. rewrite Nat.eqb_eq, bool_decide_eq_true.
  split; [intros ->; congruence|]. intros ->. by eapply NoDup_lookup.
Qed.

(** ** The selectors *)

(** [kvUnifiedSelect] without indices. *)
Definition unifiedOf (arg under least fall : option kvCandidate) : Z * bool :=
  match arg with
  | None => (-1, false)
  | Some a =>
      match under with
      | Some c =>
          match (if cOverlap c <=? kvNegligibleOverlap then least else None) with
          | Some d => (cEp d, negb (bool_decide (d = a)))
          | None => (cEp c, negb (bool_decide (c = a)))
          end
      | None => match fall with Some c => (cEp c, negb (bool_decide (c = a))) | None => (-1, false) end
      end
  end.

Lemma unified_free l mlf : oneEach l ->
  kvUnifiedSelect l mlf =
  unifiedOf (snd <$> pick hasOverlap moreOverlap 0 None l) (snd <$> pick (underBound l mlf) affinityThenLoad 0 None l)
            (snd <$> pick (underBound l mlf) lessLoad 0 None l) (snd <$> pick hasOverlap loadThenAffinity 0 None l).
Proof.
  intros Hn. unfold kvUnifiedSelect. fold (underBound l mlf). destruct l as [|x l']; [done|]. set (l := x :: l') in *.
  destruct (pick hasOverlap moreOverlap 0 None l) as [[a ca]|] eqn:Ea; [|done]. cbn [fmap option_fmap option_map snd unifiedOf].
  destruct (pick (underBound l mlf) affinityThenLoad 0 None l) as [[i c]|] eqn:Ei; cbn [fmap option_fmap option_map snd unifiedOf].
  - destruct (cOverlap c <=? kvNegligibleOverlap).
    + destruct (pick (underBound l mlf) lessLoad 0 None l) as [[j d]|] eqn:Ej; cbn [fmap option_fmap option_map snd unifiedOf]; by erewrite pick_same_index.
    + by erewrite pick_same_index.
  - destruct (pick hasOverlap loadThenAffinity 0 None l) as [[j d]|] eqn:Ej; cbn [fmap option_fmap option_map snd unifiedOf]; [|done]. by erewrite pick_same_index.
Qed.

Lemma unified_perm l l' mlf : oneEach l -> l ≡ₚ l' -> kvUnifiedSelect l mlf = kvUnifiedSelect l' mlf.
Proof.
  intros Hn Hp. assert (oneEach l') by by rewrite <- Hp. rewrite !unified_free by done.
  assert (forall c, underBound l mlf c = underBound l' mlf c) by (intros; unfold underBound; by rewrite (capOf_perm l l')).
  f_equal; apply pick_perm; try done; try apply _.
Qed.

Lemma soft_perm l l' lambda : oneEach l -> l ≡ₚ l' -> kvSoftBlendSelect l lambda = kvSoftBlendSelect l' lambda.
Proof.
  intros Hn Hp. assert (oneEach l') as Hn' by by rewrite <- Hp. unfold kvSoftBlendSelect.
  pose proof (pick_perm hasOverlap hasOverlap moreOverlap moreOverlap l l' Hn Hp (fun _ => eq_refl) (fun _ _ => eq_refl)) as E1.
  pose proof (pick_perm hasOverlap hasOverlap (cheaper (softCost (maxOverlap l) lambda)) (cheaper (softCost (maxOverlap l') lambda))
    l l' Hn Hp (fun _ => eq_refl)) as E2. rewrite <- (maxOverlap_perm l l' Hp) in *. specialize (E2 (fun _ _ => eq_refl)).
  destruct l as [|x l0], l' as [|x' l0'']; [done|by apply Permutation_nil_l in Hp|by apply Permutation_nil_r in Hp|].
  set (l := x :: l0) in *. set (l' := x' :: l0'') in *.
  destruct (pick hasOverlap moreOverlap 0 None l) as [[a ca]|] eqn:Ea, (pick hasOverlap moreOverlap 0 None l') as [[a' ca']|] eqn:Ea'; try done.
  destruct (pick hasOverlap (cheaper _) 0 None l) as [[i c]|] eqn:Ei, (pick hasOverlap (cheaper _) 0 None l') as [[i' c']|] eqn:Ei'; try done.
  simpl in *. injection E1 as ->. injection E2 as ->.
  by rewrite (pick_same_index _ _ _ _ _ _ _ _ _ Hn Ei Ea), (pick_same_index _ _ _ _ _ _ _ _ _ Hn' Ei' Ea').
Qed.

Lemma argmax_perm l l' : oneEach l -> l ≡ₚ l' -> kvArmPureArgmax l = kvArmPureArgmax l'.
Proof.
  intros Hn Hp. pose proof (pick_perm hasOverlap hasOverlap moreOverlap moreOverlap l l' Hn Hp (fun _ => eq_refl) (fun _ _ => eq_refl)) as E.
  unfold kvArmPureArgmax. destruct (pick _ _ 0 None l) as [[i c]|], (pick _ _ 0 None l') as [[i' c']|]; try done. simpl in E. congruence.
Qed.

Lemma arm_perm l l' mode mlf lambda : oneEach l -> l ≡ₚ l' -> kvSelectArm l mode mlf lambda = kvSelectArm l' mode mlf lambda.
Proof.
  intros Hn Hp. unfold kvSelectArm. by rewrite (argmax_perm l l'), (soft_perm l l'), (unified_perm l l').
Qed.

Lemma lastOf_in s l c : lastOf s l = Some c -> c ∈ l /\ cEp c = s.
Proof.
  unfold lastOf. induction l as [|d l IH] using rev_ind; [done|]. rewrite foldl_app. simpl.
  destruct (Z.eqb_spec (cEp d) s) as [<-|]; [intros [= <-]; set_solver|]. intros [? ?]%IH. set_solver.
Qed.

Lemma lastOf_perm s l l' : oneEach l -> l ≡ₚ l' -> lastOf s l = lastOf s l'.
Proof.
  intros Hn Hp. destruct (lastOf s l) as [c|] eqn:E.
  - apply lastOf_in in E as [Hc Hs]. destruct (lastOf_spec s l') as (d & -> & Hd & Hds); [exists c; by rewrite <- Hp|].
    f_equal. eapply oneEach_inj; [done|done|by rewrite Hp|congruence].
  - destruct (lastOf s l') as [d|] eqn:E'; [|done]. apply lastOf_in in E' as [Hd Hs].
    destruct (lastOf_spec s l) as (c & Hc & _); [exists d; by rewrite Hp|congruence].
Qed.

Lemma relief_perm l l' s mlf : oneEach l -> l ≡ₚ l' -> kvSpillReliefTarget l s mlf = kvSpillReliefTarget l' s mlf.
Proof.
  intros Hn Hp. unfold kvSpillReliefTarget. rewrite (Permutation_length Hp), (lastOf_perm s l l' Hn Hp).
  destruct (_ <? 2); [done|]. destruct (lastOf s l') as [sel|]; [|done]. rewrite (capOf_perm l l' mlf sel Hp). destruct (_ <? _); [done|].
  pose proof (pick_perm (fun c => negb (cLoad c >=? capOf l mlf c)) (fun c => negb (cLoad c >=? capOf l' mlf c)) lessLoad lessLoad l l' Hn Hp) as E.
  assert (forall c, negb (cLoad c >=? capOf l mlf c) = negb (cLoad c >=? capOf l' mlf c)) as Hcap by (intros c; by rewrite (capOf_perm l l' mlf c Hp)).
  specialize (E Hcap (fun _ _ => eq_refl)).
  destruct (pick _ _ 0 None l) as [[i c]|], (pick _ _ 0 None l') as [[j d]|]; try done. simpl in E. by injection E as ->.
Qed.

(** ** The scan of one service *)

(** The candidate an endpoint of the service makes. *)
Definition candAt (q : lookup) (svc : kvServiceState) (ep : Z) : option kvCandidate :=
  match inventories svc !! ep with
  | None => None
  | Some inv =>
      if negb (eligibleEp q ep) then None
      else
        let '(cap0, load) := kvLoadCapFromArrays (qLoad q) (qCap q) ep in
        Some (KvCandidate ep (MatchCount (qHashes q) inv) (kvWeightedCapacity cap0 (kvCtrlWeightAt (qWeight q) ep)) load)
  end.

(** A candidate's inventory holds blocks. *)
Definition holdsBlocks (q : lookup) (svc : kvServiceState) (ep : Z) : bool :=
  match inventories svc !! ep with Some inv => eligibleEp q ep && (Size inv >? 0) | None => false end.

Definition topOverlap (m : Z) (l : list kvCandidate) : Z := foldl (fun m c => Z.max m (cOverlap c)) m l.

Lemma scanEps_closed q svc eps a :
  let r := foldl (scanEp q svc) a eps in
  let l := omap (candAt q svc) eps in
  aCands r = aCands a ++ (if qLoadAware q then filter (fun c => 0 < cOverlap c) l else []) /\
  aFleet r = aFleet a ++ (if qLoadAware q && qRelief q then l else []) /\
  aBestScore r = topOverlap (aBestScore a) l /\ aSvcBest r = topOverlap (aSvcBest a) l /\
  aHadInv r = aHadInv a || existsb (holdsBlocks q svc) eps.
Proof.
  cbv zeta. revert a. induction eps as [|ep eps IH]; intros a.
  { simpl. rewrite orb_false_r. by destruct (qLoadAware q), (qRelief q); simpl; rewrite ?app_nil_r. }
  cbn [foldl]. destruct (IH (scanEp q svc a ep)) as (-> & -> & -> & -> & ->). clear IH.
  cbn [omap list_omap existsb]. unfold scanEp. change (holdsBlocks q svc ep) with (match inventories svc !! ep with Some inv => eligibleEp q ep && (Size inv >? 0) | None => false end).
  assert (candAt q svc ep = ltac:(let t := eval unfold candAt in (candAt q svc ep) in exact t)) as -> by done.
  destruct (inventories svc !! ep) as [inv|]; [|done]. destruct (eligibleEp q ep); [|done]. cbn [negb].
  destruct (kvLoadCapFromArrays _ _ ep) as [cap0 load]. set (sc := MatchCount _ inv).
  cbn [topOverlap foldl]. unfold topOverlap. cbn [foldl cOverlap].
  destruct (Z.ltb_spec (aBestScore a) sc); cbn [aCands aFleet aBestScore aSvcBest aHadInv];
    (split; [|split; [|split; [|split]]]).
  all: try (f_equal; zcase; lia). all: try (f_equal; lia).
  all: try (destruct (Size inv >? 0); destruct (aHadInv a); done).
  all: destruct (qLoadAware q), (qRelief q); cbn [andb orb]; rewrite ?andb_true_r, ?andb_false_r, ?orb_true_r, ?orb_false_r, <- ?app_assoc; try done.
  all: try (destruct (Z.ltb_spec 0 sc); cbn [andb]; rewrite <- ?app_assoc; [rewrite filter_cons_True by done|rewrite filter_cons_False by (simpl; lia)]; done).
Qed.

Lemma topOverlap_perm m l l' : l ≡ₚ l' -> topOverlap m l = topOverlap m l'.
Proof. apply foldl_perm. intros. lia. Qed.

Lemma existsb_perm {A} (f : A -> bool) l l' : l ≡ₚ l' -> existsb f l = existsb f l'.
Proof. induction 1 as [|x l l' _ IH|x y l|l l2 l3 _ IH1 _ IH2]; simpl; [done|by rewrite IH|by rewrite !orb_assoc, (orb_comm (f y))|congruence]. Qed.

Lemma omap_perm {A B} (f : A -> option B) l l' : l ≡ₚ l' -> omap f l ≡ₚ omap f l'.
Proof. by intros ->. Qed.

Lemma candAt_ep q svc ep c : candAt q svc ep = Some c -> cEp c = ep.
Proof.
  unfold candAt. destruct (inventories svc !! ep); [|done]. destruct (negb _); [done|].
  destruct (kvLoadCapFromArrays _ _ ep). by intros [= <-].
Qed.

Lemma candAt_oneEach q svc eps : NoDup eps -> oneEach (omap (candAt q svc) eps).
Proof.
  unfold oneEach. induction 1 as [|ep eps Hep Hn IH]; simpl; [constructor|]. destruct (candAt q svc ep) as [c|] eqn:E; [|done].
  rewrite fmap_cons. constructor; [|done]. rewrite (candAt_ep _ _ _ _ E). intros (d & -> & Hd)%list_elem_of_fmap.
  apply list_elem_of_omap in Hd as (ep' & He & Hd). by rewrite (candAt_ep _ _ _ _ Hd) in Hep.
Qed.

Lemma filter_oneEach (P : kvCandidate -> Prop) `{!forall c, Decision (P c)} l : oneEach l -> oneEach (filter P l).
Proof.
  unfold oneEach. induction l as [|c l IH]; [done|]. rewrite fmap_cons, NoDup_cons. intros [Hc Hn]. rewrite filter_cons.
  case_decide; [|auto]. rewrite fmap_cons. constructor; [|auto]. intros (d & E & Hd)%list_elem_of_fmap. apply Hc. rewrite E.
  apply list_elem_of_filter in Hd as [_ Hd]. by apply list_elem_of_fmap_2.
Qed.

Lemma perm_filter (P : kvCandidate -> Prop) `{!forall c, Decision (P c)} l l' : l ≡ₚ l' -> filter P l ≡ₚ filter P l'.
Proof. by intros ->. Qed.

(** The fields of a scan the answer is made of, up to the order of candidates. *)
Record scanSame (a b : scanAcc) : Prop := {
  ss_cands : aCands a ≡ₚ aCands b;
  ss_fleet : aFleet a ≡ₚ aFleet b;
  ss_score : aBestScore a = aBestScore b;
  ss_one : oneEach (aCands a);
  ss_oneFleet : oneEach (aFleet a)
}.

(** Every arm finds an endpoint among candidates with cached blocks. *)
Lemma arm_hits l mode mlf lam :
  oneEach l -> Forall (fun c => 0 <= cEp c /\ 0 < cOverlap c) l -> l <> [] -> 0 <= (kvSelectArm l mode mlf lam).1.
Proof.
  intros H1 Hin Hne. rewrite Forall_forall in Hin. destruct (arm_from l mode mlf lam) as [E|(c & Hc & <-)]; [|by apply Hin].
  exfalso. destruct l as [|d l0] eqn:El; [done|]. rewrite <- El in *. assert (d ∈ l) as Hd by (rewrite El; set_solver).
  destruct (Hin d Hd) as [_ Hov]. assert (hasOverlap d = true) as Ho by by apply Z.ltb_lt.
  assert (forall (ok : kvCandidate -> bool) better i e, pick ok better 0 None l = Some (i, e) -> 0 <= cEp e) as Hpos.
  { intros ok better i e [He _]%pick_from. by apply Hin. }
  destruct (pick_head_some hasOverlap moreOverlap l d Hd Ho) as (i & e & Ee).
  destruct (pick_head_some hasOverlap loadThenAffinity l d Hd Ho) as (i2 & e2 & Ee2).
  destruct (pick_head_some hasOverlap (cheaper (softCost (maxOverlap l) lam)) l d Hd Ho) as (i3 & e3 & Ee3).
  assert (kvArmPureArgmax l <> -1) as N1 by (unfold kvArmPureArgmax; rewrite Ee; apply Hpos in Ee; lia).
  assert ((kvSoftBlendSelect l lam).1 <> -1) as N2.
  { unfold kvSoftBlendSelect. rewrite El at 1. rewrite Ee, Ee3. apply Hpos in Ee3. simpl. lia. }
  assert ((kvUnifiedSelect l mlf).1 <> -1) as N3.
  { rewrite unified_free by done. rewrite Ee, Ee2. cbn [fmap option_fmap option_map snd unifiedOf].
    destruct (pick _ affinityThenLoad 0 None _) as [[i4 e4]|] eqn:E4; cbn [fmap option_fmap option_map snd].
    2:{ apply Hpos in Ee2. simpl. lia. }
    apply Hpos in E4. destruct (cOverlap e4 <=? _); [|simpl; lia].
    destruct (pick _ lessLoad 0 None _) as [[i5 e5]|] eqn:E5; cbn [fmap option_fmap option_map snd fst]; [apply Hpos in E5|]; lia. }
  revert E. unfold kvSelectArm. repeat destruct (_ ==s _); done.
Qed.

Lemma chosen_same env q seen a b :
  scanSame a b -> scanOk q seen a -> qLoadAware q = true -> 0 < aBestScore a -> chosenEp env q a = chosenEp env q b.
Proof.
  intros [Hc Hf Hs H1 H2] Hok Hla Hpos. unfold chosenEp. rewrite Hla. cbn [negb].
  assert (kvAdaptiveMeanLoadFactor env (aCands a) = kvAdaptiveMeanLoadFactor env (aCands b)) as ->.
  { unfold kvAdaptiveMeanLoadFactor, kvAdaptiveNormalizedLoad, kvAdaptiveSumLoad. by rewrite (sumLoad_perm _ _ Hc). }
  assert (kvAdaptiveLoadPenalty env (aCands a) = kvAdaptiveLoadPenalty env (aCands b)) as ->.
  { unfold kvAdaptiveLoadPenalty, kvAdaptiveNormalizedLoad, kvAdaptiveSumLoad. by rewrite (sumLoad_perm _ _ Hc). }
  match goal with |- context [kvSelectArm (aCands a) _ ?e ?l] => set (eps := e); set (lam := l) end. cbv zeta.
  assert (kvSelectArm (aCands b) (kvLbMode env) eps lam = kvSelectArm (aCands a) (kvLbMode env) eps lam) as -> by (symmetry; by apply arm_perm).
  assert (0 <= (kvSelectArm (aCands a) (kvLbMode env) eps lam).1) as Hsel.
  { apply arm_hits; [done| |by eapply so_hit]. eapply Forall_impl; [by eapply so_cands|]. intros c [He Hov].
    split; [|done]. unfold eligibleEp in He. split_bools. lia. }
  destruct (kvSelectArm (aCands a) _ eps lam) as [selEp spilled]. simpl in Hsel. destruct (Z.leb_spec 0 selEp); [|lia].
  by rewrite (relief_perm _ _ selEp eps H2 Hf).
Qed.

(** ** One service *)

Lemma scan_one env q svcOrder epOrder svcID m svc :
  svcID <> 0 -> m !! svcID = Some svc ->
  let r := foldl (scanEp q svc) emptyAcc (epOrder svcID) in
  kvSvcScanInventories env q svcOrder epOrder svcID m =
  (r, <[svcID := (kvZeroHitWatchdog env (aHadInv r) (aSvcBest r) svc).1.1]> m).
Proof.
  intros Hne E. unfold kvSvcScanInventories, kvSvcScanTargets. destruct (Z.eqb_spec svcID 0); [done|]. rewrite E. cbn [foldl negb scanSvc].
  unfold kvServicesMap in *. rewrite E. change (ScanAcc (aBestEp emptyAcc) _ _ _ _ _ _ _) with emptyAcc.
  by destruct (kvZeroHitWatchdog _ _ _ svc) as [[? ?] ?].
Qed.

Lemma scan_absent env q svcOrder epOrder svcID m :
  svcID <> 0 -> m !! svcID = None -> kvSvcScanInventories env q svcOrder epOrder svcID m = (emptyAcc, m).
Proof. intros Hne E. unfold kvSvcScanInventories, kvSvcScanTargets. destruct (Z.eqb_spec svcID 0); [done|]. by rewrite E. Qed.

(** Seeding reads and writes the one service. *)
Definition seedOne (env : Env) (prefill excl best : Z) (svc : kvServiceState) : Z * bool * kvServiceState :=
  let svc' := setTick (u64 (coldSeedTick svc + 1)) svc in
  if coldSeedTick svc' mod kvColdSeedN env !=? 0 then (best, false, svc')
  else let f := kvColdSeedMinBlocks env in
       match firstFrom (seedTarget (if f <? 1 then 1 else f) prefill excl best svc') 32 0 with
       | Some ep => (ep, true, svc')
       | None => (best, false, svc')
       end.

Lemma seed_one env svcID prefill excl best m svc :
  svcID <> 0 -> m !! svcID = Some svc ->
  kvColdStartSeed env svcID prefill excl best m =
  if kvColdSeedN env ==? 0 then (best, false, m)
  else let '(ep, seeded, svc') := seedOne env prefill excl best svc in (ep, seeded, <[svcID := svc']> m).
Proof.
  intros Hne E. unfold kvColdStartSeed, seedOne. unfold kvServicesMap in *. destruct (kvColdSeedN env ==? 0); [done|].
  destruct (Z.eqb_spec svcID 0); [done|]. cbn [orb]. rewrite E. cbn [coldSeedTick setTick].
  destruct (_ !=? 0); [done|]. by destruct (firstFrom _ 32 0).
Qed.

Lemma scan_same q svc eps eps' : NoDup eps -> eps ≡ₚ eps' ->
  let a := foldl (scanEp q svc) emptyAcc eps in
  let b := foldl (scanEp q svc) emptyAcc eps' in
  scanSame a b /\ aHadInv a = aHadInv b /\ aSvcBest a = aSvcBest b.
Proof.
  intros Hn Hp. cbv zeta. destruct (scanEps_closed q svc eps emptyAcc) as (A1 & A2 & A3 & A4 & A5).
  destruct (scanEps_closed q svc eps' emptyAcc) as (B1 & B2 & B3 & B4 & B5).
  pose proof (omap_perm (candAt q svc) _ _ Hp) as Ho. pose proof (candAt_oneEach q svc eps Hn) as H1.
  split; [|split; [by rewrite A5, B5, (existsb_perm _ _ _ Hp)|by rewrite A4, B4, (topOverlap_perm _ _ _ Ho)]].
  split.
  - rewrite A1, B1. destruct (qLoadAware q); [|done]. simpl. by apply perm_filter.
  - rewrite A2, B2. by destruct (qLoadAware q && qRelief q).
  - by rewrite A3, B3, (topOverlap_perm _ _ _ Ho).
  - rewrite A1. destruct (qLoadAware q); [by apply filter_oneEach|constructor].
  - rewrite A2. destruct (qLoadAware q && qRelief q); [done|constructor].
Qed.

(** C27: the answer is a function of the service alone. In every load-aware mode,
    two lookups with the same arguments for a rule answer alike, and leave the
    rule's service in the same state, when they meet the same state of that
    service: it matters neither in which order the runtime walks the maps, nor
    what the other rules' services hold, which the lookup does not change. *)
Theorem load_aware_answer_is_local env svcOrder svcOrder' epOrder epOrder' c m m' :
  cSvcID c <> 0 -> kvLbMode env <> "off"%string -> m !! cSvcID c = m' !! cSvcID c ->
  NoDup (epOrder (cSvcID c)) -> epOrder (cSvcID c) ≡ₚ epOrder' (cSvcID c) ->
  let '(ep, out, m1) := llb_ai_kv_best_worker env svcOrder epOrder c m in
  let '(ep', out', m1') := llb_ai_kv_best_worker env svcOrder' epOrder' c m' in
  ep = ep' /\ out = out' /\ m1 !! cSvcID c = m1' !! cSvcID c /\ forall id, id <> cSvcID c -> m1 !! id = m !! id.
Proof.
  intros Hne Hmode Hm Hn Hp. rewrite !best_worker_eq. destruct (Nat.eqb _ 0); [done|].
  destruct (m !! cSvcID c) as [svc|] eqn:E; symmetry in Hm.
  2:{ rewrite !scan_absent by done. cbn. unfold kvServicesMap in *. by rewrite E, Hm. }
  rewrite (scan_one _ _ _ _ _ m svc Hne E), (scan_one _ _ _ _ _ m' svc Hne Hm).
  set (q := callLookup env c). destruct (scan_same q svc _ _ Hn Hp) as (Hs & Hh & Hb). cbv zeta in *.
  pose proof (scan_spec env svcOrder epOrder c m) as [Hok _]. rewrite (scan_one _ _ _ _ _ m svc Hne E) in Hok. cbn [fst] in Hok. fold q in Hok.
  set (a := foldl (scanEp q svc) emptyAcc (epOrder (cSvcID c))) in *. set (b := foldl (scanEp q svc) emptyAcc (epOrder' (cSvcID c))) in *.
  rewrite <- Hh, <- Hb, <- (ss_score _ _ Hs). set (svc1 := (kvZeroHitWatchdog env _ _ svc).1.1). unfold kvServicesMap in *.
  assert (forall (mm : gmap Z kvServiceState) s1 s2 id, id <> cSvcID c -> <[cSvcID c := s2]> (<[cSvcID c := s1]> mm) !! id = mm !! id) as Hother.
  { intros. by rewrite !lookup_insert_ne. }
  destruct (Z.leb_spec (aBestScore a) 0) as [Hle|Hpos].
  { do 2 (split; [done|]). split; [by rewrite !lookup_insert_eq|]. intros id Hid. by rewrite lookup_insert_ne. }
  rewrite <- (chosen_same env q _ a b Hs Hok) by (done || (apply negb_true_iff, String.eqb_neq; done)).
  rewrite (seed_one _ _ _ _ _ (<[cSvcID c := svc1]> m) svc1), (seed_one _ _ _ _ _ (<[cSvcID c := svc1]> m') svc1); try done; try apply lookup_insert_eq.
  destruct (kvColdSeedN env ==? 0).
  { do 2 (split; [done|]). split; [by rewrite !lookup_insert_eq|]. intros id Hid. by rewrite lookup_insert_ne. }
  destruct (seedOne _ _ _ _ svc1) as [[sEp seeded] svc2]. unfold kvServicesMap in *.
  do 2 (split; [done|]). split; [by rewrite !lookup_insert_eq|]. intros id Hid. by apply Hother.
Qed.

(** One service whose endpoints 3 and 5 both hold the prompt's block, and the call
    that asks for it. *)
Definition noEnv : Env := fun _ => ""%string.

Definition demoInv : kvInventory := (AddBlocks 0 [72623859790382856] (newKvInventory noEnv)).1.

Definition demoServices : kvServicesMap := {[ 7 := KvServiceState {[ 3 := demoInv; 5 := demoInv ]} ∅ ∅ "" 0 false 0 ]}.

Definition demoCall : cLookup := CLookup (Some [1; 2; 3; 4; 5; 6; 7; 8]) 8 1 40 0 None None None 7 0.

Lemma load_aware_answer_witness :
  (llb_ai_kv_best_worker noEnv [7] (fun _ => [3; 5]) demoCall demoServices).1.1 = 3 /\
  (llb_ai_kv_best_worker noEnv [7; 8] (fun _ => [5; 3]) demoCall (<[8 := newKvServiceState]> demoServices)).1.1 = 3.
Proof.
  assert ((llb_ai_kv_best_worker noEnv [7] (fun _ => [3; 5]) demoCall demoServices).1.1 = 3) as E by (vm_compute; reflexivity).
  split; [exact E|].
  assert (demoServices !! cSvcID demoCall = (<[8 := newKvServiceState]> demoServices : gmap Z kvServiceState) !! cSvcID demoCall) as Hl
    by (symmetry; by apply lookup_insert_ne).
  assert (NoDup [3; 5]) as Hn by (apply (bool_decide_unpack _); reflexivity).
  pose proof (load_aware_answer_is_local noEnv [7] [7; 8] (fun _ => [3; 5]) (fun _ => [5; 3]) demoCall demoServices
    (<[8 := newKvServiceState]> demoServices) ltac:(discriminate) ltac:(discriminate) Hl Hn (perm_swap 5 3 [])) as H.
  destruct (llb_ai_kv_best_worker noEnv [7] _ _ _) as [[ep out] m1]. destruct (llb_ai_kv_best_worker noEnv [7; 8] _ _ _) as [[ep' out'] m1'].
  destruct H as (H & _). simpl in *. congruence.
Defined.

(** With load awareness off, a tie goes to whichever endpoint the map yields
    first, not to the lowest index. *)
Definition offEnv : Env := fun k => if k ==s "LOXILB_KV_LB_MODE" then "off"%string else ""%string.

Lemma off_mode_tie_follows_map_order :
  (llb_ai_kv_best_worker offEnv [7] (fun _ => [3; 5]) demoCall demoServices).1.1 = 3 /\
  (llb_ai_kv_best_worker offEnv [7] (fun _ => [5; 3]) demoCall demoServices).1.1 = 5 /\
  kvArmPureArgmax [KvCandidate 5 1 0 0; KvCandidate 3 1 0 0] = 3.
Proof. vm_compute. auto. Qed.
