(* ===== verification/KvSeedProps.v ===== *)
(** * KvSeedProps: cold endpoints are seeded, silent misses are reported *)

From S2P Require Import Prelude KvSelect KvSelectProps KvInventory KvEngines KvStream KvBest KvBestProps KvOrder.

Open Scope Z_scope.
Open Scope igw_scope.

(** ** Cold-start seeding over a run of hits *)

(** One hit about to be answered: the masks of the call, the endpoint chosen, and
    the inventories as the streams have left them by then. *)
Record hit := Hit {
  hPrefill : Z;
  hExcluded : Z;
  hBest : Z;
  hInv : gmap Z kvInventory
}.

Definition withInv (inv : gmap Z kvInventory) (svc : kvServiceState) : kvServiceState :=
  KvServiceState inv (cancelFns svc) (startArgs svc) (svcAlgo svc) (zeroHitStreak svc) (zeroHitWarned svc) (coldSeedTick svc).

Fixpoint seedRun (env : Env) (svcID : Z) (hits : list hit) (m : kvServicesMap) : list (Z * bool) :=
  match hits with
  | [] => []
  | h :: hs =>
      let '(ep, seeded, m') := kvColdStartSeed env svcID (hPrefill h) (hExcluded h) (hBest h) (alter (withInv (hInv h)) svcID m) in
      (ep, seeded) :: seedRun env svcID hs m'
  end.

(** An endpoint a hit may be diverted to: usable, not the one chosen, and with too
    few blocks published to be chosen by itself. *)
Definition coldTarget (env : Env) (h : hit) (ep : Z) : Prop :=
  0 <= ep < 32 /\ maskBit (hPrefill h) ep = true /\ maskBit (hExcluded h) ep = false /\ ep <> hBest h /\
  forall inv, hInv h !! ep = Some inv -> Size inv < Z.max 1 (kvColdSeedMinBlocks env).

(** The answer of the hit that is the service's [tick]-th. *)
Definition seedAt (env : Env) (tick : Z) (svc : kvServiceState) (h : hit) : Z * bool :=
  if tick mod kvColdSeedN env !=? 0 then (hBest h, false)
  else match firstFrom (seedTarget (Z.max 1 (kvColdSeedMinBlocks env)) (hPrefill h) (hExcluded h) (hBest h) (setTick tick (withInv (hInv h) svc))) 32 0 with
       | Some ep => (ep, true)
       | None => (hBest h, false)
       end.

Lemma seedTarget_iff env h svc t ep : 0 <= ep < 32 ->
  seedTarget (Z.max 1 (kvColdSeedMinBlocks env)) (hPrefill h) (hExcluded h) (hBest h) (setTick t (withInv (hInv h) svc)) ep = true <-> coldTarget env h ep.
Proof.
  intros Hr. unfold seedTarget, coldTarget. cbn [inventories setTick withInv].
  destruct (maskBit (hPrefill h) ep); cbn [negb orb]; [|intuition congruence].
  destruct (maskBit (hExcluded h) ep); [intuition congruence|].
  destruct (hInv h !! ep) as [inv|].
  - destruct (Z.leb_spec (Z.max 1 (kvColdSeedMinBlocks env)) (Size inv)).
    + split; [done|]. intros (_ & _ & _ & _ & Hs). specialize (Hs inv eq_refl). lia.
    + destruct (Z.eqb_spec ep (hBest h)); simpl; split; try done; [by intros (_ & _ & _ & ? & _)|].
      intros _. do 4 (split; [done|]). by intros ? [= <-].
  - destruct (Z.eqb_spec ep (hBest h)); simpl; split; try done. by intros (_ & _ & _ & ? & _).
Qed.

Lemma seedAt_spec env tick svc h :
  tick mod kvColdSeedN env = 0 ->
  (exists ep, seedAt env tick svc h = (ep, true) /\ coldTarget env h ep /\ forall e, coldTarget env h e -> ep <= e) \/
  (seedAt env tick svc h = (hBest h, false) /\ forall e, ~ coldTarget env h e).
Proof.
  intros Ht. unfold seedAt. rewrite Ht. cbn [Z.eqb negb].
  destruct (firstFrom _ 32 0) as [ep|] eqn:E.
  - left. exists ep. apply firstFrom_spec in E as (Hok & Hr & Hlt). split; [done|]. split; [apply (seedTarget_iff env h svc tick ep); [lia|done]|].
    intros e He. destruct (Z.le_gt_cases ep e); [done|]. pose proof He as (Hre & _). apply (seedTarget_iff env h svc tick e Hre) in He.
    rewrite Hlt in He; [done|lia].
  - right. split; [done|]. intros e He. pose proof He as (Hre & _). apply (seedTarget_iff env h svc tick e Hre) in He.
    rewrite (firstFrom_none _ _ _ E) in He; [done|lia].
Qed.

Lemma seedRun_spec env svcID hits m svc :
  svcID <> 0 -> kvColdSeedN env <> 0 -> m !! svcID = Some svc -> 0 <= coldSeedTick svc ->
  coldSeedTick svc + Z.of_nat (length hits) < two64 ->
  seedRun env svcID hits m = imap (fun j h => seedAt env (coldSeedTick svc + 1 + Z.of_nat j) svc h) hits.
Proof.
  intros Hid Hn. revert m svc. induction hits as [|h hits IH]; intros m svc E H0 Hb; [done|]. simpl length in Hb. unfold kvServicesMap in *.
  cbn [seedRun imap]. rewrite (seed_one _ _ _ _ _ _ (withInv (hInv h) svc)); [|done|unfold kvServicesMap; by rewrite lookup_alter_eq, E].
  destruct (Z.eqb_spec (kvColdSeedN env) 0); [done|].
  set (t := coldSeedTick svc + 1).
  assert (seedOne env (hPrefill h) (hExcluded h) (hBest h) (withInv (hInv h) svc) =
    (seedAt env t svc h, setTick t (withInv (hInv h) svc))) as ->.
  { unfold seedOne, seedAt. cbn [coldSeedTick withInv setTick]. replace (u64 _) with t by (unfold u64; rewrite Z.mod_small; lia).
    replace (if kvColdSeedMinBlocks env <? 1 then 1 else kvColdSeedMinBlocks env) with (Z.max 1 (kvColdSeedMinBlocks env)) by (zcase; lia).
    destruct (_ !=? 0); [done|]. by destruct (firstFrom _ 32 0). }
  destruct (seedAt env t svc h) as [ep sd] eqn:Es. unfold kvServicesMap in *.
  rewrite (IH _ (setTick t (withInv (hInv h) svc))); cbn [coldSeedTick setTick]; [|by rewrite lookup_insert_eq|lia|lia].
  rewrite Z.add_0_r. fold t. rewrite Es. f_equal.
  apply imap_ext. intros j h' _. cbn. replace (t + 1 + Z.of_nat j) with (t + Z.of_nat (S j)) by lia. done.
Qed.

(** No endpoint starves. Among any N consecutive hits of a service, N the
    seeding period, exactly one is a seeding opportunity, whatever the streams do
    to the inventories in between: that hit goes to the cold endpoint of lowest
    index when there is one, and every other hit keeps the endpoint chosen for it. *)
Theorem cold_start_seeds_every_period env svcID hits m svc :
  svcID <> 0 -> kvColdSeedN env <> 0 -> m !! svcID = Some svc -> 0 <= coldSeedTick svc ->
  coldSeedTick svc + kvColdSeedN env < two64 -> Z.of_nat (length hits) = kvColdSeedN env ->
  exists i h, hits !! i = Some h /\
    ((exists ep, seedRun env svcID hits m !! i = Some (ep, true) /\ coldTarget env h ep /\ forall e, coldTarget env h e -> ep <= e) \/
     (seedRun env svcID hits m !! i = Some (hBest h, false) /\ forall e, ~ coldTarget env h e)) /\
    (forall j h', j <> i -> hits !! j = Some h' -> seedRun env svcID hits m !! j = Some (hBest h', false)).
Proof.
  intros Hid Hn E H0 Hb Hl. rewrite (seedRun_spec env svcID hits m svc) by (done || lia).
  set (n := kvColdSeedN env) in *. set (t := coldSeedTick svc) in *. assert (0 < n) as Hpos by lia.
  pose proof (Z.mod_pos_bound t n Hpos) as Hm. set (i := Z.to_nat (n - 1 - t mod n)).
  pose proof (Z.div_mod t n ltac:(lia)) as Hdm.
  assert (is_Some (hits !! i)) as [h Hi] by (apply lookup_lt_is_Some; lia). exists i, h. split; [done|].
  setoid_rewrite list_lookup_imap. rewrite Hi. cbn [fmap option_fmap option_map]. split.
  - assert ((t + 1 + Z.of_nat i) mod n = 0) as Hz.
    { replace (t + 1 + Z.of_nat i) with ((t / n + 1) * n) by (subst i; lia). apply Z_mod_mult. }
    destruct (seedAt_spec env _ svc h Hz) as [(ep & -> & Hc)|[-> Hc]]; [left; eauto|right; eauto].
  - intros j h' Hj Hh'. rewrite Hh'. cbn. f_equal. unfold seedAt. fold n.
    apply lookup_lt_Some in Hh'. destruct (Z.eqb_spec ((t + 1 + Z.of_nat j) mod n) 0) as [Hz|]; [|done]. exfalso.
    apply Hj. subst i. apply Z.mod_divide in Hz as [k Hk]; [|lia].
    assert (t / n * n + (t mod n + 1 + Z.of_nat j) = k * n) by lia. assert (0 < (k - t / n) * n < 2 * n) by lia.
    assert (k - t / n = 1) by nia. lia.
Qed.

Definition period3 : Env := fun k => if k ==s "LOXILB_KV_COLDSTART_SEED_N" then "3"%string else ""%string.

Definition coldHit : hit := Hit 46 4 3 {[ 3 := demoInv ]}.

Lemma cold_start_witness : exists i, (i < 3)%nat /\ seedRun period3 7 [coldHit; coldHit; coldHit] demoServices !! i = Some (1, true).
Proof.
  destruct (cold_start_seeds_every_period period3 7 [coldHit; coldHit; coldHit] demoServices
    (KvServiceState {[ 3 := demoInv; 5 := demoInv ]} ∅ ∅ "" 0 false 0)) as (i & h & Hi & H & _); try done.
  exists i. pose proof (lookup_lt_Some _ _ _ Hi) as Hlt. split; [exact Hlt|].
  assert (seedRun period3 7 [coldHit; coldHit; coldHit] demoServices = [(3, false); (3, false); (1, true)]) as Er by (vm_compute; reflexivity).
  assert (h = coldHit) as -> by (do 3 (destruct i as [|i]; [by injection Hi|]); done).
  rewrite Er in *. destruct H as [(ep & Hep & _)|[_ H]].
  - destruct i as [|[|[|i]]]; [discriminate Hep|discriminate Hep|reflexivity|simpl in Hlt; lia].
  - exfalso. apply (H 1). split; [lia|]. do 2 (split; [reflexivity|]). split; [discriminate|]. intros inv Hinv. discriminate Hinv.
Defined.

(** ** The zero-hit watchdog *)

(** [k] lookups in a row that find nothing in a non-empty inventory: the service
    after them, the warnings logged and the counter's increments. *)
Fixpoint zeroHits (env : Env) (k : nat) (svc : kvServiceState) : kvServiceState * Z * Z :=
  match k with
  | O => (svc, 0, 0)
  | S k' =>
      let '(s, w, c) := zeroHits env k' svc in
      let '(s', warn, fire) := kvZeroHitWatchdog env true 0 s in
      (s', w + (if warn then 1 else 0), c + (if fire then 1 else 0))
  end.

Lemma posKnob_ge v lo dflt : lo <= dflt -> lo <= posKnob v lo dflt.
Proof. intros. unfold posKnob. destruct (negb _); [|done]. destruct (ParseInt v); [|done]. zcase; lia. Qed.

(** After a hit, a run of zero hits warns once, when it reaches the threshold, and
    counts each lookup from the threshold on. *)
Lemma watchdog_counts env k svc :
  zeroHitStreak svc = 0 -> zeroHitWarned svc = false -> Z.of_nat k < two64 ->
  let '(s, w, c) := zeroHits env k svc in
  zeroHitStreak s = Z.of_nat k /\ w = (if Z.of_nat k <? kvZeroHitN env then 0 else 1) /\ c = Z.max 0 (Z.of_nat k - kvZeroHitN env + 1) /\
  zeroHitWarned s = negb (Z.of_nat k <? kvZeroHitN env).
Proof.
  intros H0 Hw Hk. assert (1 <= kvZeroHitN env) as Hn by (apply posKnob_ge; unfold kvZeroHitNDefault; lia).
  induction k as [|k IH]; cbn [zeroHits].
  { rewrite H0, Hw. destruct (Z.ltb_spec (Z.of_nat 0) (kvZeroHitN env)); [|lia]. split_and!; simpl; try done. lia. }
  destruct (zeroHits env k svc) as [[s w] c]. destruct IH as (Hs & -> & -> & Hwd); [lia|].
  unfold kvZeroHitWatchdog. cbn [negb]. rewrite Hs. unfold u64. rewrite Z.mod_small by lia. cbn [zeroHitStreak zeroHitWarned setZeroHit].
  replace (Z.of_nat k + 1) with (Z.of_nat (S k)) by lia. rewrite Hwd. change (0 >? 0) with false. cbn [zeroHitStreak zeroHitWarned setZeroHit].
  destruct (Z.ltb_spec (Z.of_nat (S k)) (kvZeroHitN env)), (Z.ltb_spec (Z.of_nat k) (kvZeroHitN env)),
    (Z.leb_spec (kvZeroHitN env) (Z.of_nat (S k))); simpl; split_and!; try done; try lia.
Qed.

Example watchdog_hundred : let '(_, w, c) := zeroHits noEnv 100 newKvServiceState in w = 1 /\ c = 51.
Proof. vm_compute. auto. Qed.
