(* ===== verification/KvBinding.v ===== *)
(** * KvBinding: composed identities and the contract word

    pkg/loxinet/ai_kv_binding.go: the binding of a rule to a prompt profile and an
    engine contract, its generations and their persistence.
    pkg/loxinet/ai_kv_dataplane.go: the per-rule contract record with its deny
    flag, the transaction that installs the word in the data plane, and the gate
    the tokenize bridges pass.  SHA-256 (in hexadecimal) is an argument, as are
    the data plane's replies. *)

From Stdlib Require Import DecimalString.
From stdpp Require Import sorting.
From S2P Require Import Prelude KvSelect KvInventory KvEngines KvStream.

Open Scope Z_scope.
Open Scope igw_scope.

(** ** Components *)

Record KvModelProfileRef := ProfileRef { mpID : string; mpGen : Z }.
Record KvEngineContractRef := EngineRef { ecID : string; ecGen : Z }.

Record KvExactBindingComponents := Components {
  Profile : KvModelProfileRef;
  Contract : KvEngineContractRef;
  AttestationPolicyGen : Z;
  RequiredEvidenceLevel : string;
  ConsensusPolicy : string
}.

Record KvExactBinding := Binding {
  bRule : string;
  bComps : KvExactBindingComponents;
  BindingGen : Z;
  bDigest : string
}.

#[export] Instance profileRef_eq_dec : EqDecision KvModelProfileRef.
Proof. solve_decision. Defined.
#[export] Instance engineRef_eq_dec : EqDecision KvEngineContractRef.
Proof. solve_decision. Defined.
#[export] Instance components_eq_dec : EqDecision KvExactBindingComponents.
Proof. solve_decision. Defined.
#[export] Instance binding_eq_dec : EqDecision KvExactBinding.
Proof. solve_decision. Defined.

Definition nul : string := String Ascii.zero EmptyString.

(** The text the digest is taken over. *)
Definition bindingText (c : KvExactBindingComponents) : string :=
  String.concat nul
    ["profile"; mpID (Profile c); fmtD (mpGen (Profile c)); "contract"; ecID (Contract c); fmtD (ecGen (Contract c));
     "policy"; fmtD (AttestationPolicyGen c); "evidence"; RequiredEvidenceLevel c; "consensus"; ConsensusPolicy c; ""]%string.

Inductive bindErr :=
  | BErrRule | BErrProfile | BErrContract | BErrEvidence | BErrPolicy
  | BErrNoFree | BErrUnknownRule | BErrIsCurrent | BErrNotLive
  | BErrGenZero | BErrDigest | BErrConflict
  | BErrFuel.   (* the allocation loop did not end: never returned *)

Definition kvValidateBindingComponents (c : KvExactBindingComponents) : option bindErr :=
  if (mpID (Profile c) ==s "") || (mpGen (Profile c) ==? 0) then Some BErrProfile
  else if (ecID (Contract c) ==s "") || (ecGen (Contract c) ==? 0) then Some BErrContract
  else if negb ((RequiredEvidenceLevel c ==s "observed") || (RequiredEvidenceLevel c ==s "candidate") || (RequiredEvidenceLevel c ==s "validated"))
  then Some BErrEvidence
  else if ConsensusPolicy c ==s "" then Some BErrPolicy
  else None.

(** ** The store *)

Record kvBindingRuleState := RuleState {
  maxAllocated : Z;
  current : option KvExactBinding;
  live : gmap Z KvExactBinding
}.

Abbreviation bindingStore := (gmap string kvBindingRuleState).

Inductive genSearch := GenFree (gen : Z) | GenNone | GenFuel.

(** The loop of the allocator from [next], at most [fuel] rounds. *)
Fixpoint nextGen (fuel : nat) (used : gmap Z KvExactBinding) (maxA next : Z) : genSearch :=
  match fuel with
  | O => GenFuel
  | S fuel' =>
      let next := let n := u32 (next + 1) in if n ==? 0 then 1 else n in
      match used !! next with
      | None => GenFree next
      | Some _ => if next ==? maxA then GenNone else nextGen fuel' used maxA next
      end
  end.

Section Digest.
Context (hexSha256 : string -> string).

Definition kvBindingDigest (c : KvExactBindingComponents) : string := hexSha256 (bindingText c).

Definition KvBindingAllocate (ruleIdent : string) (comps : KvExactBindingComponents) (s : bindingStore) : (bindErr + KvExactBinding) * bindingStore :=
  if ruleIdent ==s "" then (inl BErrRule, s)
  else match kvValidateBindingComponents comps with
       | Some e => (inl e, s)
       | None =>
           let rs := default (RuleState 0 None ∅) (s !! ruleIdent) in
           match nextGen (S (size (live rs))) (live rs) (maxAllocated rs) (maxAllocated rs) with
           | GenFuel => (inl BErrFuel, <[ruleIdent := rs]> s)
           | GenNone => (inl BErrNoFree, <[ruleIdent := rs]> s)
           | GenFree next =>
               let b := Binding ruleIdent comps next (kvBindingDigest comps) in
               (inr b, <[ruleIdent := RuleState next (Some b) (<[next := b]> (live rs))]> s)
           end
       end.

Definition KvBindingCurrent (ruleIdent : string) (s : bindingStore) : option KvExactBinding :=
  match s !! ruleIdent with Some rs => current rs | None => None end.

Definition KvBindingResolve (ruleIdent : string) (gen : Z) (s : bindingStore) : option KvExactBinding :=
  match s !! ruleIdent with Some rs => live rs !! gen | None => None end.

Definition KvBindingVerify (ruleIdent : string) (gen : Z) (digest : string) (s : bindingStore) : bool :=
  match KvBindingResolve ruleIdent gen s with Some b => bDigest b ==s digest | None => false end.

Definition KvBindingRetire (ruleIdent : string) (gen : Z) (s : bindingStore) : option bindErr * bindingStore :=
  match s !! ruleIdent with
  | None => (Some BErrUnknownRule, s)
  | Some rs =>
      if match current rs with Some b => BindingGen b ==? gen | None => false end then (Some BErrIsCurrent, s)
      else match live rs !! gen with
           | None => (Some BErrNotLive, s)
           | Some _ => (None, <[ruleIdent := RuleState (maxAllocated rs) (current rs) (delete gen (live rs))]> s)
           end
  end.

Definition KvBindingDelete (ruleIdent : string) (s : bindingStore) : bindingStore := delete ruleIdent s.

Definition KvBindingReset (s : bindingStore) : bindingStore := ∅.

(** ** Persistence *)

Record KvExactBindingMod := BindingMod {
  mRuleIdent : string;
  ModelProfileID : string;
  ModelProfileGen : Z;
  EngineContractID : string;
  EngineContractGen : Z;
  mAttestationPolicyGen : Z;
  mRequiredEvidenceLevel : string;
  mConsensusPolicy : string;
  mBindingGen : Z;
  BindingDigest : string;
  MaxAllocatedGen : Z
}.

Definition exportRule (p : string * kvBindingRuleState) : option KvExactBindingMod :=
  match current p.2 with
  | None => None
  | Some b =>
      let c := bComps b in
      Some (BindingMod p.1 (mpID (Profile c)) (mpGen (Profile c)) (ecID (Contract c)) (ecGen (Contract c))
        (AttestationPolicyGen c) (RequiredEvidenceLevel c) (ConsensusPolicy c) (BindingGen b) (bDigest b) (maxAllocated p.2))
  end.

Definition modLe (a b : KvExactBindingMod) : Prop := String.le (mRuleIdent a) (mRuleIdent b).
#[export] Instance modLe_dec : RelDecision modLe.
Proof. unfold modLe. intros a b. apply _. Defined.

(** [iter] is the iteration over the rules. *)
Definition KvBindingExport (iter : list (string * kvBindingRuleState)) : list KvExactBindingMod :=
  merge_sort modLe (omap exportRule iter).

Definition modComps (m : KvExactBindingMod) : KvExactBindingComponents :=
  Components (ProfileRef (ModelProfileID m) (ModelProfileGen m)) (EngineRef (EngineContractID m) (EngineContractGen m))
    (mAttestationPolicyGen m) (mRequiredEvidenceLevel m) (mConsensusPolicy m).

(** The outcome, the store, and whether the install transaction and the wire
    rebinding are started: they are when the profile resolves in the published
    registry. *)
Definition KvBindingRestore (profileResolvable : string -> bool) (mod_ : option KvExactBindingMod) (s : bindingStore) : option bindErr * bindingStore * bool :=
  match mod_ with
  | None => (Some BErrRule, s, false)
  | Some m =>
      if mRuleIdent m ==s "" then (Some BErrRule, s, false)
      else if mBindingGen m ==? 0 then (Some BErrGenZero, s, false)
      else
        let comps := modComps m in
        match kvValidateBindingComponents comps with
        | Some e => (Some e, s, false)
        | None =>
            let digest := kvBindingDigest comps in
            if negb (digest ==s BindingDigest m) then (Some BErrDigest, s, false)
            else match s !! mRuleIdent m with
                 | Some existing =>
                     if match current existing with
                        | Some cur => (bDigest cur ==s digest) && (BindingGen cur ==? mBindingGen m)
                        | None => false
                        end
                     then (None, s, false) else (Some BErrConflict, s, false)
                 | None =>
                     let b := Binding (mRuleIdent m) comps (mBindingGen m) digest in
                     let maxAlloc := if MaxAllocatedGen m <? mBindingGen m then mBindingGen m else MaxAllocatedGen m in
                     (None, <[mRuleIdent m := RuleState maxAlloc (Some b) {[mBindingGen m := b]}]> s, profileResolvable (ModelProfileID m))
                 end
        end
  end.

End Digest.

(** ** The contract word *)

Definition KvTokErrRequest : Z := -1.
Definition KvTokErrUnsupported : Z := -2.
Definition KvTokErrProfile : Z := -3.
Definition KvTokErrRenderer : Z := -4.
Definition KvTokErrTokenizer : Z := -5.
Definition KvTokErrUnknown : Z := -6.
Definition KvTokErrNotReady : Z := -7.

Definition KvContractAPIBoth : Z := 0.
Definition KvContractAPICompletions : Z := 1.
Definition KvContractAPIChat : Z := 2.

Definition KvContractPack (bindingGen flags apiMode eligible : Z) : Z :=
  Z.lor (Z.lor (Z.lor (u64 (Z.shiftl bindingGen 32)) (u64 (Z.shiftl flags 16))) (u64 (Z.shiftl apiMode 8))) eligible.

Definition kvContractAPIModeByte (chat completions : bool) : Z :=
  if chat && completions then KvContractAPIBoth else if chat then KvContractAPIChat else KvContractAPICompletions.

Record kvSvcContract := SvcContract {
  scRule : string;
  scVip : string;
  scPort : Z;
  scProto : Z;
  scApi : Z;
  scDenied : bool;
  scFault : string;
  scLastAckAt : Z;   (* 0: never *)
  scLastApplied : Z
}.

Abbreviation contractStore := (gmap Z kvSvcContract).

Definition KvSvcContractRegister (svcID : Z) (ruleIdent vip : string) (port proto apiMode : Z) (cs : contractStore) : contractStore :=
  if (svcID ==? 0) || (ruleIdent ==s "") then cs
  else <[svcID := SvcContract ruleIdent vip port proto apiMode true "" 0 0]> cs.

Definition KvSvcContractDeregister (svcID : Z) (cs : contractStore) : contractStore := delete svcID cs.

Definition KvSvcContractReset (cs : contractStore) : contractStore := ∅.

Definition kvSvcDenied (svcID : Z) (cs : contractStore) : bool :=
  match cs !! svcID with Some c => scDenied c | None => false end.

Definition kvSvcRuleIdent (svcID : Z) (cs : contractStore) : option string := scRule <$> cs !! svcID.

(** [iter] is the iteration over the contracts. *)
Fixpoint kvSvcByRuleIdent (ruleIdent : string) (iter : list (Z * kvSvcContract)) : option Z :=
  match iter with
  | [] => None
  | (id, c) :: l => if scRule c ==s ruleIdent then Some id else kvSvcByRuleIdent ruleIdent l
  end.

Definition kvSvcContractFault (svcID : Z) (cs : contractStore) : string :=
  match cs !! svcID with Some c => scFault c | None => "" end.

Definition setOutcome (denied : bool) (fault : string) (c : kvSvcContract) : kvSvcContract :=
  SvcContract (scRule c) (scVip c) (scPort c) (scProto c) (scApi c) denied fault (scLastAckAt c) (scLastApplied c).

Definition kvSvcContractOutcome (svcID : Z) (denied : bool) (fault : string) (cs : contractStore) : contractStore :=
  match cs !! svcID with Some c => <[svcID := setOutcome denied fault c]> cs | None => cs end.

Definition setAck (now applied : Z) (c : kvSvcContract) : kvSvcContract :=
  SvcContract (scRule c) (scVip c) (scPort c) (scProto c) (scApi c) (scDenied c) (scFault c) now applied.

Definition kvSvcContractAckStamp (svcID now applied : Z) (cs : contractStore) : contractStore :=
  match cs !! svcID with Some c => <[svcID := setAck now applied c]> cs | None => cs end.

(** ** The install transaction *)

Inductive applyErr := ENoSetter | EBindingMissing | ESetterFailed | EAckMismatch | EBindingChanged.

Definition faultOf (e : applyErr) : string :=
  match e with
  | ENoSetter => "no_dataplane_setter"
  | EBindingMissing => "binding_state_missing"
  | ESetterFailed => "dataplane_setter_failed"
  | EAckMismatch => "dataplane_ack_mismatch"
  | EBindingChanged => "binding_changed_during_install"
  end.

(** Each critical section of an attempt is one step; other goroutines run in
    between.  [more] counts the attempts after this one. *)
Inductive applyPc :=
  | PSnap (more : nat) (last : option applyErr)
  | PBinding (more : nat) (snap : kvSvcContract)
  | PSetter (more : nat) (snap : kvSvcContract) (b : KvExactBinding)
  | PCurrent (more : nat) (snap : kvSvcContract) (b : KvExactBinding)
  | PVerify (more : nat) (snap : kvSvcContract) (b : KvExactBinding)
  | PFail (more : nat) (e : applyErr)       (* kvSvcContractOutcome svcID true *)
  | PClear (snap : kvSvcContract) (b : KvExactBinding)
  | PStamp (snap : kvSvcContract) (b : KvExactBinding)
  | PDone (res : option applyErr).

Record dpState := DpState { dpContracts : contractStore; dpBindings : bindingStore }.

Definition want (snap : kvSvcContract) (b : KvExactBinding) (eligible : Z) : Z := KvContractPack (BindingGen b) 0 (scApi snap) eligible.

(** [reply] is what the data plane answers a setter call with: the word read back
    and whether the call succeeded. *)
Definition applyStep (svcID eligible : Z) (reply : Z * bool) (now : Z) (pc : applyPc) (s : dpState) : applyPc * dpState :=
  match pc with
  | PSnap more _ =>
      match dpContracts s !! svcID with
      | None => (PDone None, s)
      | Some snap => (PBinding more snap, s)
      end
  | PBinding more snap =>
      match KvBindingCurrent (scRule snap) (dpBindings s) with
      | None => (PFail more EBindingMissing, s)
      | Some b => (PSetter more snap b, s)
      end
  | PSetter more snap b =>
      let '(applied, ok) := reply in
      if negb ok then (PFail more ESetterFailed, s)
      else if applied !=? want snap b eligible then (PFail more EAckMismatch, s)
      else (PCurrent more snap b, s)
  | PCurrent more snap b =>
      match KvBindingCurrent (scRule snap) (dpBindings s) with
      | None => (PFail more EBindingChanged, s)
      | Some cur => if BindingGen cur !=? BindingGen b then (PFail more EBindingChanged, s) else (PVerify more snap b, s)
      end
  | PVerify more snap b =>
      if KvBindingVerify (scRule snap) (BindingGen b) (bDigest b) (dpBindings s) then (PClear snap b, s)
      else (PFail more EBindingChanged, s)
  | PFail more e =>
      (match more with O => PDone (Some e) | S more' => PSnap more' (Some e) end,
       DpState (kvSvcContractOutcome svcID true (faultOf e) (dpContracts s)) (dpBindings s))
  | PClear snap b => (PStamp snap b, DpState (kvSvcContractOutcome svcID false "" (dpContracts s)) (dpBindings s))
  | PStamp snap b => (PDone None, DpState (kvSvcContractAckStamp svcID now (want snap b eligible) (dpContracts s)) (dpBindings s))
  | PDone _ => (pc, s)
  end.

(** Where a transaction starts: the missing setter is reported at once. *)
Definition applyStart (hasSetter : bool) (attempts : Z) : applyPc :=
  if negb hasSetter then PFail 0 ENoSetter
  else PSnap (Z.to_nat (if attempts <? 1 then 1 else attempts) - 1) None.

(** The transaction without interference: [replies] answers the setter calls. *)
Fixpoint applyRun (fuel : nat) (svcID eligible : Z) (reply : Z * Z * string * Z * Z * Z -> Z * bool) (now : Z) (pc : applyPc) (s : dpState)
    : option (option applyErr * dpState) :=
  match pc with
  | PDone r => Some (r, s)
  | _ =>
      match fuel with
      | O => None
      | S fuel' =>
          let ans := match pc with
                     | PSetter more snap b => reply (Z.of_nat more, BindingGen b, scVip snap, scPort snap, scProto snap, scApi snap)
                     | _ => (0, false)
                     end in
          let '(pc', s') := applyStep svcID eligible ans now pc s in
          applyRun fuel' svcID eligible reply now pc' s'
      end
  end.

Definition kvDataplaneContractApply (svcID : Z) (setter : option (Z * Z * string * Z * Z * Z -> Z * bool)) (attempts now eligible : Z) (s : dpState)
    : option (option applyErr * dpState) :=
  let pc := applyStart (match setter with Some _ => true | None => false end) attempts in
  applyRun (6 * Z.to_nat (Z.max 1 attempts) + 2) svcID eligible (default (fun _ => (0, false)) setter) now pc s.

Definition kvDataplaneContractInstall (svcID : Z) setter (attempts now : Z) (s : dpState) := kvDataplaneContractApply svcID setter attempts now 0 s.

(** ** The gate of the tokenize bridges *)

Definition kvBridgeBinding (svcID bindingGen : Z) (s : dpState) : option KvExactBinding * Z :=
  if (svcID !=? 0) && kvSvcDenied svcID (dpContracts s) then (None, KvTokErrNotReady)
  else if bindingGen ==? 0 then (None, 0)
  else match kvSvcRuleIdent svcID (dpContracts s) with
       | None => (None, KvTokErrProfile)
       | Some ident =>
           match KvBindingResolve ident bindingGen (dpBindings s) with
           | None => (None, KvTokErrProfile)
           | Some b => (Some b, 0)
           end
       end.

Definition kvBridgeGate (svcID bindingGen : Z) (s : dpState) : Z := (kvBridgeBinding svcID bindingGen s).2.
