(* ===== verification/KvBindingProps.v ===== *)
(** * KvBindingProps: generations are fresh, identities are proven, fences hold *)

From Stdlib Require Import DecimalString DecimalFacts DecimalPos DecimalN.
From stdpp Require Import sorting.
From S2P Require Import Prelude KvSelect KvInventory KvEngines KvStream KvBinding.

Open Scope Z_scope.
Open Scope igw_scope.

(** ** The allocation loop *)

(** Generations are 1 .. 2^32 - 1, in a circle. *)
Definition genMax : Z := two32 - 1.

Definition isGen (g : Z) : Prop := 1 <= g <= genMax.

Definition genAfter (m : Z) (k : nat) : Z := (m - 1 + Z.of_nat k) mod genMax + 1.

Lemma genAfter_gen m k : isGen (genAfter m k).
Proof. unfold isGen, genAfter, genMax, two32. pose proof (Z.mod_pos_bound (m - 1 + Z.of_nat k) (4294967296 - 1) ltac:(lia)). lia. Qed.

Lemma genAfter_0 m : isGen m -> genAfter m 0 = m.
Proof. unfold isGen, genAfter, genMax, two32. intros. rewrite Z.mod_small by lia. lia. Qed.

(** One increment of the loop. *)
Definition bump (next : Z) : Z := let n := u32 (next + 1) in if n ==? 0 then 1 else n.

Lemma bump_next m k : bump (genAfter m k) = genAfter m (S k).
Proof.
  pose proof (genAfter_gen m k) as Hg. unfold isGen, genMax, two32 in Hg. unfold bump, u32, two32.
  assert (genAfter m (S k) = (genAfter m k) mod genMax + 1) as ->.
  { unfold genAfter at 1 2. rewrite Zplus_mod_idemp_l. f_equal. f_equal. lia. }
  unfold genMax, two32. destruct (decide (genAfter m k = 4294967295)) as [->|Hne]; [done|].
  rewrite (Z.mod_small (genAfter m k)), (Z.mod_small (genAfter m k + 1)) by lia. zcase; lia.
Qed.

Lemma genAfter_inj m j k : (j < k)%nat -> Z.of_nat k - Z.of_nat j < genMax -> genAfter m j <> genAfter m k.
Proof.
  intros Hjk Hd E. unfold genAfter in E. assert ((m - 1 + Z.of_nat k - (m - 1 + Z.of_nat j)) mod genMax = 0) as H.
  { rewrite Zminus_mod. apply Z.add_cancel_r in E. rewrite E. by rewrite Z.sub_diag. }
  apply Z.mod_divide in H as [q Hq]; [|unfold genMax, two32; lia]. clear E. assert (0 < q * genMax < genMax) as Hr by (rewrite <- Hq; lia). unfold genMax, two32 in Hr. lia.
Qed.

(** The generations tried by the first [k] rounds. *)
Definition tried (m : Z) (k : nat) : list Z := genAfter m <$> seq 1 k.

Lemma tried_NoDup m k : Z.of_nat k <= genMax -> NoDup (tried m k).
Proof.
  intros Hk. apply NoDup_fmap_2_strong; [|apply NoDup_ListNoDup, seq_NoDup].
  intros i j Hi%elem_of_seq Hj%elem_of_seq E. destruct (decide (i = j)) as [|Hne]; [done|]. exfalso.
  destruct (decide (i < j)%nat); [apply (genAfter_inj m i j)|apply (genAfter_inj m j i)]; (done || lia).
Qed.

Lemma tried_S m k : tried m (S k) = tried m k ++ [genAfter m (S k)].
Proof. unfold tried. rewrite seq_S, fmap_app. done. Qed.

Lemma tried_live_size m k (used : gmap Z KvExactBinding) :
  Z.of_nat k <= genMax -> (forall g, g ∈ tried m k -> is_Some (used !! g)) -> (k <= size used)%nat.
Proof.
  intros Hk Hl. rewrite <- size_dom. transitivity (size (list_to_set (tried m k) : gset Z)).
  - rewrite size_list_to_set by by apply tried_NoDup. unfold tried. by rewrite length_fmap, length_seq.
  - apply subseteq_size. intros g Hg%elem_of_list_to_set. by apply elem_of_dom, Hl.
Qed.

Lemma tried_all m g : isGen m -> isGen g -> g ∈ tried m (Z.to_nat genMax).
Proof.
  intros Hm Hg. unfold isGen in *. apply list_elem_of_fmap.
  exists (Z.to_nat ((g - m - 1) mod genMax + 1)).
  pose proof (Z.mod_pos_bound (g - m - 1) genMax ltac:(unfold genMax, two32; lia)) as Hb. split; [|apply elem_of_seq; lia].
  unfold genAfter. rewrite Z2Nat.id by lia.
  replace (m - 1 + ((g - m - 1) mod genMax + 1)) with (m + (g - m - 1) mod genMax) by lia. rewrite Zplus_mod_idemp_r.
  replace (m + (g - m - 1)) with (g - 1) by lia. rewrite Z.mod_small by lia. lia.
Qed.

(** From the [k]-th round on, with the earlier generations taken. *)
Lemma nextGen_from fuel used m k :
  isGen m -> Z.of_nat k < genMax -> (forall g, g ∈ tried m k -> is_Some (used !! g)) -> (size used < fuel + k)%nat ->
  match nextGen fuel used m (genAfter m k) with
  | GenFree g => isGen g /\ used !! g = None
  | GenNone => forall g, isGen g -> is_Some (used !! g)
  | GenFuel => False
  end.
Proof.
  intros Hm. revert k. induction fuel as [|fuel IH]; intros k Hk Hl Hf; cbn [nextGen].
  { pose proof (tried_live_size m k used ltac:(lia) Hl). lia. }
  change (if u32 (genAfter m k + 1) ==? 0 then 1 else u32 (genAfter m k + 1)) with (bump (genAfter m k)). rewrite bump_next.
  destruct (used !! genAfter m (S k)) as [b|] eqn:E; [|split; [apply genAfter_gen|done]].
  assert (forall g, g ∈ tried m (S k) -> is_Some (used !! g)) as Hl'.
  { intros g. rewrite tried_S. intros [Hg|Hg]%elem_of_app; [by apply Hl|]. apply list_elem_of_singleton in Hg as ->. by rewrite E. }
  destruct (Z.eqb_spec (genAfter m (S k)) m) as [Hend|Hmore].
  - intros g Hg. apply Hl'. assert (S k = Z.to_nat genMax) as ->; [|by apply tried_all].
    destruct (decide (Z.of_nat (S k) < genMax)) as [Hlt|]; [|lia]. exfalso.
    apply (genAfter_inj m 0 (S k)); [lia|lia|]. by rewrite genAfter_0.
  - apply IH; [|done|lia]. destruct (decide (Z.of_nat (S k) = genMax)) as [He|]; [|lia]. exfalso. apply Hmore.
    unfold genAfter. rewrite He. replace (m - 1 + genMax) with (m - 1 + 1 * genMax) by lia. rewrite Z_mod_plus_full.
    unfold isGen, genMax, two32 in *. rewrite Z.mod_small by lia. lia.
Qed.

(** What the store keeps of one rule. *)
Definition allocOk (maxA : Z) (used : gmap Z KvExactBinding) : Prop := (maxA = 0 /\ used = ∅) \/ isGen maxA.

Lemma nextGen_ok used maxA : allocOk maxA used ->
  match nextGen (S (size used)) used maxA maxA with
  | GenFree g => isGen g /\ used !! g = None
  | GenNone => forall g, isGen g -> is_Some (used !! g)
  | GenFuel => False
  end.
Proof.
  intros [[-> ->]|Hm].
  - vm_compute. split; [split; congruence|done].
  - pose proof (nextGen_from (S (size used)) used maxA 0 Hm) as H. rewrite genAfter_0 in H by done. apply H; [unfold genMax, two32; lia| |lia].
    intros g Hg. unfold tried in Hg. simpl in Hg. by apply elem_of_nil in Hg.
Qed.

Section Store.
Context (hexSha256 : string -> string).
Local Abbreviation digest := (kvBindingDigest hexSha256).
Local Abbreviation allocate := (KvBindingAllocate hexSha256).
Local Abbreviation restore := (KvBindingRestore hexSha256).

(** ** The store's invariant *)

Record bindingOk (ident : string) (g : Z) (b : KvExactBinding) : Prop := {
  bo_gen : isGen g /\ BindingGen b = g;
  bo_rule : bRule b = ident;
  bo_digest : bDigest b = digest (bComps b);
  bo_valid : kvValidateBindingComponents (bComps b) = None
}.

Record ruleOk (ident : string) (rs : kvBindingRuleState) : Prop := {
  ro_named : ident <> ""%string;
  ro_alloc : allocOk (maxAllocated rs) (live rs);
  ro_live : forall g b, live rs !! g = Some b -> bindingOk ident g b;
  ro_cur : forall b, current rs = Some b -> live rs !! BindingGen b = Some b /\ BindingGen b <= maxAllocated rs
}.

Definition storeOk (s : bindingStore) : Prop := map_Forall ruleOk s.

(** The operations, and the widths the persisted document's fields have. *)
Inductive bindOp :=
  | OAllocate (ident : string) (c : KvExactBindingComponents)
  | ORetire (ident : string) (gen : Z)
  | ODelete (ident : string)
  | ORestore (m : KvExactBindingMod)
  | OReset.

Definition opTyped (op : bindOp) : Prop :=
  match op with ORestore m => 0 <= mBindingGen m < two32 /\ 0 <= MaxAllocatedGen m < two32 | _ => True end.

Definition bindDo (resolvable : string -> bool) (s : bindingStore) (op : bindOp) : bindingStore :=
  match op with
  | OAllocate ident c => (allocate ident c s).2
  | ORetire ident gen => (KvBindingRetire ident gen s).2
  | ODelete ident => KvBindingDelete ident s
  | ORestore m => (restore resolvable (Some m) s).1.2
  | OReset => KvBindingReset s
  end.

(** A rule's state, empty when there is none. *)
Definition ruleState (ident : string) (s : bindingStore) : kvBindingRuleState := default (RuleState 0 None ∅) (s !! ident).

Lemma ruleState_ok ident s : ident <> ""%string -> storeOk s -> ruleOk ident (ruleState ident s).
Proof.
  intros Hi Hs. unfold ruleState. destruct (s !! ident) as [rs|] eqn:E; [by apply Hs in E|]. simpl. split; simpl; [done|left; done|done|done].
Qed.

Lemma resolve_ruleState ident g s : KvBindingResolve ident g s = live (ruleState ident s) !! g.
Proof. unfold KvBindingResolve, ruleState. by destruct (s !! ident). Qed.

(** A successful allocation, spelled out. *)
Lemma allocate_spec ident c s : storeOk s ->
  let '(r, s') := allocate ident c s in
  match r with
  | inr b =>
      ident <> ""%string /\ kvValidateBindingComponents c = None /\ isGen (BindingGen b) /\
      b = Binding ident c (BindingGen b) (digest c) /\ KvBindingResolve ident (BindingGen b) s = None /\
      s' = <[ident := RuleState (BindingGen b) (Some b) (<[BindingGen b := b]> (live (ruleState ident s)))]> s
  | inl BErrFuel => False
  | inl BErrNoFree => (forall g, isGen g -> is_Some (KvBindingResolve ident g s)) /\ s' = <[ident := ruleState ident s]> s
  | inl BErrRule => ident = ""%string /\ s' = s
  | inl e => kvValidateBindingComponents c = Some e /\ s' = s
  end.
Proof.
  intros Hs. unfold KvBindingAllocate. fold (ruleState ident s). destruct (String.eqb_spec ident "") as [|Hi]; [done|].
  destruct (kvValidateBindingComponents c) as [e|] eqn:Ev.
  { assert (e = BErrProfile \/ e = BErrContract \/ e = BErrEvidence \/ e = BErrPolicy) as He.
    { unfold kvValidateBindingComponents in Ev. repeat (case_match; try (injection Ev as <-; tauto)). done. }
    by destruct He as [-> | [-> | [-> | ->]]]. }
  pose proof (ruleState_ok ident s Hi Hs) as Hr. pose proof (nextGen_ok _ _ (ro_alloc _ _ Hr)) as Hn.
  destruct (nextGen _ _ _ _) as [g| |]; [|split; [|done]|done].
  - simpl. destruct Hn as [Hg Hfree]. rewrite resolve_ruleState. done.
  - intros g Hg. rewrite resolve_ruleState. by apply Hn.
Qed.

Lemma bindDo_ok resolvable op s : opTyped op -> storeOk s -> storeOk (bindDo resolvable s op).
Proof.
  intros Ht Hs. destruct op as [ident c|ident gen|ident|m|]; cbn [bindDo].
  - pose proof (allocate_spec ident c s Hs) as H. destruct (allocate ident c s) as [[e|b] s']; simpl.
    + assert (storeOk (<[ident := ruleState ident s]> s) \/ ident = ""%string) as Hk.
      { destruct (decide (ident = ""%string)); [by right|left]. apply map_Forall_insert_2; [by apply ruleState_ok|done]. }
      destruct e; try (destruct H as [_ ->]; done); try done.
      destruct H as [H ->]. destruct Hk as [| ->]; [done|]. destruct (H 1) as [b Hb]; [unfold isGen, genMax, two32; lia|].
      rewrite resolve_ruleState in Hb. unfold ruleState in Hb. destruct (s !! ""%string) as [rs|] eqn:E; [|done].
      apply Hs in E as [? _ _ _]. done.
    + destruct H as (Hi & Hv & Hg & Hb & Hfree & ->). pose proof (ruleState_ok ident s Hi Hs) as [_ Ha Hl Hc].
      apply map_Forall_insert_2; [|done]. split; simpl; [done|by right| |].
      * intros g b' [[<- <-]|[Hne Hb']]%lookup_insert_Some; [|by apply Hl].
        rewrite Hb. split; simpl; [done|done|done|done].
      * intros b' [= <-]. rewrite lookup_insert_eq. split; [done|lia].
  - unfold KvBindingRetire. destruct (s !! ident) as [rs|] eqn:E; [|done]. pose proof (Hs _ _ E) as [Hi Ha Hl Hc].
    destruct (match current rs with Some b => BindingGen b ==? gen | None => false end) eqn:Ecur; [done|].
    destruct (live rs !! gen) eqn:El; [|done]. simpl. apply map_Forall_insert_2; [|done]. split; simpl; [done| | |].
    + destruct Ha as [[_ E0]|Ha]; [by rewrite E0, lookup_empty in El|by right].
    + intros g b' [_ Hb]%lookup_delete_Some. by apply Hl.
    + intros b' Hb'. destruct (Hc b' Hb') as [H1 H2]. rewrite Hb' in Ecur. split; [|done]. rewrite lookup_delete_ne; [done|]. apply Z.eqb_neq in Ecur. congruence.
  - by apply map_Forall_delete.
  - unfold KvBindingRestore. destruct (String.eqb_spec (mRuleIdent m) "") as [|Hi]; [done|].
    destruct (Z.eqb_spec (mBindingGen m) 0) as [|Hg]; [done|]. destruct (kvValidateBindingComponents _) eqn:Ev; [done|].
    destruct (String.eqb_spec (digest (modComps m)) (BindingDigest m)) as [Hd|]; [|done]. cbn [negb].
    destruct (s !! mRuleIdent m) as [ex|] eqn:E; [by case_match|]. simpl. destruct Ht as [Ht1 Ht2].
    apply map_Forall_insert_2; [|done]. split; simpl; [done| | |].
    + right. unfold isGen, genMax. zcase; lia.
    + intros g b [<- <-]%lookup_singleton_Some. split; simpl; [|done|done|done]. split; [unfold isGen, genMax; lia|done].
    + intros b [= <-]. simpl. rewrite lookup_singleton_eq. split; [done|]. zcase; lia.
  - by apply map_Forall_empty.
Qed.

(** C35: allocating a generation always ends, with a fresh one. The search never
    needs more rounds than the rule has live generations, plus one: it yields a
    generation from 1 to 2^32 - 1 that resolves to nothing yet, also after the
    counter has wrapped, or refuses because every generation is live; the binding
    it installs becomes the rule's current one, and no other generation of any
    rule changes its meaning. *)
Theorem allocation_terminates_fresh ident c s :
  storeOk s ->
  let '(r, s') := allocate ident c s in
  match r with
  | inr b =>
      isGen (BindingGen b) /\ KvBindingResolve ident (BindingGen b) s = None /\
      KvBindingCurrent ident s' = Some b /\ KvBindingResolve ident (BindingGen b) s' = Some b /\ bComps b = c /\
      forall ident' g, (ident', g) <> (ident, BindingGen b) -> KvBindingResolve ident' g s' = KvBindingResolve ident' g s
  | inl BErrFuel => False
  | inl BErrNoFree => forall g, isGen g -> is_Some (KvBindingResolve ident g s)
  | inl _ => (ident = ""%string \/ kvValidateBindingComponents c <> None) /\ s' = s
  end.
Proof.
  intros Hs. pose proof (allocate_spec ident c s Hs) as H. destruct (allocate ident c s) as [[e|b] s'].
  - destruct e; try done; try (destruct H as [H ->]; split; [right; congruence|done]).
    + destruct H as [-> ->]. split; [by left|done].
    + apply H.
  - destruct H as (Hi & _ & Hg & Hb & Hfree & ->). unfold KvBindingCurrent. split; [done|]. split; [done|].
    split; [by rewrite lookup_insert_eq|]. split.
    { rewrite resolve_ruleState. unfold ruleState. by rewrite lookup_insert_eq; simpl; rewrite lookup_insert_eq. }
    split; [by rewrite Hb|]. intros ident' g Hne. rewrite !resolve_ruleState. unfold ruleState at 1.
    destruct (decide (ident' = ident)) as [->|]; [|by rewrite lookup_insert_ne].
    rewrite lookup_insert_eq. simpl. rewrite lookup_insert_ne; congruence.
Qed.

(** The operations that take a generation away. *)
Definition retires (ident : string) (g : Z) (op : bindOp) : Prop :=
  op = ORetire ident g \/ op = ODelete ident \/ op = OReset.

(** The generation an operation issues for a rule. *)
Definition issued (ident : string) (op : bindOp) (s : bindingStore) : option Z :=
  match op with
  | OAllocate i c => if decide (i = ident) then match (allocate i c s).1 with inr b => Some (BindingGen b) | inl _ => None end else None
  | _ => None
  end.

Lemma bindDo_keeps resolvable op s ident g b :
  storeOk s -> KvBindingResolve ident g s = Some b -> ~ retires ident g op ->
  KvBindingResolve ident g (bindDo resolvable s op) = Some b /\ issued ident op s <> Some g.
Proof.
  intros Hs Hr Hn. destruct op as [i c|i gen|i|m|]; cbn [bindDo issued].
  - pose proof (allocate_spec i c s Hs) as H. destruct (allocate i c s) as [[e|b'] s']; simpl.
    + split; [|by case_decide]. assert (KvBindingResolve ident g (<[i := ruleState i s]> s) = Some b) as Hk.
      { rewrite resolve_ruleState in *. unfold ruleState at 1. destruct (decide (ident = i)) as [->|]; [by rewrite lookup_insert_eq|by rewrite lookup_insert_ne]. }
      destruct e; try done; destruct H as [? ?]; subst; done.
    + destruct H as (_ & _ & _ & _ & Hfree & ->). rewrite resolve_ruleState in *. unfold ruleState at 1. destruct (decide (i = ident)) as [->|Hne].
      * assert (BindingGen b' <> g) as Hg by (intros <-; congruence). rewrite lookup_insert_eq. simpl. rewrite lookup_insert_ne by done.
        split; [done|congruence].
      * split; [by rewrite lookup_insert_ne|done].
  - split; [|done]. unfold KvBindingRetire. destruct (s !! i) as [rs|] eqn:E; [|done]. destruct (match current rs with Some b => _ | None => false end); [done|].
    destruct (live rs !! gen) eqn:El; [|done]. simpl. unfold KvBindingResolve in *. destruct (decide (ident = i)) as [->|Hne].
    + rewrite lookup_insert_eq. simpl. rewrite E in Hr. rewrite lookup_delete_ne; [done|]. intros ->. apply Hn. by left.
    + by rewrite lookup_insert_ne.
  - split; [|done]. unfold KvBindingResolve, KvBindingDelete in *. rewrite lookup_delete_ne; [done|]. intros ->. apply Hn. right; by left.
  - split; [|done]. unfold KvBindingRestore. destruct (mRuleIdent m ==s ""); [done|]. destruct (mBindingGen m ==? 0); [done|].
    destruct (kvValidateBindingComponents _); [done|]. destruct (negb _); [done|].
    destruct (s !! mRuleIdent m) as [ex|] eqn:E; [by case_match|]. simpl. unfold KvBindingResolve in *.
    rewrite lookup_insert_ne; [done|]. intros <-. by rewrite E in Hr.
  - exfalso. apply Hn. right; by right.
Qed.

Lemma run_keeps resolvable ops s ident g b :
  storeOk s -> Forall opTyped ops -> Forall (fun op => ~ retires ident g op) ops -> KvBindingResolve ident g s = Some b ->
  storeOk (foldl (bindDo resolvable) s ops) /\ KvBindingResolve ident g (foldl (bindDo resolvable) s ops) = Some b.
Proof.
  intros Hs Ht Hn Hr. revert s Hs Hr. induction ops as [|op ops IH]; intros s Hs Hr; [done|].
  apply Forall_cons in Ht as [Ht1 Ht2]. apply Forall_cons in Hn as [Hn1 Hn2].
  apply IH; [done|done|by apply bindDo_ok|]. by apply bindDo_keeps.
Qed.

(** C28: a generation in use keeps its meaning. Through any sequence of
    allocations, retirements, deletions and restores, of this rule and of others,
    a generation that resolves to a binding goes on resolving to that same binding
    until it is retired or its rule is deleted, and meanwhile no allocation issues
    it again. *)
Theorem live_generation_keeps_meaning resolvable ops s ident g b :
  storeOk s -> Forall opTyped ops -> Forall (fun op => ~ retires ident g op) ops -> KvBindingResolve ident g s = Some b ->
  KvBindingResolve ident g (foldl (bindDo resolvable) s ops) = Some b /\
  forall pre op post, ops = pre ++ op :: post -> issued ident op (foldl (bindDo resolvable) s pre) <> Some g.
Proof.
  intros Hs Ht Hn Hr. split; [by apply run_keeps|]. intros pre op post ->. apply Forall_app in Ht as [Ht _]. apply Forall_app in Hn as [Hn1 Hn2].
  apply Forall_cons in Hn2 as [Hn2 _]. destruct (run_keeps resolvable pre s ident g b Hs Ht Hn1 Hr) as [Hs' Hr']. by eapply bindDo_keeps.
Qed.

(** ** Identity *)

Fixpoint nulFree (s : string) : bool :=
  match s with EmptyString => true | String c s' => negb (Ascii.eqb c Ascii.zero) && nulFree s' end.

Lemma cut_at_nul a b x y :
  nulFree a = true -> nulFree b = true -> (a ++ nul ++ x = b ++ nul ++ y)%string -> a = b /\ x = y.
Proof.
  revert b. induction a as [|c a IH]; intros [|d b] Ha Hb E; simpl in *.
  - by injection E.
  - injection E as <- _. by rewrite Ascii.eqb_refl in Hb.
  - injection E as -> _. by rewrite Ascii.eqb_refl in Ha.
  - injection E as -> E. apply andb_true_iff in Ha as [_ Ha]. apply andb_true_iff in Hb as [_ Hb]. destruct (IH b Ha Hb E) as [-> ->]. done.
Qed.

Lemma fmtD_nulFree n : nulFree (fmtD n) = true.
Proof.
  unfold fmtD, NilZero.string_of_uint. assert (forall u, nulFree (NilEmpty.string_of_uint u) = true) as H.
  { induction u; simpl; done. }
  destruct (N.to_uint (Z.to_N n)) eqn:E; (done || (rewrite <- E; apply H)).
Qed.

Lemma to_uint_nonnil n : N.to_uint n <> Decimal.Nil.
Proof. destruct n as [|p]; [done|]. apply DecimalPos.Unsigned.to_uint_nonnil. Qed.

Lemma fmtD_inj m n : 0 <= m -> 0 <= n -> fmtD m = fmtD n -> m = n.
Proof.
  intros Hm Hn E. unfold fmtD in E. apply (f_equal NilZero.uint_of_string) in E.
  rewrite !NilZero.usu in E by apply to_uint_nonnil.
  injection E as E. apply DecimalN.Unsigned.to_uint_inj in E. lia.
Qed.

(** Components as the profile registry and the contract registry name them. *)
Record plainComps (c : KvExactBindingComponents) : Prop := {
  pc_profile : nulFree (mpID (Profile c)) = true;
  pc_contract : nulFree (ecID (Contract c)) = true;
  pc_evidence : nulFree (RequiredEvidenceLevel c) = true;
  pc_policy : nulFree (ConsensusPolicy c) = true;
  pc_gens : 0 <= mpGen (Profile c) /\ 0 <= ecGen (Contract c) /\ 0 <= AttestationPolicyGen c
}.

Lemma concat_cons sep x y l : String.concat sep (x :: y :: l) = (x ++ sep ++ String.concat sep (y :: l))%string.
Proof. done. Qed.

(** The digested text determines every component. *)
Lemma bindingText_inj c d : plainComps c -> plainComps d -> bindingText c = bindingText d -> c = d.
Proof.
  intros [C1 C2 C3 C4 (C5 & C6 & C7)] [D1 D2 D3 D4 (D5 & D6 & D7)]. unfold bindingText. rewrite !concat_cons. intros E.
  repeat match type of E with
  | (_ ++ nul ++ _ = _)%string =>
      let H := fresh "H" in apply cut_at_nul in E as [H E]; [| (done || apply fmtD_nulFree) | (done || apply fmtD_nulFree)]
  end.
  destruct c as [[p1 g1] [e1 h1] a1 l1 q1], d as [[p2 g2] [e2 h2] a2 l2 q2]. simpl in *. subst.
  repeat match goal with H : fmtD _ = fmtD _ |- _ => apply fmtD_inj in H; [|lia|lia] end. by subst.
Qed.

(** An acknowledged generation is an identity. When a generation and the
    digest of the components a caller has in mind verify against the store, the
    binding the generation resolves to has exactly those components, field by
    field, provided the hash does not collide on the two texts: a reused or
    mistaken handle never passes for another binding. *)
Theorem verified_generation_is_identity ident g c b s :
  storeOk s -> plainComps c -> KvBindingResolve ident g s = Some b -> plainComps (bComps b) ->
  (hexSha256 (bindingText (bComps b)) = hexSha256 (bindingText c) -> bindingText (bComps b) = bindingText c) ->
  KvBindingVerify ident g (digest c) s = true ->
  bComps b = c /\ bRule b = ident /\ BindingGen b = g.
Proof.
  intros Hs Hc Hr Hb Hcoll Hv. unfold KvBindingVerify in Hv. rewrite Hr in Hv. apply String.eqb_eq in Hv.
  rewrite resolve_ruleState in Hr. unfold ruleState in Hr. destruct (s !! ident) as [rs|] eqn:E; [|done].
  apply Hs in E. destruct (ro_live _ _ E g b Hr) as [[_ Hg] Hi Hd _]. split; [|done].
  apply bindingText_inj; [done|done|]. apply Hcoll. unfold kvBindingDigest in *. congruence.
Qed.

(** ** Persistence *)

(** What a restart keeps of a rule: its current binding and the high-water mark. *)
Definition afterRestart (rs : kvBindingRuleState) : option kvBindingRuleState :=
  match current rs with Some b => Some (RuleState (maxAllocated rs) (Some b) {[BindingGen b := b]}) | None => None end.

Definition restoreAll (resolvable : string -> bool) (ms : list KvExactBindingMod) (s : bindingStore) : list (option bindErr) * bindingStore :=
  foldl (fun '(es, s) m => let '(e, s', _) := restore resolvable (Some m) s in (es ++ [e], s')) ([], s) ms.

Lemma restore_exported resolvable ident rs m s :
  ruleOk ident rs -> exportRule (ident, rs) = Some m -> s !! ident = None ->
  exists rs' kick, afterRestart rs = Some rs' /\ mRuleIdent m = ident /\ restore resolvable (Some m) s = (None, <[ident := rs']> s, kick).
Proof.
  intros Hr. unfold exportRule, afterRestart. cbn [fst snd]. destruct (current rs) as [b|] eqn:Ec; [|done]. intros [= <-] Hfresh.
  destruct Hr as [Hi Ha Hl Hc]. destruct (Hc b Ec) as [Hb Hle]. destruct (Hl _ _ Hb) as [[Hg _] Hrule Hd Hv].
  unfold KvBindingRestore. cbn [mRuleIdent mBindingGen BindingDigest MaxAllocatedGen ModelProfileID].
  assert (modComps (BindingMod ident (mpID (Profile (bComps b))) (mpGen (Profile (bComps b))) (ecID (Contract (bComps b)))
    (ecGen (Contract (bComps b))) (AttestationPolicyGen (bComps b)) (RequiredEvidenceLevel (bComps b)) (ConsensusPolicy (bComps b))
    (BindingGen b) (bDigest b) (maxAllocated rs)) = bComps b) as -> by (by destruct b as [? [[] [] ? ? ?] ? ?]).
  destruct (String.eqb_spec ident ""); [done|]. destruct (Z.eqb_spec (BindingGen b) 0); [unfold isGen in Hg; lia|].
  rewrite Hv, <- Hd, String.eqb_refl, Hfresh. cbn [negb]. eexists _, _. split; [done|]. split; [done|]. f_equal. f_equal. f_equal.
  replace (if maxAllocated rs <? BindingGen b then BindingGen b else maxAllocated rs) with (maxAllocated rs) by (zcase; lia).
  replace (Binding ident (bComps b) (BindingGen b) (bDigest b)) with b by (destruct b; simpl in *; congruence). done.
Qed.

Lemma restoreAll_cons resolvable m ms s :
  restoreAll resolvable (m :: ms) s =
  let '(e, s', _) := restore resolvable (Some m) s in
  let '(es, s2) := restoreAll resolvable ms s' in (e :: es, s2).
Proof.
  unfold restoreAll. cbn [foldl]. destruct (restore resolvable (Some m) s) as [[e s'] k]. cbn [app].
  assert (forall l es0 s0, foldl (fun '(es, s) m => let '(e, s', _) := restore resolvable (Some m) s in (es ++ [e], s')) (es0, s0) l =
    (es0 ++ (restoreAll resolvable l s0).1, (restoreAll resolvable l s0).2)) as H.
  { unfold restoreAll. induction l as [|x l IH] using rev_ind; intros es0 s0; [by simpl; rewrite app_nil_r|].
    rewrite !foldl_app, IH. cbn [foldl]. destruct (foldl _ ([], s0) l) as [es1 s1]. cbn [fst snd].
    destruct (restore resolvable (Some x) s1) as [[e1 s1'] k1]. cbn [fst snd]. by rewrite app_assoc. }
  rewrite H. fold (restoreAll resolvable ms s'). by destruct (restoreAll resolvable ms s').
Qed.

(** Restoring the documents of distinct rules into a store without them. *)
Lemma restoreAll_spec resolvable (src : bindingStore) ms s :
  storeOk src -> NoDup (mRuleIdent <$> ms) ->
  (forall m, m ∈ ms -> s !! mRuleIdent m = None /\ exists rs, src !! mRuleIdent m = Some rs /\ exportRule (mRuleIdent m, rs) = Some m) ->
  let '(es, s') := restoreAll resolvable ms s in
  Forall (eq None) es /\
  (forall m rs, m ∈ ms -> src !! mRuleIdent m = Some rs -> s' !! mRuleIdent m = afterRestart rs) /\
  (forall i, i ∉ mRuleIdent <$> ms -> s' !! i = s !! i).
Proof.
  intros Hsrc. revert s. induction ms as [|m ms IH]; intros s Hn Hm; [split; [constructor|]; split; [set_solver|done]|].
  rewrite fmap_cons in Hn. apply NoDup_cons in Hn as [Hm1 Hn]. destruct (Hm m) as (Hfresh & rs & Hrs & Hex); [set_solver|].
  destruct (restore_exported resolvable _ rs m s (Hsrc _ _ Hrs) Hex Hfresh) as (rs' & k & Har & _ & Hre).
  rewrite restoreAll_cons, Hre. specialize (IH (<[mRuleIdent m := rs']> s) Hn).
  destruct (restoreAll resolvable ms _) as [es s2]. destruct IH as (H1 & H2 & H3).
  { intros m' Hm'. destruct (Hm m') as [Hf Hx]; [set_solver|]. split; [|done]. rewrite lookup_insert_ne; [done|]. intros E. apply Hm1. rewrite E.
    by apply list_elem_of_fmap_2. }
  split; [by constructor|]. split.
  - intros m' rs2 [->|Hm']%elem_of_cons Hrs2; [|by apply H2]. rewrite H3 by done. rewrite lookup_insert_eq. congruence.
  - intros i Hi. rewrite fmap_cons in Hi. rewrite H3 by set_solver. rewrite lookup_insert_ne; [done|set_solver].
Qed.

Lemma exported_iff (src : bindingStore) m :
  m ∈ KvBindingExport (map_to_list src) <-> exists rs, src !! mRuleIdent m = Some rs /\ exportRule (mRuleIdent m, rs) = Some m.
Proof.
  unfold KvBindingExport. rewrite merge_sort_Permutation, list_elem_of_omap. split.
  - intros ([i rs] & Hin%elem_of_map_to_list & Hex). assert (mRuleIdent m = i) as ->; [|eauto].
    unfold exportRule in Hex. cbn [fst snd] in Hex. destruct (current rs); [|done]. by injection Hex as <-.
  - intros (rs & Hrs & Hex). exists (mRuleIdent m, rs). by rewrite elem_of_map_to_list.
Qed.

Lemma exported_NoDup (src : bindingStore) : NoDup (mRuleIdent <$> KvBindingExport (map_to_list src)).
Proof.
  unfold KvBindingExport. rewrite merge_sort_Permutation.
  pose proof (NoDup_fst_map_to_list src) as Hn. induction (map_to_list src) as [|[i rs] l IH]; [constructor|].
  rewrite fmap_cons in Hn. apply NoDup_cons in Hn as [Hi Hn]. cbn [omap list_omap]. destruct (exportRule (i, rs)) as [m|] eqn:E; [|by apply IH].
  rewrite fmap_cons. constructor; [|by apply IH].
  assert (forall p m', exportRule p = Some m' -> mRuleIdent m' = p.1) as Hid.
  { intros p m'. unfold exportRule. destruct (current p.2); [|done]. by intros [= <-]. }
  rewrite (Hid _ _ E). intros (m' & Hm' & (p & Hp & Hex)%list_elem_of_omap)%list_elem_of_fmap. apply Hi. simpl in *.
  rewrite Hm', (Hid _ _ Hex). by apply list_elem_of_fmap_2.
Qed.

(** Persistence round trip. Exporting a store and restoring the documents into
    an empty one succeeds for every rule; each rule that had a current binding has
    it again, under the same generation, with the same allocation mark, and the
    others are absent. A second replay of the same documents changes nothing. *)
Theorem export_restore_roundtrip resolvable (src : bindingStore) :
  storeOk src ->
  let docs := KvBindingExport (map_to_list src) in
  let '(es, s) := restoreAll resolvable docs ∅ in
  Forall (eq None) es /\
  (forall ident, s !! ident = src !! ident ≫= afterRestart) /\
  (forall ident, KvBindingCurrent ident s = KvBindingCurrent ident src) /\
  (forall m, m ∈ docs -> restore resolvable (Some m) s = (None, s, false)).
Proof.
  intros Hs. cbv zeta. pose proof (restoreAll_spec resolvable src (KvBindingExport (map_to_list src)) ∅ Hs (exported_NoDup src)) as H.
  destruct (restoreAll _ _ ∅) as [es s]. destruct H as (H1 & H2 & H3).
  { intros m Hm. split; [apply lookup_empty|]. by apply exported_iff. }
  assert (forall ident, s !! ident = src !! ident ≫= afterRestart) as Hl.
  { intros ident. destruct (decide (ident ∈ mRuleIdent <$> KvBindingExport (map_to_list src))) as [(m & -> & Hm)%list_elem_of_fmap|Hn].
    - pose proof (proj1 (exported_iff src m) Hm) as (rs & Hrs & Hex). rewrite (H2 m rs Hm Hrs), Hrs. done.
    - rewrite H3 by done. rewrite lookup_empty. destruct (src !! ident) as [rs|] eqn:E; [|done]. simpl. unfold afterRestart.
      destruct (current rs) as [b|] eqn:Ec; [|done]. exfalso. apply Hn.
      destruct (exportRule (ident, rs)) as [m|] eqn:Ex; [|by unfold exportRule in Ex; cbn [snd] in Ex; rewrite Ec in Ex].
      assert (mRuleIdent m = ident) as <- by (unfold exportRule in Ex; cbn [fst snd] in Ex; rewrite Ec in Ex; by injection Ex as <-).
      apply list_elem_of_fmap_2, exported_iff. eauto. }
  split; [done|]. split; [done|]. split.
  { intros ident. unfold KvBindingCurrent. rewrite Hl. destruct (src !! ident) as [rs|]; [|done]. simpl. unfold afterRestart. by destruct (current rs). }
  intros m Hm. pose proof (proj1 (exported_iff src m) Hm) as (rs & Hrs & Hex).
  destruct (restore_exported resolvable _ rs m ∅ (Hs _ _ Hrs) Hex (lookup_empty _)) as (rs' & k & Har & _ & Hre).
  revert Hre. unfold KvBindingRestore. destruct (mRuleIdent m ==s ""); [done|]. destruct (mBindingGen m ==? 0); [done|].
  destruct (kvValidateBindingComponents _); [done|]. destruct (negb _) eqn:Eneg; [done|]. rewrite lookup_empty, Hl, Hrs. simpl. rewrite Har.
  intros E. apply (f_equal (fun p => p.1.2 !! mRuleIdent m)) in E. simpl in E. rewrite !lookup_insert_eq in E. injection E as <-. simpl.
  by rewrite String.eqb_refl, Z.eqb_refl.
Qed.

End Store.

(** ** A store to try them on *)

Definition demoComps (gen : Z) : KvExactBindingComponents :=
  Components (ProfileRef "llama-3" gen) (EngineRef "vllm-kv-map-v2" 1) 1 "validated" "all".

Definition echo (s : string) : string := s.

Definition demoBinding (g : Z) : KvExactBinding := Binding "r1" (demoComps 1) g (kvBindingDigest echo (demoComps 1)).

(** A rule whose counter is about to wrap, with generation 1 still live. *)
Definition wrapStore : bindingStore :=
  {[ "r1"%string := RuleState 4294967295 (Some (demoBinding 4294967295)) (<[4294967295 := demoBinding 4294967295]> {[1 := demoBinding 1]}) ]}.

Lemma wrapStore_ok : storeOk echo wrapStore.
Proof.
  unfold storeOk, wrapStore. apply map_Forall_singleton. split; simpl.
  - discriminate.
  - right. unfold isGen, genMax, two32. lia.
  - assert (forall g, isGen g -> bindingOk echo "r1" g (demoBinding g)) as Hb by (intros g Hg; split; [done|reflexivity|reflexivity|reflexivity]).
    intros g b [[<- <-]|[_ [<- <-]%lookup_singleton_Some]]%lookup_insert_Some; apply Hb; unfold isGen, genMax, two32; lia.
  - intros b [= <-]. split; [reflexivity|simpl; lia].
Qed.

Lemma allocation_witness :
  exists b s', KvBindingAllocate echo "r1" (demoComps 2) wrapStore = (inr b, s') /\ BindingGen b = 2 /\ KvBindingCurrent "r1" s' = Some b.
Proof.
  pose proof (allocation_terminates_fresh echo "r1" (demoComps 2) wrapStore wrapStore_ok) as H.
  destruct (KvBindingAllocate echo "r1" (demoComps 2) wrapStore) as [[e|b] s'] eqn:E; [vm_compute in E; discriminate E|].
  exists b, s'. split; [reflexivity|]. split; [vm_compute in E; injection E as <- _; reflexivity|apply H].
Defined.

Lemma live_generation_witness :
  let s' := foldl (bindDo echo (fun _ => true)) wrapStore [OAllocate "r1" (demoComps 2); ORetire "r1" 4294967295; ODelete "r2"] in
  KvBindingResolve "r1" 1 s' = Some (demoBinding 1).
Proof.
  apply (live_generation_keeps_meaning echo (fun _ => true) [OAllocate "r1" (demoComps 2); ORetire "r1" 4294967295; ODelete "r2"] wrapStore "r1" 1 (demoBinding 1) wrapStore_ok).
  - repeat constructor.
  - repeat constructor; intros [H|[H|H]]; discriminate H.
  - reflexivity.
Defined.

Lemma verified_generation_witness : KvBindingVerify "r1" 1 (kvBindingDigest echo (demoComps 1)) wrapStore = true /\ bComps (demoBinding 1) = demoComps 1.
Proof.
  assert (KvBindingVerify "r1" 1 (kvBindingDigest echo (demoComps 1)) wrapStore = true) as Hv by (vm_compute; reflexivity).
  assert (plainComps (demoComps 1)) as Hp by (split; [reflexivity..|simpl; lia]).
  split; [exact Hv|]. apply (verified_generation_is_identity echo "r1" 1 (demoComps 1) (demoBinding 1) wrapStore wrapStore_ok Hp); [reflexivity|exact Hp|done|exact Hv].
Defined.

Lemma export_restore_witness :
  (restoreAll echo (fun _ => true) (KvBindingExport (map_to_list wrapStore)) ∅).2 !! "r1"%string =
  Some (RuleState 4294967295 (Some (demoBinding 4294967295)) {[4294967295 := demoBinding 4294967295]}).
Proof.
  pose proof (export_restore_roundtrip echo (fun _ => true) wrapStore wrapStore_ok) as H. cbv zeta in H.
  destruct (restoreAll echo _ _ ∅) as [es s]. destruct H as (_ & H & _). simpl. rewrite H. reflexivity.
Defined.
