(* ===== verification/KvContractProps.v ===== *)
(** * KvContractProps: the contract word, its installation and the fence *)

From S2P Require Import Prelude KvSelect KvInventory KvEngines KvStream KvBinding KvBindingProps.

Open Scope Z_scope.
Open Scope igw_scope.

(** ** The word *)

Lemma land_shifted x n y : 0 <= n -> 0 <= y < 2 ^ n -> Z.land (Z.shiftl x n) y = 0.
Proof.
  intros Hn Hy. apply Z.bits_inj_0. intros i. rewrite Z.land_spec. destruct (Z.lt_ge_cases i n) as [Hlt|Hge].
  - destruct (Z.lt_ge_cases i 0); [by rewrite !Z.testbit_neg_r|]. by rewrite Z.shiftl_spec_low.
  - destruct (Z.eq_dec y 0) as [->|]; [by rewrite Z.bits_0, andb_false_r|].
    rewrite (Z.bits_above_log2 y); [apply andb_false_r|lia|]. apply (Z.lt_le_trans _ n); [|done]. apply Z.log2_lt_pow2; lia.
Qed.

Lemma lor_add x n y : 0 <= n -> 0 <= y < 2 ^ n -> Z.lor (Z.shiftl x n) y = x * 2 ^ n + y.
Proof.
  intros Hn Hy. rewrite <- Z.shiftl_mul_pow2 by done. pose proof (land_shifted x n y Hn Hy) as H.
  rewrite (Z.add_nocarry_lxor _ _ H). symmetry. by apply Z.lxor_lor.
Qed.

(** The widths of the word's fields. *)
Definition wordFields (gen flags api el : Z) : Prop := 0 <= gen < two32 /\ 0 <= flags < 65536 /\ 0 <= api < 256 /\ 0 <= el < 256.

Lemma pack_sum gen flags api el : wordFields gen flags api el ->
  KvContractPack gen flags api el = gen * 4294967296 + (flags * 65536 + (api * 256 + el)).
Proof.
  unfold wordFields, two32. intros (Hg & Hf & Ha & He). unfold KvContractPack, u64, two64.
  rewrite (Z.mod_small (Z.shiftl gen 32)) by (rewrite Z.shiftl_mul_pow2; lia).
  rewrite (Z.mod_small (Z.shiftl flags 16)) by (rewrite Z.shiftl_mul_pow2; lia).
  rewrite (Z.mod_small (Z.shiftl api 8)) by (rewrite Z.shiftl_mul_pow2; lia).
  rewrite <- !Z.lor_assoc. rewrite (lor_add api 8 el) by lia. change (2 ^ 8) with 256.
  rewrite (lor_add flags 16) by lia. change (2 ^ 16) with 65536. rewrite (lor_add gen 32) by lia. done.
Qed.

(** The contract word carries its fields. The four fields do not overlap and
    fill 64 bits: each is read back by the shift and mask the data plane uses, and
    two words are equal only if all fields are. *)
Theorem contract_word_roundtrip gen flags api el gen' flags' api' el' :
  wordFields gen flags api el -> wordFields gen' flags' api' el' ->
  let w := KvContractPack gen flags api el in
  0 <= w < two64 /\ Z.shiftr w 32 = gen /\ Z.land (Z.shiftr w 16) 65535 = flags /\
  Z.land (Z.shiftr w 8) 255 = api /\ Z.land w 255 = el /\
  (w = KvContractPack gen' flags' api' el' -> (gen, flags, api, el) = (gen', flags', api', el')).
Proof.
  intros H H'. cbv zeta. rewrite (pack_sum _ _ _ _ H), (pack_sum _ _ _ _ H'). unfold wordFields, two32, two64 in *.
  change 65535 with (Z.ones 16). change 255 with (Z.ones 8). rewrite !Z.land_ones, !Z.shiftr_div_pow2 by lia.
  change (2 ^ 32) with 4294967296. change (2 ^ 16) with 65536. change (2 ^ 8) with 256.
  set (lo := api * 256 + el). set (mid := flags * 65536 + lo).
  assert ((gen * 4294967296 + mid) / 4294967296 = gen) as E1 by (rewrite Z.div_add_l by lia; rewrite Z.div_small; lia).
  assert ((gen * 4294967296 + mid) / 65536 = gen * 65536 + flags) as E2.
  { replace (gen * 4294967296 + mid) with ((gen * 65536 + flags) * 65536 + lo) by lia. rewrite Z.div_add_l by lia. rewrite Z.div_small; lia. }
  assert ((gen * 4294967296 + mid) / 256 = (gen * 16777216 + flags * 256) + api) as E3.
  { replace (gen * 4294967296 + mid) with ((gen * 16777216 + flags * 256 + api) * 256 + el) by lia. rewrite Z.div_add_l by lia. rewrite Z.div_small; lia. }
  split; [lia|]. split; [done|]. split; [rewrite E2, Z.add_comm, Z_mod_plus_full, Z.mod_small; lia|].
  split; [rewrite E3; replace (gen * 16777216 + flags * 256 + api) with (api + (gen * 65536 + flags) * 256) by lia; rewrite Z_mod_plus_full, Z.mod_small; lia|].
  split; [replace (gen * 4294967296 + mid) with (el + (gen * 16777216 + flags * 256 + api) * 256) by lia; rewrite Z_mod_plus_full, Z.mod_small; lia|].
  intros E. assert (gen = gen') by lia. assert (flags = flags') by lia. assert (api = api') by lia. assert (el = el') by lia. congruence.
Qed.

Lemma contract_word_witness : Z.shiftr (KvContractPack 7 0 2 1) 32 = 7 /\ Z.land (KvContractPack 7 0 2 1) 255 = 1.
Proof.
  destruct (contract_word_roundtrip 7 0 2 1 7 0 2 1) as (_ & H1 & _ & _ & H2 & _); [unfold wordFields, two32; lia..|]. split; [exact H1|exact H2].
Defined.

(** ** One transaction, undisturbed *)

Definition setterFn : Type := Z * Z * string * Z * Z * Z -> Z * bool.

(** The data plane's answer to the attempt with [more] attempts left. *)
Definition answer (reply : setterFn) (snap : kvSvcContract) (b : KvExactBinding) (more : nat) : Z * bool :=
  reply (Z.of_nat more, BindingGen b, scVip snap, scPort snap, scProto snap, scApi snap).

(** How one attempt of a registered rule ends. *)
Definition attemptError (reply : setterFn) (eligible : Z) (c : kvSvcContract) (bs : bindingStore) (more : nat) : option applyErr :=
  match KvBindingCurrent (scRule c) bs with
  | None => Some EBindingMissing
  | Some b =>
      let '(applied, ok) := answer reply c b more in
      if negb ok then Some ESetterFailed
      else if applied !=? want c b eligible then Some EAckMismatch
      else if KvBindingVerify (scRule c) (BindingGen b) (bDigest b) bs then None else Some EBindingChanged
  end.

(** Attempts run until one succeeds; the last error stands otherwise. *)
Fixpoint attempts_spec (reply : setterFn) (eligible : Z) (c : kvSvcContract) (bs : bindingStore) (more : nat) : option applyErr :=
  match attemptError reply eligible c bs more with
  | None => None
  | Some e => match more with O => Some e | S more' => attempts_spec reply eligible c bs more' end
  end.

Definition ackedContract (now eligible : Z) (bs : bindingStore) (c : kvSvcContract) : kvSvcContract :=
  match KvBindingCurrent (scRule c) bs with
  | Some b => setAck now (want c b eligible) (setOutcome false "" c)
  | None => c
  end.

Definition finishContract (r : option applyErr) (now eligible : Z) (bs : bindingStore) (c : kvSvcContract) : kvSvcContract :=
  match r with Some e => setOutcome true (faultOf e) c | None => ackedContract now eligible bs c end.

(** Two contracts that differ in the outcome of earlier attempts only. *)
Definition sameDeclared (c d : kvSvcContract) : Prop :=
  scRule c = scRule d /\ scVip c = scVip d /\ scPort c = scPort d /\ scProto c = scProto d /\ scApi c = scApi d /\
  scLastAckAt c = scLastAckAt d /\ scLastApplied c = scLastApplied d.

Lemma attempts_same reply eligible c d bs more : sameDeclared c d -> attempts_spec reply eligible c bs more = attempts_spec reply eligible d bs more.
Proof.
  intros (E1 & E2 & E3 & E4 & E5 & _). induction more as [|more IH]; simpl; unfold attemptError, answer, want; rewrite E1, E2, E3, E4, E5;
    destruct (KvBindingCurrent _ bs) as [b|]; try done; by rewrite ?IH.
Qed.

Lemma applyRun_done fuel svcID eligible reply now r s : applyRun fuel svcID eligible reply now (PDone r) s = Some (r, s).
Proof. by destruct fuel. Qed.

(** One step of a run. *)
Definition stepAnswer (reply : setterFn) (pc : applyPc) : Z * bool :=
  match pc with PSetter more snap b => answer reply snap b more | _ => (0, false) end.

Lemma applyRun_step fuel svcID eligible reply now pc s pc' s' :
  (forall r, pc <> PDone r) -> applyStep svcID eligible (stepAnswer reply pc) now pc s = (pc', s') ->
  applyRun (S fuel) svcID eligible reply now pc s = applyRun fuel svcID eligible reply now pc' s'.
Proof.
  intros Hd E. destruct pc; cbn [applyRun stepAnswer] in *; unfold answer in E; try (by rewrite E). by destruct (Hd res).
Qed.

Ltac run1_with E := erewrite applyRun_step; [|discriminate|cbn [stepAnswer applyStep dpContracts dpBindings]; rewrite E; reflexivity].

(** The run of one attempt, from the snapshot on. *)
Lemma attempt_run fuel svcID eligible reply now more last s c :
  dpContracts s !! svcID = Some c -> (7 <= fuel)%nat ->
  applyRun fuel svcID eligible reply now (PSnap more last) s =
  match attemptError reply eligible c (dpBindings s) more with
  | None => Some (None, DpState (<[svcID := ackedContract now eligible (dpBindings s) c]> (dpContracts s)) (dpBindings s))
  | Some e =>
      let s' := DpState (<[svcID := setOutcome true (faultOf e) c]> (dpContracts s)) (dpBindings s) in
      match more with
      | O => Some (Some e, s')
      | S more' =>
          let used := match e with EBindingMissing => 3 | EBindingChanged => 6 | _ => 4 end%nat in
          applyRun (fuel - used) svcID eligible reply now (PSnap more' (Some e)) s'
      end
  end.
Proof.
  intros Hc Hf. assert (exists f, fuel = 7 + f)%nat as [f ->] by (exists (fuel - 7)%nat; lia). clear Hf. destruct s as [cs bs].
  cbn [dpContracts dpBindings] in *. cbn [plus].
  assert (forall k more' e f', more = more' -> applyRun (S f') svcID eligible reply now (PFail more' e) (DpState cs bs) =
    match more with
    | O => Some (Some e, DpState (<[svcID := setOutcome true (faultOf e) c]> cs) bs)
    | S m => applyRun (k + f' - k) svcID eligible reply now (PSnap m (Some e)) (DpState (<[svcID := setOutcome true (faultOf e) c]> cs) bs)
    end) as Hfail.
  { intros k more' e f' <-. erewrite applyRun_step; [|discriminate|reflexivity]. cbn [dpContracts dpBindings]. unfold kvSvcContractOutcome. rewrite Hc.
    destruct more; [by rewrite applyRun_done|]. f_equal. lia. }
  run1_with Hc. unfold attemptError, ackedContract. destruct (KvBindingCurrent (scRule c) bs) as [b|] eqn:Eb.
  2:{ run1_with Eb. rewrite (Hfail 3%nat more) by done. destruct more; [done|]. f_equal; lia. }
  run1_with Eb. destruct (answer reply c b more) as [applied ok] eqn:Ea. destruct ok; cbn [negb].
  2:{ run1_with Ea. cbn [negb]. rewrite (Hfail 4%nat more) by done. destruct more; [done|]. f_equal; lia. }
  destruct (applied !=? want c b eligible) eqn:Ew.
  { erewrite applyRun_step; [|discriminate|cbn [stepAnswer applyStep]; rewrite Ea; cbn [negb]; rewrite Ew; reflexivity].
    rewrite (Hfail 4%nat more) by done. destruct more; [done|]. f_equal; lia. }
  erewrite applyRun_step; [|discriminate|cbn [stepAnswer applyStep]; rewrite Ea; cbn [negb]; rewrite Ew; reflexivity].
  erewrite applyRun_step; [|discriminate|cbn [applyStep dpBindings]; rewrite Eb, Z.eqb_refl; reflexivity].
  destruct (KvBindingVerify _ _ _ bs) eqn:Ev; run1_with Ev.
  - do 2 (erewrite applyRun_step; [|discriminate|reflexivity]). cbn [dpContracts dpBindings].
    unfold kvSvcContractOutcome, kvSvcContractAckStamp. rewrite Hc, lookup_insert_eq, insert_insert_eq. apply applyRun_done.
  - rewrite (Hfail 6%nat more) by done. destruct more; [done|]. f_equal; lia.
Qed.

Lemma attempts_run fuel svcID eligible reply now more last s c :
  dpContracts s !! svcID = Some c -> (6 * more + 7 <= fuel)%nat ->
  let r := attempts_spec reply eligible c (dpBindings s) more in
  exists c', applyRun fuel svcID eligible reply now (PSnap more last) s = Some (r, DpState (<[svcID := c']> (dpContracts s)) (dpBindings s)) /\
    match r with
    | Some e => c' = setOutcome true (faultOf e) c
    | None => c' = ackedContract now eligible (dpBindings s) c /\ is_Some (KvBindingCurrent (scRule c) (dpBindings s))
    end.
Proof.
  revert fuel last s c. induction more as [|more IH]; intros fuel last s c Hc Hf; cbv zeta; rewrite (attempt_run _ _ _ _ _ _ _ _ c Hc) by lia; cbn [attempts_spec].
  - destruct (attemptError reply eligible c (dpBindings s) 0) as [e|] eqn:Ea; [by eauto|]. eexists. split; [done|]. split; [done|].
    unfold attemptError in Ea. by destruct (KvBindingCurrent _ _).
  - destruct (attemptError reply eligible c (dpBindings s) (S more)) as [e|] eqn:Ea.
    + set (s' := DpState _ (dpBindings s)). destruct (IH (fuel - match e with EBindingMissing => 3 | EBindingChanged => 6 | _ => 4 end)%nat (Some e) s' (setOutcome true (faultOf e) c))
        as (c' & Hrun & Hres); [apply lookup_insert_eq|destruct e; lia|]. cbv zeta in *. rewrite Hrun. cbn [dpContracts dpBindings s'] in *.
      assert (attempts_spec reply eligible (setOutcome true (faultOf e) c) (dpBindings s) more = attempts_spec reply eligible c (dpBindings s) more) as E by by apply attempts_same.
      rewrite E in *. exists c'. rewrite insert_insert_eq. split; [done|]. destruct (attempts_spec _ _ _ _ _); [by rewrite Hres|].
      destruct Hres as [-> Hb]. split; [|done]. unfold ackedContract. cbn [scRule setOutcome] in *. by destruct (KvBindingCurrent _ _); [|by destruct Hb].
    + eexists. split; [done|]. split; [done|]. unfold attemptError in Ea. by destruct (KvBindingCurrent _ _).
Qed.

Lemma attempts_none reply eligible c bs more :
  attempts_spec reply eligible c bs more = None <-> exists k, (k <= more)%nat /\ attemptError reply eligible c bs k = None.
Proof.
  induction more as [|more IH]; simpl.
  - split; [destruct (attemptError reply eligible c bs 0) eqn:E; [done|eauto]|]. intros (k & Hk & E). assert (k = 0%nat) as -> by lia. by rewrite E.
  - destruct (attemptError reply eligible c bs (S more)) as [e|] eqn:E; [|split; [by eauto|done]]. rewrite IH. split; intros (k & Hk & Ek); [eauto with lia|].
    destruct (decide (k = S more)) as [->|]; [congruence|]. exists k. split; [lia|done].
Qed.

(** Only a full acknowledgement lifts the fence. An undisturbed install always
    returns. For a registered rule it succeeds exactly when, at one of its
    attempts, the rule has a current binding that verifies and the data plane
    reads back the very word that was asked for; then the rule is not denied and
    the acknowledged word is on record. Otherwise, also without a setter, the rule
    is denied with the fault of the last attempt. Other rules and the bindings are
    never touched; a rule that is not registered is left alone. *)
Theorem install_lifts_fence_on_full_ack svcID setter attempts now eligible s :
  exists r cs', kvDataplaneContractApply svcID setter attempts now eligible s = Some (r, DpState cs' (dpBindings s)) /\
  (forall id, id <> svcID -> cs' !! id = dpContracts s !! id) /\
  match dpContracts s !! svcID with
  | None => cs' !! svcID = None /\ (is_Some setter -> r = None)
  | Some c =>
      exists c', cs' !! svcID = Some c' /\
      (r = None <-> exists reply b k, setter = Some reply /\ Z.of_nat k < Z.max 1 attempts /\
         KvBindingCurrent (scRule c) (dpBindings s) = Some b /\ answer reply c b k = (want c b eligible, true) /\
         KvBindingVerify (scRule c) (BindingGen b) (bDigest b) (dpBindings s) = true) /\
      match r with
      | None => scDenied c' = false /\ (exists b, KvBindingCurrent (scRule c) (dpBindings s) = Some b /\ scLastApplied c' = want c b eligible) /\ scLastAckAt c' = now
      | Some e => scDenied c' = true /\ scFault c' = faultOf e /\ scLastApplied c' = scLastApplied c
      end
  end.
Proof.
  unfold kvDataplaneContractApply, applyStart. destruct setter as [reply|]; cbn [negb default].
  2:{ assert (forall n, applyRun (n + 2) svcID eligible (fun _ => (0, false)) now (PFail 0 ENoSetter) s =
        Some (Some ENoSetter, DpState (kvSvcContractOutcome svcID true (faultOf ENoSetter) (dpContracts s)) (dpBindings s))) as Hrun.
      { intros n. rewrite Nat.add_comm. cbn [plus applyRun applyStep]. by rewrite ?applyRun_done. }
      eexists _, _. split; [apply Hrun|]. unfold kvSvcContractOutcome. destruct (dpContracts s !! svcID) as [c|] eqn:Ec.
      - split; [intros id Hid; by rewrite lookup_insert_ne|]. eexists. split; [apply lookup_insert_eq|]. split; [|done]. split; [done|].
        intros (rp & b & k & H & _). discriminate H.
      - split; [done|]. split; [done|]. by intros [].
  }
  assert ((if attempts <? 1 then 1 else attempts) = Z.max 1 attempts) as -> by (zcase; lia). set (n := Z.max 1 attempts).
  destruct (dpContracts s !! svcID) as [c|] eqn:Ec.
  - destruct (attempts_run (6 * Z.to_nat n + 2) svcID eligible reply now (Z.to_nat n - 1) None s c Ec ltac:(lia)) as (c' & Hrun & Hres). cbv zeta in *.
    eexists _, _. split; [exact Hrun|]. split; [intros id Hid; by rewrite lookup_insert_ne|].
    exists c'. split; [by rewrite lookup_insert_eq|]. split.
    + rewrite attempts_none. split.
      * intros (k & Hk & E). unfold attemptError in E. destruct (KvBindingCurrent (scRule c) (dpBindings s)) as [b|] eqn:Eb; [|done].
        destruct (answer reply c b k) as [ap ok] eqn:Ea. destruct ok; [|done]. cbn [negb] in E. destruct (Z.eqb_spec ap (want c b eligible)) as [->|]; [|done]. cbn [negb] in E.
        destruct (KvBindingVerify _ _ _ _) eqn:Ev; [|done]. exists reply, b, k. split; [done|]. split; [lia|]. done.
      * intros (rp & b & k & [= <-] & Hk & Eb & Ea & Ev). exists k. split; [lia|]. unfold attemptError. rewrite Eb, Ea, Ev, Z.eqb_refl. done.
    + destruct (attempts_spec _ _ _ _ _) as [e|]; [subst c'; done|]. destruct Hres as [-> [b Hb]]. unfold ackedContract. rewrite Hb. cbn. eauto 6.
  - exists None, (dpContracts s). rewrite (Nat.add_comm _ 2). cbn [plus applyRun applyStep]. rewrite Ec. rewrite ?applyRun_done. destruct s; cbn in *. split; [reflexivity|]. split; [done|]. by split.
Qed.

(** ** Transactions among other goroutines *)

Record applyThread := ApplyThread { tSvc : Z; tEligible : Z; tPc : applyPc }.

Record dpSystem := DpSystem { sysDp : dpState; sysThreads : gmap nat applyThread }.

(** The gateway: transactions start and take steps with any reply of the data
    plane; rules are registered and torn down; bindings change in any way. *)
Inductive sysLabel :=
| SysSpawn (t : nat) (svcID eligible : Z) (hasSetter : bool) (attempts : Z)
| SysRun (t : nat) (reply : Z * bool) (now : Z)
| SysRegister (svcID : Z) (ident vip : string) (port proto api : Z)
| SysDeregister (svcID : Z)
| SysBindings (bs : bindingStore).

Definition sysExec (y : dpSystem) (l : sysLabel) : option dpSystem :=
  match l with
  | SysSpawn t svcID eligible hasSetter attempts =>
      match sysThreads y !! t with
      | None => Some (DpSystem (sysDp y) (<[t := ApplyThread svcID eligible (applyStart hasSetter attempts)]> (sysThreads y)))
      | Some _ => None
      end
  | SysRun t reply now =>
      match sysThreads y !! t with
      | Some th =>
          let '(pc', dp') := applyStep (tSvc th) (tEligible th) reply now (tPc th) (sysDp y) in
          Some (DpSystem dp' (<[t := ApplyThread (tSvc th) (tEligible th) pc']> (sysThreads y)))
      | None => None
      end
  | SysRegister svcID ident vip port proto api =>
      Some (DpSystem (DpState (KvSvcContractRegister svcID ident vip port proto api (dpContracts (sysDp y))) (dpBindings (sysDp y))) (sysThreads y))
  | SysDeregister svcID => Some (DpSystem (DpState (KvSvcContractDeregister svcID (dpContracts (sysDp y))) (dpBindings (sysDp y))) (sysThreads y))
  | SysBindings bs => Some (DpSystem (DpState (dpContracts (sysDp y)) bs) (sysThreads y))
  end.

Fixpoint sysRun (y : dpSystem) (ls : list sysLabel) : option dpSystem :=
  match ls with
  | [] => Some y
  | l :: ls => match sysExec y l with Some y' => sysRun y' ls | None => None end
  end.

Lemma sysRun_snoc y ls l : sysRun y (ls ++ [l]) = match sysRun y ls with Some y' => sysExec y' l | None => None end.
Proof.
  revert y. induction ls as [|l0 ls IH]; intros y; cbn [app sysRun]; [by destruct (sysExec y l)|]. destruct (sysExec y l0); [apply IH|done].
Qed.

(** What one goroutine did in a run: at each of its steps, where it was, the
    contracts and bindings of the gateway at that moment, and the reply. *)
Record threadStep := TStep { tsPc : applyPc; tsDp : dpState; tsReply : Z * bool }.

Definition stepAt (t : nat) (y : dpSystem) (l : sysLabel) : list threadStep :=
  match l, sysThreads y !! t with
  | SysRun t' reply _, Some th => if (t' =? t)%nat then [TStep (tPc th) (sysDp y) reply] else []
  | _, _ => []
  end.

Fixpoint stepsOf (t : nat) (y : dpSystem) (ls : list sysLabel) : list threadStep :=
  match ls with
  | [] => []
  | l :: ls => stepAt t y l ++ match sysExec y l with Some y' => stepsOf t y' ls | None => [] end
  end.

Lemma stepsOf_snoc t y ls l y' : sysRun y ls = Some y' -> stepsOf t y (ls ++ [l]) = stepsOf t y ls ++ stepAt t y' l.
Proof.
  revert y. induction ls as [|l0 ls IH]; intros y; cbn [app sysRun stepsOf]; [intros [= ->]; by destruct (sysExec y' l); rewrite app_nil_r|].
  destruct (sysExec y l0) as [y1|]; [|done]. intros H. by rewrite (IH y1 H), app_assoc.
Qed.

(** The steps of an attempt, each with what it found in the gateway. *)
Definition snapped (svc : Z) (more : nat) (snap : kvSvcContract) (h : list threadStep) : Prop :=
  exists older last s r, h = older ++ [TStep (PSnap more last) s r] /\ dpContracts s !! svc = Some snap.
Definition bound (svc : Z) (more : nat) (snap : kvSvcContract) (b : KvExactBinding) (h : list threadStep) : Prop :=
  exists h' s r, h = h' ++ [TStep (PBinding more snap) s r] /\ snapped svc more snap h' /\
    KvBindingCurrent (scRule snap) (dpBindings s) = Some b.
Definition readBack (svc eligible : Z) (more : nat) (snap : kvSvcContract) (b : KvExactBinding) (h : list threadStep) : Prop :=
  exists h' s, h = h' ++ [TStep (PSetter more snap b) s (want snap b eligible, true)] /\ bound svc more snap b h'.
Definition stillCurrent (svc eligible : Z) (more : nat) (snap : kvSvcContract) (b : KvExactBinding) (h : list threadStep) : Prop :=
  exists h' s r cur, h = h' ++ [TStep (PCurrent more snap b) s r] /\ readBack svc eligible more snap b h' /\
    KvBindingCurrent (scRule snap) (dpBindings s) = Some cur /\ BindingGen cur = BindingGen b.
Definition verified (svc eligible : Z) (snap : kvSvcContract) (b : KvExactBinding) (h : list threadStep) : Prop :=
  exists h' more s r, h = h' ++ [TStep (PVerify more snap b) s r] /\ stillCurrent svc eligible more snap b h' /\
    KvBindingVerify (scRule snap) (BindingGen b) (bDigest b) (dpBindings s) = true.

(** What the steps of a goroutine show at each point of its transaction. *)
Definition threadOk (th : applyThread) (h : list threadStep) : Prop :=
  match tPc th with
  | PBinding more snap => snapped (tSvc th) more snap h
  | PSetter more snap b => bound (tSvc th) more snap b h
  | PCurrent more snap b => readBack (tSvc th) (tEligible th) more snap b h
  | PVerify more snap b => stillCurrent (tSvc th) (tEligible th) more snap b h
  | PClear snap b => verified (tSvc th) (tEligible th) snap b h
  | _ => True
  end.

Lemma applyStep_ok svcID eligible reply now pc s pc' s' h :
  threadOk (ApplyThread svcID eligible pc) h -> applyStep svcID eligible reply now pc s = (pc', s') ->
  threadOk (ApplyThread svcID eligible pc') (h ++ [TStep pc s reply]).
Proof.
  unfold threadOk. cbn [tPc tSvc tEligible]. intros H E. destruct pc; cbn [applyStep] in E.
  - destruct (dpContracts s !! svcID) as [c|] eqn:Ec; injection E as <- <-; [|done]. unfold snapped. eauto 10.
  - destruct (KvBindingCurrent _ _) as [b|] eqn:Eb; injection E as <- <-; [|done]. unfold bound. eauto 10.
  - destruct reply as [ap ok]. destruct ok; cbn [negb] in E; [|by injection E as <- <-].
    destruct (Z.eqb_spec ap (want snap b eligible)) as [->|]; injection E as <- <-; [|done]. unfold readBack. eauto.
  - destruct (KvBindingCurrent _ _) as [cur|] eqn:Ec; [|by injection E as <- <-].
    destruct (Z.eqb_spec (BindingGen cur) (BindingGen b)); injection E as <- <-; [|done]. unfold stillCurrent. eauto 10.
  - destruct (KvBindingVerify _ _ _ _) eqn:Ev; injection E as <- <-; [|done]. unfold verified. eauto 10.
  - injection E as <- <-. by destruct more.
  - injection E as <- <-. done.
  - injection E as <- <-. done.
  - injection E as <- <-. done.
Qed.

Definition sysOk (y0 : dpSystem) (ls : list sysLabel) (y : dpSystem) : Prop :=
  forall t th, sysThreads y !! t = Some th -> threadOk th (stepsOf t y0 ls).

Lemma sysRun_ok y0 ls y : sysThreads y0 = ∅ -> sysRun y0 ls = Some y -> sysOk y0 ls y.
Proof.
  intros H0. revert y. induction ls as [|l ls IH] using rev_ind; intros y Hr.
  { injection Hr as <-. intros t th Ht. by rewrite H0, lookup_empty in Ht. }
  rewrite sysRun_snoc in Hr. destruct (sysRun y0 ls) as [y1|] eqn:E1; [|done]. specialize (IH y1 eq_refl).
  intros t th Ht. rewrite (stepsOf_snoc t y0 ls l y1 E1).
  destruct l as [t' svcID el hs att|t' reply now| | |]; cbn [sysExec] in Hr.
  - destruct (sysThreads y1 !! t') eqn:Et; [done|]. injection Hr as <-. cbn [sysThreads] in Ht.
    assert (stepAt t y1 (SysSpawn t' svcID el hs att) = []) as -> by (cbn; by destruct (sysThreads y1 !! t)). rewrite app_nil_r.
    apply lookup_insert_Some in Ht as [[<- <-]|[_ Ht]]; [|by apply IH]. unfold threadOk, applyStart. by destruct hs.
  - destruct (sysThreads y1 !! t') as [th1|] eqn:Et; [|done]. destruct (applyStep _ _ _ _ _ _) as [pc' dp'] eqn:Es. injection Hr as <-. cbn [sysThreads] in Ht.
    unfold stepAt. apply lookup_insert_Some in Ht as [[<- <-]|[Hne Ht]].
    + rewrite Et, Nat.eqb_refl. specialize (IH t' th1 Et). destruct th1 as [svc el pc]. by eapply applyStep_ok.
    + rewrite Ht. destruct (Nat.eqb_spec t' t); [done|]. rewrite app_nil_r. by apply IH.
  - injection Hr as <-. cbn. destruct (sysThreads y1 !! t); rewrite app_nil_r; by apply IH.
  - injection Hr as <-. cbn. destruct (sysThreads y1 !! t); rewrite app_nil_r; by apply IH.
  - injection Hr as <-. cbn. destruct (sysThreads y1 !! t); rewrite app_nil_r; by apply IH.
Qed.

(** A step of a transaction changes the deny flag of its own rule only, and clears
    it at [PClear] only. *)
Lemma applyStep_denied svcID eligible reply now pc s pc' s' svc :
  applyStep svcID eligible reply now pc s = (pc', s') -> kvSvcDenied svc (dpContracts s) = true -> kvSvcDenied svc (dpContracts s') = false ->
  svc = svcID /\ exists snap b, pc = PClear snap b.
Proof.
  assert (forall d f cs, (svc = svcID -> d = true) -> kvSvcDenied svc cs = true -> kvSvcDenied svc (kvSvcContractOutcome svcID d f cs) = true) as Hout.
  { intros d f cs Hd Hden. unfold kvSvcContractOutcome, kvSvcDenied in *. destruct (cs !! svcID) as [c|] eqn:E; [|done].
    destruct (decide (svc = svcID)) as [->|]; [rewrite lookup_insert_eq; by apply Hd|by rewrite lookup_insert_ne]. }
  assert (forall n w cs, kvSvcDenied svc (kvSvcContractAckStamp svcID n w cs) = kvSvcDenied svc cs) as Hack.
  { intros n w cs. unfold kvSvcContractAckStamp, kvSvcDenied. destruct (cs !! svcID) as [c|] eqn:E; [|done].
    destruct (decide (svc = svcID)) as [->|]; [by rewrite lookup_insert_eq, E|by rewrite lookup_insert_ne]. }
  intros E Hd Hd'. destruct pc; cbn [applyStep] in E.
  - destruct (dpContracts s !! svcID); injection E as <- <-; congruence.
  - destruct (KvBindingCurrent _ _); injection E as <- <-; congruence.
  - destruct reply as [ap ok]. destruct (negb ok); [injection E as <- <-; congruence|]. destruct (_ !=? _); injection E as <- <-; congruence.
  - destruct (KvBindingCurrent _ _); [destruct (_ !=? _)|]; injection E as <- <-; congruence.
  - destruct (KvBindingVerify _ _ _ _); injection E as <- <-; congruence.
  - injection E as _ <-. cbn [dpContracts] in Hd'. rewrite Hout in Hd'; done.
  - injection E as _ <-. cbn [dpContracts] in Hd'. split; [|eauto]. destruct (decide (svc = svcID)); [done|]. rewrite Hout in Hd'; done.
  - injection E as _ <-. cbn [dpContracts] in Hd'. rewrite Hack in Hd'. congruence.
  - injection E as <- <-. congruence.
Qed.

(** C6: in every interleaving, a fence falls to evidence only.  However the steps of
    many goroutines' transactions, registrations, teardowns and binding changes
    interleave, a step that lets a denied, still registered rule through is a step
    of a transaction for that rule whose last five steps, one attempt, were: it
    found the rule's contract registered and took it as its snapshot; it found the
    snapshot's rule currently bound; the data plane answered its call with success
    and exactly the word of that binding, API and eligibility; it found the rule
    currently bound under the same generation; and it found the binding's digest
    verified.  Each of these is stated of the contracts and bindings of the gateway
    at the moment of the step, and of the reply it got. *)
Theorem fence_falls_to_evidence_only y0 ls y l y' svc :
  sysThreads y0 = ∅ -> sysRun y0 ls = Some y -> sysExec y l = Some y' ->
  kvSvcDenied svc (dpContracts (sysDp y)) = true -> kvSvcDenied svc (dpContracts (sysDp y')) = false ->
  is_Some (dpContracts (sysDp y') !! svc) ->
  exists t reply now el snap b older more last s1 s2 s3 s4 s5 r1 r2 r4 r5 cur,
    l = SysRun t reply now /\ sysThreads y !! t = Some (ApplyThread svc el (PClear snap b)) /\
    stepsOf t y0 ls = older ++ [TStep (PSnap more last) s1 r1; TStep (PBinding more snap) s2 r2;
      TStep (PSetter more snap b) s3 (KvContractPack (BindingGen b) 0 (scApi snap) el, true);
      TStep (PCurrent more snap b) s4 r4; TStep (PVerify more snap b) s5 r5] /\
    dpContracts s1 !! svc = Some snap /\
    KvBindingCurrent (scRule snap) (dpBindings s2) = Some b /\
    (KvBindingCurrent (scRule snap) (dpBindings s4) = Some cur /\ BindingGen cur = BindingGen b) /\
    KvBindingVerify (scRule snap) (BindingGen b) (bDigest b) (dpBindings s5) = true.
Proof.
  intros H0 Hr Hst Hd Hd' Hreg. pose proof (sysRun_ok y0 ls y H0 Hr) as Hy.
  destruct l as [t svcID el hs att|t reply now|svcID ident vip port proto api|svcID|bs]; cbn [sysExec] in Hst.
  - destruct (sysThreads y !! t); [done|]. injection Hst as <-. cbn in *. congruence.
  - destruct (sysThreads y !! t) as [th|] eqn:Et; [|done]. destruct (applyStep _ _ _ _ _ _) as [pc' dp'] eqn:E. injection Hst as <-. cbn [sysDp] in *.
    destruct (applyStep_denied _ _ _ _ _ _ _ _ _ E Hd Hd') as (Hsvc & snap & b & Hpc). pose proof (Hy t th Et) as Hok.
    destruct th as [svc' el pc]. cbn in Hsvc, Hpc. subst svc' pc. unfold threadOk in Hok. cbn in Hok.
    destruct Hok as (h5 & more & s5 & r5 & E5 & (h4 & s4 & r4 & cur & -> & (h3 & s3 & -> & (h2 & s2 & r2 & -> & (older & last & s1 & r1 & -> & Hsnap) & Hb)) & Hcur & Hgen) & Hv).
    exists t, reply, now, el, snap, b, older, more, last, s1, s2, s3, s4, s5, r1, r2, r4, r5, cur.
    rewrite E5. split_and!; try done. by rewrite <- !app_assoc.
  - exfalso. injection Hst as <-. cbn [sysDp dpContracts] in *. unfold KvSvcContractRegister in Hd'. destruct (_ || _); [congruence|]. unfold kvSvcDenied in *.
    destruct (decide (svc = svcID)) as [->|]; [by rewrite lookup_insert_eq in Hd'|]. rewrite lookup_insert_ne in Hd' by done. congruence.
  - exfalso. injection Hst as <-. cbn [sysDp dpContracts] in *. unfold KvSvcContractDeregister, kvSvcDenied in *.
    destruct (decide (svc = svcID)) as [->|]; [by rewrite lookup_delete_eq in Hreg; destruct Hreg|].
    rewrite lookup_delete_ne in Hd' by done. congruence.
  - injection Hst as <-. cbn in *. congruence.
Qed.

(** ** From the word to the binding *)

Lemma pack_gen gen flags api el : wordFields gen flags api el -> Z.shiftr (KvContractPack gen flags api el) 32 = gen.
Proof.
  intros H. rewrite (pack_sum _ _ _ _ H). unfold wordFields, two32 in H. rewrite Z.shiftr_div_pow2 by lia. change (2 ^ 32) with 4294967296.
  rewrite Z.div_add_l by lia. rewrite Z.div_small; lia.
Qed.

(** An acknowledged word names its binding for as long as it may travel. After
    an install succeeds, the generation in the word on record is that of the
    binding the rule then had; and a request that carries that generation across
    the bridge, however late, is admitted with exactly that binding, whatever
    bindings are allocated, restored, retired or deleted meanwhile, as long as this
    generation is not retired and its rule not deleted. *)
Theorem acked_word_serves_its_binding hexSha256 resolvable svcID reply attempts now eligible s s' :
  svcID <> 0 -> 0 <= eligible < 256 -> storeOk hexSha256 (dpBindings s) ->
  (exists c, dpContracts s !! svcID = Some c /\ 0 <= scApi c < 256) ->
  kvDataplaneContractApply svcID (Some reply) attempts now eligible s = Some (None, s') ->
  exists c' b, dpContracts s' !! svcID = Some c' /\ KvBindingCurrent (scRule c') (dpBindings s) = Some b /\
    Z.shiftr (scLastApplied c') 32 = BindingGen b /\
    forall ops, Forall opTyped ops -> Forall (fun op => ~ retires (scRule c') (BindingGen b) op) ops ->
      kvBridgeBinding svcID (Z.shiftr (scLastApplied c') 32) (DpState (dpContracts s') (foldl (bindDo hexSha256 resolvable) (dpBindings s') ops)) = (Some b, 0).
Proof.
  intros Hid Hel Hs (c & Hc & Hapi) Happ. unfold kvDataplaneContractApply, applyStart in Happ. cbn [negb default] in Happ. change (id reply) with reply in Happ.
  set (n := if attempts <? 1 then 1 else attempts) in *. assert (n = Z.max 1 attempts) as Hn by (subst n; zcase; lia).
  destruct (attempts_run (6 * Z.to_nat (Z.max 1 attempts) + 2) svcID eligible reply now (Z.to_nat n - 1) None s c Hc ltac:(lia)) as (c' & Hrun & Hres).
  cbv zeta in *. rewrite Happ in Hrun. injection Hrun as Hr ->. rewrite <- Hr in Hres. destruct Hres as [Hc' [b Hb]]. cbn [dpContracts dpBindings].
  unfold ackedContract in Hc'. rewrite Hb in Hc'. assert (scRule c' = scRule c) as Hrule by by rewrite Hc'. exists c', b.
  pose proof Hb as Hcur. unfold KvBindingCurrent in Hcur. destruct (dpBindings s !! scRule c) as [rs|] eqn:Ers; [|done].
  pose proof (Hs _ _ Ers) as Hok. destruct (ro_cur _ _ _ Hok b Hcur) as [Hlive _]. destruct (ro_live _ _ _ Hok _ _ Hlive) as [[Hgen _] _ _ _].
  assert (Z.shiftr (scLastApplied c') 32 = BindingGen b) as Hword.
  { rewrite Hc'. cbn [scLastApplied setAck]. unfold want. apply pack_gen. unfold wordFields, isGen, genMax, two32 in *. lia. }
  rewrite lookup_insert_eq, Hrule. split; [done|]. split; [done|]. split; [done|]. intros ops Ht Hnr. rewrite Hword.
  unfold kvBridgeBinding, kvSvcDenied, kvSvcRuleIdent. cbn [dpContracts dpBindings]. rewrite lookup_insert_eq. cbn [fmap option_fmap option_map].
  replace (scDenied c') with false by (by rewrite Hc'). rewrite andb_false_r. destruct (Z.eqb_spec (BindingGen b) 0); [unfold isGen in Hgen; lia|].
  rewrite Hrule. destruct (run_keeps hexSha256 resolvable ops (dpBindings s) (scRule c) (BindingGen b) b Hs Ht Hnr) as [_ ->]; [|done].
  unfold KvBindingResolve. by rewrite Ers.
Qed.

(** ** Runs *)

Definition demoContract : kvSvcContract := SvcContract "r1" "10.0.0.1" 443 6 2 true "" 0 0.

Definition demoDp : dpState := DpState {[ 5 := demoContract ]} wrapStore.

(** A data plane that misses the first calls and then reads back what it was given. *)
Definition lateSetter : setterFn := fun '(more, gen, _, _, _, api) => if more >? 17 then (0, false) else (KvContractPack gen 0 api 1, true).

Lemma acked_word_witness :
  exists s', kvDataplaneContractApply 5 (Some lateSetter) 20 99 1 demoDp = Some (None, s') /\
  kvBridgeBinding 5 4294967295 (DpState (dpContracts s') (foldl (bindDo echo (fun _ => true)) (dpBindings s') [OAllocate "r1" (demoComps 2)])) = (Some (demoBinding 4294967295), 0).
Proof.
  destruct (kvDataplaneContractApply 5 (Some lateSetter) 20 99 1 demoDp) as [[r s']|] eqn:E; [|vm_compute in E; discriminate E].
  assert (r = None) as -> by (vm_compute in E; injection E as <- _; reflexivity). exists s'. split; [reflexivity|].
  destruct (acked_word_serves_its_binding echo (fun _ => true) 5 lateSetter 20 99 1 demoDp s') as (c' & b & Hc & Hb & Hw & H).
  - discriminate.
  - lia.
  - exact wrapStore_ok.
  - exists demoContract. split; [reflexivity|simpl; lia].
  - exact E.
  - specialize (H [OAllocate "r1" (demoComps 2)]). vm_compute in E. injection E as <-. cbn [dpContracts] in Hc. vm_compute in Hc. injection Hc as <-.
    cbn [scRule scLastApplied] in *. vm_compute in Hb. injection Hb as <-. rewrite Hw in H. apply H; [repeat constructor|].
    repeat constructor. intros [H'|[H'|H']]; discriminate H'.
Defined.

Definition fullAck : Z * bool := (KvContractPack 4294967295 0 2 1, true).

(** A transaction for rule 5, five steps in: about to clear the flag. *)
Definition toClear : list sysLabel := SysSpawn 0 5 1 true 1 :: replicate 5 (SysRun 0 fullAck 9).

Definition atClear : dpSystem := default (DpSystem demoDp ∅) (sysRun (DpSystem demoDp ∅) toClear).
Definition cleared : dpSystem := default atClear (sysExec atClear (SysRun 0 fullAck 9)).

Lemma fence_evidence_witness :
  kvSvcDenied 5 (dpContracts (sysDp cleared)) = false /\
  exists t older e1 e2 e3 e4 e5, stepsOf t (DpSystem demoDp ∅) toClear = older ++ [e1; e2; e3; e4; e5] /\ tsReply e3 = fullAck.
Proof.
  assert (kvSvcDenied 5 (dpContracts (sysDp cleared)) = false) as Hd by (vm_compute; reflexivity).
  split; [exact Hd|].
  destruct (fence_falls_to_evidence_only (DpSystem demoDp ∅) toClear atClear (SysRun 0 fullAck 9) cleared 5)
    as (t & reply & now & el & snap & b & older & more & last & s1 & s2 & s3 & s4 & s5 & r1 & r2 & r4 & r5 & cur & Hl & Hth & Hsteps & _).
  - reflexivity.
  - vm_compute. reflexivity.
  - vm_compute. reflexivity.
  - vm_compute. reflexivity.
  - exact Hd.
  - eexists. vm_compute. reflexivity.
  - eexists _, _, _, _, _, _, _. split; [exact Hsteps|]. cbn [tsReply].
    injection Hl as <- _ _. vm_compute in Hth. injection Hth as <- <- <-. vm_compute. reflexivity.
Defined.

(** The evidence may be about a registration that is gone: a rule replaced while a
    transaction is about to clear its flag, with a new binding and a new, fenced
    registration under the same service number, is let through by the
    acknowledgement of the old binding's word. *)
Definition replaced : list sysLabel :=
  [SysRegister 5 "r1" "10.0.0.1" 443 6 0; SysBindings (KvBindingAllocate echo "r1" (demoComps 2) (dpBindings (sysDp atClear))).2].

Definition replacedAtClear : dpSystem := default atClear (sysRun atClear replaced).

Lemma stale_ack_lifts_new_fence :
  sysRun (DpSystem demoDp ∅) (toClear ++ replaced) = Some replacedAtClear /\
  kvSvcDenied 5 (dpContracts (sysDp replacedAtClear)) = true /\
  (exists b, KvBindingCurrent "r1" (dpBindings (sysDp replacedAtClear)) = Some b /\ BindingGen b = 2) /\
  kvSvcDenied 5 (dpContracts (sysDp (default replacedAtClear (sysExec replacedAtClear (SysRun 0 fullAck 9))))) = false /\
  fullAck.1 = KvContractPack 4294967295 0 2 1.
Proof.
  split; [vm_compute; reflexivity|]. split; [vm_compute; reflexivity|]. split; [eexists; split; vm_compute; reflexivity|].
  split; [vm_compute; reflexivity|reflexivity].
Qed.
