(* ===== verification/KvTokens.v ===== *)
(** * KvTokens: tokenizers, the token cache and the tokenize bridge

    pkg/loxinet/ai_kv_router.go: the bound on the text, the token cache, the pool
    of loaded tokenizers with its generations, negative cache and shared loads.
    pkg/loxinet/ai_kv_encode*.go: how each engine family encodes a completions
    prompt.  pkg/loxinet/ai_kv_dataplane.go: the completions bridge.  The
    tokenizer library, SHA-256 and the profile registry's contents are arguments. *)

From Stdlib Require Import Ascii.
From S2P Require Import Prelude KvSelect KvInventory KvEngines KvStream KvBinding.

Open Scope Z_scope.
Open Scope igw_scope.

(** ** Slugs and the bound *)

Fixpoint kvModelSlug (modelName : string) : string :=
  match modelName with
  | EmptyString => EmptyString
  | String c s => if Ascii.eqb c "/"%char then ("__" ++ kvModelSlug s)%string else String c (kvModelSlug s)
  end.

Definition kvTokenizeBytesPerTokenDefault : Z := 16.
Definition kvTokenizeCutGuard : Z := 64.

Definition kvResolveTokenizeBytesPerToken (env : Env) : Z :=
  let v := env "LOXILB_KV_TOKENIZE_BYTES_PER_TOKEN" in
  if negb (v ==s "") then default kvTokenizeBytesPerTokenDefault (intKnob v 4 256) else kvTokenizeBytesPerTokenDefault.

(** [utf8.RuneStart]: not a continuation byte. *)
Definition RuneStart (c : Ascii.ascii) : bool := Z.land (Z.of_nat (Ascii.nat_of_ascii c)) 192 !=? 128.

Definition runeStartAt (text : string) (i : nat) : bool :=
  match String.get i text with Some c => RuneStart c | None => true end.

(** The loop that backs up to the start of a rune. *)
Fixpoint backUp (text : string) (limit : nat) : nat :=
  match limit with
  | O => O
  | S l => if negb (runeStartAt text limit) then backUp text l else limit
  end.

Definition kvTokenizeBound (env : Env) (text : string) (maxTokens : Z) : string * bool :=
  if maxTokens <=? 0 then (text, false)
  else
    let limit := i64 (maxTokens * kvResolveTokenizeBytesPerToken env) in
    if (limit <=? 0) || (Z.of_nat (String.length text) <=? limit) then (text, false)
    else (String.substring 0 (backUp text (Z.to_nat limit)) text, true).

(** ** Engine encoders *)

Record KvEngineQuirks := Quirks { CompletionsBos : bool; ChallengeLastBlock : bool; CacheChunk : Z }.

Record kvCompletionsEncoding := Encoding { encContract : string; encQuirks : KvEngineQuirks; bosID : Z; bosOK : bool }.

Inductive kvEngineEncoder := kvVllmEncoder | kvSglangEncoder | kvTrtllmEncoder | kvLlamacppEncoder.

Definition kvEngineEncoderFor (engine : string) : option kvEngineEncoder :=
  if engine ==s "vllm" then Some kvVllmEncoder
  else if engine ==s "sglang" then Some kvSglangEncoder
  else if engine ==s "trtllm" then Some kvTrtllmEncoder
  else if engine ==s "llamacpp" then Some kvLlamacppEncoder
  else None.

Definition CompletionsCheck (enc : kvEngineEncoder) (e : kvCompletionsEncoding) : bool :=
  match enc with
  | kvVllmEncoder | kvTrtllmEncoder => negb (CompletionsBos (encQuirks e))
  | kvSglangEncoder => negb (CompletionsBos (encQuirks e) && negb (bosOK e))
  | kvLlamacppEncoder => false
  end.

Definition kvEncoderForContract (e : kvCompletionsEncoding) : option kvEngineEncoder :=
  match ProfileByID (encContract e) with
  | None => None
  | Some cp =>
      match kvEngineEncoderFor (epEngine cp) with
      | None => None
      | Some enc => if CompletionsCheck enc e then Some enc else None
      end
  end.

Definition kvPrependCapped (first : Z) (ids : list Z) (max : Z) : list Z :=
  if max <=? 0 then [] else take (Z.to_nat max) (first :: ids).

(** Base tokenization threads the state of the caches. *)
Section Encode.
Context {S : Type} (base : string -> string -> Z -> bool -> S -> list Z * S).

Definition EncodeCompletions (enc : kvEngineEncoder) (e : kvCompletionsEncoding) (text model : string) (max : Z) (s : S) : list Z * S :=
  match enc with
  | kvVllmEncoder | kvTrtllmEncoder => base text model max true s
  | kvSglangEncoder =>
      if negb (CompletionsBos (encQuirks e)) then base text model max true s
      else let '(ids, s') := base text model max false s in
           (if Nat.eqb (length ids) 0 then [] else kvPrependCapped (bosID e) ids max, s')
  | kvLlamacppEncoder => ([], s)
  end.

Definition kvEncodeCompletions (e : kvCompletionsEncoding) (text model : string) (max : Z) (s : S) : option (list Z) * S :=
  match kvEncoderForContract e with
  | None => (None, s)
  | Some enc => let '(ids, s') := EncodeCompletions enc e text model max s in (Some ids, s')
  end.
End Encode.

(** ** The token cache *)

(** The digest stands for the text. *)
Record tokenCacheKey := TokenCacheKey { tkSlug : string; tkLen : Z; tkSum : string; tkSpecial : bool }.

#[export] Instance tokenCacheKey_eq_dec : EqDecision tokenCacheKey.
Proof. solve_decision. Defined.
#[export] Instance tokenCacheKey_countable : Countable tokenCacheKey.
Proof.
  apply (inj_countable' (fun k => (tkSlug k, tkLen k, tkSum k, tkSpecial k)) (fun '(a, b, c, d) => TokenCacheKey a b c d)).
  by intros [].
Defined.

Record tokenCache := TokenCache { tcMap : gmap tokenCacheKey (list Z); tcOrder : list tokenCacheKey }.

Definition kvTokenCacheMax : nat := 4096.

(** Evict from the front of the order while the cache is full. *)
Fixpoint evictTokens (max : nat) (m : gmap tokenCacheKey (list Z)) (order : list tokenCacheKey) : tokenCache :=
  match order with
  | [] => TokenCache m []
  | k :: order' => if Nat.leb max (size m) then evictTokens max (delete k m) order' else TokenCache m order
  end.

Definition storeTokens (max : nat) (key : tokenCacheKey) (ids : list Z) (c : tokenCache) : tokenCache :=
  let c := evictTokens max (tcMap c) (tcOrder c) in
  TokenCache (<[key := ids]> (tcMap c)) (tcOrder c ++ [key]).

Definition KvTokenCacheReset (c : tokenCache) : tokenCache := TokenCache ∅ [].

(** ** The tokenizer pool *)

Section Pool.
Context {tok : Type}.

(** A published profile: the pinned digest and the verified bytes. *)
Record profEntry := ProfEntry { peID : string; peTokenizerSha : string; peBytes : string }.

(** The tokenizer library: loading a file, and loading bytes where it can. *)
Record backend := Backend {
  LoadModel : string -> option tok;
  LoadModelBytes : option (string -> option tok);
  Encode : tok -> string -> bool -> list Z
}.

Record tokPool := TokPool {
  pool : gmap string tok;
  epoch : Z;
  neg : gmap string Z    (* kvTokenizerNeg: retry-not-before deadlines *)
}.

Definition kvTokenizerNegTTL : Z := 5000000000.

Definition kvTokenizerDir : string := "/etc/loxilb/tokenizers".

Definition kvTokenizerLoadIdentity (byModel : gmap string profEntry) (slug : string) : string * option profEntry :=
  match byModel !! slug with
  | Some e => (("sha256:" ++ peTokenizerSha e)%string, Some e)
  | None => (("slug:" ++ slug)%string, None)
  end.

Definition loadSource (slug : string) : string := (kvTokenizerDir ++ "/" ++ slug ++ "/tokenizer.json")%string.

(** The load itself, under no lock. *)
Definition loadFor (b : backend) (slug : string) (prof : option profEntry) : option tok :=
  match prof with
  | Some e => match LoadModelBytes b with Some f => f (peBytes e) | None => None end
  | None => LoadModel b (loadSource slug)
  end.

(** The commit: stale when the pool is of another generation. *)
Definition commitLoad (slug : string) (ep : Z) (t : option tok) (now : Z) (p : tokPool) : option tok * bool * tokPool :=
  if epoch p !=? ep then (None, true, p)
  else match t with
       | Some x => (Some x, false, TokPool (<[slug := x]> (pool p)) (epoch p) (neg p))
       | None => (None, false, TokPool (pool p) (epoch p) (<[slug := now + kvTokenizerNegTTL]> (neg p)))
       end.

Definition kvTokenizerLoadAndCommit (b : backend) (slug : string) (prof : option profEntry) (ep now : Z) (p : tokPool) : option tok * bool * tokPool :=
  commitLoad slug ep (loadFor b slug prof) now p.

Definition KvTokenizerPoolReset (p : tokPool) : tokPool := TokPool ∅ (u64 (epoch p + 1)) ∅.

Definition KvTokenizerClose (p : tokPool) : tokPool := TokPool ∅ (u64 (epoch p + 1)) (neg p).

(** One load with no other goroutine about: the pool's generation cannot change, so
    the first of the two attempts decides. *)
Definition kvLoadTokenizerEx (ob : option backend) (byModel : gmap string profEntry) (modelName : string) (freshProbe : bool) (now : Z) (p : tokPool) : option tok * tokPool :=
  match ob with
  | None => (None, p)
  | Some b =>
      let slug := kvModelSlug modelName in
      match pool p !! slug with
      | Some t => (Some t, p)
      | None =>
          let blocked := if freshProbe then false else match neg p !! slug with Some d => now <? d | None => false end in
          if blocked then (None, p)
          else
            let p := if freshProbe then TokPool (pool p) (epoch p) (delete slug (neg p)) else p in
            let '(_, prof) := kvTokenizerLoadIdentity byModel slug in
            let '(t, _, p') := kvTokenizerLoadAndCommit b slug prof (epoch p) now p in (t, p')
      end
  end.

Definition kvLoadTokenizer (ob : option backend) (byModel : gmap string profEntry) (modelName : string) := kvLoadTokenizerEx ob byModel modelName false.
Definition kvLoadTokenizerFresh (ob : option backend) (byModel : gmap string profEntry) (modelName : string) := kvLoadTokenizerEx ob byModel modelName true.

(** The caches of the request path, and the registry they read. *)
Record tokState := TokState { tsPool : tokPool; tsCache : tokenCache; tsByModel : gmap string profEntry }.

Definition cutIds (cut : bool) (maxTokens : Z) (ids : list Z) : list Z :=
  let n := Z.of_nat (length ids) in
  if n >? maxTokens then take (Z.to_nat maxTokens) ids
  else if cut && (n >? kvTokenizeCutGuard) then take (Z.to_nat (n - kvTokenizeCutGuard)) ids
  else ids.

Definition kvTokenCacheKeyFor (sha256 : string -> string) (slug text : string) (addSpecial : bool) : tokenCacheKey :=
  TokenCacheKey slug (Z.of_nat (String.length text)) (sha256 text) addSpecial.

(** [maxTokens] is positive here: a slice bound below zero would panic, and the
    bridges refuse such requests first. *)
Definition kvTokenizeWithCache (sha256 : string -> string) (env : Env) (ob : option backend) (cacheMax : nat) (now : Z)
    (text modelName : string) (maxTokens : Z) (addSpecial : bool) (s : tokState) : list Z * tokState :=
  let slug := kvModelSlug modelName in
  let '(text, cut) := kvTokenizeBound env text maxTokens in
  let key := kvTokenCacheKeyFor sha256 slug text addSpecial in
  match tcMap (tsCache s) !! key with
  | Some cached => (if Z.of_nat (length cached) >? maxTokens then take (Z.to_nat maxTokens) cached else cached, s)
  | None =>
      let '(t, p) := kvLoadTokenizer ob (tsByModel s) modelName now (tsPool s) in
      match t, ob with
      | Some t, Some b =>
          let ids := Encode b t text addSpecial in
          if Nat.eqb (length ids) 0 then ([], TokState p (tsCache s) (tsByModel s))
          else let ids := cutIds cut maxTokens ids in
               (ids, TokState p (storeTokens cacheMax key ids (tsCache s)) (tsByModel s))
      | _, _ => ([], TokState p (tsCache s) (tsByModel s))
      end
  end.

(** Publishing a generation of the registry: the pointer, then the pool. *)
Definition KvProfilePublish (byModel : gmap string profEntry) (s : tokState) : tokState :=
  TokState (KvTokenizerPoolReset (tsPool s)) (tsCache s) byModel.

(** ** The completions bridge *)

(** The profile's quirks and BOS id, as the registry serves them by profile id. *)
Definition kvBridgeNulGuard (text : string) (strict : bool) : Z :=
  if match String.index 0 nul text with Some _ => true | None => false end then
    if strict then KvTokErrUnsupported else KvTokErrRequest
  else 0.

(** The tokens or a code, whether the attestation controller is kicked, and the
    caches. *)
Definition kvBridgeTokenize (tokenize : string -> string -> Z -> bool -> tokState -> list Z * tokState)
    (encodingOf : string -> string -> option kvCompletionsEncoding)
    (svcID bindingGen : Z) (text model : string) (max : Z) (d : dpState) (s : tokState) : list Z * Z * bool * tokState :=
  let '(binding, rc) := kvBridgeBinding svcID bindingGen d in
  if rc !=? 0 then ([], rc, false, s)
  else if (text ==s "") || (model ==s "") || (max <=? 0) then ([], KvTokErrRequest, false, s)
  else
    let rc := kvBridgeNulGuard text (bindingGen !=? 0) in
    if rc !=? 0 then ([], rc, false, s)
    else
      let '(tokens, rc, s) :=
        match binding with
        | Some b =>
            match encodingOf (mpID (Profile (bComps b))) (ecID (Contract (bComps b))) with
            | None => (([] : list Z), KvTokErrProfile, s)
            | Some e =>
                match kvEncodeCompletions tokenize e text model max s with
                | (None, s') => ([], KvTokErrProfile, s')
                | (Some ids, s') => (ids, 0, s')
                end
            end
        | None => let '(ids, s') := tokenize text model max true s in (ids, 0, s')
        end in
      if rc !=? 0 then ([], rc, false, s)
      else if Nat.eqb (length tokens) 0 then
        if bindingGen !=? 0 then ([], KvTokErrTokenizer, true, s) else ([], KvTokErrRequest, false, s)
      else (tokens, 0, false, s).
End Pool.

Arguments backend : clear implicits.
Arguments tokPool : clear implicits.
Arguments tokState : clear implicits.
