(* ===== verification/KvTokensProps.v ===== *)
(** * KvTokensProps: what the token cache and the tokenizer pool guarantee *)

From Stdlib Require Import Ascii.
From S2P Require Import Prelude KvSelect KvInventory KvEngines KvStream KvBinding KvTokens.

Open Scope Z_scope.
Open Scope igw_scope.

(** ** The bound on the text *)

Lemma backUp_le text n : (backUp text n <= n)%nat.
Proof. induction n as [|n IH]; simpl; [done|]. destruct (negb _); lia. Qed.

Lemma backUp_start text n : backUp text n = 0%nat \/ runeStartAt text (backUp text n) = true.
Proof. induction n as [|n IH]; simpl; [by left|]. destruct (runeStartAt text (S n)) eqn:E; simpl; [by right|done]. Qed.

Lemma substring_00 s : String.substring 0 0 s = ""%string.
Proof. by destruct s. Qed.

Lemma substring_split n s : (n <= String.length s)%nat ->
  s = (String.substring 0 n s ++ String.substring n (String.length s - n) s)%string /\ String.length (String.substring 0 n s) = n.
Proof.
  revert n. induction s as [|c s IH]; intros n Hn; simpl in *.
  - assert (n = 0%nat) as -> by lia. done.
  - destruct n as [|n]; simpl.
    + split; [|done]. change (String c s = String c (String.substring 0 (String.length s) s)). f_equal. destruct (IH 0%nat ltac:(lia)) as [H _]. rewrite Nat.sub_0_r in H.
      by rewrite substring_00 in H.
    + destruct (IH n ltac:(lia)) as [H1 H2]. split; [|by rewrite H2].
      change (String c s = String c (String.substring 0 n s ++ String.substring n (String.length s - n) s)%string). by rewrite <- H1.
Qed.

Lemma bytesPerToken_range env : 4 <= kvResolveTokenizeBytesPerToken env <= 256.
Proof.
  unfold kvResolveTokenizeBytesPerToken, kvTokenizeBytesPerTokenDefault. destruct (negb _); [|lia].
  destruct (intKnob _ 4 256) as [n|] eqn:E; simpl; [|lia]. unfold intKnob in E. destruct (ParseInt _); [|done].
  destruct (_ && _) eqn:Eb; [|done]. injection E as <-. split_bools. lia.
Qed.

(** The bounded text is a prefix that ends on a rune boundary, within the limit;
    nothing is cut from a text within it. *)
Lemma bound_spec env text maxTokens : 0 < maxTokens < two32 ->
  let limit := maxTokens * kvResolveTokenizeBytesPerToken env in
  let '(t, cut) := kvTokenizeBound env text maxTokens in
  (cut = false -> t = text /\ Z.of_nat (String.length text) <= limit) /\
  (cut = true -> limit < Z.of_nat (String.length text) /\ Z.of_nat (String.length t) <= limit /\
    exists rest, text = (t ++ rest)%string /\ (t = ""%string \/ runeStartAt text (String.length t) = true)).
Proof.
  intros Hm. cbv zeta. pose proof (bytesPerToken_range env) as Hb. unfold kvTokenizeBound. unfold two32 in Hm.
  destruct (Z.leb_spec maxTokens 0); [lia|]. rewrite i64_id by (unfold in_i64, two63; nia).
  set (limit := maxTokens * kvResolveTokenizeBytesPerToken env). assert (0 < limit) by (unfold limit; nia).
  destruct (Z.leb_spec limit 0); [lia|]. simpl. destruct (Z.leb_spec (Z.of_nat (String.length text)) limit).
  - split; [done|]. done.
  - split; [done|]. intros _. split; [done|]. pose proof (backUp_le text (Z.to_nat limit)) as Hle.
    destruct (substring_split (backUp text (Z.to_nat limit)) text ltac:(lia)) as [E1 E2]. rewrite E2. split; [lia|]. eexists. split; [exact E1|].
    destruct (backUp_start text (Z.to_nat limit)) as [->|Hr]; [left|by right]. by destruct text.
Qed.

(** ** The token cache *)

Record cacheOk (max : nat) (c : tokenCache) : Prop := {
  co_size : (size (tcMap c) <= max)%nat;
  co_order : forall k, is_Some (tcMap c !! k) -> k ∈ tcOrder c
}.

Lemma evictTokens_spec max m order : (0 < max)%nat -> (forall k, is_Some (m !! k) -> k ∈ order) ->
  let c := evictTokens max m order in
  (size (tcMap c) < max)%nat /\ (forall k, is_Some (tcMap c !! k) -> k ∈ tcOrder c) /\ (forall k ids, tcMap c !! k = Some ids -> m !! k = Some ids).
Proof.
  intros Hm. cbv zeta. revert m. induction order as [|k order IH]; intros m Ho; simpl.
  - assert (m = ∅) as -> by (apply map_eq; intros k; rewrite lookup_empty; destruct (m !! k) eqn:E; [|done]; exfalso; assert (k ∈ []) by (apply Ho; eauto); set_solver).
    rewrite map_size_empty. split; [lia|]. split; [|done]. intros k [? H]. by rewrite lookup_empty in H.
  - destruct (Nat.leb_spec max (size m)).
    + destruct (IH (delete k m)) as (H1 & H2 & H3).
      { intros k' [v Hk']. apply lookup_delete_Some in Hk' as [Hne Hk']. assert (k' ∈ k :: order) as Hin by (apply Ho; eauto). set_solver. }
      split; [done|]. split; [done|]. intros k' ids Hk'. apply H3 in Hk'. by apply lookup_delete_Some in Hk' as [_ ?].
    + split; [cbn; lia|]. split; [done|]. done.
Qed.

Lemma storeTokens_ok max key ids c : (0 < max)%nat -> cacheOk max c ->
  cacheOk max (storeTokens max key ids c) /\
  (forall k v, tcMap (storeTokens max key ids c) !! k = Some v -> (k = key /\ v = ids) \/ tcMap c !! k = Some v).
Proof.
  intros Hm [H1 H2]. unfold storeTokens. destruct (evictTokens_spec max (tcMap c) (tcOrder c) Hm H2) as (E1 & E2 & E3). cbv zeta in *.
  set (c' := evictTokens max (tcMap c) (tcOrder c)) in *. split.
  - split; simpl.
    + pose proof (map_size_insert key ids (tcMap c')) as Hs. rewrite Hs. destruct (tcMap c' !! key); cbn; lia.
    + intros k [v Hk]. apply elem_of_app. apply lookup_insert_Some in Hk as [[-> _]|[_ Hk]]; [right; set_solver|left; apply E2; eauto].
  - cbn [tcMap]. intros k v [[<- <-]|[_ Hk]]%lookup_insert_Some; [by left|right; by apply E3].
Qed.

(** ** Transparency *)

Section Requests.
Context {tok : Type} (sha256 : string -> string) (env : Env) (b : backend tok) (cacheMax : nat) (maxTokens : Z).

Record request := Request { rqText : string; rqModel : string; rqSpecial : bool; rqNow : Z }.

Definition rqKey (r : request) : tokenCacheKey := kvTokenCacheKeyFor sha256 (kvModelSlug (rqModel r)) (kvTokenizeBound env (rqText r) maxTokens).1 (rqSpecial r).

Definition serve (s : tokState tok) (r : request) : list Z * tokState tok :=
  kvTokenizeWithCache sha256 env (Some b) cacheMax (rqNow r) (rqText r) (rqModel r) maxTokens (rqSpecial r) s.

Fixpoint serveAll (s : tokState tok) (rs : list request) : list (list Z) * tokState tok :=
  match rs with
  | [] => ([], s)
  | r :: rs' => let '(ids, s1) := serve s r in let '(out, s2) := serveAll s1 rs' in (ids :: out, s2)
  end.

(** The answer without caches: the bounded text, encoded by the tokenizer the
    registry pins for the model, cut to the limit. *)
Definition direct (byModel : gmap string profEntry) (r : request) : list Z :=
  let slug := kvModelSlug (rqModel r) in
  let '(t, cut) := kvTokenizeBound env (rqText r) maxTokens in
  match loadFor b slug (byModel !! slug) with
  | Some x => cutIds cut maxTokens (Encode b x t (rqSpecial r))
  | None => []
  end.

(** The requests a cached answer may be shared by agree on all it depends on. *)
Definition agree (r1 r2 : request) : Prop :=
  kvModelSlug (rqModel r1) = kvModelSlug (rqModel r2) /\ rqSpecial r1 = rqSpecial r2 /\
  kvTokenizeBound env (rqText r1) maxTokens = kvTokenizeBound env (rqText r2) maxTokens.

Definition noCollision (rs : list request) : Prop := forall r1 r2, r1 ∈ rs -> r2 ∈ rs -> rqKey r1 = rqKey r2 -> agree r1 r2.

Lemma agree_direct m r1 r2 : agree r1 r2 -> direct m r1 = direct m r2.
Proof. intros (E1 & E2 & E3). unfold direct. by rewrite E1, E2, E3. Qed.

(** A pool filled by loads under the registry [m]. *)
Record poolOk (m : gmap string profEntry) (p : tokPool tok) : Prop := {
  po_pool : forall slug x, pool p !! slug = Some x -> loadFor b slug (m !! slug) = Some x;
  po_neg : forall slug d, neg p !! slug = Some d -> loadFor b slug (m !! slug) = None
}.

(** Caches filled by requests of [rs] under the registry [m]. *)
Record cachesOk (m : gmap string profEntry) (rs : list request) (s : tokState tok) : Prop := {
  ck_models : tsByModel s = m;
  ck_pool : poolOk m (tsPool s);
  ck_cache : cacheOk cacheMax (tsCache s);
  ck_ids : forall k ids, tcMap (tsCache s) !! k = Some ids -> exists r, r ∈ rs /\ rqKey r = k /\ ids = direct m r
}.

Lemma identity_prof (m : gmap string profEntry) slug : (kvTokenizerLoadIdentity m slug).2 = m !! slug.
Proof. unfold kvTokenizerLoadIdentity. by destruct (m !! slug). Qed.

Lemma commit_ok m slug now q :
  poolOk m q ->
  let '(t, _, p') := kvTokenizerLoadAndCommit b slug (kvTokenizerLoadIdentity m slug).2 (epoch q) now q in
  poolOk m p' /\ t = loadFor b slug (m !! slug).
Proof.
  intros [Hp Hn]. unfold kvTokenizerLoadAndCommit, commitLoad. rewrite Z.eqb_refl, identity_prof. cbn [negb].
  destruct (loadFor b slug (m !! slug)) as [x|] eqn:El; (split; [split; cbn; intros sl y|done]).
  - intros [[<- <-]|[_ Hy]]%lookup_insert_Some; [done|by apply Hp].
  - apply Hn.
  - apply Hp.
  - intros [[<- <-]|[_ Hy]]%lookup_insert_Some; [done|by eapply Hn].
Qed.

(** A load answers with the tokenizer the registry names, also from the pool, and
    with nothing exactly when that tokenizer does not load. *)
Lemma load_spec m model fresh now p :
  poolOk m p ->
  let '(t, p') := kvLoadTokenizerEx (Some b) m model fresh now p in
  poolOk m p' /\ t = loadFor b (kvModelSlug model) (m !! kvModelSlug model).
Proof.
  intros Hp. unfold kvLoadTokenizerEx. set (slug := kvModelSlug model). destruct (pool p !! slug) as [x|] eqn:Ex.
  { split; [done|]. symmetry. by apply (po_pool _ _ Hp). }
  assert (forall q, poolOk m q -> let '(_, prof) := kvTokenizerLoadIdentity m slug in
    let '(t, p') := let '(t, _, p') := kvTokenizerLoadAndCommit b slug prof (epoch q) now q in (t, p') in
    poolOk m p' /\ t = loadFor b slug (m !! slug)) as Hload.
  { intros q Hq. pose proof (commit_ok m slug now q Hq) as H. destruct (kvTokenizerLoadIdentity m slug) as [i prof]. cbn [snd] in H.
    by destruct (kvTokenizerLoadAndCommit _ _ _ _ _ _) as [[t st] p']. }
  destruct fresh.
  - assert (poolOk m (TokPool (pool p) (epoch p) (delete slug (neg p)))) as Hq.
    { destruct Hp as [H1 H2]. split; [exact H1|]. cbn. intros sl d [_ Hd]%lookup_delete_Some. by eapply H2. }
    specialize (Hload _ Hq). by destruct (kvTokenizerLoadIdentity m slug) as [i prof].
  - specialize (Hload _ Hp). destruct (kvTokenizerLoadIdentity m slug) as [i prof].
    destruct (neg p !! slug) as [d|] eqn:En; [|done]. destruct (now <? d); [|done]. split; [done|]. symmetry. by eapply (po_neg _ _ Hp).
Qed.

Lemma cutIds_length cut ids : 0 < maxTokens -> Z.of_nat (length (cutIds cut maxTokens ids)) <= maxTokens.
Proof.
  intros Hm. unfold cutIds. destruct (Z.ltb_spec maxTokens (Z.of_nat (length ids))); [rewrite length_take; lia|].
  destruct (cut && _); [rewrite length_take; lia|done].
Qed.

Lemma cutIds_nil cut : cutIds cut maxTokens [] = [].
Proof. unfold cutIds. rewrite !take_nil. by repeat case_match. Qed.

Lemma direct_length m r : 0 < maxTokens -> Z.of_nat (length (direct m r)) <= maxTokens.
Proof.
  intros Hm. unfold direct. destruct (kvTokenizeBound env (rqText r) maxTokens) as [t cut].
  destruct (loadFor _ _ _); [by apply cutIds_length|simpl; lia].
Qed.

Lemma serve_spec m rs r s :
  0 < maxTokens -> (0 < cacheMax)%nat -> noCollision rs -> r ∈ rs -> cachesOk m rs s ->
  let '(ids, s') := serve s r in ids = direct m r /\ cachesOk m rs s'.
Proof.
  intros Hm Hc Hno Hr [Hmod Hpool Hcache Hids]. unfold serve, kvTokenizeWithCache.
  destruct (kvTokenizeBound env (rqText r) maxTokens) as [t cut] eqn:Eb.
  assert (rqKey r = kvTokenCacheKeyFor sha256 (kvModelSlug (rqModel r)) t (rqSpecial r)) as Hkey by (unfold rqKey; by rewrite Eb).
  rewrite <- Hkey. destruct (tcMap (tsCache s) !! rqKey r) as [cached|] eqn:Ec.
  { destruct (Hids _ _ Ec) as (r' & Hr' & Hk & ->). rewrite (agree_direct m r' r) by by apply Hno.
    pose proof (direct_length m r Hm). destruct (Z.ltb_spec maxTokens (Z.of_nat (length (direct m r)))); [lia|]. by split. }
  pose proof (load_spec (tsByModel s) (rqModel r) false (rqNow r) (tsPool s)) as Hl. rewrite Hmod in *. specialize (Hl Hpool). unfold kvLoadTokenizer.
  destruct (kvLoadTokenizerEx _ m (rqModel r) false (rqNow r) (tsPool s)) as [ot p]. destruct Hl as [Hp ->].
  assert (forall c, cacheOk cacheMax c -> (forall k ids, tcMap c !! k = Some ids -> exists r, r ∈ rs /\ rqKey r = k /\ ids = direct m r) ->
    cachesOk m rs (TokState p c m)) as Hout by (intros c H1 H2; by split).
  unfold direct. rewrite Eb. destruct (loadFor b (kvModelSlug (rqModel r)) _) as [x|] eqn:El; [|split; [done|by apply Hout]].
  destruct (Nat.eqb_spec (length (Encode b x t (rqSpecial r))) 0) as [E0|E0].
  { destruct (Encode b x t (rqSpecial r)) as [|]; [|done]. split; [by rewrite cutIds_nil|by apply Hout]. }
  split; [done|]. destruct (storeTokens_ok cacheMax (rqKey r) (cutIds cut maxTokens (Encode b x t (rqSpecial r))) _ Hc Hcache) as [H1 H2].
  apply Hout; [done|]. intros k ids [[-> ->]|Hk]%H2; [|by apply Hids]. exists r. split; [done|]. split; [done|]. unfold direct. by rewrite Eb, El.
Qed.

(** The caches are invisible while the registry stands still. Whatever requests
    are served, in any order and with any evictions, failed loads and retries in
    between, each is answered with the identifiers its own bounded text has under
    the tokenizer the registry pins for its model, provided two requests that
    share a cache key agree on the model, on the bounded text and on whether
    anything was cut from it; and the cache never holds more entries than its
    limit. *)
Theorem token_cache_transparent m rs s :
  0 < maxTokens -> (0 < cacheMax)%nat -> noCollision rs -> cachesOk m rs s ->
  let '(out, s') := serveAll s rs in out = direct m <$> rs /\ cachesOk m rs s' /\ (size (tcMap (tsCache s')) <= cacheMax)%nat.
Proof.
  intros Hm Hc Hno Hs. assert (forall l, (forall r, r ∈ l -> r ∈ rs) -> forall s, cachesOk m rs s ->
    let '(out, s') := serveAll s l in out = direct m <$> l /\ cachesOk m rs s') as H.
  { induction l as [|r l IH]; intros Hl s0 Hs0; cbn [serveAll]; [done|].
    pose proof (serve_spec m rs r s0 Hm Hc Hno ltac:(apply Hl; set_solver) Hs0) as H1. destruct (serve s0 r) as [ids s1]. destruct H1 as [-> H1].
    specialize (IH ltac:(intros; apply Hl; set_solver) s1 H1). destruct (serveAll s1 l) as [out s2]. destruct IH as [-> H2]. done. }
  specialize (H rs ltac:(done) s Hs). destruct (serveAll s rs) as [out s']. destruct H as [-> H]. split; [done|]. split; [done|]. by destruct H as [_ _ [? _] _].
Qed.

End Requests.

(** ** The cut and the hash chain *)

(** The tokenizer's documented locality: encoding a prefix of a text agrees with
    encoding the text, but for the identifiers nearest the cut. *)
Definition localTokenizer (enc : string -> list Z) : Prop :=
  forall t rest, take (length (enc t) - Z.to_nat kvTokenizeCutGuard) (enc t) `prefix_of` enc (t ++ rest)%string.

Lemma prefix_take {A} (k l : list A) n : k `prefix_of` l -> (length k <= n)%nat -> k `prefix_of` take n l.
Proof. intros [r ->] Hn. rewrite take_app_ge by done. by apply prefix_app_r. Qed.

(** The identifiers kept from a long text are those of the whole text. For a
    tokenizer with the documented locality, the identifiers a bounded text yields
    are a prefix of the first maxTokens identifiers of the full text, so every
    block hashed is one the engine computes, whenever nothing was cut, or the
    bounded text yields more identifiers than the guard drops and either fewer
    than the caller keeps, or at least a guard's worth more. *)
Theorem bounded_ids_are_prefix env enc text maxTokens :
  0 < maxTokens < two32 -> localTokenizer enc ->
  let '(t, cut) := kvTokenizeBound env text maxTokens in
  let n := Z.of_nat (length (enc t)) in
  cut = false \/ (kvTokenizeCutGuard < n /\ (n <= maxTokens \/ maxTokens + kvTokenizeCutGuard <= n)) ->
  cutIds cut maxTokens (enc t) `prefix_of` take (Z.to_nat maxTokens) (enc text).
Proof.
  intros Hm Hl. pose proof (bound_spec env text maxTokens Hm) as Hb. cbv zeta in *. destruct (kvTokenizeBound env text maxTokens) as [t cut].
  destruct Hb as [Hno Hyes]. intros Hc. unfold cutIds. destruct cut.
  - destruct (Hyes eq_refl) as (_ & _ & rest & -> & _). destruct Hc as [|[Hg Hc]]; [done|]. unfold kvTokenizeCutGuard in *.
    pose proof (Hl t rest) as Hp. unfold kvTokenizeCutGuard in Hp. destruct (Z.ltb_spec maxTokens (Z.of_nat (length (enc t)))).
    + apply prefix_take; [|rewrite length_take; lia]. etrans; [|exact Hp].
      replace (take (Z.to_nat maxTokens) (enc t)) with (take (Z.to_nat maxTokens) (take (length (enc t) - Z.to_nat 64) (enc t))) by (rewrite take_take; f_equal; lia).
      exists (drop (Z.to_nat maxTokens) (take (length (enc t) - Z.to_nat 64) (enc t))). by rewrite take_drop.
    + destruct (Z.ltb_spec 64 (Z.of_nat (length (enc t)))); [|lia]. simpl. apply prefix_take; [|rewrite length_take; lia].
      replace (Z.to_nat (Z.of_nat (length (enc t)) - 64)) with (length (enc t) - Z.to_nat 64)%nat by lia. exact Hp.
  - destruct (Hno eq_refl) as [-> _]. destruct (Z.ltb_spec maxTokens (Z.of_nat (length (enc text)))); simpl; [done|]. by rewrite take_ge by lia.
Qed.

(** ** A broken tokenizer is not probed in a storm *)

Section Probes.
Context {tok : Type} (b : backend tok) (m : gmap string profEntry) (model : string).
Local Abbreviation slug := (kvModelSlug model).

(** Whether a request for the model reaches the tokenizer library. *)
Definition asksBackend (p : tokPool tok) (now : Z) : bool :=
  match pool p !! slug with
  | Some _ => false
  | None => match neg p !! slug with Some d => negb (now <? d) | None => true end
  end.

Fixpoint probeTimes (p : tokPool tok) (ts : list Z) : list Z :=
  match ts with
  | [] => []
  | t :: ts' =>
      let p' := (kvLoadTokenizer (Some b) m model t p).2 in
      if asksBackend p t then t :: probeTimes p' ts' else probeTimes p' ts'
  end.

(** A request that does not reach the library is answered without it. *)
Lemma unasked_independent b' p now : asksBackend p now = false -> kvLoadTokenizer (Some b) m model now p = kvLoadTokenizer (Some b') m model now p.
Proof.
  unfold asksBackend, kvLoadTokenizer, kvLoadTokenizerEx. destruct (pool p !! slug); [done|]. destruct (neg p !! slug) as [d|]; [|done].
  intros H%negb_false_iff. by rewrite H.
Qed.

Lemma failed_probe p now : loadFor b slug (m !! slug) = None -> pool p !! slug = None ->
  let p' := (kvLoadTokenizer (Some b) m model now p).2 in
  pool p' !! slug = None /\
  neg p' !! slug = if asksBackend p now then Some (now + kvTokenizerNegTTL) else neg p !! slug.
Proof.
  intros Hf Hp. unfold kvLoadTokenizer, kvLoadTokenizerEx, asksBackend. rewrite Hp. cbv zeta.
  assert (let '(_, prof) := kvTokenizerLoadIdentity m slug in
    kvTokenizerLoadAndCommit b slug prof (epoch p) now p = (None, false, TokPool (pool p) (epoch p) (<[slug := now + kvTokenizerNegTTL]> (neg p)))) as Hl.
  { pose proof (identity_prof m slug) as Hi. destruct (kvTokenizerLoadIdentity m slug) as [i prof]. cbn in Hi. subst prof.
    unfold kvTokenizerLoadAndCommit, commitLoad. by rewrite Z.eqb_refl, Hf. }
  destruct (kvTokenizerLoadIdentity m slug) as [i prof]. destruct (neg p !! slug) as [d|] eqn:En.
  - destruct (now <? d); cbn [negb]; [done|]. rewrite Hl. cbn. by rewrite lookup_insert_eq.
  - rewrite Hl. cbn. by rewrite lookup_insert_eq.
Qed.

(** A failing tokenizer is probed at most once per retry interval. However many
    requests arrive for a model whose tokenizer does not load, the times at which
    the library is asked are at least five seconds apart. *)
Theorem failed_loads_rate_limited p ts :
  loadFor b slug (m !! slug) = None -> pool p !! slug = None -> Sorted Z.le ts ->
  StronglySorted (fun a c => a + kvTokenizerNegTTL <= c) (probeTimes p ts).
Proof.
  intros Hf Hp Hs. apply Sorted_StronglySorted in Hs; [|intros ?? ?; lia].
  assert (forall q, pool q !! slug = None -> StronglySorted (fun a c => a + kvTokenizerNegTTL <= c) (probeTimes q ts) /\
    forall t, t ∈ probeTimes q ts -> t ∈ ts /\ forall d, neg q !! slug = Some d -> d <= t) as H.
  2:{ by apply H. }
  clear p Hp. induction Hs as [|t ts Hs IH Ht]; intros q Hq; cbn [probeTimes]; [split; [constructor|set_solver]|].
  destruct (failed_probe q t Hf Hq) as [Hp' Hn']. cbv zeta in *. set (q' := (kvLoadTokenizer (Some b) m model t q).2) in *.
  destruct (IH q' Hp') as [H1 H2]. rewrite Forall_forall in Ht. destruct (asksBackend q t) eqn:Ea.
  - split.
    + constructor; [done|]. apply Forall_forall. intros c Hc. by apply (H2 c Hc).
    + intros c [->|Hc]%elem_of_cons.
      * split; [set_solver|]. intros d Hd. unfold asksBackend in Ea. rewrite Hq, Hd in Ea. apply negb_true_iff, Z.ltb_ge in Ea. lia.
      * destruct (H2 c Hc) as [Hin Hd]. split; [set_solver|]. intros d Hd'. unfold asksBackend in Ea. rewrite Hq, Hd' in Ea. apply negb_true_iff, Z.ltb_ge in Ea.
        specialize (Ht c Hin). lia.
  - split; [done|]. intros c Hc. destruct (H2 c Hc) as [Hin Hd]. split; [set_solver|]. intros d Hd'. apply Hd. by rewrite Hn'.
Qed.
End Probes.

(** ** The bridge *)

Section Bridge.
Context {tok : Type} (tokenize : string -> string -> Z -> bool -> tokState tok -> list Z * tokState tok)
  (encodingOf : string -> string -> option kvCompletionsEncoding).

(** The completions bridge keeps its error classes apart. It returns tokens
    exactly with code zero. A denied rule is refused as not ready before any
    tokenizer or cache is touched. A rule without a binding never sees a strict
    code. The attestation controller is kicked only by a strict request that was
    admitted with its binding, has a text, a model and room for tokens, carries no
    NUL, and still got no tokens; a request-class refusal never kicks it. *)
Theorem bridge_error_discipline svcID bindingGen text model max d s :
  let '(ids, rc, kick, s') := kvBridgeTokenize tokenize encodingOf svcID bindingGen text model max d s in
  (rc = 0 <-> ids <> []) /\
  (svcID <> 0 -> kvSvcDenied svcID (dpContracts d) = true -> rc = KvTokErrNotReady /\ s' = s /\ kick = false) /\
  (bindingGen = 0 -> rc = 0 \/ rc = KvTokErrRequest \/ rc = KvTokErrNotReady) /\
  (rc = KvTokErrRequest \/ rc = KvTokErrUnsupported -> kick = false) /\
  (kick = true -> rc = KvTokErrTokenizer /\ bindingGen <> 0 /\ (exists b, kvBridgeBinding svcID bindingGen d = (Some b, 0)) /\
     text <> ""%string /\ model <> ""%string /\ 0 < max /\ String.index 0 nul text = None).
Proof.
  assert (forall sv bg dd ob rc, kvBridgeBinding sv bg dd = (ob, rc) ->
    (rc = 0 /\ (bg <> 0 -> exists b, ob = Some b) /\ (bg = 0 -> ob = None) /\ (sv <> 0 -> kvSvcDenied sv (dpContracts dd) = false)) \/
    (rc = KvTokErrNotReady /\ ob = None) \/ (rc = KvTokErrProfile /\ ob = None /\ bg <> 0 /\ (sv <> 0 -> kvSvcDenied sv (dpContracts dd) = false))) as Hgate.
  { intros sv bg dd ob rc. unfold kvBridgeBinding.
    assert ((sv !=? 0) && kvSvcDenied sv (dpContracts dd) = false -> sv <> 0 -> kvSvcDenied sv (dpContracts dd) = false) as Hd.
    { intros [?%negb_false_iff%Z.eqb_eq|?]%andb_false_iff Hne; [done|done]. }
    destruct (_ && _); [intros [= <- <-]; tauto|]. specialize (Hd eq_refl). destruct (Z.eqb_spec bg 0); [intros [= <- <-]; left; naive_solver|].
    destruct (kvSvcRuleIdent sv _); [destruct (KvBindingResolve _ _ _) as [b|]|]; intros [= <- <-]; [left|right; right..]; naive_solver. }
  unfold kvBridgeTokenize. destruct (kvBridgeBinding svcID bindingGen d) as [ob rc0] eqn:Eg.
  destruct (Hgate _ _ _ _ _ Eg) as [(-> & Hsome & Hnone & Hden)|[(-> & ->)|(-> & -> & Hbg & Hden)]]; cbn [Z.eqb negb].
  2:{ unfold KvTokErrNotReady, KvTokErrRequest, KvTokErrUnsupported. cbn. naive_solver. }
  2:{ unfold KvTokErrProfile, KvTokErrNotReady, KvTokErrRequest, KvTokErrUnsupported. cbn. split; [naive_solver|]. split; [intros H1 H2; by rewrite (Hden H1) in H2|]. naive_solver. }
  assert (svcID <> 0 -> kvSvcDenied svcID (dpContracts d) = true -> False) as Hd' by (intros H1 H2; by rewrite (Hden H1) in H2).
  destruct ((text ==s "") || (model ==s "") || (max <=? 0)) eqn:Eargs.
  { unfold KvTokErrRequest. cbn. naive_solver. }
  split_bools. unfold kvBridgeNulGuard. destruct (String.index 0 nul text) as [i|] eqn:Ei.
  { destruct (Z.eqb_spec bindingGen 0); unfold KvTokErrRequest, KvTokErrUnsupported; cbn; naive_solver. }
  cbn [Z.eqb negb]. destruct ob as [b|].
  - assert (bindingGen <> 0) as Hbg by (intros H'; by specialize (Hnone H')). destruct (Z.eqb_spec bindingGen 0); [done|]. cbn [negb].
    destruct (encodingOf _ _) as [e|]; [|unfold KvTokErrProfile, KvTokErrRequest, KvTokErrUnsupported; cbn; naive_solver].
    destruct (kvEncodeCompletions _ _ _ _ _ _) as [[ids|] s1]; [|unfold KvTokErrProfile, KvTokErrRequest, KvTokErrUnsupported; cbn; naive_solver].
    cbn [Z.eqb negb]. destruct ids as [|x ids]; cbn; unfold KvTokErrTokenizer, KvTokErrRequest, KvTokErrUnsupported; naive_solver.
  - assert (bindingGen = 0) as -> by (destruct (decide (bindingGen = 0)) as [|Hne]; [done|]; by destruct (Hsome Hne)).
    destruct (tokenize _ _ _ _ _) as [ids s1]. cbn [Z.eqb negb]. destruct ids as [|x ids]; cbn; unfold KvTokErrRequest, KvTokErrUnsupported; naive_solver.
Qed.
End Bridge.

(** ** Runs *)

Definition codes (s : string) : list Z := (fun c => Z.of_nat (Ascii.nat_of_ascii c)) <$> String.list_ascii_of_string s.

Lemma codes_app a b : codes (a ++ b)%string = codes a ++ codes b.
Proof. unfold codes. induction a as [|c a IH]; [done|]. simpl. by f_equal. Qed.

Definition plainEnv : Env := fun _ => ""%string.

(** A tokenizer with one identifier per byte, behind a beginning-of-text one. *)
Definition byteBackend : backend unit := Backend (fun _ => Some tt) None (fun _ t sp => if sp then 1 :: codes t else codes t).

Definition emptyTok : tokState unit := TokState (TokPool ∅ 0 ∅) (TokenCache ∅ []) ∅.

Definition demoRequests : list request :=
  [Request "hello" "org/m" true 0; Request "hello" "org/m" false 1; Request "hello" "org/m" true 2].

Definition sameText (s : string) : string := s.

Lemma demoRequests_agree : noCollision sameText plainEnv 8 demoRequests.
Proof.
  intros r1 r2 H1 H2 E. unfold demoRequests in *.
  repeat (apply elem_of_cons in H1 as [->|H1]); try (by apply elem_of_nil in H1);
    repeat (apply elem_of_cons in H2 as [->|H2]); try (by apply elem_of_nil in H2); (done || (by vm_compute in E)).
Qed.

Lemma token_cache_witness :
  (serveAll sameText plainEnv byteBackend 1 8 emptyTok demoRequests).1 =
  [[1; 104; 101; 108; 108; 111]; [104; 101; 108; 108; 111]; [1; 104; 101; 108; 108; 111]].
Proof.
  pose proof (token_cache_transparent sameText plainEnv byteBackend 1 8 ∅ demoRequests emptyTok ltac:(lia) ltac:(lia) demoRequests_agree) as H.
  destruct (serveAll sameText plainEnv byteBackend 1 8 emptyTok demoRequests) as [out s']. destruct H as [-> _]; [|vm_compute; reflexivity].
  split; [reflexivity| | |].
  - split; cbn; intros slug x Hx; by rewrite lookup_empty in Hx.
  - split; cbn; [rewrite map_size_empty; lia|]. intros k [? Hk]. by rewrite lookup_empty in Hk.
  - cbn. intros k ids Hk. by rewrite lookup_empty in Hk.
Defined.

Fixpoint repeatStr (n : nat) (c : Ascii.ascii) : string := match n with O => EmptyString | S n' => String c (repeatStr n' c) end.

Lemma codes_local : localTokenizer codes.
Proof.
  intros t rest. rewrite codes_app. exists (drop (length (codes t) - Z.to_nat kvTokenizeCutGuard) (codes t) ++ codes rest).
  by rewrite app_assoc, take_drop.
Qed.

Lemma bounded_ids_witness : cutIds true 5 (codes (repeatStr 80 "a"%char)) `prefix_of` take 5 (codes (repeatStr 90 "a"%char)).
Proof.
  pose proof (bounded_ids_are_prefix plainEnv codes (repeatStr 90 "a"%char) 5 ltac:(unfold two32; lia) codes_local) as H.
  assert (kvTokenizeBound plainEnv (repeatStr 90 "a"%char) 5 = (repeatStr 80 "a"%char, true)) as E by (vm_compute; reflexivity).
  rewrite E in H. apply H. right. vm_compute. split; [reflexivity|right; discriminate].
Defined.

Definition brokenBackend : backend unit := Backend (fun _ => None) None (fun _ _ _ => []).

Lemma failed_loads_witness :
  probeTimes brokenBackend ∅ "m" (TokPool ∅ 0 ∅) [0; 1; 5000000000; 6000000000] = [0; 5000000000] /\
  StronglySorted (fun a c => a + kvTokenizerNegTTL <= c) (probeTimes brokenBackend ∅ "m" (TokPool ∅ 0 ∅) [0; 1; 5000000000; 6000000000]).
Proof.
  split; [vm_compute; reflexivity|]. apply failed_loads_rate_limited; [reflexivity|reflexivity|].
  repeat constructor; lia.
Defined.

(** ** Where the caches show *)

(** A tokenizer with one identifier per sixteen bytes. *)
Fixpoint wideIds (n : nat) (l : list Z) : list Z :=
  match n with
  | O => []
  | S n' => match l with [] => [] | x :: _ => x :: wideIds n' (drop 16 l) end
  end.

Definition wideBackend : backend unit := Backend (fun _ => Some tt) None (fun _ t _ => wideIds (String.length t) (codes t)).

(** The key of a cached answer does not say whether the text was cut: a text of
    exactly the limit gets the shortened answer of a longer text it begins. *)
Lemma cut_is_not_in_the_key :
  let long := Request (repeatStr 1700 "a"%char) "m" false 0 in
  let exact := Request (repeatStr 1600 "a"%char) "m" false 1 in
  length (direct plainEnv wideBackend 100 ∅ exact) = 100%nat /\
  (fun ids => length ids) <$> (serveAll sameText plainEnv wideBackend 4096 100 emptyTok [long; exact]).1 = [36%nat; 36%nat] /\
  (fun ids => length ids) <$> (serveAll sameText plainEnv wideBackend 4096 100 emptyTok [exact; long]).1 = [100%nat; 100%nat].
Proof. vm_compute. auto. Qed.

(** A tokenizer whose last twenty identifiers depend on where the text ends is
    local, yet a bounded text of fewer than a guard's worth of identifiers above
    the limit keeps identifiers the whole text does not have. *)
Definition endIds (t : string) : list Z :=
  let l := codes t in take (length l - 20) l ++ (Z.add 1000 <$> drop (length l - 20) l).

Lemma endIds_local : localTokenizer endIds.
Proof.
  intros t rest. unfold endIds, kvTokenizeCutGuard. rewrite codes_app, length_app. set (l := codes t). set (r := codes rest).
  rewrite length_app, length_fmap, length_take, length_drop. 
  replace (length l - 20 `min` length l + (length l - (length l - 20)) - Z.to_nat 64)%nat with (length l - 64)%nat by lia.
  replace (Nat.min (length l - 20) (length l) + (length l - (length l - 20)) - Z.to_nat 64)%nat with (length l - 64)%nat by lia.
  rewrite take_app_le by (rewrite length_take; lia). rewrite take_take, Nat.min_l by lia.
  apply prefix_app_r. rewrite take_app. 
  exists (drop (length l - 64) (take (length l + length r - 20) l) ++ take (length l + length r - 20 - length l) r).
  rewrite app_assoc. f_equal. rewrite <- (take_drop (length l - 64) (take (length l + length r - 20) l)) at 1. f_equal. rewrite take_take. f_equal. lia.
Qed.

Lemma guard_leaves_a_gap :
  localTokenizer endIds /\
  (let '(t, cut) := kvTokenizeBound plainEnv (repeatStr 40 "a"%char) 1 in cutIds cut 1 (endIds t)) = [1097] /\
  take 1 (endIds (repeatStr 40 "a"%char)) = [97].
Proof. split; [exact endIds_local|]. vm_compute. auto. Qed.

(** Publishing a generation of the registry empties the pool, not the token cache:
    the identifiers of the previous tokenizer are served on. *)
Definition pinned (bytes : string) : gmap string profEntry := {[ "m"%string := ProfEntry "p" bytes bytes ]}.

Definition byBytes : backend string := Backend (fun _ => None) (Some (fun bytes => Some bytes)) (fun x t _ => codes x ++ codes t).

Definition emptyFor (m : gmap string profEntry) : tokState string := TokState (TokPool ∅ 0 ∅) (TokenCache ∅ []) m.

Lemma published_tokenizer_not_used :
  let r := Request "hi" "m" false 0 in
  let s := (serve sameText plainEnv byBytes 4096 8 (emptyFor (pinned "A")) r).2 in
  let s' := KvProfilePublish (pinned "B") s in
  (serve sameText plainEnv byBytes 4096 8 s' r).1 = [65; 104; 105] /\ direct plainEnv byBytes 8 (pinned "B") r = [66; 104; 105].
Proof. vm_compute. auto. Qed.

(** A load that resolves its identity before a publication and reads the pool's
    generation after it commits the previous tokenizer into the new pool. *)
Lemma old_identity_commits_into_new_pool :
  let s := emptyFor (pinned "A") in
  let prof := (kvTokenizerLoadIdentity (tsByModel s) "m").2 in
  let s' := KvProfilePublish (pinned "B") s in
  let ep := epoch (tsPool s') in
  let '(t, stale, p') := kvTokenizerLoadAndCommit byBytes "m" prof ep 0 (tsPool s') in
  stale = false /\ pool p' !! "m"%string = Some "A"%string /\ loadFor byBytes "m" (tsByModel s' !! "m"%string) = Some "B"%string.
Proof. vm_compute. auto. Qed.

(** With the generation read first, the same publication makes the load stale. *)
Lemma reset_discards_load {tok} (slug : string) (t : option tok) now p :
  0 <= epoch p < two64 -> commitLoad slug (epoch p) t now (KvTokenizerPoolReset p) = (None, true, KvTokenizerPoolReset p).
Proof.
  intros Hp. unfold commitLoad, KvTokenizerPoolReset. cbn [epoch]. destruct (Z.eqb_spec (u64 (epoch p + 1)) (epoch p)) as [E|]; [|done].
  exfalso. unfold u64, two64 in *. destruct (decide (epoch p = 18446744073709551615)) as [H|]; [rewrite H in E; by vm_compute in E|]. rewrite Z.mod_small in E; lia.
Qed.

(** An admitted strict request whose text encodes to nothing kicks the controller. *)
Lemma empty_encoding_kicks {tok} (tokenize : string -> string -> Z -> bool -> tokState tok -> list Z * tokState tok) d s b :
  kvBridgeBinding 5 7 d = (Some b, 0) -> (forall t m x sp s, (tokenize t m x sp s).1 = []) ->
  let '(_, rc, kick, _) := kvBridgeTokenize tokenize (fun _ _ => Some (Encoding "vllm-kv-map-v2" (Quirks false false 0) 0 false)) 5 7 " " "m" 4096 d s in
  rc = KvTokErrTokenizer /\ kick = true.
Proof.
  intros Hb Ht. unfold kvBridgeTokenize. rewrite Hb. cbn. specialize (Ht " "%string "m"%string 4096 true s).
  unfold kvEncodeCompletions. cbn. destruct (tokenize _ _ _ _ s) as [ids s']. cbn in Ht. subst ids. done.
Qed.
