(* ===== verification/KvAttest.v ===== *)
(** * KvAttest: the readiness ladder of a KV-exact rule

    pkg/loxinet/ai_kv_attest.go: the controller that alone may make a rule
    eligible, its ladder, its cadence and its registry.
    pkg/loxinet/ai_kv_capability.go: the agreement with the cluster's peers.  What
    the controller reaches through its dependencies (probes, the install
    transaction, manifests, the clock) acts on a world [W] of its own; every call
    that is seen from outside is recorded, in order. *)

From S2P Require Import Prelude KvSelect KvInventory KvEngines KvStream KvBinding KvTokens.

Open Scope Z_scope.
Open Scope igw_scope.

(** ** States and reasons *)

Inductive exactState :=
  | ProfileValidated | TokenParity | TokenParityNoOracle | HashAttested
  | Ready | ReadyFunctional | Degrading | Degraded | EnforcementFault.

#[export] Instance exactState_eq_dec : EqDecision exactState.
Proof. solve_decision. Defined.

Definition isReady (s : exactState) : bool := match s with Ready | ReadyFunctional => true | _ => false end.

Definition KvAttestReasonNoEndpoints : string := "no_endpoints".
Definition KvAttestReasonAdapterUnavailable : string := "adapter_unavailable".
Definition KvAttestReasonManifestMissing : string := "manifest_missing".
Definition KvAttestReasonStale : string := "attestation_stale".
Definition KvAttestReasonProfileResolution : string := "profile_resolution_fault".
Definition KvAttestReasonPeerMismatch : string := "peer_capability_mismatch".
Definition KvAttestReasonEnforcementFault : string := "enforcement_fault".
Definition KvAttestReasonAttestationPending : string := "attestation_pending".
Definition KvAttestReasonHashPending : string := "hash_attestation_pending".
Definition KvAttestReasonChallengeCadence : string := "challenge_cadence".
Definition KvAttestReasonManifestChanged : string := "manifest_changed".
Definition KvTrtllmFaultOwnershipLostName : string := "drain_ownership_lost".

(** ** Identities *)

Record KvAttestEndpoint := AttestEndpoint { aeIdx : Z; aeIP : string; aePort : Z }.

Record kvChallengePlan := ChallengePlan { cacheChunk : Z; lastBlock : bool; encoding : kvCompletionsEncoding }.

Record kvAttestRuleInfo := RuleInfo {
  aiSvc : Z;
  aiRule : string;
  aiModel : string;
  aiEngine : string;
  aiHashAlgo : string;
  aiBlockSize : Z;
  aiProfile : string;
  aiChat : bool;
  aiCompl : bool;
  aiDpRanks : Z;
  aiZmqPort : Z;
  aiPdMode : bool;
  aiPdBootstrapPort : Z;
  aiDecodeEPs : list KvAttestEndpoint;
  aiChallenge : kvChallengePlan
}.

#[export] Instance quirks_eq_dec : EqDecision KvEngineQuirks.
Proof. solve_decision. Defined.
#[export] Instance encoding_eq_dec : EqDecision kvCompletionsEncoding.
Proof. solve_decision. Defined.
#[export] Instance plan_eq_dec : EqDecision kvChallengePlan.
Proof. solve_decision. Defined.
#[export] Instance attestEndpoint_eq_dec : EqDecision KvAttestEndpoint.
Proof. solve_decision. Defined.
#[export] Instance ruleInfo_eq_dec : EqDecision kvAttestRuleInfo.
Proof. solve_decision. Defined.

Record KvAttestManifest := Manifest { mfDigest : string; mfEngineVersion : string }.

Record KvAttestFinding := Finding { fOK : bool; fReason : string; fDetail : string; fOracle : bool }.

Inductive probeKind := Identity | TokenParityProbe | HashEcho.

Definition kindName (k : probeKind) : string :=
  match k with Identity => "identity" | TokenParityProbe => "token_parity" | HashEcho => "hash_echo" end.

Record KvAttestReceipt := Receipt {
  rcKind : probeKind;
  rcEndpoint : KvAttestEndpoint;
  rcOK : bool;
  rcReason : string;
  rcDetail : string;
  rcAt : Z;
  rcManifest : string
}.

Definition kvAttestReceiptCap : nat := 32.

Record kvAttestController := Controller {
  cInfo : kvAttestRuleInfo;
  cDesired : exactState;
  cEnforced : exactState;
  cReasons : list string;
  cReceipts : list KvAttestReceipt;
  cLastProbeOK : option Z;      (* None: the zero time *)
  cLastEchoOK : option Z;
  cManifestSeen : string;
  cManifestSeenVer : string;
  cManifestLoaded : bool;
  cStopped : bool;              (* stop is closed *)
  cKicks : list string          (* the channel, four deep *)
}.

Definition newKvAttestController (info : kvAttestRuleInfo) : kvAttestController :=
  Controller info Ready ProfileValidated [KvAttestReasonAttestationPending] [] None None "" "" false false [].

(** ** Dependencies and effects *)

Inductive effect :=
  | EProbe (k : probeKind) (ep : KvAttestEndpoint) (ok : bool)
  | EApply (eligible : Z) (ok : bool)
  | EGauge (s : exactState).

Section Ladder.
Context {W : Type}.

Record kvAttestAdapter := Adapter {
  IdentityProbe : KvAttestEndpoint -> KvAttestManifest -> W -> KvAttestFinding * W;
  TokenParity_Probe : KvAttestEndpoint -> kvAttestRuleInfo -> W -> KvAttestFinding * W;
  HashChallenge : KvAttestEndpoint -> kvAttestRuleInfo -> W -> KvAttestFinding * W
}.

(** [drainOwnership] gives a receipt: faulted, with its reason. *)
Record kvAttestDeps := Deps {
  adapterFor : string -> option kvAttestAdapter;
  endpoints : Z -> W -> list KvAttestEndpoint;
  apply : Z -> Z -> W -> bool * W;
  manifest : string -> W -> option KvAttestManifest;
  profileFreshness : option (string -> W -> bool);
  drainOwnership : option (Z -> Z -> W -> option (bool * string));
  peerGate : option (kvAttestRuleInfo -> W -> bool * string);
  now : W -> Z;
  requireManifest : bool;
  functionalOnly : bool;
  probeCadence : Z;
  challengeCadence : Z
}.

Record ladderSt := LadderSt { lcC : kvAttestController; lcW : W; lcLog : list effect }.

Definition emit (e : effect) (s : ladderSt) : ladderSt := LadderSt (lcC s) (lcW s) (lcLog s ++ [e]).
Definition setC (c : kvAttestController) (s : ladderSt) : ladderSt := LadderSt c (lcW s) (lcLog s).

Definition withDesired (d : exactState) (c : kvAttestController) : kvAttestController :=
  Controller (cInfo c) d (cEnforced c) (cReasons c) (cReceipts c) (cLastProbeOK c) (cLastEchoOK c)
    (cManifestSeen c) (cManifestSeenVer c) (cManifestLoaded c) (cStopped c) (cKicks c).
Definition withEnforced (e : exactState) (rs : list string) (c : kvAttestController) : kvAttestController :=
  Controller (cInfo c) (cDesired c) e rs (cReceipts c) (cLastProbeOK c) (cLastEchoOK c)
    (cManifestSeen c) (cManifestSeenVer c) (cManifestLoaded c) (cStopped c) (cKicks c).
Definition withReceipts (rs : list KvAttestReceipt) (c : kvAttestController) : kvAttestController :=
  Controller (cInfo c) (cDesired c) (cEnforced c) (cReasons c) rs (cLastProbeOK c) (cLastEchoOK c)
    (cManifestSeen c) (cManifestSeenVer c) (cManifestLoaded c) (cStopped c) (cKicks c).
Definition withProbeOK (t : Z) (c : kvAttestController) : kvAttestController :=
  Controller (cInfo c) (cDesired c) (cEnforced c) (cReasons c) (cReceipts c) (Some t) (cLastEchoOK c)
    (cManifestSeen c) (cManifestSeenVer c) (cManifestLoaded c) (cStopped c) (cKicks c).
Definition withEchoOK (t : Z) (c : kvAttestController) : kvAttestController :=
  Controller (cInfo c) (cDesired c) (cEnforced c) (cReasons c) (cReceipts c) (cLastProbeOK c) (Some t)
    (cManifestSeen c) (cManifestSeenVer c) (cManifestLoaded c) (cStopped c) (cKicks c).
Definition withManifest (d v : string) (c : kvAttestController) : kvAttestController :=
  Controller (cInfo c) (cDesired c) (cEnforced c) (cReasons c) (cReceipts c) (cLastProbeOK c) (cLastEchoOK c)
    d v true (cStopped c) (cKicks c).
Definition withKicks (ks : list string) (stopped : bool) (c : kvAttestController) : kvAttestController :=
  Controller (cInfo c) (cDesired c) (cEnforced c) (cReasons c) (cReceipts c) (cLastProbeOK c) (cLastEchoOK c)
    (cManifestSeen c) (cManifestSeenVer c) (cManifestLoaded c) stopped ks.

Context (deps : kvAttestDeps).

(** A stopped controller changes its state but writes no gauge. *)
Definition publish (enforced : exactState) (reasons : list string) (s : ladderSt) : ladderSt :=
  let s := setC (withEnforced enforced reasons (lcC s)) s in
  if cStopped (lcC s) then s else emit (EGauge enforced) s.

Definition addReceipt (k : probeKind) (ep : KvAttestEndpoint) (f : KvAttestFinding) (mdigest : string) (s : ladderSt) : ladderSt :=
  let r := Receipt k ep (fOK f) (fReason f) (fDetail f) (now deps (lcW s)) mdigest in
  let rs := cReceipts (lcC s) ++ [r] in
  setC (withReceipts (if Nat.ltb kvAttestReceiptCap (length rs) then drop (length rs - kvAttestReceiptCap) rs else rs) (lcC s)) s.

(** A probe against one endpoint. *)
Definition probe (k : probeKind) (ep : KvAttestEndpoint) (run : W -> KvAttestFinding * W) (s : ladderSt) : KvAttestFinding * ladderSt :=
  let '(f, w) := run (lcW s) in
  (f, LadderSt (lcC s) w (lcLog s ++ [EProbe k ep (fOK f)])).

Definition doApply (eligible : Z) (s : ladderSt) : bool * ladderSt :=
  let '(ok, w) := apply deps (aiSvc (cInfo (lcC s))) eligible (lcW s) in
  (ok, LadderSt (lcC s) w (lcLog s ++ [EApply eligible ok])).

Definition drainOwnershipFault (info : kvAttestRuleInfo) (w : W) (eps : list KvAttestEndpoint) : string :=
  if negb (aiEngine info ==s "trtllm") then ""
  else match drainOwnership deps with
       | None => ""
       | Some own =>
           foldr (fun ep rest =>
             match own (aiSvc info) (aeIdx ep) w with
             | None => KvTrtllmFaultOwnershipLostName
             | Some (true, r) => if negb (r ==s "") then r else KvTrtllmFaultOwnershipLostName
             | Some (false, _) => rest
             end) "" eps
       end.

(** Rung 1 over the endpoints: the parity state, or nothing after a failure was
    published. *)
Fixpoint rung1 (ad : kvAttestAdapter) (mf : option KvAttestManifest) (mdigest : string) (eps : list KvAttestEndpoint) (parity : exactState) (s : ladderSt)
    : option exactState * ladderSt :=
  match eps with
  | [] => (Some parity, s)
  | ep :: eps' =>
      let '(bad, s) :=
        match mf with
        | Some m =>
            let '(f, s) := probe Identity ep (IdentityProbe ad ep m) s in
            let s := addReceipt Identity ep f mdigest s in
            if fOK f then (None, s) else (Some (fReason f), s)
        | None => (None, s)
        end in
      match bad with
      | Some reason => (None, publish ProfileValidated [reason] s)
      | None =>
          let '(f, s) := probe TokenParityProbe ep (TokenParity_Probe ad ep (cInfo (lcC s))) s in
          let s := addReceipt TokenParityProbe ep f mdigest s in
          if negb (fOK f) then (None, publish ProfileValidated [fReason f] s)
          else rung1 ad mf mdigest eps' (if fOracle f then TokenParityNoOracle else parity) s
      end
  end.

(** Rung 2: the echo challenge on every endpoint. *)
Fixpoint rung2 (ad : kvAttestAdapter) (mdigest : string) (parity : exactState) (eps : list KvAttestEndpoint) (s : ladderSt) : bool * ladderSt :=
  match eps with
  | [] => (true, s)
  | ep :: eps' =>
      let '(f, s) := probe HashEcho ep (HashChallenge ad ep (cInfo (lcC s))) s in
      let s := addReceipt HashEcho ep f mdigest s in
      if negb (fOK f) then (false, publish parity [fReason f] s) else rung2 ad mdigest parity eps' s
  end.

(** The freshness of the profile's artifacts on disk. *)
Definition fresh (info : kvAttestRuleInfo) (w : W) : bool :=
  match profileFreshness deps with
  | Some check => if negb (aiProfile info ==s "") then check (aiProfile info) w else true
  | None => true
  end.

Definition manifestDigest (mf : option KvAttestManifest) : string := match mf with Some m => mfDigest m | None => "" end.

Definition runLadder (s : ladderSt) : ladderSt :=
  let info := cInfo (lcC s) in
  let eps := endpoints deps (aiSvc info) (lcW s) in
  match eps with
  | [] => publish ProfileValidated [KvAttestReasonNoEndpoints] s
  | _ =>
      match adapterFor deps (aiEngine info) with
      | None => publish ProfileValidated [KvAttestReasonAdapterUnavailable] s
      | Some ad =>
          if negb (fresh info (lcW s)) then publish ProfileValidated [KvAttestReasonProfileResolution] s
          else
            let reason := drainOwnershipFault info (lcW s) eps in
            if negb (reason ==s "") then publish ProfileValidated [reason] s
            else
              let mf := manifest deps (aiProfile info) (lcW s) in
              let mdigest := manifestDigest mf in
              let s := setC (withManifest mdigest (match mf with Some m => mfEngineVersion m | None => "" end) (lcC s)) s in
              match rung1 ad mf mdigest eps TokenParity s with
              | (None, s) => s
              | (Some parity, s) =>
                  let s := setC (withProbeOK (now deps (lcW s)) (lcC s)) s in
                  let s := if bool_decide (cEnforced (lcC s) = parity) then s else publish parity [KvAttestReasonHashPending] s in
                  match rung2 ad mdigest parity eps s with
                  | (false, s) => s
                  | (true, s) =>
                      let s := setC (withEchoOK (now deps (lcW s)) (lcC s)) s in
                      let have := match mf with Some _ => true | None => false end in
                      if negb have && (requireManifest deps || negb (functionalOnly deps)) then publish HashAttested [KvAttestReasonManifestMissing] s
                      else
                        let ready := if have then Ready else ReadyFunctional in
                        let '(ok, reason) := match peerGate deps with Some g => g (cInfo (lcC s)) (lcW s) | None => (true, ""%string) end in
                        if negb ok then publish HashAttested [KvAttestReasonPeerMismatch; reason] s
                        else
                          let '(applied, s) := doApply 1 s in
                          if negb applied then publish EnforcementFault [KvAttestReasonEnforcementFault] s
                          else publish ready [] s
                  end
              end
      end
  end.

Definition fenceAndReattest (reason : string) (s : ladderSt) : ladderSt :=
  let s := setC (withDesired Degrading (lcC s)) s in
  let '(ok, s) := doApply 0 s in
  if negb ok then
    publish EnforcementFault [KvAttestReasonEnforcementFault; reason] (setC (withDesired Ready (lcC s)) s)
  else
    let s := publish Degraded [reason] s in
    runLadder (setC (withDesired Ready (lcC s)) s).

(** The probes of a sweep: nothing, or the reason of the first failure. *)
Fixpoint sweepProbes (ad : kvAttestAdapter) (mf : option KvAttestManifest) (eps : list KvAttestEndpoint) (s : ladderSt) : option string * ladderSt :=
  match eps with
  | [] => (None, s)
  | ep :: eps' =>
      let '(bad, s) :=
        match mf with
        | Some m => let '(f, s) := probe Identity ep (IdentityProbe ad ep m) s in (if fOK f then None else Some (fReason f), s)
        | None => (None, s)
        end in
      match bad with
      | Some r => (Some r, s)
      | None =>
          let '(f, s) := probe TokenParityProbe ep (TokenParity_Probe ad ep (cInfo (lcC s))) s in
          if negb (fOK f) then (Some (fReason f), s) else sweepProbes ad mf eps' s
      end
  end.

Definition probeSweep (s : ladderSt) : bool * ladderSt :=
  let info := cInfo (lcC s) in
  let eps := endpoints deps (aiSvc info) (lcW s) in
  match eps with
  | [] => (false, fenceAndReattest KvAttestReasonNoEndpoints s)
  | _ =>
      match adapterFor deps (aiEngine info) with
      | None => (false, fenceAndReattest KvAttestReasonAdapterUnavailable s)
      | Some ad =>
          if negb (fresh info (lcW s)) then (false, fenceAndReattest KvAttestReasonProfileResolution s)
          else
            let reason := drainOwnershipFault info (lcW s) eps in
            if negb (reason ==s "") then (false, fenceAndReattest reason s)
            else
              let mf := manifest deps (aiProfile info) (lcW s) in
              if negb (manifestDigest mf ==s cManifestSeen (lcC s)) then (false, fenceAndReattest KvAttestReasonManifestChanged s)
              else match sweepProbes ad mf eps s with
                   | (Some r, s) => (false, fenceAndReattest r s)
                   | (None, s) => (true, setC (withProbeOK (now deps (lcW s)) (lcC s)) s)
                   end
      end
  end.

(** [t] is longer ago than [age]; the zero time is long ago. *)
Definition olderThan (nw age : Z) (t : option Z) (zero : bool) : bool := match t with Some x => nw - x >? age | None => zero end.

Definition cadenceCheck (s : ladderSt) : ladderSt :=
  let c := lcC s in
  match cEnforced c with
  | Ready | ReadyFunctional =>
      let nw := now deps (lcW s) in
      if olderThan nw (2 * probeCadence deps) (cLastProbeOK c) false then fenceAndReattest KvAttestReasonStale s
      else if olderThan nw (2 * challengeCadence deps) (cLastEchoOK c) false then fenceAndReattest KvAttestReasonStale s
      else
        match probeSweep s with
        | (false, s) => s
        | (true, s) => if olderThan nw (challengeCadence deps) (cLastEchoOK c) true then fenceAndReattest KvAttestReasonChallengeCadence s else s
        end
  | EnforcementFault => s
  | _ => runLadder s
  end.

(** ** The loop *)

Definition Kick (reason : string) (c : kvAttestController) : kvAttestController :=
  if Nat.ltb (length (cKicks c)) 4 then withKicks (cKicks c ++ [reason]) (cStopped c) c else c.

(** What the goroutine does next: a kick with the rest of the backlog dropped, or
    a tick; nothing once stopped. *)
Inductive loopInput := LKick | LTick.

Definition loopStep (i : loopInput) (s : ladderSt) : ladderSt :=
  if cStopped (lcC s) then s
  else match i with
       | LKick =>
           match cKicks (lcC s) with
           | [] => s
           | reason :: _ => fenceAndReattest reason (setC (withKicks [] (cStopped (lcC s)) (lcC s)) s)
           end
       | LTick => cadenceCheck s
       end.

End Ladder.

Arguments kvAttestAdapter : clear implicits.
Arguments kvAttestDeps : clear implicits.
Arguments ladderSt : clear implicits.

(** ** The registry of controllers *)

Definition stopC (c : kvAttestController) : kvAttestController := withKicks (cKicks c) true c.

(** The controllers in use, by service, and those that were replaced or stopped:
    their goroutines run on until they look at the channel. *)
Record attestReg := AttestReg { arLive : gmap Z kvAttestController; arGone : list kvAttestController }.

Definition KvAttestStart (info : kvAttestRuleInfo) (r : attestReg) : attestReg :=
  match arLive r !! aiSvc info with
  | Some old =>
      if bool_decide (cInfo old = info) then AttestReg (<[aiSvc info := Kick "re-activation" old]> (arLive r)) (arGone r)
      else AttestReg (<[aiSvc info := Kick "activation" (newKvAttestController info)]> (arLive r)) (stopC old :: arGone r)
  | None => AttestReg (<[aiSvc info := Kick "activation" (newKvAttestController info)]> (arLive r)) (arGone r)
  end.

Definition KvAttestStop (svcID : Z) (r : attestReg) : attestReg :=
  match arLive r !! svcID with
  | Some c => AttestReg (delete svcID (arLive r)) (stopC c :: arGone r)
  | None => r
  end.

Definition KvAttestKick (svcID : Z) (reason : string) (r : attestReg) : attestReg :=
  match arLive r !! svcID with
  | Some c => AttestReg (<[svcID := Kick reason c]> (arLive r)) (arGone r)
  | None => r
  end.

Definition KvAttestKickAll (reason : string) (ids : list Z) (r : attestReg) : attestReg := foldl (fun r id => KvAttestKick id reason r) r ids.

(** ** Agreement with the peers *)

Record KvCapabilityInfo := CapabilityInfo {
  SchemaMinor : Z;
  HashContractVer : string;
  ProfileSetDigest : string;
  AttestationPolicy : Z;
  BuildIdentity : string;
  ContractRegistryDigest : string;
  SupportCatalogDigest : string;
  ContractSchemaVer : string;
  EvidencePolicy : Z;
  capBindingDigest : string;
  capBindingGen : Z
}.

Definition withBinding (d : string) (g : Z) (c : KvCapabilityInfo) : KvCapabilityInfo :=
  CapabilityInfo (SchemaMinor c) (HashContractVer c) (ProfileSetDigest c) (AttestationPolicy c) (BuildIdentity c)
    (ContractRegistryDigest c) (SupportCatalogDigest c) (ContractSchemaVer c) (EvidencePolicy c) d g.

Definition kvCapabilityRespond (own : KvCapabilityInfo) (docs : list KvExactBindingMod) (req : KvCapabilityInfo) : KvCapabilityInfo :=
  if negb (capBindingDigest req ==s "") &&
     existsb (fun m => (BindingDigest m ==s capBindingDigest req) && (mBindingGen m ==? capBindingGen req)) docs
  then withBinding (capBindingDigest req) (capBindingGen req) own
  else own.

Definition kvCapabilityMatch (local peer : KvCapabilityInfo) : string :=
  if SchemaMinor peer <? SchemaMinor local then "peer_schema_minor_behind"
  else if negb (HashContractVer peer ==s HashContractVer local) then "hash_contract_ver_mismatch"
  else if negb (ProfileSetDigest peer ==s ProfileSetDigest local) then "profile_set_digest_mismatch"
  else if AttestationPolicy peer !=? AttestationPolicy local then "attestation_policy_mismatch"
  else if EvidencePolicy peer !=? EvidencePolicy local then "evidence_policy_mismatch"
  else if negb (ContractRegistryDigest peer ==s ContractRegistryDigest local) then "contract_registry_digest_mismatch"
  else if negb (SupportCatalogDigest peer ==s SupportCatalogDigest local) then "support_catalog_digest_mismatch"
  else if negb (ContractSchemaVer peer ==s ContractSchemaVer local) then "contract_schema_ver_mismatch"
  else if negb (capBindingDigest local ==s "") &&
          (negb (capBindingDigest peer ==s capBindingDigest local) || (capBindingGen peer !=? capBindingGen local))
       then "binding_not_converged_on_peer"
  else "".

(** The loop over the connected peers; [peer] answers the exchange or fails. *)
Fixpoint gateLoop (local : KvCapabilityInfo) (clients : list (KvCapabilityInfo -> option KvCapabilityInfo)) : bool * string :=
  match clients with
  | [] => (true, "")
  | peer :: rest =>
      match peer local with
      | None => (false, "peer_incapable")
      | Some p => let reason := kvCapabilityMatch local p in if negb (reason ==s "") then (false, reason) else gateLoop local rest
      end
  end.

Definition kvClusterCapabilityGate (own : KvCapabilityInfo) (bs : bindingStore) (clients : list (KvCapabilityInfo -> option KvCapabilityInfo))
    (info : kvAttestRuleInfo) : bool * string :=
  match clients with
  | [] => (true, "")
  | _ =>
      let local := match KvBindingCurrent (aiRule info) bs with
                   | Some b => withBinding (bDigest b) (BindingGen b) own
                   | None => own
                   end in
      gateLoop local clients
  end.
