(* ===== verification/KvAttestProps.v ===== *)
(** * KvAttestProps: eligibility is earned, and fenced before it is lost *)

From S2P Require Import Prelude KvSelect KvInventory KvEngines KvStream KvBinding KvBindingProps KvContractProps KvTokens KvAttest.

Open Scope Z_scope.
Open Scope igw_scope.

(** ** Effects *)

Definition isProbe (e : effect) : bool := match e with EProbe _ _ _ => true | _ => false end.
Definition okProbe (e : effect) : bool := match e with EProbe _ _ ok => ok | _ => false end.
Definition isApply (e : effect) : bool := match e with EApply _ _ => true | _ => false end.

(** The last install transaction the controller ran. *)
Definition lastApply (l : list effect) : option (Z * bool) :=
  foldl (fun a e => match e with EApply el ok => Some (el, ok) | _ => a end) None l.

Lemma lastApply_app l seg : Forall (fun e => isApply e = false) seg -> lastApply (l ++ seg) = lastApply l.
Proof.
  intros H. unfold lastApply. rewrite foldl_app. generalize (foldl (fun a e => match e with EApply el ok => Some (el, ok) | _ => a end) None l).
  induction H as [|e seg He _ IH]; intros a; simpl; [done|]. rewrite IH. by destruct e.
Qed.

Lemma lastApply_snoc l el ok : lastApply (l ++ [EApply el ok]) = Some (el, ok).
Proof. unfold lastApply. by rewrite foldl_app. Qed.

Section Ladder.
Context {W : Type} (deps : kvAttestDeps W).

(** A property of the world that probing does not change. *)
Definition probesKeep (P : W -> Prop) : Prop :=
  forall engine ad, adapterFor deps engine = Some ad -> forall ep w,
    (forall m, P w -> P (IdentityProbe ad ep m w).2) /\ (forall i, P w -> P (TokenParity_Probe ad ep i w).2) /\ (forall i, P w -> P (HashChallenge ad ep i w).2).

(** [s'] extends [s] by [seg], with the same rule; the controller's state may differ. *)
Record extends (s s' : ladderSt W) (seg : list effect) : Prop := {
  ex_log : lcLog s' = lcLog s ++ seg;
  ex_info : cInfo (lcC s') = cInfo (lcC s)
}.

Lemma extends_trans s1 s2 s3 a b : extends s1 s2 a -> extends s2 s3 b -> extends s1 s3 (a ++ b).
Proof. intros [H1 H2] [H3 H4]. split; [by rewrite H3, H1, app_assoc|congruence]. Qed.

Definition gaugeOf (s : ladderSt W) (e : exactState) : list effect := if cStopped (lcC s) then [] else [EGauge e].

Lemma publish_spec e rs (s : ladderSt W) :
  extends s (publish e rs s) (gaugeOf s e) /\ cEnforced (lcC (publish e rs s)) = e /\ lcW (publish e rs s) = lcW s.
Proof. unfold publish, gaugeOf. cbn. destruct (cStopped (lcC s)); (split; [split; cbn; by rewrite ?app_nil_r|done]). Qed.

Lemma probe_spec k ep run (s : ladderSt W) :
  let '(f, s') := probe k ep run s in
  extends s s' [EProbe k ep (fOK f)] /\ lcC s' = lcC s /\ lcW s' = (run (lcW s)).2.
Proof. unfold probe. destruct (run (lcW s)) as [f w]. done. Qed.

Lemma addReceipt_spec k ep f md (s : ladderSt W) :
  extends s (addReceipt deps k ep f md s) [] /\ cEnforced (lcC (addReceipt deps k ep f md s)) = cEnforced (lcC s) /\ lcW (addReceipt deps k ep f md s) = lcW s.
Proof. split; [split; cbn; by rewrite ?app_nil_r|done]. Qed.

(** A probe with its receipt. *)
Lemma probed_spec k ep run md (s : ladderSt W) f s' :
  probe k ep run s = (f, s') ->
  extends s (addReceipt deps k ep f md s') [EProbe k ep (fOK f)] /\
  cEnforced (lcC (addReceipt deps k ep f md s')) = cEnforced (lcC s) /\ lcW (addReceipt deps k ep f md s') = (run (lcW s)).2.
Proof.
  intros E. pose proof (probe_spec k ep run s) as H. rewrite E in H. destruct H as (H1 & H2 & H3).
  destruct (addReceipt_spec k ep f md s') as (R1 & R2 & R3). split; [exact (extends_trans _ _ _ _ _ H1 R1)|]. rewrite R2, R3, H2, H3. done.
Qed.

(** What a rung leaves behind when every endpoint passed. *)
Definition passed (kinds : list probeKind) (eps : list KvAttestEndpoint) (seg : list effect) : Prop :=
  Forall (fun e => okProbe e = true) seg /\ forall ep k, ep ∈ eps -> k ∈ kinds -> EProbe k ep true ∈ seg.

Definition parityState (p : exactState) : Prop := p = TokenParity \/ p = TokenParityNoOracle.

Lemma gaugeOf_noApply s e : Forall (fun e => isApply e = false) (gaugeOf s e).
Proof. unfold gaugeOf. destruct (cStopped _); repeat constructor. Qed.

Lemma rung1_spec (P : W -> Prop) engine ad mf md eps p s :
  probesKeep P -> adapterFor deps engine = Some ad -> parityState p -> P (lcW s) ->
  let '(r, s') := rung1 deps ad mf md eps p s in
  exists seg, extends s s' seg /\ Forall (fun e => isApply e = false) seg /\ P (lcW s') /\
  match r with
  | None => cEnforced (lcC s') = ProfileValidated
  | Some p' => parityState p' /\ cEnforced (lcC s') = cEnforced (lcC s) /\
      passed (TokenParityProbe :: match mf with Some _ => [Identity] | None => [] end) eps seg
  end.
Proof.
  intros HP Had. revert p s. induction eps as [|ep eps IH]; intros p s Hpar HPs; cbn [rung1].
  { exists []. split; [split; [by rewrite app_nil_r|done]|]. split; [constructor|]. split; [done|]. split; [done|]. split; [done|]. split; [constructor|set_solver]. }
  destruct (HP engine ad Had ep (lcW s)) as (Hid & _ & _).
  assert (exists bad s1 seg1, match mf with
     | Some m => let '(f, s) := probe Identity ep (IdentityProbe ad ep m) s in
         if fOK f then (None, addReceipt deps Identity ep f md s) else (Some (fReason f), addReceipt deps Identity ep f md s)
     | None => (None, s) end = (bad, s1) /\ extends s s1 seg1 /\ cEnforced (lcC s1) = cEnforced (lcC s) /\ P (lcW s1) /\ Forall (fun e => isApply e = false) seg1 /\
     (bad = None -> Forall (fun e => okProbe e = true) seg1 /\ (is_Some mf -> EProbe Identity ep true ∈ seg1))) as (bad & s1 & seg1 & -> & X1 & E1 & P1 & N1 & B1).
  { destruct mf as [m|].
    - destruct (probe Identity ep _ s) as [f s1] eqn:Ep. destruct (probed_spec _ _ _ md _ _ _ Ep) as (R1 & R2 & R3).
      destruct (fOK f) eqn:Ef; eexists _, _, _; (split; [done|]); (split; [exact R1|]); (split; [exact R2|]); rewrite R3; (split; [by apply Hid|]); (split; [by repeat constructor|]); [|done].
      intros _. split; [by repeat constructor|]. intros _. set_solver.
    - eexists _, _, []. split; [done|]. split; [split; [by rewrite app_nil_r|done]|]. split; [done|]. split; [done|]. split; [constructor|]. intros _. split; [constructor|]. by intros []. }
  destruct bad as [reason|].
  { destruct (publish_spec ProfileValidated [reason] s1) as (Q1 & Q2 & Q3). exists (seg1 ++ gaugeOf s1 ProfileValidated).
    split; [by eapply extends_trans|]. split; [apply Forall_app; split; [done|apply gaugeOf_noApply]|]. split; [by rewrite Q3|done]. }
  destruct (B1 eq_refl) as [Ok1 Id1]. destruct (HP engine ad Had ep (lcW s1)) as (_ & Htp & _).
  destruct (probe TokenParityProbe ep _ s1) as [f s2] eqn:Ep. destruct (probed_spec _ _ _ md _ _ _ Ep) as (R1 & R2 & R3).
  pose proof (extends_trans _ _ _ _ _ X1 R1) as X2. set (s3 := addReceipt deps TokenParityProbe ep f md s2) in *.
  assert (Forall (fun e => isApply e = false) (seg1 ++ [EProbe TokenParityProbe ep (fOK f)])) as N2 by (apply Forall_app; split; [done|by repeat constructor]).
  assert (P (lcW s3)) as P3 by (rewrite R3; by apply Htp).
  destruct (fOK f) eqn:Ef; cbn [negb].
  - specialize (IH (if fOracle f then TokenParityNoOracle else p) s3 ltac:(destruct (fOracle f); [by right|done]) P3).
    destruct (rung1 deps ad mf md eps _ s3) as [r s4]. destruct IH as (seg & X & N & P4 & Hr). exists ((seg1 ++ [EProbe TokenParityProbe ep true]) ++ seg).
    split; [by eapply extends_trans|]. split; [by apply Forall_app|]. split; [done|]. destruct r as [p'|]; [|done].
    destruct Hr as (Hp' & He & Hall & Hin). split; [done|]. split; [congruence|]. split; [rewrite !Forall_app; split; [split; [done|by repeat constructor]|done]|].
    intros ep' k [->|Hep]%elem_of_cons Hk.
    + apply elem_of_app. left. apply elem_of_cons in Hk as [->|Hk]; [set_solver|]. destruct mf; [|set_solver]. apply list_elem_of_singleton in Hk as ->.
      apply elem_of_app. left. by apply Id1.
    + apply elem_of_app. right. by apply Hin.
  - destruct (publish_spec ProfileValidated [fReason f] s3) as (Q1 & Q2 & Q3). eexists. split; [exact (extends_trans _ _ _ _ _ X2 Q1)|].
    split; [apply Forall_app; split; [done|apply gaugeOf_noApply]|]. split; [by rewrite Q3|done].
Qed.

Lemma rung2_spec (P : W -> Prop) engine ad md p eps s :
  probesKeep P -> adapterFor deps engine = Some ad -> P (lcW s) ->
  let '(r, s') := rung2 deps ad md p eps s in
  exists seg, extends s s' seg /\ Forall (fun e => isApply e = false) seg /\ P (lcW s') /\
  if r then cEnforced (lcC s') = cEnforced (lcC s) /\ passed [HashEcho] eps seg else cEnforced (lcC s') = p.
Proof.
  intros HP Had. revert s. induction eps as [|ep eps IH]; intros s HPs; cbn [rung2].
  { exists []. split; [split; [by rewrite app_nil_r|done]|]. split; [constructor|]. split; [done|]. split; [done|]. split; [constructor|set_solver]. }
  destruct (HP engine ad Had ep (lcW s)) as (_ & _ & Hhc).
  destruct (probe HashEcho ep _ s) as [f s2] eqn:Ep. destruct (probed_spec _ _ _ md _ _ _ Ep) as (R1 & R2 & R3).
  set (s3 := addReceipt deps HashEcho ep f md s2) in *. assert (P (lcW s3)) as P3 by (rewrite R3; by apply Hhc).
  destruct (fOK f) eqn:Ef; cbn [negb].
  - specialize (IH s3 P3). destruct (rung2 deps ad md p eps s3) as [r s4]. destruct IH as (seg & X & N & P4 & Hr).
    exists ([EProbe HashEcho ep true] ++ seg). split; [by eapply extends_trans|]. split; [apply Forall_app; split; [by repeat constructor|done]|]. split; [done|].
    destruct r; [|done]. destruct Hr as (He & Hall & Hin). split; [congruence|]. split; [apply Forall_app; split; [by repeat constructor|done]|].
    intros ep' k [->|Hep]%elem_of_cons Hk; apply elem_of_app; [left|right; by apply Hin]. apply list_elem_of_singleton in Hk as ->. set_solver.
  - destruct (publish_spec p [fReason f] s3) as (Q1 & Q2 & Q3). eexists. split; [exact (extends_trans _ _ _ _ _ R1 Q1)|].
    split; [apply Forall_app; split; [by repeat constructor|apply gaugeOf_noApply]|]. split; [by rewrite Q3|done].
Qed.

(** ** The transcript of a climb *)

(** Run the probes named in [seg] again from [w], on the rule's adapter and
    manifest: the world they leave, when every answer is the recorded one. *)
Fixpoint replay (ad : kvAttestAdapter W) (info : kvAttestRuleInfo) (mf : option KvAttestManifest) (seg : list effect) (w : W) : option W :=
  match seg with
  | [] => Some w
  | EGauge _ :: seg => replay ad info mf seg w
  | EApply _ _ :: _ => None
  | EProbe k ep ok :: seg =>
      let answer := match k with
                    | Identity => match mf with Some m => Some (IdentityProbe ad ep m w) | None => None end
                    | TokenParityProbe => Some (TokenParity_Probe ad ep info w)
                    | HashEcho => Some (HashChallenge ad ep info w)
                    end in
      match answer with
      | Some (f, w') => if Bool.eqb (fOK f) ok then replay ad info mf seg w' else None
      | None => None
      end
  end.

Lemma replay_app ad info mf a b w : replay ad info mf (a ++ b) w = replay ad info mf a w ≫= replay ad info mf b.
Proof.
  revert w. induction a as [|e a IH]; intros w; [done|]. cbn [app replay]. destruct e as [k ep ok|el ok|g]; [|done|apply IH].
  destruct (match k with Identity => _ | TokenParityProbe => _ | HashEcho => _ end) as [[f w']|]; [|done].
  destruct (Bool.eqb (fOK f) ok); [apply IH|done].
Qed.

Definition traced (ad : kvAttestAdapter W) (mf : option KvAttestManifest) (s s' : ladderSt W) : Prop :=
  exists seg, extends s s' seg /\ replay ad (cInfo (lcC s)) mf seg (lcW s) = Some (lcW s').

Lemma traced_trans ad mf s1 s2 s3 : traced ad mf s1 s2 -> traced ad mf s2 s3 -> traced ad mf s1 s3.
Proof.
  intros (a & X1 & R1) (b & X2 & R2). exists (a ++ b). split; [by eapply extends_trans|].
  rewrite replay_app, R1. cbn. by rewrite <- (ex_info _ _ _ X1).
Qed.

Lemma traced_refl ad mf s s' : extends s s' [] -> lcW s' = lcW s -> traced ad mf s s'.
Proof. intros X E. exists []. split; [done|]. cbn. by rewrite E. Qed.

Lemma traced_publish ad mf e rs s : traced ad mf s (publish e rs s).
Proof.
  destruct (publish_spec e rs s) as (Q1 & _ & Q3). exists (gaugeOf s e). split; [done|]. rewrite Q3. unfold gaugeOf. by destruct (cStopped _).
Qed.

(** A probe with its receipt replays when [run] is the adapter's answer to it. *)
Lemma traced_probe ad mf k ep run md s f s' :
  probe k ep run s = (f, s') ->
  (forall w seg, replay ad (cInfo (lcC s)) mf (EProbe k ep (fOK f) :: seg) w =
     let '(f', w') := run w in if Bool.eqb (fOK f') (fOK f) then replay ad (cInfo (lcC s)) mf seg w' else None) ->
  traced ad mf s (addReceipt deps k ep f md s').
Proof.
  intros E Hr. destruct (probed_spec k ep run md s f s' E) as (X & _ & Ew). exists [EProbe k ep (fOK f)]. split; [exact X|].
  rewrite Hr, Ew. unfold probe in E. destruct (run (lcW s)) as [f0 w0]. injection E as <- _. by rewrite eqb_reflx.
Qed.

(** The transcript is the part of the log the steps added. *)
Lemma traced_replay ad mf s s' seg :
  traced ad mf s s' -> extends s s' seg -> replay ad (cInfo (lcC s)) mf seg (lcW s) = Some (lcW s').
Proof. intros (a & [Ha _] & R) [Hb _]. rewrite Ha in Hb. by apply app_inv_head in Hb as <-. Qed.

Lemma rung1_traced ad mf md eps p s : traced ad mf s (rung1 deps ad mf md eps p s).2.
Proof.
  revert p s. induction eps as [|ep eps IH]; intros p s; cbn [rung1]; [apply traced_refl; [split; [by rewrite app_nil_r|done]|done]|].
  assert (exists bad s1, match mf with
     | Some m => let '(f, s) := probe Identity ep (IdentityProbe ad ep m) s in
         if fOK f then (None, addReceipt deps Identity ep f md s) else (Some (fReason f), addReceipt deps Identity ep f md s)
     | None => (None, s) end = (bad, s1) /\ traced ad mf s s1) as (bad & s1 & -> & T1).
  { destruct mf as [m|]; [|eexists _, _; split; [done|]; apply traced_refl; [split; [by rewrite app_nil_r|done]|done]].
    destruct (probe Identity ep (IdentityProbe ad ep m) s) as [f s1] eqn:Ep.
    assert (traced ad (Some m) s (addReceipt deps Identity ep f md s1)) as T by (by eapply traced_probe).
    destruct (fOK f); eauto. }
  destruct bad as [r|]; cbn [snd]; [eapply traced_trans; [exact T1|apply traced_publish]|].
  destruct (probe TokenParityProbe ep _ s1) as [f s2] eqn:Ep.
  assert (traced ad mf s1 (addReceipt deps TokenParityProbe ep f md s2)) as T2 by (by eapply traced_probe).
  pose proof (traced_trans _ _ _ _ _ T1 T2) as T3.
  destruct (negb (fOK f)); cbn [snd]; [eapply traced_trans; [exact T3|apply traced_publish]|].
  eapply traced_trans; [exact T3|apply IH].
Qed.

Lemma rung2_traced ad mf md p eps s : traced ad mf s (rung2 deps ad md p eps s).2.
Proof.
  revert s. induction eps as [|ep eps IH]; intros s; cbn [rung2]; [apply traced_refl; [split; [by rewrite app_nil_r|done]|done]|].
  destruct (probe HashEcho ep _ s) as [f s2] eqn:Ep.
  assert (traced ad mf s (addReceipt deps HashEcho ep f md s2)) as T by (by eapply traced_probe).
  destruct (negb (fOK f)); cbn [snd]; [eapply traced_trans; [exact T|apply traced_publish]|].
  eapply traced_trans; [exact T|apply IH].
Qed.

(** ** What a climb establishes *)

(** The evidence behind an eligible word: gathered on the world [w0] the ladder
    started from and by the probes in [body], which replay from [w0] to the world
    [w1] just before the word is written, with the peers' agreement there. *)
Record earned (info : kvAttestRuleInfo) (w0 w1 : W) (body : list effect) : Prop := {
  ea_endpoints : endpoints deps (aiSvc info) w0 <> [];
  ea_adapter : is_Some (adapterFor deps (aiEngine info));
  ea_fresh : fresh deps info w0 = true;
  ea_drain : drainOwnershipFault deps info w0 (endpoints deps (aiSvc info) w0) = ""%string;
  ea_trust : is_Some (manifest deps (aiProfile info) w0) \/ (requireManifest deps = false /\ functionalOnly deps = true);
  ea_probes : forall ep, ep ∈ endpoints deps (aiSvc info) w0 ->
    EProbe TokenParityProbe ep true ∈ body /\ EProbe HashEcho ep true ∈ body /\
    (is_Some (manifest deps (aiProfile info) w0) -> EProbe Identity ep true ∈ body);
  ea_noFailure : forall k ep, EProbe k ep false ∉ body;
  ea_replay : exists ad, adapterFor deps (aiEngine info) = Some ad /\ replay ad info (manifest deps (aiProfile info) w0) body w0 = Some w1;
  ea_peers : forall g, peerGate deps = Some g -> (g info w1).1 = true
}.

Definition readyState (info : kvAttestRuleInfo) (w0 : W) : exactState :=
  match manifest deps (aiProfile info) w0 with Some _ => Ready | None => ReadyFunctional end.

Lemma okProbes_noFailure seg k ep : Forall (fun e => okProbe e = true) seg -> EProbe k ep false ∉ seg.
Proof. rewrite Forall_forall. intros H Hin. by apply H in Hin. Qed.

Lemma gauge_noFailure s e k ep : EProbe k ep false ∉ gaugeOf s e.
Proof. unfold gaugeOf. destruct (cStopped _); set_solver. Qed.

(** A climb that ends below eligibility. *)
Definition endsLow (P : W -> Prop) (s s' : ladderSt W) : Prop :=
  exists seg, extends s s' seg /\ Forall (fun e => isApply e = false) seg /\ P (lcW s') /\
    isReady (cEnforced (lcC s')) = false /\ cEnforced (lcC s') <> EnforcementFault.

Lemma publish_low (P : W -> Prop) e rs s s1 seg :
  extends s s1 seg -> Forall (fun e => isApply e = false) seg -> P (lcW s1) -> isReady e = false -> e <> EnforcementFault -> endsLow P s (publish e rs s1).
Proof.
  intros X N Hp Hr Hf. destruct (publish_spec e rs s1) as (Q1 & Q2 & Q3). exists (seg ++ gaugeOf s1 e). rewrite Q2, Q3.
  split; [by eapply extends_trans|]. split; [apply Forall_app; split; [done|apply gaugeOf_noApply]|done].
Qed.

(** The transitional state between the rungs. *)
Lemma pending_spec (P : W -> Prop) s s3 seg1 par :
  extends s s3 seg1 -> P (lcW s3) ->
  exists seg2, let s4 := if bool_decide (cEnforced (lcC s3) = par) then s3 else publish par [KvAttestReasonHashPending] s3 in
    extends s s4 (seg1 ++ seg2) /\ Forall (fun e => isApply e = false) seg2 /\ P (lcW s4) /\ (forall k ep, EProbe k ep false ∉ seg2).
Proof.
  intros X3 P3. destruct (bool_decide _); cbv zeta.
  - exists []. rewrite app_nil_r. split; [done|]. split; [constructor|]. split; [done|set_solver].
  - destruct (publish_spec par [KvAttestReasonHashPending] s3) as (Q1 & Q2 & Q3). eexists. split; [exact (extends_trans _ _ _ _ _ X3 Q1)|].
    split; [apply gaugeOf_noApply|]. split; [by rewrite Q3|intros; apply gauge_noFailure].
Qed.

Lemma earned_from info w0 w1 seg1 seg2 seg3 :
  let eps := endpoints deps (aiSvc info) w0 in
  let mf := manifest deps (aiProfile info) w0 in
  eps <> [] -> is_Some (adapterFor deps (aiEngine info)) -> fresh deps info w0 = true -> drainOwnershipFault deps info w0 eps = ""%string ->
  negb (match mf with Some _ => true | None => false end) && (requireManifest deps || negb (functionalOnly deps)) = false ->
  passed (TokenParityProbe :: match mf with Some _ => [Identity] | None => [] end) eps seg1 -> (forall k ep, EProbe k ep false ∉ seg2) ->
  passed [HashEcho] eps seg3 ->
  (exists ad, adapterFor deps (aiEngine info) = Some ad /\ replay ad info mf ((seg1 ++ seg2) ++ seg3) w0 = Some w1) ->
  (forall g, peerGate deps = Some g -> (g info w1).1 = true) ->
  earned info w0 w1 ((seg1 ++ seg2) ++ seg3).
Proof.
  cbv zeta. intros He Ha Hf Hd Ht [Hok1 Hin1] F2 [Hok3 Hin3] Hre Hp. split; try done.
  - destruct (manifest deps (aiProfile info) w0); [by left; eauto|right]. cbn in Ht. apply orb_false_iff in Ht as [? Hfn]. by apply negb_false_iff in Hfn.
  - intros ep Hep. rewrite !elem_of_app. split; [left; left; apply Hin1; [done|set_solver]|]. split; [right; apply Hin3; [done|set_solver]|].
    intros [m Hm]. left. left. apply Hin1; [done|]. rewrite Hm. set_solver.
  - intros k ep. rewrite !elem_of_app. intros [[H|H]|H]; [exact (okProbes_noFailure _ _ _ Hok1 H)|exact (F2 _ _ H)|exact (okProbes_noFailure _ _ _ Hok3 H)].
Qed.

Lemma ladder_spec (P : W -> Prop) s :
  probesKeep P -> P (lcW s) ->
  let s' := runLadder deps s in
  let info := cInfo (lcC s) in
  endsLow P s s' \/
  (exists body ok w1 tail, extends s s' (body ++ EApply 1 ok :: tail) /\ Forall (fun e => isApply e = false) body /\ Forall (fun e => isApply e = false) tail /\
     P w1 /\ earned info (lcW s) w1 body /\ apply deps (aiSvc info) 1 w1 = (ok, lcW s') /\
     cEnforced (lcC s') = if ok then readyState info (lcW s) else EnforcementFault).
Proof.
  intros HP HPs. cbv zeta. assert (extends s s []) as X0 by (split; [by rewrite app_nil_r|done]).
  unfold runLadder. set (info := cInfo (lcC s)). destruct (endpoints deps (aiSvc info) (lcW s)) as [|ep0 eps0] eqn:Eeps; [left; by eapply publish_low|].
  set (eps := ep0 :: eps0) in *. destruct (adapterFor deps (aiEngine info)) as [ad|] eqn:Ead; [|left; by eapply publish_low].
  destruct (fresh deps info (lcW s)) eqn:Efr; cbn [negb]; [|left; by eapply publish_low].
  destruct (String.eqb_spec (drainOwnershipFault deps info (lcW s) eps) "") as [Edr|]; cbn [negb]; [|left; by eapply publish_low].
  set (mf := manifest deps (aiProfile info) (lcW s)). set (md := manifestDigest mf).
  set (s1 := setC (withManifest md _ (lcC s)) s). assert (extends s s1 []) as X1 by (split; cbn; [by rewrite app_nil_r|done]).
  pose proof (rung1_spec P (aiEngine info) ad mf md eps TokenParity s1 HP Ead (or_introl eq_refl) HPs) as H1.
  pose proof (rung1_traced ad mf md eps TokenParity s1) as T1.
  destruct (rung1 deps ad mf md eps TokenParity s1) as [[par|] s2]; destruct H1 as (seg1 & Y1 & N1 & P2 & H1); pose proof (extends_trans _ _ _ _ _ X1 Y1) as X2.
  2:{ left. exists seg1. rewrite H1. by split. }
  destruct H1 as (Hpar & He2 & Hpass1). set (s3 := setC (withProbeOK (now deps (lcW s2)) (lcC s2)) s2).
  destruct (pending_spec P s s3 seg1 par) as (seg2 & X4 & N2 & P4 & F2); [destruct X2 as [Hx1 Hx2]; split; [exact Hx1|exact Hx2]|exact P2|]. cbv zeta in *.
  assert (traced ad mf s1 (if bool_decide (cEnforced (lcC s3) = par) then s3 else publish par [KvAttestReasonHashPending] s3)) as T4.
  { assert (traced ad mf s1 s3) as T3 by (destruct T1 as (a & [Ha1 Ha2] & Ha3); by exists a).
    destruct (bool_decide _); [exact T3|eapply traced_trans; [exact T3|apply traced_publish]]. }
  set (s4 := if bool_decide _ then s3 else _) in *.
  pose proof (rung2_spec P (aiEngine info) ad md par eps s4 HP Ead P4) as H2.
  pose proof (rung2_traced ad mf md par eps s4) as T5.
  destruct (rung2 deps ad md par eps s4) as [r2 s5]. destruct H2 as (seg3 & Y3 & N3 & P5 & H2). pose proof (extends_trans _ _ _ _ _ X4 Y3) as X5.
  assert (Forall (fun e => isApply e = false) ((seg1 ++ seg2) ++ seg3)) as N5 by (by rewrite !Forall_app).
  destruct r2.
  2:{ left. exists ((seg1 ++ seg2) ++ seg3). rewrite H2. split; [done|]. split; [done|]. split; [done|]. by destruct Hpar as [-> | ->]. }
  destruct H2 as (_ & Hpass3). set (s6 := setC (withEchoOK (now deps (lcW s5)) (lcC s5)) s5).
  assert (extends s s6 ((seg1 ++ seg2) ++ seg3)) as X6 by (destruct X5 as [Hx1 Hx2]; split; [exact Hx1|exact Hx2]). assert (cInfo (lcC s6) = info) as Hinfo by apply X6.
  destruct (negb _ && (requireManifest deps || _)) eqn:Etrust; [left; by eapply publish_low|].
  destruct (match peerGate deps with Some g => g (cInfo (lcC s6)) (lcW s6) | None => (true, ""%string) end) as [okp rp] eqn:Epeer.
  destruct okp; cbn [negb]; [|left; by eapply publish_low].
  unfold doApply. rewrite Hinfo. destruct (apply deps (aiSvc info) 1 (lcW s6)) as [ok w7] eqn:Eap. right.
  set (s7 := LadderSt (lcC s6) w7 _). assert (earned info (lcW s) (lcW s6) ((seg1 ++ seg2) ++ seg3)) as Hearn.
  { apply earned_from; rewrite ?Eeps; try done; [exists ad; split; [done|]|].
    { apply (traced_replay ad mf s1 s5); [exact (traced_trans _ _ _ _ _ T4 T5)|]. destruct X5 as [Hx1 Hx2]. split; [exact Hx1|exact Hx2]. }
    intros g Hg. rewrite Hg, Hinfo in Epeer. by rewrite Epeer. }
  assert (extends s s7 (((seg1 ++ seg2) ++ seg3) ++ [EApply 1 ok])) as X7 by (destruct X6 as [Hx1 Hx2]; split; [change (lcLog s7) with (lcLog s6 ++ [EApply 1 ok]); rewrite Hx1; symmetry; apply app_assoc|exact Hx2]).
  set (fin := if ok then readyState info (lcW s) else EnforcementFault).
  assert (exists rs, (if negb ok then publish EnforcementFault [KvAttestReasonEnforcementFault] s7
    else publish (if match mf with Some _ => true | None => false end then Ready else ReadyFunctional) [] s7) = publish fin rs s7) as [rs ->].
  { subst fin. unfold readyState. fold mf. destruct ok; cbn [negb]; [destruct mf|]; eauto. }
  destruct (publish_spec fin rs s7) as (Q1 & Q2 & Q3). pose proof (extends_trans _ _ _ _ _ X7 Q1) as Xf. rewrite <- app_assoc in Xf.
  eexists _, ok, (lcW s6), _. split; [exact Xf|]. split; [done|]. split; [apply gaugeOf_noApply|]. split; [done|]. split; [done|]. by rewrite Q2, Q3.
Qed.

(** ** Fencing and sweeping *)

Lemma fence_spec reason s :
  let '(ok, w1) := apply deps (aiSvc (cInfo (lcC s))) 0 (lcW s) in
  let s' := fenceAndReattest deps reason s in
  if ok then exists s1 tail, extends s s1 (EApply 0 true :: tail) /\ Forall (fun e => isApply e = false) tail /\ cEnforced (lcC s1) = Degraded /\ lcW s1 = w1 /\ s' = runLadder deps s1
  else exists tail, extends s s' (EApply 0 false :: tail) /\ Forall (fun e => isApply e = false) tail /\ cEnforced (lcC s') = EnforcementFault /\ lcW s' = w1.
Proof.
  unfold fenceAndReattest, doApply. cbn [lcC setC cInfo withDesired lcW lcLog]. destruct (apply deps (aiSvc (cInfo (lcC s))) 0 (lcW s)) as [ok w1]. destruct ok; cbn [negb].
  - set (s1 := LadderSt _ w1 _). destruct (publish_spec Degraded [reason] s1) as ([Q1 Q2] & Q3 & Q4).
    eexists (setC (withDesired Ready (lcC (publish Degraded [reason] s1))) (publish Degraded [reason] s1)), (gaugeOf s1 Degraded).
    split; [split; cbn; [rewrite Q1; cbn; by rewrite <- app_assoc|by rewrite Q2]|]. split; [apply gaugeOf_noApply|]. split; [exact Q3|]. split; [exact Q4|done].
  - set (s1 := setC _ _). destruct (publish_spec EnforcementFault [KvAttestReasonEnforcementFault; reason] s1) as ([Q1 Q2] & Q3 & Q4).
    exists (gaugeOf s1 EnforcementFault). split; [split; [rewrite Q1; cbn; by rewrite <- app_assoc|by rewrite Q2]|]. split; [apply gaugeOf_noApply|]. done.
Qed.

Lemma sweepProbes_spec (P : W -> Prop) engine ad mf eps s :
  probesKeep P -> adapterFor deps engine = Some ad -> P (lcW s) ->
  let '(r, s') := sweepProbes ad mf eps s in
  exists seg, extends s s' seg /\ Forall (fun e => isProbe e = true) seg /\ lcC s' = lcC s /\ P (lcW s').
Proof.
  intros HP Had. revert s. induction eps as [|ep eps IH]; intros s HPs; cbn [sweepProbes].
  { exists []. split; [split; [by rewrite app_nil_r|done]|]. split; [constructor|]. done. }
  destruct (HP engine ad Had ep (lcW s)) as (Hid & _ & _).
  assert (exists bad s1 seg1, match mf with
     | Some m => let '(f, s) := probe Identity ep (IdentityProbe ad ep m) s in (if fOK f then None else Some (fReason f), s)
     | None => (None, s) end = (bad, s1) /\ extends s s1 seg1 /\ Forall (fun e => isProbe e = true) seg1 /\ lcC s1 = lcC s /\ P (lcW s1)) as (bad & s1 & seg1 & -> & X1 & N1 & C1 & P1).
  { destruct mf as [m|].
    - pose proof (probe_spec Identity ep (IdentityProbe ad ep m) s) as H. destruct (probe Identity ep _ s) as [f s1]. destruct H as (H1 & H2 & H3).
      eexists _, _, _. split; [done|]. split; [exact H1|]. split; [by repeat constructor|]. split; [done|]. rewrite H3. by apply Hid.
    - eexists _, _, []. split; [done|]. split; [split; [by rewrite app_nil_r|done]|]. split; [constructor|]. done. }
  destruct bad as [r|]; [by eauto|]. destruct (HP engine ad Had ep (lcW s1)) as (_ & Htp & _).
  pose proof (probe_spec TokenParityProbe ep (TokenParity_Probe ad ep (cInfo (lcC s1))) s1) as H. destruct (probe TokenParityProbe ep _ s1) as [f s2].
  destruct H as (H1 & H2 & H3). pose proof (extends_trans _ _ _ _ _ X1 H1) as X2.
  assert (Forall (fun e => isProbe e = true) (seg1 ++ [EProbe TokenParityProbe ep (fOK f)])) as N2 by (apply Forall_app; split; [done|by repeat constructor]).
  assert (P (lcW s2)) as P2 by (rewrite H3; by apply Htp).
  destruct (negb (fOK f)); [eexists; split; [exact X2|]; split; [done|]; split; [congruence|done]|].
  specialize (IH s2 P2). destruct (sweepProbes ad mf eps s2) as [r s3]. destruct IH as (seg & X3 & N3 & C3 & P3).
  exists ((seg1 ++ [EProbe TokenParityProbe ep (fOK f)]) ++ seg). split; [by eapply extends_trans|]. split; [by apply Forall_app|]. split; [congruence|done].
Qed.

Lemma probes_noApply seg : Forall (fun e => isProbe e = true) seg -> Forall (fun e => isApply e = false) seg.
Proof. intros H. eapply Forall_impl; [exact H|]. by intros []. Qed.

(** A sweep or a tick either keeps the state after some probes, or fences after them. *)
Definition keepsOrFences (P : W -> Prop) (s s' : ladderSt W) : Prop :=
  exists s1 seg, extends s s1 seg /\ Forall (fun e => isProbe e = true) seg /\ P (lcW s1) /\ cEnforced (lcC s1) = cEnforced (lcC s) /\
    (s' = s1 \/ exists reason, s' = fenceAndReattest deps reason s1).

Lemma fences_now (P : W -> Prop) s reason : P (lcW s) -> keepsOrFences P s (fenceAndReattest deps reason s).
Proof. intros HP. exists s, []. split; [split; [by rewrite app_nil_r|done]|]. split; [constructor|]. eauto. Qed.

Lemma sweep_spec (P : W -> Prop) s : probesKeep P -> P (lcW s) ->
  let '(ok, s') := probeSweep deps s in
  if ok then exists seg, extends s s' seg /\ Forall (fun e => isProbe e = true) seg /\ P (lcW s') /\ cEnforced (lcC s') = cEnforced (lcC s)
  else keepsOrFences P s s'.
Proof.
  intros HP HPs. unfold probeSweep. set (info := cInfo (lcC s)). destruct (endpoints deps (aiSvc info) (lcW s)) as [|ep0 eps0] eqn:Eeps; [by apply fences_now|].
  destruct (adapterFor deps (aiEngine info)) as [ad|] eqn:Ead; [|by apply fences_now].
  destruct (negb (fresh deps info (lcW s))); [by apply fences_now|]. destruct (negb (_ ==s "")); [by apply fences_now|].
  destruct (negb (_ ==s cManifestSeen _)); [by apply fences_now|].
  pose proof (sweepProbes_spec P (aiEngine info) ad (manifest deps (aiProfile info) (lcW s)) (ep0 :: eps0) s HP Ead HPs) as H.
  destruct (sweepProbes ad _ (ep0 :: eps0) s) as [[r|] s1]; destruct H as (seg & X & N & C & P1).
  - exists s1, seg. split; [done|]. split; [done|]. split; [done|]. split; [by rewrite C|]. eauto.
  - exists seg. split; [destruct X as [Hx1 Hx2]; split; [exact Hx1|exact Hx2]|]. split; [done|]. split; [exact P1|]. cbn. by rewrite C.
Qed.

Lemma cadence_ready (P : W -> Prop) s : probesKeep P -> P (lcW s) -> isReady (cEnforced (lcC s)) = true -> keepsOrFences P s (cadenceCheck deps s).
Proof.
  intros HP HPs Hr. unfold cadenceCheck. 
  assert (keepsOrFences P s (
      if olderThan (now deps (lcW s)) (2 * probeCadence deps) (cLastProbeOK (lcC s)) false then fenceAndReattest deps KvAttestReasonStale s
      else if olderThan (now deps (lcW s)) (2 * challengeCadence deps) (cLastEchoOK (lcC s)) false then fenceAndReattest deps KvAttestReasonStale s
      else match probeSweep deps s with
        | (false, s) => s
        | (true, s') => if olderThan (now deps (lcW s)) (challengeCadence deps) (cLastEchoOK (lcC s)) true then fenceAndReattest deps KvAttestReasonChallengeCadence s' else s'
        end)) as H.
  { destruct (olderThan _ _ _ _); [by apply fences_now|]. destruct (olderThan _ _ _ _); [by apply fences_now|].
    pose proof (sweep_spec P s HP HPs) as H. destruct (probeSweep deps s) as [[] s1]; [|done]. destruct H as (seg & X & N & P1 & C).
    exists s1, seg. split; [done|]. split; [done|]. split; [done|]. split; [done|]. destruct (olderThan _ _ _ _); [right; eauto|by left]. }
  by destruct (cEnforced (lcC s)).
Qed.

(** ** The published state and the data plane *)

(** READY exactly when the last transaction made the word eligible and was
    acknowledged; ENFORCEMENT_FAULT exactly when it failed. *)
Definition coherent (s : ladderSt W) : Prop :=
  let e := cEnforced (lcC s) in
  match lastApply (lcLog s) with
  | Some (el, true) => isReady e = (el ==? 1) /\ e <> EnforcementFault
  | Some (_, false) => e = EnforcementFault
  | None => isReady e = false /\ e <> EnforcementFault
  end.

(** Fenced, or never installed. *)
Definition fenced (s : ladderSt W) : Prop := lastApply (lcLog s) = None \/ exists el, el <> 1 /\ lastApply (lcLog s) = Some (el, true).

Lemma keep_all : probesKeep (fun _ => True).
Proof. done. Qed.

Lemma lastApply_one l body el ok tail : Forall (fun e => isApply e = false) tail -> lastApply (l ++ body ++ EApply el ok :: tail) = Some (el, ok).
Proof. intros H. rewrite (app_assoc l body), cons_middle, app_assoc. rewrite lastApply_app by done. apply lastApply_snoc. Qed.

Lemma lastApply_head l el ok tail : Forall (fun e => isApply e = false) tail -> lastApply (l ++ EApply el ok :: tail) = Some (el, ok).
Proof. exact (lastApply_one l [] el ok tail). Qed.

Lemma ladder_coherent s : fenced s -> coherent (runLadder deps s).
Proof.
  intros Hf. destruct (ladder_spec (fun _ => True) s keep_all I) as [(seg & [Hl _] & N & _ & Hr & Hne)|(body & ok & w1 & tail & [Hl _] & _ & N & _ & _ & _ & He)]; unfold coherent; rewrite Hl.
  - rewrite lastApply_app by done. destruct Hf as [-> | (el & Hel & ->)]; [done|]. rewrite Hr. by destruct (Z.eqb_spec el 1).
  - rewrite lastApply_one by done. rewrite He. destruct ok; [|done]. unfold readyState. by destruct (manifest _ _ _).
Qed.

Lemma fence_coherent reason s : coherent (fenceAndReattest deps reason s).
Proof.
  pose proof (fence_spec reason s) as H. destruct (apply deps _ 0 (lcW s)) as [ok w1]. cbv zeta in H. destruct ok.
  - destruct H as (s1 & tail & [Hl _] & N & _ & _ & ->). apply ladder_coherent. right. exists 0. split; [done|]. rewrite Hl. by apply lastApply_head.
  - destruct H as (tail & [Hl _] & N & He & _). unfold coherent. rewrite Hl, lastApply_head by done. done.
Qed.

Lemma coherent_fenced s : coherent s -> isReady (cEnforced (lcC s)) = false -> cEnforced (lcC s) <> EnforcementFault -> fenced s.
Proof.
  unfold coherent, fenced. intros Hc Hr Hf. destruct (lastApply (lcLog s)) as [[el []]|]; [|done|by left]. right. exists el. split; [|done].
  destruct Hc as [Hc _]. rewrite Hr in Hc. by destruct (Z.eqb_spec el 1).
Qed.

Lemma cadence_coherent s : coherent s -> coherent (cadenceCheck deps s).
Proof.
  intros Hc. destruct (isReady (cEnforced (lcC s))) eqn:Er.
  - destruct (cadence_ready (fun _ => True) s keep_all I Er) as (s1 & seg & [Hl _] & N & _ & He & [-> | [reason ->]]); [|apply fence_coherent].
    unfold coherent in *. rewrite Hl, He, lastApply_app by by apply probes_noApply. done.
  - pose proof (coherent_fenced s Hc Er) as Hf. unfold cadenceCheck. destruct (cEnforced (lcC s)); try done; apply ladder_coherent, Hf; done.
Qed.

(** What happens to a controller: its goroutine takes a kick or a tick, others kick
    or stop it. *)
Inductive attestInput := ILoop (i : loopInput) | IKick (reason : string) | IStop.

Definition attestDo (s : ladderSt W) (i : attestInput) : ladderSt W :=
  match i with
  | ILoop i => loopStep deps i s
  | IKick r => setC (Kick r (lcC s)) s
  | IStop => setC (stopC (lcC s)) s
  end.

Definition newLadder (info : kvAttestRuleInfo) (w : W) : ladderSt W := LadderSt (newKvAttestController info) w [].

Lemma attestDo_coherent s i : coherent s -> coherent (attestDo s i).
Proof.
  intros Hc. destruct i as [[]|r|]; cbn [attestDo].
  - unfold loopStep. destruct (cStopped _); [done|]. destruct (cKicks _) as [|reason ks]; [done|]. apply fence_coherent.
  - unfold loopStep. destruct (cStopped _); [done|]. by apply cadence_coherent.
  - unfold Kick. by destruct (Nat.ltb _ _).
  - exact Hc.
Qed.

(** The published state tells what the data plane was last told. Whatever kicks
    and ticks a controller takes, whatever the probes, the manifests, the peers and
    the transactions answer, it is in a READY state exactly when its last
    transaction wrote an eligible word that was acknowledged, and in
    ENFORCEMENT_FAULT exactly when its last transaction failed; a rule it shows as
    degraded, pending or attested below READY was last fenced, or never installed. *)
Theorem state_matches_data_plane info w inputs :
  let s := foldl attestDo (newLadder info w) inputs in
  (isReady (cEnforced (lcC s)) = true <-> lastApply (lcLog s) = Some (1, true)) /\
  (cEnforced (lcC s) = EnforcementFault <-> exists el, lastApply (lcLog s) = Some (el, false)).
Proof.
  cbv zeta. assert (coherent (foldl attestDo (newLadder info w) inputs)) as Hc.
  { assert (coherent (newLadder info w)) as H0 by done. revert H0. generalize (newLadder info w). induction inputs as [|i l IH]; intros s Hs; [done|]. cbn [foldl]. by apply IH, attestDo_coherent. }
  unfold coherent in Hc. set (s := foldl attestDo _ _) in *. destruct (lastApply (lcLog s)) as [[el []]|].
  - destruct Hc as [Hc Hne]. rewrite Hc. split; [rewrite Z.eqb_eq; split; [by intros ->|congruence]|]. split; [done|]. by intros [].
  - rewrite Hc. split; [done|]. split; [eauto|done].
  - destruct Hc as [-> Hne]. split; [done|]. split; [done|]. by intros [].
Qed.

(** ** Eligibility is earned *)

Lemma noApply_not seg el ok : Forall (fun e => isApply e = false) seg -> EApply el ok ∉ seg.
Proof. rewrite Forall_forall. intros H Hin. by apply H in Hin. Qed.

(** The state from which a fence climbs again, when its transaction was acknowledged. *)
Definition fenceStart (reason : string) (s : ladderSt W) : option (ladderSt W) :=
  let '(ok, s1) := doApply deps 0 (setC (withDesired Degrading (lcC s)) s) in
  if ok then let s2 := publish Degraded [reason] s1 in Some (setC (withDesired Ready (lcC s2)) s2) else None.

Lemma fence_climbs reason s sc : fenceStart reason s = Some sc -> fenceAndReattest deps reason s = runLadder deps sc.
Proof.
  unfold fenceStart, fenceAndReattest. destruct (doApply deps 0 _) as [ok s1]. destruct ok; cbn [negb]; [by intros [= <-]|done].
Qed.

(** The state a step's climb starts from: the controller's own, or the one its
    fence left, after a kick, for stale evidence, or after the probes of a sweep. *)
Inductive climbsFrom (s : ladderSt W) : attestInput -> ladderSt W -> Prop :=
| ClimbAgain : climbsFrom s (ILoop LTick) s
| ClimbKicked reason ks sc : cKicks (lcC s) = reason :: ks ->
    fenceStart reason (setC (withKicks [] (cStopped (lcC s)) (lcC s)) s) = Some sc -> climbsFrom s (ILoop LKick) sc
| ClimbFenced reason sc : fenceStart reason s = Some sc -> climbsFrom s (ILoop LTick) sc
| ClimbSwept ad r s1 s2 reason sc : adapterFor deps (aiEngine (cInfo (lcC s))) = Some ad ->
    sweepProbes ad (manifest deps (aiProfile (cInfo (lcC s))) (lcW s)) (endpoints deps (aiSvc (cInfo (lcC s))) (lcW s)) s = (r, s1) ->
    s2 = s1 \/ s2 = setC (withProbeOK (now deps (lcW s1)) (lcC s1)) s1 ->
    fenceStart reason s2 = Some sc -> climbsFrom s (ILoop LTick) sc.

(** What one step of the controller does with eligible words: none, or one, at the
    end of a climb that earned it. *)
Definition climbed (s : ladderSt W) (i : attestInput) : Prop :=
  let s' := attestDo s i in
  let info := cInfo (lcC s) in
  cInfo (lcC s') = info /\
  ((exists seg, lcLog s' = lcLog s ++ seg /\ forall ok, EApply 1 ok ∉ seg) \/
   (exists sc seg body ok w1 tail, climbsFrom s i sc /\ s' = runLadder deps sc /\
      lcLog sc = lcLog s ++ seg /\ (forall ok, EApply 1 ok ∉ seg) /\ lcLog s' = lcLog sc ++ body ++ EApply 1 ok :: tail /\
      Forall (fun e => isApply e = false) body /\ Forall (fun e => isApply e = false) tail /\
      earned info (lcW sc) w1 body /\ apply deps (aiSvc info) 1 w1 = (ok, lcW s'))).

Lemma ladder_climbed s i sc seg : climbsFrom s i sc -> attestDo s i = runLadder deps sc -> lcLog sc = lcLog s ++ seg ->
  (forall ok, EApply 1 ok ∉ seg) -> cInfo (lcC sc) = cInfo (lcC s) -> climbed s i.
Proof.
  intros Hf Hd Hl Hn Hi. unfold climbed. rewrite Hd.
  destruct (ladder_spec (fun _ => True) sc keep_all I) as [(seg1 & [Hl1 Hi1] & N & _)|(body & ok & w1 & tail & [Hl1 Hi1] & Nb & Nt & _ & He & Ha & _)].
  - split; [by rewrite Hi1|]. left. exists (seg ++ seg1). split; [by rewrite Hl1, Hl, app_assoc|].
    intros ok [H|H]%elem_of_app; [by eapply Hn|by eapply noApply_not].
  - split; [by rewrite Hi1|]. right. rewrite Hi in He, Ha. exists sc, seg, body, ok, w1, tail. done.
Qed.

Lemma fence_climbed s i reason s1 seg : attestDo s i = fenceAndReattest deps reason s1 -> lcLog s1 = lcLog s ++ seg ->
  Forall (fun e => isProbe e = true) seg -> cInfo (lcC s1) = cInfo (lcC s) ->
  (forall sc, fenceStart reason s1 = Some sc -> climbsFrom s i sc) -> climbed s i.
Proof.
  intros Hd Hl Hp Hi Hf. pose proof (fence_spec reason s1) as H.
  assert (forall ok, EApply 1 ok ∉ seg) as Hn by (intros ok; by apply noApply_not, probes_noApply).
  destruct (fenceStart reason s1) as [sc|] eqn:Es.
  - pose proof Es as Es'. unfold fenceStart, doApply in Es'. cbn [lcC setC cInfo withDesired lcW lcLog] in Es'.
    destruct (apply deps _ 0 (lcW s1)) as [[] w1]; [|done]. injection Es' as Esc.
    destruct (publish_spec Degraded [reason] (LadderSt (withDesired Degrading (lcC s1)) w1 (lcLog s1 ++ [EApply 0 true]))) as ([Q1 Q2] & _ & _).
    apply (ladder_climbed s i sc (seg ++ EApply 0 true :: gaugeOf (LadderSt (withDesired Degrading (lcC s1)) w1 (lcLog s1 ++ [EApply 0 true])) Degraded)).
    + by apply Hf.
    + by rewrite Hd, (fence_climbs _ _ _ Es).
    + rewrite <- Esc. cbn [lcLog setC]. rewrite Q1. cbn [lcLog]. by rewrite Hl, <- !app_assoc.
    + intros ok [H1|[H1|H1]%elem_of_cons]%elem_of_app; [by eapply Hn|done|by eapply noApply_not, H1; apply gaugeOf_noApply].
    + rewrite <- Esc, <- Hi. exact Q2.
  - unfold fenceStart, doApply in Es. cbn [lcC setC cInfo withDesired lcW lcLog] in Es.
    destruct (apply deps _ 0 (lcW s1)) as [[] w1]; [done|]. destruct H as (tail & [Hl1 Hi1] & N & _).
    unfold climbed. rewrite Hd. split; [by rewrite Hi1|]. left. exists (seg ++ EApply 0 false :: tail).
    split; [by rewrite Hl1, Hl, app_assoc|]. intros ok [H1|[H1|H1]%elem_of_cons]%elem_of_app; [by eapply Hn|done|by eapply noApply_not].
Qed.

Lemma still_climbed s i : lcLog (attestDo s i) = lcLog s -> cInfo (lcC (attestDo s i)) = cInfo (lcC s) -> climbed s i.
Proof. intros Hl Hi. split; [done|]. left. exists []. rewrite app_nil_r. split; [done|set_solver]. Qed.

(** A tick of a READY controller. *)
Lemma sweep_climbed s : cStopped (lcC s) = false -> isReady (cEnforced (lcC s)) = true -> climbed s (ILoop LTick).
Proof.
  intros Hst Hr.
  assert (forall reason, attestDo s (ILoop LTick) = fenceAndReattest deps reason s -> climbed s (ILoop LTick)) as Hnow.
  { intros reason E. eapply fence_climbed; [exact E|by rewrite app_nil_r|constructor|done|]. intros sc H. by eapply ClimbFenced. }
  assert (attestDo s (ILoop LTick) = cadenceCheck deps s) as Ed by (cbn [attestDo]; unfold loopStep; by rewrite Hst).
  rewrite Ed in Hnow. revert Hnow Ed. unfold cadenceCheck.
  destruct (cEnforced (lcC s)); try done.
  all: destruct (olderThan _ (2 * probeCadence deps) _ _); [intros Hnow _; by eapply Hnow|];
    destruct (olderThan _ (2 * challengeCadence deps) _ _); [intros Hnow _; by eapply Hnow|]; unfold probeSweep;
    destruct (endpoints deps _ (lcW s)) as [|ep eps] eqn:Eeps; [intros Hnow _; by eapply Hnow|];
    destruct (adapterFor deps _) as [ad|] eqn:Ead; [|intros Hnow _; by eapply Hnow];
    destruct (negb (fresh _ _ _)); [intros Hnow _; by eapply Hnow|];
    destruct (negb (drainOwnershipFault _ _ _ _ ==s "")); [intros Hnow _; by eapply Hnow|];
    destruct (negb (manifestDigest _ ==s _)); [intros Hnow _; by eapply Hnow|];
    pose proof (sweepProbes_spec (fun _ => True) _ ad (manifest deps (aiProfile (cInfo (lcC s))) (lcW s)) (ep :: eps) s keep_all Ead I) as Hsp;
    destruct (sweepProbes ad _ (ep :: eps) s) as [r s1] eqn:Esw; destruct Hsp as (seg & [Hl Hi] & N & C & _); rewrite <- Eeps in Esw; intros _ Ed.
  all: assert (forall s2 reason, s2 = s1 \/ s2 = setC (withProbeOK (now deps (lcW s1)) (lcC s1)) s1 ->
      attestDo s (ILoop LTick) = fenceAndReattest deps reason s2 -> climbed s (ILoop LTick)) as Hafter
    by (intros s2 reason Hs2 E; eapply fence_climbed; [exact E|destruct Hs2 as [->| ->]; exact Hl|exact N|destruct Hs2 as [->| ->]; exact Hi|];
        intros sc H; by eapply ClimbSwept).
  all: destruct r as [r|]; [eapply Hafter; [by left|exact Ed]|];
    destruct (olderThan _ (challengeCadence deps) _ _); [eapply Hafter; [by right|exact Ed]|];
    unfold climbed; rewrite Ed; (split; [exact Hi|]); left; exists seg; (split; [exact Hl|]); intros ok; by apply noApply_not, probes_noApply.
Qed.

Lemma attestDo_climbed s i : climbed s i.
Proof.
  destruct i as [[]|r|]; [| |apply still_climbed; cbn [attestDo]; unfold Kick; by destruct (Nat.ltb _ _)|by apply still_climbed].
  - destruct (cStopped (lcC s)) eqn:Hst; [apply still_climbed; cbn [attestDo]; unfold loopStep; by rewrite Hst|].
    destruct (cKicks (lcC s)) as [|reason ks] eqn:Hk; [apply still_climbed; cbn [attestDo]; unfold loopStep; by rewrite Hst, Hk|].
    eapply (fence_climbed s _ reason (setC (withKicks [] (cStopped (lcC s)) (lcC s)) s) []); try done.
    + cbn [attestDo]. unfold loopStep. by rewrite Hst, Hk.
    + cbn. by rewrite app_nil_r.
    + intros sc H. by eapply ClimbKicked.
  - destruct (cStopped (lcC s)) eqn:Hst; [apply still_climbed; cbn [attestDo]; unfold loopStep; by rewrite Hst|].
    destruct (isReady (cEnforced (lcC s))) eqn:Er; [by apply sweep_climbed|].
    destruct (decide (cEnforced (lcC s) = EnforcementFault)) as [Ef|Ef].
    { apply still_climbed; cbn [attestDo]; unfold loopStep, cadenceCheck; by rewrite Hst, Ef. }
    apply (ladder_climbed s _ s []); [constructor| |by rewrite app_nil_r|set_solver|done].
    cbn [attestDo]. unfold loopStep, cadenceCheck. rewrite Hst. by destruct (cEnforced (lcC s)).
Qed.

(** The one eligible transaction of a record, or one before it. *)
Lemma apply_split l body tail ok pre ok' post :
  Forall (fun e => isApply e = false) body -> Forall (fun e => isApply e = false) tail ->
  l ++ body ++ EApply 1 ok :: tail = pre ++ EApply 1 ok' :: post ->
  (exists k, l = pre ++ EApply 1 ok' :: k) \/ (pre = l ++ body /\ ok' = ok).
Proof.
  intros Nb Nt E. rewrite app_assoc in E. apply app_eq_inv in E as [(k & Ek & Hk)|(k & Ek & Hk)].
  - destruct k as [|x k].
    + right. rewrite app_nil_r in Ek. cbn in Hk. injection Hk as -> _. by rewrite Ek.
    + injection Hk as <- Hk. left. apply app_eq_inv in Ek as [(k2 & Ek2 & Hk2)|(k2 & Ek2 & Hk2)].
      * destruct k2 as [|y k2]; [|injection Hk2 as <- _; eauto]. exfalso. apply (noApply_not body 1 ok' Nb). cbn in Hk2. rewrite <- Hk2. set_solver.
      * exfalso. apply (noApply_not body 1 ok' Nb). rewrite Hk2. set_solver.
  - destruct k as [|x k].
    + right. rewrite app_nil_r in Ek. cbn in Hk. injection Hk as -> _. by rewrite Ek.
    + exfalso. injection Hk as <- Hk. apply (noApply_not tail 1 ok' Nt). rewrite Hk. set_solver.
Qed.

(** The climb of the step [i] from [s] that ends in the eligible transaction after [pre]. *)
Definition endsClimb (info : kvAttestRuleInfo) (s : ladderSt W) (i : attestInput) (pre : list effect) (ok : bool) : Prop :=
  exists sc body w1 tail, climbsFrom s i sc /\ attestDo s i = runLadder deps sc /\ pre = lcLog sc ++ body /\
    lcLog (attestDo s i) = pre ++ EApply 1 ok :: tail /\ Forall (fun e => isApply e = false) body /\
    earned info (lcW sc) w1 body /\ apply deps (aiSvc info) 1 w1 = (ok, lcW (attestDo s i)).

(** C7: every eligible word was earned.  In the record of any controller, each
    transaction that asks for an eligible word ends a climb of one step of the run,
    and in that climb, with no transaction in between: in the world the climb
    started from (the one the controller was in, or the one its fence left, after a
    kick, for stale evidence or after a sweep) the rule had endpoints and an
    adapter, its profile matched the disk, its drain ownership was proven and a
    manifest was present or its absence opted out of twice; the recorded probes are
    those the adapter answers one after the other from that world, none failed, and
    every endpoint passed token parity and the echo challenge, and the identity
    check where there is a manifest; and in the world those probes left, which is
    the one the transaction was applied to, the peer gate, where one is configured,
    passed the rule. *)
Theorem eligibility_is_earned info w inputs pre ok post :
  lcLog (foldl attestDo (newLadder info w) inputs) = pre ++ EApply 1 ok :: post ->
  exists before i later, inputs = before ++ i :: later /\
    endsClimb info (foldl attestDo (newLadder info w) before) i pre ok.
Proof.
  assert (cInfo (lcC (foldl attestDo (newLadder info w) inputs)) = info /\ (forall pre ok post,
    lcLog (foldl attestDo (newLadder info w) inputs) = pre ++ EApply 1 ok :: post ->
    exists before i later, inputs = before ++ i :: later /\
      endsClimb info (foldl attestDo (newLadder info w) before) i pre ok)) as [_ H]; [|by apply H].
  induction inputs as [|i l [Hi IH]] using rev_ind; [split; [done|]; intros pre0 ok0 post0 E; by destruct pre0|].
  rewrite foldl_app. cbn [foldl]. set (s := foldl attestDo (newLadder info w) l) in *.
  destruct (attestDo_climbed s i) as [Hi' Hc]. rewrite Hi in Hi', Hc. split; [done|].
  assert (forall pre0 ok0 k, lcLog s = pre0 ++ EApply 1 ok0 :: k -> exists before i0 later,
    l ++ [i] = before ++ i0 :: later /\ endsClimb info (foldl attestDo (newLadder info w) before) i0 pre0 ok0) as Hold.
  { intros pre0 ok0 k E. destruct (IH pre0 ok0 k E) as (bf & i0 & lt & -> & H).
    exists bf, i0, (lt ++ [i]). split; [by rewrite <- app_assoc|exact H]. }
  assert (forall seg pre0 ok0 post0, (forall ok, EApply 1 ok ∉ seg) -> lcLog s ++ seg = pre0 ++ EApply 1 ok0 :: post0 ->
    exists k, lcLog s = pre0 ++ EApply 1 ok0 :: k) as Hin.
  { intros seg pre0 ok0 post0 Hn E. apply app_eq_inv in E as [(k & Ek & Hk)|(k & -> & Hk)]; [|exfalso; apply (Hn ok0); rewrite Hk; set_solver].
    destruct k as [|x k]; [exfalso; apply (Hn ok0); cbn in Hk; rewrite <- Hk; set_solver|]. injection Hk as <- Hk. eauto. }
  intros pre0 ok0 post0 E. destruct Hc as [(seg & Hl & Hn)|(sc & seg & body & ok1 & w1 & tail & Hf & Hd & Hlc & Hn & Hl & Nb & Nt & He & Ha)].
  - rewrite Hl in E. destruct (Hin _ _ _ _ Hn E) as [k Hk]. by eapply Hold.
  - rewrite Hl in E. apply apply_split in E as [(k & Hk)|[-> ->]]; [| |done|done].
    + rewrite Hlc in Hk. destruct (Hin _ _ _ _ Hn Hk) as [k' Hk']. by eapply Hold.
    + exists l, i, []. split; [done|]. exists sc, body, w1, tail. fold s. split_and!; try done. by rewrite Hl, app_assoc.
Qed.

(** Degradation is fence first. A step that starts from a READY state records
    nothing but probes, and leaves the state as it is, or the first thing it
    records after its probes is the transaction that makes the word ineligible:
    no other state is shown before it. When the last good probe is older than two
    probe periods, or the last good challenge older than two challenge periods,
    that transaction comes at once. *)
Theorem degradation_is_fence_first s i :
  isReady (cEnforced (lcC s)) = true -> cStopped (lcC s) = false ->
  let s' := loopStep deps i s in
  exists probes, Forall (fun e => isProbe e = true) probes /\
    ((lcLog s' = lcLog s ++ probes /\ cEnforced (lcC s') = cEnforced (lcC s)) \/
     (exists ok rest, lcLog s' = lcLog s ++ probes ++ EApply 0 ok :: rest)) /\
    (i = LTick -> (olderThan (now deps (lcW s)) (2 * probeCadence deps) (cLastProbeOK (lcC s)) false = true \/
                   olderThan (now deps (lcW s)) (2 * challengeCadence deps) (cLastEchoOK (lcC s)) false = true) ->
       exists ok rest, lcLog s' = lcLog s ++ EApply 0 ok :: rest).
Proof.
  intros Hr Hst. cbv zeta. assert (forall reason s1, exists ok rest, lcLog (fenceAndReattest deps reason s1) = lcLog s1 ++ EApply 0 ok :: rest) as Hf.
  { intros reason s1. pose proof (fence_spec reason s1) as H. destruct (apply deps _ 0 (lcW s1)) as [ok w1]. cbv zeta in H. destruct ok.
    - destruct H as (s2 & tail & [Hl _] & _ & _ & _ & ->). destruct (ladder_spec (fun _ => True) s2 keep_all I) as [(seg & [-> _] & _)|(body & ok & w2 & tl & [-> _] & _)];
        rewrite Hl, <- app_assoc; cbn; eauto.
    - destruct H as (tail & [-> _] & _). eauto. }
  unfold loopStep. rewrite Hst. destruct i.
  - destruct (cKicks _) as [|reason ks]; [exists []; split; [constructor|]; split; [left; by rewrite app_nil_r|done]|].
    exists []. split; [constructor|]. split; [right; apply (Hf reason (setC (withKicks [] false (lcC s)) s))|done].
  - destruct (cadence_ready (fun _ => True) s keep_all I Hr) as (s1 & seg & [Hl _] & N & _ & He & Hs'). exists seg. split; [done|]. split.
    + destruct Hs' as [-> | [reason ->]]; [left; by rewrite Hl|right]. destruct (Hf reason s1) as (ok & rest & ->). rewrite Hl, <- app_assoc. eauto.
    + intros _ Hold. unfold cadenceCheck. destruct (cEnforced (lcC s)); try done; destruct (olderThan _ (2 * probeCadence deps) _ _); try apply Hf;
        destruct Hold as [|Hold]; try done; rewrite Hold; apply Hf.
Qed.
End Ladder.

(** ** The controller over the install transaction *)

(** A controller whose [apply] is the install transaction, on a world whose
    contracts and bindings its probes do not change. *)
Section Composed.
Context {W : Type} (deps : kvAttestDeps W) (dpOf : W -> dpState) (setter : Z -> W -> option setterFn) (attempts : Z) (svc : Z).
Hypothesis probes_keep_dp : forall d, probesKeep deps (fun w => dpOf w = d).
Hypothesis apply_is_install : forall el w, exists r,
  kvDataplaneContractApply svc (setter el w) attempts (now deps w) el (dpOf w) = Some (r, dpOf (apply deps svc el w).2) /\
  (apply deps svc el w).1 = match r with None => true | Some _ => false end.

(** What the last transaction left on record for the rule. *)
Definition dpSays (a : option (Z * bool)) (d : dpState) : Prop :=
  exists c, dpContracts d !! svc = Some c /\
  match a with
  | None => True
  | Some (el, true) => scDenied c = false /\ exists b, KvBindingCurrent (scRule c) (dpBindings d) = Some b /\ scLastApplied c = want c b el /\ (el = 0 \/ el = 1)
  | Some (_, false) => scDenied c = true
  end.

Lemma dpSays_registered a d : dpSays a d -> is_Some (dpContracts d !! svc).
Proof. intros (c & -> & _). eauto. Qed.

(** The end of a transaction for a registered rule. *)
Lemma apply_run_registered st att nw el d c : dpContracts d !! svc = Some c ->
  exists r c', kvDataplaneContractApply svc st att nw el d = Some (r, DpState (<[svc := c']> (dpContracts d)) (dpBindings d)) /\
    match r with
    | Some e => c' = setOutcome true (faultOf e) c
    | None => c' = ackedContract nw el (dpBindings d) c /\ is_Some (KvBindingCurrent (scRule c) (dpBindings d))
    end.
Proof.
  intros Hc. unfold kvDataplaneContractApply, applyStart. destruct st as [reply|]; cbn [negb default].
  - assert ((if att <? 1 then 1 else att) = Z.max 1 att) as -> by (zcase; lia).
    destruct (attempts_run (6 * Z.to_nat (Z.max 1 att) + 2) svc el reply nw (Z.to_nat (Z.max 1 att) - 1) None d c Hc ltac:(lia)) as (c' & Hrun & Hres). cbv zeta in *. eauto.
  - exists (Some ENoSetter), (setOutcome true (faultOf ENoSetter) c). rewrite Nat.add_comm. cbn [plus applyRun applyStep]. unfold kvSvcContractOutcome. rewrite Hc, ?applyRun_done. done.
Qed.

Lemma apply_says el w : el = 0 \/ el = 1 -> is_Some (dpContracts (dpOf w) !! svc) -> dpSays (Some (el, (apply deps svc el w).1)) (dpOf (apply deps svc el w).2).
Proof.
  intros Hel [c Hc]. destruct (apply_is_install el w) as (r & Hrun & ->).
  destruct (apply_run_registered (setter el w) attempts (now deps w) el (dpOf w) c Hc) as (r' & c' & Hrun' & Hres).
  rewrite Hrun in Hrun'. injection Hrun' as <- ->. exists c'. split; [apply lookup_insert_eq|]. destruct r as [e|]; [by rewrite Hres|].
  destruct Hres as [-> [b Hb]]. unfold ackedContract. rewrite Hb. cbn. eauto.
Qed.

(** The record follows the log. *)
Definition tracked (s : ladderSt W) : Prop := aiSvc (cInfo (lcC s)) = svc /\ dpSays (lastApply (lcLog s)) (dpOf (lcW s)).

Lemma tracked_probes s s' seg : tracked s -> extends s s' seg -> Forall (fun e => isApply e = false) seg -> dpOf (lcW s') = dpOf (lcW s) -> tracked s'.
Proof. intros [Hi Hs] [Hl Hi'] N Hw. split; [by rewrite Hi'|]. by rewrite Hl, lastApply_app, Hw. Qed.

Lemma ladder_tracked s : tracked s -> tracked (runLadder deps s).
Proof.
  intros Ht. destruct (ladder_spec deps (fun w => dpOf w = dpOf (lcW s)) s (probes_keep_dp _) eq_refl)
    as [(seg & X & N & Hw & _)|(body & ok & w1 & tail & [Hl Hi] & _ & N & Hw & _ & Hap & _)]; [by eapply tracked_probes|].
  destruct Ht as [Hsvc Hs]. split; [by rewrite Hi|]. rewrite Hl, lastApply_one by done. rewrite Hsvc in Hap.
  pose proof (apply_says 1 w1) as H. rewrite Hap in H. apply H; [by right|]. rewrite Hw. by eapply dpSays_registered.
Qed.

Lemma fence_tracked reason s : tracked s -> tracked (fenceAndReattest deps reason s).
Proof.
  intros [Hsvc Hs]. pose proof (apply_says 0 (lcW s) (or_introl eq_refl) (dpSays_registered _ _ Hs)) as H. pose proof (fence_spec deps reason s) as F. rewrite Hsvc in F.
  destruct (apply deps svc 0 (lcW s)) as [ok w1]. cbv zeta in F. cbn [fst snd] in H. destruct ok.
  - destruct F as (s1 & tail & [Hl Hi] & N & _ & Hw & ->). apply ladder_tracked. split; [congruence|]. rewrite Hl, lastApply_head, Hw by done. exact H.
  - destruct F as (tail & [Hl Hi] & N & _ & Hw). split; [congruence|]. rewrite Hl, lastApply_head, Hw by done. exact H.
Qed.

Lemma attestDo_tracked s i : tracked s -> tracked (attestDo deps s i).
Proof.
  intros Ht. destruct i as [[]|r|]; cbn [attestDo]; [| |unfold Kick; by destruct (Nat.ltb _ _)|exact Ht]; unfold loopStep; (destruct (cStopped _); [done|]).
  - destruct (cKicks _) as [|reason ks]; [done|]. by apply (fence_tracked reason (setC (withKicks [] false (lcC s)) s)).
  - destruct (isReady (cEnforced (lcC s))) eqn:Er.
    + destruct (cadence_ready deps (fun w => dpOf w = dpOf (lcW s)) s (probes_keep_dp _) eq_refl Er) as (s1 & seg & X & N & Hw & _ & Hs').
      assert (tracked s1) by (eapply tracked_probes; [done|done|by apply probes_noApply|done]). destruct Hs' as [-> | [reason ->]]; [done|by apply fence_tracked].
    + unfold cadenceCheck. destruct (cEnforced (lcC s)); try done; by apply ladder_tracked.
Qed.

(** C5: a READY rule is open with a word that is eligible, and no other is.  For a
    controller over the install transaction, in a world where nothing but its own
    transactions changes the rule's contract and binding (probes do not touch them,
    no other writer reallocates or migrates the binding or installs a contract, and
    no replaced controller of the rule is still climbing), after any kicks and
    ticks: when it is in a READY state its rule is not denied and the word on record
    is the eligible one of the rule's current binding; when it is in
    ENFORCEMENT_FAULT the rule is denied; in every other state, once a transaction
    ran, the word on record is one that is not eligible.  The rule is registered. *)
Theorem ready_rule_is_open info w inputs :
  aiSvc info = svc -> is_Some (dpContracts (dpOf w) !! svc) ->
  let s := foldl (attestDo deps) (newLadder info w) inputs in
  exists c, dpContracts (dpOf (lcW s)) !! svc = Some c /\
  (isReady (cEnforced (lcC s)) = true -> scDenied c = false /\
     exists b, KvBindingCurrent (scRule c) (dpBindings (dpOf (lcW s))) = Some b /\ scLastApplied c = want c b 1) /\
  (cEnforced (lcC s) = EnforcementFault -> scDenied c = true) /\
  (isReady (cEnforced (lcC s)) = false -> cEnforced (lcC s) <> EnforcementFault -> lastApply (lcLog s) <> None ->
     exists b, KvBindingCurrent (scRule c) (dpBindings (dpOf (lcW s))) = Some b /\ scLastApplied c = want c b 0).
Proof.
  intros Hi Hreg. cbv zeta. assert (coherent (foldl (attestDo deps) (newLadder info w) inputs) /\ tracked (foldl (attestDo deps) (newLadder info w) inputs)) as [Hc [_ Ht]].
  { assert (coherent (newLadder info w) /\ tracked (newLadder info w)) as H0. { split; [done|]. split; [done|]. destruct Hreg as [c Hc]. by exists c. }
    revert H0. generalize (newLadder info w). induction inputs as [|i l IH]; intros s [H1 H2]; [done|]. cbn [foldl]. apply IH. split; [by apply attestDo_coherent|by apply attestDo_tracked]. }
  set (s := foldl _ _ _) in *. destruct Ht as (c & Hcc & Hsay). exists c. split; [done|]. unfold coherent in Hc. destruct (lastApply (lcLog s)) as [[el []]|].
  - destruct Hc as [Hr Hne], Hsay as (Hd & b & Hb & Hw & Hel). rewrite Hr. split; [intros ->%Z.eqb_eq; eauto|]. split; [done|]. intros Hn%Z.eqb_neq _ _. exists b. by destruct Hel as [-> | ->].
  - rewrite Hc. done.
  - destruct Hc as [-> Hne]. done.
Qed.

End Composed.

(** ** Runs *)

Definition greenFinding : KvAttestFinding := Finding true "" "" false.

Definition greenAdapter : kvAttestAdapter dpState :=
  Adapter (fun _ _ w => (greenFinding, w)) (fun _ _ w => (greenFinding, w)) (fun _ _ w => (greenFinding, w)).

(** A data plane that reads back what it was given. *)
Definition echoSetter (el : Z) : setterFn := fun '(_, gen, _, _, _, api) => (KvContractPack gen 0 api el, true).

Definition installApply (svcID el : Z) (w : dpState) : bool * dpState :=
  match kvDataplaneContractApply svcID (Some (echoSetter el)) 20 99 el w with
  | Some (None, w') => (true, w')
  | Some (Some _, w') => (false, w')
  | None => (false, w)
  end.

Definition demoEndpoint : KvAttestEndpoint := AttestEndpoint 0 "10.0.0.2" 8000.

(** One endpoint, a manifest, no peers; the clock stands at [t]. *)
Definition demoDeps (t : Z) : kvAttestDeps dpState :=
  Deps (fun _ => Some greenAdapter) (fun _ _ => [demoEndpoint]) installApply (fun _ _ => Some (Manifest "m1" "v1")) None None None (fun _ => t) true false 30 300.

Definition demoQuirks : KvEngineQuirks := Quirks false false 0.

Definition demoInfo : kvAttestRuleInfo :=
  RuleInfo 5 "r1" "m" "vllm" "sha256" 16 "p" true true 1 5557 false 0 [] (ChallengePlan 0 false (Encoding "" demoQuirks 0 false)).

(** An activated controller: the rule is fenced, climbs and becomes eligible. *)
Definition activated : list attestInput := [IKick "activation"; ILoop LKick].

Definition atReady : ladderSt dpState := foldl (attestDo (demoDeps 100)) (newLadder demoInfo demoDp) activated.

Lemma activated_log : lcLog atReady =
  [EApply 0 true; EGauge Degraded; EProbe Identity demoEndpoint true; EProbe TokenParityProbe demoEndpoint true; EGauge TokenParity;
   EProbe HashEcho demoEndpoint true] ++ EApply 1 true :: [EGauge Ready].
Proof. vm_compute. reflexivity. Qed.

Lemma eligibility_witness : exists before i later, activated = before ++ i :: later /\
  endsClimb (demoDeps 100) demoInfo (foldl (attestDo (demoDeps 100)) (newLadder demoInfo demoDp) before) i
    [EApply 0 true; EGauge Degraded; EProbe Identity demoEndpoint true; EProbe TokenParityProbe demoEndpoint true; EGauge TokenParity;
     EProbe HashEcho demoEndpoint true] true.
Proof. exact (eligibility_is_earned (demoDeps 100) demoInfo demoDp activated _ true [EGauge Ready] activated_log). Defined.

(** Ten minutes later the evidence is stale. *)
Lemma degradation_witness : exists ok rest, lcLog (loopStep (demoDeps 700) LTick atReady) = lcLog atReady ++ EApply 0 ok :: rest.
Proof.
  destruct (degradation_is_fence_first (demoDeps 700) atReady LTick) as (probes & _ & _ & H); [vm_compute; reflexivity|vm_compute; reflexivity|].
  apply H; [reflexivity|]. left. vm_compute. reflexivity.
Defined.

Lemma demo_probes_keep t d : probesKeep (demoDeps t) (fun w => w = d).
Proof. intros engine ad [= <-] ep w. done. Qed.

Lemma demo_apply_installs t el w : exists r,
  kvDataplaneContractApply 5 (Some (echoSetter el)) 20 99 el w = Some (r, (apply (demoDeps t) 5 el w).2) /\
  (apply (demoDeps t) 5 el w).1 = match r with None => true | Some _ => false end.
Proof.
  change (apply (demoDeps t) 5 el w) with (installApply 5 el w). unfold installApply.
  destruct (kvDataplaneContractApply 5 (Some (echoSetter el)) 20 99 el w) as [[[e|] w']|] eqn:E; [eauto..|]. exfalso.
  destruct (dpContracts w !! 5) as [c|] eqn:Ec; [destruct (apply_run_registered 5 (Some (echoSetter el)) 20 99 el w c Ec) as (? & ? & ? & _); congruence|].
  unfold kvDataplaneContractApply, applyStart in E. cbn [negb default] in E. rewrite Nat.add_comm in E. cbn [plus applyRun applyStep] in E. rewrite Ec in E. by rewrite ?applyRun_done in E.
Qed.

Lemma ready_rule_witness : exists c, dpContracts (lcW (foldl (attestDo (demoDeps 99)) (newLadder demoInfo demoDp) activated)) !! 5 = Some c /\ scDenied c = false.
Proof.
  destruct (ready_rule_is_open (demoDeps 99) (fun w => w) (fun el _ => Some (echoSetter el)) 20 5 (demo_probes_keep 99) (fun el w => demo_apply_installs 99 el w) demoInfo demoDp activated)
    as (c & Hc & Hready & _); [reflexivity|vm_compute; eauto|]. exists c. split; [exact Hc|]. apply Hready. vm_compute. reflexivity.
Defined.

(** A climb does not look at the stop channel: a controller that was replaced or
    stopped while it climbs still makes the rule eligible, without a gauge. *)
Lemma stopped_climb_makes_eligible :
  let c := stopC (newKvAttestController demoInfo) in
  let s := runLadder (demoDeps 100) (LadderSt c demoDp []) in
  cStopped (lcC s) = true /\ lastApply (lcLog s) = Some (1, true) /\ kvSvcDenied 5 (dpContracts (lcW s)) = false.
Proof. vm_compute. auto. Qed.

(** ** The cluster's agreement *)

(** What a peer must report for a rule whose local document is [local]. *)
Definition agrees (local p : KvCapabilityInfo) : Prop :=
  SchemaMinor local <= SchemaMinor p /\ HashContractVer p = HashContractVer local /\ ProfileSetDigest p = ProfileSetDigest local /\
  AttestationPolicy p = AttestationPolicy local /\ EvidencePolicy p = EvidencePolicy local /\
  ContractRegistryDigest p = ContractRegistryDigest local /\ SupportCatalogDigest p = SupportCatalogDigest local /\
  ContractSchemaVer p = ContractSchemaVer local /\
  (capBindingDigest local <> ""%string -> capBindingDigest p = capBindingDigest local /\ capBindingGen p = capBindingGen local).

Lemma match_agrees local p : kvCapabilityMatch local p = ""%string <-> agrees local p.
Proof.
  unfold kvCapabilityMatch, agrees.
  destruct (Z.ltb_spec (SchemaMinor p) (SchemaMinor local)); [split; [discriminate|lia]|].
  repeat (match goal with |- context [negb (?a ==s ?b)] => destruct (String.eqb_spec a b) as [->|] | |- context [?a !=? ?b] => destruct (Z.eqb_spec a b) as [->|] end;
    cbn [negb andb orb]; try (split; [discriminate|naive_solver])); naive_solver.
Qed.

Lemma gateLoop_spec local clients :
  (gateLoop local clients).1 = true <-> Forall (fun peer => exists p, peer local = Some p /\ agrees local p) clients.
Proof.
  induction clients as [|peer rest IH]; cbn [gateLoop]; [split; [constructor|done]|]. rewrite Forall_cons, <- IH. destruct (peer local) as [p|].
  - destruct (String.eqb_spec (kvCapabilityMatch local p) "") as [E|E]; cbn [negb]; rewrite match_agrees in E; naive_solver.
  - naive_solver.
Qed.

(** A peer that runs the modelled responder over its own document and bindings. *)
Definition node (own : KvCapabilityInfo) (docs : list KvExactBindingMod) : KvCapabilityInfo -> option KvCapabilityInfo := fun req => Some (kvCapabilityRespond own docs req).

(** The capabilities two nodes share, bindings apart. *)
Definition sameBuild (a b : KvCapabilityInfo) : Prop := agrees (withBinding "" 0 a) b.

Lemma respond_holds local own docs : capBindingDigest own = ""%string ->
  agrees local (kvCapabilityRespond own docs local) <->
  sameBuild local own /\ (capBindingDigest local <> ""%string -> exists m, m ∈ docs /\ BindingDigest m = capBindingDigest local /\ mBindingGen m = capBindingGen local).
Proof.
  intros Hown. unfold kvCapabilityRespond, sameBuild, agrees. destruct (String.eqb_spec (capBindingDigest local) "") as [E|E]; cbn [negb andb].
  { cbn. rewrite E. naive_solver. }
  destruct (existsb _ docs) eqn:Ex.
  - apply existsb_exists in Ex as (m & Hm & [H1%String.eqb_eq H2%Z.eqb_eq]%andb_true_iff). apply list_elem_of_In in Hm. cbn. naive_solver.
  - assert (forall m, m ∈ docs -> BindingDigest m = capBindingDigest local -> mBindingGen m = capBindingGen local -> False) as Hno.
    { intros m Hm H1 H2. apply not_true_iff_false in Ex. apply Ex, existsb_exists. exists m. split; [by apply list_elem_of_In|]. by rewrite H1, H2, String.eqb_refl, Z.eqb_refl. }
    cbn. split; [intros H; destruct H as (?&?&?&?&?&?&?&?&H); destruct (H E); congruence|]. naive_solver.
Qed.

(** The cluster gate means convergence. Among nodes that run the responder, a
    rule passes the gate exactly when every connected peer has the same build
    identity documents (a schema minor at least as new, the same hash contract,
    profile set, policies, registry, catalogue and contract schema) and, when the
    rule has a binding, holds a binding with the same digest under the same
    generation. While a peer that cannot answer the exchange is connected no rule
    passes. *)
Theorem gate_means_converged own bs peers info :
  Forall (fun pd => capBindingDigest pd.1 = ""%string) peers -> capBindingDigest own = ""%string ->
  ((kvClusterCapabilityGate own bs (map (fun pd => node pd.1 pd.2) peers) info).1 = true <->
   Forall (fun pd => sameBuild own pd.1 /\
     forall b, KvBindingCurrent (aiRule info) bs = Some b -> bDigest b <> ""%string -> exists m, m ∈ pd.2 /\ BindingDigest m = bDigest b /\ mBindingGen m = BindingGen b) peers) /\
  (forall clients clients', (kvClusterCapabilityGate own bs (clients ++ (fun _ => None) :: clients') info).1 = false).
Proof.
  intros Hp Hown. set (local := match KvBindingCurrent (aiRule info) bs with Some b => withBinding (bDigest b) (BindingGen b) own | None => own end).
  assert (forall cl, (kvClusterCapabilityGate own bs cl info).1 = (gateLoop local cl).1) as Hg by by intros [].
  split; [|intros cl cl'; rewrite Hg; apply not_true_iff_false; rewrite gateLoop_spec, Forall_app, Forall_cons; naive_solver].
  rewrite Hg, gateLoop_spec, Forall_map. rewrite !Forall_forall. rewrite Forall_forall in Hp. apply forall_proper. intros [po docs].
  split; intros H Hin; specialize (H Hin); cbn [fst snd node] in *.
  - destruct H as (p & [= <-] & Ha). apply respond_holds in Ha as [H1 H2]; [|by apply (Hp (po, docs))]. unfold local in *. destruct (KvBindingCurrent _ bs) as [b|]; [split; [exact H1|]; intros ? [= <-]; exact H2|done].
  - eexists. split; [reflexivity|]. apply respond_holds; [by apply (Hp (po, docs))|]. unfold local. destruct H as [H1 H2]. destruct (KvBindingCurrent _ bs) as [b|]; [split; [exact H1|exact (H2 b eq_refl)]|by rewrite Hown].
Qed.

Definition demoCap : KvCapabilityInfo := CapabilityInfo 3 "h" "ps" 1 "b1" "cr" "sc" "cs" 1 "" 0.

(** A peer document for binding [b] of rule r1. *)
Definition demoDoc (b : KvExactBinding) (gen : Z) : KvExactBindingMod := BindingMod "r1" "p" 1 "c" 1 1 "" "" gen (bDigest b) gen.

Lemma gate_witness :
  (kvClusterCapabilityGate demoCap wrapStore (map (fun pd => node pd.1 pd.2) [(demoCap, [demoDoc (demoBinding 4294967295) 4294967295])]) demoInfo).1 = true.
Proof.
  destruct (gate_means_converged demoCap wrapStore [(demoCap, [demoDoc (demoBinding 4294967295) 4294967295])] demoInfo) as [[_ H] _]; [repeat constructor|reflexivity|].
  apply H. constructor; [|constructor]. split; [vm_compute; repeat split; discriminate|].
  intros b Hb _. vm_compute in Hb. injection Hb as <-. exists (demoDoc (demoBinding 4294967295) 4294967295). split; [left|split; reflexivity].
Defined.

(** Peers that hold the same binding, digest and all, under another generation
    number do not converge. *)
Lemma same_digest_other_generation :
  kvClusterCapabilityGate demoCap wrapStore [node demoCap [demoDoc (demoBinding 4294967295) 1]] demoInfo = (false, "binding_not_converged_on_peer"%string).
Proof. vm_compute. reflexivity. Qed.
