(* ===== verification/NetIdText.v ===== *)
(** * NetIdText: addresses, networks and services as text

    What pkg/loxinet/netidentity.go uses of net/netip, net and strings: IPv4
    addresses and prefixes with their spelling, host:port, and the checks on the
    names of a binding.  An IPv6 spelling is refused at every place the package
    parses one, so it parses to nothing here; ToLower and TrimSpace act on ASCII
    text. *)

From Stdlib Require Import Ascii String.
From S2P Require Import Prelude Classes.

Open Scope Z_scope.
Open Scope igw_scope.

(** ** IPv4 addresses *)

Definition dot : ascii := "."%char.
Definition slash : ascii := "/"%char.
Definition colon : ascii := ":"%char.

(** One octet: digits without a leading zero, at most 255. *)
Definition parseOctet (s : string) : option Z :=
  match s with
  | EmptyString => None
  | String "0" (String _ _) => None
  | _ => match parse_digits 0 s with
         | Some v => if v <=? 255 then Some v else None
         | None => None
         end
  end.

(** [netip.ParseAddr] where it gives an IPv4 address. *)
Definition ParseAddr4 (s : string) : option Z :=
  match SplitByte dot s with
  | [a; b; c; d] =>
      match parseOctet a, parseOctet b, parseOctet c, parseOctet d with
      | Some x, Some y, Some z, Some w => Some (((x * 256 + y) * 256 + z) * 256 + w)
      | _, _, _, _ => None
      end
  | _ => None
  end.

(** [Addr.String]. *)
Definition showAddr4 (a : Z) : string :=
  fmtD (a / 16777216) +:+ String dot (fmtD (a / 65536 mod 256) +:+ String dot (fmtD (a / 256 mod 256) +:+ String dot (fmtD (a mod 256)))).

(** ** Prefixes *)

Record Prefix := PrefixFrom { pfxAddr : Z; pfxBits : Z }.

#[export] Instance Prefix_eq_dec : EqDecision Prefix.
Proof. solve_decision. Defined.

(** [strings.LastIndexByte] as a split at the last occurrence. *)
Fixpoint CutLast (c : ascii) (s : string) : option (string * string) :=
  match s with
  | EmptyString => None
  | String a s' =>
      match CutLast c s' with
      | Some (l, r) => Some (String a l, r)
      | None => if Ascii.eqb a c then Some (EmptyString, s') else None
      end
  end.

(** The length of a prefix: no sign and no leading zero. *)
Definition parseBits (s : string) : option Z :=
  match s with
  | String c (String _ _) => if byteBetween "1" "9" c then ParseInt s else None
  | _ => ParseInt s
  end.

(** [netip.ParsePrefix] where it gives an IPv4 prefix. *)
Definition ParsePrefix4 (s : string) : option Prefix :=
  match CutLast slash s with
  | None => None
  | Some (a, b) =>
      match ParseAddr4 a, parseBits b with
      | Some ip, Some bits => if (bits <? 0) || (bits >? 32) then None else Some (PrefixFrom ip bits)
      | _, _ => None
      end
  end.

Definition showPrefix (p : Prefix) : string := showAddr4 (pfxAddr p) +:+ String slash (fmtD (pfxBits p)).

Definition two32w : Z := 4294967296.

Definition netidMask (bits : Z) : Z := if bits ==? 0 then 0 else Z.shiftl (two32w - 1) (32 - bits) mod two32w.

Definition Masked (p : Prefix) : Prefix := PrefixFrom (Z.land (pfxAddr p) (netidMask (pfxBits p))) (pfxBits p).

(** ** Services *)

(** [net.SplitHostPort]. *)
Definition SplitHostPort (s : string) : option (string * string) :=
  match CutLast colon s with
  | None => None
  | Some (l, port) =>
      match s with
      | String "[" rest =>
          match CutByte "]" rest with
          | None => None
          | Some (host, after) =>
              if negb (after ==s String colon port) then None
              else if ContainsByte "[" rest || ContainsByte "]" after then None
              else Some (host, port)
          end
      | _ =>
          if ContainsByte colon l || ContainsByte "[" s || ContainsByte "]" s then None
          else Some (l, port)
      end
  end.

(** [strconv.ParseUint s 10 16]. *)
Definition ParseUint16 (s : string) : option Z :=
  match ParseUint s with
  | Some v => if v <? 65536 then Some v else None
  | None => None
  end.

Definition netidService (s : string) : option string :=
  match SplitHostPort (TrimSpace s) with
  | None => None
  | Some (host, port) =>
      match ParseAddr4 host with
      | None => None
      | Some a =>
          match ParseUint16 port with
          | None => None
          | Some p => if p ==? 0 then None else Some (showAddr4 a +:+ String colon (fmtD p))
          end
      end
  end.

(** ** Names *)

Definition netidNameMax : nat := 63.
Definition netidTenantMax : nat := 127.
Definition netidModelMax : nat := 127.
Definition netidIfNameMax : nat := 15.

Definition controlByte (c : ascii) : bool := (N_of_ascii c <? 32)%N || (N_of_ascii c =? 127)%N.

Definition netidHasControl (s : string) : bool := negb (allBytes (fun c => negb (controlByte c)) s).

Definition alnumByte (c : ascii) : bool := byteBetween "a" "z" c || byteBetween "A" "Z" c || byteBetween "0" "9" c.

Definition netidNameOK (s : string) : bool :=
  match s with
  | EmptyString => false
  | String c r =>
      negb (netidNameMax <? String.length s)%nat && alnumByte c &&
      allBytes (fun c => alnumByte c || Ascii.eqb c "-" || Ascii.eqb c "_" || Ascii.eqb c ".") r
  end.

(** [strings.ContainsAny s] for an interface name: slash, space, tab. *)
Definition ifNameBadByte (c : ascii) : bool := Ascii.eqb c slash || Ascii.eqb c " " || Ascii.eqb c "009".

(** An empty value is the first of the allowed. *)
Definition netidEnum (v : string) (allowed : list string) : option string :=
  let v := ToLower (TrimSpace v) in
  if v ==s "" then head allowed
  else if bool_decide (v ∈ allowed) then Some v else None.
