(* ===== verification/NetId.v ===== *)
(** * NetId: network-identity bindings

    pkg/loxinet/netidentity.go and common/netidentity.go: the bindings that give
    the requests of a network a tenant, the resolver snapshot compiled from them,
    the bound set the data plane is told, and the holder that changes all three in
    order.  pkg/loxinet/netidentity_dp.go: the export the admission gate calls;
    netidentity_sockmap.go: the refusals against rules the kernel carries.
    Interface names resolve through the environment of a call; log lines and
    fault counters are left out. *)

From Stdlib Require Import Ascii String.
From S2P Require Import Prelude StoreErr RateLimit RateSync Objective Common Admission Gateway Identity Classes NetIdText.

Open Scope Z_scope.
Open Scope igw_scope.

(** ** Bindings *)

Definition NetIdentityEnforceAdvisory : string := "advisory".
Definition NetIdentityEnforceStrict : string := "strict".
Definition NetIdentityCredentialNone : string := "none".
Definition NetIdentityCredentialNetwork : string := "network".
Definition NetIdentityFailNeutral : string := "neutral".
Definition NetIdentityFailClosed : string := "closed".
Definition NetIdentityClassStandard : string := "standard".
Definition NetIdentityClassCritical : string := "critical".
Definition NetIdentityClassSheddable : string := "sheddable".
Definition NetIdentityVlanMax : Z := 4094.
Definition NetIdentityVniMax : Z := 16777215.

Record NetIdentityMatch := NidMatch {
  CIDR : list string;
  IngressIf : string;
  Vlan : Z;
  Vni : Z;
  IPsecTunnel : string
}.

Record NetIdentityMod := NidMod {
  nName : string;
  nMatch : NetIdentityMatch;
  nServices : list string;
  nTenant : string;
  nAllowedModels : list string;
  nEnforce : string;
  nCredential : string;
  nForwardIdentity : bool;
  nPriorityClass : string;
  nFailMode : string
}.

Definition OnInterface (m : NetIdentityMatch) : bool :=
  negb (IngressIf m ==s "") || (Vlan m !=? 0) || (Vni m !=? 0) || negb (IPsecTunnel m ==s "").

Definition netidMaxBindings : nat := 4096.
Definition netidMaxCIDRs : nat := 256.
Definition netidMaxServices : nat := 256.
Definition netidBoundSvcMax : nat := 1024.
Definition netidMaxModels : nat := 256.

(** ** Normal form *)

(** The networks of a match, in order and without repeats. *)
Fixpoint normCIDRs (seen : list Prefix) (l : list string) : option (list string) :=
  match l with
  | [] => Some []
  | c :: r =>
      match ParsePrefix4 (TrimSpace c) with
      | None => None
      | Some pfx =>
          if negb (bool_decide (pfx = Masked pfx)) then None
          else if bool_decide (pfx ∈ seen) then normCIDRs seen r
          else (showPrefix pfx ::.) <$> normCIDRs (pfx :: seen) r
      end
  end.

Fixpoint normServices (seen : gset string) (l : list string) : option (list string) :=
  match l with
  | [] => Some []
  | s :: r =>
      match netidService s with
      | None => None
      | Some svc =>
          if decide (svc ∈ seen) then normServices seen r
          else (svc ::.) <$> normServices ({[svc]} ∪ seen) r
      end
  end.

Definition modelOKText (m : string) : bool := negb ((m ==s "") || (netidModelMax <? String.length m)%nat || netidHasControl m).

(** The match in its stored form, or the field that is wrong. *)
Definition normMatch (m : NetIdentityMatch) : NetIdentityMatch + string :=
  let ifName := TrimSpace (IngressIf m) in
  let tunnel := TrimSpace (IPsecTunnel m) in
  let given := length (List.filter id [negb (Nat.eqb (length (CIDR m)) 0); negb (ifName ==s ""); Vlan m !=? 0; Vni m !=? 0; negb (tunnel ==s "")]) in
  if Nat.eqb given 0 then inr "match"%string
  else if (1 <? given)%nat then inr "match"%string
  else if negb (ifName ==s "") then
    if (netidIfNameMax <? String.length ifName)%nat || negb (allBytes (fun c => negb (ifNameBadByte c)) ifName) || netidHasControl ifName then inr "match.ingress_if"%string
    else inl (NidMatch [] ifName 0 0 "")
  else if Vlan m !=? 0 then
    if (Vlan m <? 1) || (Vlan m >? NetIdentityVlanMax) then inr "match.vlan"%string else inl (NidMatch [] "" (Vlan m) 0 "")
  else if Vni m !=? 0 then
    if (Vni m <? 1) || (Vni m >? NetIdentityVniMax) then inr "match.vni"%string else inl (NidMatch [] "" 0 (Vni m) "")
  else if negb (tunnel ==s "") then
    if negb (netidNameOK tunnel) then inr "match.ipsec_tunnel"%string else inl (NidMatch [] "" 0 0 tunnel)
  else if (netidMaxCIDRs <? length (CIDR m))%nat then inr "match.cidr"%string
  else match normCIDRs [] (CIDR m) with
       | None => inr "match.cidr"%string
       | Some l => inl (NidMatch l "" 0 0 "")
       end.

(** The enumerated fields, first failure first. *)
Definition normEnums (pm : NetIdentityMod) (m : NetIdentityMatch) : (string * string * string * string) + string :=
  match netidEnum (nEnforce pm) [NetIdentityEnforceAdvisory; NetIdentityEnforceStrict] with
  | None => inr "enforce"%string
  | Some e =>
      match netidEnum (nCredential pm) [NetIdentityCredentialNone; NetIdentityCredentialNetwork] with
      | None => inr "credential"%string
      | Some c =>
          if (c ==s NetIdentityCredentialNetwork) && negb (OnInterface m) then inr "credential"%string
          else match netidEnum (nPriorityClass pm) [NetIdentityClassStandard; NetIdentityClassCritical; NetIdentityClassSheddable] with
               | None => inr "priority_class"%string
               | Some p =>
                   match netidEnum (nFailMode pm) [NetIdentityFailNeutral; NetIdentityFailClosed] with
                   | None => inr "fail_mode"%string
                   | Some f => inl (e, c, p, f)
                   end
               end
      end
  end.

(** [inr] names the field of the refusal. *)
Definition netidNormalize (opm : option NetIdentityMod) : NetIdentityMod + string :=
  match opm with
  | None => inr ""%string
  | Some pm =>
      if negb (netidNameOK (nName pm)) then inr "name"%string
      else match normMatch (nMatch pm) with
      | inr f => inr f
      | inl m =>
          if (nTenant pm ==s "") || (netidTenantMax <? String.length (nTenant pm))%nat || netidHasControl (nTenant pm) then inr "tenant"%string
          else if negb (ValidateQoSIdentity (nTenant pm)) then inr "tenant"%string
          else match normEnums pm m with
          | inr f => inr f
          | inl (e, c, p, f) =>
              if (netidMaxServices <? length (nServices pm))%nat then inr "services"%string
              else match normServices ∅ (nServices pm) with
              | None => inr "services"%string
              | Some svcs =>
                  let svcs := sortStrings svcs in
                  if nForwardIdentity pm && Nat.eqb (length svcs) 0 then inr "forward_identity"%string
                  else if (netidMaxModels <? length (nAllowedModels pm))%nat then inr "allowed_models"%string
                  else match dedupLoop modelOKText ∅ (nAllowedModels pm) with
                  | None => inr "allowed_models"%string
                  | Some models => inl (NidMod (nName pm) m svcs (nTenant pm) models e c (nForwardIdentity pm) p f)
                  end
              end
          end
      end
  end.

(** ** The resolver *)

Record netidBinding := NidBinding {
  bName : string;
  bTenant : string;
  bStrict : bool;
  bCredNetwork : bool;
  bForward : bool;
  bModels : option (list string);   (* [None]: any model *)
  bClass : string
}.

Definition modelOK (b : netidBinding) (model : string) : bool :=
  match bModels b with None => true | Some ms => bool_decide (model ∈ ms) end.

(** [byCIDR] is keyed by the prefix length; [lens] are the lengths in use, longest
    first. *)
Record netidTable := NidTable {
  byIf : gmap Z netidBinding;
  byCIDR : gmap Z (gmap Z netidBinding);
  lens : list Z
}.

Definition emptyTable : netidTable := NidTable ∅ ∅ [].

(** The first to claim a key keeps it. *)
Definition claim {A} (k : Z) (b : A) (m : gmap Z A) : gmap Z A := match m !! k with Some _ => m | None => <[k := b]> m end.

Definition addCIDR (pfx : Prefix) (b : netidBinding) (t : netidTable) : netidTable :=
  let bits := pfxBits pfx in
  match byCIDR t !! bits with
  | Some m => NidTable (byIf t) (<[bits := claim (pfxAddr pfx) b m]> (byCIDR t)) (lens t)
  | None => NidTable (byIf t) (<[bits := {[pfxAddr pfx := b]}]> (byCIDR t)) (merge_sort Z.ge (lens t ++ [bits]))
  end.

Definition addIf (ifindex : Z) (b : netidBinding) (t : netidTable) : netidTable :=
  NidTable (claim ifindex b (byIf t)) (byCIDR t) (lens t).

Fixpoint lpmIn (t : netidTable) (ip : Z) (ls : list Z) : option (netidBinding * Z) :=
  match ls with
  | [] => None
  | bits :: r =>
      match byCIDR t !! bits with
      | Some m => match m !! Z.land ip (netidMask bits) with Some b => Some (b, bits) | None => lpmIn t ip r end
      | None => lpmIn t ip r
      end
  end.

(** The binding and the prefix length, or nothing (nil and -1). *)
Definition lpm (t : netidTable) (ip : Z) : option (netidBinding * Z) := lpmIn t ip (lens t).

Record netidSnapshot := NidSnapshot {
  global : netidTable;
  bySvc : gmap string netidTable;
  classOf : gmap string string;
  lowers : bool
}.

Definition emptySnapshot : netidSnapshot := NidSnapshot emptyTable ∅ ∅ false.

(** [ip] is the client's address when it is IPv4. *)
Definition resolve (s : netidSnapshot) (ip : option Z) (ifindex : Z) (svc : string) : option netidBinding :=
  let st := bySvc s !! svc in
  let onIf :=
    if ifindex >? 0 then
      match (match st with Some t => byIf t !! ifindex | None => None end) with
      | Some b => Some b
      | None => byIf (global s) !! ifindex
      end
    else None in
  match onIf with
  | Some b => Some b
  | None =>
      match ip with
      | None => None
      | Some ip =>
          let g := lpm (global s) ip in
          match (match st with Some t => lpm t ip | None => None end) with
          | Some (sb, sl) =>
              match g with
              | Some (gb, gl) => if sl >=? gl then Some sb else Some gb
              | None => Some sb
              end
          | None => fst <$> g
          end
      end
  end.

(** ** Compiling the bindings *)

(** What a node's interfaces look like when they are asked for. *)
Record ifEnv := IfEnv { ifIndex : string -> option Z; tunnelIf : option (string -> option string) }.

Definition netidIfName (m : NetIdentityMatch) (tunnel : option (string -> option string)) : option string :=
  if negb (IngressIf m ==s "") then Some (IngressIf m)
  else if Vlan m !=? 0 then Some ("vlan" +:+ fmtD (Vlan m))%string
  else if Vni m !=? 0 then Some ("vxlan" +:+ fmtD (Vni m))%string
  else if negb (IPsecTunnel m ==s "") then match tunnel with Some f => f (IPsecTunnel m) | None => None end
  else None.

Definition compileBinding (pm : NetIdentityMod) : netidBinding :=
  NidBinding (nName pm) (nTenant pm) (nEnforce pm ==s NetIdentityEnforceStrict) (nCredential pm ==s NetIdentityCredentialNetwork)
    (nForwardIdentity pm) (match nAllowedModels pm with [] => None | l => Some l end) (nPriorityClass pm).

(** The scope of a table: one service, or every service. *)
Definition updTable (scope : option string) (f : netidTable -> netidTable) (s : netidSnapshot) : netidSnapshot :=
  match scope with
  | None => NidSnapshot (f (global s)) (bySvc s) (classOf s) (lowers s)
  | Some svc => NidSnapshot (global s) (<[svc := f (default emptyTable (bySvc s !! svc))]> (bySvc s)) (classOf s) (lowers s)
  end.

Definition scopesOf (pm : NetIdentityMod) : list (option string) :=
  match nServices pm with [] => [None] | l => Some <$> l end.

(** The index an interface match compiles to now; 0 when there is none. *)
Definition matchIndex (env : ifEnv) (m : NetIdentityMatch) : Z :=
  match netidIfName m (tunnelIf env) with
  | None => 0
  | Some ifName => match ifIndex env ifName with Some idx => if idx >? 0 then idx else 0 | None => 0 end
  end.

Definition addBinding (env : ifEnv) (pm : NetIdentityMod) (s : netidSnapshot) : netidSnapshot :=
  let b := compileBinding pm in
  let s := NidSnapshot (global s) (bySvc s) (<[bName b := bClass b]> (classOf s)) (if bClass b ==s NetIdentityClassSheddable then true else lowers s) in
  let s := foldl (fun s sc => updTable sc (fun t => t) s) s (scopesOf pm) in
  if OnInterface (nMatch pm) then
    let idx := matchIndex env (nMatch pm) in
    if idx >? 0 then foldl (fun s sc => updTable sc (addIf idx b) s) s (scopesOf pm) else s
  else
    foldl (fun s c =>
      match ParsePrefix4 c with
      | None => s
      | Some pfx => foldl (fun s sc => updTable sc (addCIDR pfx b) s) s (scopesOf pm)
      end) s (CIDR (nMatch pm)).

Abbreviation netidConfig := (gmap string NetIdentityMod).

(** The bindings in name order. *)
Definition namesOf (bindings : netidConfig) : list string := sortStrings (map_to_list bindings).*1.

Definition inOrder (bindings : netidConfig) : list NetIdentityMod := omap (fun n => bindings !! n) (namesOf bindings).

Definition seenOf (env : ifEnv) (bindings : netidConfig) : gmap string Z :=
  omap (fun pm => if OnInterface (nMatch pm) then Some (matchIndex env (nMatch pm)) else None) bindings.

Definition buildNetidSnapshotIf (env : ifEnv) (bindings : netidConfig) : netidSnapshot * gmap string Z :=
  (foldl (fun s pm => addBinding env pm s) emptySnapshot (inOrder bindings), seenOf env bindings).

(** ** The bound set *)

Record netidBound := NidBound {
  nbAll : bool;
  allClosed : bool;
  svcs : gmap string bool;
  fwd : gset string
}.

#[export] Instance netidBound_eq_dec : EqDecision netidBound.
Proof. solve_decision. Defined.

Definition emptyBound : netidBound := NidBound false false ∅ ∅.

Definition canon (nb : netidBound) : netidBound :=
  if negb (nbAll nb) then nb
  else NidBound (nbAll nb) (allClosed nb) (filter (fun p => (allClosed nb || negb p.2) = false) (svcs nb)) (fwd nb).

Definition boundSvc (closed forward : bool) (nb : netidBound) (svc : string) : netidBound :=
  NidBound (nbAll nb) (allClosed nb) (<[svc := default false (svcs nb !! svc) || closed]> (svcs nb)) (if forward then {[svc]} ∪ fwd nb else fwd nb).

Definition boundAdd (nb : netidBound) (pm : NetIdentityMod) : netidBound :=
  let closed := nFailMode pm ==s NetIdentityFailClosed in
  match nServices pm with
  | [] => NidBound true (allClosed nb || closed) (svcs nb) (fwd nb)
  | l => foldl (boundSvc closed (nForwardIdentity pm)) nb l
  end.

(** [iter] is the iteration over the bindings. *)
Definition netidBoundOf (iter : list NetIdentityMod) : netidBound := canon (foldl boundAdd emptyBound iter).

Definition has (nb : netidBound) (svc : string) : bool * bool :=
  let c := svcs nb !! svc in
  (nbAll nb || bool_decide (is_Some c) || bool_decide (svc ∈ fwd nb), (nbAll nb && allClosed nb) || default false c).

Definition forwards (nb : netidBound) (svc : string) : bool := bool_decide (svc ∈ fwd nb).

(** Field by field: sizes, then entries. *)
Definition boundEqual (nb o : netidBound) : bool :=
  if negb (Bool.eqb (nbAll nb) (nbAll o)) || negb (Bool.eqb (allClosed nb) (allClosed o)) ||
     negb (Nat.eqb (size (svcs nb)) (size (svcs o))) || negb (Nat.eqb (size (fwd nb)) (size (fwd o))) then false
  else bool_decide (map_Forall (fun svc c => svcs o !! svc = Some c) (svcs nb)) && bool_decide (set_Forall (fun svc => svc ∈ fwd o) (fwd nb)).

Definition keepSvc (nb next m : netidBound) (svc : string) : netidBound :=
  match svcs m !! svc with
  | Some _ => m
  | None =>
      let '(was, _) := has nb svc in
      let '(is_, closed) := has next svc in
      if was && is_ then NidBound (nbAll m) (allClosed m) (<[svc := closed]> (svcs m)) (if forwards next svc then {[svc]} ∪ fwd m else fwd m)
      else m
  end.

Definition meet (nb next : netidBound) : netidBound :=
  let all := nbAll nb && nbAll next in
  canon (foldl (keepSvc nb next) (NidBound all (all && allClosed next) ∅ ∅)
    ((map_to_list (svcs nb)).*1 ++ (map_to_list (svcs next)).*1 ++ elements (fwd nb) ++ elements (fwd next))).

(** ** The holder *)

(** What the gate can observe: the bound set the data plane was told, the snapshot
    in place, and whether ingress interfaces are read. *)
Record netidView := NidView { vBound : netidBound; vSnap : option netidSnapshot; vIfMatch : bool }.

Record NetIdentityH := NidH {
  hBindings : netidConfig;
  hBound : netidBound;
  hSnap : option netidSnapshot;
  hIfSeen : gmap string Z;
  hIfMatch : bool
}.

Definition newNetIdentityH (env : ifEnv) : NetIdentityH :=
  NidH ∅ emptyBound (Some (buildNetidSnapshotIf (IfEnv (ifIndex env) None) ∅).1) ∅ false.

Definition viewOf (h : NetIdentityH) : netidView := NidView (hBound h) (hSnap h) (hIfMatch h).

(** [commit]: the holder after it, and what the gate could observe after each of
    its effects, in order. *)
Definition commit (env : ifEnv) (next : netidConfig) (h : NetIdentityH) : list netidView * NetIdentityH :=
  let '(snap, seen) := buildNetidSnapshotIf env next in
  let nb := netidBoundOf (map_to_list next).*2 in
  let ifMatch := negb (Nat.eqb (size seen) 0) in
  let v0 := viewOf h in
  let '(t1, if1) := if ifMatch && negb (hIfMatch h) then ([NidView (vBound v0) (vSnap v0) true], true) else ([], hIfMatch h) in
  let mid := meet (hBound h) nb in
  let '(t2, b2) := if negb (boundEqual mid (hBound h)) then ([NidView mid (vSnap v0) if1], mid) else ([], hBound h) in
  let t3 := [NidView b2 (Some snap) if1] in
  let '(t4, b4) := if negb (boundEqual nb b2) then ([NidView nb (Some snap) if1], nb) else ([], b2) in
  let '(t5, if5) := if negb ifMatch && if1 then ([NidView b4 (Some snap) false], false) else ([], if1) in
  (t1 ++ t2 ++ t3 ++ t4 ++ t5, NidH next b4 (Some snap) seen if5).

Inductive netidErr := NetIdentityArgErr (field : string) | NetIdentityNoExistErr | NetIdentityConflictErr (other : string).

Definition netidKeys (pm : NetIdentityMod) : list string :=
  let scopes := match nServices pm with [] => [""%string] | l => l end in
  let '(matches, kind) :=
    match netidIfName (nMatch pm) None with
    | Some ifName => ([ifName], "ingress_if "%string)
    | None => if negb (IPsecTunnel (nMatch pm) ==s "") then ([IPsecTunnel (nMatch pm)], "ipsec_tunnel "%string) else (CIDR (nMatch pm), "cidr "%string)
    end in
  sc ← scopes; m ← matches; [(sc +:+ "|" +:+ kind +:+ m)%string].

(** The first binding in name order that claims a key of [pm] for another tenant. *)
Definition netidConflict (have : netidConfig) (pm : NetIdentityMod) : option string :=
  let mine := netidKeys pm in
  head (omap (fun name =>
    match have !! name with
    | None => None
    | Some other =>
        if (name ==s nName pm) || (nTenant other ==s nTenant pm) then None
        else if existsb (fun k => bool_decide (k ∈ mine)) (netidKeys other) then Some (nName other) else None
    end) (namesOf have)).

(** The field of the refusal. *)
Definition netidFwdRoomErr (next : netidConfig) (nm : NetIdentityMod) : option string :=
  let all := (map_to_list next).*2 in
  let forward := existsb nForwardIdentity all in
  let names : gset string := list_to_set (all ≫= nServices) in
  if negb forward || Nat.leb (size names) netidBoundSvcMax then None
  else Some (if nForwardIdentity nm then "forward_identity" else "services")%string.

Definition BindingAdd (env : ifEnv) (pm : option NetIdentityMod) (h : NetIdentityH) : option netidErr * list netidView * NetIdentityH :=
  match netidNormalize pm with
  | inr f => (Some (NetIdentityArgErr f), [], h)
  | inl nm =>
      if bool_decide (hBindings h !! nName nm = None) && (netidMaxBindings <=? size (hBindings h))%nat then (Some (NetIdentityArgErr ""), [], h)
      else match netidConflict (hBindings h) nm with
           | Some other => (Some (NetIdentityConflictErr other), [], h)
           | None =>
               let next := <[nName nm := nm]> (hBindings h) in
               match netidFwdRoomErr next nm with
               | Some f => (Some (NetIdentityArgErr f), [], h)
               | None => let '(t, h') := commit env next h in (None, t, h')
               end
           end
  end.

Definition BindingDel (env : ifEnv) (name : string) (h : NetIdentityH) : option netidErr * list netidView * NetIdentityH :=
  match hBindings h !! name with
  | None => (Some NetIdentityNoExistErr, [], h)
  | Some _ => let '(t, h') := commit env (delete name (hBindings h)) h in (None, t, h')
  end.

Definition modName (a b : NetIdentityMod) : Prop := String.le (nName a) (nName b).
#[export] Instance modName_dec : RelDecision modName.
Proof. unfold modName. intros a b. apply _. Defined.

Definition BindingGet (h : NetIdentityH) : list NetIdentityMod := merge_sort modName (map_to_list (hBindings h)).*2.

(** An interface behind a binding appeared, went or moved. *)
Definition moved (h : NetIdentityH) (now : gmap string Z) : bool :=
  existsb (fun p => default 0 (hIfSeen h !! p.1) !=? p.2) (map_to_list now).

Definition refresh (env : ifEnv) (h : NetIdentityH) : bool * list netidView * NetIdentityH :=
  let '(_, now) := buildNetidSnapshotIf env (hBindings h) in
  if negb (moved h now) then (false, [], h)
  else let '(t, h') := commit env (hBindings h) h in (true, t, h').

(** One round of the refresher after a port event or a period; it reads the
    mirrored switch. *)
Definition refresher (env : ifEnv) (h : NetIdentityH) : list netidView * NetIdentityH :=
  if hIfMatch h then let '(_, t, h') := refresh env h in (t, h') else ([], h).

(** The first binding in name order that a kernel-carried rule could not honour. *)
Definition sockMapBlocker (svc : string) (h : NetIdentityH) : option (string * string) :=
  head (omap (fun name =>
    match hBindings h !! name with
    | None => None
    | Some b =>
        if negb (nForwardIdentity b) && negb (nCredential b ==s NetIdentityCredentialNetwork) then None
        else if bool_decide (svc ∈ nServices b)
             then Some (name, if nForwardIdentity b then "forward_identity" else "credential: network")%string
             else None
    end) (namesOf (hBindings h))).

(** ** The gate's resolver *)

Record netidAnswer := NidAnswer {
  matched : bool;
  strict : bool;
  credNetwork : bool;
  aModelOK : bool;
  aForward : bool;
  aTenant : string;
  aBinding : string
}.

Definition noAnswer : netidAnswer := NidAnswer false false false false false "" "".

Section Gate.
(** The IPv4 address in an IPv4-mapped IPv6 spelling. *)
Context (mapped4 : string -> option Z).

Definition clientAddr (clientIP : string) : option Z :=
  match ParseAddr4 clientIP with Some a => Some a | None => mapped4 clientIP end.

(** [None] is the rc of -1. *)
Definition netidAnswerFor (h : option NetIdentityH) (clientIP : string) (ifindex : Z) (svc model : string) : option netidAnswer :=
  match h with
  | None => None
  | Some h =>
      match hSnap h with
      | None => None
      | Some s =>
          match resolve s (clientAddr clientIP) ifindex svc with
          | None => Some noAnswer
          | Some b => Some (NidAnswer true (bStrict b) (bCredNetwork b) (modelOK b model) (bForward b) (bTenant b) (bName b))
          end
      end
  end.

Record ai_gw_netid_t := GwNetid {
  gMatched : Z;
  gEnforce : Z;
  gCredentialNetwork : Z;
  gModelOK : Z;
  gForwardIdentity : Z;
  gTenant : string;
  gBinding : string
}.

Definition b2z (b : bool) : Z := if b then 1 else 0.

(** The return code and what is left in the zeroed result. *)
Definition llb_ai_netid_resolve (h : option NetIdentityH) (clientIP : string) (ifindex : Z) (svc model : string) : Z * ai_gw_netid_t :=
  let zero := GwNetid 0 0 0 0 0 "" "" in
  match netidAnswerFor h clientIP ifindex svc model with
  | None => (-1, zero)
  | Some ans =>
      if negb (matched ans) then (0, zero)
      else (0, GwNetid 1 (b2z (strict ans)) (b2z (credNetwork ans)) (b2z (aModelOK ans)) (b2z (aForward ans))
                 (cCopyStr "" (aTenant ans) 128) (cCopyStr "" (aBinding ans) 64))
  end.
End Gate.

Definition netidClassOf (h : option NetIdentityH) (name : string) : string :=
  match h with
  | None => ""
  | Some h => if name ==s "" then "" else match hSnap h with None => "" | Some s => default ""%string (classOf s !! name) end
  end.

Definition netidLowersClass (h : option NetIdentityH) : bool :=
  match h with Some h => match hSnap h with Some s => lowers s | None => false end | None => false end.

(** ** Rules the kernel carries *)

(** A rule as these checks see it: is it an AI-gateway service, does the kernel
    carry its requests, its service identity. *)
Record lbRule := LbRule { rAiGw : bool; rReqDir : bool; rSvc : string }.

(** The service of the refusal: the first in order among those hit. *)
Definition netidSockMapErr (rules : list lbRule) (opm : option NetIdentityMod) : option (string * string) :=
  match opm with
  | None => None
  | Some pm =>
      let cred := ToLower (TrimSpace (nCredential pm)) ==s NetIdentityCredentialNetwork in
      if negb cred && negb (nForwardIdentity pm) then None
      else match mapM netidService (nServices pm) with
           | None => None
           | Some want =>
               let hits := List.filter (fun r => negb (rAiGw r) && rReqDir r && negb (rSvc r ==s "") && bool_decide (rSvc r ∈ want)) rules in
               match sortStrings (map rSvc hits) with
               | [] => None
               | hit :: _ => Some (if cred then "credential" else "forward_identity", hit)%string
               end
           end
  end.

Definition netidRuleSockMapErr (h : option NetIdentityH) (svc : string) (aiGw reqDir : bool) : option (string * string) :=
  match h with
  | None => None
  | Some h => if (svc ==s "") || aiGw || negb reqDir then None else sockMapBlocker svc h
  end.

Definition netidAddUnderConfig (env : ifEnv) (rules : option (list lbRule)) (pm : option NetIdentityMod) (h : NetIdentityH)
    : option netidErr * list netidView * NetIdentityH :=
  match (match rules with Some rs => netidSockMapErr rs pm | None => None end) with
  | Some (field, _) => (Some (NetIdentityArgErr field), [], h)
  | None => BindingAdd env pm h
  end.
