(* ===== verification/NetIdTextProps.v ===== *)
(** * NetIdTextProps: spellings round-trip and the normal form is stable *)

From Stdlib Require Import Ascii String DecimalString DecimalN.
From S2P Require Import Prelude StoreErr RateLimit RateSync Objective Common Admission Gateway Identity Classes ClassProps NetIdText NetId.

Open Scope Z_scope.
Open Scope igw_scope.

(** ** Digits *)

(** A check of every value below a bound settles it. *)
Lemma below_check (P : Z -> bool) (n : nat) : forallb (fun i => P (Z.of_nat i)) (seq 0 n) = true -> forall z, 0 <= z < Z.of_nat n -> P z = true.
Proof.
  rewrite forallb_forall. intros H z Hz. replace z with (Z.of_nat (Z.to_nat z)) by lia. apply H, in_seq. lia.
Qed.

Definition plainText (s : string) : bool := allBytes (fun c => byteBetween "0" "9" c) s.

Lemma plain_not c s : plainText s = true -> byteBetween "0" "9" c = false -> ContainsByte c s = false.
Proof. intros H Hc. by eapply allBytes_NotContains. Qed.

Definition reads (parse : string -> option Z) (z : Z) : bool :=
  match parse (fmtD z) with Some w => w ==? z | None => false end && plainText (fmtD z).

Lemma reads_all (parse : string -> option Z) (n : nat) : forallb (fun i => reads parse (Z.of_nat i)) (seq 0 n) = true ->
  forall z, 0 <= z < Z.of_nat n -> parse (fmtD z) = Some z /\ plainText (fmtD z) = true.
Proof.
  intros H z Hz. apply (below_check (reads parse) n H) in Hz. unfold reads in Hz. apply andb_true_iff in Hz as [Hz ?]. split; [|done].
  destruct (parse (fmtD z)); [|done]. by apply Z.eqb_eq in Hz as ->.
Qed.

Lemma octet_digits n : 0 <= n < 256 -> parseOctet (fmtD n) = Some n /\ plainText (fmtD n) = true.
Proof. apply (reads_all parseOctet 256). vm_compute. reflexivity. Qed.

Lemma bits_digits n : 0 <= n <= 32 -> parseBits (fmtD n) = Some n /\ plainText (fmtD n) = true.
Proof. intros Hn. apply (reads_all parseBits 33); [vm_compute; reflexivity|lia]. Qed.

(** The value of the digits after [acc]. *)
Fixpoint digitsVal (acc : Z) (u : Decimal.uint) : Z :=
  match u with
  | Decimal.Nil => acc
  | Decimal.D0 u => digitsVal (acc * 10 + 0) u
  | Decimal.D1 u => digitsVal (acc * 10 + 1) u
  | Decimal.D2 u => digitsVal (acc * 10 + 2) u
  | Decimal.D3 u => digitsVal (acc * 10 + 3) u
  | Decimal.D4 u => digitsVal (acc * 10 + 4) u
  | Decimal.D5 u => digitsVal (acc * 10 + 5) u
  | Decimal.D6 u => digitsVal (acc * 10 + 6) u
  | Decimal.D7 u => digitsVal (acc * 10 + 7) u
  | Decimal.D8 u => digitsVal (acc * 10 + 8) u
  | Decimal.D9 u => digitsVal (acc * 10 + 9) u
  end.

Lemma digitsVal_pos u p : digitsVal (Z.pos p) u = Z.pos (Pos.of_uint_acc u p).
Proof. revert p. induction u as [|u IH|u IH|u IH|u IH|u IH|u IH|u IH|u IH|u IH|u IH]; intros p; cbn [digitsVal Pos.of_uint_acc]; [done|..]; rewrite <- IH; f_equal; lia. Qed.

Lemma digitsVal_N u : digitsVal 0 u = Z.of_N (N.of_uint u).
Proof. induction u as [|u IH|u IH|u IH|u IH|u IH|u IH|u IH|u IH|u IH|u IH]; [done|exact IH|..]; exact (digitsVal_pos u _). Qed.

Lemma parse_uint u acc : parse_digits acc (DecimalString.NilEmpty.string_of_uint u) = Some (digitsVal acc u).
Proof. revert acc. induction u as [|u IH|u IH|u IH|u IH|u IH|u IH|u IH|u IH|u IH|u IH]; intros acc; [done|..]; exact (IH _). Qed.

Lemma plain_uint u : plainText (DecimalString.NilEmpty.string_of_uint u) = true.
Proof. induction u as [|u IH|u IH|u IH|u IH|u IH|u IH|u IH|u IH|u IH|u IH]; [done|..]; exact IH. Qed.

Lemma fmtD_digits n : 0 <= n -> parse_digits 0 (fmtD n) = Some n /\ plainText (fmtD n) = true /\ fmtD n <> EmptyString.
Proof.
  intros Hn. unfold fmtD. pose proof (DecimalN.Unsigned.of_to (Z.to_N n)) as Hof. destruct (N.to_uint (Z.to_N n)) as [|u|u|u|u|u|u|u|u|u|u] eqn:E;
    [cbn in Hof; replace n with 0 by lia; split; [done|]; split; done|..];
    (split; [etransitivity; [apply parse_uint|]; rewrite digitsVal_N, Hof; f_equal; lia|]; split; [apply plain_uint|done]).
Qed.

Lemma port_digits n : 0 <= n < 65536 -> ParseUint16 (fmtD n) = Some n /\ plainText (fmtD n) = true.
Proof.
  intros Hn. destruct (fmtD_digits n ltac:(lia)) as (E & P & Hne). split; [|done]. unfold ParseUint16, ParseUint. destruct (fmtD n) as [|c r]; [done|].
  rewrite E. unfold two64. destruct (Z.ltb_spec n 18446744073709551616); [|lia]. by destruct (Z.ltb_spec n 65536); [|lia].
Qed.

Lemma parse_digits_nonneg s acc v : 0 <= acc -> parse_digits acc s = Some v -> 0 <= v.
Proof.
  revert acc. induction s as [|a s IH]; intros acc Ha; cbn [parse_digits]; [by intros [= <-]|].
  unfold digit_of. destruct (_ && _) eqn:E; [|done]. apply andb_true_iff in E as [E%Z.leb_le _]. apply IH. lia.
Qed.

Lemma parseOctet_range s v : parseOctet s = Some v -> 0 <= v <= 255.
Proof.
  assert (forall o, match o with Some v => if v <=? 255 then Some v else None | None => None end = Some v -> (forall w, o = Some w -> 0 <= w) -> 0 <= v <= 255) as H.
  { intros [w|]; [|done]. destruct (Z.leb_spec w 255); [|done]. intros [= <-] Hw. specialize (Hw w eq_refl). lia. }
  unfold parseOctet. intros E. assert (match parse_digits 0 s with Some v => if v <=? 255 then Some v else None | None => None end = Some v) as E'.
  { destruct s as [|[[] [] [] [] [] [] [] []] [|]]; done. }
  apply (H _ E'). intros w Hw. by eapply parse_digits_nonneg.
Qed.

(** ** Addresses and prefixes *)

Lemma ParseAddr4_range s a : ParseAddr4 s = Some a -> 0 <= a < two32w.
Proof.
  unfold ParseAddr4, two32w. destruct (SplitByte dot s) as [|w [|x [|y [|z []]]]]; try done.
  destruct (parseOctet w) as [o1|] eqn:E1; [|done]. destruct (parseOctet x) as [o2|] eqn:E2; [|done].
  destruct (parseOctet y) as [o3|] eqn:E3; [|done]. destruct (parseOctet z) as [o4|] eqn:E4; [|done].
  intros [= <-]. apply parseOctet_range in E1, E2, E3, E4. lia.
Qed.

Lemma addr_roundtrip a : 0 <= a < two32w -> ParseAddr4 (showAddr4 a) = Some a.
Proof.
  unfold two32w. intros Ha. unfold ParseAddr4, showAddr4.
  pose proof (Z.div_mod a 16777216 ltac:(lia)). pose proof (Z.mod_pos_bound a 16777216 ltac:(lia)).
  assert (0 <= a / 16777216 < 256) as H1 by (split; [apply Z.div_pos; lia|apply Z.div_lt_upper_bound; lia]).
  pose proof (Z.mod_pos_bound (a / 65536) 256 ltac:(lia)) as H2. pose proof (Z.mod_pos_bound (a / 256) 256 ltac:(lia)) as H3. pose proof (Z.mod_pos_bound a 256 ltac:(lia)) as H4.
  destruct (octet_digits _ H1) as [E1 P1], (octet_digits _ H2) as [E2 P2], (octet_digits _ H3) as [E3 P3], (octet_digits _ H4) as [E4 P4].
  rewrite !SplitByte_cons by (eapply plain_not; [done|reflexivity]). rewrite SplitByte_plain by (eapply plain_not; [done|reflexivity]).
  rewrite E1, E2, E3, E4. f_equal.
  pose proof (Z.div_mod a 256 ltac:(lia)). pose proof (Z.div_mod (a / 256) 256 ltac:(lia)). pose proof (Z.div_mod (a / 65536) 256 ltac:(lia)).
  assert (a / 256 / 256 = a / 65536) as D1 by (rewrite Z.div_div; [reflexivity|lia..]).
  assert (a / 65536 / 256 = a / 16777216) as D2 by (rewrite Z.div_div; [reflexivity|lia..]). lia.
Qed.

Definition wfNet (p : Prefix) : Prop := 0 <= pfxAddr p < two32w /\ 0 <= pfxBits p <= 32 /\ p = Masked p.

Lemma CutLast_app c s t : ContainsByte c t = false -> CutLast c (s +:+ String c t) = Some (s, t).
Proof.
  intros Ht. assert (CutLast c t = None) as E.
  { induction t as [|a t IH]; [done|]. cbn in *. apply orb_false_iff in Ht as [Ha Ht]. by rewrite IH, Ha. }
  induction s as [|a s IH].
  - change ("" +:+ String c t) with (String c t). cbn [CutLast]. by rewrite E, Ascii.eqb_refl.
  - change (String a s +:+ String c t) with (String a (s +:+ String c t)). cbn [CutLast]. by rewrite IH.
Qed.

Lemma CutLast_Some c s l r : CutLast c s = Some (l, r) -> s = l +:+ String c r.
Proof.
  revert l r. induction s as [|a s IH]; intros l r; cbn; [done|]. destruct (CutLast c s) as [[l' r']|].
  - intros [= <- <-]. by rewrite (IH l' r' eq_refl).
  - destruct (Ascii.eqb_spec a c) as [->|]; [|done]. by intros [= <- <-].
Qed.

Lemma ParsePrefix4_range s p : ParsePrefix4 s = Some p -> 0 <= pfxAddr p < two32w /\ 0 <= pfxBits p <= 32.
Proof.
  unfold ParsePrefix4. destruct (CutLast slash s) as [[a b]|]; [|done]. destruct (ParseAddr4 a) as [ip|] eqn:Ea; [|done].
  destruct (parseBits b) as [bits|]; [|done]. destruct (_ || _) eqn:E; [done|]. apply orb_false_iff in E as [E1%Z.ltb_ge E2%Z.ltb_ge].
  intros [= <-]. cbn. split; [by eapply ParseAddr4_range|lia].
Qed.

Lemma prefix_roundtrip p : 0 <= pfxAddr p < two32w -> 0 <= pfxBits p <= 32 -> ParsePrefix4 (showPrefix p) = Some p.
Proof.
  intros Ha Hb. destruct (bits_digits _ Hb) as [Eb Pb]. unfold ParsePrefix4, showPrefix. rewrite CutLast_app by (eapply plain_not; [done|reflexivity]).
  rewrite addr_roundtrip, Eb by done. destruct (Z.ltb_spec (pfxBits p) 0); [lia|]. destruct (Z.ltb_spec 32 (pfxBits p)); [lia|]. by destruct p.
Qed.

(** ** Trimming *)

Definition noSpace (s : string) : bool := allBytes (fun c => negb (isSpace c)) s.

Lemma allBytes_app f s t : allBytes f (s +:+ t) = allBytes f s && allBytes f t.
Proof. induction s as [|a s IH]; simpl; [done|]. by rewrite IH, andb_assoc. Qed.

Lemma allBytes_impl f g s : (forall c, f c = true -> g c = true) -> allBytes f s = true -> allBytes g s = true.
Proof. intros H. induction s as [|a s IH]; cbn; [done|]. intros [H1 H2]%andb_true_iff. by rewrite (H _ H1), IH. Qed.

Lemma trim_noSpace s : noSpace s = true -> TrimSpace s = s.
Proof.
  intros H. unfold TrimSpace. assert (trimLeft s = s) as ->. { destruct s as [|a s]; [done|]. cbn in *. apply andb_true_iff in H as [H _]. by destruct (isSpace a). }
  induction s as [|a s IH]; [done|]. cbn in *. apply andb_true_iff in H as [Ha H]. rewrite IH by done. destruct s; [|done]. by destruct (isSpace a).
Qed.

Lemma digit_notSpace c : byteBetween "0" "9" c = true -> negb (isSpace c) = true.
Proof. destruct c as [[] [] [] [] [] [] [] []]; vm_compute; done. Qed.

Lemma plain_noSpace s : plainText s = true -> noSpace s = true.
Proof. apply allBytes_impl, digit_notSpace. Qed.

(** The bytes of an address. *)
Definition addrText (s : string) : bool := allBytes (fun c => byteBetween "0" "9" c || Ascii.eqb c dot) s.

Lemma showAddr4_text a : 0 <= a < two32w -> addrText (showAddr4 a) = true.
Proof.
  unfold two32w. intros Ha. unfold showAddr4, addrText.
  assert (0 <= a / 16777216 < 256) as H1 by (split; [apply Z.div_pos; lia|apply Z.div_lt_upper_bound; lia]).
  pose proof (Z.mod_pos_bound (a / 65536) 256 ltac:(lia)) as H2. pose proof (Z.mod_pos_bound (a / 256) 256 ltac:(lia)) as H3. pose proof (Z.mod_pos_bound a 256 ltac:(lia)) as H4.
  assert (forall n, 0 <= n < 256 -> allBytes (fun c => byteBetween "0" "9" c || Ascii.eqb c dot) (fmtD n) = true) as Hd.
  { intros n Hn. destruct (octet_digits n Hn) as [_ P]. revert P. apply allBytes_impl. intros c ->. done. }
  rewrite !allBytes_app. cbn [allBytes]. rewrite !allBytes_app. cbn [allBytes]. rewrite !allBytes_app. cbn [allBytes]. rewrite !Hd by done. reflexivity.
Qed.

Lemma addr_noSpace s : addrText s = true -> noSpace s = true.
Proof. apply allBytes_impl. intros [[] [] [] [] [] [] [] []]; vm_compute; done. Qed.

Lemma showPrefix_noSpace p : 0 <= pfxAddr p < two32w -> 0 <= pfxBits p <= 32 -> noSpace (showPrefix p) = true.
Proof.
  intros Ha Hb. unfold showPrefix, noSpace. rewrite allBytes_app. cbn [allBytes]. apply andb_true_iff. split; [by apply addr_noSpace, showAddr4_text|].
  apply andb_true_iff. split; [reflexivity|]. apply plain_noSpace, bits_digits. lia.
Qed.

(** ** Services *)

Lemma notBracket {A} (s : string) (f : string -> A) (b : A) : ContainsByte "[" s = false -> match s with String "[" rest => f rest | _ => b end = b.
Proof. destruct s as [|[[] [] [] [] [] [] [] []] r]; intros H; try reflexivity. discriminate H. Qed.

Lemma split_plain h p : ContainsByte colon h = false -> ContainsByte colon p = false ->
  ContainsByte "[" (h +:+ String colon p) = false -> ContainsByte "]" (h +:+ String colon p) = false -> SplitHostPort (h +:+ String colon p) = Some (h, p).
Proof.
  intros Hh Hp H1 H2. unfold SplitHostPort. rewrite CutLast_app by done. rewrite notBracket by done. by rewrite Hh, H1, H2.
Qed.

Lemma service_fixed s svc : netidService s = Some svc -> netidService svc = Some svc.
Proof.
  unfold netidService at 1. destruct (SplitHostPort (TrimSpace s)) as [[host port]|]; [|done].
  destruct (ParseAddr4 host) as [a|] eqn:Ea; [|done]. destruct (ParseUint16 port) as [p|] eqn:Ep; [|done].
  destruct (Z.eqb_spec p 0); [done|]. intros [= <-]. apply ParseAddr4_range in Ea.
  assert (0 <= p < 65536) as Hp.
  { unfold ParseUint16, ParseUint in Ep. destruct port as [|c r]; [done|]. destruct (parse_digits 0 (String c r)) as [v|] eqn:Ev; [|done].
    destruct (v <? two64); [|done]. destruct (Z.ltb_spec v 65536); [|done]. injection Ep as <-. apply parse_digits_nonneg in Ev; lia. }
  destruct (port_digits p Hp) as [Eport Pport]. pose proof (showAddr4_text a Ea) as Ta.
  assert (forall c, byteBetween "0" "9" c || Ascii.eqb c dot = false -> ContainsByte c (showAddr4 a) = false) as Hna by (intros; by eapply allBytes_NotContains).
  assert (forall c, Ascii.eqb colon c = false -> byteBetween "0" "9" c || Ascii.eqb c dot = false -> ContainsByte c (showAddr4 a +:+ String colon (fmtD p)) = false) as Hn.
  { intros c Hc Hd. rewrite ContainsByte_app, Hna by done. cbn [ContainsByte orb]. rewrite Hc. apply orb_false_iff in Hd as [Hd _]. exact (plain_not c _ Pport Hd). }
  unfold netidService. rewrite trim_noSpace.
  - rewrite split_plain; [|by apply Hna|eapply plain_not; [exact Pport|reflexivity]|by apply Hn|by apply Hn]. rewrite addr_roundtrip, Eport by done. by destruct (Z.eqb_spec p 0).
  - unfold noSpace. rewrite allBytes_app. cbn [allBytes]. apply andb_true_iff. split; [by apply addr_noSpace|]. apply andb_true_iff. split; [reflexivity|by apply plain_noSpace].
Qed.

Lemma normServices_eq seen l : normServices seen l = mapM netidService l ≫= dedupLoop (fun _ => true) seen.
Proof.
  revert seen. induction l as [|s l IH]; intros seen; cbn [normServices mapM]; [done|]. destruct (netidService s) as [svc|]; cbn; [|done]. rewrite !IH.
  destruct (mapM netidService l); cbn; [by destruct (decide (svc ∈ seen))|by destruct (decide (svc ∈ seen))].
Qed.

Lemma mapM_fixed l : Forall (fun s => netidService s = Some s) l -> mapM netidService l = Some l.
Proof. induction 1 as [|s l Hs _ IH]; [done|]. cbn. by rewrite Hs, IH. Qed.

(** The stored services. *)
Definition servicesOk (l : list string) : Prop :=
  NoDup l /\ Sorted String.le l /\ Forall (fun s => netidService s = Some s) l /\ (length l <= netidMaxServices)%nat.

Lemma services_normal l out : normServices ∅ l = Some out -> (length l <= netidMaxServices)%nat -> servicesOk (sortStrings out).
Proof.
  rewrite normServices_eq. intros H Hl. destruct (mapM netidService l) as [l'|] eqn:El; cbn in H; [|done].
  destruct (canonical_spec (fun _ => true) l' out H) as (H1 & _ & H3 & H4 & H5 & _). cbv zeta in *.
  split; [done|]. split; [done|]. apply mapM_Some in El. split.
  - rewrite Forall_forall. intros s Hs. apply H4 in Hs. apply list_elem_of_lookup in Hs as [i Hi]. destruct (Forall2_lookup_r _ _ _ _ _ El Hi) as (x & _ & Hx). by eapply service_fixed.
  - apply Forall2_length in El. lia.
Qed.

Lemma services_stable l : servicesOk l -> sortStrings <$> normServices ∅ l = Some l.
Proof.
  intros (H1 & H2 & H3 & _). rewrite normServices_eq, mapM_fixed by done. cbn. rewrite dedupLoop_id; [|done|by apply Forall_forall|set_solver]. cbn. f_equal.
  apply (Sorted_unique String.le); [apply (Sorted_merge_sort _)|done|apply merge_sort_Permutation].
Qed.

(** ** Networks *)

Lemma CIDRs_normal seen l out : normCIDRs seen l = Some out ->
  exists ps, out = map showPrefix ps /\ Forall wfNet ps /\ NoDup ps /\ (forall p, p ∈ ps -> p ∉ seen) /\ (length out <= length l)%nat.
Proof.
  revert seen out. induction l as [|c l IH]; intros seen out; cbn [normCIDRs].
  { intros [= <-]. exists []. split; [done|]. split; [constructor|]. split; [constructor|]. split; [set_solver|done]. }
  destruct (ParsePrefix4 (TrimSpace c)) as [p|] eqn:Ep; [|done]. destruct (bool_decide_reflect (p = Masked p)) as [Hm|]; cbn [negb]; [|done].
  destruct (bool_decide_reflect (p ∈ seen)) as [Hs|Hs].
  - intros (ps & -> & H1 & H2 & H3 & H4)%IH. exists ps. cbn. repeat (split; [done|]). lia.
  - intros (out' & Ho & ->)%fmap_Some. apply IH in Ho as (ps & -> & H1 & H2 & H3 & H4). exists (p :: ps). apply ParsePrefix4_range in Ep as [? ?].
    split; [done|]. split; [constructor; [split; [done|split; done]|done]|]. split; [constructor; [intros Hin; apply H3 in Hin; set_solver|done]|]. split; [set_solver|]. cbn. lia.
Qed.

Lemma CIDRs_stable seen ps : Forall wfNet ps -> NoDup ps -> (forall p, p ∈ ps -> p ∉ seen) -> normCIDRs seen (map showPrefix ps) = Some (map showPrefix ps).
Proof.
  intros Hw Hnd. revert seen. induction Hnd as [|p ps Hp Hnd IH]; intros seen Hs; [done|]. inversion_clear Hw as [|? ? [Ha [Hb Hm]] Hw'].
  cbn [map normCIDRs]. rewrite trim_noSpace by by apply showPrefix_noSpace. rewrite prefix_roundtrip by done. rewrite bool_decide_true by done. cbn [negb].
  rewrite bool_decide_false by (apply Hs; set_solver). rewrite IH; [done|done|set_solver].
Qed.

(** ** The normal form *)

Inductive matchOk : NetIdentityMatch -> Prop :=
  | MatchIf n : n <> ""%string -> (String.length n <= netidIfNameMax)%nat -> allBytes (fun c => negb (ifNameBadByte c)) n = true -> netidHasControl n = false ->
      matchOk (NidMatch [] n 0 0 "")
  | MatchVlan v : 1 <= v <= NetIdentityVlanMax -> matchOk (NidMatch [] "" v 0 "")
  | MatchVni v : 1 <= v <= NetIdentityVniMax -> matchOk (NidMatch [] "" 0 v "")
  | MatchTunnel t : netidNameOK t = true -> matchOk (NidMatch [] "" 0 0 t)
  | MatchCIDR ps : ps <> [] -> Forall wfNet ps -> NoDup ps -> (length ps <= netidMaxCIDRs)%nat -> matchOk (NidMatch (map showPrefix ps) "" 0 0 "").

Lemma CIDRs_nonempty l out : l <> [] -> normCIDRs [] l = Some out -> out <> [].
Proof.
  destruct l as [|c l]; [done|]. intros _. cbn [normCIDRs]. destruct (ParsePrefix4 _) as [p|]; [|done]. destruct (bool_decide (p = _)); cbn [negb]; [|done].
  rewrite bool_decide_false by set_solver. by intros (o & _ & ->)%fmap_Some.
Qed.

Lemma match_normal m m' : normMatch m = inl m' -> matchOk m'.
Proof.
  unfold normMatch. set (ifName := TrimSpace (IngressIf m)). set (tunnel := TrimSpace (IPsecTunnel m)). cbv zeta.
  destruct (Nat.eqb (length (List.filter id _)) 0) eqn:Eg; [done|]. destruct (1 <? _)%nat; [done|].
  destruct (String.eqb_spec ifName "") as [Ei|Ei]; cbn [negb].
  2:{ destruct (_ || _ || _) eqn:E; [done|]. intros [= <-]. apply orb_false_iff in E as [[E1%Nat.ltb_ge E2%negb_false_iff]%orb_false_iff E3]. by constructor. }
  destruct (Z.eqb_spec (Vlan m) 0) as [Ev|]; cbn [negb].
  2:{ destruct (_ || _) eqn:E; [done|]. intros [= <-]. apply orb_false_iff in E as [E1%Z.ltb_ge E2%Z.ltb_ge]. constructor. lia. }
  destruct (Z.eqb_spec (Vni m) 0) as [Ew|]; cbn [negb].
  2:{ destruct (_ || _) eqn:E; [done|]. intros [= <-]. apply orb_false_iff in E as [E1%Z.ltb_ge E2%Z.ltb_ge]. constructor. lia. }
  destruct (String.eqb_spec tunnel "") as [Et|Et]; cbn [negb].
  2:{ destruct (netidNameOK tunnel) eqn:E; cbn [negb]; [|done]. intros [= <-]. by constructor. }
  destruct (Nat.ltb_spec netidMaxCIDRs (length (CIDR m))); [done|]. destruct (normCIDRs [] (CIDR m)) as [out|] eqn:Eo; [|done]. intros [= <-].
  pose proof (CIDRs_normal _ _ _ Eo) as (ps & -> & H1 & H2 & _ & H4). rewrite length_map in H4. constructor; [|done|done|lia].
  intros ->. eapply CIDRs_nonempty; [|exact Eo|done]. intros E. rewrite E in Eg. done.
Qed.

Lemma byte_cases (P : ascii -> bool) : forallb (fun i => P (ascii_of_nat i)) (seq 0 256) = true -> forall c, P c = true.
Proof.
  rewrite forallb_forall. intros H c. rewrite <- (ascii_nat_embedding c). apply H, in_seq. pose proof (nat_ascii_bounded c). lia.
Qed.

Lemma nameOK_noSpace s : netidNameOK s = true -> noSpace s = true /\ s <> ""%string.
Proof.
  destruct s as [|c r]; [done|]. unfold netidNameOK. intros [[_ Hc]%andb_true_iff Hr]%andb_true_iff. split; [|done]. cbn. apply andb_true_iff. split.
  - pose proof (byte_cases (fun c => implb (alnumByte c) (negb (isSpace c))) ltac:(vm_compute; reflexivity) c) as H. cbn beta in H. by rewrite Hc in H.
  - revert Hr. apply allBytes_impl. intros d Hd.
    pose proof (byte_cases (fun c => implb (alnumByte c || Ascii.eqb c "-" || Ascii.eqb c "_" || Ascii.eqb c ".") (negb (isSpace c))) ltac:(vm_compute; reflexivity) d) as H. cbn beta in H. by rewrite Hd in H.
Qed.

Lemma ifName_noSpace s : allBytes (fun c => negb (ifNameBadByte c)) s = true -> netidHasControl s = false -> noSpace s = true.
Proof.
  unfold netidHasControl. intros H1 H2%negb_false_iff. induction s as [|c s IH]; [done|]. cbn in *. apply andb_true_iff in H1 as [Ha H1], H2 as [Hb H2].
  apply andb_true_iff. split; [|by apply IH].
  pose proof (byte_cases (fun c => implb (negb (ifNameBadByte c)) (implb (negb (controlByte c)) (negb (isSpace c)))) ltac:(vm_compute; reflexivity) c) as H. cbn beta in H. by rewrite Ha, Hb in H.
Qed.

Lemma match_stable m : matchOk m -> normMatch m = inl m.
Proof.
  intros H. unfold normMatch. destruct H as [n Hn Hl Hb Hc|v Hv|v Hv|t Ht|ps Hne Hw Hnd Hl]; cbn [CIDR IngressIf Vlan Vni IPsecTunnel].
  - rewrite (trim_noSpace n) by by apply ifName_noSpace. rewrite (trim_noSpace "") by done. cbv zeta. destruct (String.eqb_spec n ""); [done|].
    assert ((netidIfNameMax <? String.length n)%nat = false) as -> by by apply Nat.ltb_ge. rewrite Hb, Hc. reflexivity.
  - rewrite (trim_noSpace "") by done. cbv zeta. destruct (Z.eqb_spec v 0); [lia|]. destruct (Z.ltb_spec v 1); [lia|]. destruct (Z.ltb_spec NetIdentityVlanMax v); [lia|]. reflexivity.
  - rewrite (trim_noSpace "") by done. cbv zeta. destruct (Z.eqb_spec v 0); [lia|]. destruct (Z.ltb_spec v 1); [lia|]. destruct (Z.ltb_spec NetIdentityVniMax v); [lia|]. reflexivity.
  - destruct (nameOK_noSpace t Ht) as [Hs Hne]. rewrite (trim_noSpace t), (trim_noSpace "") by done. cbv zeta. destruct (String.eqb_spec t ""); [done|]. rewrite Ht. reflexivity.
  - rewrite (trim_noSpace "") by done. cbv zeta. rewrite CIDRs_stable by (done || set_solver). rewrite length_map.
    assert ((netidMaxCIDRs <? length ps)%nat = false) as -> by by apply Nat.ltb_ge. by destruct ps.
Qed.

(** What a stored binding looks like. *)
Record storedOk (nm : NetIdentityMod) : Prop := {
  so_name : netidNameOK (nName nm) = true;
  so_match : matchOk (nMatch nm);
  so_tenant : nTenant nm <> ""%string /\ (String.length (nTenant nm) <= netidTenantMax)%nat /\ netidHasControl (nTenant nm) = false /\ ValidateQoSIdentity (nTenant nm) = true;
  so_enforce : nEnforce nm ∈ [NetIdentityEnforceAdvisory; NetIdentityEnforceStrict];
  so_credential : nCredential nm ∈ [NetIdentityCredentialNone; NetIdentityCredentialNetwork];
  so_class : nPriorityClass nm ∈ [NetIdentityClassStandard; NetIdentityClassCritical; NetIdentityClassSheddable];
  so_fail : nFailMode nm ∈ [NetIdentityFailNeutral; NetIdentityFailClosed];
  so_network : nCredential nm = NetIdentityCredentialNetwork -> OnInterface (nMatch nm) = true;
  so_services : servicesOk (nServices nm);
  so_forward : nForwardIdentity nm = true -> nServices nm <> [];
  so_models : NoDup (nAllowedModels nm) /\ Forall (fun m => modelOKText m = true) (nAllowedModels nm) /\ (length (nAllowedModels nm) <= netidMaxModels)%nat
}.

Lemma enum_in v allowed e : allowed <> [] -> netidEnum v allowed = Some e -> e ∈ allowed.
Proof.
  intros Ha. unfold netidEnum. cbv zeta. destruct (_ ==s ""); [destruct allowed; [done|]; intros [= <-]; left|]. destruct (bool_decide_reflect (ToLower (TrimSpace v) ∈ allowed)); [|done]. by intros [= <-].
Qed.

(** The words of an enumeration are in lower case and without spaces. *)
Lemma enum_stable v allowed : v ∈ allowed -> Forall (fun w => ToLower (TrimSpace w) = w /\ w <> ""%string) allowed -> netidEnum v allowed = Some v.
Proof.
  intros Hv Hall. rewrite Forall_forall in Hall. destruct (Hall v Hv) as [E Hne]. unfold netidEnum. cbv zeta. rewrite E.
  destruct (String.eqb_spec v ""); [done|]. by rewrite bool_decide_true.
Qed.

Lemma normalize_stored opm nm : netidNormalize opm = inl nm -> storedOk nm.
Proof.
  unfold netidNormalize. destruct opm as [pm|]; [|done]. destruct (netidNameOK (nName pm)) eqn:En; cbn [negb]; [|done].
  destruct (normMatch (nMatch pm)) as [m|] eqn:Em; [|done]. apply match_normal in Em.
  destruct (_ || _ || _) eqn:Et; [done|]. apply orb_false_iff in Et as [[Et1%String.eqb_neq Et2%Nat.ltb_ge]%orb_false_iff Et3].
  destruct (ValidateQoSIdentity (nTenant pm)) eqn:Eq; cbn [negb]; [|done].
  unfold normEnums. destruct (netidEnum (nEnforce pm) _) as [e|] eqn:E1; [|done]. destruct (netidEnum (nCredential pm) _) as [c|] eqn:E2; [|done].
  destruct ((c ==s NetIdentityCredentialNetwork) && negb (OnInterface m)) eqn:Ec; [done|].
  destruct (netidEnum (nPriorityClass pm) _) as [p|] eqn:E3; [|done]. destruct (netidEnum (nFailMode pm) _) as [f|] eqn:E4; [|done].
  destruct (Nat.ltb_spec netidMaxServices (length (nServices pm))); [done|]. destruct (normServices ∅ (nServices pm)) as [svs|] eqn:Es; [|done]. cbv zeta.
  destruct (nForwardIdentity pm && _) eqn:Ef; [done|]. destruct (Nat.ltb_spec netidMaxModels (length (nAllowedModels pm))); [done|].
  destruct (dedupLoop modelOKText ∅ (nAllowedModels pm)) as [ms|] eqn:Ed; [|done]. intros [= <-].
  pose proof (dedupLoop_length _ _ _ _ Ed). apply dedupLoop_spec in Ed as (D1 & D2 & _).
  constructor; cbn; try done; try (by eapply enum_in; [|eassumption]).
  - intros ->. cbn in Ec. by destruct (OnInterface m).
  - by apply (services_normal (nServices pm)).
  - intros Hf. rewrite Hf in Ef. cbn in Ef. by destruct (sortStrings svs).
  - split; [done|]. split; [done|]. lia.
Qed.

Lemma stored_stable nm : storedOk nm -> netidNormalize (Some nm) = inl nm.
Proof.
  intros [H1 H2 (T1 & T2 & T3 & T4) E1 E2 E3 E4 H5 H6 H7 (M1 & M2 & M3)]. unfold netidNormalize. rewrite H1, (match_stable _ H2). cbn [negb].
  destruct (String.eqb_spec (nTenant nm) ""); [done|]. destruct (Nat.ltb_spec netidTenantMax (String.length (nTenant nm))); [lia|]. rewrite T3, T4. cbn [orb negb].
  unfold normEnums. rewrite (enum_stable _ _ E1), (enum_stable _ _ E2), (enum_stable _ _ E3), (enum_stable _ _ E4) by (repeat constructor; vm_compute; done).
  assert ((nCredential nm ==s NetIdentityCredentialNetwork) && negb (OnInterface (nMatch nm)) = false) as ->.
  { destruct (String.eqb_spec (nCredential nm) NetIdentityCredentialNetwork) as [E|]; [|done]. by rewrite (H5 E). }
  destruct (Nat.ltb_spec netidMaxServices (length (nServices nm))) as [Hlt|]; [destruct H6 as (_ & _ & _ & ?); lia|].
  pose proof (services_stable _ H6) as Hs. destruct (normServices ∅ (nServices nm)) as [svs|]; [|done]. injection Hs as Hs. cbv zeta. rewrite Hs.
  assert (nForwardIdentity nm && Nat.eqb (length (nServices nm)) 0 = false) as ->.
  { destruct (nForwardIdentity nm); [|done]. specialize (H7 eq_refl). by destruct (nServices nm). }
  destruct (Nat.ltb_spec netidMaxModels (length (nAllowedModels nm))); [lia|]. rewrite dedupLoop_id; [|done|done|set_solver]. by destruct nm.
Qed.

(** The normal form of a binding is stable and safe. A binding that is accepted
    is stored in a form that the same checks accept unchanged, so restoring what
    was read back stores the same binding; in it networks and services have one
    spelling each, a network credential stands only on an interface match, and
    forwarding identity always names the services it is for. *)
Theorem stored_binding_is_stable opm nm :
  netidNormalize opm = inl nm ->
  netidNormalize (Some nm) = inl nm /\
  (nCredential nm = NetIdentityCredentialNetwork -> OnInterface (nMatch nm) = true) /\
  (nForwardIdentity nm = true -> nServices nm <> []) /\
  (forall c, c ∈ CIDR (nMatch nm) -> exists p, ParsePrefix4 c = Some p /\ c = showPrefix p /\ p = Masked p) /\
  (forall s, s ∈ nServices nm -> netidService s = Some s).
Proof.
  intros H%normalize_stored. split; [by apply stored_stable|]. destruct H as [_ H2 _ _ _ _ _ H5 (_ & _ & H6 & _) H7 _]. split; [done|]. split; [done|]. split.
  - intros c Hc. destruct H2; cbn in Hc; try (by apply elem_of_nil in Hc). apply list_elem_of_fmap in Hc as (p & -> & Hp). rewrite Forall_forall in H0.
    destruct (H0 p Hp) as (Ha & Hb & Hm). exists p. split; [by apply prefix_roundtrip|done].
  - rewrite Forall_forall in H6. exact H6.
Qed.

Definition demoMod : NetIdentityMod :=
  NidMod "lab" (NidMatch [" 10.20.0.0/16 "; "10.20.0.0/16"; "10.21.0.0/24"] "" 0 0 "")%string ["192.0.2.9:0443"; "[192.0.2.9]:443"]%string "acme" []
    "Strict" "" true "" "".

Lemma stored_binding_witness : exists nm, netidNormalize (Some demoMod) = inl nm /\ netidNormalize (Some nm) = inl nm /\ CIDR (nMatch nm) = ["10.20.0.0/16"; "10.21.0.0/24"]%string /\ nServices nm = ["192.0.2.9:443"]%string.
Proof.
  destruct (netidNormalize (Some demoMod)) as [nm|] eqn:E; [|vm_compute in E; discriminate E]. exists nm. split; [reflexivity|].
  destruct (stored_binding_is_stable (Some demoMod) nm E) as (H & _). split; [exact H|]. vm_compute in E. injection E as <-. split; reflexivity.
Defined.
