(* ===== verification/NetIdProps.v ===== *)
(** * NetIdProps: the most specific binding decides, and one tenant per source *)

From Stdlib Require Import Ascii String.
From S2P Require Import Prelude StoreErr RateLimit RateSync Objective Common Admission Gateway Identity Classes ClassProps NetIdText NetId NetIdTextProps.

Open Scope Z_scope.
Open Scope igw_scope.

(** ** Tables *)

Definition cidrAt (t : netidTable) (bits k : Z) : option netidBinding := byCIDR t !! bits ≫= (fun m => m !! k).

Record tableOk (t : netidTable) : Prop := {
  to_sorted : StronglySorted Z.gt (lens t);
  to_lens : forall bits, bits ∈ lens t <-> is_Some (byCIDR t !! bits)
}.

Lemma emptyTable_ok : tableOk emptyTable.
Proof. split; [constructor|]. intros bits. cbn. rewrite lookup_empty. split; [set_solver|by intros []]. Qed.

#[local] Instance Zge_trans : Transitive Z.ge.
Proof. intros x y z. lia. Qed.
#[local] Instance Zge_total : Total Z.ge.
Proof. intros x y. lia. Qed.

Lemma sorted_ge_gt l : StronglySorted Z.ge l -> NoDup l -> StronglySorted Z.gt l.
Proof.
  induction 1 as [|x l Hs IH Hx]; intros Hnd; [constructor|]. apply NoDup_cons in Hnd as [Hn Hnd]. constructor; [by apply IH|].
  rewrite Forall_forall in *. intros y Hy. specialize (Hx y Hy). assert (y <> x) by (by intros ->). lia.
Qed.

Lemma claim_lookup {A} k (b : A) m k' : claim k b m !! k' = match m !! k' with Some x => Some x | None => if bool_decide (k = k') then Some b else None end.
Proof.
  unfold claim. destruct (m !! k) as [x|] eqn:E.
  - destruct (m !! k') eqn:E'; [done|]. rewrite bool_decide_false; [done|]. congruence.
  - destruct (decide (k = k')) as [<-|Hne]; [by rewrite lookup_insert_eq, E, bool_decide_true|]. rewrite lookup_insert_ne, bool_decide_false by done. by destruct (m !! k').
Qed.

Lemma addCIDR_ok pfx b t : tableOk t -> tableOk (addCIDR pfx b t).
Proof.
  intros [Hs Hl]. unfold addCIDR. destruct (byCIDR t !! pfxBits pfx) as [m|] eqn:E; split; cbn [lens byCIDR].
  - done.
  - intros bits. rewrite Hl. destruct (decide (bits = pfxBits pfx)) as [->|]; [rewrite lookup_insert_eq, E; split; eauto|by rewrite lookup_insert_ne].
  - apply sorted_ge_gt; [apply (StronglySorted_merge_sort _)|]. rewrite merge_sort_Permutation, NoDup_app. split.
    + clear Hl. induction Hs as [|x l Hs IH Hx]; constructor; [|done]. rewrite Forall_forall in Hx. intros Hin. specialize (Hx _ Hin). lia.
    + split; [|apply NoDup_singleton]. intros x Hx ->%list_elem_of_singleton. apply Hl in Hx as [? Hx]. congruence.
  - intros bits. rewrite merge_sort_Permutation, elem_of_app, list_elem_of_singleton, Hl. destruct (decide (bits = pfxBits pfx)) as [->|].
    + rewrite lookup_insert_eq. split; eauto.
    + rewrite lookup_insert_ne by done. naive_solver.
Qed.

Lemma addCIDR_at pfx b t bits k :
  cidrAt (addCIDR pfx b t) bits k =
  match cidrAt t bits k with Some x => Some x | None => if bool_decide (pfx = PrefixFrom k bits) then Some b else None end.
Proof.
  unfold addCIDR, cidrAt. destruct (byCIDR t !! pfxBits pfx) as [m|] eqn:E; cbn [byCIDR].
  - destruct (decide (bits = pfxBits pfx)) as [->|Hne].
    + rewrite lookup_insert_eq, E. cbn. rewrite claim_lookup. destruct (m !! k); [done|]. destruct pfx as [a n]; cbn. by repeat case_bool_decide; naive_solver.
    + rewrite lookup_insert_ne by done. destruct (byCIDR t !! bits ≫= _); [done|]. rewrite bool_decide_false; [done|]. intros ->. by apply Hne.
  - destruct (decide (bits = pfxBits pfx)) as [->|Hne].
    + rewrite lookup_insert_eq, E. destruct pfx as [a n]. cbn [mbind option_bind pfxAddr pfxBits]. destruct (decide (a = k)) as [->|]; [by rewrite lookup_singleton_eq, bool_decide_true|].
      rewrite lookup_singleton_ne, bool_decide_false by naive_solver. done.
    + rewrite lookup_insert_ne by done. destruct (byCIDR t !! bits ≫= _); [done|]. rewrite bool_decide_false; [done|]. intros ->. by apply Hne.
Qed.

(** The longest prefix that holds the address. *)
Lemma lpm_spec t ip : tableOk t ->
  match lpm t ip with
  | Some (b, bits) => cidrAt t bits (Z.land ip (netidMask bits)) = Some b /\ forall bits', is_Some (cidrAt t bits' (Z.land ip (netidMask bits'))) -> bits' <= bits
  | None => forall bits, cidrAt t bits (Z.land ip (netidMask bits)) = None
  end.
Proof.
  intros [Hs Hl]. unfold lpm.
  assert (forall ls, StronglySorted Z.gt ls -> match lpmIn t ip ls with
    | Some (b, bits) => cidrAt t bits (Z.land ip (netidMask bits)) = Some b /\ forall bits', bits' ∈ ls -> is_Some (cidrAt t bits' (Z.land ip (netidMask bits'))) -> bits' <= bits
    | None => forall bits, bits ∈ ls -> cidrAt t bits (Z.land ip (netidMask bits)) = None end) as H.
  { induction 1 as [|n ls Hsl IH Hn]; cbn [lpmIn]; [set_solver|]. rewrite Forall_forall in Hn.
    destruct (cidrAt t n (Z.land ip (netidMask n))) as [b|] eqn:E.
    - assert (match byCIDR t !! n with Some m => match m !! Z.land ip (netidMask n) with Some b => Some (b, n) | None => lpmIn t ip ls end | None => lpmIn t ip ls end = Some (b, n)) as ->.
      { unfold cidrAt in E. destruct (byCIDR t !! n) as [m|]; cbn in E; [|done]. by rewrite E. }
      split; [done|]. intros bits' [->|Hin]%elem_of_cons _; [lia|]. specialize (Hn _ Hin). lia.
    - assert (match byCIDR t !! n with Some m => match m !! Z.land ip (netidMask n) with Some b => Some (b, n) | None => lpmIn t ip ls end | None => lpmIn t ip ls end = lpmIn t ip ls) as ->.
      { unfold cidrAt in E. destruct (byCIDR t !! n) as [m|]; cbn in E; [|done]. by rewrite E. }
      destruct (lpmIn t ip ls) as [[b bits]|].
      + destruct IH as [H1 H2]. split; [done|]. intros bits' [->|Hin]%elem_of_cons Hs'; [rewrite E in Hs'; by destruct Hs'|by apply H2].
      + intros bits [->|Hin]%elem_of_cons; [done|by apply IH]. }
  specialize (H (lens t) Hs). assert (forall bits, is_Some (cidrAt t bits (Z.land ip (netidMask bits))) -> bits ∈ lens t) as Hin.
  { intros bits [b Hb]. apply Hl. unfold cidrAt in Hb. by destruct (byCIDR t !! bits). }
  destruct (lpmIn t ip (lens t)) as [[b bits]|].
  - destruct H as [H1 H2]. split; [done|]. intros bits' Hb. apply H2; [by apply Hin|done].
  - intros bits. destruct (cidrAt t bits _) eqn:E; [|done]. rewrite <- E. apply H, Hin. rewrite E. eauto.
Qed.

(** ** What a configuration claims *)

Definition tableFor (s : netidSnapshot) (sc : option string) : netidTable :=
  match sc with None => global s | Some svc => default emptyTable (bySvc s !! svc) end.

Lemma updTable_for sc f s sc' : tableFor (updTable sc f s) sc' = if bool_decide (sc = sc') then f (tableFor s sc') else tableFor s sc'.
Proof.
  destruct sc as [svc|], sc' as [svc'|]; cbn; try done. destruct (decide (svc = svc')) as [->|].
  - by rewrite bool_decide_true, lookup_insert_eq.
  - rewrite bool_decide_false, lookup_insert_ne by naive_solver. done.
Qed.

Definition ifAt (s : netidSnapshot) (sc : option string) (idx : Z) : option netidBinding := byIf (tableFor s sc) !! idx.
Definition netAt (s : netidSnapshot) (sc : option string) (bits k : Z) : option netidBinding := cidrAt (tableFor s sc) bits k.

Definition inScope (pm : NetIdentityMod) (sc : option string) : bool := existsb (fun sc' => bool_decide (sc' = sc)) (scopesOf pm).

Definition claimsIf (env : ifEnv) (sc : option string) (idx : Z) (pm : NetIdentityMod) : bool :=
  OnInterface (nMatch pm) && (matchIndex env (nMatch pm) >? 0) && (matchIndex env (nMatch pm) =? idx) && inScope pm sc.

Definition claimsNet (sc : option string) (bits k : Z) (pm : NetIdentityMod) : bool :=
  negb (OnInterface (nMatch pm)) && existsb (fun c => bool_decide (ParsePrefix4 c = Some (PrefixFrom k bits))) (CIDR (nMatch pm)) && inScope pm sc.

Lemma touch_for l s sc : tableFor (foldl (fun s sc => updTable sc (fun t => t) s) s l) sc = tableFor s sc.
Proof. revert s. induction l as [|x l IH]; intros s; [done|]. cbn [foldl]. rewrite IH, updTable_for. by case_bool_decide. Qed.

Lemma scopes_ifAt idx0 b l s sc idx :
  ifAt (foldl (fun s sc => updTable sc (addIf idx0 b) s) s l) sc idx =
  match ifAt s sc idx with Some y => Some y | None => if existsb (fun sc' => bool_decide (sc' = sc)) l && (idx0 =? idx) then Some b else None end.
Proof.
  rewrite (fold_claims (fun s => ifAt s sc idx) _ (fun sc' => if bool_decide (sc' = sc) && (idx0 =? idx) then Some b else None)).
  - rewrite head_omap_const. destruct (ifAt s sc idx); [done|]. by rewrite existsb_andb.
  - intros s' sc'. unfold ifAt. rewrite updTable_for. case_bool_decide; [|by destruct (byIf _ !! idx)]. cbn. rewrite claim_lookup.
    destruct (byIf _ !! idx); [done|]. by destruct (Z.eqb_spec idx0 idx); case_bool_decide.
Qed.

Lemma scopes_netAt pfx b l s sc bits k :
  netAt (foldl (fun s sc => updTable sc (addCIDR pfx b) s) s l) sc bits k =
  match netAt s sc bits k with Some y => Some y | None => if existsb (fun sc' => bool_decide (sc' = sc)) l && bool_decide (pfx = PrefixFrom k bits) then Some b else None end.
Proof.
  rewrite (fold_claims (fun s => netAt s sc bits k) _ (fun sc' => if bool_decide (sc' = sc) && bool_decide (pfx = PrefixFrom k bits) then Some b else None)).
  - rewrite head_omap_const. destruct (netAt s sc bits k); [done|]. by rewrite existsb_andb.
  - intros s' sc'. unfold netAt. rewrite updTable_for. destruct (bool_decide (sc' = sc)); [|by destruct (cidrAt _ bits k)]. apply addCIDR_at.
Qed.

(** A change that leaves one kind of entry alone. *)
Lemma scopes_keep {X} (get : netidTable -> X) (f : netidTable -> netidTable) l s sc :
  (forall t, get (f t) = get t) -> get (tableFor (foldl (fun s sc => updTable sc f s) s l) sc) = get (tableFor s sc).
Proof. intros Hf. revert s. induction l as [|x l IH]; intros s; [done|]. cbn [foldl]. rewrite IH, updTable_for. case_bool_decide; [apply Hf|done]. Qed.

Lemma cidrs_byIf b scs l s sc :
  byIf (tableFor (foldl (fun s c => match ParsePrefix4 c with None => s | Some pfx => foldl (fun s sc => updTable sc (addCIDR pfx b) s) s scs end) s l) sc) = byIf (tableFor s sc).
Proof.
  revert s. induction l as [|c l IH]; intros s; [done|]. cbn [foldl]. rewrite IH. destruct (ParsePrefix4 c) as [pfx|]; [|done].
  apply scopes_keep. intros t. unfold addCIDR. by destruct (byCIDR t !! _).
Qed.

Lemma addBinding_ifAt env s pm sc idx :
  ifAt (addBinding env pm s) sc idx = match ifAt s sc idx with Some y => Some y | None => if claimsIf env sc idx pm then Some (compileBinding pm) else None end.
Proof.
  unfold addBinding, claimsIf. destruct (OnInterface (nMatch pm)); cbn [andb].
  - destruct (_ >? 0); cbn [andb].
    + rewrite scopes_ifAt. unfold ifAt. rewrite touch_for. rewrite (andb_comm (_ =? idx)). done.
    + unfold ifAt. rewrite touch_for. by destruct (byIf (tableFor s sc) !! idx) eqn:E; destruct sc; cbn in *; rewrite E.
  - unfold ifAt. rewrite cidrs_byIf, touch_for. by destruct (byIf (tableFor s sc) !! idx) eqn:E; destruct sc; cbn in *; rewrite E.
Qed.

Lemma addBinding_netAt env s pm sc bits k :
  netAt (addBinding env pm s) sc bits k = match netAt s sc bits k with Some y => Some y | None => if claimsNet sc bits k pm then Some (compileBinding pm) else None end.
Proof.
  unfold addBinding, claimsNet. destruct (OnInterface (nMatch pm)); cbn [andb negb].
  - destruct (_ >? 0); unfold netAt, cidrAt; [rewrite (scopes_keep byCIDR) by done|]; rewrite touch_for; by destruct (byCIDR (tableFor s sc) !! bits ≫= _) eqn:E; destruct sc; cbn in *; rewrite E.
  - set (b := compileBinding pm). set (scs := scopesOf pm).
    rewrite (fold_claims (fun s => netAt s sc bits k) _ (fun c => if bool_decide (ParsePrefix4 c = Some (PrefixFrom k bits)) && inScope pm sc then Some b else None)).
    + unfold netAt at 1. rewrite touch_for. change (cidrAt (tableFor _ sc) bits k) with (netAt s sc bits k) at 1. destruct (netAt s sc bits k); [done|]. rewrite head_omap_const.
      by rewrite existsb_andb.
    + intros s' c. destruct (ParsePrefix4 c) as [pfx|] eqn:E.
      * rewrite scopes_netAt. destruct (netAt s' sc bits k); [done|]. rewrite andb_comm. unfold inScope. fold scs.
        replace (bool_decide (Some pfx = Some (PrefixFrom k bits))) with (bool_decide (pfx = PrefixFrom k bits)); [done|]. apply bool_decide_ext. naive_solver.
      * rewrite bool_decide_false by done. by destruct (netAt s' sc bits k).
Qed.

Lemma build_ifAt env l sc idx : ifAt (foldl (fun s pm => addBinding env pm s) emptySnapshot l) sc idx = compileBinding <$> List.find (claimsIf env sc idx) l.
Proof.
  rewrite (fold_claims (fun s => ifAt s sc idx) _ (fun pm => if claimsIf env sc idx pm then Some (compileBinding pm) else None)).
  - rewrite head_omap_find. by destruct sc.
  - intros s pm. apply addBinding_ifAt.
Qed.

Lemma build_netAt env l sc bits k : netAt (foldl (fun s pm => addBinding env pm s) emptySnapshot l) sc bits k = compileBinding <$> List.find (claimsNet sc bits k) l.
Proof.
  rewrite (fold_claims (fun s => netAt s sc bits k) _ (fun pm => if claimsNet sc bits k pm then Some (compileBinding pm) else None)).
  - rewrite head_omap_find. by destruct sc.
  - intros s pm. apply addBinding_netAt.
Qed.

(** Every table of a snapshot keeps its prefix lengths in order. *)
Definition tablesOk (s : netidSnapshot) : Prop := forall sc, tableOk (tableFor s sc).

Lemma updTable_tablesOk sc f s : (forall t, tableOk t -> tableOk (f t)) -> tablesOk s -> tablesOk (updTable sc f s).
Proof. intros Hf Hs sc'. rewrite updTable_for. case_bool_decide; auto. Qed.

Lemma scopes_tablesOk f l s : (forall t, tableOk t -> tableOk (f t)) -> tablesOk s -> tablesOk (foldl (fun s sc => updTable sc f s) s l).
Proof. intros Hf. revert s. induction l as [|sc l IH]; intros s Hs; [done|]. apply IH. by apply updTable_tablesOk. Qed.

Lemma addBinding_tablesOk env pm s : tablesOk s -> tablesOk (addBinding env pm s).
Proof.
  intros Hs. unfold addBinding.
  match goal with |- context [foldl (fun s sc => updTable sc (fun t => t) s) ?s0 ?l] => assert (tablesOk (foldl (fun s sc => updTable sc (fun t => t) s) s0 l)) as H0 end.
  { apply scopes_tablesOk; [done|]. intros sc. specialize (Hs sc). by destruct sc. }
  revert H0. generalize (foldl (fun s sc => updTable sc (fun t => t) s) (NidSnapshot (global s) (bySvc s) (<[bName (compileBinding pm):=bClass (compileBinding pm)]> (classOf s)) (if bClass (compileBinding pm) ==s NetIdentityClassSheddable then true else lowers s)) (scopesOf pm)).
  clear s Hs. intros s Hs. destruct (OnInterface _).
  - destruct (_ >? 0); [|done]. apply scopes_tablesOk; [|done]. intros t [H1 H2]. by split.
  - revert s Hs. induction (CIDR (nMatch pm)) as [|c l IH]; intros s Hs; [done|]. apply IH. destruct (ParsePrefix4 c); [|done].
    apply scopes_tablesOk; [|done]. intros t. apply addCIDR_ok.
Qed.

Lemma build_tablesOk env l : tablesOk (foldl (fun s pm => addBinding env pm s) emptySnapshot l).
Proof.
  assert (forall s, tablesOk s -> tablesOk (foldl (fun s pm => addBinding env pm s) s l)) as H.
  { induction l as [|pm l IH]; intros s Hs; [done|]. apply IH. by apply addBinding_tablesOk. }
  apply H. intros sc. destruct sc; [|apply emptyTable_ok]. unfold tableFor. cbn [bySvc emptySnapshot]. rewrite lookup_empty. apply emptyTable_ok.
Qed.

(** ** The rule in words: how specific a binding is for a request *)

Definition appliesTo (svc : string) (pm : NetIdentityMod) : bool := match nServices pm with [] => true | l => bool_decide (svc ∈ l) end.

Definition namesSvc (pm : NetIdentityMod) : Z := match nServices pm with [] => 0 | _ => 1 end.

Definition holds (a : Z) (p : Prefix) : bool := bool_decide (Masked (PrefixFrom a (pfxBits p)) = p).

(** An interface beats a network, a longer network a shorter, and at one
    length a binding that names the service one that does not; -1 is no match. *)
Definition specificity (env : ifEnv) (ip : option Z) (ifindex : Z) (svc : string) (pm : NetIdentityMod) : Z :=
  if negb (appliesTo svc pm) then -1
  else if OnInterface (nMatch pm) then if (ifindex >? 0) && (matchIndex env (nMatch pm) =? ifindex) then 66 + namesSvc pm else -1
  else match ip with
       | None => -1
       | Some a => foldr Z.max (-1) (map (fun p => 2 * pfxBits p + namesSvc pm) (List.filter (holds a) (omap ParsePrefix4 (CIDR (nMatch pm)))))
       end.

(** The most specific, the first in order among equals. *)
Fixpoint mostSpecific (score : NetIdentityMod -> Z) (l : list NetIdentityMod) : option NetIdentityMod :=
  match l with
  | [] => None
  | pm :: r =>
      match mostSpecific score r with
      | Some o => if score pm >=? score o then Some pm else Some o
      | None => if score pm >=? 0 then Some pm else None
      end
  end.

Lemma mostSpecific_none score l : (forall pm, pm ∈ l -> score pm < 0) -> mostSpecific score l = None.
Proof.
  induction l as [|pm l IH]; intros H; [done|]. cbn [mostSpecific List.find]. rewrite IH by (intros; apply H; set_solver). assert (score pm < 0) by (apply H; set_solver).
  destruct (Z.leb_spec 0 (score pm)); [lia|done].
Qed.

Lemma mostSpecific_in score l pm : mostSpecific score l = Some pm -> pm ∈ l /\ 0 <= score pm.
Proof.
  revert pm. induction l as [|x l IH]; intros pm; cbn [mostSpecific List.find]; [done|]. destruct (mostSpecific score l) as [o|] eqn:E.
  - destruct (IH o eq_refl) as [H1 H2]. destruct (Z.leb_spec (score o) (score x)); intros [= <-]; split; try lia; set_solver.
  - destruct (Z.leb_spec 0 (score x)); intros [= <-]. split; [set_solver|lia].
Qed.

(** The first to satisfy [P], when [P] is having the highest score. *)
Lemma mostSpecific_find score (P : NetIdentityMod -> bool) r l pm :
  0 <= r -> (forall x, x ∈ l -> score x <= r) -> (forall x, x ∈ l -> P x = true <-> score x = r) -> List.find P l = Some pm -> mostSpecific score l = Some pm.
Proof.
  intros Hr. induction l as [|x l IH]; cbn [mostSpecific List.find]; [done|]. intros Hle HP. destruct (P x) eqn:E.
  - intros [= <-]. assert (score x = r) as Hx by (apply HP; [set_solver|done]). destruct (mostSpecific score l) as [o|] eqn:Eo.
    + apply mostSpecific_in in Eo as [Ho _]. assert (score o <= r) by (apply Hle; set_solver). destruct (Z.leb_spec (score o) (score x)); [done|lia].
    + destruct (Z.leb_spec 0 (score x)); [done|lia].
  - intros Hf. rewrite IH; [|intros; apply Hle; set_solver|intros; apply HP; set_solver|done].
    apply find_some in Hf as [Hin Hp]. apply list_elem_of_In in Hin. assert (score pm = r) by (apply HP; [set_solver|done]).
    assert (score x <= r) by (apply Hle; set_solver). destruct (Z.leb_spec (score pm) (score x)); [|done].
    assert (P x = true) by (apply HP; [set_solver|lia]). congruence.
Qed.

(** ** Score and claims *)

Section Request.
Context (env : ifEnv) (ip : option Z) (ifindex : Z) (svc : string).
Abbreviation score := (specificity env ip ifindex svc).

Lemma inScope_svc pm : inScope pm (Some svc) = appliesTo svc pm && (namesSvc pm =? 1).
Proof.
  unfold inScope, appliesTo, namesSvc, scopesOf. destruct (nServices pm) as [|x l]; [done|]. rewrite andb_true_r. generalize (x :: l). clear.
  intros l0. transitivity (bool_decide (Some svc ∈ Some <$> l0)); [|apply bool_decide_ext; rewrite list_elem_of_fmap; naive_solver].
  generalize (Some <$> l0). clear. induction l as [|y l IH]; [done|]. cbn. rewrite IH. destruct (decide (y = Some svc)) as [->|Hne].
  - rewrite bool_decide_true by done. cbn. symmetry. apply bool_decide_true. set_solver.
  - rewrite bool_decide_false by done. cbn. apply bool_decide_ext. set_solver.
Qed.

Lemma inScope_all pm : inScope pm None = appliesTo svc pm && (namesSvc pm =? 0) .
Proof.
  unfold inScope, appliesTo, namesSvc, scopesOf. destruct (nServices pm) as [|x l]; [done|]. rewrite andb_false_r.
  generalize (x :: l) as l0. clear. by induction l0.
Qed.

(** The scope of a binding that names the service, and of one that names none. *)
Definition scopeAt (n : Z) : option string := if n =? 1 then Some svc else None.

Lemma inScope_at pm n : n = 0 \/ n = 1 -> inScope pm (scopeAt n) = appliesTo svc pm && (namesSvc pm =? n).
Proof. intros [->| ->]; [apply inScope_all|apply inScope_svc]. Qed.

Lemma namesSvc_01 pm : namesSvc pm = 0 \/ namesSvc pm = 1.
Proof. unfold namesSvc. destruct (nServices pm); auto. Qed.

Lemma foldr_max_upper (l : list Z) x : x ∈ l -> x <= foldr Z.max (-1) l.
Proof. induction l as [|y l IH]; [set_solver|]. cbn. intros [->|H]%elem_of_cons; [lia|]. specialize (IH H). lia. Qed.

Lemma foldr_max_in (l : list Z) : foldr Z.max (-1) l = -1 \/ foldr Z.max (-1) l ∈ l.
Proof.
  induction l as [|y l IH]; [by left|]. cbn. destruct (Z.max_spec y (foldr Z.max (-1) l)) as [[_ ->]|[_ ->]]; [|right; set_solver].
  destruct IH as [->|IH]; [by left|right; set_solver].
Qed.

(** A network claim at the address bounds the score from below. *)
Lemma claimsNet_score pm a n bits :
  ip = Some a -> n = 0 \/ n = 1 -> claimsNet (scopeAt n) bits (Z.land a (netidMask bits)) pm = true -> 2 * bits + n <= score pm.
Proof.
  intros -> Hn. unfold claimsNet, specificity. rewrite inScope_at by done. intros [[H1 H2]%andb_true_iff [H3 H4%Z.eqb_eq]%andb_true_iff]%andb_true_iff.
  rewrite H3. apply negb_true_iff in H1. rewrite H1. cbn [negb]. apply foldr_max_upper. apply existsb_exists in H2 as (c & Hc & Hp%bool_decide_eq_true).
  rewrite <- H4. apply list_elem_of_In, in_map_iff. exists (PrefixFrom (Z.land a (netidMask bits)) bits). split; [done|]. apply filter_In.
  split; [|by apply bool_decide_eq_true]. apply list_elem_of_In, list_elem_of_omap. exists c. split; [by apply list_elem_of_In|done].
Qed.

(** A score below the interfaces' is the best network claim. *)
Lemma score_claimsNet pm a : ip = Some a -> 0 <= score pm -> OnInterface (nMatch pm) = false ->
  exists bits, 0 <= bits <= 32 /\ score pm = 2 * bits + namesSvc pm /\ claimsNet (scopeAt (namesSvc pm)) bits (Z.land a (netidMask bits)) pm = true.
Proof.
  intros -> H0 Hif. unfold claimsNet. rewrite inScope_at by apply namesSvc_01. unfold specificity in *. destruct (appliesTo svc pm); cbn [negb] in *; [|lia]. rewrite Hif in *.
  destruct (foldr_max_in (map (fun p => 2 * pfxBits p + namesSvc pm) (List.filter (holds a) (omap ParsePrefix4 (CIDR (nMatch pm)))))) as [H|H]; [lia|].
  apply list_elem_of_In, in_map_iff in H as (p & Hs & [Hp Hh%bool_decide_eq_true]%filter_In). apply list_elem_of_In, list_elem_of_omap in Hp as (c & Hc & Hp).
  destruct (ParsePrefix4_range _ _ Hp) as [_ Hb]. exists (pfxBits p). split; [done|]. split; [done|]. rewrite Z.eqb_refl, andb_true_r. cbn [negb andb].
  rewrite ?andb_true_r. apply existsb_exists. exists c. split; [by apply list_elem_of_In|]. apply bool_decide_eq_true. by rewrite Hp, <- Hh.
Qed.

Lemma score_net_le pm : OnInterface (nMatch pm) = false -> score pm <= 65.
Proof.
  intros Hif. destruct (decide (0 <= score pm)) as [H0|]; [|lia]. destruct ip as [a|] eqn:Eip.
  - destruct (score_claimsNet pm a Eip) as (bits & Hb & Hs & _); [by rewrite Eip|done|]. rewrite Eip in Hs. rewrite Hs. destruct (namesSvc_01 pm); lia.
  - unfold specificity. rewrite Hif. destruct (negb _); lia.
Qed.

Lemma score_if pm n : n = 0 \/ n = 1 -> 0 < ifindex -> claimsIf env (scopeAt n) ifindex pm = true <-> score pm = 66 + n.
Proof.
  intros Hn Hi. unfold claimsIf. rewrite inScope_at by done. unfold specificity. destruct (appliesTo svc pm) eqn:Ea; cbn [negb andb]; [|rewrite andb_false_r; split; [done|lia]].
  destruct (OnInterface (nMatch pm)) eqn:Eif; cbn [andb].
  - destruct (Z.ltb_spec 0 ifindex); [|lia]. cbn [andb]. destruct (Z.eqb_spec (matchIndex env (nMatch pm)) ifindex) as [->|]; [|rewrite andb_false_r; split; [done|lia]].
    destruct (Z.ltb_spec 0 ifindex); [|lia]. cbn [andb]. rewrite Z.eqb_eq. lia.
  - split; [done|]. intros Hs. pose proof (score_net_le pm Eif) as Hle. unfold specificity in Hle. rewrite Ea, Eif in Hle. cbn [negb] in Hle. lia.
Qed.

Lemma lpm_at l n a : tablesOk l -> match lpm (tableFor l (scopeAt n)) a with
  | Some (b, bits) => netAt l (scopeAt n) bits (Z.land a (netidMask bits)) = Some b /\ forall bits', is_Some (netAt l (scopeAt n) bits' (Z.land a (netidMask bits'))) -> bits' <= bits
  | None => forall bits, netAt l (scopeAt n) bits (Z.land a (netidMask bits)) = None
  end.
Proof. intros Hok. apply lpm_spec, Hok. Qed.

Context (l : list NetIdentityMod).
Abbreviation snap := (foldl (fun s pm => addBinding env pm s) emptySnapshot l).

(** The interface half of the resolver. *)
Definition onIf : option NetIdentityMod :=
  if ifindex >? 0 then match List.find (claimsIf env (Some svc) ifindex) l with Some pm => Some pm | None => List.find (claimsIf env None ifindex) l end else None.

Lemma resolve_split : resolve snap ip ifindex svc =
  match onIf with
  | Some pm => Some (compileBinding pm)
  | None => match ip with
            | None => None
            | Some a => match lpm (tableFor snap (Some svc)) a, lpm (tableFor snap None) a with
                        | Some (sb, sl), Some (gb, gl) => if sl >=? gl then Some sb else Some gb
                        | Some (sb, _), None => Some sb
                        | None, g => fst <$> g
                        end
            end
  end.
Proof.
  unfold resolve, onIf. pose proof (build_ifAt env l (Some svc) ifindex) as H1. pose proof (build_ifAt env l None ifindex) as H2. unfold ifAt in H1, H2. cbn [tableFor] in *.
  set (s := snap) in *. destruct (bySvc s !! svc) as [t|]; [|change (byIf (default emptyTable None)) with (∅ : gmap Z netidBinding) in H1; rewrite lookup_empty in H1].
  - change (default emptyTable (Some t)) with t in *. rewrite H1, H2. destruct (ifindex >? 0); [|done]. destruct (List.find (claimsIf env (Some svc) ifindex) l); [done|]. by destruct (List.find (claimsIf env None ifindex) l).
  - rewrite H2. destruct (List.find (claimsIf env (Some svc) ifindex) l); [done|]. destruct (ifindex >? 0); [|by destruct ip].
    destruct (List.find (claimsIf env None ifindex) l); [done|]. by destruct ip.
Qed.

Lemma find_claim (P : NetIdentityMod -> bool) pm : pm ∈ l -> P pm = true -> is_Some (List.find P l).
Proof. intros Hin%list_elem_of_In HP. destruct (List.find P l) eqn:E; [done|]. pose proof (find_none _ _ E _ Hin). congruence. Qed.

Lemma score_le pm : score pm <= 67.
Proof.
  destruct (OnInterface (nMatch pm)) eqn:E; [|pose proof (score_net_le pm E); lia]. unfold specificity. rewrite E.
  destruct (negb _); [lia|]. destruct (_ && _); [|lia]. destruct (namesSvc_01 pm); lia.
Qed.

Lemma onIf_some pm : onIf = Some pm -> mostSpecific score l = Some pm.
Proof.
  unfold onIf. destruct (Z.ltb_spec 0 ifindex); [|done]. destruct (List.find (claimsIf env (Some svc) ifindex) l) as [x|] eqn:E1.
  - intros [= ->]. apply (mostSpecific_find _ (claimsIf env (Some svc) ifindex) 67); [lia|intros; apply score_le| |done].
    intros x _. apply (score_if x 1); [by right|done].
  - intros Hf. assert (forall x, x ∈ l -> score x <= 66) as Hle.
    { intros x Hx. pose proof (score_le x). destruct (decide (score x = 67)) as [H67|]; [|lia].
      apply (score_if x 1) in H67; [|by right|done]. apply (find_claim (claimsIf env (Some svc) ifindex)) in H67 as [? H67]; [congruence|done]. }
    apply (mostSpecific_find _ (claimsIf env None ifindex) 66); [lia|done| |done]. intros x _. apply (score_if x 0); [by left|done].
Qed.

Lemma onIf_none pm : onIf = None -> pm ∈ l -> 0 <= score pm -> OnInterface (nMatch pm) = false.
Proof.
  intros Hn Hin H0. destruct (OnInterface (nMatch pm)) eqn:E; [|done]. exfalso.
  assert (0 < ifindex /\ score pm = 66 + namesSvc pm) as [Hi Hs].
  { unfold specificity in *. rewrite E in *. destruct (negb _); [lia|]. destruct (Z.ltb_spec 0 ifindex); [|cbn in H0; lia]. destruct (_ && _); lia. }
  apply score_if in Hs; [|apply namesSvc_01|done]. apply find_claim in Hs as [x Hs]; [|done]. unfold onIf in Hn. destruct (Z.ltb_spec 0 ifindex); [|lia].
  unfold scopeAt in Hs. destruct (_ =? 1); destruct (List.find (claimsIf env (Some svc) ifindex) l); congruence.
Qed.

(** Off the interfaces, a score is a network entry of the snapshot. *)
Lemma score_entry pm a : onIf = None -> ip = Some a -> pm ∈ l -> 0 <= score pm ->
  exists bits, score pm = 2 * bits + namesSvc pm /\ claimsNet (scopeAt (namesSvc pm)) bits (Z.land a (netidMask bits)) pm = true /\
    is_Some (netAt snap (scopeAt (namesSvc pm)) bits (Z.land a (netidMask bits))).
Proof.
  intros Hn Hip Hin H0. destruct (score_claimsNet pm a Hip H0) as (bits & _ & Hs & Hc); [by apply onIf_none|]. exists bits. split; [done|]. split; [done|].
  rewrite build_netAt. apply fmap_is_Some. by apply (find_claim _ pm).
Qed.

Lemma net_best a n bits pm : onIf = None -> ip = Some a -> n = 0 \/ n = 1 -> (forall x, x ∈ l -> 0 <= score x -> score x <= 2 * bits + n) ->
  List.find (claimsNet (scopeAt n) bits (Z.land a (netidMask bits))) l = Some pm -> mostSpecific score l = Some pm.
Proof.
  intros Hn Hip Hn01 Hle Hf. assert (0 <= bits) as Hb.
  { apply find_some in Hf as [_ Hf]. unfold claimsNet in Hf. apply andb_true_iff in Hf as [[_ Hf]%andb_true_iff _]. apply existsb_exists in Hf as (c & _ & Hp%bool_decide_eq_true).
    apply ParsePrefix4_range in Hp as [_ Hp]. cbn in Hp. lia. }
  apply (mostSpecific_find _ (claimsNet (scopeAt n) bits (Z.land a (netidMask bits))) (2 * bits + n)); [lia| | |done].
  - intros x Hx. destruct (decide (0 <= score x)); [by apply Hle|lia].
  - intros x Hx. split.
    + intros Hc. pose proof (claimsNet_score x a n bits Hip Hn01 Hc). specialize (Hle x Hx). lia.
    + intros Hs. destruct (score_entry x a Hn Hip Hx) as (bits' & Hs' & Hc & _); [lia|]. destruct (namesSvc_01 x) as [E|E]; rewrite E in *; assert (bits' = bits) as -> by lia; assert (n = namesSvc x) as -> by lia; by rewrite E.
Qed.

(** What a longest-prefix lookup says of the scores in its scope. *)
Lemma lpm_bound n a x : onIf = None -> ip = Some a -> x ∈ l -> 0 <= score x -> namesSvc x = n ->
  exists b bits, lpm (tableFor snap (scopeAt n)) a = Some (b, bits) /\ score x <= 2 * bits + n.
Proof.
  intros Hn Hip Hin H0 <-. destruct (score_entry x a Hn Hip Hin H0) as (bits & Hs & _ & He). pose proof (lpm_at snap (namesSvc x) a (build_tablesOk env l)) as Hl.
  destruct (lpm _ a) as [[b bits']|]; [|rewrite Hl in He; by destruct He]. exists b, bits'. split; [done|]. destruct Hl as [_ Hl]. specialize (Hl _ He). lia.
Qed.

Lemma net_found n a b bits : onIf = None -> ip = Some a -> n = 0 \/ n = 1 -> lpm (tableFor snap (scopeAt n)) a = Some (b, bits) ->
  (forall x, x ∈ l -> 0 <= score x -> score x <= 2 * bits + n) -> Some b = compileBinding <$> mostSpecific score l.
Proof.
  intros Hn Hip Hn01 Hl Hle. pose proof (lpm_at snap n a (build_tablesOk env l)) as Hs. rewrite Hl in Hs. destruct Hs as [Hs _].
  rewrite build_netAt in Hs. destruct (List.find _ l) as [pm|] eqn:Ef; [|done]. injection Hs as <-. by rewrite (net_best a n bits pm).
Qed.

Lemma resolve_list : resolve snap ip ifindex svc = compileBinding <$> mostSpecific score l.
Proof.
  rewrite resolve_split. destruct onIf as [pm|] eqn:Eif; [by rewrite (onIf_some pm Eif)|]. destruct ip as [a|] eqn:Eip; [rewrite <- Eip|].
  - assert (forall x, x ∈ l -> 0 <= score x -> (exists b bits, lpm (tableFor snap (Some svc)) a = Some (b, bits) /\ score x <= 2 * bits + 1) \/
      exists b bits, lpm (tableFor snap None) a = Some (b, bits) /\ score x <= 2 * bits + 0) as Hub.
    { intros x Hx H0. destruct (namesSvc_01 x) as [E|E]; [right; apply (lpm_bound 0 a x)|left; apply (lpm_bound 1 a x)]; done. }
    destruct (lpm (tableFor snap (Some svc)) a) as [[sb sl]|] eqn:E1; destruct (lpm (tableFor snap None) a) as [[gb gl]|] eqn:E2.
    + destruct (Z.leb_spec gl sl); [apply (net_found 1 a sb sl)|apply (net_found 0 a gb gl)]; auto; intros x Hx H0; destruct (Hub x Hx H0) as [(?&?&[= <- <-]&?)|(?&?&[= <- <-]&?)]; lia.
    + apply (net_found 1 a sb sl); auto. intros x Hx H0. destruct (Hub x Hx H0) as [(?&?&[= <- <-]&?)|(?&?&?&?)]; [lia|done].
    + apply (net_found 0 a gb gl); auto. intros x Hx H0. destruct (Hub x Hx H0) as [(?&?&?&?)|(?&?&[= <- <-]&?)]; [done|lia].
    + rewrite mostSpecific_none; [done|]. intros x Hx. destruct (decide (0 <= score x)) as [H0|]; [|lia]. by destruct (Hub x Hx H0) as [(?&?&?&?)|(?&?&?&?)].
  - rewrite mostSpecific_none; [done|]. intros x Hx. destruct (decide (0 <= score x)) as [H0|]; [|rewrite Eip in *; lia].
    pose proof (onIf_none x Eif Hx H0) as Hof. unfold specificity in H0. rewrite Hof, Eip in H0. destruct (negb _); lia.
Qed.
End Request.
