(* ===== verification/NetIdBoundProps.v ===== *)
(** * NetIdBoundProps: the bound set says exactly which services have a binding *)

From Stdlib Require Import Ascii String.
From S2P Require Import Prelude StoreErr RateLimit RateSync Objective Common Admission Gateway Identity Classes NetIdText NetId.

Open Scope Z_scope.
Open Scope igw_scope.

(** ** Bindings that bear on a service *)

Definition anyService (pm : NetIdentityMod) : bool := match nServices pm with [] => true | _ => false end.
Definition namesIt (svc : string) (pm : NetIdentityMod) : bool := bool_decide (svc ∈ nServices pm).
Definition covers (svc : string) (pm : NetIdentityMod) : bool := anyService pm || namesIt svc pm.
Definition failsClosed (pm : NetIdentityMod) : bool := nFailMode pm ==s NetIdentityFailClosed.

Definition boundFor (l : list NetIdentityMod) (svc : string) : bool := existsb (covers svc) l.
Definition closedFor (l : list NetIdentityMod) (svc : string) : bool := existsb (fun pm => covers svc pm && failsClosed pm) l.
Definition forwardsFor (l : list NetIdentityMod) (svc : string) : bool := existsb (fun pm => namesIt svc pm && nForwardIdentity pm) l.

(** ** The set a configuration builds *)

(** A lookup after a run of updates at the keys of a list. *)
Lemma services_svcs closed f l nb svc :
  svcs (foldl (boundSvc closed f) nb l) !! svc = if bool_decide (svc ∈ l) then Some (default false (svcs nb !! svc) || closed) else svcs nb !! svc.
Proof.
  revert nb. induction l as [|x l IH]; intros nb; [done|]. cbn [foldl]. rewrite IH. cbn [boundSvc svcs]. destruct (decide (x = svc)) as [->|Hne].
  - rewrite lookup_insert_eq. rewrite (bool_decide_true (svc ∈ svc :: l)) by set_solver. cbn. case_bool_decide; [|done]. by destruct (default false _), closed.
  - rewrite lookup_insert_ne by done. by rewrite (bool_decide_ext (svc ∈ x :: l) (svc ∈ l)) by set_solver.
Qed.

Lemma services_fwd closed f l nb svc : svc ∈ fwd (foldl (boundSvc closed f) nb l) <-> svc ∈ fwd nb \/ (f = true /\ svc ∈ l).
Proof.
  revert nb. induction l as [|x l IH]; intros nb; [set_solver|]. cbn [foldl]. rewrite IH. cbn [boundSvc fwd]. destruct f; set_solver.
Qed.

Lemma services_flags closed f l nb : nbAll (foldl (boundSvc closed f) nb l) = nbAll nb /\ allClosed (foldl (boundSvc closed f) nb l) = allClosed nb.
Proof. revert nb. induction l as [|x l IH]; intros nb; [done|]. apply (IH (boundSvc closed f nb x)). Qed.

Lemma names_empty svc pm : nServices pm = [] -> namesIt svc pm = false.
Proof. intros H. unfold namesIt. rewrite H. apply bool_decide_false. set_solver. Qed.

Lemma boundAdd_spec nb pm svc :
  nbAll (boundAdd nb pm) = nbAll nb || anyService pm /\
  allClosed (boundAdd nb pm) = allClosed nb || (anyService pm && failsClosed pm) /\
  svcs (boundAdd nb pm) !! svc = (if namesIt svc pm then Some (default false (svcs nb !! svc) || failsClosed pm) else svcs nb !! svc) /\
  (svc ∈ fwd (boundAdd nb pm) <-> svc ∈ fwd nb \/ namesIt svc pm && nForwardIdentity pm = true).
Proof.
  unfold boundAdd, anyService, namesIt. cbv zeta. change (nFailMode pm ==s NetIdentityFailClosed) with (failsClosed pm). destruct (nServices pm) as [|x l].
  - cbn. rewrite bool_decide_false by set_solver. rewrite orb_true_r. split; [done|]. split; [done|]. split; [done|]. naive_solver.
  - destruct (services_flags (failsClosed pm) (nForwardIdentity pm) (x :: l) nb) as [-> ->]. rewrite !orb_false_r. split; [done|]. split; [done|].
    split; [apply services_svcs|]. rewrite services_fwd, andb_true_iff, bool_decide_eq_true. naive_solver.
Qed.

Lemma run_flags l nb : nbAll (foldl boundAdd nb l) = nbAll nb || existsb anyService l /\ allClosed (foldl boundAdd nb l) = allClosed nb || existsb (fun pm => anyService pm && failsClosed pm) l.
Proof.
  revert nb. induction l as [|pm l IH]; intros nb; cbn [foldl existsb]; [by rewrite !orb_false_r|]. destruct (IH (boundAdd nb pm)) as [-> ->].
  destruct (boundAdd_spec nb pm "") as (-> & -> & _). by rewrite !orb_assoc.
Qed.

Lemma run_svcs l nb svc : svcs (foldl boundAdd nb l) !! svc =
  if existsb (namesIt svc) l then Some (default false (svcs nb !! svc) || existsb (fun pm => namesIt svc pm && failsClosed pm) l) else svcs nb !! svc.
Proof.
  revert nb. induction l as [|pm l IH]; intros nb; cbn [foldl existsb]; [done|]. rewrite IH. destruct (boundAdd_spec nb pm svc) as (_ & _ & -> & _).
  destruct (namesIt svc pm); cbn [orb andb default]; [|done]. destruct (existsb (namesIt svc) l) eqn:E; [by rewrite orb_assoc|].
  assert (existsb (fun pm => namesIt svc pm && failsClosed pm) l = false) as ->; [|by rewrite orb_false_r]. clear -E. induction l as [|x l IH]; [done|]. cbn in *.
  apply orb_false_iff in E as [E1 E2]. rewrite E1, IH by done. done.
Qed.

Lemma run_fwd l nb svc : svc ∈ fwd (foldl boundAdd nb l) <-> svc ∈ fwd nb \/ forwardsFor l svc = true.
Proof.
  unfold forwardsFor. revert nb. induction l as [|pm l IH]; intros nb; cbn [foldl existsb]; [naive_solver|]. rewrite IH, orb_true_iff.
  destruct (boundAdd_spec nb pm svc) as (_ & _ & _ & ->). tauto.
Qed.

(** Dropping what says nothing changes no answer. *)
Lemma canon_has nb svc : (allClosed nb = true -> nbAll nb = true) -> has (canon nb) svc = has nb svc /\ forwards (canon nb) svc = forwards nb svc.
Proof.
  intros Hc. unfold canon. destruct (nbAll nb) eqn:Ea; cbn [negb]; [|done]. split; [|done]. unfold has. cbn [nbAll allClosed svcs fwd]. rewrite Ea. cbn [orb andb]. f_equal.
  rewrite map_lookup_filter. destruct (svcs nb !! svc) as [c|] eqn:E; [|done]. cbn. destruct (allClosed nb); [done|]. cbn [orb].
  destruct c; cbn; [by rewrite option_guard_True|by rewrite option_guard_False].
Qed.

Lemma existsb_split {A} (p q c : A -> bool) l : existsb (fun x => (p x || q x) && c x) l = existsb (fun x => p x && c x) l || existsb (fun x => q x && c x) l.
Proof. induction l as [|x l IH]; [done|]. cbn. rewrite IH. by destruct (p x), (q x), (c x), (existsb (fun x => p x && c x) l). Qed.

Lemma existsb_or {A} (p q : A -> bool) l : existsb (fun x => p x || q x) l = existsb p l || existsb q l.
Proof. induction l as [|x l IH]; [done|]. cbn. rewrite IH. by destruct (p x), (q x), (existsb p l). Qed.

Lemma existsb_weaken {A} (p q : A -> bool) l : (forall x, p x = true -> q x = true) -> existsb p l = true -> existsb q l = true.
Proof. intros H (x & Hx & Hp)%existsb_exists. apply existsb_exists. exists x. auto. Qed.

Lemma bound_has l svc : has (netidBoundOf l) svc = (boundFor l svc, closedFor l svc) /\ forwards (netidBoundOf l) svc = forwardsFor l svc.
Proof.
  unfold netidBoundOf. destruct (run_flags l emptyBound) as [Ha Hc]. cbn [nbAll allClosed emptyBound orb] in Ha, Hc.
  destruct (canon_has (foldl boundAdd emptyBound l) svc) as [-> ->].
  { rewrite Ha, Hc. apply existsb_weaken. by intros x [? _]%andb_true_iff. }
  assert (forwards (foldl boundAdd emptyBound l) svc = forwardsFor l svc) as Hf.
  { unfold forwards. destruct (forwardsFor l svc) eqn:E; [apply bool_decide_true|apply bool_decide_false]; rewrite run_fwd, E; set_solver. }
  split; [|done]. unfold has. change (bool_decide (svc ∈ fwd ?b)) with (forwards b svc). rewrite Hf, Ha, Hc, run_svcs. cbn [emptyBound svcs]. rewrite lookup_empty. cbn [default].
  unfold boundFor, closedFor, covers. rewrite existsb_or, existsb_split. f_equal.
  - assert (forwardsFor l svc = true -> existsb (namesIt svc) l = true) as Hw by (apply existsb_weaken; by intros x [? _]%andb_true_iff).
    destruct (existsb (namesIt svc) l); cbn; rewrite ?orb_true_r; [by destruct (existsb anyService l)|]. destruct (forwardsFor l svc); [by discriminate Hw|]. by rewrite !orb_false_r.
  - assert (existsb (fun pm => anyService pm && failsClosed pm) l = true -> existsb anyService l = true) as Hw by (apply existsb_weaken; by intros x [? _]%andb_true_iff).
    assert (existsb (fun pm => namesIt svc pm && failsClosed pm) l = true -> existsb (namesIt svc) l = true) as Hv by (apply existsb_weaken; by intros x [? _]%andb_true_iff).
    destruct (existsb (fun pm => anyService pm && failsClosed pm) l), (existsb anyService l), (existsb (namesIt svc) l), (existsb (fun pm => namesIt svc pm && failsClosed pm) l); cbn; try done; try (by discriminate Hw); by discriminate Hv.
Qed.

(** ** One set for one meaning *)

Record boundWf (nb : netidBound) : Prop := {
  bw_closed : allClosed nb = true -> nbAll nb = true;
  bw_fwd : nbAll nb = false -> forall svc, svc ∈ fwd nb -> is_Some (svcs nb !! svc);
  bw_canon : nbAll nb = true -> forall svc c, svcs nb !! svc = Some c -> allClosed nb = false /\ c = true
}.

Lemma canon_wf nb : (allClosed nb = true -> nbAll nb = true) -> (nbAll nb = false -> forall svc, svc ∈ fwd nb -> is_Some (svcs nb !! svc)) -> boundWf (canon nb).
Proof.
  intros H1 H2. unfold canon. destruct (nbAll nb) eqn:E; cbn [negb]; [|by split; rewrite ?E; try done; auto].
  split; cbn [allClosed nbAll svcs fwd]; try done. intros _ svc c [_ Hc]%map_lookup_filter_Some. cbn in Hc. apply orb_false_iff in Hc as [Hc ->%negb_false_iff]. done.
Qed.

Lemma bound_wf l : boundWf (netidBoundOf l).
Proof.
  unfold netidBoundOf. destruct (run_flags l emptyBound) as [Ha Hc]. cbn [nbAll allClosed emptyBound orb] in Ha, Hc. apply canon_wf.
  - rewrite Ha, Hc. apply existsb_weaken. by intros x [? _]%andb_true_iff.
  - intros _ svc [H|H]%run_fwd; [cbn in H; set_solver|]. rewrite run_svcs. cbn [svcs emptyBound].
    assert (existsb (namesIt svc) l = true) as ->; [|done]. revert H. apply existsb_weaken. by intros x [? _]%andb_true_iff.
Qed.

(** Two canonical sets that answer alike are equal. *)
Lemma bound_ext nb o : boundWf nb -> boundWf o -> (forall svc, has nb svc = has o svc /\ forwards nb svc = forwards o svc) -> nb = o.
Proof.
  intros [A1 A2 A3] [B1 B2 B3] H. set (x := fresh (dom (svcs nb) ∪ dom (svcs o) ∪ fwd nb ∪ fwd o)).
  assert (x ∉ dom (svcs nb) ∪ dom (svcs o) ∪ fwd nb ∪ fwd o) as Hx by apply is_fresh. clearbody x.
  assert (svcs nb !! x = None) as X1 by (apply not_elem_of_dom; set_solver). assert (svcs o !! x = None) as X2 by (apply not_elem_of_dom; set_solver).
  assert (nbAll nb = nbAll o /\ allClosed nb = allClosed o) as [Ea Ec].
  { destruct (H x) as [Hh _]. unfold has in Hh. rewrite X1, X2, !(bool_decide_false (x ∈ _)) in Hh by set_solver. cbn in Hh. rewrite !orb_false_r in Hh. injection Hh as Hab Hc. rewrite Hab in *. split; [done|].
    destruct (nbAll o); [by cbn in Hc|]. destruct (allClosed nb); [by specialize (A1 eq_refl)|]. destruct (allClosed o); [by specialize (B1 eq_refl)|done]. }
  assert (fwd nb = fwd o) as Ef.
  { apply set_eq. intros svc. destruct (H svc) as [_ Hf]. unfold forwards in Hf. destruct (bool_decide_reflect (svc ∈ fwd nb)), (bool_decide_reflect (svc ∈ fwd o)); tauto || discriminate. }
  assert (svcs nb = svcs o) as Es; [|destruct nb, o; cbn in *; congruence].
  apply map_eq. intros svc. destruct (H svc) as [Hh _]. unfold has in Hh. rewrite <- Ea, <- Ec, <- Ef in Hh. destruct (nbAll nb) eqn:E.
  - cbn in Hh. injection Hh as Hh. specialize (A3 eq_refl svc). specialize (B3 ltac:(congruence) svc).
    destruct (svcs nb !! svc) as [c|], (svcs o !! svc) as [d|]; cbn in Hh; try done.
    + destruct (A3 _ eq_refl) as [_ ->], (B3 _ eq_refl) as [_ ->]. done.
    + destruct (A3 _ eq_refl) as [Hn ->]. rewrite Hn in Hh. done.
    + destruct (B3 _ eq_refl) as [Hn ->]. rewrite <- Ec in Hn. rewrite Hn in Hh. done.
  - cbn in Hh. injection Hh as H1 H2. specialize (A2 eq_refl svc). specialize (B2 ltac:(congruence) svc). rewrite <- Ef in B2.
    destruct (svcs nb !! svc) as [c|], (svcs o !! svc) as [d|]; cbn in *; try congruence.
    + symmetry in H1. apply bool_decide_eq_true in H1. by destruct (B2 H1).
    + apply bool_decide_eq_true in H1. by destruct (A2 H1).
Qed.

Lemma boundEqual_eq nb o : boundEqual nb o = true <-> nb = o.
Proof.
  unfold boundEqual. split.
  - destruct (Bool.eqb (nbAll nb) _) eqn:E1; [|done]. destruct (Bool.eqb (allClosed nb) _) eqn:E2; [|done]. destruct (Nat.eqb_spec (size (svcs nb)) (size (svcs o))) as [E3|]; [|done].
    destruct (Nat.eqb_spec (size (fwd nb)) (size (fwd o))) as [E4|]; [|done]. cbn [negb orb]. intros [H1%bool_decide_eq_true H2%bool_decide_eq_true]%andb_true_iff.
    apply eqb_prop in E1, E2. assert (svcs nb = svcs o) as E5 by (apply map_subseteq_size_eq; [apply map_subseteq_spec; exact H1|lia]).
    assert (fwd nb = fwd o) as E6 by (apply set_subseteq_size_eq; [exact H2|lia]). destruct nb, o; cbn in *; congruence.
  - intros ->. rewrite !Bool.eqb_reflx, !Nat.eqb_refl. cbn [negb orb]. apply andb_true_iff. split; apply bool_decide_eq_true; [by intros k c Hk|by intros x Hx].
Qed.

(** ** The set between two configurations *)

Section Meet.
Context (nb next : netidBound).
Definition stays (svc : string) : bool := (has nb svc).1 && (has next svc).1.

Lemma keep_svcs m svc l : svcs (foldl (keepSvc nb next) m l) !! svc =
  match svcs m !! svc with Some c => Some c | None => if existsb (fun x => bool_decide (x = svc) && stays svc) l then Some (has next svc).2 else None end.
Proof.
  rewrite (fold_claims (fun m => svcs m !! svc) _ (fun x => if bool_decide (x = svc) && stays svc then Some (has next svc).2 else None)); [by rewrite head_omap_const|].
  clear. intros m x. unfold keepSvc, stays. destruct (svcs m !! x) as [c|] eqn:E.
  - destruct (svcs m !! svc) eqn:E2; [done|]. rewrite bool_decide_false by congruence. done.
  - destruct (has nb x) as [was ?] eqn:E1, (has next x) as [is_ closed] eqn:E2. destruct (decide (x = svc)) as [->|Hne].
    + rewrite bool_decide_true, E1, E2, E by done. cbn. destruct (was && is_); [apply lookup_insert_eq|done].
    + rewrite bool_decide_false by done. cbn [andb]. destruct (was && is_); cbn [svcs]; [rewrite lookup_insert_ne by done|]; by destruct (svcs m !! svc).
Qed.

Lemma keep_flags m l : nbAll (foldl (keepSvc nb next) m l) = nbAll m /\ allClosed (foldl (keepSvc nb next) m l) = allClosed m.
Proof.
  revert m. induction l as [|x l IH]; intros m; [done|]. cbn [foldl]. destruct (IH (keepSvc nb next m x)) as [-> ->]. unfold keepSvc. destruct (svcs m !! x); [done|].
  destruct (has nb x), (has next x). by destruct (_ && _).
Qed.

(** An entry is added together with its forwarding mark. *)
Definition marked (m : netidBound) : Prop := forall svc, svc ∈ fwd m <-> is_Some (svcs m !! svc) /\ forwards next svc = true.

Lemma keep_marked m l : marked m -> marked (foldl (keepSvc nb next) m l).
Proof.
  revert m. induction l as [|x l IH]; intros m Hm; [done|]. cbn [foldl]. apply IH. unfold keepSvc. destruct (svcs m !! x) eqn:E; [done|].
  destruct (has nb x), (has next x). destruct (_ && _); [|done]. intros svc. cbn [fwd svcs]. specialize (Hm svc). destruct (decide (x = svc)) as [->|Hne].
  - rewrite lookup_insert_eq. rewrite E in Hm. destruct (forwards next svc) eqn:Ef; [split; [eauto|set_solver]|]. rewrite Hm. split; [intros [[? ?] ?]; done|by intros [_ ?]].
  - rewrite lookup_insert_ne by done. destruct (forwards next x); set_solver.
Qed.

Abbreviation keys := ((map_to_list (svcs nb)).*1 ++ (map_to_list (svcs next)).*1 ++ elements (fwd nb) ++ elements (fwd next)).

(** A service no set lists has only the answers for every service. *)
Lemma unlisted b svc : svcs b !! svc = None -> svc ∉ fwd b -> has b svc = (nbAll b, nbAll b && allClosed b) /\ forwards b svc = false.
Proof. intros H1 H2. unfold has, forwards. rewrite H1, !(bool_decide_false (svc ∈ _)) by done. cbn. by rewrite !orb_false_r. Qed.

Lemma keys_listed svc : svc ∉ keys -> svcs nb !! svc = None /\ svcs next !! svc = None /\ (svc ∉ fwd nb) /\ (svc ∉ fwd next).
Proof.
  assert (forall m : gmap string bool, svc ∉ (map_to_list m).*1 -> m !! svc = None) as Hk.
  { intros m Hn. destruct (m !! svc) eqn:E; [|done]. destruct Hn. apply list_elem_of_fmap. exists (svc, b). by rewrite elem_of_map_to_list. }
  rewrite !elem_of_app, !elem_of_elements. intros H. repeat split; try apply Hk; tauto.
Qed.

(** The meet is the services bound on both sides, with the flags of the later
    side. *)
Lemma meet_has svc : (allClosed next = true -> nbAll next = true) ->
  has (meet nb next) svc = (stays svc, stays svc && (has next svc).2) /\ forwards (meet nb next) svc = stays svc && forwards next svc.
Proof.
  intros Hc. unfold meet. cbv zeta. set (m0 := NidBound (nbAll nb && nbAll next) (nbAll nb && nbAll next && allClosed next) ∅ ∅).
  destruct (keep_flags m0 keys) as [F1 F2]. destruct (canon_has (foldl (keepSvc nb next) m0 keys) svc) as [-> ->].
  { rewrite F1, F2. cbn. by intros [? _]%andb_true_iff. }
  pose proof (keep_svcs m0 svc keys) as Hs. cbn [svcs m0] in Hs. rewrite lookup_empty in Hs. pose proof (keep_marked m0 keys) as Hm. cbn [marked m0 fwd svcs] in Hm.
  specialize (Hm ltac:(intros x; cbn; rewrite lookup_empty; split; [set_solver|by intros [[? ?] _]]) svc). rewrite Hs in Hm.
  rewrite existsb_andb in *. unfold has at 1, forwards at 1. rewrite F1, F2, Hs. cbn [nbAll allClosed m0].
  assert (nbAll nb && nbAll next = true -> stays svc = true) as Hall by (intros [E1 E2]%andb_true_iff; unfold stays, has; by rewrite E1, E2).
  assert ((nbAll next && allClosed next = true -> (has next svc).2 = true)) as Hcl by (intros E; unfold has; cbn; by rewrite E).
  destruct (existsb _ keys) eqn:Ek; cbn [andb] in *.
  - destruct (stays svc); cbn [default] in *.
    + replace (bool_decide (svc ∈ fwd _)) with (forwards next svc); [|symmetry; destruct (forwards next svc); [apply bool_decide_true|apply bool_decide_false]; rewrite Hm; naive_solver].
      split; [|done]. rewrite bool_decide_true by done. rewrite orb_true_r. cbn [orb andb]. f_equal. destruct (nbAll nb), (nbAll next), (allClosed next); cbn in *; try done. all: try (by rewrite Hcl).
    + destruct (nbAll nb && nbAll next); [by discriminate Hall|]. rewrite !(bool_decide_false) by (rewrite ?Hm; naive_solver). done.
  - assert (svc ∉ keys) as Hk.
    { intros Hin. assert (existsb (fun x => bool_decide (x = svc)) keys = true) as E; [|congruence]. apply existsb_exists. exists svc. split; [by apply list_elem_of_In|by apply bool_decide_true]. }
    destruct (keys_listed svc Hk) as (K1 & K2 & K3 & K4). unfold stays. destruct (unlisted nb svc K1 K3) as [-> _]. destruct (unlisted next svc K2 K4) as [-> ->]. cbn [fst snd].
    rewrite !(bool_decide_false) by (rewrite ?Hm; intros [[? ?] _] || intros [? ?]; done). cbn. rewrite !orb_false_r, !andb_false_r.
    split; [f_equal|done]. by destruct (nbAll nb), (nbAll next), (allClosed next).
Qed.
End Meet.

(** The bound set says exactly what the bindings say. A service is bound when a
    binding names it or names none, it fails closed when such a binding does, and
    it forwards identity when a binding that names it forwards; and the
    comparison that decides whether the data plane is told again holds for
    exactly the configurations that answer alike for every service, in
    whatever order the bindings are taken. *)
Theorem bound_set_exact (l l' : list NetIdentityMod) :
  (forall svc, has (netidBoundOf l) svc = (boundFor l svc, closedFor l svc) /\ forwards (netidBoundOf l) svc = forwardsFor l svc) /\
  (boundEqual (netidBoundOf l) (netidBoundOf l') = true <->
   forall svc, boundFor l svc = boundFor l' svc /\ closedFor l svc = closedFor l' svc /\ forwardsFor l svc = forwardsFor l' svc).
Proof.
  split; [apply bound_has|]. rewrite boundEqual_eq. split.
  - intros E svc. destruct (bound_has l svc) as [H1 H2], (bound_has l' svc) as [H3 H4]. rewrite E in *. rewrite H3 in H1. rewrite H4 in H2. naive_solver.
  - intros H. apply bound_ext; [apply bound_wf|apply bound_wf|]. intros svc. destruct (bound_has l svc) as [-> ->], (bound_has l' svc) as [-> ->].
    destruct (H svc) as (-> & -> & ->). done.
Qed.
