(* ===== verification/NetIdHolderProps.v ===== *)
(** * NetIdHolderProps: changing the bindings, and what holds after any history *)

From Stdlib Require Import Ascii String.
From S2P Require Import Prelude StoreErr RateLimit RateSync Objective Common Admission Gateway Identity Classes ClassProps NetIdText NetId NetIdTextProps NetIdProps NetIdBoundProps.

Open Scope Z_scope.
Open Scope igw_scope.

Definition modsOf (c : netidConfig) : list NetIdentityMod := (map_to_list c).*2.

Lemma modsOf_in c pm : pm ∈ modsOf c <-> exists n, c !! n = Some pm.
Proof.
  unfold modsOf. rewrite list_elem_of_fmap. split.
  - intros ([n x] & -> & H). exists n. by apply elem_of_map_to_list.
  - intros [n H]. exists (n, pm). by rewrite elem_of_map_to_list.
Qed.

Definition onAnIf (c : netidConfig) : bool := existsb (fun pm => OnInterface (nMatch pm)) (modsOf c).

Lemma seen_some env c n i : seenOf env c !! n = Some i <-> exists pm, c !! n = Some pm /\ OnInterface (nMatch pm) = true /\ i = matchIndex env (nMatch pm).
Proof.
  unfold seenOf. rewrite lookup_omap. destruct (c !! n) as [pm|]; cbn; [|by split; [|intros (? & ? & _)]]. destruct (OnInterface (nMatch pm)) eqn:E.
  - split; [intros [= <-]; eauto|]. by intros (x & [= <-] & _ & ->).
  - split; [done|]. intros (x & [= <-] & Hx & _). congruence.
Qed.

Lemma seen_size env c : negb (Nat.eqb (size (seenOf env c)) 0) = onAnIf c.
Proof.
  destruct (onAnIf c) eqn:E.
  - apply existsb_exists in E as (pm & Hin & Hif). apply list_elem_of_In, modsOf_in in Hin as [n Hn]. destruct (Nat.eqb_spec (size (seenOf env c)) 0) as [E0|]; [|done].
    apply map_size_empty_inv in E0. pose proof (seen_some env c n (matchIndex env (nMatch pm))) as H. rewrite E0, lookup_empty in H. destruct H as [_ H]. by discriminate H; exists pm.
  - assert (seenOf env c = ∅) as ->; [|done]. apply map_eq. intros n. rewrite lookup_empty. destruct (seenOf env c !! n) as [i|] eqn:En; [|done].
    apply seen_some in En as (pm & Hn & Hif & _). assert (onAnIf c = true) as E'; [|congruence]. apply existsb_exists. exists pm. split; [|done]. apply list_elem_of_In, modsOf_in. eauto.
Qed.

(** ** One commit *)

Ltac view_cases := split_and!; intros v Hv; first [by apply elem_of_nil in Hv | apply list_elem_of_singleton in Hv; rewrite Hv; done].

(** The effects of a commit, with its repeated tests resolved. *)
Lemma commit_effects env next h :
  let snap := Some (buildNetidSnapshotIf env next).1 in
  let nb := netidBoundOf (modsOf next) in
  let mid := meet (hBound h) nb in
  let early := onAnIf next || hIfMatch h in
  exists t1 t2 t4 t5, commit env next h =
    (t1 ++ t2 ++ [NidView mid snap early] ++ t4 ++ t5, NidH next nb snap (seenOf env next) (onAnIf next)) /\
  (forall v, v ∈ t1 -> v = NidView (hBound h) (hSnap h) true) /\
  (forall v, v ∈ t2 -> v = NidView mid (hSnap h) early) /\
  (forall v, v ∈ t4 -> v = NidView nb snap early) /\
  (forall v, v ∈ t5 -> v = NidView nb snap false /\ onAnIf next = false).
Proof.
  intros snap nb mid early. unfold commit, buildNetidSnapshotIf. fold (modsOf next). fold nb. fold mid. rewrite seen_size. subst early. cbn [viewOf vBound vSnap].
  exists (if onAnIf next && negb (hIfMatch h) then [NidView (hBound h) (hSnap h) true] else []).
  exists (if negb (boundEqual mid (hBound h)) then [NidView mid (hSnap h) (onAnIf next || hIfMatch h)] else []).
  exists (if negb (boundEqual nb mid) then [NidView nb snap (onAnIf next || hIfMatch h)] else []).
  exists (if negb (onAnIf next) && (onAnIf next || hIfMatch h) then [NidView nb snap false] else []).
  destruct (onAnIf next) eqn:Eo, (hIfMatch h); (destruct (boundEqual mid (hBound h)) eqn:E1; [apply boundEqual_eq in E1; rewrite <- E1|]); cbn [andb negb orb];
    (destruct (boundEqual nb mid) eqn:E2; [apply boundEqual_eq in E2|]); cbn [andb negb orb]; (split; [rewrite ?E2; reflexivity|]); view_cases.
Qed.

(** A view is backed by a configuration: its snapshot is compiled from it, every
    service it has bound has a binding there, and ingress interfaces are read
    when a binding there is on one. *)
Definition backed (c : netidConfig) (snap : option netidSnapshot) (v : netidView) : Prop :=
  vSnap v = snap /\ (forall svc, (has (vBound v) svc).1 = true -> boundFor (modsOf c) svc = true) /\ (onAnIf c = true -> vIfMatch v = true).

(** What both configurations say of a service, a view between them says too. *)
Definition agrees (c c' : netidConfig) (v : netidView) : Prop := forall svc,
  (boundFor (modsOf c) svc && boundFor (modsOf c') svc = true -> (has (vBound v) svc).1 = true) /\
  (closedFor (modsOf c) svc && closedFor (modsOf c') svc = true -> (has (vBound v) svc).2 = true) /\
  (forwardsFor (modsOf c) svc && forwardsFor (modsOf c') svc = true -> forwards (vBound v) svc = true).

Lemma closedFor_bound l svc : closedFor l svc = true -> boundFor l svc = true.
Proof. apply existsb_weaken. by intros x [? _]%andb_true_iff. Qed.

Lemma forwardsFor_bound l svc : forwardsFor l svc = true -> boundFor l svc = true.
Proof. apply existsb_weaken. intros x [H _]%andb_true_iff. unfold covers. by rewrite H, orb_true_r. Qed.

(** The set between two configurations, in their terms. *)
Lemma mid_has c next svc : let m := meet (netidBoundOf (modsOf c)) (netidBoundOf (modsOf next)) in
  let both := boundFor (modsOf c) svc && boundFor (modsOf next) svc in
  has m svc = (both, both && closedFor (modsOf next) svc) /\ forwards m svc = both && forwardsFor (modsOf next) svc.
Proof.
  intros m both. destruct (meet_has (netidBoundOf (modsOf c)) (netidBoundOf (modsOf next)) svc) as [H1 H2]; [apply bound_wf|].
  unfold m. rewrite H1, H2. unfold stays. destruct (bound_has (modsOf c) svc) as [-> _], (bound_has (modsOf next) svc) as [-> ->]. done.
Qed.

Section Commit.
Context (env : ifEnv) (next : netidConfig) (h : NetIdentityH).
Hypothesis told : hBound h = netidBoundOf (modsOf (hBindings h)).
Hypothesis reading : hIfMatch h = onAnIf (hBindings h).
Abbreviation snap' := (Some (buildNetidSnapshotIf env next).1).
Abbreviation nb' := (netidBoundOf (modsOf next)).

Lemma agrees_old b : agrees (hBindings h) next (NidView (hBound h) b true).
Proof.
  intros svc. rewrite told. cbn [vBound]. destruct (bound_has (modsOf (hBindings h)) svc) as [-> ->]. cbn [fst snd].
  repeat split; by intros [? ?]%andb_true_iff.
Qed.

Lemma agrees_new s b : agrees (hBindings h) next (NidView nb' s b).
Proof.
  intros svc. cbn [vBound]. destruct (bound_has (modsOf next) svc) as [-> ->]. cbn [fst snd]. repeat split; by intros [? ?]%andb_true_iff.
Qed.

Lemma agrees_mid s b : agrees (hBindings h) next (NidView (meet (hBound h) nb') s b).
Proof.
  intros svc. rewrite told. cbn [vBound]. destruct (mid_has (hBindings h) next svc) as [-> ->]. cbn [fst snd]. split; [done|].
  split; intros [H1 H2]%andb_true_iff; rewrite H2, andb_true_r; apply andb_true_iff; split; first [by apply closedFor_bound|by apply forwardsFor_bound].
Qed.

Lemma commit_views v : v ∈ (commit env next h).1 -> agrees (hBindings h) next v /\ (backed (hBindings h) (hSnap h) v \/ backed next snap' v).
Proof.
  destruct (commit_effects env next h) as (t1 & t2 & t4 & t5 & -> & H1 & H2 & H4 & H5). cbn [fst]. rewrite !elem_of_app, list_elem_of_singleton.
  intros [Hv|[Hv|[Hv|[Hv|Hv]]]].
  - rewrite (H1 v Hv). split; [apply agrees_old|left]. split; [done|]. split; [|done]. intros svc. rewrite told. cbn [vBound]. by destruct (bound_has (modsOf (hBindings h)) svc) as [-> _].
  - rewrite (H2 v Hv). split; [apply agrees_mid|left]. split; [done|]. split; cbn [vBound vIfMatch]; [|intros E; rewrite reading, E; apply orb_true_r].
    intros svc. rewrite told. destruct (mid_has (hBindings h) next svc) as [-> _]. by intros [? _]%andb_true_iff.
  - rewrite Hv. split; [apply agrees_mid|right]. split; [done|]. split; cbn [vBound vIfMatch]; [|by intros ->]. intros svc. rewrite told. destruct (mid_has (hBindings h) next svc) as [-> _]. by intros [_ ?]%andb_true_iff.
  - rewrite (H4 v Hv). split; [apply agrees_new|right]. split; [done|]. split; cbn [vBound vIfMatch]; [|by intros ->]. intros svc. by destruct (bound_has (modsOf next) svc) as [-> _].
  - destruct (H5 v Hv) as [-> E]. split; [apply agrees_new|right]. split; [done|]. split; cbn [vBound vIfMatch]; [|congruence]. intros svc. by destruct (bound_has (modsOf next) svc) as [-> _].
Qed.
End Commit.

Lemma commit_holder env next h : (commit env next h).2 = NidH next (netidBoundOf (modsOf next)) (Some (buildNetidSnapshotIf env next).1) (seenOf env next) (onAnIf next).
Proof. by destruct (commit_effects env next h) as (t1 & t2 & t4 & t5 & -> & _). Qed.

(** ** Keys and conflicts *)

Definition sharesKey (a b : NetIdentityMod) : Prop := exists k, k ∈ netidKeys a /\ k ∈ netidKeys b.

Definition conflictFree (c : netidConfig) : Prop :=
  forall n n' a b, c !! n = Some a -> c !! n' = Some b -> n <> n' -> sharesKey a b -> nTenant a = nTenant b.

Lemma namesOf_in c n : n ∈ namesOf c <-> is_Some (c !! n).
Proof.
  unfold namesOf, sortStrings. rewrite merge_sort_Permutation, list_elem_of_fmap. split.
  - intros ([k x] & -> & H%elem_of_map_to_list). eauto.
  - intros [x H]. exists (n, x). by rewrite elem_of_map_to_list.
Qed.

Lemma inOrder_in c pm : pm ∈ inOrder c <-> exists n, c !! n = Some pm.
Proof.
  unfold inOrder. rewrite list_elem_of_omap. split; [intros (n & _ & H); eauto|]. intros [n H]. exists n. split; [apply namesOf_in; eauto|done].
Qed.

Lemma head_omap_none {A B} (f : A -> option B) l x : head (omap f l) = None -> x ∈ l -> f x = None.
Proof.
  induction l as [|y l IH]; [set_solver|]. cbn. intros H [->|Hx]%elem_of_cons; [by destruct (f y)|]. destruct (f y); [done|by apply IH].
Qed.

Lemma noConflict c nm n other : netidConflict c nm = None -> c !! n = Some other -> n <> nName nm -> sharesKey other nm -> nTenant other = nTenant nm.
Proof.
  intros Hc Hn Hne (k & K1 & K2). unfold netidConflict in Hc. apply (head_omap_none _ _ n) in Hc; [|apply namesOf_in; eauto]. cbv beta in Hc. rewrite Hn in Hc.
  destruct (String.eqb_spec n (nName nm)); [done|]. destruct (String.eqb_spec (nTenant other) (nTenant nm)); [done|]. cbn [orb] in Hc.
  assert (existsb (fun k => bool_decide (k ∈ netidKeys nm)) (netidKeys other) = true) as E; [|by rewrite E in Hc].
  apply existsb_exists. exists k. split; [by apply list_elem_of_In|by apply bool_decide_true].
Qed.

Lemma insert_free c nm : conflictFree c -> netidConflict c nm = None -> conflictFree (<[nName nm := nm]> c).
Proof.
  intros Hf Hc n n' a b Ha Hb Hne Hk. destruct (decide (n = nName nm)) as [->|N1].
  - rewrite lookup_insert_eq in Ha. injection Ha as <-. rewrite lookup_insert_ne in Hb by done. symmetry. apply (noConflict c nm n'); [done..|]. destruct Hk as (k & ? & ?). by exists k.
  - rewrite lookup_insert_ne in Ha by done. destruct (decide (n' = nName nm)) as [->|N2].
    + rewrite lookup_insert_eq in Hb. injection Hb as <-. by apply (noConflict c nm n).
    + rewrite lookup_insert_ne in Hb by done. by apply (Hf n n').
Qed.

(** ** Histories *)

Inductive nidOp := OpAdd (env : ifEnv) (pm : option NetIdentityMod) | OpDel (env : ifEnv) (name : string) | OpRefresh (env : ifEnv).

(** What the gate could observe in a step, and the holder after it. *)
Definition nidStep (h : NetIdentityH) (op : nidOp) : list netidView * NetIdentityH :=
  match op with
  | OpAdd env pm => let '(_, t, h') := BindingAdd env pm h in (t, h')
  | OpDel env name => let '(_, t, h') := BindingDel env name h in (t, h')
  | OpRefresh env => refresher env h
  end.

Definition nidRun (h : NetIdentityH) (ops : list nidOp) : NetIdentityH := foldl (fun h op => (nidStep h op).2) h ops.

(** A forwarding configuration stays within what the data plane can name. *)
Definition roomOk (c : netidConfig) : Prop :=
  existsb nForwardIdentity (modsOf c) = true -> (size (list_to_set (modsOf c ≫= nServices) : gset string) <= netidBoundSvcMax)%nat.

Record holderOk (h : NetIdentityH) : Prop := {
  ho_stored : forall n pm, hBindings h !! n = Some pm -> nName pm = n /\ storedOk pm;
  ho_free : conflictFree (hBindings h);
  ho_room : roomOk (hBindings h);
  ho_many : (size (hBindings h) <= netidMaxBindings)%nat;
  ho_bound : hBound h = netidBoundOf (modsOf (hBindings h));
  ho_if : hIfMatch h = onAnIf (hBindings h);
  ho_snap : exists env, hSnap h = Some (buildNetidSnapshotIf env (hBindings h)).1 /\ hIfSeen h = seenOf env (hBindings h)
}.

Lemma new_ok env : holderOk (newNetIdentityH env).
Proof.
  split; cbn [newNetIdentityH hBindings hBound hIfMatch hSnap hIfSeen].
  - intros n pm. by rewrite lookup_empty.
  - intros n n' a b. by rewrite lookup_empty.
  - intros H. unfold modsOf in H. rewrite map_to_list_empty in H. done.
  - rewrite map_size_empty. lia.
  - unfold modsOf. by rewrite map_to_list_empty.
  - unfold onAnIf, modsOf. by rewrite map_to_list_empty.
  - exists (IfEnv (ifIndex env) None). split; [done|]. unfold seenOf. by rewrite omap_empty.
Qed.

Lemma holder_commit_ok env next h : (forall n pm, next !! n = Some pm -> nName pm = n /\ storedOk pm) -> conflictFree next -> roomOk next -> (size next <= netidMaxBindings)%nat -> holderOk (commit env next h).2.
Proof. intros H1 H2 H3 H4. rewrite commit_holder. split; cbn [hBindings hBound hIfMatch hSnap hIfSeen]; try done. by exists env. Qed.

Lemma fwdRoom_ok next nm : netidFwdRoomErr next nm = None -> roomOk next.
Proof.
  unfold netidFwdRoomErr, roomOk. fold (modsOf next). cbv zeta. intros H Hf. rewrite Hf in H. cbn [negb orb] in H.
  destruct (Nat.leb_spec (size (list_to_set (modsOf next ≫= nServices) : gset string)) netidBoundSvcMax); done.
Qed.

Lemma delete_room c n : roomOk c -> roomOk (delete n c).
Proof.
  assert (forall pm, pm ∈ modsOf (delete n c) -> pm ∈ modsOf c) as Hsub.
  { intros pm [k Hk]%modsOf_in. apply modsOf_in. exists k. by apply lookup_delete_Some in Hk as [_ ?]. }
  intros H Hf. etrans; [|apply H].
  - apply subseteq_size. intros s. rewrite !elem_of_list_to_set, !list_elem_of_bind. intros (pm & Hs & Hin). eauto.
  - apply existsb_exists in Hf as (pm & Hin & Hf). apply existsb_exists. exists pm. split; [|done]. apply list_elem_of_In, Hsub, list_elem_of_In, Hin.
Qed.

Lemma BindingAdd_ok env pm h : holderOk h -> holderOk (BindingAdd env pm h).2.
Proof.
  intros Hok. unfold BindingAdd. destruct (netidNormalize pm) as [nm|] eqn:En; [|done]. destruct (_ && _) eqn:Em; [done|]. destruct (netidConflict _ nm) eqn:Ec; [done|].
  destruct (netidFwdRoomErr _ nm) eqn:Er; [done|]. destruct (commit env _ h) as [t h'] eqn:E. cbn [snd].
  replace h' with (commit env (<[nName nm:=nm]> (hBindings h)) h).2 by by rewrite E. destruct Hok as [H1 H2 H3 H4 _ _ _]. apply holder_commit_ok.
  - intros n x. destruct (decide (n = nName nm)) as [->|]; [rewrite lookup_insert_eq; intros [= <-]; split; [done|by eapply normalize_stored]|].
    rewrite lookup_insert_ne by done. apply H1.
  - by apply insert_free.
  - by eapply fwdRoom_ok.
  - rewrite map_size_insert. destruct (hBindings h !! nName nm) eqn:El; [done|]. rewrite bool_decide_true in Em by done. cbn [andb] in Em. apply Nat.leb_gt in Em. lia.
Qed.

Lemma BindingDel_ok env name h : holderOk h -> holderOk (BindingDel env name h).2.
Proof.
  intros Hok. unfold BindingDel. destruct (hBindings h !! name) as [pm|] eqn:El; [|done]. destruct (commit env _ h) as [t h'] eqn:E. cbn [snd].
  replace h' with (commit env (delete name (hBindings h)) h).2 by by rewrite E. destruct Hok as [H1 H2 H3 H4 _ _ _]. apply holder_commit_ok.
  - intros n x [_ Hn]%lookup_delete_Some. by apply H1.
  - intros n n' a b [_ Ha]%lookup_delete_Some [_ Hb]%lookup_delete_Some. by apply (H2 n n').
  - by apply delete_room.
  - rewrite map_size_delete. destruct (hBindings h !! name); cbn; lia.
Qed.

Lemma refresher_ok env h : holderOk h -> holderOk (refresher env h).2.
Proof.
  intros Hok. unfold refresher, refresh. destruct (hIfMatch h); [|done]. destruct (buildNetidSnapshotIf env (hBindings h)) as [s now]. destruct (negb (moved h now)); [done|].
  destruct (commit env (hBindings h) h) as [t h'] eqn:E. cbn [snd]. replace h' with (commit env (hBindings h) h).2 by by rewrite E. destruct Hok. by apply holder_commit_ok.
Qed.

Lemma run_ok env0 ops : holderOk (nidRun (newNetIdentityH env0) ops).
Proof.
  unfold nidRun. assert (forall h, holderOk h -> holderOk (foldl (fun h op => (nidStep h op).2) h ops)) as H; [|apply H, new_ok].
  induction ops as [|op ops IH]; intros h Hh; [done|]. apply IH. destruct op as [env pm|env name|env]; cbn [nidStep].
  - pose proof (BindingAdd_ok env pm h Hh). by destruct (BindingAdd env pm h) as [[? ?] ?].
  - pose proof (BindingDel_ok env name h Hh). by destruct (BindingDel env name h) as [[? ?] ?].
  - by apply refresher_ok.
Qed.

(** ** Ties share a key *)

Definition keyScopes (pm : NetIdentityMod) : list string := match nServices pm with [] => [""%string] | l => l end.

Definition keyMatches (m : NetIdentityMatch) : list string * string :=
  match netidIfName m None with
  | Some ifName => ([ifName], "ingress_if "%string)
  | None => if negb (IPsecTunnel m ==s "") then ([IPsecTunnel m], "ipsec_tunnel "%string) else (CIDR m, "cidr "%string)
  end.

Lemma keys_in pm sc m : sc ∈ keyScopes pm -> m ∈ (keyMatches (nMatch pm)).1 -> (sc +:+ "|" +:+ (keyMatches (nMatch pm)).2 +:+ m)%string ∈ netidKeys pm.
Proof.
  intros Hs Hm. unfold netidKeys. fold (keyScopes pm). fold (keyMatches (nMatch pm)). destruct (keyMatches (nMatch pm)) as [ms kind]. cbn [fst snd] in *.
  apply list_elem_of_bind. exists sc. split; [|done]. apply list_elem_of_bind. exists m. split; [by left|done].
Qed.

Lemma shared_key a b sc m : sc ∈ keyScopes a -> sc ∈ keyScopes b -> (keyMatches (nMatch a)).2 = (keyMatches (nMatch b)).2 ->
  m ∈ (keyMatches (nMatch a)).1 -> m ∈ (keyMatches (nMatch b)).1 -> sharesKey a b.
Proof. intros H1 H2 E H3 H4. eexists. split; [by apply (keys_in a sc m)|]. rewrite E. by apply keys_in. Qed.

(** The scope two bindings share when both bear on a service and both name it, or neither does. *)
Lemma shared_scope svc a b : appliesTo svc a = true -> appliesTo svc b = true -> namesSvc a = namesSvc b -> exists sc, sc ∈ keyScopes a /\ sc ∈ keyScopes b.
Proof.
  unfold appliesTo, namesSvc, keyScopes. destruct (nServices a), (nServices b); try done; intros H1 H2 _.
  - exists ""%string. set_solver.
  - apply bool_decide_eq_true in H1, H2. by exists svc.
Qed.

Lemma matchIndex_pos env m : 0 < matchIndex env m -> exists n, netidIfName m (tunnelIf env) = Some n /\ ifIndex env n = Some (matchIndex env m).
Proof.
  unfold matchIndex. destruct (netidIfName m (tunnelIf env)) as [n|]; [|lia]. destruct (ifIndex env n) as [i|] eqn:E; [|lia]. destruct (Z.ltb_spec 0 i); [|lia]. eauto.
Qed.

Lemma matchOk_if m tun : matchOk m -> OnInterface m = true ->
  (IPsecTunnel m = ""%string /\ exists n, netidIfName m tun = Some n /\ keyMatches m = ([n], "ingress_if "%string)) \/
  (IPsecTunnel m <> ""%string /\ keyMatches m = ([IPsecTunnel m], "ipsec_tunnel "%string)).
Proof.
  unfold keyMatches, netidIfName. destruct 1 as [n Hn|v Hv|v Hv|t Ht|ps]; cbn [IngressIf Vlan Vni IPsecTunnel OnInterface CIDR].
  - destruct (String.eqb_spec n ""); [done|]. left. eauto.
  - destruct (Z.eqb_spec v 0); [lia|]. left. eauto.
  - destruct (Z.eqb_spec v 0); [lia|]. left. eauto.
  - apply nameOK_noSpace in Ht as [_ Ht]. destruct (String.eqb_spec t ""); [done|]. right. done.
  - done.
Qed.

Lemma matchOk_net m : matchOk m -> OnInterface m = false -> keyMatches m = (CIDR m, "cidr "%string) /\ forall c p, c ∈ CIDR m -> ParsePrefix4 c = Some p -> c = showPrefix p.
Proof.
  unfold keyMatches, netidIfName, OnInterface. destruct 1 as [n Hn|v Hv|v Hv|t Ht|ps Hne Hw]; cbn [IngressIf Vlan Vni IPsecTunnel CIDR].
  - destruct (String.eqb_spec n ""); done.
  - destruct (Z.eqb_spec v 0); [lia|done].
  - destruct (Z.eqb_spec v 0); [lia|done].
  - apply nameOK_noSpace in Ht as [_ Ht]. destruct (String.eqb_spec t ""); done.
  - intros _. split; [done|]. intros c p Hc Hp. apply list_elem_of_In, in_map_iff in Hc as (q & <- & Hq). rewrite Forall_forall in Hw.
    destruct (Hw q ltac:(by apply list_elem_of_In)) as (Ha & Hb & _). rewrite prefix_roundtrip in Hp by done. by injection Hp as ->.
Qed.

Lemma score_on_if env ip ifindex svc pm : OnInterface (nMatch pm) = true -> 0 <= specificity env ip ifindex svc pm ->
  appliesTo svc pm = true /\ 0 < ifindex /\ matchIndex env (nMatch pm) = ifindex /\ specificity env ip ifindex svc pm = 66 + namesSvc pm.
Proof.
  intros Hif. unfold specificity. rewrite Hif. destruct (appliesTo svc pm); cbn [negb]; [|lia]. destruct (Z.ltb_spec 0 ifindex); [|cbn; lia].
  destruct (Z.eqb_spec (matchIndex env (nMatch pm)) ifindex); cbn [andb]; [|lia]. done.
Qed.

Section Tie.
Context (env : ifEnv) (ip : option Z) (ifindex : Z) (svc : string) (a b : NetIdentityMod).
Hypothesis inj : forall n n' i, ifIndex env n = Some i -> ifIndex env n' = Some i -> n = n'.
Hypothesis apart : forall n, netidIfName (nMatch a) (tunnelIf env) = Some n -> netidIfName (nMatch b) (tunnelIf env) = Some n -> IPsecTunnel (nMatch a) = IPsecTunnel (nMatch b).
Hypothesis okA : matchOk (nMatch a).
Hypothesis okB : matchOk (nMatch b).
Hypothesis tie : specificity env ip ifindex svc a = specificity env ip ifindex svc b.
Hypothesis hit : 0 <= specificity env ip ifindex svc a.

Lemma tie_on_if : OnInterface (nMatch a) = true -> OnInterface (nMatch b) = true -> sharesKey a b.
Proof.
  intros Ia Ib. destruct (score_on_if env ip ifindex svc a Ia hit) as (A1 & Hi & A2 & A3). destruct (score_on_if env ip ifindex svc b Ib) as (B1 & _ & B2 & B3); [lia|].
  destruct (shared_scope svc a b A1 B1) as (sc & S1 & S2); [lia|].
  destruct (matchIndex_pos env (nMatch a)) as (n & N1 & N2); [lia|]. destruct (matchIndex_pos env (nMatch b)) as (n' & N1' & N2'); [lia|].
  assert (n = n') as <- by (apply (inj n n' ifindex); congruence). pose proof (apart n N1 N1') as Et.
  destruct (matchOk_if _ (tunnelIf env) okA Ia) as [(Ta & x & X1 & X2)|(Ta & X2)], (matchOk_if _ (tunnelIf env) okB Ib) as [(Tb & y & Y1 & Y2)|(Tb & Y2)]; try congruence.
  - apply (shared_key a b sc n); rewrite ?X2, ?Y2; try done; [assert (x = n) as -> by congruence|assert (y = n) as -> by congruence]; by left.
  - apply (shared_key a b sc (IPsecTunnel (nMatch a))); rewrite ?X2, ?Y2; try done; [by left|rewrite Et; by left].
Qed.

Lemma tie_on_net : OnInterface (nMatch a) = false -> OnInterface (nMatch b) = false -> sharesKey a b.
Proof.
  intros Ia Ib. destruct ip as [x|] eqn:Eip; [|exfalso; revert hit; unfold specificity; rewrite Ia; destruct (negb _); lia].
  destruct (score_claimsNet env (Some x) ifindex svc a x eq_refl hit Ia) as (bits & _ & A1 & A2).
  destruct (score_claimsNet env (Some x) ifindex svc b x eq_refl ltac:(lia) Ib) as (bits' & _ & B1 & B2).
  assert (namesSvc a = namesSvc b /\ bits' = bits) as [En ->] by (destruct (namesSvc_01 a), (namesSvc_01 b); lia). 
  unfold claimsNet in A2, B2. rewrite inScope_at in A2, B2 by apply namesSvc_01. apply andb_true_iff in A2 as [[_ A2]%andb_true_iff [A3 _]%andb_true_iff], B2 as [[_ B2]%andb_true_iff [B3 _]%andb_true_iff].
  destruct (shared_scope svc a b A3 B3 En) as (sc & S1 & S2). destruct (matchOk_net _ okA Ia) as [KA PA], (matchOk_net _ okB Ib) as [KB PB].
  apply existsb_exists in A2 as (c & Hc%list_elem_of_In & Pc%bool_decide_eq_true), B2 as (d & Hd%list_elem_of_In & Pd%bool_decide_eq_true).
  apply (shared_key a b sc c); rewrite ?KA, ?KB; try done. cbn. by rewrite (PA c _ Hc Pc), <- (PB d _ Hd Pd).
Qed.

Lemma tie_shares_key : sharesKey a b.
Proof.
  destruct (OnInterface (nMatch a)) eqn:Ia, (OnInterface (nMatch b)) eqn:Ib; [by apply tie_on_if| | |by apply tie_on_net]; exfalso.
  - destruct (score_on_if env ip ifindex svc a Ia hit) as (_ & _ & _ & A3). pose proof (score_net_le env ip ifindex svc b Ib). destruct (namesSvc_01 a); lia.
  - destruct (score_on_if env ip ifindex svc b Ib ltac:(lia)) as (_ & _ & _ & B3). pose proof (score_net_le env ip ifindex svc a Ia). destruct (namesSvc_01 b); lia.
Qed.
End Tie.

(** ** The snapshot follows the interfaces *)

Lemma addBinding_env env env' pm s : (OnInterface (nMatch pm) = true -> matchIndex env (nMatch pm) = matchIndex env' (nMatch pm)) -> addBinding env pm s = addBinding env' pm s.
Proof. intros H. unfold addBinding. destruct (OnInterface (nMatch pm)); [|done]. by rewrite (H eq_refl). Qed.

Lemma build_env env env' c : (forall pm, pm ∈ inOrder c -> OnInterface (nMatch pm) = true -> matchIndex env (nMatch pm) = matchIndex env' (nMatch pm)) ->
  (buildNetidSnapshotIf env c).1 = (buildNetidSnapshotIf env' c).1.
Proof.
  cbn [buildNetidSnapshotIf fst]. generalize emptySnapshot. induction (inOrder c) as [|pm l IH]; intros s H; [done|]. cbn [foldl].
  rewrite (addBinding_env env env') by (apply H; by left). apply IH. intros x Hx. apply H. by right.
Qed.

Lemma refresh_eq env h : refresh env h = if negb (moved h (seenOf env (hBindings h))) then (false, [], h) else let '(t, h') := commit env (hBindings h) h in (true, t, h').
Proof. reflexivity. Qed.

Lemma refresher_current env h : holderOk h -> hBindings (refresher env h).2 = hBindings h /\ hSnap (refresher env h).2 = Some (buildNetidSnapshotIf env (hBindings h)).1.
Proof.
  intros [_ _ _ _ _ Hif (env0 & Hsn & Hseen)]. unfold refresher. destruct (hIfMatch h) eqn:Em.
  - rewrite refresh_eq. destruct (moved h (seenOf env (hBindings h))) eqn:Emv; cbn [negb].
    + destruct (commit env (hBindings h) h) as [t h'] eqn:E. assert (h' = (commit env (hBindings h) h).2) as -> by by rewrite E. cbn [snd]. by rewrite commit_holder.
    + split; [done|]. cbn [snd]. rewrite Hsn. f_equal. apply build_env. intros pm [n Hn]%inOrder_in Hon. unfold moved in Emv. rewrite Hseen in Emv.
      destruct (decide (matchIndex env0 (nMatch pm) = matchIndex env (nMatch pm))) as [|Hne]; [done|]. exfalso.
      assert (existsb (fun p => default 0 (seenOf env0 (hBindings h) !! p.1) !=? p.2) (map_to_list (seenOf env (hBindings h))) = true) as E; [|congruence].
      apply existsb_exists. exists (n, matchIndex env (nMatch pm)). split; [apply list_elem_of_In, elem_of_map_to_list, seen_some; eauto|]. cbn [fst snd].
      assert (seenOf env0 (hBindings h) !! n = Some (matchIndex env0 (nMatch pm))) as -> by (apply seen_some; eauto). cbn. by destruct (Z.eqb_spec (matchIndex env0 (nMatch pm)) (matchIndex env (nMatch pm))).
  - cbn [snd]. split; [done|]. rewrite Hsn. f_equal. apply build_env. intros pm Hin Hon. exfalso. symmetry in Hif. assert (onAnIf (hBindings h) = true) as E; [|congruence].
    apply existsb_exists. exists pm. split; [|done]. by apply list_elem_of_In, modsOf_in, inOrder_in.
Qed.

(** ** The classes the snapshot serves *)

Lemma scopes_rest f l s : classOf (foldl (fun s sc => updTable sc f s) s l) = classOf s /\ lowers (foldl (fun s sc => updTable sc f s) s l) = lowers s.
Proof. revert s. induction l as [|sc l IH]; intros s; [done|]. cbn [foldl]. destruct (IH (updTable sc f s)) as [-> ->]. by destruct sc. Qed.

Lemma addBinding_class env pm s : classOf (addBinding env pm s) = <[nName pm := nPriorityClass pm]> (classOf s) /\
  lowers (addBinding env pm s) = (nPriorityClass pm ==s NetIdentityClassSheddable) || lowers s.
Proof.
  unfold addBinding. match goal with |- context [foldl (fun s sc => updTable sc (fun t => t) s) ?s0 ?l] => destruct (scopes_rest (fun t => t) l s0) as [H1 H2] end.
  cbn [compileBinding bName bClass classOf lowers] in *. revert H1 H2. set (s1 := foldl (fun s sc => updTable sc (fun t => t) s) _ _). clearbody s1. intros H1 H2.
  assert (lowers s1 = (nPriorityClass pm ==s NetIdentityClassSheddable) || lowers s) as H2' by (rewrite H2; by destruct (_ ==s _)). rewrite <- H1, <- H2'. clear.
  destruct (OnInterface _); [destruct (_ >? 0); [apply scopes_rest|done]|]. revert s1. induction (CIDR (nMatch pm)) as [|c l IH]; intros s1; [done|]. cbn [foldl].
  destruct (ParsePrefix4 c) as [pfx|]; [|apply IH]. match goal with |- context [foldl _ (foldl ?f s1 ?scs) l] => destruct (IH (foldl f s1 scs)) as [-> ->] end. apply scopes_rest.
Qed.

Lemma build_class env l s : classOf (foldl (fun s pm => addBinding env pm s) s l) = foldl (fun m pm => <[nName pm := nPriorityClass pm]> m) (classOf s) l /\
  lowers (foldl (fun s pm => addBinding env pm s) s l) = lowers s || existsb (fun pm => nPriorityClass pm ==s NetIdentityClassSheddable) l.
Proof.
  revert s. induction l as [|pm l IH]; intros s; cbn [foldl existsb]; [by rewrite orb_false_r|]. destruct (IH (addBinding env pm s)) as [-> ->], (addBinding_class env pm s) as [-> ->].
  split; [done|]. by rewrite (orb_comm _ (lowers s)), orb_assoc.
Qed.

(** The class a binding's name resolves to is the stored binding's, and the switch
    that keeps classes in force for a lowered binding is on exactly when one of
    them is sheddable. *)
Theorem served_class_is_stored (env0 : ifEnv) (ops : list nidOp) (name : string) :
  let h := nidRun (newNetIdentityH env0) ops in
  netidClassOf (Some h) name = default ""%string (nPriorityClass <$> (hBindings h !! name)) /\
  netidLowersClass (Some h) = existsb (fun pm => nPriorityClass pm ==s NetIdentityClassSheddable) (inOrder (hBindings h)).
Proof.
  intros h. assert (holderOk h) as Hh by apply run_ok. destruct (ho_snap _ Hh) as (env & Hs & _). unfold netidClassOf, netidLowersClass. rewrite Hs.
  cbn [buildNetidSnapshotIf fst]. destruct (build_class env (inOrder (hBindings h)) emptySnapshot) as [-> ->]. split; [|done]. cbn [classOf emptySnapshot].
  assert (forall x, x ∈ inOrder (hBindings h) -> hBindings h !! nName x = Some x) as Hname.
  { intros x [n Hn]%inOrder_in. by destruct (ho_stored _ Hh n x Hn) as [-> _]. }
  destruct (hBindings h !! name) as [pm|] eqn:El; cbn [fmap option_fmap option_map default].
  - destruct (ho_stored _ Hh name pm El) as [<- Hst]. destruct (String.eqb_spec (nName pm) "") as [E|]; [pose proof (so_name _ Hst) as Hn; by rewrite E in Hn|].
    rewrite (foldl_insert_elem nName nPriorityClass); [done| |apply inOrder_in; eauto].
    intros y z Hy%Hname Hz%Hname E. congruence.
  - rewrite (foldl_insert_ne nName nPriorityClass); [by destruct (_ ==s _)|]. intros x Hx%Hname E. congruence.
Qed.

Lemma mostSpecific_max score l pm x : mostSpecific score l = Some pm -> x ∈ l -> score x <= score pm.
Proof.
  revert pm. induction l as [|y l IH]; intros pm; [set_solver|]. cbn [mostSpecific]. destruct (mostSpecific score l) as [o|] eqn:E.
  - specialize (IH o eq_refl). destruct (Z.leb_spec (score o) (score y)); intros [= <-] [->|Hx]%elem_of_cons; try lia; specialize (IH Hx); lia.
  - destruct (Z.leb_spec 0 (score y)); intros [= <-] [->|Hx]%elem_of_cons; try lia.
    destruct (decide (0 <= score x)) as [H0|]; [|lia]. exfalso. revert E Hx H0. clear. induction l as [|z l IH]; [set_solver|]. cbn [mostSpecific].
    destruct (mostSpecific score l) as [o|]; [by destruct (_ >=? _)|]. destruct (Z.leb_spec 0 (score z)); [done|]. intros _ [->|Hx]%elem_of_cons; [lia|auto].
Qed.


Lemma name_fits pm : storedOk pm -> (String.length (nName pm) <= 63)%nat.
Proof.
  intros H. pose proof (so_name _ H) as Hn. unfold netidNameOK in Hn. destruct (nName pm) as [|c r]; [done|].
  apply andb_true_iff in Hn as [[Hn _]%andb_true_iff _]. apply negb_true_iff, Nat.ltb_ge in Hn. exact Hn.
Qed.

(** What the gate is told of the binding a request resolved to. *)
Definition gateAnswerOf (model : string) (pm : NetIdentityMod) : ai_gw_netid_t :=
  GwNetid 1 (b2z (nEnforce pm ==s NetIdentityEnforceStrict)) (b2z (nCredential pm ==s NetIdentityCredentialNetwork))
    (b2z (bool_decide (nAllowedModels pm = []) || bool_decide (model ∈ nAllowedModels pm))) (b2z (nForwardIdentity pm)) (nTenant pm) (nName pm).

(** C14: the gate is answered from the most specific binding, in full. After any
    history and a refresh on the node's present interfaces the export never fails,
    answers "unmatched" (a zeroed result) exactly when no stored binding matches,
    and otherwise gives the fields of the most specific one: an interface before
    any network, a longer network before a shorter, a binding that names the
    service before one for every service, then the first by name; its tenant and
    name fit the fixed-size fields uncut. *)
Theorem gate_answer_is_most_specific (mapped4 : string -> option Z) (env0 : ifEnv) (ops : list nidOp) (env : ifEnv) (clientIP : string) (ifindex : Z) (svc model : string) :
  let h := (refresher env (nidRun (newNetIdentityH env0) ops)).2 in
  llb_ai_netid_resolve mapped4 (Some h) clientIP ifindex svc model =
  (0, match mostSpecific (specificity env (clientAddr mapped4 clientIP) ifindex svc) (inOrder (hBindings h)) with
      | None => GwNetid 0 0 0 0 0 "" ""
      | Some pm => gateAnswerOf model pm
      end).
Proof.
  intros h. assert (holderOk (nidRun (newNetIdentityH env0) ops)) as H0 by apply run_ok. assert (holderOk h) as Hh by by apply refresher_ok.
  destruct (refresher_current env _ H0) as [Eb Es]. fold h in Eb, Es. rewrite <- Eb in Es. unfold llb_ai_netid_resolve, netidAnswerFor. rewrite Es.
  cbn [buildNetidSnapshotIf fst]. rewrite resolve_list. destruct (mostSpecific _ _) as [pm|] eqn:Em; cbn [fmap option_fmap option_map]; [|reflexivity].
  cbn [matched negb aTenant aBinding]. apply mostSpecific_in in Em as [[n Hn]%inOrder_in _]. destruct (ho_stored _ Hh n pm Hn) as [_ Hst].
  cbn [compileBinding bTenant bName]. rewrite (cCopyStr_fits _ 127) by apply (so_tenant _ Hst). rewrite (cCopyStr_fits _ 63) by by apply name_fits. unfold gateAnswerOf.
  do 2 f_equal. unfold modelOK. cbn [compileBinding bModels aModelOK]. destruct (nAllowedModels pm) as [|m l]; [reflexivity|]. rewrite (bool_decide_false (m :: l = [])) by done. reflexivity.
Qed.

(** C13: a source never has two tenants. After any history and a refresh on the
    node's present interfaces, no binding that matches a request as specifically
    as any other is for a tenant other than the one the request resolves to,
    provided an interface index stands for one name and no tunnel's interface is
    also bound by another match. *)
Theorem one_tenant_per_source (env0 : ifEnv) (ops : list nidOp) (env : ifEnv) :
  let h := (refresher env (nidRun (newNetIdentityH env0) ops)).2 in
  (forall n n' i, ifIndex env n = Some i -> ifIndex env n' = Some i -> n = n') ->
  (forall a b n, a ∈ modsOf (hBindings h) -> b ∈ modsOf (hBindings h) -> netidIfName (nMatch a) (tunnelIf env) = Some n -> netidIfName (nMatch b) (tunnelIf env) = Some n ->
     IPsecTunnel (nMatch a) = IPsecTunnel (nMatch b)) ->
  exists s, hSnap h = Some s /\
  forall ip ifindex svc pm b, resolve s ip ifindex svc = Some b -> pm ∈ modsOf (hBindings h) ->
    (forall x, x ∈ modsOf (hBindings h) -> specificity env ip ifindex svc x <= specificity env ip ifindex svc pm) -> nTenant pm = bTenant b.
Proof.
  intros h Hinj Hap. assert (holderOk (nidRun (newNetIdentityH env0) ops)) as H0 by apply run_ok. assert (holderOk h) as Hh by by apply refresher_ok.
  destruct (refresher_current env _ H0) as [Eb Es]. fold h in Eb, Es. rewrite <- Eb in Es. eexists. split; [exact Es|]. intros ip ifindex svc pm b Hr Hpm Hmax.
  cbn [buildNetidSnapshotIf fst] in Hr. rewrite resolve_list in Hr. apply fmap_Some in Hr as (o & Ho & ->). cbn [compileBinding bTenant].
  pose proof (mostSpecific_in _ _ _ Ho) as [Hin Hpos]. apply inOrder_in in Hin as Hino. apply modsOf_in in Hino. specialize (Hmax o Hino) as Hle.
  assert (specificity env ip ifindex svc pm <= specificity env ip ifindex svc o) as Hge.
  { eapply mostSpecific_max; [exact Ho|]. by apply inOrder_in, modsOf_in. }
  apply modsOf_in in Hpm as Hn, Hino as Hn'. destruct Hn as [n Hn], Hn' as [n' Hn']. destruct (decide (n = n')) as [->|Hne]; [by rewrite Hn in Hn'; injection Hn' as ->|].
  apply (ho_free _ Hh n n' pm o Hn Hn' Hne). apply (tie_shares_key env ip ifindex svc); try lia; [exact Hinj|intros k; by apply Hap| |]; [apply (ho_stored _ Hh n pm Hn)|apply (ho_stored _ Hh n' o Hn')].
Qed.

(** ** On a node *)

Definition demoIf (tun : option (string -> option string)) : ifEnv := IfEnv (fun n => if n ==s "vti1" then Some 7 else if n ==s "vlan20" then Some 5 else None) tun.
Definition demoBinding (name tenant : string) (m : NetIdentityMatch) : NetIdentityMod := NidMod name m [] tenant [] "" "" false "" "".
Definition netOf (c : string) : NetIdentityMatch := NidMatch [c] "" 0 0 "".

(** Two bindings for one network and tenant, and one for a wider network of another. *)
Definition demoOps : list nidOp :=
  [OpAdd (demoIf None) (Some (demoBinding "b" "acme" (netOf "10.1.0.0/16"))); OpAdd (demoIf None) (Some (demoBinding "a" "acme" (netOf "10.1.0.0/16")));
   OpAdd (demoIf None) (Some (demoBinding "c" "umbra" (netOf "10.0.0.0/8"))); OpAdd (demoIf None) (Some (demoBinding "d" "umbra" (netOf "10.1.0.0/16")))].

(** With no tunnel known, only fixed names are claimed. *)
Lemma noTunnel m n : matchOk m -> netidIfName m None = Some n -> IPsecTunnel m = ""%string.
Proof.
  unfold netidIfName. destruct 1 as [x Hn|v Hv|v Hv|t Ht|ps]; cbn [IngressIf Vlan Vni IPsecTunnel]; try done. cbn. destruct (t ==s "") eqn:E; [by apply String.eqb_eq in E|done].
Qed.

Lemma one_tenant_witness :
  let h := (refresher (demoIf None) (nidRun (newNetIdentityH (demoIf None)) demoOps)).2 in
  map nName (inOrder (hBindings h)) = ["a"; "b"; "c"]%string /\
  exists s b, hSnap h = Some s /\ resolve s (Some 167837953) 0 "192.0.2.1:80" = Some b /\ bName b = "a"%string /\ bTenant b = "acme"%string /\
    forall pm, pm ∈ modsOf (hBindings h) -> (forall x, x ∈ modsOf (hBindings h) -> specificity (demoIf None) (Some 167837953) 0 "192.0.2.1:80" x <= specificity (demoIf None) (Some 167837953) 0 "192.0.2.1:80" pm) ->
    nTenant pm = "acme"%string.
Proof.
  intros h. split; [vm_compute; reflexivity|]. destruct (one_tenant_per_source (demoIf None) demoOps (demoIf None)) as (s & Hs & H).
  - intros n n' i. cbn. destruct (String.eqb_spec n "vti1") as [->|N1], (String.eqb_spec n' "vti1") as [->|N2]; try done;
      try destruct (String.eqb_spec n "vlan20") as [->|N3]; try destruct (String.eqb_spec n' "vlan20") as [->|N4]; congruence.
  - intros a b n [ka Ha]%modsOf_in [kb Hb]%modsOf_in Na Nb. assert (holderOk h) as Hh by apply refresher_ok, run_ok.
    destruct (ho_stored _ Hh ka a Ha) as [_ Sa], (ho_stored _ Hh kb b Hb) as [_ Sb]. rewrite (noTunnel _ _ (so_match _ Sa) Na), (noTunnel _ _ (so_match _ Sb) Nb). reflexivity.
  - exists s. fold h in Hs, H. destruct (resolve s (Some 167837953) 0 "192.0.2.1:80") as [b|] eqn:Er.
    + exists b. split; [exact Hs|]. split; [reflexivity|]. assert (bName b = "a" /\ bTenant b = "acme")%string as [E1 E2].
      { vm_compute in Hs. injection Hs as <-. vm_compute in Er. injection Er as <-. split; reflexivity. }
      split; [exact E1|]. split; [exact E2|]. intros pm Hin Hmax. rewrite <- E2. exact (H _ _ _ pm b Er Hin Hmax).
    + exfalso. vm_compute in Hs. injection Hs as <-. vm_compute in Er. discriminate Er.
Defined.

(** A tunnel binding and a binding on the tunnel's interface are accepted for two
    tenants and then match the same request equally: the name decides. *)
Lemma tunnel_interface_two_tenants :
  let env := demoIf (Some (fun t => if t ==s "office" then Some "vti1"%string else None)) in
  let add h pm := BindingAdd env (Some pm) h in
  let tun := demoBinding "z" "acme" (NidMatch [] "" 0 0 "office") in
  let ifb := demoBinding "a" "umbra" (NidMatch [] "vti1" 0 0 "") in
  let '(r1, _, h1) := add (newNetIdentityH env) tun in
  let '(r2, _, h2) := add h1 ifb in
  r1 = None /\ r2 = None /\ specificity env None 7 "192.0.2.1:80" tun = specificity env None 7 "192.0.2.1:80" ifb /\
  (bTenant <$> (hSnap h1 ≫= fun s => resolve s None 7 "192.0.2.1:80")) = Some "acme"%string /\
  (bTenant <$> (hSnap h2 ≫= fun s => resolve s None 7 "192.0.2.1:80")) = Some "umbra"%string.
Proof. vm_compute. repeat split. Qed.
