(* ===== verification/JsonTok.v ===== *)
(** * JsonTok: JSON documents as the token stream of encoding/json

    What pkg/jwtauth uses of Go's encoding/json: the stream that
    [json.Decoder.Token] gives with [UseNumber] (strings with their escapes and
    invalid UTF-8 replaced, numbers as their text), and unpadded base64url as
    [base64.RawURLEncoding.Strict] decodes it. *)

From Stdlib Require Import Ascii String.
From S2P Require Import Prelude.

Open Scope nat_scope.

#[warnings="-register-all"]
Inductive json := JNull | JBool (b : bool) | JNum (text : string) | JStr (s : string) | JArr (l : list json) | JObj (fields : list (string * json)).

(** [TBad] is the point at which the stream reports a syntax error; the end of the
    list is the end of the input. *)
Inductive jtok := TObj | TEndObj | TArr | TEndArr | TStr (s : string) | TNum (text : string) | TBool (b : bool) | TNull | TBad.

Abbreviation code := nat_of_ascii.

(** ** Strings *)

Definition hexVal (c : ascii) : option Z :=
  let n := Z.of_nat (code c) in
  if (48 <=? n)%Z && (n <=? 57)%Z then Some (n - 48)%Z
  else if (97 <=? n)%Z && (n <=? 102)%Z then Some (n - 87)%Z
  else if (65 <=? n)%Z && (n <=? 70)%Z then Some (n - 55)%Z
  else None.

Definition hex4 (s : string) : option (Z * string) :=
  match s with
  | String a (String b (String c (String d r))) =>
      match hexVal a, hexVal b, hexVal c, hexVal d with
      | Some a, Some b, Some c, Some d => Some ((((a * 16 + b) * 16 + c) * 16 + d)%Z, r)
      | _, _, _, _ => None
      end
  | _ => None
  end.

Definition byteOf (n : nat) : ascii := ascii_of_nat n.
Definition byteZ (n : Z) : ascii := ascii_of_N (Z.to_N n).

(** [utf8.EncodeRune] of a code point. *)
Definition encodeRune (r : Z) : string :=
  let cont k := byteZ (128 + (r / k) mod 64) in
  if (r <? 128)%Z then String (byteZ r) ""
  else if (r <? 2048)%Z then String (byteZ (192 + r / 64)) (String (cont 1%Z) "")
  else if (r <? 65536)%Z then String (byteZ (224 + r / 4096)) (String (cont 64%Z) (String (cont 1%Z) ""))
  else String (byteZ (240 + r / 262144)) (String (cont 4096%Z) (String (cont 64%Z) (String (cont 1%Z) ""))).

Definition runeError : string := String (byteOf 239) (String (byteOf 191) (String (byteOf 189) "")).

Definition within (lo hi : nat) (c : ascii) : bool := Nat.leb lo (code c) && Nat.leb (code c) hi.

(** The length of the UTF-8 sequence at the head of [s], when it is one of more
    than one byte. *)
Definition runeLen (s : string) : option nat :=
  match s with
  | String a (String b r) =>
      if within 194 223 a then if within 128 191 b then Some 2 else None
      else match r with
           | String c r =>
               if within 224 239 a then
                 let lo := if Nat.eqb (code a) 224 then 160 else 128 in
                 let hi := if Nat.eqb (code a) 237 then 159 else 191 in
                 if within lo hi b && within 128 191 c then Some 3 else None
               else match r with
                    | String d _ =>
                        let lo := if Nat.eqb (code a) 240 then 144 else 128 in
                        let hi := if Nat.eqb (code a) 244 then 143 else 191 in
                        if within 240 244 a && within lo hi b && within 128 191 c && within 128 191 d then Some 4 else None
                    | _ => None
                    end
           | _ => None
           end
  | _ => None
  end.

Definition isSurrogate (r : Z) : bool := ((55296 <=? r) && (r <=? 57343))%Z.

Fixpoint cutPrefix (p s : string) : option string :=
  match p, s with
  | EmptyString, _ => Some s
  | String a p, String b s => if Ascii.eqb a b then cutPrefix p s else None
  | _, _ => None
  end.

(** [\u]: the code point, or the replacement character for a lone surrogate. *)
Definition lexUnicode (s : string) : option (string * string) :=
  match hex4 s with
  | None => None
  | Some (u, r) =>
      if negb (isSurrogate u) then Some (encodeRune u, r)
      else match cutPrefix "\u" r with
           | None => Some (runeError, r)
           | Some r2 =>
               match hex4 r2 with
               | None => Some (runeError, r)
               | Some (u2, r3) =>
                   if ((u <=? 56319) && (56320 <=? u2) && (u2 <=? 57343))%Z
                   then Some (encodeRune ((u - 55296) * 1024 + (u2 - 56320) + 65536), r3)
                   else Some (runeError, r)
               end
           end
  end.

(** An escape after its backslash: what it stands for, and the rest. *)
Definition lexEscape (s : string) : option (string * string) :=
  match s with
  | EmptyString => None
  | String c r =>
      let n := code c in
      if Nat.eqb n 117 then lexUnicode r
      else if Nat.eqb n 34 || Nat.eqb n 92 || Nat.eqb n 47 then Some (String c "", r)
      else if Nat.eqb n 98 then Some (String (byteOf 8) "", r)
      else if Nat.eqb n 102 then Some (String (byteOf 12) "", r)
      else if Nat.eqb n 110 then Some (String (byteOf 10) "", r)
      else if Nat.eqb n 114 then Some (String (byteOf 13) "", r)
      else if Nat.eqb n 116 then Some (String (byteOf 9) "", r)
      else None
  end.

(** A string after its opening quote. *)
Fixpoint lexString (fuel : nat) (s : string) : option (string * string) :=
  match fuel, s with
  | S fuel, String c r =>
      if Nat.eqb (code c) 34 then Some (""%string, r)
      else if Nat.ltb (code c) 32 then None
      else if Nat.eqb (code c) 92 then
        match lexEscape r with
        | None => None
        | Some (x, r) => match lexString fuel r with Some (v, r) => Some (x +:+ v, r) | None => None end
        end
      else
        let '(x, r) := if Nat.ltb (code c) 128 then (String c "", r)
                       else match runeLen s with
                            | Some n => (String.substring 0 n s, String.substring n (String.length s - n) s)
                            | None => (runeError, r)
                            end in
        match lexString fuel r with Some (v, r) => Some (x +:+ v, r) | None => None end
  | _, _ => None
  end.

(** ** Numbers and words *)

Definition isDigit (c : ascii) : bool := within 48 57 c.

Fixpoint takeDigits (s : string) : string * string :=
  match s with
  | String c r => if isDigit c then let '(d, t) := takeDigits r in (String c d, t) else (EmptyString, s)
  | EmptyString => (EmptyString, s)
  end.

(** At least one digit. *)
Definition digits1 (s : string) : option (string * string) :=
  match takeDigits s with (EmptyString, _) => None | p => Some p end.

Definition lexFrac (s : string) : option (string * string) :=
  match cutPrefix "." s with
  | Some r => match digits1 r with Some (d, t) => Some ("." +:+ d, t) | None => None end
  | None => Some (""%string, s)
  end.

(** An optional sign, of those allowed. *)
Definition lexSign (allowed : list string) (s : string) : string * string :=
  match head (omap (fun sg => (sg,.) <$> cutPrefix sg s) allowed) with Some p => p | None => (""%string, s) end.

Definition lexExp (s : string) : option (string * string) :=
  match lexSign ["e"; "E"]%string s with
  | (EmptyString, _) => Some (""%string, s)
  | (e, r) =>
      let '(sg, r) := lexSign ["+"; "-"]%string r in
      match digits1 r with Some (d, t) => Some (e +:+ sg +:+ d, t) | None => None end
  end.

Definition lexInt (s : string) : option (string * string) :=
  match cutPrefix "0" s with Some r => Some ("0"%string, r) | None => digits1 s end.

Definition lexNumber (s : string) : option (string * string) :=
  let '(sg, s1) := lexSign ["-"]%string s in
  match lexInt s1 with
  | None => None
  | Some (i, s2) =>
      match lexFrac s2 with
      | None => None
      | Some (f, s3) => match lexExp s3 with None => None | Some (e, s4) => Some (sg +:+ i +:+ f +:+ e, s4) end
      end
  end.

(** A value that is not an object or an array. *)
Definition lexScalar (s : string) : option (jtok * string) :=
  match s with
  | String c r =>
      if Nat.eqb (code c) 34 then match lexString (String.length r) r with Some (v, r) => Some (TStr v, r) | None => None end
      else if Nat.eqb (code c) 45 || isDigit c then match lexNumber s with Some (v, r) => Some (TNum v, r) | None => None end
      else match cutPrefix "true" s, cutPrefix "false" s, cutPrefix "null" s with
           | Some r, _, _ => Some (TBool true, r)
           | _, Some r, _ => Some (TBool false, r)
           | _, _, Some r => Some (TNull, r)
           | _, _, _ => None
           end
  | EmptyString => None
  end.

(** ** The stream *)

(** The decoder's position: what may come next. *)
Inductive scanState := topValue | arrayStart | arrayValue | arrayComma | objectStart | objectKey | objectColon | objectValue | objectComma.

Definition valueAllowed (st : scanState) : bool := match st with topValue | arrayStart | arrayValue | objectValue => true | _ => false end.

Definition valueEnd (st : scanState) : scanState := match st with arrayStart | arrayValue => arrayComma | objectValue => objectComma | _ => st end.

Definition isSpaceJ (c : ascii) : bool := Nat.eqb (code c) 32 || Nat.eqb (code c) 9 || Nat.eqb (code c) 10 || Nat.eqb (code c) 13.

Definition keyPlace (st : scanState) : bool := match st with objectStart | objectKey => true | _ => false end.

(** One call of [Token] past the spaces, or a separator it steps over: the token
    if any, the state, the enclosing states, the rest. *)
Definition tokStep (st : scanState) (stack : list scanState) (c : ascii) (r : string) : option (option jtok * scanState * list scanState * string) :=
  let n := code c in
  if Nat.eqb n 91 then if valueAllowed st then Some (Some TArr, arrayStart, st :: stack, r) else None
  else if Nat.eqb n 93 then
    match st, stack with
    | (arrayStart | arrayComma), up :: stack => Some (Some TEndArr, valueEnd up, stack, r)
    | _, _ => None
    end
  else if Nat.eqb n 123 then if valueAllowed st then Some (Some TObj, objectStart, st :: stack, r) else None
  else if Nat.eqb n 125 then
    match st, stack with
    | (objectStart | objectComma), up :: stack => Some (Some TEndObj, valueEnd up, stack, r)
    | _, _ => None
    end
  else if Nat.eqb n 58 then match st with objectColon => Some (None, objectValue, stack, r) | _ => None end
  else if Nat.eqb n 44 then
    match st with
    | arrayComma => Some (None, arrayValue, stack, r)
    | objectComma => Some (None, objectKey, stack, r)
    | _ => None
    end
  else if Nat.eqb n 34 && keyPlace st then
    match lexString (String.length r) r with Some (k, r) => Some (Some (TStr k), objectColon, stack, r) | None => None end
  else if valueAllowed st then match lexScalar (String c r) with Some (t, r) => Some (Some t, valueEnd st, stack, r) | None => None end
  else None.

Fixpoint lexFrom (fuel : nat) (st : scanState) (stack : list scanState) (s : string) : list jtok :=
  match fuel, s with
  | S fuel, String c r =>
      if isSpaceJ c then lexFrom fuel st stack r
      else match tokStep st stack c r with
           | None => [TBad]
           | Some (o, st, stack, r) => match o with Some t => t :: lexFrom fuel st stack r | None => lexFrom fuel st stack r end
           end
  | _, _ => []
  end.

Definition jsonTokens (data : string) : list jtok := lexFrom (String.length data) topValue [] data.

(** ** base64url *)

Definition b64Val (c : ascii) : option nat :=
  let n := code c in
  if Nat.leb 65 n && Nat.leb n 90 then Some (n - 65)
  else if Nat.leb 97 n && Nat.leb n 122 then Some (n - 71)
  else if Nat.leb 48 n && Nat.leb n 57 then Some (n + 4)
  else if Nat.eqb n 45 then Some 62
  else if Nat.eqb n 95 then Some 63
  else None.

(** The decoder steps over line ends. *)
Fixpoint dropNewlines (s : string) : string :=
  match s with
  | String c r => if Nat.eqb (code c) 10 || Nat.eqb (code c) 13 then dropNewlines r else String c (dropNewlines r)
  | EmptyString => EmptyString
  end.

(** Four characters give three bytes; a short last group leaves no stray bits. *)
Fixpoint b64Groups (fuel : nat) (s : string) : option string :=
  match fuel, s with
  | S fuel, String a (String b (String c (String d r))) =>
      match b64Val a, b64Val b, b64Val c, b64Val d, b64Groups fuel r with
      | Some a, Some b, Some c, Some d, Some t =>
          Some (String (byteOf (a * 4 + b / 16)) (String (byteOf (b mod 16 * 16 + c / 4)) (String (byteOf (c mod 4 * 64 + d)) t)))
      | _, _, _, _, _ => None
      end
  | _, String a (String b (String c EmptyString)) =>
      match b64Val a, b64Val b, b64Val c with
      | Some a, Some b, Some c => if Nat.eqb (c mod 4) 0 then Some (String (byteOf (a * 4 + b / 16)) (String (byteOf (b mod 16 * 16 + c / 4)) "")) else None
      | _, _, _ => None
      end
  | _, String a (String b EmptyString) =>
      match b64Val a, b64Val b with
      | Some a, Some b => if Nat.eqb (b mod 16) 0 then Some (String (byteOf (a * 4 + b / 16)) "") else None
      | _, _ => None
      end
  | _, EmptyString => Some ""%string
  | _, _ => None
  end.

Definition RawURLDecode (s : string) : option string := let s := dropNewlines s in b64Groups (String.length s) s.

(** ** The lexers end before their fuel *)

Abbreviation len := String.length.

Lemma hex4_len s u r : hex4 s = Some (u, r) -> len r < len s.
Proof.
  destruct s as [|a [|b [|c [|d s]]]]; cbn [hex4]; try done. destruct (hexVal a), (hexVal b), (hexVal c), (hexVal d); try done. intros [= _ <-]. cbn. lia.
Qed.

Lemma cutPrefix_len p s r : cutPrefix p s = Some r -> len p + len r = len s.
Proof.
  revert s. induction p as [|a p IH]; intros s; cbn; [by intros [= ->]|]. destruct s as [|b s]; [done|]. destruct (Ascii.eqb a b); [|done]. intros H%IH. cbn. lia.
Qed.

Lemma lexUnicode_len s x r : lexUnicode s = Some (x, r) -> len r < len s.
Proof.
  unfold lexUnicode. destruct (hex4 s) as [[u r1]|] eqn:E; [|done]. apply hex4_len in E. destruct (negb _); [intros [= _ <-]; lia|].
  destruct (cutPrefix "\u" r1) as [r2|] eqn:E2; [|intros [= _ <-]; lia]. apply cutPrefix_len in E2. destruct (hex4 r2) as [[u2 r3]|] eqn:E3; [|intros [= _ <-]; lia].
  apply hex4_len in E3. destruct (_ && _ && _); intros [= _ <-]; lia.
Qed.

Lemma lexEscape_len s x r : lexEscape s = Some (x, r) -> len r < len s.
Proof.
  destruct s as [|c s]; [done|]. cbn [lexEscape len]. cbv zeta. destruct (Nat.eqb (code c) 117); [intros H%lexUnicode_len; lia|].
  repeat (destruct (_ || _) || destruct (Nat.eqb (code c) _)); try done; intros [= _ <-]; lia.
Qed.

(** The head of a string and what is left of it after one rune. *)
Definition runeHead (c : ascii) (r : string) : string * string :=
  if Nat.ltb (code c) 128 then (String c "", r)
  else match runeLen (String c r) with
       | Some n => (String.substring 0 n (String c r), String.substring n (len (String c r) - n) (String c r))
       | None => (runeError, r)
       end.

Lemma substring_len n m s : n + m <= len s -> len (String.substring n m s) = m.
Proof. revert n m. induction s as [|c s IH]; intros [|n] [|m] H; cbn in *; try lia; rewrite IH; lia. Qed.

Lemma runeLen_pos s n : runeLen s = Some n -> 0 < n <= len s.
Proof.
  destruct s as [|a [|b r]]; try done. cbn [runeLen]. destruct (within 194 223 a); [destruct (within 128 191 b); [intros [= <-]; cbn; lia|done]|].
  destruct r as [|c r]; [done|]. destruct (within 224 239 a); [cbv zeta; destruct (_ && _); [intros [= <-]; cbn; lia|done]|]. destruct r as [|d r]; [done|]. cbv zeta.
  destruct (_ && _); [intros [= <-]; cbn; lia|done].
Qed.

Lemma runeHead_len c r : len (runeHead c r).2 <= len r.
Proof.
  unfold runeHead. destruct (Nat.ltb (code c) 128); [done|]. destruct (runeLen (String c r)) as [n|] eqn:E; [|done]. apply runeLen_pos in E. cbn [snd]. rewrite substring_len by lia. cbn [len] in *. lia.
Qed.

Lemma lexString_step fuel c r : lexString (S fuel) (String c r) =
  if Nat.eqb (code c) 34 then Some (""%string, r)
  else if Nat.ltb (code c) 32 then None
  else if Nat.eqb (code c) 92 then
    match lexEscape r with None => None | Some (x, r) => match lexString fuel r with Some (v, r) => Some (x +:+ v, r) | None => None end end
  else match lexString fuel (runeHead c r).2 with Some (v, t) => Some ((runeHead c r).1 +:+ v, t) | None => None end.
Proof.
  cbn [lexString]. destruct (Nat.eqb (code c) 34); [done|]. destruct (Nat.ltb (code c) 32); [done|]. destruct (Nat.eqb (code c) 92); [done|].
  change (if Nat.ltb (code c) 128 then (String c "", r) else _) with (runeHead c r). by destruct (runeHead c r).
Qed.

(** More fuel than bytes changes nothing, and a closed string takes its quote. *)
Lemma lexString_fuel fuel : forall s fuel', len s <= fuel -> len s <= fuel' -> lexString fuel s = lexString fuel' s /\ forall v r, lexString fuel s = Some (v, r) -> len r < len s.
Proof.
  induction fuel as [|fuel IH]; intros [|c s] fuel' H H'; try (cbn in H; lia).
  - by destruct fuel'.
  - by destruct fuel'.
  - destruct fuel' as [|fuel']; [cbn in H'; lia|]. cbn [len] in *. rewrite !lexString_step. destruct (Nat.eqb (code c) 34); [split; [done|]; intros v r [= _ <-]; lia|].
    destruct (Nat.ltb (code c) 32); [done|]. destruct (Nat.eqb (code c) 92).
    + destruct (lexEscape s) as [[x t]|] eqn:E; [|done]. apply lexEscape_len in E. destruct (IH t fuel' ltac:(lia) ltac:(lia)) as [<- Hl].
      split; [done|]. intros v r. destruct (lexString fuel t) as [[w u]|] eqn:Eu; [|done]. intros [= _ <-]. specialize (Hl _ _ eq_refl). lia.
    + pose proof (runeHead_len c s). destruct (IH (runeHead c s).2 fuel' ltac:(lia) ltac:(lia)) as [<- Hl].
      split; [done|]. intros v r. destruct (lexString fuel _) as [[w u]|] eqn:Eu; [|done]. intros [= _ <-]. specialize (Hl _ _ eq_refl). lia.
Qed.

Lemma takeDigits_len s : len (takeDigits s).1 + len (takeDigits s).2 = len s.
Proof. induction s as [|c s IH]; [done|]. cbn. destruct (isDigit c); [|done]. destruct (takeDigits s). cbn in *. lia. Qed.

Lemma digits1_len s d t : digits1 s = Some (d, t) -> len t < len s.
Proof. unfold digits1. pose proof (takeDigits_len s) as H. destruct (takeDigits s) as [[|c d'] t']; [done|]. intros [= <- <-]. cbn in H. lia. Qed.

Lemma lexSign_len allowed s : len (lexSign allowed s).2 <= len s.
Proof.
  unfold lexSign. destruct (head _) as [[sg t]|] eqn:E; [|done]. cbn. induction allowed as [|x l IH]; [done|]. cbn in E. destruct (cutPrefix x s) as [u|] eqn:Eu; cbn in E; [|by apply IH].
  injection E as <- <-. apply cutPrefix_len in Eu. lia.
Qed.

Lemma lexNumber_len s v r : lexNumber s = Some (v, r) -> len r < len s.
Proof.
  unfold lexNumber. pose proof (lexSign_len ["-"]%string s) as H0. destruct (lexSign _ s) as [sg s1]. cbn in H0.
  assert (forall i t, lexInt s1 = Some (i, t) -> len t < len s1) as Hi.
  { intros i t. unfold lexInt. destruct (cutPrefix "0" s1) eqn:E; [intros [= _ <-]; apply cutPrefix_len in E; cbn in E; lia|apply digits1_len]. }
  destruct (lexInt s1) as [[i s2]|]; [|done]. specialize (Hi _ _ eq_refl).
  assert (forall f t, lexFrac s2 = Some (f, t) -> len t <= len s2) as Hf.
  { intros f t. unfold lexFrac. destruct (cutPrefix "." s2) eqn:E; [|by intros [= _ <-]]. apply cutPrefix_len in E. destruct (digits1 s0) as [[d u]|] eqn:Ed; [|done]. apply digits1_len in Ed. intros [= _ <-]. lia. }
  destruct (lexFrac s2) as [[f s3]|]; [|done]. specialize (Hf _ _ eq_refl).
  assert (forall e t, lexExp s3 = Some (e, t) -> len t <= len s3) as He.
  { intros e t. unfold lexExp. pose proof (lexSign_len ["e"; "E"]%string s3) as H1. destruct (lexSign _ s3) as [[|c g] u]; [by intros [= _ <-]|]. cbn in H1.
    pose proof (lexSign_len ["+"; "-"]%string u) as H2. destruct (lexSign ["+"; "-"]%string u) as [sg' u']. cbn in H2. destruct (digits1 u') as [[d w]|] eqn:Ed; [|done]. apply digits1_len in Ed. intros [= _ <-]. lia. }
  destruct (lexExp s3) as [[e s4]|]; [|done]. specialize (He _ _ eq_refl). intros [= _ <-]. lia.
Qed.

Lemma lexScalar_len s t r : lexScalar s = Some (t, r) -> len r < len s.
Proof.
  destruct s as [|c s]; [done|]. unfold lexScalar. destruct (Nat.eqb (code c) 34).
  - destruct (lexString (len s) s) as [[v u]|] eqn:E; [|done]. intros [= _ <-]. destruct (lexString_fuel (len s) s (len s) ltac:(lia) ltac:(lia)) as [_ Hl]. specialize (Hl _ _ E). cbn. lia.
  - destruct (_ || _); [destruct (lexNumber (String c s)) as [[v u]|] eqn:E; [|done]; intros [= _ <-]; by apply lexNumber_len in E|].
    destruct (cutPrefix "true" _) eqn:E1; [apply cutPrefix_len in E1; intros [= _ <-]; cbn in *; lia|]. destruct (cutPrefix "false" _) eqn:E2; [apply cutPrefix_len in E2; intros [= _ <-]; cbn in *; lia|].
    destruct (cutPrefix "null" _) eqn:E3; [apply cutPrefix_len in E3; intros [= _ <-]; cbn in *; lia|done].
Qed.

Lemma tokStep_len st stack c r o st' stack' r' : tokStep st stack c r = Some (o, st', stack', r') -> len r' <= len r.
Proof.
  unfold tokStep. cbv zeta. assert (forall v u, lexString (len r) r = Some (v, u) -> len u <= len r) as Hs.
  { intros v u E. destruct (lexString_fuel (len r) r (len r) ltac:(lia) ltac:(lia)) as [_ Hl]. specialize (Hl _ _ E). lia. }
  destruct (Nat.eqb (code c) 91); [destruct (valueAllowed st); by intros [= <- <- <- <-]|]. destruct (Nat.eqb (code c) 93); [destruct st, stack; by intros [= <- <- <- <-]|].
  destruct (Nat.eqb (code c) 123); [destruct (valueAllowed st); by intros [= <- <- <- <-]|]. destruct (Nat.eqb (code c) 125); [destruct st, stack; by intros [= <- <- <- <-]|].
  destruct (Nat.eqb (code c) 58); [destruct st; by intros [= <- <- <- <-]|]. destruct (Nat.eqb (code c) 44); [destruct st; by intros [= <- <- <- <-]|].
  destruct (_ && _); [destruct (lexString (len r) r) as [[k u]|]; [|done]; intros [= <- <- <- <-]; by eapply Hs|]. destruct (valueAllowed st); [|done].
  destruct (lexScalar (String c r)) as [[t u]|] eqn:E; [|done]. intros [= <- <- <- <-]. apply lexScalar_len in E. cbn in E. lia.
Qed.

(** The stream does not depend on its fuel once that covers the text. *)
Lemma lexFrom_fuel fuel : forall fuel' st stack s, len s <= fuel -> len s <= fuel' -> lexFrom fuel st stack s = lexFrom fuel' st stack s.
Proof.
  induction fuel as [|fuel IH]; intros fuel' st stack [|c s] H H'; try (cbn in H; lia); try (by destruct fuel'). destruct fuel' as [|fuel']; [cbn in H'; lia|]. cbn [lexFrom len] in *.
  destruct (isSpaceJ c); [apply IH; lia|]. destruct (tokStep st stack c s) as [[[[o st'] stack'] r']|] eqn:E; [|done]. apply tokStep_len in E. rewrite (IH fuel') by lia. done.
Qed.
