(* ===== verification/Jwt.v ===== *)
(** * Jwt: bearer tokens

    pkg/jwtauth: profiles, strict decoding, the verifier, the claims mapper and the
    key lifecycle; pkg/loxinet/jwtauthprofile.go: the configured profiles;
    ai_gateway_jwt.go and the export of ai_gateway_dp.go: the bearer arm of the
    gate.  The JWK and JWS library, URL parsing, the discovery document and the
    conversion of a JSON number to an instant are parameters.  A profile's state is
    an object that its goroutine keeps using after a replacement, so the manager
    has a heap of them.  Error texts, log lines and metrics are left out. *)

From Stdlib Require Import Ascii String.
From S2P Require Import Prelude StoreErr RateLimit RateSync Objective Common Admission Gateway Classes NetIdText JsonTok.

Open Scope Z_scope.
Open Scope igw_scope.

(** ** Verdicts *)

Definition DecisionAllow : Z := 0.
Definition DecisionDeny401 : Z := 1.
Definition DecisionDeny403 : Z := 2.
Definition DecisionDeny503 : Z := 4.

Definition CodeMissingToken : string := "missing_token".
Definition CodeInvalidToken : string := "invalid_token".
Definition CodeTokenExpired : string := "token_expired".
Definition CodeModelNotAllowed : string := "model_not_allowed".
Definition CodeStoreUnavailable : string := "policy_store_unavailable".

Inductive Reason := ReasonMissing | ReasonMalformed | ReasonOversize | ReasonBadSignature | ReasonUnknownKid | ReasonExpired
  | ReasonBadIssuer | ReasonBadAudience | ReasonNoTenant | ReasonUnsafeIdentity | ReasonModelDenied | ReasonNoKeyset.

Record VerdictError := Verdict { vDecision : Z; vCode : string; vReason : Reason }.

Definition deny401 (r : Reason) : VerdictError :=
  Verdict DecisionDeny401 (match r with ReasonExpired => CodeTokenExpired | ReasonMissing => CodeMissingToken | _ => CodeInvalidToken end) r.
Definition deny403Model : VerdictError := Verdict DecisionDeny403 CodeModelNotAllowed ReasonModelDenied.
Definition deny503 : VerdictError := Verdict DecisionDeny503 CodeStoreUnavailable ReasonNoKeyset.

(** ** Strict JSON *)

Definition maxClaimDepth : nat := 32.

Inductive decErr := DecDepth | DecToken | DecKey | DecDup (key : string) | DecTop | DecTrailing | DecFuel.

Definition hasKey (k : string) (fields : list (string * json)) : bool := existsb (fun p => p.1 ==s k) fields.

(** Each call takes at least one token, or ends a loop: twice the tokens and one
    is enough fuel. *)
Fixpoint decodeStrictValue (fuel depth : nat) (ts : list jtok) : (json * list jtok) + decErr :=
  match fuel with
  | O => inr DecFuel
  | S fuel =>
      if (maxClaimDepth <? depth)%nat then inr DecDepth
      else match ts with
           | [] | TBad :: _ => inr DecToken
           | TStr s :: r => inl (JStr s, r)
           | TNum s :: r => inl (JNum s, r)
           | TBool b :: r => inl (JBool b, r)
           | TNull :: r => inl (JNull, r)
           | TObj :: r => match decodeObject fuel depth [] r with inl (m, r) => inl (JObj m, r) | inr e => inr e end
           | TArr :: r => match decodeArray fuel depth [] r with inl (l, r) => inl (JArr l, r) | inr e => inr e end
           | TEndObj :: _ | TEndArr :: _ => inr DecToken
           end
  end
with decodeObject (fuel depth : nat) (obj : list (string * json)) (ts : list jtok) : (list (string * json) * list jtok) + decErr :=
  match fuel with
  | O => inr DecFuel
  | S fuel =>
      match ts with
      | [] | TBad :: _ | TEndArr :: _ => inr DecToken
      | TEndObj :: r => inl (obj, r)
      | TStr key :: r =>
          if hasKey key obj then inr (DecDup key)
          else match decodeStrictValue fuel (S depth) r with
               | inl (v, r) => decodeObject fuel depth (obj ++ [(key, v)]) r
               | inr e => inr e
               end
      | _ => inr DecKey
      end
  end
with decodeArray (fuel depth : nat) (arr : list json) (ts : list jtok) : (list json * list jtok) + decErr :=
  match fuel with
  | O => inr DecFuel
  | S fuel =>
      match ts with
      | [] | TBad :: _ | TEndObj :: _ => inr DecToken
      | TEndArr :: r => inl (arr, r)
      | _ => match decodeStrictValue fuel (S depth) ts with
             | inl (v, r) => decodeArray fuel depth (arr ++ [v]) r
             | inr e => inr e
             end
      end
  end.

Definition decodeFuel (ts : list jtok) : nat := S (2 * length ts).

Definition decodeStrictObject (data : string) : list (string * json) + decErr :=
  let ts := jsonTokens data in
  match decodeStrictValue (decodeFuel ts) 0 ts with
  | inr e => inr e
  | inl (JObj m, r) => match r with [] | TBad :: _ => inl m | _ => inr DecTrailing end
  | inl _ => inr DecTop
  end.

(** ** Profiles *)

Definition MaxTokenBytes : nat := 4096.
Definition maxProfileNameBytes : nat := 63.
Definition ModelAuthzClaimsRequired : string := "claims-required".
Definition ModelAuthzAllowAll : string := "allow-all".

Definition supportedAlgs : list string :=
  ["RS256"; "RS384"; "RS512"; "ES256"; "ES384"; "ES512"; "PS256"; "PS384"; "PS512"]%string.

Definition defaultLeewaySec : Z := 30.
Definition defaultRefreshSec : Z := 3600.
Definition defaultTenantClaim : string := "tenant_id".
Definition defaultUserClaim : string := "sub".
Definition defaultRolesClaim : string := "realm_access.roles".
Definition defaultModelRolePrefix : string := "model:".
Definition defaultUsernameClaim : string := "preferred_username".

Record Profile := Prof {
  pName : string; pIssuer : string; pJWKSURL : string; pAudiences : list string; pAlgs : list string;
  pLeewaySec : Z; pRefreshSec : Z;
  pTenantClaim : string; pUserClaim : string; pModelsClaim : string; pRolesClaim : string; pModelRolePrefix : string; pUsernameClaim : string;
  pModelAuthz : string; pDefaultTenant : string; pForwardIdentity : bool; pAuthorizationPassthrough : bool
}.

#[export] Instance Profile_eq_dec : EqDecision Profile.
Proof. solve_decision. Defined.

Definition orElse (s d : string) : string := if s ==s "" then d else s.

Definition normalize (p : Profile) : Profile :=
  Prof (pName p) (pIssuer p) (pJWKSURL p) (pAudiences p)
    (match pAlgs p with [] => ["RS256"; "ES256"]%string | l => l end)
    (if pLeewaySec p ==? 0 then defaultLeewaySec else pLeewaySec p) (if pRefreshSec p ==? 0 then defaultRefreshSec else pRefreshSec p)
    (orElse (pTenantClaim p) defaultTenantClaim) (orElse (pUserClaim p) defaultUserClaim) (pModelsClaim p)
    (orElse (pRolesClaim p) defaultRolesClaim) (orElse (pModelRolePrefix p) defaultModelRolePrefix) (orElse (pUsernameClaim p) defaultUsernameClaim)
    (orElse (pModelAuthz p) ModelAuthzClaimsRequired) (pDefaultTenant p) (pForwardIdentity p) (pAuthorizationPassthrough p).

Definition identityMaxBytes : nat := 127.

Definition safeIdentity (s : string) : bool :=
  negb (identityMaxBytes <? String.length s)%nat &&
  allBytes (fun c => negb ((nat_of_ascii c <? 32)%nat || Nat.eqb (nat_of_ascii c) 127 || Ascii.eqb c pipe)) s.

(** The algorithms no configuration may enable. *)
Definition symmetricAlg (a : string) : bool := (a ==s "none") || HasPrefix a "HS".

(** ** Claims *)

Record Claims := Identified {
  Tenant : string; User : string; Username : string; Roles : list string; cAllowedModels : list string; AllowAllModels : bool
}.

Definition Authorize (c : Claims) (model : string) : option VerdictError :=
  if AllowAllModels c then None else if bool_decide (model ∈ cAllowedModels c) then None else Some deny403Model.

(** A field of an object; the strict decoder leaves no key twice. *)
Definition field (k : string) (fields : list (string * json)) : option json := snd <$> List.find (fun p => p.1 ==s k) fields.

Fixpoint walk (cur : json) (segs : list string) : option json :=
  match segs with
  | [] => Some cur
  | seg :: r => match cur with JObj m => match field seg m with Some v => walk v r | None => None end | _ => None end
  end.

Definition lookupPath (claims : list (string * json)) (path : string) : option json :=
  if path ==s "" then None else walk (JObj claims) (SplitByte dot path).

Definition stringSlice (v : json) : list string :=
  match v with
  | JStr s => if s ==s "" then [] else [s]
  | JArr l => omap (fun e => match e with JStr s => if s ==s "" then None else Some s | _ => None end) l
  | _ => []
  end.

(** A claim as a string; "" when it is absent or of another type. *)
Definition stringClaim (claims : list (string * json)) (path : string) : string :=
  match lookupPath claims path with Some (JStr s) => s | _ => "" end.

Definition carryable (id : string) : bool := safeIdentity id && negb (HasReservedScopePrefix id).

Definition roleModels (p : Profile) (roles : list string) : list string :=
  omap (fun r => if HasPrefix r (pModelRolePrefix p) then let m := TrimPrefix r (pModelRolePrefix p) in if m ==s "" then None else Some m else None) roles.

Definition mapClaims (p : Profile) (claims : list (string * json)) : Claims + VerdictError :=
  let tenant := orElse (stringClaim claims (pTenantClaim p)) (pDefaultTenant p) in
  if tenant ==s "" then inr (deny401 ReasonNoTenant)
  else
    let user := stringClaim claims (pUserClaim p) in
    let username := stringClaim claims (pUsernameClaim p) in
    let roles := match lookupPath claims (pRolesClaim p) with Some v => stringSlice v | None => [] end in
    if negb (carryable tenant && carryable user && carryable username) then inr (deny401 ReasonUnsafeIdentity)
    else match (if pModelsClaim p ==s "" then None else lookupPath claims (pModelsClaim p)) with
         | Some v => inl (Identified tenant user username roles (stringSlice v) false)
         | None =>
             let models := roleModels p roles in
             inl (Identified tenant user username roles models (Nat.eqb (length models) 0 && (pModelAuthz p ==s ModelAuthzAllowAll)))
         end.

Definition audienceMatches (want : list string) (claims : list (string * json)) : bool :=
  let accept v := bool_decide (v ∈ want) in
  match field "aud" claims with
  | Some (JStr aud) => accept aud
  | Some (JArr l) => existsb (fun e => match e with JStr s => accept s | _ => false end) l
  | _ => false
  end || match field "azp" claims with Some (JStr azp) => accept azp | _ => false end.

Record compactHeader := Header { Alg : string; Kid : string }.

Definition headerString (k : string) (obj : list (string * json)) : string := match field k obj with Some (JStr s) => s | _ => "" end.

Definition parseCompactHeader (token : string) : option compactHeader :=
  let parts := SplitByte dot token in
  match parts with
  | [hdr; _; _] =>
      if existsb (fun p => p ==s "") parts then None
      else match RawURLDecode hdr with
           | None => None
           | Some raw =>
               match decodeStrictObject raw with
               | inr _ => None
               | inl obj => if hasKey "crit" obj then None else Some (Header (headerString "alg" obj) (headerString "kid" obj))
               end
           end
  | _ => None
  end.

(** ** Keys *)

(** A key as the JWK library parses it, and one that is kept. *)
Record jwkKey (K : Type) := Jwk { KeyType : string; KeyUsage : option string; KeyID : option string; Algorithm : option string; material : K }.
Arguments Jwk {K}. Arguments KeyType {K}. Arguments KeyUsage {K}. Arguments KeyID {K}. Arguments Algorithm {K}. Arguments material {K}.

Record sigKey (K : Type) := SigKey { sKid : string; sAlg : string; sKty : string; sKey : K }.
Arguments SigKey {K}. Arguments sKid {K}. Arguments sAlg {K}. Arguments sKty {K}. Arguments sKey {K}.

Definition usableKey {K} (k : jwkKey K) : option (sigKey K) :=
  if negb ((KeyType k ==s "RSA") || (KeyType k ==s "EC")) then None
  else if match KeyUsage k with Some use => negb (use ==s "") && negb (use ==s "sig") | None => false end then None
  else match Algorithm k with
       | Some alg => if bool_decide (alg ∈ supportedAlgs) then Some (SigKey (default ""%string (KeyID k)) alg (KeyType k) (material k)) else None
       | None => Some (SigKey (default ""%string (KeyID k)) "" (KeyType k) (material k))
       end.

Definition algKty (alg : string) : string := if HasPrefix alg "ES" then "EC" else "RSA".

Definition candidates {K} (keys : list (sigKey K)) (kid alg : string) : list (sigKey K) :=
  List.filter (fun k =>
    negb (negb (kid ==s "") && negb (sKid k ==s kid)) && (sKty k ==s algKty alg) && negb (negb (sAlg k ==s "") && negb (sAlg k ==s alg))) keys.

(** ** The manager *)

Definition second : Z := 1000000000.
Definition defaultMaxStaleness : Z := 24 * 3600 * second.
Definition defaultMinRefetchGap : Z := 10 * second.
Definition defaultBackoffBase : Z := second.
Definition defaultBackoffCap : Z := 60 * second.
Definition maxJWKSBytes : Z := 1048576.

Record keySnapshot (K : Type) := KeySnap { set : list (sigKey K); fetchedAt : Z }.
Arguments KeySnap {K}. Arguments set {K}. Arguments fetchedAt {K}.

(** Where a profile's goroutine is: about to fetch for the first time, waiting to
    retry, waiting for a tick or a request, about to refresh, gone, or
    dead of the panic that takes the process down. *)
Inductive phase := FirstFetch (backoff : Z) | Waiting (backoff : Z) | Selecting | Refreshing | Ended | Crashed.

(** [lastRefetch] is [None] for the zero time. *)
Record profileState (K : Type) := PState {
  prof : Profile; snap : option (keySnapshot K); jwksURL : option string; refetchCh : bool; stopCh : bool; lastRefetch : option Z; pc : phase
}.
Arguments PState {K}. Arguments prof {K}. Arguments snap {K}. Arguments jwksURL {K}. Arguments refetchCh {K}. Arguments stopCh {K}. Arguments lastRefetch {K}. Arguments pc {K}.

Record Manager (K : Type) := Mgr { profiles : gmap string nat; heap : gmap nat (profileState K); next : nat; closed : bool }.
Arguments Mgr {K}. Arguments profiles {K}. Arguments heap {K}. Arguments next {K}. Arguments closed {K}.

Section Manager.
Context {K : Type}.
(** [url.Parse]: scheme and host. *)
Context (urlParse : string -> option (string * string)).
(** [jwk.Parse], [jwa.LookupSignatureAlgorithm] and [jws.Verify] with one key. *)
Context (jwkParse : string -> option (list (jwkKey K))) (lookupAlg : string -> bool) (jwsVerify : string -> string -> K -> option string).
(** The [jwks_uri] of a discovery document. *)
Context (jwksURI : string -> option string).
(** The instant, in nanoseconds, that a numeric claim stands for. *)
Context (numDate : string -> option Z).

Definition New : Manager K := Mgr ∅ ∅ 0 false.

(** [true] is the nil error. *)
Definition checkHTTPURL (raw : string) : bool :=
  if raw ==s "" then false
  else match urlParse raw with
       | None => false
       | Some (scheme, host) => ((scheme ==s "http") || (scheme ==s "https")) && negb (host ==s "")
       end.

Definition validate (p : Profile) : bool :=
  negb (pName p ==s "") && negb (maxProfileNameBytes <? String.length (pName p))%nat && checkHTTPURL (pIssuer p) &&
  ((pJWKSURL p ==s "") || checkHTTPURL (pJWKSURL p)) &&
  forallb (fun a => negb (symmetricAlg a) && bool_decide (a ∈ supportedAlgs)) (pAlgs p) &&
  negb (pLeewaySec p <? 0) && negb (pRefreshSec p <? 0) &&
  ((pModelAuthz p ==s ModelAuthzClaimsRequired) || (pModelAuthz p ==s ModelAuthzAllowAll)) && safeIdentity (pDefaultTenant p).

Definition parseKeySet (data : string) : option (list (sigKey K)) := match jwkParse data with Some l => Some (omap usableKey l) | None => None end.

Definition stopPs (ps : profileState K) : profileState K := PState (prof ps) (snap ps) (jwksURL ps) (refetchCh ps) true (lastRefetch ps) (pc ps).

Definition stopAt (i : nat) (h : gmap nat (profileState K)) : gmap nat (profileState K) :=
  match h !! i with Some ps => <[i := stopPs ps]> h | None => h end.

(** [true] is the nil error. *)
Definition SetProfile (p : Profile) (m : Manager K) : bool * Manager K :=
  let p := normalize p in
  if negb (validate p) then (false, m)
  else if closed m then (false, m)
  else
    let fresh h := (true, Mgr (<[pName p := next m]> (profiles m)) (<[next m := PState p None None false false None (FirstFetch defaultBackoffBase)]> h) (S (next m)) false) in
    match profiles m !! pName p with
    | None => fresh (heap m)
    | Some i =>
        match heap m !! i with
        | Some old => if bool_decide (prof old = p) then (true, m) else fresh (stopAt i (heap m))
        | None => fresh (heap m)
        end
    end.

Definition RemoveProfile (name : string) (m : Manager K) : Manager K :=
  match profiles m !! name with
  | None => m
  | Some i => Mgr (delete name (profiles m)) (stopAt i (heap m)) (next m) (closed m)
  end.

Definition Profiles (m : Manager K) : list string := (map_to_list (profiles m)).*1.

Definition profile (name : string) (m : Manager K) : option (nat * profileState K) :=
  match profiles m !! name with Some i => (i,.) <$> heap m !! i | None => None end.

(** Keys, time of the last success, usable. *)
Definition Status (now : Z) (name : string) (m : Manager K) : option (nat * option Z * bool) :=
  match profile name m with
  | None => None
  | Some (_, ps) =>
      match snap ps with
      | None => Some (O, None, false)
      | Some s => Some (length (set s), Some (fetchedAt s), now - fetchedAt s <=? defaultMaxStaleness)
      end
  end.

Definition Close (m : Manager K) : Manager K :=
  if closed m then m
  else Mgr ∅ (foldl (fun h i => stopAt i h) (heap m) (map_to_list (profiles m)).*2) (next m) true.

(** *** Fetching *)

(** [get] is what the network answers: status and body. *)
Definition httpGet (get : string -> option (Z * string)) (url : string) : option string :=
  match get url with
  | None => None
  | Some (status, body) =>
      if negb (status ==? 200) then None else if maxJWKSBytes <? Z.of_nat (String.length body) then None else Some body
  end.

Definition TrimSuffixSlash (s : string) : string :=
  match CutLast slash s with Some (l, EmptyString) => l | _ => s end.

Definition discoveryURL (p : Profile) : string := TrimSuffixSlash (pIssuer p) +:+ "/.well-known/openid-configuration".

Definition resolveJWKSURL (get : string -> option (Z * string)) (ps : profileState K) : option string * profileState K :=
  match jwksURL ps with
  | Some u => (Some u, ps)
  | None =>
      let u := if pJWKSURL (prof ps) ==s "" then
                 match httpGet get (discoveryURL (prof ps)) with
                 | None => None
                 | Some body =>
                     match jwksURI body with
                     | None => None
                     | Some u => if u ==s "" then None else if checkHTTPURL u then Some u else None
                     end
                 end
               else Some (pJWKSURL (prof ps)) in
      match u with
      | None => (None, ps)
      | Some u => (Some u, PState (prof ps) (snap ps) (Some u) (refetchCh ps) (stopCh ps) (lastRefetch ps) (pc ps))
      end
  end.

(** [true] is the nil error. *)
Definition fetchOnce (get : string -> option (Z * string)) (now : Z) (ps : profileState K) : bool * profileState K :=
  let '(u, ps) := resolveJWKSURL get ps in
  match u with
  | None => (false, ps)
  | Some u =>
      match httpGet get u with
      | None => (false, ps)
      | Some body =>
          match parseKeySet body with
          | None | Some [] => (false, ps)
          | Some keys => (true, PState (prof ps) (Some (KeySnap keys now)) (jwksURL ps) (refetchCh ps) (stopCh ps) (lastRefetch ps) (pc ps))
          end
      end
  end.

(** What wakes a goroutine that waits. *)
Inductive wake := WStop | WTimer | WRefetch.

Definition setPc (c : phase) (ps : profileState K) : profileState K := PState (prof ps) (snap ps) (jwksURL ps) (refetchCh ps) (stopCh ps) (lastRefetch ps) c.

(** [time.NewTicker] panics on an interval that is not positive. *)
Definition tickerInterval (p : Profile) : Z := i64 (pRefreshSec p * second).

(** One move of [runProfile]: a fetch, or one arm of a select.  [None]: the arm is not
    ready or the goroutine has ended. *)
Definition runProfile (get : string -> option (Z * string)) (now : Z) (w : wake) (ps : profileState K) : option (profileState K) :=
  match pc ps with
  | FirstFetch backoff =>
      let '(ok, ps) := fetchOnce get now ps in
      if ok then if tickerInterval (prof ps) <=? 0 then Some (setPc Crashed ps) else Some (setPc Selecting ps) else Some (setPc (Waiting backoff) ps)
  | Waiting backoff =>
      match w with
      | WStop => if stopCh ps then Some (setPc Ended ps) else None
      | WTimer => let b := backoff * 2 in Some (setPc (FirstFetch (if b >? defaultBackoffCap then defaultBackoffCap else b)) ps)
      | WRefetch => None
      end
  | Selecting =>
      match w with
      | WStop => if stopCh ps then Some (setPc Ended ps) else None
      | WTimer => Some (setPc Refreshing ps)
      | WRefetch => if refetchCh ps then Some (PState (prof ps) (snap ps) (jwksURL ps) false (stopCh ps) (lastRefetch ps) Refreshing) else None
      end
  | Refreshing => let '(_, ps) := fetchOnce get now ps in Some (setPc Selecting ps)
  | Ended | Crashed => None
  end.

Definition requestRefetch (now : Z) (ps : profileState K) : profileState K :=
  if match lastRefetch ps with Some t => now - t <? defaultMinRefetchGap | None => false end then ps
  else PState (prof ps) (snap ps) (jwksURL ps) true (stopCh ps) (Some now) (pc ps).

(** *** Verifying *)

Definition verifyToken (token alg : string) (k : sigKey K) : option string := if lookupAlg alg then jwsVerify token alg (sKey k) else None.

(** Absent, not numeric, or an instant. *)
Definition numClaim (claims : list (string * json)) (name : string) : option (option Z) :=
  match field name claims with
  | None => Some None
  | Some (JNum n) => match numDate n with Some t => Some (Some t) | None => None end
  | Some _ => None
  end.

(** [nbf] and [iat]: not before, when present. *)
Definition notBefore (claims : list (string * json)) (name : string) (leeway now : Z) : option VerdictError :=
  match numClaim claims name with
  | None => Some (deny401 ReasonMalformed)
  | Some None => None
  | Some (Some t) => if now <? t - leeway then Some (deny401 ReasonExpired) else None
  end.

Definition validateRegisteredClaims (p : Profile) (claims : list (string * json)) (now : Z) : option VerdictError :=
  let leeway := i64 (pLeewaySec p * second) in
  match numClaim claims "exp" with
  | None | Some None => Some (deny401 ReasonMalformed)
  | Some (Some exp) =>
      if negb (now <? exp + leeway) then Some (deny401 ReasonExpired)
      else match notBefore claims "nbf" leeway now with
           | Some e => Some e
           | None =>
               match notBefore claims "iat" leeway now with
               | Some e => Some e
               | None =>
                   if negb (headerString "iss" claims ==s pIssuer p) then Some (deny401 ReasonBadIssuer)
                   else if negb (Nat.eqb (length (pAudiences p)) 0) && negb (audienceMatches (pAudiences p) claims) then Some (deny401 ReasonBadAudience)
                   else None
               end
           end
  end.

Definition firstSome {A B} (f : A -> option B) (l : list A) : option B := head (omap f l).

(** The checks past the keyset. *)
Definition verifyWith (p : Profile) (token : string) (hdr : compactHeader) (cands : list (sigKey K)) (now : Z) : Claims + VerdictError :=
  match firstSome (verifyToken token (Alg hdr)) cands with
  | None => inr (deny401 ReasonBadSignature)
  | Some payload =>
      match decodeStrictObject payload with
      | inr _ => inr (deny401 ReasonMalformed)
      | inl claims =>
          match validateRegisteredClaims p claims now with
          | Some e => inr e
          | None => mapClaims p claims
          end
      end
  end.

Definition Verify (now : Z) (token profileName : string) (m : Manager K) : (Claims + VerdictError) * Manager K :=
  match profile profileName m with
  | None => (inr deny503, m)
  | Some (i, ps) =>
      if token ==s "" then (inr (deny401 ReasonMissing), m)
      else if (MaxTokenBytes <? String.length token)%nat then (inr (deny401 ReasonOversize), m)
      else match parseCompactHeader token with
           | None => (inr (deny401 ReasonMalformed), m)
           | Some hdr =>
               if (Alg hdr ==s "") || symmetricAlg (Alg hdr) then (inr (deny401 ReasonMalformed), m)
               else if negb (bool_decide (Alg hdr ∈ pAlgs (prof ps))) then (inr (deny401 ReasonMalformed), m)
               else match snap ps with
                    | None => (inr deny503, m)
                    | Some s =>
                        if now - fetchedAt s >? defaultMaxStaleness then (inr deny503, m)
                        else match candidates (set s) (Kid hdr) (Alg hdr) with
                             | [] => (inr (deny401 ReasonUnknownKid), Mgr (profiles m) (<[i := requestRefetch now ps]> (heap m)) (next m) (closed m))
                             | cands => (verifyWith (prof ps) token hdr cands now, m)
                             end
                    end
           end
  end.
End Manager.

(** ** The configured profiles *)

Record JWTAuthProfileMod := ProfMod { mProfile : Profile; mPriorityClass : string }.

Record JWTAuthProfileH (K : Type) := ProfH { hProfiles : gmap string JWTAuthProfileMod; hMgr : Manager K; hClasses : option (gmap string string) }.
Arguments ProfH {K}. Arguments hProfiles {K}. Arguments hMgr {K}. Arguments hClasses {K}.

Inductive profileErr := JwtAuthProfileArgErr | JwtAuthProfileNoExistErr | JwtAuthProfileRefErr (refs : list string).

Section ProfileHolder.
Context {K : Type} (urlParse : string -> option (string * string)).

Definition JWTAuthProfileInit : JWTAuthProfileH K := ProfH ∅ New None.

Definition jwtProfileFromMod (pm : JWTAuthProfileMod) : Profile := mProfile pm.

(** The holder's [publishClasses]: profiles without a class are left out. *)
Definition publishProfileClasses (profiles : gmap string JWTAuthProfileMod) : gmap string string :=
  omap (fun pm => if mPriorityClass pm ==s "" then None else Some (mPriorityClass pm)) profiles.

Definition ProfileAdd (pm : JWTAuthProfileMod) (h : JWTAuthProfileH K) : option profileErr * JWTAuthProfileH K :=
  if negb (bool_decide (mPriorityClass pm ∈ [""; AIClassStandard; AIClassCritical; AIClassSheddable]%string)) then (Some JwtAuthProfileArgErr, h)
  else
    let '(ok, mgr) := SetProfile urlParse (jwtProfileFromMod pm) (hMgr h) in
    if negb ok then (Some JwtAuthProfileArgErr, ProfH (hProfiles h) mgr (hClasses h))
    else let profiles := <[pName (mProfile pm) := pm]> (hProfiles h) in (None, ProfH profiles mgr (Some (publishProfileClasses profiles))).

(** [ruleRefs]: the rules that name a profile. *)
Definition ProfileDel (ruleRefs : string -> list string) (name : string) (h : JWTAuthProfileH K) : option profileErr * JWTAuthProfileH K :=
  match hProfiles h !! name with
  | None => (Some JwtAuthProfileNoExistErr, h)
  | Some _ =>
      match ruleRefs name with
      | r :: l => (Some (JwtAuthProfileRefErr (r :: l)), h)
      | [] => let profiles := delete name (hProfiles h) in (None, ProfH profiles (RemoveProfile name (hMgr h)) (Some (publishProfileClasses profiles)))
      end
  end.

Definition profModName (a b : JWTAuthProfileMod) : Prop := String.le (pName (mProfile a)) (pName (mProfile b)).
#[export] Instance profModName_dec : RelDecision profModName.
Proof. unfold profModName. intros a b. apply _. Defined.

Definition ProfileGet (h : JWTAuthProfileH K) : list JWTAuthProfileMod := merge_sort profModName (map_to_list (hProfiles h)).*2.

Definition ProfileExists (name : string) (h : JWTAuthProfileH K) : bool := bool_decide (is_Some (hProfiles h !! name)).

(** Forward identity, leave the Authorization header. *)
Definition ProfileUpstreamPolicy (h : JWTAuthProfileH K) (name : string) : option (bool * bool) :=
  (fun pm => (pForwardIdentity (mProfile pm), pAuthorizationPassthrough (mProfile pm))) <$> hProfiles h !! name.

Definition ProfileClass (h : option (JWTAuthProfileH K)) (name : string) : string :=
  match h with
  | None => ""
  | Some h => if name ==s "" then "" else match hClasses h with Some m => default ""%string (m !! name) | None => "" end
  end.
End ProfileHolder.

(** ** The bearer arm of the gate *)

Definition aiAuthFlagStripAuthz : Z := 1.
Definition aiAuthFlagFwdIdentity : Z := 2.
Definition aiBearerFlagOversize : Z := 1.

(** The fields of the decision the arm writes; the others are zero. *)
Record bearerResult := Bearer { rDecision : Z; rErrorCode : string; rTenant : string; rUser : string; rModel : string; rAuthFlags : Z }.

Section Bearer.
Context {K : Type} (lookupAlg : string -> bool) (jwsVerify : string -> string -> K -> option string) (numDate : string -> option Z).

(** Decision, tenant, user, error code and flags.  [upstream] is read after the
    verification: a profile may have gone in between. *)
Definition validateBearerInternal (now : Z) (m : Manager K) (upstream : string -> option (bool * bool)) (bearer model profile : string) (bearerFlags : Z)
    : (Z * string * string * string * Z) * Manager K :=
  if profile ==s "" then ((DecisionDeny503, "", "", CodeStoreUnavailable, 0)%string, m)
  else if negb (Z.land bearerFlags aiBearerFlagOversize ==? 0) then ((DecisionDeny401, "", "", CodeInvalidToken, 0)%string, m)
  else if bearer ==s "" then ((DecisionDeny401, "", "", CodeMissingToken, 0)%string, m)
  else
    let '(v, m) := Verify lookupAlg jwsVerify numDate now bearer profile m in
    match v with
    | inr ve => ((vDecision ve, "", "", vCode ve, 0)%string, m)
    | inl claims =>
        if negb (model ==s "") && bool_decide (is_Some (Authorize claims model))
        then ((DecisionDeny403, Tenant claims, "", CodeModelNotAllowed, 0)%string, m)
        else
          let flags := match upstream profile with
                       | None => aiAuthFlagStripAuthz
                       | Some (fwd, passthrough) => Z.lor (if passthrough then 0 else aiAuthFlagStripAuthz) (if fwd then aiAuthFlagFwdIdentity else 0)
                       end in
          ((0, Tenant claims, User claims, "", flags)%string, m)
    end.

(** The return code, what is left in the result, and the holder after. *)
Definition llb_ai_validate_bearer (now : Z) (h : option (JWTAuthProfileH K)) (bearer model profile : string) (bearerFlags : Z)
    : Z * bearerResult * option (JWTAuthProfileH K) :=
  match h with
  | None => (-1, Bearer 4 (cCopyStr "" "policy_store_unavailable" 64) "" "" "" 0, None)
  | Some h =>
      let '((d, tenant, user, code, flags), m) := validateBearerInternal now (hMgr h) (ProfileUpstreamPolicy h) bearer model profile bearerFlags in
      let h' := Some (ProfH (hProfiles h) m (hClasses h)) in
      let tenantC := cCopyStr "" tenant 128 in
      let userC := cCopyStr "" user 128 in
      if d ==? 0 then (0, Bearer d "" tenantC userC (cCopyStr "" model 128) flags, h')
      else (-1, Bearer d (cCopyStr "" code 64) tenantC userC "" 0, h')
  end.
End Bearer.
