(* ===== verification/JwtDecodeProps.v ===== *)
(** * JwtDecodeProps: what the strict JSON decoder accepts *)

From Stdlib Require Import Ascii String.
From S2P Require Import Prelude StoreErr RateLimit RateSync Objective Common Admission Gateway Classes NetIdText JsonTok Jwt.

Open Scope nat_scope.

(** ** Documents *)

Section JsonInd.
Context (P : json -> Prop).
Hypothesis P_null : P JNull.
Hypothesis P_bool : forall b, P (JBool b).
Hypothesis P_num : forall s, P (JNum s).
Hypothesis P_str : forall s, P (JStr s).
Hypothesis P_arr : forall l, Forall P l -> P (JArr l).
Hypothesis P_obj : forall m, Forall (fun p => P p.2) m -> P (JObj m).

Fixpoint json_nested (v : json) : P v :=
  match v with
  | JNull => P_null
  | JBool b => P_bool b
  | JNum s => P_num s
  | JStr s => P_str s
  | JArr l => P_arr l ((fix go l : Forall P l := match l with [] => Forall_nil_2 P | v :: r => Forall_cons_2 P v r (json_nested v) (go r) end) l)
  | JObj m => P_obj m ((fix go m : Forall (fun p => P p.2) m :=
      match m with [] => Forall_nil_2 _ | p :: r => Forall_cons_2 _ p r (json_nested p.2) (go r) end) m)
  end.
End JsonInd.

(** The tokens of a document. *)
Fixpoint tokensOf (v : json) : list jtok :=
  match v with
  | JNull => [TNull]
  | JBool b => [TBool b]
  | JNum s => [TNum s]
  | JStr s => [TStr s]
  | JArr l => TArr :: (fix go l := match l with [] => [TEndArr] | v :: r => tokensOf v ++ go r end) l
  | JObj m => TObj :: (fix go m := match m with [] => [TEndObj] | p :: r => TStr p.1 :: tokensOf p.2 ++ go r end) m
  end.

Definition arrayTail (l : list json) : list jtok := foldr (fun v r => tokensOf v ++ r) [TEndArr] l.
Definition objectTail (m : list (string * json)) : list jtok := foldr (fun p r => TStr p.1 :: tokensOf p.2 ++ r) [TEndObj] m.

Lemma tokensOf_arr l : tokensOf (JArr l) = TArr :: arrayTail l.
Proof. reflexivity. Qed.

Lemma tokensOf_obj m : tokensOf (JObj m) = TObj :: objectTail m.
Proof. reflexivity. Qed.

(** Nesting within the bound at depth [d], and no key twice in an object. *)
#[warnings="-register-all"]
Inductive strictOk : nat -> json -> Prop :=
  | StrictNull d : d <= maxClaimDepth -> strictOk d JNull
  | StrictBool d b : d <= maxClaimDepth -> strictOk d (JBool b)
  | StrictNum d s : d <= maxClaimDepth -> strictOk d (JNum s)
  | StrictStr d s : d <= maxClaimDepth -> strictOk d (JStr s)
  | StrictArr d l : d <= maxClaimDepth -> Forall (strictOk (S d)) l -> strictOk d (JArr l)
  | StrictObj d m : d <= maxClaimDepth -> NoDup m.*1 -> Forall (fun p => strictOk (S d) p.2) m -> strictOk d (JObj m).

Lemma hasKey_spec k m : hasKey k m = true <-> k ∈ m.*1.
Proof.
  unfold hasKey. rewrite existsb_exists, list_elem_of_fmap. split.
  - intros (p & Hp & E%String.eqb_eq). exists p. split; [done|by apply list_elem_of_In].
  - intros (p & -> & Hp%list_elem_of_In). exists p. by rewrite String.eqb_refl.
Qed.

(** ** Enough fuel *)

(** A decoded value or a real error, and fewer tokens left. *)
Definition progressed {A} (ts : list jtok) (r : (A * list jtok) + decErr) : Prop :=
  match r with inl (_, ts') => length ts' < length ts | inr e => e <> DecFuel end.

Lemma progressed_then {A B} (ts ts1 : list jtok) (r : (A * list jtok) + decErr) (f : A -> list jtok -> (B * list jtok) + decErr) :
  progressed ts1 r -> length ts1 <= length ts -> (forall a ts', length ts' < length ts1 -> progressed ts (f a ts')) ->
  progressed ts (match r with inl (a, ts') => f a ts' | inr e => inr e end).
Proof. intros Hr Hle Hf. destruct r as [[a ts']|e]; [|exact Hr]. apply Hf. exact Hr. Qed.

Lemma progressed_mono {A} (ts ts1 : list jtok) (r : (A * list jtok) + decErr) : progressed ts1 r -> length ts1 <= length ts -> progressed ts r.
Proof. destruct r as [[a ts']|e]; cbn; [lia|done]. Qed.

Lemma decode_progress fuel :
  (forall d ts, 2 * length ts + 1 <= fuel -> progressed ts (decodeStrictValue fuel d ts)) /\
  (forall d acc ts, 2 * length ts + 2 <= fuel -> progressed ts (decodeObject fuel d acc ts)) /\
  (forall d acc ts, 2 * length ts + 2 <= fuel -> progressed ts (decodeArray fuel d acc ts)).
Proof.
  induction fuel as [|fuel (IHv & IHo & IHa)]; [split_and!; intros; lia|]. split_and!.
  - intros d ts Hf. cbn [decodeStrictValue]. destruct (maxClaimDepth <? d); [done|]. destruct ts as [|[] ts]; cbn [length] in Hf; try (cbn; lia || done).
    + apply (progressed_then _ ts); [apply IHo; lia|cbn; lia|]. intros m ts' H. cbn. lia.
    + apply (progressed_then _ ts); [apply IHa; lia|cbn; lia|]. intros m ts' H. cbn. lia.
  - intros d acc ts Hf. cbn [decodeObject]. destruct ts as [|[] ts]; cbn [length] in Hf; try (cbn; lia || done).
    destruct (hasKey s acc); [done|]. apply (progressed_then _ ts); [apply IHv; lia|cbn; lia|]. intros v ts' H. apply (progressed_mono _ ts'); [apply IHo; lia|cbn; lia].
  - intros d acc ts Hf. cbn [decodeArray].
    assert (progressed ts (match decodeStrictValue fuel (S d) ts with inl (v, r) => decodeArray fuel d (acc ++ [v]) r | inr e => inr e end)) as H.
    { apply (progressed_then _ ts); [apply IHv; lia|lia|]. intros v ts' H. apply (progressed_mono _ ts'); [apply IHa; lia|lia]. }
    destruct ts as [|[] ts]; cbn [length] in Hf; try exact H; cbn; lia || done.
Qed.

(** ** What is accepted *)

Lemma decode_sound fuel :
  (forall d ts v r, decodeStrictValue fuel d ts = inl (v, r) -> ts = tokensOf v ++ r /\ strictOk d v) /\
  (forall d acc ts m r, decodeObject fuel d acc ts = inl (m, r) -> NoDup acc.*1 ->
     exists m', m = acc ++ m' /\ ts = objectTail m' ++ r /\ NoDup m.*1 /\ Forall (fun p => strictOk (S d) p.2) m') /\
  (forall d acc ts l r, decodeArray fuel d acc ts = inl (l, r) -> exists l', l = acc ++ l' /\ ts = arrayTail l' ++ r /\ Forall (strictOk (S d)) l').
Proof.
  induction fuel as [|fuel (IHv & IHo & IHa)]; [split_and!; intros; discriminate|]. split_and!.
  - intros d ts v r. cbn [decodeStrictValue]. destruct (Nat.ltb_spec maxClaimDepth d) as [|Hd]; [done|]. destruct ts as [|[] ts]; try done.
    + destruct (decodeObject fuel d [] ts) as [[m r']|] eqn:E; [|done]. intros [= <- <-]. apply IHo in E as (m' & -> & -> & Hn & Hs); [|constructor].
      rewrite tokensOf_obj. split; [done|by constructor].
    + destruct (decodeArray fuel d [] ts) as [[l r']|] eqn:E; [|done]. intros [= <- <-]. apply IHa in E as (l' & -> & -> & Hs). rewrite tokensOf_arr. split; [done|by constructor].
    + intros [= <- <-]. split; [done|by constructor].
    + intros [= <- <-]. split; [done|by constructor].
    + intros [= <- <-]. split; [done|by constructor].
    + intros [= <- <-]. split; [done|by constructor].
  - intros d acc ts m r. cbn [decodeObject]. destruct ts as [|[] ts]; try done.
    + intros [= <- <-] Hn. exists []. rewrite app_nil_r. by split_and!.
    + destruct (hasKey s acc) eqn:Ek; [done|]. destruct (decodeStrictValue fuel (S d) ts) as [[v ts']|] eqn:E; [|done]. intros H Hn. apply IHv in E as [-> Hv].
      apply IHo in H as (m' & -> & -> & Hn' & Hs).
      * exists ((s, v) :: m'). rewrite <- app_assoc in *. split_and!; [done|cbn; by rewrite <- app_assoc|done|by constructor].
      * rewrite fmap_app. apply NoDup_app. split_and!; [done| |apply NoDup_singleton]. intros x Hx ->%list_elem_of_singleton. apply hasKey_spec in Hx. cbn in Hx. congruence.
  - intros d acc ts l r. cbn [decodeArray].
    assert (match decodeStrictValue fuel (S d) ts with inl (v, r) => decodeArray fuel d (acc ++ [v]) r | inr e => inr e end = inl (l, r) ->
      exists l', l = acc ++ l' /\ ts = arrayTail l' ++ r /\ Forall (strictOk (S d)) l') as H.
    { destruct (decodeStrictValue fuel (S d) ts) as [[v ts']|] eqn:E; [|done]. intros H. apply IHv in E as [-> Hv]. apply IHa in H as (l' & -> & -> & Hs).
      exists (v :: l'). rewrite <- app_assoc. split_and!; [done|cbn; by rewrite <- app_assoc|by constructor]. }
    destruct ts as [|[] ts]; try exact H; try done. intros [= <- <-]. exists []. by rewrite app_nil_r.
Qed.

Lemma decode_complete v : forall fuel d r, 2 * length (tokensOf v ++ r) + 1 <= fuel -> strictOk d v -> decodeStrictValue fuel d (tokensOf v ++ r) = inl (v, r).
Proof.
  induction v as [|b|s|s|l IH|m IH] using json_nested; intros fuel d r Hf Hok; (destruct fuel as [|fuel]; [lia|]); inversion Hok as [? Hd|? ? Hd|? ? Hd|? ? Hd|? ? Hd Hs|? ? Hd Hn Hs]; subst; cbn [decodeStrictValue];
    (destruct (Nat.ltb_spec maxClaimDepth d) as [Hlt|_]; [lia|]); try reflexivity.
  - rewrite tokensOf_arr in *. cbn [app length] in *.
    assert (forall acc fuel, 2 * length (arrayTail l ++ r) + 2 <= fuel -> decodeArray fuel d acc (arrayTail l ++ r) = inl (acc ++ l, r)) as H; [|by rewrite H by lia].
    clear -IH Hs. induction l as [|v l IHl]; intros acc fuel Hf; (destruct fuel as [|fuel]; [lia|]); [cbn; by rewrite app_nil_r|].
    apply Forall_cons in IH as [IHv IH], Hs as [Hv Hs]. change (arrayTail (v :: l)) with (tokensOf v ++ arrayTail l) in *. rewrite <- app_assoc in *. rewrite length_app in Hf.
    assert (decodeArray (S fuel) d acc (tokensOf v ++ arrayTail l ++ r) = match decodeStrictValue fuel (S d) (tokensOf v ++ arrayTail l ++ r) with inl (v, r) => decodeArray fuel d (acc ++ [v]) r | inr e => inr e end) as ->.
    { cbn [decodeArray]. by destruct v. }
    rewrite IHv; [|rewrite length_app; lia|done]. rewrite IHl; [by rewrite <- app_assoc|done|done|]. destruct v; cbn in Hf; lia.
  - rewrite tokensOf_obj in *. cbn [app length] in *.
    assert (forall acc fuel, 2 * length (objectTail m ++ r) + 2 <= fuel -> NoDup (acc ++ m).*1 -> decodeObject fuel d acc (objectTail m ++ r) = inl (acc ++ m, r)) as H; [|by rewrite H by (done || lia)].
    clear -IH Hs. induction m as [|[k v] m IHm]; intros acc fuel Hf Hn; (destruct fuel as [|fuel]; [lia|]); [cbn; by rewrite app_nil_r|].
    apply Forall_cons in IH as [IHv IH], Hs as [Hv Hs]. change (objectTail ((k, v) :: m)) with (TStr k :: tokensOf v ++ objectTail m) in *. cbn [fst snd app length] in *. rewrite <- app_assoc in *. rewrite length_app in Hf. cbn [decodeObject].
    destruct (hasKey k acc) eqn:Ek.
    { exfalso. apply hasKey_spec in Ek. rewrite fmap_app in Hn. apply NoDup_app in Hn as (_ & Hn & _). apply (Hn k Ek). by left. }
    rewrite IHv; [|rewrite length_app; lia|done]. rewrite IHm; [by rewrite <- app_assoc|done|done|lia|]. by rewrite <- app_assoc.
Qed.

(** What the decoder answers, read off the token stream. *)
Lemma strict_decode_iff data m :
  decodeStrictObject data = inl m <->
  strictOk 0 (JObj m) /\ exists r, jsonTokens data = tokensOf (JObj m) ++ r /\ match r with [] | TBad :: _ => True | _ => False end.
Proof.
  unfold decodeStrictObject, decodeFuel. cbv zeta. set (ts := jsonTokens data). split.
  - destruct (decodeStrictValue _ 0 ts) as [[v r]|e] eqn:E; [|done]. apply decode_sound in E as [Ets Hok]. destruct v as [| | | | |fields]; try done.
    intros H. assert (fields = m) as ->; [destruct r as [|[] r]; congruence|]. split; [done|]. exists r. split; [done|]. by destruct r as [|[] r].
  - intros (Hok & r & -> & Hr). rewrite decode_complete; [|lia|done]. by destruct r as [|[] r].
Qed.

(** C10: the strict decoder on every input. It ends. Whatever object it answers is
    one the token stream starts with, no object in it has a key twice and it nests
    at most 32 levels. On text that is tokens throughout it answers an object
    exactly when the stream is that object, whole, with those two properties. A
    good object followed by any further token is refused as trailing data. Text
    after the object in which no token starts (a stray bracket, say) is not
    refused, although the comment on decodeStrictObject says trailing data is:
    that case is left out of the equivalence here, and
    [trailing_text_is_accepted] below shows it. *)
Theorem strict_decode_exact (data : string) (m : list (string * json)) :
  decodeStrictObject data <> inr DecFuel /\
  (decodeStrictObject data = inl m -> strictOk 0 (JObj m) /\ exists r, jsonTokens data = tokensOf (JObj m) ++ r) /\
  (TBad ∉ jsonTokens data -> decodeStrictObject data = inl m <-> strictOk 0 (JObj m) /\ jsonTokens data = tokensOf (JObj m)) /\
  (forall t r, strictOk 0 (JObj m) -> jsonTokens data = tokensOf (JObj m) ++ t :: r -> t <> TBad -> decodeStrictObject data = inr DecTrailing).
Proof.
  split_and!.
  - unfold decodeStrictObject, decodeFuel. cbv zeta. set (ts := jsonTokens data). destruct (decode_progress (S (2 * length ts))) as (H & _).
    specialize (H 0 ts ltac:(lia)). destruct (decodeStrictValue _ 0 ts) as [[v r]|e]; [|by intros [= ->]]. destruct v; try done. by destruct r as [|[] r].
  - intros (Hok & r & Hr & _)%strict_decode_iff. by eauto.
  - intros Hb. rewrite strict_decode_iff. split.
    + intros (Hok & r & Hr & Ht). split; [done|]. destruct r as [|[] r]; try done; [by rewrite app_nil_r in Hr|]. exfalso. apply Hb. rewrite Hr. set_solver.
    + intros [Hok Hr]. split; [done|]. exists []. by rewrite app_nil_r.
  - intros t r Hok Hr Ht. unfold decodeStrictObject, decodeFuel. cbv zeta. rewrite Hr, decode_complete; [|lia|done]. by destruct t.
Qed.

(** Text with apostrophes for its quotes. *)
Fixpoint dq (s : string) : string := match s with EmptyString => EmptyString | String c r => String (if Nat.eqb (code c) 39 then byteOf 34 else c) (dq r) end.

(** Text after the object that does not start a token is not seen as trailing
    data. *)
Lemma trailing_text_is_accepted :
  decodeStrictObject (dq "{'alg':'RS256'} ]garbage") = inl [("alg", JStr "RS256")]%string /\
  decodeStrictObject (dq "{'alg':'RS256'} 'x'") = inr DecTrailing.
Proof. split; vm_compute; reflexivity. Qed.
