(* ===== verification/JwtProps.v ===== *)
(** * JwtProps: an accepted token is proven, and refusals blame the right side *)

From Stdlib Require Import Ascii String.
From S2P Require Import Prelude StoreErr RateLimit RateSync Objective Common Admission Gateway Identity Classes ClassProps NetIdText JsonTok Jwt JwtDecodeProps.

Open Scope Z_scope.
Open Scope igw_scope.

Section System.
Context {K : Type} (urlParse : string -> option (string * string)) (jwkParse : string -> option (list (jwkKey K))) (lookupAlg : string -> bool)
  (jwsVerify : string -> string -> K -> option string) (jwksURI : string -> option string) (numDate : string -> option Z).

Abbreviation network := (string -> option (Z * string)).

(** ** Runs of the profiles and their goroutines *)

(** The configuration, with the instants and networks of the fetches so far. *)
Record jwtSys := JwtSys { jh : JWTAuthProfileH K; fetched : list (Z * network) }.

Definition setHeap (i : nat) (ps : profileState K) (m : Manager K) : Manager K := Mgr (profiles m) (<[i := ps]> (heap m)) (next m) (closed m).
Definition setMgr (m : Manager K) (h : JWTAuthProfileH K) : JWTAuthProfileH K := ProfH (hProfiles h) m (hClasses h).

Inductive jwtStep : jwtSys -> jwtSys -> Prop :=
  | StepAdd pm s : jwtStep s (JwtSys (ProfileAdd urlParse pm (jh s)).2 (fetched s))
  | StepDel refs name s : jwtStep s (JwtSys (ProfileDel refs name (jh s)).2 (fetched s))
  | StepRun i ps ps' get now w s :
      heap (hMgr (jh s)) !! i = Some ps -> runProfile urlParse jwkParse jwksURI get now w ps = Some ps' ->
      jwtStep s (JwtSys (setMgr (setHeap i ps' (hMgr (jh s))) (jh s)) ((now, get) :: fetched s))
  | StepVerify now token name s :
      jwtStep s (JwtSys (setMgr (Verify lookupAlg jwsVerify numDate now token name (hMgr (jh s))).2 (jh s)) (fetched s)).

Definition jwtStart : jwtSys := JwtSys JWTAuthProfileInit [].

(** ** Where keys come from *)

Section Provenance.
Context (log : list (Z * network)).

(** The address keys are read from: the configured one, or the one the issuer's
    discovery document named at a fetch. *)
Definition trustedURL (p : Profile) (u : string) : Prop :=
  if pJWKSURL p ==s "" then
    exists t get body, (t, get) ∈ log /\ httpGet get (discoveryURL p) = Some body /\ jwksURI body = Some u /\ checkHTTPURL urlParse u = true
  else u = pJWKSURL p.

(** The keys were served at that address, at that instant. *)
Definition servedKeys (p : Profile) (s : keySnapshot K) : Prop :=
  exists u get body, trustedURL p u /\ (fetchedAt s, get) ∈ log /\ httpGet get u = Some body /\ parseKeySet jwkParse body = Some (set s).

Record psOk (ps : profileState K) : Prop := {
  po_valid : validate urlParse (prof ps) = true;
  po_url : forall u, jwksURL ps = Some u -> trustedURL (prof ps) u;
  po_snap : forall s, snap ps = Some s -> set s <> [] /\ servedKeys (prof ps) s;
  po_backoff : match pc ps with FirstFetch b | Waiting b => defaultBackoffBase <= b <= defaultBackoffCap | _ => True end
}.
End Provenance.

Lemma trusted_mono log log' p u : (forall x, x ∈ log -> x ∈ log') -> trustedURL log p u -> trustedURL log' p u.
Proof. intros H. unfold trustedURL. destruct (_ ==s _); [|done]. intros (t & get & body & Hin & Hr). eauto 10. Qed.

Lemma served_mono log log' p s : (forall x, x ∈ log -> x ∈ log') -> servedKeys log p s -> servedKeys log' p s.
Proof. intros H (u & get & body & Hu & Hin & Hr). exists u, get, body. split; [by eapply trusted_mono|]. auto. Qed.

Lemma psOk_mono log log' ps : (forall x, x ∈ log -> x ∈ log') -> psOk log ps -> psOk log' ps.
Proof.
  intros H [H1 H2 H3 H4]. split; [done| |intros s Hs; destruct (H3 s Hs) as [? ?]; split; [done|by eapply served_mono]|done].
  intros u Hu. eapply trusted_mono; eauto.
Qed.

(** A change that touches neither the configuration nor the keys. *)
Lemma psOk_same log ps ps' : prof ps' = prof ps -> snap ps' = snap ps -> jwksURL ps' = jwksURL ps -> (match pc ps' with FirstFetch b | Waiting b => defaultBackoffBase <= b <= defaultBackoffCap | _ => True end) ->
  psOk log ps -> psOk log ps'.
Proof. intros E1 E2 E3 Hb [H1 H2 H3 H4]. split; rewrite ?E1; [done| | |done]; [intros u; rewrite E3; apply H2|intros s; rewrite E2; apply H3]. Qed.

Lemma fetch_spec log get now ps : psOk log ps ->
  let '(ok, ps') := fetchOnce urlParse jwkParse jwksURI get now ps in
  psOk ((now, get) :: log) ps' /\ prof ps' = prof ps /\ pc ps' = pc ps /\ stopCh ps' = stopCh ps /\
  (ok = false -> snap ps' = snap ps) /\ (ok = true -> exists s, snap ps' = Some s /\ fetchedAt s = now).
Proof.
  intros Hps. assert (forall x, x ∈ log -> x ∈ (now, get) :: log) as Hsub by set_solver. pose proof (psOk_mono _ _ _ Hsub Hps) as Hps'. unfold fetchOnce.
  assert (let '(u, ps1) := resolveJWKSURL urlParse jwksURI get ps in
    psOk ((now, get) :: log) ps1 /\ prof ps1 = prof ps /\ pc ps1 = pc ps /\ stopCh ps1 = stopCh ps /\ snap ps1 = snap ps /\ forall x, u = Some x -> trustedURL ((now, get) :: log) (prof ps) x) as Hr.
  { unfold resolveJWKSURL. destruct (jwksURL ps) as [u|] eqn:Eu; [split_and!; try done; intros x [= <-]; by apply Hps'|]. cbv zeta.
    match goal with |- context [match ?e with Some u => (Some u, _) | None => (None, ps) end] => destruct e as [u|] eqn:E end; [|split_and!; done].
    assert (trustedURL ((now, get) :: log) (prof ps) u) as Ht.
    { unfold trustedURL. destruct (pJWKSURL (prof ps) ==s "") eqn:Ej; [|by injection E as <-]. destruct (httpGet get _) as [body|] eqn:Eb; [|done]. destruct (jwksURI body) as [v|] eqn:Ev; [|done].
      destruct (v ==s ""); [done|]. destruct (checkHTTPURL urlParse v) eqn:Ec; [|done]. injection E as <-. exists now, get, body. split; [by left|done]. }
    split_and!; try done; [|by intros x [= <-]]. destruct Hps' as [H1 H2 H3 H4]. split; cbn; try done. by intros x [= <-]. }
  destruct (resolveJWKSURL urlParse jwksURI get ps) as [u ps1]. destruct Hr as (R1 & R2 & R3 & R4 & R5 & R6).
  destruct u as [u|]; [|split_and!; try done]. destruct (httpGet get u) as [body|] eqn:Eb; [|split_and!; try done].
  destruct (parseKeySet jwkParse body) as [[|k keys]|] eqn:Ep; [split_and!; try done| |split_and!; try done].
  split_and!; try done; [|by intros _; eexists]. destruct R1 as [H1 H2 H3 H4]. split; cbn; try done. intros s [= <-]. cbn. split; [done|].
  exists u, get, body. split_and!; [rewrite R2; by apply R6|by left|done|done].
Qed.

Lemma run_ps log get now w ps ps' : psOk log ps -> runProfile urlParse jwkParse jwksURI get now w ps = Some ps' ->
  psOk ((now, get) :: log) ps' /\ prof ps' = prof ps /\ stopCh ps' = stopCh ps /\ (snap ps' = snap ps \/ exists s, snap ps' = Some s /\ fetchedAt s = now).
Proof.
  intros Hps. pose proof (fetch_spec log get now ps Hps) as Hf. assert (psOk ((now, get) :: log) ps) as Hps' by (eapply psOk_mono; [|done]; set_solver).
  unfold runProfile. pose proof (po_backoff _ _ Hps) as Hb. destruct (pc ps) as [b|b| | | |] eqn:Epc; try done.
  - destruct (fetchOnce urlParse jwkParse jwksURI get now ps) as [ok ps1]. destruct Hf as (F1 & F2 & F3 & F4 & F5 & F6).
    assert (forall c, (match c with FirstFetch b | Waiting b => defaultBackoffBase <= b <= defaultBackoffCap | _ => True end) ->
      psOk ((now, get) :: log) (setPc c ps1) /\ prof (setPc c ps1) = prof ps /\ stopCh (setPc c ps1) = stopCh ps /\ (snap (setPc c ps1) = snap ps \/ exists s, snap (setPc c ps1) = Some s /\ fetchedAt s = now)) as H.
    { intros c Hc. split_and!; [by apply (psOk_same _ ps1)|done|done|]. cbn. destruct ok; auto. }
    destruct ok; [destruct (_ <=? 0)|]; intros [= <-]; by apply H.
  - destruct w; [destruct (stopCh ps) eqn:Es; [|done]| |done]; intros [= <-]; (split_and!; [apply (psOk_same _ ps); try done|done|done|by left]).
    cbn. unfold defaultBackoffBase, defaultBackoffCap, second in *. destruct (Z.ltb_spec (60 * 1000000000) (b * 2)); lia.
  - destruct w; [destruct (stopCh ps) eqn:Es; [|done]| |destruct (refetchCh ps); [|done]]; intros [= <-]; (split_and!; [by apply (psOk_same _ ps)|done|done|by left]).
  - destruct (fetchOnce urlParse jwkParse jwksURI get now ps) as [ok ps1]. destruct Hf as (F1 & F2 & F3 & F4 & F5 & F6). intros [= <-].
    split_and!; [by apply (psOk_same _ ps1)|done|done|]. cbn. destruct ok; auto.
Qed.

(** ** The manager *)

Record mgrOk (log : list (Z * network)) (m : Manager K) : Prop := {
  mo_active : forall name i, profiles m !! name = Some i -> exists ps, heap m !! i = Some ps /\ pName (prof ps) = name /\ stopCh ps = false;
  mo_heap : forall i ps, heap m !! i = Some ps -> (i < next m)%nat /\ psOk log ps;
  mo_open : closed m = false
}.

(** The configuration a name is verified against. *)
Definition active (name : string) (m : Manager K) : option Profile := (fun x => prof x.2) <$> profile name m.

Lemma active_at name i ps m : profiles m !! name = Some i -> heap m !! i = Some ps -> profile name m = Some (i, ps) /\ active name m = Some (prof ps).
Proof. intros H1 H2. unfold active, profile. by rewrite H1, H2. Qed.

Lemma one_name log m n n' i : mgrOk log m -> profiles m !! n = Some i -> profiles m !! n' = Some i -> n = n'.
Proof. intros H H1 H2. destruct (mo_active _ _ H _ _ H1) as (ps & E1 & <- & _), (mo_active _ _ H _ _ H2) as (ps' & E2 & <- & _). congruence. Qed.

Lemma stopAt_ne i j (h : gmap nat (profileState K)) : i <> j -> stopAt i h !! j = h !! j.
Proof. intros Hne. unfold stopAt. destruct (h !! i); [by rewrite lookup_insert_ne|done]. Qed.

Lemma stopAt_some i j (h : gmap nat (profileState K)) ps : stopAt i h !! j = Some ps -> exists ps0, h !! j = Some ps0 /\ (ps = ps0 \/ ps = stopPs ps0).
Proof.
  unfold stopAt. destruct (h !! i) as [x|] eqn:E; [|by eauto]. destruct (decide (i = j)) as [<-|]; [rewrite lookup_insert_eq|rewrite lookup_insert_ne by done]; [|by eauto].
  intros [= <-]. eauto.
Qed.

Lemma stopPs_ok log (ps : profileState K) : psOk log ps -> psOk log (stopPs ps).
Proof. intros H. apply (psOk_same _ ps); try done. apply H. Qed.

Lemma normalize_name p : pName (normalize p) = pName p.
Proof. done. Qed.

(** A fresh profile takes a name: its own state starts without keys, and the states
    behind other names stay. *)
Lemma fresh_ok log m p h : mgrOk log m -> validate urlParse p = true ->
  (forall i ps, h !! i = Some ps -> exists ps0, heap m !! i = Some ps0 /\ (ps = ps0 \/ ps = stopPs ps0)) ->
  (forall n i, profiles m !! n = Some i -> n <> pName p -> h !! i = heap m !! i) ->
  mgrOk log (Mgr (<[pName p := next m]> (profiles m)) (<[next m := PState p None None false false None (FirstFetch defaultBackoffBase)]> h) (S (next m)) false).
Proof.
  intros Hm Hv Hh Hk. split; cbn [profiles heap next closed].
  - intros n i. destruct (decide (n = pName p)) as [->|Hne].
    + rewrite lookup_insert_eq. intros [= <-]. rewrite lookup_insert_eq. eexists. split; [done|]. by cbn.
    + rewrite lookup_insert_ne by done. intros Hi. destruct (mo_active _ _ Hm n i Hi) as (ps & Hps & Hn & Hs). destruct (mo_heap _ _ Hm i ps Hps) as [Hlt _].
      rewrite lookup_insert_ne by lia. rewrite (Hk n i Hi Hne). eauto.
  - intros i ps. destruct (decide (i = next m)) as [->|Hne].
    + rewrite lookup_insert_eq. intros [= <-]. split; [lia|]. by split.
    + rewrite lookup_insert_ne by done. intros (ps0 & H0 & Hc)%Hh. destruct (mo_heap _ _ Hm i ps0 H0) as [Hlt Hok]. split; [lia|].
      destruct Hc as [->| ->]; [done|by apply stopPs_ok].
  - done.
Qed.

(** What a change of one profile leaves of the others. *)
Definition othersKept (name : string) (m m' : Manager K) : Prop := forall n, n <> name -> active n m' = active n m.

Lemma SetProfile_spec log p m : mgrOk log m ->
  let '(ok, m') := SetProfile urlParse p m in
  mgrOk log m' /\ othersKept (pName p) m m' /\ (ok = false -> m' = m) /\ (ok = true -> active (pName p) m' = Some (normalize p)).
Proof.
  intros Hm. unfold SetProfile. cbv zeta. destruct (validate urlParse (normalize p)) eqn:Ev; cbn [negb]; [|by split_and!]. rewrite (mo_open _ _ Hm). rewrite normalize_name.
  assert (forall h, (forall i ps, h !! i = Some ps -> exists ps0, heap m !! i = Some ps0 /\ (ps = ps0 \/ ps = stopPs ps0)) ->
    (forall n i, profiles m !! n = Some i -> n <> pName p -> h !! i = heap m !! i) ->
    let m' := Mgr (<[pName p := next m]> (profiles m)) (<[next m := PState (normalize p) None None false false None (FirstFetch defaultBackoffBase)]> h) (S (next m)) false in
    mgrOk log m' /\ othersKept (pName p) m m' /\ (true = false -> m' = m) /\ (true = true -> active (pName p) m' = Some (normalize p))) as Hf.
  { intros h Hh Hk m'. split_and!; [apply (fresh_ok log m (normalize p) h Hm Ev Hh Hk)| |done|].
    - intros n Hne. unfold active, profile. cbn [m' profiles heap]. rewrite lookup_insert_ne by done. destruct (profiles m !! n) as [i|] eqn:Ei; [|done].
      destruct (mo_active _ _ Hm n i Ei) as (ps & Hps & _). destruct (mo_heap _ _ Hm i ps Hps) as [Hlt _]. rewrite lookup_insert_ne by lia. by rewrite (Hk n i Ei Hne).
    - intros _. unfold active, profile. cbn [m' profiles heap]. by rewrite !lookup_insert_eq. }
  destruct (profiles m !! pName p) as [i|] eqn:Ei; [|apply Hf; eauto]. destruct (mo_active _ _ Hm _ _ Ei) as (old & Ho & Hn & _). rewrite Ho.
  destruct (bool_decide_reflect (prof old = normalize p)) as [E|Hdiff].
  - split_and!; try done. intros _. destruct (active_at _ _ _ _ Ei Ho) as [_ ->]. by rewrite E.
  - apply Hf; [intros j ps; apply stopAt_some|]. intros n j Hj Hne. apply stopAt_ne. intros <-. by apply Hne, (one_name log m n (pName p) i).
Qed.

Lemma RemoveProfile_spec log name m : mgrOk log m -> mgrOk log (RemoveProfile name m) /\ othersKept name m (RemoveProfile name m) /\ active name (RemoveProfile name m) = None.
Proof.
  intros Hm. unfold RemoveProfile. destruct (profiles m !! name) as [i|] eqn:Ei; [|split_and!; [done|done|unfold active, profile; by rewrite Ei]].
  assert (forall n j, profiles m !! n = Some j -> n <> name -> stopAt i (heap m) !! j = heap m !! j) as Hk.
  { intros n j Hj Hne. apply stopAt_ne. intros <-. by apply Hne, (one_name log m n name i). }
  split_and!.
  - split; cbn [profiles heap next closed]; [| |apply Hm].
    + intros n j [Hne Hj]%lookup_delete_Some. rewrite (Hk n j Hj) by done. by apply (mo_active _ _ Hm).
    + intros j ps (ps0 & H0 & Hc)%stopAt_some. destruct (mo_heap _ _ Hm j ps0 H0) as [Hlt Hok]. split; [done|]. destruct Hc as [->| ->]; [done|by apply stopPs_ok].
  - intros n Hne. unfold active, profile. cbn [profiles heap]. rewrite lookup_delete_ne by done. destruct (profiles m !! n) as [j|] eqn:Ej; [|done]. by rewrite (Hk n j Ej Hne).
  - unfold active, profile. cbn [profiles]. by rewrite lookup_delete_eq.
Qed.

(** One state replaced by one of the same configuration. *)
Lemma setHeap_spec log log' i ps ps' m : mgrOk log m -> (forall x, x ∈ log -> x ∈ log') -> heap m !! i = Some ps -> psOk log' ps' -> prof ps' = prof ps -> stopCh ps' = stopCh ps ->
  mgrOk log' (setHeap i ps' m) /\ forall n, active n (setHeap i ps' m) = active n m.
Proof.
  intros Hm Hsub Hi Hok Ep Es. split.
  - split; cbn [setHeap profiles heap next closed]; [| |apply Hm].
    + intros n j Hj. destruct (mo_active _ _ Hm n j Hj) as (x & Hx & Hn & Hs). destruct (decide (i = j)) as [<-|]; [|by rewrite lookup_insert_ne; eauto].
      rewrite lookup_insert_eq. rewrite Hi in Hx. injection Hx as <-. exists ps'. by rewrite Ep, Es.
    + intros j x. destruct (decide (i = j)) as [<-|]; [rewrite lookup_insert_eq; intros [= <-]; split; [by apply (mo_heap _ _ Hm i ps)|done]|].
      rewrite lookup_insert_ne by done. intros Hx. destruct (mo_heap _ _ Hm j x Hx) as [? ?]. split; [done|by eapply psOk_mono].
  - intros n. unfold active, profile. cbn [setHeap profiles heap]. destruct (profiles m !! n) as [j|]; [|done]. destruct (decide (i = j)) as [<-|]; [|by rewrite lookup_insert_ne].
    rewrite lookup_insert_eq, Hi. cbn. by rewrite Ep.
Qed.

Lemma requestRefetch_same now (ps : profileState K) : prof (requestRefetch now ps) = prof ps /\ snap (requestRefetch now ps) = snap ps /\ jwksURL (requestRefetch now ps) = jwksURL ps /\
  stopCh (requestRefetch now ps) = stopCh ps /\ pc (requestRefetch now ps) = pc ps.
Proof. unfold requestRefetch. by destruct (match lastRefetch ps with Some t => _ | None => _ end). Qed.

Lemma profile_some name m i (ps : profileState K) : profile name m = Some (i, ps) -> profiles m !! name = Some i /\ heap m !! i = Some ps.
Proof. unfold profile. destruct (profiles m !! name) as [j|]; [|done]. intros (x & Hx & [= <- <-])%fmap_Some. done. Qed.

(** A verification changes at most the refetch request of the profile it is for. *)
Lemma Verify_mgr now token name m :
  (Verify lookupAlg jwsVerify numDate now token name m).2 = m \/
  exists i ps, heap m !! i = Some ps /\ (Verify lookupAlg jwsVerify numDate now token name m).2 = setHeap i (requestRefetch now ps) m.
Proof.
  unfold Verify. destruct (profile name m) as [[i ps]|] eqn:E; [|by left]. apply profile_some in E as [_ Hi]. destruct (token ==s ""); [by left|]. destruct (_ <? _)%nat; [by left|].
  destruct (parseCompactHeader token) as [hdr|]; [|by left]. destruct (_ || _); [by left|]. destruct (negb _); [by left|]. destruct (snap ps) as [s|]; [|by left].
  destruct (_ >? _); [by left|]. destruct (candidates _ _ _); [right; eauto|by left].
Qed.

(** ** The system *)

Record sysOk (s : jwtSys) : Prop := {
  so_mgr : mgrOk (fetched s) (hMgr (jh s));
  so_agree : forall n, active n (hMgr (jh s)) = (fun pm => normalize (mProfile pm)) <$> hProfiles (jh s) !! n;
  so_named : forall n pm, hProfiles (jh s) !! n = Some pm -> pName (mProfile pm) = n;
  so_classes : match hClasses (jh s) with Some c => c = publishProfileClasses (hProfiles (jh s)) | None => hProfiles (jh s) = ∅ end
}.

Lemma jwt_start_ok : sysOk jwtStart.
Proof.
  split.
  - split; [| |done]; intros *; cbn; by rewrite lookup_empty.
  - intros n. unfold active, profile. cbn. by rewrite !lookup_empty.
  - intros n pm. cbn. by rewrite lookup_empty.
  - done.
Qed.

Lemma step_ok s s' : jwtStep s s' -> sysOk s -> sysOk s'.
Proof.
  intros Hstep [Hm Ha Hn Hc]. destruct Hstep as [pm s|refs name s|i ps ps' get now w s Hi Hrun|now token name s].
  - unfold ProfileAdd. destruct (negb (bool_decide _)); [by split|]. pose proof (SetProfile_spec _ (jwtProfileFromMod pm) _ Hm) as Hs. unfold jwtProfileFromMod in *.
    destruct (SetProfile urlParse (mProfile pm) (hMgr (jh s))) as [ok m']. destruct Hs as (S1 & S2 & S3 & S4). destruct ok; cbn [negb snd].
    + split; cbn [jh hMgr hProfiles hClasses fetched]; [done| | |done].
      * intros n. destruct (decide (n = pName (mProfile pm))) as [->|Hne]; [rewrite lookup_insert_eq; by apply S4|]. rewrite lookup_insert_ne by done. by rewrite (S2 n Hne).
      * intros n x. destruct (decide (n = pName (mProfile pm))) as [->|Hne]; [rewrite lookup_insert_eq; by intros [= <-]|]. rewrite lookup_insert_ne by done. apply Hn.
    + rewrite (S3 eq_refl). by split.
  - unfold ProfileDel. destruct (hProfiles (jh s) !! name) as [pm|] eqn:En; [|by split]. destruct (refs name); [|by split]. cbn [snd].
    destruct (RemoveProfile_spec _ name _ Hm) as (R1 & R2 & R3). split; cbn [jh hMgr hProfiles hClasses fetched]; [done| | |done].
    + intros n. destruct (decide (n = name)) as [->|Hne]; [by rewrite lookup_delete_eq, R3|]. rewrite lookup_delete_ne by done. by rewrite (R2 n Hne).
    + intros n x [_ Hx]%lookup_delete_Some. by apply Hn.
  - destruct (mo_heap _ _ Hm i ps Hi) as [_ Hps]. destruct (run_ps _ _ _ _ _ _ Hps Hrun) as (R1 & R2 & R3 & _).
    destruct (setHeap_spec (fetched s) ((now, get) :: fetched s) i ps ps' _ Hm) as [M1 M2]; try done; [set_solver|].
    split; cbn [jh setMgr hMgr hProfiles hClasses fetched]; try done. intros n. by rewrite M2.
  - destruct (Verify_mgr now token name (hMgr (jh s))) as [->|(i & ps & Hi & ->)]; [by split|].
    destruct (requestRefetch_same now ps) as (E1 & E2 & E3 & E4 & E5). destruct (mo_heap _ _ Hm i ps Hi) as [_ Hps].
    destruct (setHeap_spec (fetched s) (fetched s) i ps (requestRefetch now ps) _ Hm) as [M1 M2]; try done.
    { apply (psOk_same _ ps); try done. rewrite E5. apply Hps. }
    split; cbn [jh setMgr hMgr hProfiles hClasses fetched]; try done. intros n. by rewrite M2.
Qed.

Lemma reach_ok s : rtc jwtStep jwtStart s -> sysOk s.
Proof. apply rtc_invariant; [|apply jwt_start_ok]. intros x y Hx Hxy. by eapply step_ok. Qed.

(** ** The mapped identity *)

Lemma carryable_valid id : carryable id = true -> ValidateQoSIdentity id = true /\ (String.length id <= 127)%nat.
Proof.
  unfold carryable, safeIdentity, ValidateQoSIdentity. intros [[H1 H2]%andb_true_iff H3]%andb_true_iff. apply negb_true_iff, Nat.ltb_ge in H1. split; [|exact H1].
  rewrite H3, andb_true_r. apply negb_true_iff. eapply allBytes_NotContains; [exact H2|]. reflexivity.
Qed.

Lemma mapClaims_spec p fields c : mapClaims p fields = inl c ->
  Tenant c <> ""%string /\ carryable (Tenant c) = true /\ carryable (User c) = true /\ (AllowAllModels c = true -> pModelAuthz p = ModelAuthzAllowAll).
Proof.
  unfold mapClaims. cbv zeta. destruct (String.eqb_spec (orElse (stringClaim fields (pTenantClaim p)) (pDefaultTenant p)) "") as [|Hne]; [done|].
  destruct (carryable (orElse _ _)) eqn:C1; [|done]. destruct (carryable (stringClaim fields (pUserClaim p))) eqn:C2; [|done]. destruct (carryable (stringClaim fields (pUsernameClaim p))); [|done].
  cbn [andb negb]. destruct (if pModelsClaim p ==s "" then None else _); intros [= <-]; cbn [Tenant User AllowAllModels]; split_and!; try done.
  by intros [_ E%String.eqb_eq]%andb_true_iff.
Qed.

(** ** What a verified token has shown *)

Definition inWindow (p : Profile) (fields : list (string * json)) (now : Z) : Prop :=
  let leeway := i64 (pLeewaySec p * second) in
  (exists exp, numClaim numDate fields "exp" = Some (Some exp) /\ now < exp + leeway) /\
  (forall t, numClaim numDate fields "nbf" = Some (Some t) -> t - leeway <= now) /\ (forall t, numClaim numDate fields "iat" = Some (Some t) -> t - leeway <= now).

Lemma notBefore_none fields n leeway now t : notBefore numDate fields n leeway now = None -> numClaim numDate fields n = Some (Some t) -> t - leeway <= now.
Proof. unfold notBefore. intros H E. rewrite E in H. destruct (Z.ltb_spec now (t - leeway)); [done|lia]. Qed.

Lemma registered_spec p fields now : pIssuer p <> ""%string -> validateRegisteredClaims numDate p fields now = None ->
  inWindow p fields now /\ field "iss" fields = Some (JStr (pIssuer p)) /\ (pAudiences p = [] \/ audienceMatches (pAudiences p) fields = true).
Proof.
  intros Hi. unfold validateRegisteredClaims. cbv zeta. destruct (numClaim numDate fields "exp") as [[exp|]|] eqn:Ee; try done. destruct (Z.ltb_spec now (exp + i64 (pLeewaySec p * second))); [|done]. cbn [negb].
  destruct (notBefore numDate fields "nbf" _ now) eqn:E1; [done|]. destruct (notBefore numDate fields "iat" _ now) eqn:E2; [done|].
  destruct (String.eqb_spec (headerString "iss" fields) (pIssuer p)) as [E|]; [|done]. cbn [negb]. destruct (_ && _) eqn:Ea; [done|]. intros _. split_and!.
  - split_and!; [by exists exp|intros t; by apply notBefore_none|intros t; by apply notBefore_none].
  - unfold headerString in E. destruct (field "iss" fields) as [[]|]; try congruence.
  - destruct (pAudiences p); [by left|right]. cbn [length Nat.eqb negb andb] in Ea. by apply negb_false_iff in Ea.
Qed.

Lemma firstSome_in {A B} (f : A -> option B) l y : firstSome f l = Some y -> exists x, x ∈ l /\ f x = Some y.
Proof.
  unfold firstSome. induction l as [|x l IH]; cbn; [done|]. destruct (f x) eqn:E; cbn; [intros [= <-]; exists x; split; [by left|done]|].
  intros (z & Hz & Hf)%IH. exists z. split; [by right|done].
Qed.

Lemma valid_issuer p : validate urlParse p = true -> pIssuer p <> ""%string /\ forall a, a ∈ pAlgs p -> symmetricAlg a = false /\ a ∈ supportedAlgs.
Proof.
  unfold validate. rewrite !andb_true_iff. intros ((((((((_ & _) & H1) & _) & H2) & _) & _) & _) & _). split.
  - intros E. unfold checkHTTPURL in H1. by rewrite E in H1.
  - intros a Ha. rewrite forallb_forall in H2. specialize (H2 a ltac:(by apply list_elem_of_In)). apply andb_true_iff in H2 as [H3%negb_true_iff H4%bool_decide_eq_true]. done.
Qed.

(** C8: an accepted token has proven everything the gate relies on. In any history of
    profile changes, fetches, timer wake-ups and verifications, a token that
    verifies under a profile is signed, with an asymmetric algorithm the profile
    accepts, by a key of the token's key id and type that was served no longer
    than a day ago at the address of the profile as it is configured now; its
    payload decodes strictly, is inside its time window, names the profile's issuer
    and audience, and maps to a tenant; tenant and user are identities that no
    quota bucket key can confuse. *)
Theorem accepted_token_is_proven (s : jwtSys) (now : Z) (token name : string) (claims : Claims) (m' : Manager K) :
  rtc jwtStep jwtStart s ->
  Verify lookupAlg jwsVerify numDate now token name (hMgr (jh s)) = (inl claims, m') ->
  exists pm hdr k payload fields, let p := normalize (mProfile pm) in
    hProfiles (jh s) !! name = Some pm /\ parseCompactHeader token = Some hdr /\
    (Alg hdr ∈ pAlgs p /\ Alg hdr ∈ supportedAlgs /\ symmetricAlg (Alg hdr) = false) /\
    (exists keys, servedKeys (fetched s) p keys /\ now - fetchedAt keys <= defaultMaxStaleness /\ k ∈ set keys) /\
    (Kid hdr = ""%string \/ sKid k = Kid hdr) /\ sKty k = algKty (Alg hdr) /\
    jwsVerify token (Alg hdr) (sKey k) = Some payload /\ decodeStrictObject payload = inl fields /\
    inWindow p fields now /\ field "iss" fields = Some (JStr (pIssuer p)) /\ (pAudiences p = [] \/ audienceMatches (pAudiences p) fields = true) /\
    mapClaims p fields = inl claims /\ Tenant claims <> ""%string /\ ValidateQoSIdentity (Tenant claims) = true /\ ValidateQoSIdentity (User claims) = true.
Proof.
  intros Hs%reach_ok. destruct Hs as [Hm Hag _ _]. unfold Verify. destruct (profile name (hMgr (jh s))) as [[i ps]|] eqn:Ep; [|done].
  pose proof (profile_some _ _ _ _ Ep) as [Hn Hi]. destruct (mo_heap _ _ Hm i ps Hi) as [_ Hps]. destruct (active_at _ _ _ _ Hn Hi) as [_ Hact]. rewrite Hag in Hact.
  apply fmap_Some in Hact as (pm & Hpm & Eprof). destruct (token ==s ""); [done|]. destruct (_ <? _)%nat; [done|].
  destruct (parseCompactHeader token) as [hdr|] eqn:Eh; [|done]. destruct ((Alg hdr ==s "") || symmetricAlg (Alg hdr)); [done|]. destruct (bool_decide_reflect (Alg hdr ∈ pAlgs (prof ps))) as [Ha|]; [|done]. cbn [negb].
  destruct (snap ps) as [sn|] eqn:Es; [|done]. destruct (Z.ltb_spec defaultMaxStaleness (now - fetchedAt sn)) as [|Hst]; [done|]. destruct (candidates (set sn) (Kid hdr) (Alg hdr)) as [|k0 ks] eqn:Ec; [done|].
  unfold verifyWith. destruct (firstSome (verifyToken lookupAlg jwsVerify token (Alg hdr)) (k0 :: ks)) as [payload|] eqn:Ef; [|done]. apply firstSome_in in Ef as (k & Hk & Hv).
  destruct (decodeStrictObject payload) as [fields|] eqn:Ed; [|done]. destruct (validateRegisteredClaims numDate (prof ps) fields now) eqn:Er; [done|]. intros [= Hc _].
  destruct (valid_issuer _ (po_valid _ _ Hps)) as [Hiss Halg]. apply registered_spec in Er as (R1 & R2 & R3); [|done]. destruct (mapClaims_spec _ _ _ Hc) as (C1 & C2 & C3 & _).
  rewrite <- Ec in Hk. unfold candidates in Hk. apply list_elem_of_In, filter_In in Hk as [Hk Hcand]. apply andb_true_iff in Hcand as [[Hkid Hkty%String.eqb_eq]%andb_true_iff _].
  exists pm, hdr, k, payload, fields. cbv zeta. rewrite <- Eprof. destruct (Halg _ Ha) as [A1 A2]. destruct (po_snap _ _ Hps sn Es) as [_ Hserved].
  split_and!; try done.
  - exists sn. split_and!; [done|lia|by apply list_elem_of_In].
  - destruct (String.eqb_spec (Kid hdr) ""); [by left|right]. cbn [negb andb] in Hkid. rewrite negb_involutive in Hkid. by apply String.eqb_eq in Hkid.
  - unfold verifyToken in Hv. by destruct (lookupAlg (Alg hdr)).
  - by apply carryable_valid.
  - by apply carryable_valid.
Qed.

(** ** The bearer arm *)

(** The gateway cannot judge: the profile is not active, or the token has come as
    far as its keys and there are none it may trust. *)
Definition noVerdict (now : Z) (token name : string) (m : Manager K) : bool :=
  match profile name m with
  | None => true
  | Some (_, ps) =>
      negb (token ==s "") && negb (MaxTokenBytes <? String.length token)%nat &&
      match parseCompactHeader token with
      | None => false
      | Some hdr =>
          negb ((Alg hdr ==s "") || symmetricAlg (Alg hdr)) && bool_decide (Alg hdr ∈ pAlgs (prof ps)) &&
          match snap ps with None => true | Some s => now - fetchedAt s >? defaultMaxStaleness end
      end
  end.

Definition deniedAs (d : Z) (codes : list string) (e : VerdictError) : Prop := vDecision e = d /\ vCode e ∈ codes.
Abbreviation codes401 := [CodeMissingToken; CodeInvalidToken; CodeTokenExpired].

Lemma deny401_as r : deniedAs DecisionDeny401 codes401 (deny401 r).
Proof. split; [done|]. destruct r; cbn; set_solver. Qed.

Lemma notBefore_denies fields n leeway now e : notBefore numDate fields n leeway now = Some e -> deniedAs DecisionDeny401 codes401 e.
Proof. unfold notBefore. destruct (numClaim numDate fields n) as [[t|]|]; [destruct (now <? _)| |]; intros [= <-]; apply deny401_as. Qed.

Lemma registered_denies p fields now e : validateRegisteredClaims numDate p fields now = Some e -> deniedAs DecisionDeny401 codes401 e.
Proof.
  unfold validateRegisteredClaims. cbv zeta. destruct (numClaim numDate fields "exp") as [[exp|]|]; [|intros [= <-]; apply deny401_as|intros [= <-]; apply deny401_as].
  destruct (negb _); [intros [= <-]; apply deny401_as|]. destruct (notBefore numDate fields "nbf" _ now) eqn:E1; [intros [= <-]; by eapply notBefore_denies|].
  destruct (notBefore numDate fields "iat" _ now) eqn:E2; [intros [= <-]; by eapply notBefore_denies|]. destruct (negb _); [intros [= <-]; apply deny401_as|].
  destruct (_ && _); [intros [= <-]; apply deny401_as|done].
Qed.

Lemma mapClaims_denies p fields e : mapClaims p fields = inr e -> deniedAs DecisionDeny401 codes401 e.
Proof.
  unfold mapClaims. cbv zeta. destruct (_ ==s ""); [intros [= <-]; apply deny401_as|]. destruct (negb _); [intros [= <-]; apply deny401_as|].
  by destruct (if pModelsClaim p ==s "" then None else _).
Qed.

Lemma verifyWith_denies p token hdr cands now e : verifyWith lookupAlg jwsVerify numDate p token hdr cands now = inr e -> deniedAs DecisionDeny401 codes401 e.
Proof.
  unfold verifyWith. destruct (firstSome _ cands); [|intros [= <-]; apply deny401_as]. destruct (decodeStrictObject _); [|intros [= <-]; apply deny401_as].
  destruct (validateRegisteredClaims numDate p l now) eqn:E; [intros [= <-]; by eapply registered_denies|apply mapClaims_denies].
Qed.

Lemma verifyWith_claims p token hdr cands now c : verifyWith lookupAlg jwsVerify numDate p token hdr cands now = inl c -> carryable (Tenant c) = true /\ carryable (User c) = true /\ Tenant c <> ""%string.
Proof.
  unfold verifyWith. destruct (firstSome _ cands); [|done]. destruct (decodeStrictObject _); [|done]. destruct (validateRegisteredClaims _ _ _ _); [done|].
  intros (H1 & H2 & H3 & _)%mapClaims_spec. done.
Qed.

(** A verification refuses with 503 exactly when there is no verdict, else with 401. *)
Lemma Verify_verdict now token name m :
  match (Verify lookupAlg jwsVerify numDate now token name m).1 with
  | inl c => noVerdict now token name m = false /\ carryable (Tenant c) = true /\ carryable (User c) = true /\ Tenant c <> ""%string
  | inr e => if noVerdict now token name m then e = deny503 else deniedAs DecisionDeny401 codes401 e
  end.
Proof.
  unfold Verify, noVerdict. destruct (profile name m) as [[i ps]|]; [|done]. destruct (token ==s ""); [apply deny401_as|]. destruct (_ <? _)%nat; [apply deny401_as|]. cbn [negb andb].
  destruct (parseCompactHeader token) as [hdr|]; [|apply deny401_as]. destruct ((Alg hdr ==s "") || symmetricAlg (Alg hdr)); [apply deny401_as|]. cbn [negb andb].
  destruct (bool_decide (Alg hdr ∈ pAlgs (prof ps))); [|apply deny401_as]. cbn [negb andb]. destruct (snap ps) as [sn|]; [|done]. destruct (_ >? _); [done|].
  destruct (candidates _ _ _); [apply deny401_as|]. cbn [fst]. destruct (verifyWith _ _ _ _ _ _ _ _) eqn:E; [|by eapply verifyWith_denies].
  split; [done|]. by eapply verifyWith_claims.
Qed.

(** What the gate is told, per verdict. *)
Definition tableAllow (h : JWTAuthProfileH K) (profile model : string) (c : Claims) (r : bearerResult) : Prop :=
  rErrorCode r = ""%string /\ rTenant r = Tenant c /\ rUser r = User c /\ rTenant r <> ""%string /\
  0 <= rAuthFlags r < 4 /\
  (Z.testbit (rAuthFlags r) 0 = false <-> exists pm, hProfiles h !! profile = Some pm /\ pAuthorizationPassthrough (mProfile pm) = true) /\
  (Z.testbit (rAuthFlags r) 1 = true <-> exists pm, hProfiles h !! profile = Some pm /\ pForwardIdentity (mProfile pm) = true).

Lemma allow_row h profile model c : (String.length (Tenant c) <= 127)%nat -> (String.length (User c) <= 127)%nat -> Tenant c <> ""%string ->
  tableAllow h profile model c (Bearer 0 "" (cCopyStr "" (Tenant c) 128) (cCopyStr "" (User c) 128) (cCopyStr "" model 128)
    (match ProfileUpstreamPolicy h profile with
     | None => aiAuthFlagStripAuthz
     | Some (fwd, passthrough) => Z.lor (if passthrough then 0 else aiAuthFlagStripAuthz) (if fwd then aiAuthFlagFwdIdentity else 0)
     end)).
Proof.
  intros Ht Hu Hne. unfold tableAllow. cbn [rErrorCode rTenant rUser rAuthFlags]. rewrite (cCopyStr_fits _ 127), (cCopyStr_fits (User c) 127) by done. unfold ProfileUpstreamPolicy.
  destruct (hProfiles h !! profile) as [pm|]; cbn [fmap option_fmap option_map].
  - destruct (pAuthorizationPassthrough (mProfile pm)) eqn:Ea, (pForwardIdentity (mProfile pm)) eqn:Ef; split_and!; try done;
      (split; [intros ?; try done; by exists pm|intros (pm' & [= <-] & ?); congruence || done]).
  - split_and!; try done; split; [done|by intros (? & ? & ?)|done|by intros (? & ? & ?)].
Qed.

(** C9: every verdict of the bearer arm. It returns 0 exactly on an allow; it allows
    exactly when the token verifies and its model, if the request names one, is
    granted, and then carries tenant and user uncut, strips the Authorization
    header unless the profile stored under that name passes it through, forwards
    identity exactly when that profile asks for it, and sets no other flag; a
    verified token without the model is refused with 403 under its tenant; 503 is answered exactly when the
    gateway cannot judge (no holder, no profile on the rule, an inactive profile,
    keys never fetched or too old), and everything else is a 401 that names no
    identity. *)
Theorem bearer_verdict_table (now : Z) (oh : option (JWTAuthProfileH K)) (bearer model profile : string) (flags : Z) :
  let '(ret, r, _) := llb_ai_validate_bearer lookupAlg jwsVerify numDate now oh bearer model profile flags in
  let captured := (Z.land flags aiBearerFlagOversize ==? 0) && negb (bearer ==s "") in
  (ret = 0 <-> rDecision r = DecisionAllow) /\
  match oh with
  | None => rDecision r = DecisionDeny503 /\ rErrorCode r = CodeStoreUnavailable
  | Some h =>
      if (profile ==s "") || (captured && noVerdict now bearer profile (hMgr h))
      then rDecision r = DecisionDeny503 /\ rErrorCode r = CodeStoreUnavailable /\ rTenant r = ""%string
      else match (if captured then Some (Verify lookupAlg jwsVerify numDate now bearer profile (hMgr h)).1 else None) with
           | Some (inl c) =>
               if (model ==s "") || bool_decide (Authorize c model = None) then rDecision r = DecisionAllow /\ tableAllow h profile model c r
               else rDecision r = DecisionDeny403 /\ rErrorCode r = CodeModelNotAllowed /\ rTenant r = Tenant c /\ rUser r = ""%string
           | _ => rDecision r = DecisionDeny401 /\ rErrorCode r ∈ codes401 /\ rTenant r = ""%string /\ rUser r = ""%string
           end
  end.
Proof.
  unfold llb_ai_validate_bearer. destruct oh as [h|]; [|done]. unfold validateBearerInternal. destruct (profile ==s "") eqn:Ep; cbn [orb]; [by vm_compute|].
  destruct (Z.land flags aiBearerFlagOversize ==? 0); cbn [negb andb]; [|cbn; split_and!; try done; vm_compute; set_solver].
  destruct (bearer ==s ""); cbn [negb andb]; [cbn; split_and!; try done; vm_compute; set_solver|].
  pose proof (Verify_verdict now bearer profile (hMgr h)) as Hv. destruct (Verify lookupAlg jwsVerify numDate now bearer profile (hMgr h)) as [[c|e] m]; cbn [fst] in *.
  - destruct Hv as (-> & Ht & Hu & Hne). apply carryable_valid in Ht as [_ Ht], Hu as [_ Hu].
    destruct (model ==s "") eqn:Em; [|destruct (Authorize c model) as [e|] eqn:Ea; [rewrite (bool_decide_true (is_Some _)), (bool_decide_false (Some e = None)) by done|
      rewrite (bool_decide_false (is_Some _)), (bool_decide_true (None = None)) by (done || by intros [])]]; cbn [negb andb orb].
    + by split; [|split; [|apply allow_row]].
    + cbn. split_and!; try done. by apply (cCopyStr_fits _ 127).
    + by split; [|split; [|apply allow_row]].
  - destruct (noVerdict now bearer profile (hMgr h)); [subst e; by vm_compute|]. destruct Hv as [-> Hc]. cbn. split_and!; try done.
    rewrite (cCopyStr_fits _ 63); [done|]. rewrite !elem_of_cons in Hc. destruct Hc as [->|[->|[->|Hc]]]; [cbn; lia..|by apply elem_of_nil in Hc].
Qed.

(** C11: the stored configuration and the verifier behind it never part. In any
    history, a name is verified exactly when it is configured, against the
    configuration that is stored with its defaults applied; the class served for
    a name is the stored one; the retry delay of a fetch stays between one second and one minute. *)
Theorem profiles_and_verifier_agree (s : jwtSys) :
  rtc jwtStep jwtStart s ->
  (forall n, active n (hMgr (jh s)) = (fun pm => normalize (mProfile pm)) <$> hProfiles (jh s) !! n) /\
  (forall n, ProfileExists n (jh s) = bool_decide (is_Some (active n (hMgr (jh s))))) /\
  (forall n, ProfileClass (Some (jh s)) n = default ""%string (mPriorityClass <$> hProfiles (jh s) !! n)) /\
  (forall i ps b, heap (hMgr (jh s)) !! i = Some ps -> pc ps = Waiting b -> defaultBackoffBase <= b <= defaultBackoffCap).
Proof.
  intros Hs%reach_ok. destruct Hs as [Hm Ha Hn Hc]. split_and!; [done| | |].
  - intros n. unfold ProfileExists. rewrite Ha. apply bool_decide_ext. by rewrite fmap_is_Some.
  - intros n. unfold ProfileClass. assert (n = ""%string -> hProfiles (jh s) !! n = None) as Hempty.
    { intros ->. destruct (hProfiles (jh s) !! "") as [pm|] eqn:E; [|done]. exfalso. specialize (Ha ""%string). rewrite E in Ha. cbn in Ha. unfold active in Ha. apply fmap_Some in Ha as ([i ps] & Hp & Eps).
      apply profile_some in Hp as [_ Hi]. destruct (mo_heap _ _ Hm i ps Hi) as [_ Hps]. pose proof (po_valid _ _ Hps) as Hv. cbn in Eps. rewrite <- Eps in Hv.
      unfold validate in Hv. rewrite normalize_name, (Hn _ _ E) in Hv. done. }
    destruct (String.eqb_spec n "") as [E|]; [by rewrite (Hempty E)|]. destruct (hClasses (jh s)) as [c|]; [rewrite Hc|by rewrite Hc, lookup_empty].
    unfold publishProfileClasses. rewrite lookup_omap. destruct (hProfiles (jh s) !! n) as [pm|]; cbn; [|done]. by destruct (String.eqb_spec (mPriorityClass pm) "") as [->|].
  - intros i ps b Hi Hpc. destruct (mo_heap _ _ Hm i ps Hi) as [_ Hps]. pose proof (po_backoff _ _ Hps) as Hb. by rewrite Hpc in Hb.
Qed.
End System.

(** ** On a gateway *)

Definition demoUrl (u : string) : option (string * string) := match CutPrefix u "http://" with Some h => Some ("http"%string, h) | None => None end.
Definition demoJwks (_ : string) : option (list (jwkKey string)) := Some [Jwk "RSA" (Some "sig"%string) (Some "k1"%string) (Some "RS256"%string) "secret"%string].
Definition demoSig (token alg key : string) : option string :=
  if (alg ==s "RS256") && (key ==s "secret") then match SplitByte dot token with [_; payload; _] => RawURLDecode payload | _ => None end else None.
Definition demoDate (n : string) : option Z := (fun z => z * second) <$> ParseInt n.
Definition demoNet : string -> option (Z * string) := fun _ => Some (200, "keys"%string).
Definition demoProfile : Profile := Prof "corp" "http://idp" "http://idp/keys" [] [] 0 0 "" "" "" "" "" "" "" "" true false.

(** Header, payload with tenant acme, user ann and role model:m1, and a signature. *)
Definition demoToken : string :=
  "eyJhbGciOiJSUzI1NiIsImtpZCI6ImsxIn0.eyJleHAiOjIwMDAsImlzcyI6Imh0dHA6Ly9pZHAiLCJ0ZW5hbnRfaWQiOiJhY21lIiwic3ViIjoiYW5uIiwicmVhbG1fYWNjZXNzIjp7InJvbGVzIjpbIm1vZGVsOm0xIiwieCJdfX0.c2ln".

Definition demoAdd (p : Profile) : jwtSys := JwtSys (K := string) (ProfileAdd demoUrl (ProfMod p "critical") JWTAuthProfileInit).2 [].

(** The system after the profile's first fetch. *)
Definition demoSys : option jwtSys :=
  match heap (hMgr (jh (demoAdd demoProfile))) !! 0%nat with
  | Some ps => (fun ps' => JwtSys (setMgr (setHeap 0 ps' (hMgr (jh (demoAdd demoProfile)))) (jh (demoAdd demoProfile))) [(1000 * second, demoNet)]) <$>
               runProfile demoUrl demoJwks (fun _ => None) demoNet (1000 * second) WTimer ps
  | None => None
  end.

Abbreviation demoStep := (jwtStep demoUrl demoJwks (fun _ => true) demoSig (fun _ => None) demoDate).

Lemma demo_reachable s : demoSys = Some s -> rtc demoStep jwtStart s.
Proof.
  unfold demoSys. destruct (heap (hMgr (jh (demoAdd demoProfile))) !! 0%nat) as [ps|] eqn:E; [|done]. intros (ps' & Hr & ->)%fmap_Some.
  eapply rtc_l; [apply (StepAdd demoUrl demoJwks (fun _ => true) demoSig (fun _ => None) demoDate (ProfMod demoProfile "critical"))|].
  eapply rtc_l; [|apply rtc_refl]. eapply (StepRun demoUrl demoJwks (fun _ => true) demoSig (fun _ => None) demoDate 0 ps ps' demoNet (1000 * second) WTimer (demoAdd demoProfile) E Hr).
Qed.

Lemma accepted_token_witness : exists s claims m', demoSys = Some s /\
  Verify (fun _ => true) demoSig demoDate (1500 * second) demoToken "corp" (hMgr (jh s)) = (inl claims, m') /\ Tenant claims = "acme"%string /\ User claims = "ann"%string /\
  cAllowedModels claims = ["m1"%string] /\ ValidateQoSIdentity (Tenant claims) = true /\ (Verify (fun _ => true) demoSig demoDate (2500 * second) demoToken "corp" (hMgr (jh s))).1 = inr (deny401 ReasonExpired).
Proof.
  destruct demoSys as [s|] eqn:E; [|vm_compute in E; discriminate E]. exists s. pose proof E as E'. vm_compute in E'. injection E' as <-.
  destruct (Verify (fun _ => true) demoSig demoDate (1500 * second) demoToken "corp" _) as [[claims|e] m'] eqn:Ev; [|vm_compute in Ev; discriminate Ev].
  exists claims, m'. split; [reflexivity|]. split; [reflexivity|].
  destruct (accepted_token_is_proven demoUrl demoJwks (fun _ => true) demoSig (fun _ => None) demoDate _ _ _ _ _ _ (demo_reachable _ E) Ev) as (pm & hdr & k & payload & fields & _ & _ & _ & _ & _ & _ & _ & _ & _ & _ & _ & _ & _ & Hq & _).
  split; [|split; [|split; [|split; [exact Hq|]]]]; vm_compute in Ev; injection Ev as <- _; vm_compute; reflexivity.
Defined.

Lemma profiles_agree_witness : exists s, demoSys = Some s /\ active "corp" (hMgr (jh s)) = Some (normalize demoProfile) /\ ProfileClass (Some (jh s)) "corp" = "critical"%string.
Proof.
  destruct demoSys as [s|] eqn:E; [|vm_compute in E; discriminate E]. exists s. split; [reflexivity|].
  destruct (profiles_and_verifier_agree demoUrl demoJwks (fun _ => true) demoSig (fun _ => None) demoDate s (demo_reachable s E)) as (H1 & _ & H3 & _).
  rewrite H1, H3. vm_compute in E. injection E as <-. split; vm_compute; reflexivity.
Defined.

(** An interval that leaves 64 bits is accepted, and the goroutine of its profile
    panics after its first fetch. *)
Lemma refresh_overflow_crashes :
  let p := Prof "corp" "http://idp" "http://idp/keys" [] [] 0 9223372037 "" "" "" "" "" "" "" "" true false in
  let '(ok, m) := SetProfile (K := string) demoUrl p New in
  ok = true /\ (fun ps => pc <$> runProfile demoUrl demoJwks (fun _ => None) demoNet 0 WTimer ps) <$> heap m !! 0%nat = Some (Some Crashed).
Proof. vm_compute. split; reflexivity. Qed.

(** A leeway that leaves 64 bits turns against the token. *)
Lemma leeway_overflow_expires :
  let p := Prof "corp" "http://idp" "http://idp/keys" [] [] 9223372037 0 "" "" "" "" "" "" "" "" true false in
  validate demoUrl (normalize p) = true /\
  validateRegisteredClaims demoDate (normalize p) [("exp", JNum "2000"); ("iss", JStr "http://idp")]%string (1500 * second) = Some (deny401 ReasonExpired).
Proof. vm_compute. split; reflexivity. Qed.

(** A line end inside the header segment is stepped over. *)
Lemma line_end_in_header_is_accepted :
  parseCompactHeader (String (ascii_of_nat 10) demoToken) = parseCompactHeader demoToken /\ parseCompactHeader demoToken = Some (Header "RS256" "k1").
Proof. vm_compute. split; reflexivity. Qed.
