(* ===== verification/Float64.v ===== *)
(** Go's float64: IEEE binary64 with rounding to nearest even, through the
    Standard Library's executable specification of it, the conversions and
    [math.Round], and the bounds every rounded operation keeps: a bound that is
    itself a float is never crossed by rounding.  Go may fuse a product and a
    sum into one rounding on some processors; each operation rounds here, as on
    amd64. *)

From Stdlib Require Import ZArith Lia Bool SpecFloat.
From stdpp Require Import base numbers.
From S2P Require Import Prelude.

Open Scope Z_scope.

(** ** Operations *)

Definition float64 := spec_float.

Definition fadd : float64 -> float64 -> float64 := SFadd 53 1024.
Definition fsub : float64 -> float64 -> float64 := SFsub 53 1024.
Definition fmul : float64 -> float64 -> float64 := SFmul 53 1024.
Definition fdiv : float64 -> float64 -> float64 := SFdiv 53 1024.

(** The conversion of an integer, and of an integer literal. *)
Definition fofz (n : Z) : float64 := binary_normalize 53 1024 n 0 false.

(** math.Round: half away from zero. *)
Definition Round (x : float64) : float64 :=
  match x with
  | S754_finite s m e =>
      if 0 <=? e then x
      else
        let q := (2 * Zpos m + 2 ^ (- e)) / (2 * 2 ^ (- e)) in
        if q ==? 0 then S754_zero s else fofz (cond_Zopp s q)
  | _ => x
  end.

(** The truncation of a float to an integer; of a NaN or an infinity the Go
    language leaves the result open. *)
Definition ftruncz (x : float64) : Z :=
  match x with
  | S754_finite s m e => cond_Zopp s (if 0 <=? e then Zpos m * 2 ^ e else Zpos m / 2 ^ (- e))
  | _ => 0
  end.

Definition fneg (x : float64) : bool :=
  match x with
  | S754_finite s _ _ | S754_infinity s => s
  | _ => false
  end.

(** ** The order of two numbers [m * 2^e] and [k * 2^j] *)

Definition fle (m e k j : Z) : Prop := m * 2 ^ (e - Z.min e j) <= k * 2 ^ (j - Z.min e j).

Lemma fle_base b m e k j : b <= e -> b <= j -> fle m e k j <-> m * 2 ^ (e - b) <= k * 2 ^ (j - b).
Proof.
  intros Hb Hc. unfold fle. set (c := Z.min e j).
  replace (e - b) with ((e - c) + (c - b)) by lia.
  replace (j - b) with ((j - c) + (c - b)) by lia.
  rewrite !Z.pow_add_r by lia. pose proof (Z.pow_pos_nonneg 2 (c - b) ltac:(lia) ltac:(lia)).
  rewrite !Z.mul_assoc. split; nia.
Qed.

Lemma fle_trans m e k j n i : fle m e k j -> fle k j n i -> fle m e n i.
Proof.
  intros H1 H2. set (b := Z.min e (Z.min j i)).
  apply (fle_base b) in H1; [|lia..]. apply (fle_base b) in H2; [|lia..]. apply (fle_base b); lia.
Qed.

Lemma fle_same m k e : fle m e k e <-> m <= k.
Proof. rewrite (fle_base e) by lia. rewrite Z.sub_diag. lia. Qed.

Lemma fle_shift m e n : 0 <= n -> fle m e (m * 2 ^ n) (e - n) /\ fle (m * 2 ^ n) (e - n) m e.
Proof.
  intros Hn. rewrite !(fle_base (e - n)) by lia. rewrite Z.sub_diag.
  replace (e - (e - n)) with n by lia. lia.
Qed.

(** The magnitude of a float against [k * 2^j]; an infinity and a NaN satisfy
    neither. *)
Definition mag_le (x : float64) (k j : Z) : Prop :=
  match x with
  | S754_zero _ => 0 <= k
  | S754_finite _ m e => fle (Zpos m) e k j
  | _ => False
  end.

Definition mag_ge (x : float64) (k j : Z) : Prop :=
  match x with
  | S754_zero _ => k <= 0
  | S754_finite _ m e => fle k j (Zpos m) e
  | _ => False
  end.

(** ** Digits and shifts *)

Lemma Zdigits2_bounds m : 0 < m -> 2 ^ (Zdigits2 m - 1) <= m < 2 ^ Zdigits2 m /\ 0 < Zdigits2 m.
Proof.
  destruct m as [|p|p]; [lia| |lia]. intros _. cbn [Zdigits2].
  assert (E : digits2_pos p = Pos.size p) by (induction p; cbn; congruence).
  rewrite E. pose proof (Pos.size_gt p). pose proof (Pos.size_le p).
  assert (2 ^ Zpos (Pos.size p) <= 2 * Zpos p).
  { rewrite <- Pos2Z.inj_pow. lia. }
  assert (Zpos p < 2 ^ Zpos (Pos.size p)).
  { rewrite <- Pos2Z.inj_pow. lia. }
  split; [|lia]. split; [|lia].
  assert (2 ^ Zpos (Pos.size p) = 2 * 2 ^ (Zpos (Pos.size p) - 1)) by (rewrite <- Z.pow_succ_r by lia; f_equal; lia).
  lia.
Qed.

Lemma Zdigits2_le m d : 0 <= m < 2 ^ d -> 0 <= d -> Zdigits2 m <= d.
Proof.
  intros H Hd. destruct (decide (m = 0)) as [->|]; [cbn; lia|].
  destruct (Zdigits2_bounds m) as [B _]; [lia|].
  destruct (decide (Zdigits2 m <= d)); [done|].
  pose proof (Z.pow_le_mono_r 2 d (Zdigits2 m - 1) ltac:(lia) ltac:(lia)). lia.
Qed.

Definition inexact (x : shr_record) : bool := shr_r x || shr_s x.

Lemma shr_1_spec x :
  0 <= shr_m x -> shr_m (shr_1 x) = shr_m x / 2 /\ inexact (shr_1 x) = Z.odd (shr_m x) || inexact x.
Proof.
  destruct x as [m r s]; unfold inexact; cbn. intros Hm.
  destruct m as [|[p|p|]|p]; [| | | |lia]; cbn; (split; [|by destruct r, s]); try done.
  - rewrite Pos2Z.inj_xI. apply (Z.div_unique _ _ _ 1); lia.
  - rewrite Pos2Z.inj_xO. apply (Z.div_unique _ _ _ 0); lia.
Qed.

Lemma iter_pos_nat {A} (f : A -> A) p x : SpecFloat.iter_pos f p x = Nat.iter (Pos.to_nat p) f x.
Proof.
  revert x. induction p as [p IH|p IH|]; intros x; cbn [SpecFloat.iter_pos].
  - rewrite !IH, Pos2Nat.inj_xI. cbn [Nat.iter]. rewrite <- Nat.iter_succ_r.
    rewrite <- Nat.iter_add. f_equal. lia.
  - rewrite !IH, Pos2Nat.inj_xO, <- Nat.iter_add. f_equal. lia.
  - done.
Qed.

(** A shift by [n] divides, and forgets nothing but whether a bit was lost. *)
Lemma shr_iter_spec n x :
  0 <= shr_m x ->
  shr_m (Nat.iter n shr_1 x) = shr_m x / 2 ^ Z.of_nat n /\
  (inexact (Nat.iter n shr_1 x) = true <-> inexact x = true \/ shr_m x mod 2 ^ Z.of_nat n <> 0).
Proof.
  intros Hx. induction n as [|n [IH1 IH2]].
  { cbn. rewrite Z.div_1_r, Z.mod_1_r. split; [done|]. split; [auto|]. intros [?|?]; [done|lia]. }
  rewrite Nat.iter_succ. set (y := Nat.iter n shr_1 x) in *.
  pose proof (Z.pow_pos_nonneg 2 (Z.of_nat n) ltac:(lia) ltac:(lia)) as P.
  assert (Hy : 0 <= shr_m y) by (rewrite IH1; apply Z.div_pos; lia).
  destruct (shr_1_spec y Hy) as [E1 E2]. rewrite E1, E2, Nat2Z.inj_succ, Z.pow_succ_r, (Z.mul_comm 2) by lia.
  split; [rewrite IH1; apply Z.div_div; lia|].
  rewrite orb_true_iff, IH2, IH1, Z.rem_mul_r by lia.
  rewrite Zodd_mod. pose proof (Z.mod_pos_bound (shr_m x) (2 ^ Z.of_nat n) ltac:(lia)).
  pose proof (Z.mod_pos_bound (shr_m x / 2 ^ Z.of_nat n) 2 ltac:(lia)).
  set (a := shr_m x mod 2 ^ Z.of_nat n) in *. set (b := (shr_m x / 2 ^ Z.of_nat n) mod 2) in *.
  destruct (decide (a = 0)), (decide (b = 0)), (decide (b = 1)), (inexact x); subst; try lia;
    rewrite ?Z.eqb_eq; intuition (try done; try nia).
Qed.

Abbreviation fexp64 := (SpecFloat.fexp 53 1024).

Definition lostBit (l : location) : Z := match l with loc_Exact => 0 | _ => 1 end.

Lemma shr_fexp_spec m e l x e' :
  0 <= m -> shr_fexp 53 1024 m e l = (x, e') ->
  let n := Z.max 0 (fexp64 (Zdigits2 m + e) - e) in
  e' = e + n /\ shr_m x = m / 2 ^ n /\ (inexact x = true <-> lostBit l = 1 \/ m mod 2 ^ n <> 0).
Proof.
  intros Hm. unfold shr_fexp, shr. intros E.
  set (r := shr_record_of_loc m l) in *.
  assert (R : shr_m r = m /\ (inexact r = true <-> lostBit l = 1)).
  { unfold r. destruct l as [|[]]; cbn; done. }
  destruct R as [R1 R2].
  destruct (fexp64 (Zdigits2 m + e) - e) as [|p|p] eqn:D; simplify_eq; cbn zeta.
  1,3: rewrite Z.max_l by lia; rewrite Z.pow_0_r, Z.div_1_r, Z.mod_1_r, R1, R2; intuition lia.
  rewrite Z.max_r by lia. rewrite iter_pos_nat.
  destruct (shr_iter_spec (Pos.to_nat p) r) as [S1 S2]; [lia|].
  rewrite S1, S2, R1, R2, positive_nat_Z. done.
Qed.

Lemma round_nearest_even_bounds m l :
  m <= round_nearest_even m l <= m + lostBit l.
Proof. destruct l as [|[]]; cbn; try destruct (Z.even m); lia. Qed.

Lemma lostBit_loc x : lostBit (loc_of_shr_record x) = if inexact x then 1 else 0.
Proof. by destruct x as [m [] []]. Qed.

Lemma fexp64_ge d : -1074 <= fexp64 d /\ d - 53 <= fexp64 d.
Proof. unfold SpecFloat.fexp, SpecFloat.emin. lia. Qed.

(** The mantissa after the first shift of a rounding. *)
Lemma shifted_mantissa m e :
  0 <= m -> 0 <= m / 2 ^ Z.max 0 (fexp64 (Zdigits2 m + e) - e) < 2 ^ 53.
Proof.
  intros Hm. set (n := Z.max 0 _).
  destruct (decide (m = 0)) as [->|]; [rewrite Z.div_0_l by lia; lia|].
  destruct (Zdigits2_bounds m) as [B1 B2]; [lia|]. pose proof (fexp64_ge (Zdigits2 m + e)) as [F1 F2].
  assert (0 <= n) by lia. pose proof (Z.pow_pos_nonneg 2 n ltac:(lia) ltac:(lia)).
  split; [apply Z.div_pos; lia|]. apply Z.div_lt_upper_bound; [lia|].
  rewrite <- Z.pow_add_r by lia. apply Z.lt_le_trans with (2 ^ Zdigits2 m); [lia|].
  apply Z.pow_le_mono_r; lia.
Qed.

(** A float from a mantissa and an exponent, as rounding ends. *)
Definition packf (s : bool) (m e : Z) : float64 :=
  match m with
  | Zpos p => if e <=? 971 then S754_finite s p e else S754_infinity s
  | _ => S754_zero s
  end.

(** What rounding returns: the truncated mantissa or its successor, the
    successor only when a bit was lost; renormalising it loses nothing. *)
Lemma round_aux_shape s m e l :
  0 <= m ->
  let n := Z.max 0 (fexp64 (Zdigits2 m + e) - e) in
  exists m2 m3 n2,
    m / 2 ^ n <= m2 /\ (m2 <= m / 2 ^ n \/ (m2 = m / 2 ^ n + 1 /\ (lostBit l = 1 \/ m mod 2 ^ n <> 0))) /\
    m2 = m3 * 2 ^ n2 /\ 0 <= m3 /\ ((n2 = 0 /\ m3 < 2 ^ 53) \/ (n2 = 1 /\ m3 = 2 ^ 52)) /\
    binary_round_aux 53 1024 s m e l = packf s m3 (e + n + n2).
Proof.
  intros Hm n. unfold binary_round_aux.
  destruct (shr_fexp 53 1024 m e l) as [x e1] eqn:E1.
  destruct (shr_fexp_spec _ _ _ _ _ Hm E1) as (-> & M1 & I1). fold n. fold n in M1, I1.
  destruct (shifted_mantissa m e Hm) as [B1 B2]. fold n in B1, B2.
  pose proof (fexp64_ge (Zdigits2 m + e)) as [F1 F2].
  set (m2 := round_nearest_even (shr_m x) (loc_of_shr_record x)).
  pose proof (round_nearest_even_bounds (shr_m x) (loc_of_shr_record x)) as R. fold m2 in R.
  rewrite lostBit_loc, M1 in R.
  destruct (shr_fexp 53 1024 m2 (e + n) loc_Exact) as [y e3] eqn:E3.
  destruct (shr_fexp_spec m2 _ _ _ _ ltac:(lia) E3) as (-> & M3 & _).
  set (n2 := Z.max 0 (fexp64 (Zdigits2 m2 + (e + n)) - (e + n))) in *.
  assert (N : (n2 = 0 /\ m2 < 2 ^ 53) \/ (n2 = 1 /\ m2 = 2 ^ 53)).
  { destruct (decide (m2 = 2 ^ 53)) as [H2|H2].
    - right. split; [|done]. unfold n2. rewrite H2. change (Zdigits2 (2 ^ 53)) with 54.
      unfold SpecFloat.fexp, SpecFloat.emin. lia.
    - left. split; [|destruct (inexact x); lia]. pose proof (Zdigits2_le m2 53 ltac:(destruct (inexact x); lia) ltac:(lia)).
      unfold n2, SpecFloat.fexp, SpecFloat.emin. lia. }
  assert (E : m2 = shr_m y * 2 ^ n2 /\ 0 <= shr_m y /\ ((n2 = 0 /\ shr_m y < 2 ^ 53) \/ (n2 = 1 /\ shr_m y = 2 ^ 52))).
  { rewrite M3. destruct N as [[-> H2]|[-> H2]].
    - rewrite Z.pow_0_r, Z.div_1_r. destruct (inexact x); lia.
    - rewrite H2. change (2 ^ 53 / 2 ^ 1) with (2 ^ 52). lia. }
  destruct E as (Ey & Py & Ny).
  exists m2, (shr_m y), n2. split; [lia|]. split; [|split; [done|split; [done|split; [done|]]]].
  - destruct (inexact x) eqn:I; [|lia]. destruct (decide (m2 <= m / 2 ^ n)); [by left|].
    right. split; [lia|]. by apply I1.
  - destruct (shr_m y); [reflexivity|reflexivity|lia].
Qed.

Lemma packf_mag s m3 e k j :
  0 <= m3 -> 0 <= k < 2 ^ 53 -> j <= 900 -> fle m3 e k j -> mag_le (packf s m3 e) k j.
Proof.
  intros Hm Hk Hj H. destruct m3 as [|p|p]; [cbn; lia| |lia]. cbn [packf].
  destruct (Z.leb_spec e 971); [done|]. exfalso.
  apply (fle_base j) in H; [|lia..]. rewrite Z.sub_diag, Z.pow_0_r in H.
  pose proof (Z.pow_le_mono_r 2 53 (e - j) ltac:(lia) ltac:(lia)). nia.
Qed.

(** A shift that leaves the exponent above that of a 53-bit bound comes from a
    number above the bound. *)
Lemma shifted_above m e k j :
  let n := Z.max 0 (fexp64 (Zdigits2 m + e) - e) in
  0 <= m -> 0 <= k < 2 ^ 53 -> -1074 <= j -> 0 < n -> j < e + n ->
  k * 2 ^ (j - Z.min e j) < m * 2 ^ (e - Z.min e j) /\ 2 ^ 52 <= m / 2 ^ n.
Proof.
  intros n Hm Hk Hj Hn He. pose proof (fexp64_ge (Zdigits2 m + e)) as [F1 F2].
  assert (D : n = Zdigits2 m - 53) by (unfold n, SpecFloat.fexp, SpecFloat.emin in *; lia).
  assert (0 < m) by (destruct (decide (m = 0)) as [->|]; [cbn in D|]; lia).
  destruct (Zdigits2_bounds m) as [[B _] _]; [lia|]. replace (Zdigits2 m - 1) with (n + 52) in B by lia.
  rewrite Z.pow_add_r in B by lia. pose proof (Z.pow_pos_nonneg 2 n ltac:(lia) ltac:(lia)).
  split; [|apply Z.div_le_lower_bound; lia].
  set (b := Z.min e j).
  assert (E : 2 ^ (j - b) * 2 <= 2 ^ n * 2 ^ (e - b)).
  { rewrite <- Z.pow_add_r, (Z.mul_comm _ 2), <- Z.pow_succ_r by lia. apply Z.pow_le_mono_r; lia. }
  pose proof (Z.pow_pos_nonneg 2 (j - b) ltac:(lia) ltac:(lia)).
  pose proof (Z.pow_pos_nonneg 2 (e - b) ltac:(lia) ltac:(lia)). nia.
Qed.

(** Rounding does not cross a bound that is itself a float, from below... *)
Lemma round_aux_le s m e l k j :
  0 <= m -> 0 <= k < 2 ^ 53 -> -1074 <= j <= 900 -> fle (m + lostBit l) e k j ->
  mag_le (binary_round_aux 53 1024 s m e l) k j.
Proof.
  intros Hm Hk Hj H. destruct (round_aux_shape s m e l Hm) as (m2 & m3 & n2 & L & U & E & P3 & N2 & ->).
  pose proof (shifted_above m e k j) as SA.
  set (n := Z.max 0 _) in *. assert (Hn : 0 <= n) by lia. cbn zeta in SA.
  apply packf_mag; [done..|lia|]. apply fle_trans with m2 (e + n).
  { rewrite E, (fle_base (e + n)) by lia. rewrite Z.sub_diag. replace (e + n + n2 - (e + n)) with n2 by lia. lia. }
  pose proof (Z.pow_pos_nonneg 2 n ltac:(lia) ltac:(lia)) as P.
  pose proof (Z.div_mod m (2 ^ n) ltac:(lia)) as D. pose proof (Z.mod_pos_bound m (2 ^ n) ltac:(lia)) as M.
  assert (Hl : 0 <= lostBit l) by (destruct l; cbn; lia).
  destruct (decide (e + n <= j)) as [Hc|Hc].
  - apply (fle_base e) in H; [|lia..]. rewrite Z.sub_diag, Z.pow_0_r, Z.mul_1_r in H.
    rewrite (fle_base (e + n)) by lia. rewrite Z.sub_diag, Z.pow_0_r, Z.mul_1_r.
    replace (j - e) with (n + (j - (e + n))) in H by lia. rewrite Z.pow_add_r in H by lia.
    set (c := 2 ^ (j - (e + n))) in *. set (q := m / 2 ^ n) in *.
    destruct U as [U|[U [U'|U']]]; nia.
  - destruct (decide (n = 0)) as [Hn0|Hn0].
    + rewrite Hn0, Z.pow_0_r, Z.div_1_r, Z.mod_1_r in *. rewrite Z.add_0_r in *.
      eapply fle_trans; [|exact H]. apply fle_same. lia.
    + exfalso. destruct SA as [SA _]; [lia..|]. unfold fle in H.
      pose proof (Z.pow_pos_nonneg 2 (e - Z.min e j) ltac:(lia) ltac:(lia)). nia.
Qed.

(** ...nor from above. *)
Lemma round_aux_ge s m e l k j k' j' :
  0 <= m -> 0 <= k < 2 ^ 53 -> -1074 <= j -> fle k j m e ->
  mag_le (binary_round_aux 53 1024 s m e l) k' j' ->
  mag_ge (binary_round_aux 53 1024 s m e l) k j.
Proof.
  intros Hm Hk Hj H. destruct (round_aux_shape s m e l Hm) as (m2 & m3 & n2 & L & U & E & P3 & N2 & ->).
  pose proof (shifted_above m e k j) as SA.
  set (n := Z.max 0 _) in *. assert (Hn : 0 <= n) by lia. cbn zeta in SA.
  assert (G : fle k j m3 (e + n + n2)).
  { apply fle_trans with m2 (e + n).
    2: { rewrite E, (fle_base (e + n)) by lia. rewrite Z.sub_diag. replace (e + n + n2 - (e + n)) with n2 by lia. lia. }
    pose proof (Z.pow_pos_nonneg 2 n ltac:(lia) ltac:(lia)) as P.
    pose proof (Z.div_mod m (2 ^ n) ltac:(lia)) as D. pose proof (Z.mod_pos_bound m (2 ^ n) ltac:(lia)) as M.
    destruct (decide (e + n <= j)) as [Hc|Hc].
    - apply (fle_base e) in H; [|lia..]. rewrite Z.sub_diag, Z.pow_0_r, Z.mul_1_r in H.
      rewrite (fle_base (e + n)) by lia. rewrite Z.sub_diag, Z.pow_0_r, Z.mul_1_r.
      replace (j - e) with (n + (j - (e + n))) in H by lia. rewrite Z.pow_add_r in H by lia.
      set (c := 2 ^ (j - (e + n))) in *. set (q := m / 2 ^ n) in *. nia.
    - destruct (decide (n = 0)) as [Hn0|Hn0].
      + rewrite Hn0, Z.pow_0_r, Z.div_1_r in *. rewrite Z.add_0_r in *.
        eapply fle_trans; [exact H|]. apply fle_same. lia.
      + destruct SA as [_ SA]; [lia..|]. rewrite (fle_base j) by lia. rewrite Z.sub_diag, Z.pow_0_r, Z.mul_1_r.
        pose proof (Z.pow_le_mono_r 2 1 (e + n - j) ltac:(lia) ltac:(lia)). nia. }
  destruct m3 as [|p|p]; [|cbn [packf]; destruct (Z.leb_spec (e + n + n2) 971); cbn; [done|done]|lia].
  intros _. cbn. unfold fle in G. rewrite Z.mul_0_l in G.
  pose proof (Z.pow_pos_nonneg 2 (j - Z.min j (e + n + n2)) ltac:(lia) ltac:(lia)). nia.
Qed.

(** ** The operations *)

Definition fsign (x : float64) : bool :=
  match x with
  | S754_zero s | S754_finite s _ _ | S754_infinity s => s
  | S754_nan => false
  end.

Lemma round_aux_sign s m e l :
  0 <= m -> fsign (binary_round_aux 53 1024 s m e l) = s /\ binary_round_aux 53 1024 s m e l <> S754_nan.
Proof.
  intros Hm. destruct (round_aux_shape s m e l Hm) as (m2 & m3 & n2 & _ & _ & _ & _ & _ & ->).
  destruct m3; cbn [packf]; try done. by destruct (_ <=? 971).
Qed.

Lemma shl_align_value p e e' mz ez :
  shl_align p e e' = (mz, ez) -> exists d, 0 <= d /\ ez = e - d /\ Zpos mz = Zpos p * 2 ^ d /\ (e' < e -> ez = e').
Proof.
  unfold shl_align. destruct (e' - e) as [|q|q] eqn:D; intros H; simplify_eq.
  - exists 0. rewrite Z.pow_0_r. lia.
  - exists 0. rewrite Z.pow_0_r. lia.
  - exists (Zpos q). split; [lia|]. split; [lia|]. split; [|lia].
    clear. induction q as [|q IH] using Pos.peano_ind; [rewrite Z.pow_1_r; cbn; lia|].
    rewrite Pos.iter_succ, Pos2Z.inj_xO, IH, Pos2Z.inj_succ, Z.pow_succ_r by lia. lia.
Qed.

Lemma shl_align_min p e ez : ez <= e -> Zpos (shl_align p e ez).1 = Zpos p * 2 ^ (e - ez).
Proof.
  intros H. destruct (shl_align p e ez) as [mz e'] eqn:E.
  destruct (shl_align_value _ _ _ _ _ E) as (d & Hd & -> & Em & Hl). cbn. rewrite Em. do 2 f_equal.
  destruct (decide (ez < e)) as [Hlt|]; [specialize (Hl Hlt); lia|].
  assert (ez = e) as -> by lia. unfold shl_align in E. rewrite Z.sub_diag in E. simplify_eq. lia.
Qed.

Lemma binary_round_le s p e k j :
  0 <= k < 2 ^ 53 -> -1074 <= j <= 900 -> fle (Zpos p) e k j -> mag_le (binary_round 53 1024 s p e) k j.
Proof.
  intros Hk Hj H. unfold binary_round. destruct (shl_align _ _ _) as [mz ez] eqn:E.
  destruct (shl_align_value _ _ _ _ _ E) as (d & Hd & -> & Em & _).
  apply round_aux_le; [done..|]. cbn [lostBit]. rewrite Z.add_0_r, Em.
  eapply fle_trans; [apply fle_shift; lia|done].
Qed.

Lemma binary_round_ge s p e k j k' j' :
  0 <= k < 2 ^ 53 -> -1074 <= j -> fle k j (Zpos p) e ->
  mag_le (binary_round 53 1024 s p e) k' j' -> mag_ge (binary_round 53 1024 s p e) k j.
Proof.
  intros Hk Hj H. unfold binary_round. destruct (shl_align _ _ _) as [mz ez] eqn:E.
  destruct (shl_align_value _ _ _ _ _ E) as (d & Hd & -> & Em & _).
  apply round_aux_ge; [done..|]. rewrite Em.
  eapply fle_trans; [done|apply fle_shift; lia].
Qed.

Lemma binary_round_sign s p e : fsign (binary_round 53 1024 s p e) = s /\ binary_round 53 1024 s p e <> S754_nan.
Proof. unfold binary_round. destruct (shl_align _ _ _) as [mz ez]. by apply round_aux_sign. Qed.

(** A product with a factor of at most one. *)
Lemma fmul_le x y k :
  0 <= k < 2 ^ 53 -> mag_le x 1 0 -> mag_le y k 0 ->
  mag_le (fmul x y) k 0 /\ fsign (fmul x y) = xorb (fsign x) (fsign y).
Proof.
  intros Hk Hx Hy. destruct x as [sx| | |sx mx ex], y as [sy| | |sy my ey]; cbn in Hx, Hy; try done;
    try (cbn; split; [lia|done]).
  unfold fmul, SFmul. cbn [fsign]. split; [|by apply round_aux_sign].
  apply round_aux_le; [lia|done|lia|]. cbn [lostBit]. rewrite Z.add_0_r, Pos2Z.inj_mul.
  unfold fle in Hx, Hy. set (b1 := Z.min ex 0) in *. set (b2 := Z.min ey 0) in *.
  apply (fle_base (b1 + b2)); [lia..|].
  replace (ex + ey - (b1 + b2)) with ((ex - b1) + (ey - b2)) by lia.
  replace (0 - (b1 + b2)) with ((0 - b1) + (0 - b2)) by lia. rewrite !Z.pow_add_r by lia.
  pose proof (Z.pow_pos_nonneg 2 (ex - b1) ltac:(lia) ltac:(lia)).
  pose proof (Z.pow_pos_nonneg 2 (ey - b2) ltac:(lia) ltac:(lia)).
  set (A := 2 ^ (ex - b1)) in *. set (B := 2 ^ (ey - b2)) in *.
  set (C := 2 ^ (0 - b1)) in *. set (D := 2 ^ (0 - b2)) in *.
  transitivity ((Zpos mx * A) * (Zpos my * B)); [nia|].
  transitivity ((1 * C) * (k * D)); [|nia]. apply Z.mul_le_mono_nonneg; nia.
Qed.

(** A sum of a float of value [k] and a non-positive one of magnitude at most
    [k - w] lies between [w] and [k]. *)
Lemma fadd_between m e y k w :
  0 <= w <= k -> k < 2 ^ 53 -> fle (Zpos m) e k 0 -> fle k 0 (Zpos m) e ->
  (fneg y = true \/ exists s, y = S754_zero s) -> mag_le y (k - w) 0 ->
  let z := fadd (S754_finite false m e) y in mag_le z k 0 /\ mag_ge z w 0 /\ fsign z = false.
Proof.
  intros Hw Hk Hl Hg Hs Hy z. unfold z. destruct y as [s| | |s my ey]; cbn in Hs, Hy; try done.
  { cbn. split; [done|]. split; [|done]. eapply fle_trans; [|exact Hg]. apply fle_same. lia. }
  destruct Hs as [->|[? ?]]; [|done].
  unfold fadd, SFadd. set (ez := Z.min e ey). cbn [cond_Zopp].
  rewrite !shl_align_min by lia.
  set (b := Z.min ez 0).
  apply (fle_base b) in Hl; [|lia..]. apply (fle_base b) in Hg; [|lia..]. apply (fle_base b) in Hy; [|lia..].
  replace (e - b) with ((e - ez) + (ez - b)) in Hl, Hg by lia.
  replace (ey - b) with ((ey - ez) + (ez - b)) in Hy by lia.
  rewrite !Z.pow_add_r in Hl, Hg, Hy by lia.
  set (X := Zpos m * 2 ^ (e - ez)) in *. set (Y := Zpos my * 2 ^ (ey - ez)) in *.
  assert (HX : Zpos m * (2 ^ (e - ez) * 2 ^ (ez - b)) = X * 2 ^ (ez - b)) by (unfold X; ring).
  assert (HY : Zpos my * (2 ^ (ey - ez) * 2 ^ (ez - b)) = Y * 2 ^ (ez - b)) by (unfold Y; ring).
  rewrite HX in Hl, Hg. rewrite HY in Hy.
  assert (0 < Y) by (unfold Y; pose proof (Z.pow_pos_nonneg 2 (ey - ez) ltac:(lia) ltac:(lia)); nia).
  pose proof (Z.pow_pos_nonneg 2 (ez - b) ltac:(lia) ltac:(lia)) as P.
  pose proof (Z.pow_pos_nonneg 2 (0 - b) ltac:(lia) ltac:(lia)) as P0.
  assert (HS : 0 <= X - Y) by nia.
  replace (X + - Y) with (X - Y) by lia. destruct (X - Y) as [|p|p] eqn:D; [| |lia]; cbn [binary_normalize].
  - cbn. split; [lia|]. split; [|done]. nia.
  - assert (fle (Zpos p) ez k 0) by (apply (fle_base b); [lia..|nia]).
    assert (fle w 0 (Zpos p) ez) by (apply (fle_base b); [lia..|nia]).
    split; [by apply binary_round_le; [lia..|]|]. split; [|by apply binary_round_sign].
    apply binary_round_ge with k 0; [lia|lia|done|]. by apply binary_round_le; [lia..|].
Qed.

(** ** Conversions *)

Lemma fofz_bounds n k j :
  0 < n -> 0 <= k < 2 ^ 53 -> -1074 <= j <= 900 -> fle n 0 k j ->
  mag_le (fofz n) k j /\ (forall w i, 0 <= w < 2 ^ 53 -> -1074 <= i -> fle w i n 0 -> mag_ge (fofz n) w i) /\
  fsign (fofz n) = false.
Proof.
  intros Hn Hk Hj H. destruct n as [|p|p]; [lia| |lia]. unfold fofz. cbn [binary_normalize].
  assert (L : mag_le (binary_round 53 1024 false p 0) k j) by (by apply binary_round_le).
  split; [done|]. split; [|by apply binary_round_sign]. intros w i Hw Hi Hg. by eapply binary_round_ge.
Qed.

(** Integers below [2^53] are floats. *)
Lemma fofz_exact n :
  0 < n < 2 ^ 53 -> exists m e, fofz n = S754_finite false m e /\ fle (Zpos m) e n 0 /\ fle n 0 (Zpos m) e.
Proof.
  intros Hn. assert (S : fle n 0 n 0) by (by apply fle_same).
  destruct (fofz_bounds n n 0) as (L & G & Sg); [lia..|done|].
  specialize (G n 0 ltac:(lia) ltac:(lia) S).
  destruct (fofz n) as [s| | |s m e]; cbn in L, G, Sg; try done; [lia|]. subst. eauto.
Qed.

Lemma ftruncz_value m e n :
  fle (Zpos m) e n 0 -> fle n 0 (Zpos m) e -> ftruncz (S754_finite false m e) = n.
Proof.
  intros L G. cbn. destruct (Z.leb_spec 0 e).
  - apply (fle_base 0) in L, G; [|lia..]. rewrite !Z.sub_0_r, Z.pow_0_r, Z.mul_1_r in *. lia.
  - apply (fle_base e) in L, G; [|lia..]. rewrite Z.sub_diag, Z.pow_0_r in *. replace (0 - e) with (- e) in * by lia.
    symmetry. apply (Z.div_unique_exact); [|lia]. pose proof (Z.pow_pos_nonneg 2 (- e)). lia.
Qed.

(** Rounding to an integer stays between the integers around it. *)
Lemma Round_between x w k :
  0 <= w <= k -> k < 2 ^ 53 -> fsign x = false -> mag_le x k 0 -> mag_ge x w 0 ->
  w <= ftruncz (Round x) <= k /\ fneg (Round x) = false.
Proof.
  intros Hw Hk Hs Hl Hg. destruct x as [s| | |s m e]; cbn in Hs, Hl, Hg; subst; try done.
  unfold Round. destruct (Z.leb_spec 0 e) as [He|He].
  - cbn. rewrite (proj2 (Z.leb_le 0 e)) by done.
    apply (fle_base 0) in Hl, Hg; [|lia..]. rewrite !Z.sub_0_r, Z.pow_0_r, Z.mul_1_r in *. split; [lia|done].
  - apply (fle_base e) in Hl, Hg; [|lia..]. rewrite Z.sub_diag, Z.pow_0_r in *. replace (0 - e) with (- e) in * by lia.
    pose proof (Z.pow_pos_nonneg 2 (- e) ltac:(lia) ltac:(lia)) as P. set (D := 2 ^ (- e)) in *.
    set (q := (2 * Zpos m + D) / (2 * D)).
    assert (w <= q) by (apply Z.div_le_lower_bound; lia).
    assert (q <= k) by (apply Z.lt_succ_r, Z.div_lt_upper_bound; lia).
    destruct (Z.eqb_spec q 0) as [E|E]; [cbn; split; [lia|done]|]. cbn [cond_Zopp].
    destruct (fofz_exact q) as (m' & e' & -> & L & G); [lia|]. rewrite (ftruncz_value _ _ q) by done. split; [lia|done].
Qed.

(** ** One minus a quotient *)

(** A number that is at most one. *)
Definition at_most_one (x : float64) : Prop :=
  match x with
  | S754_zero _ => True
  | S754_infinity s => s = true
  | S754_finite s m e => s = false -> fle (Zpos m) e 1 0
  | S754_nan => False
  end.

Lemma fdiv_finite s1 m1 e1 s2 m2 e2 :
  let q := fdiv (S754_finite s1 m1 e1) (S754_finite s2 m2 e2) in fsign q = xorb s1 s2 /\ q <> S754_nan.
Proof.
  cbn zeta. unfold fdiv, SFdiv. destruct (SFdiv_core_binary _ _ _ _ _ _) as [[mz ez] lz] eqn:E. apply round_aux_sign.
  unfold SFdiv_core_binary in E. set (m' := match _ with Zpos _ => _ | _ => _ end) in E.
  assert (0 <= m').
  { unfold m'. destruct (_ - _ - _); [lia| |lia]. apply Z.shiftl_nonneg. lia. }
  pose proof (Z.div_eucl_eq m' (Zpos m2) ltac:(lia)). pose proof (Z.mod_pos_bound m' (Zpos m2) ltac:(lia)).
  unfold Z.modulo in *. destruct (Z.div_eucl m' (Zpos m2)) as [q r]. simplify_eq. nia.
Qed.

Lemma fdiv_pos a b :
  0 <= a < 2 ^ 63 -> 0 < b < 2 ^ 63 -> fsign (fdiv (fofz a) (fofz b)) = false /\ fdiv (fofz a) (fofz b) <> S754_nan.
Proof.
  intros Ha Hb.
  assert (F : forall n, 0 < n < 2 ^ 63 -> exists m e, fofz n = S754_finite false m e).
  { intros n Hn. destruct (fofz_bounds n 1 63) as (L & G & S); [lia..|change (n * 1 <= 1 * 2 ^ 63); lia|].
    specialize (G 1 0 ltac:(lia) ltac:(lia) ltac:(apply fle_same; lia)).
    destruct (fofz n) as [s| | |s m e]; cbn in L, G, S; try done. subst. eauto. }
  destruct (F b Hb) as (mb & eb & ->). destruct (decide (a = 0)) as [->|]; [done|].
  destruct (F a ltac:(lia)) as (ma & ea & ->). apply (fdiv_finite false ma ea false mb eb).
Qed.

Lemma one_is : fofz 1 = S754_finite false 4503599627370496 (-52).
Proof. reflexivity. Qed.

(** The exact difference a subtraction from one rounds. *)
Lemma one_minus_exact m e :
  let ez := Z.min (-52) e in
  let d := 2 ^ (- ez) - Zpos m * 2 ^ (e - ez) in
  fsub (fofz 1) (S754_finite false m e) = binary_normalize 53 1024 d ez false.
Proof.
  intros ez d. rewrite one_is. unfold fsub, SFsub. fold ez. cbn [cond_Zopp]. rewrite !shl_align_min by lia.
  f_equal. unfold d. f_equal. change 4503599627370496 with (2 ^ 52). rewrite <- Z.pow_add_r by lia. f_equal. lia.
Qed.

Lemma one_minus_at_most_one q : fsign q = false -> q <> S754_nan -> at_most_one (fsub (fofz 1) q).
Proof.
  intros Hs Hn. destruct q as [s|s| |s m e]; cbn in Hs; subst; [| |done|].
  - rewrite one_is. unfold fsub, SFsub, at_most_one. intros _. by vm_compute.
  - rewrite one_is. done.
  - rewrite one_minus_exact. set (ez := Z.min (-52) e). set (d := _ - _).
    pose proof (Z.pow_pos_nonneg 2 (e - ez) ltac:(lia) ltac:(lia)) as P.
    destruct d as [|p|p] eqn:D; cbn [binary_normalize]; [done| |].
    + assert (L : mag_le (binary_round 53 1024 false p ez) 1 0).
      { apply binary_round_le; [lia..|]. apply (fle_base ez); [lia..|]. rewrite Z.sub_diag, Z.pow_0_r.
        replace (0 - ez) with (- ez) by lia. nia. }
      destruct (binary_round_sign false p ez) as [S _].
      destruct (binary_round 53 1024 false p ez); cbn in L, S |- *; subst; done.
    + destruct (binary_round_sign true p ez) as [S N].
      by destruct (binary_round 53 1024 true p ez); cbn in S |- *; subst.
Qed.

Lemma one_minus_unit q : fsign q = false -> mag_le q 1 0 -> mag_le (fsub (fofz 1) q) 1 0.
Proof.
  intros Hs Hq. destruct q as [s|s| |s m e]; cbn in Hs, Hq; subst; try done.
  rewrite one_minus_exact. set (ez := Z.min (-52) e). set (d := _ - _).
  apply (fle_base ez) in Hq; [|lia..]. rewrite Z.mul_1_l in Hq. replace (0 - ez) with (- ez) in Hq by lia.
  pose proof (Z.pow_pos_nonneg 2 (e - ez) ltac:(lia) ltac:(lia)) as P.
  destruct d as [|p|p] eqn:D; cbn [binary_normalize]; [done| |unfold d in D; lia].
  apply binary_round_le; [lia..|]. apply (fle_base ez); [lia..|]. rewrite Z.sub_diag, Z.pow_0_r.
  replace (0 - ez) with (- ez) by lia. unfold d in D. nia.
Qed.

Lemma lostBit_new_location n r : lostBit (new_location n r) <= (if r ==? 0 then 0 else 1).
Proof.
  unfold new_location, new_location_even, new_location_odd.
  destruct (Z.even n), (r ==? 0); cbn; lia.
Qed.

Lemma quotient_bounds X q r m2 a b T u :
  X = m2 * q + r -> 0 <= r < m2 -> X * b = a * m2 * (2 ^ 53 * T) -> 0 < a < b -> b < 2 ^ 53 -> 0 < T ->
  u = 2 ^ 53 - 1 -> 0 <= q /\ T <= q /\ q + (if r ==? 0 then 0 else 1) <= u * T.
Proof.
  intros Q R K Ha Hb HT ->. set (P := 2 ^ 53) in *.
  assert (L : T < q + 1).
  { assert (m2 * (b * T) < m2 * ((q + 1) * b)) as X1;
      [|apply Z.mul_lt_mono_pos_l in X1; [|lia]; rewrite (Z.mul_comm b) in X1; apply Z.mul_lt_mono_pos_r in X1; lia].
    apply Z.le_lt_trans with (X * b); [rewrite K|rewrite Q; nia].
    assert (b * T <= a * (P * T)) by nia. nia. }
  split; [lia|]. split; [lia|].
  assert (U : m2 * (q * b) + r * b = m2 * (a * (P * T))) by (rewrite Q in K; lia).
  assert (V : a * (P * T) <= (P - 1) * T * b).
  { assert (a * P <= (P - 1) * b) by nia. nia. }
  destruct (Z.eqb_spec r 0) as [->|].
  - assert (m2 * (q * b) <= m2 * ((P - 1) * T * b)) as X1 by nia.
    apply Z.mul_le_mono_pos_l in X1; [|lia]. apply Z.mul_le_mono_pos_r in X1; lia.
  - assert (m2 * (q * b) < m2 * ((P - 1) * T * b)) as X1 by nia.
    apply Z.mul_lt_mono_pos_l in X1; [|lia]. apply Z.mul_lt_mono_pos_r in X1; lia.
Qed.

(** The quotient of two integers below [2^53], the first the smaller, keeps
    away from zero and from one. *)
Lemma fdiv_strict a b :
  0 < a < b -> b < 2 ^ 53 ->
  exists m e, fdiv (fofz a) (fofz b) = S754_finite false m e /\
    fle (Zpos m) e (2 ^ 53 - 1) (-53) /\ fle 1 (-53) (Zpos m) e.
Proof.
  intros Ha Hb. destruct (fofz_exact a) as (m1 & e1 & -> & La & Ga); [lia|].
  destruct (fofz_exact b) as (m2 & e2 & -> & Lb & Gb); [lia|].
  unfold fdiv, SFdiv. destruct (SFdiv_core_binary _ _ _ _ _ _) as [[q e'] l] eqn:E.
  unfold SFdiv_core_binary in E.
  set (ex := Z.min _ _) in E.
  (* both values over a common base *)
  set (c := Z.min (Z.min e1 e2) 0).
  apply (fle_base c) in La, Ga, Lb, Gb; [|lia..].
  pose proof (Z.pow_pos_nonneg 2 (0 - c) ltac:(lia) ltac:(lia)) as Pc.
  assert (Ea : Zpos m1 * 2 ^ (e1 - c) = a * 2 ^ (0 - c)) by lia.
  assert (Eb : Zpos m2 * 2 ^ (e2 - c) = b * 2 ^ (0 - c)) by lia. clear La Ga Lb Gb.
  destruct (Zdigits2_bounds (Zpos m1)) as [[D1 _] _]; [lia|].
  destruct (Zdigits2_bounds (Zpos m2)) as [[_ D2] D2']; [lia|].
  assert (Hd : Zdigits2 (Zpos m1) + e1 <= Zdigits2 (Zpos m2) + e2).
  { destruct (decide (Zdigits2 (Zpos m1) + e1 <= Zdigits2 (Zpos m2) + e2)); [done|exfalso].
    assert (2 ^ (Zdigits2 (Zpos m2) + (e2 - c)) <= 2 ^ (Zdigits2 (Zpos m1) - 1 + (e1 - c))) as X
      by (apply Z.pow_le_mono_r; lia).
    destruct (Zdigits2_bounds (Zpos m1)) as [_ D1']; [lia|].
    rewrite !Z.pow_add_r in X by lia.
    pose proof (Z.pow_pos_nonneg 2 (e2 - c) ltac:(lia) ltac:(lia)).
    pose proof (Z.pow_pos_nonneg 2 (e1 - c) ltac:(lia) ltac:(lia)). nia. }
  assert (Hx' : ex <= -53) by (unfold ex, SpecFloat.fexp, SpecFloat.emin; lia).
  set (m' := match _ with Zpos _ => _ | _ => _ end) in E.
  assert (Em' : m' = Zpos m1 * 2 ^ (e1 - e2 - ex)).
  { unfold m'. destruct (e1 - e2 - ex) eqn:S; [lia|apply Z.shiftl_mul_pow2; lia|lia]. }
  assert (Hxe : ex <= e1 - e2) by (unfold ex; lia). clearbody m' ex. subst m'.
  set (m' := Zpos m1 * _) in *.
  pose proof (Z.div_eucl_eq m' (Zpos m2) ltac:(lia)) as Q1. pose proof (Z.mod_pos_bound m' (Zpos m2) ltac:(lia)) as Q2.
  unfold Z.modulo in Q2. destruct (Z.div_eucl m' (Zpos m2)) as [q0 r]. injection E as <- <- <-.
  assert (K : m' * b = a * Zpos m2 * (2 ^ 53 * 2 ^ (-53 - ex))).
  { unfold m'. rewrite <- Z.pow_add_r by lia. apply (Z.mul_reg_r _ _ (2 ^ (0 - c))); [lia|].
    transitivity (Zpos m1 * 2 ^ (e1 - e2 - ex) * (b * 2 ^ (0 - c))); [ring|]. rewrite <- Eb.
    transitivity (a * 2 ^ (0 - c) * Zpos m2 * 2 ^ (53 + (-53 - ex))); [rewrite <- Ea|ring].
    transitivity (Zpos m1 * Zpos m2 * (2 ^ (e1 - e2 - ex) * 2 ^ (e2 - c))); [ring|].
    transitivity (Zpos m1 * Zpos m2 * (2 ^ (e1 - c) * 2 ^ (53 + (-53 - ex)))); [|ring].
    rewrite <- !Z.pow_add_r by lia. do 2 f_equal. lia. }
  destruct (quotient_bounds _ _ _ _ _ _ _ _ Q1 Q2 K Ha Hb ltac:(apply Z.pow_pos_nonneg; lia) eq_refl) as (B0 & B1 & B2).
  assert (L : mag_le (binary_round_aux 53 1024 false q0 ex (new_location (Zpos m2) r)) (2 ^ 53 - 1) (-53)).
  { apply round_aux_le; [done|lia..|]. apply (fle_base ex); [lia..|]. rewrite Z.sub_diag, Z.pow_0_r, Z.mul_1_r.
    etransitivity; [|exact B2]. apply Z.add_le_mono_l. apply lostBit_new_location. }
  assert (G : mag_ge (binary_round_aux 53 1024 false q0 ex (new_location (Zpos m2) r)) 1 (-53)).
  { eapply round_aux_ge; [done|lia..| |exact L]. apply (fle_base ex); [lia..|].
    rewrite Z.sub_diag, Z.pow_0_r, Z.mul_1_r, Z.mul_1_l. done. }
  destruct (round_aux_sign false q0 ex (new_location (Zpos m2) r) B0) as [S _].
  cbn [xorb]. destruct (binary_round_aux _ _ _ _ _ _) as [z| | |z m e]; cbn in L, G, S; try done. subst. eauto.
Qed.

(** A rounded number below one has an exponent below that of one. *)
Lemma binary_round_below_one s p e :
  fle (Zpos p) e (2 ^ 53 - 1) (-53) -> (exists m e', binary_round 53 1024 s p e = S754_finite s m e' /\ e' <= -53) \/
    binary_round 53 1024 s p e = S754_zero s.
Proof.
  intros H. pose proof (binary_round_le s p e (2 ^ 53 - 1) (-53) ltac:(lia) ltac:(lia) H) as L. revert L.
  unfold binary_round. destruct (shl_align _ _ _) as [mz ez] eqn:E.
  destruct (shl_align_value _ _ _ _ _ E) as (d & Hd & Ez & Em & Hs).
  change (Zpos (digits2_pos p)) with (Zdigits2 (Zpos p)) in *.
  destruct (Zdigits2_bounds (Zpos p)) as [[D1 D2] D3]; [lia|].
  assert (Dp : Zdigits2 (Zpos p) + e <= 0).
  { destruct (decide (Zdigits2 (Zpos p) + e <= 0)); [done|exfalso].
    unfold fle in H. set (b := Z.min e (-53)) in *.
    assert (X : 2 ^ (0 - b) <= 2 ^ (Zdigits2 (Zpos p) - 1 + (e - b))) by (apply Z.pow_le_mono_r; lia).
    rewrite Z.pow_add_r in X by lia. replace (0 - b) with (53 + (-53 - b)) in X by lia.
    rewrite (Z.pow_add_r 2 53) in X by lia.
    pose proof (Z.pow_pos_nonneg 2 (-53 - b) ltac:(lia) ltac:(lia)).
    pose proof (Z.pow_pos_nonneg 2 (e - b) ltac:(lia) ltac:(lia)).
    pose proof (Z.mul_le_mono_nonneg_r _ _ (2 ^ (e - b)) ltac:(lia) D1). lia. }
  assert (F : fexp64 (Zdigits2 (Zpos p) + e) <= -53) by (unfold SpecFloat.fexp, SpecFloat.emin; lia).
  assert (Ezb : ez <= -53).
  { destruct (decide (fexp64 (Zdigits2 (Zpos p) + e) < e)) as [Hlt|]; [specialize (Hs Hlt)|]; lia. }
  assert (Dz : Zdigits2 (Zpos mz) <= Zdigits2 (Zpos p) + d).
  { apply Zdigits2_le; [|lia]. rewrite Em, Z.pow_add_r by lia.
    pose proof (Z.pow_pos_nonneg 2 d ltac:(lia) ltac:(lia)). nia. }
  assert (Fz : fexp64 (Zdigits2 (Zpos mz) + ez) <= -53) by (unfold SpecFloat.fexp, SpecFloat.emin; lia).
  destruct (round_aux_shape s (Zpos mz) ez loc_Exact) as (m2 & m3 & n2 & _ & _ & _ & P3 & N2 & ->); [lia|].
  set (n := Z.max 0 _) in *. intros L. destruct m3 as [|m3|m3]; [by right| |lia].
  cbn [packf] in *. destruct (Z.leb_spec (ez + n + n2) 971); [|done].
  left. exists m3, (ez + n + n2). split; [done|].
  destruct (decide (ez + n + n2 <= -53)); [done|exfalso].
  assert (ez + n + n2 = -52) as X by lia. rewrite X in L. destruct N2 as [|[_ Hm3]]; [lia|].
  change (Zpos m3 * 2 <= (2 ^ 53 - 1) * 1) in L. lia.
Qed.

(** What is left of one is strictly between zero and one. *)
Lemma one_minus_quotient_strict a b :
  0 < a < b -> b < 2 ^ 53 ->
  exists m e, fsub (fofz 1) (fdiv (fofz a) (fofz b)) = S754_finite false m e /\ e <= -53.
Proof.
  intros Ha Hb. destruct (fdiv_strict a b Ha Hb) as (m & e & -> & L & G).
  rewrite one_minus_exact. set (ez := Z.min (-52) e). set (d := _ - _).
  set (c := Z.min ez (-53)).
  apply (fle_base c) in L, G; [|lia..].
  assert (X : Zpos m * 2 ^ (e - c) = Zpos m * 2 ^ (e - ez) * 2 ^ (ez - c)).
  { rewrite <- Z.mul_assoc, <- Z.pow_add_r by lia. do 2 f_equal. lia. }
  assert (Y : 2 ^ (- ez) * 2 ^ (ez - c) = 2 ^ 53 * 2 ^ (-53 - c)).
  { rewrite <- !Z.pow_add_r by lia. f_equal. lia. }
  pose proof (Z.pow_pos_nonneg 2 (ez - c) ltac:(lia) ltac:(lia)) as P.
  pose proof (Z.pow_pos_nonneg 2 (-53 - c) ltac:(lia) ltac:(lia)) as P'.
  assert (Dv : d * 2 ^ (ez - c) = 2 ^ 53 * 2 ^ (-53 - c) - Zpos m * 2 ^ (e - c)).
  { unfold d. rewrite Z.mul_sub_distr_r, Y, X. done. }
  destruct d as [|p|p] eqn:D; [lia| |nia]. cbn [binary_normalize].
  assert (U : fle (Zpos p) ez (2 ^ 53 - 1) (-53)) by (apply (fle_base c); lia).
  assert (W : fle 1 (-53) (Zpos p) ez) by (apply (fle_base c); lia).
  pose proof (binary_round_le false p ez (2 ^ 53 - 1) (-53) ltac:(lia) ltac:(lia) U) as L'.
  pose proof (binary_round_ge false p ez 1 (-53) _ _ ltac:(lia) ltac:(lia) W L') as G'.
  destruct (binary_round_below_one false p ez U) as [(m' & e' & -> & ?)|Z0]; [eauto|].
  rewrite Z0 in G'. cbn in G'. lia.
Qed.
