(* ===== verification/Float64Order.v ===== *)
(** The floats that operations return are normalised, and on normalised floats the
    comparisons of Go order the numbers they stand for. *)

From Stdlib Require Import ZArith Lia Bool SpecFloat.
From stdpp Require Import base numbers.
From S2P Require Import Prelude Float64.

Open Scope Z_scope.

Definition valid (x : float64) : Prop := valid_binary 53 1024 x = true.

Lemma Zdigits2_unique m d : 0 < d -> 2 ^ (d - 1) <= m < 2 ^ d -> Zdigits2 m = d.
Proof.
  intros Hd H. pose proof (Z.pow_pos_nonneg 2 (d - 1) ltac:(lia) ltac:(lia)).
  destruct (Zdigits2_bounds m) as [B1 B2]; [lia|].
  destruct (Z.lt_trichotomy (Zdigits2 m) d) as [L|[E|L]]; [|done|].
  - pose proof (Z.pow_le_mono_r 2 (Zdigits2 m) (d - 1) ltac:(lia) ltac:(lia)). lia.
  - pose proof (Z.pow_le_mono_r 2 d (Zdigits2 m - 1) ltac:(lia) ltac:(lia)). lia.
Qed.

Lemma Zdigits2_div m n : 0 <= n -> 0 < m / 2 ^ n -> Zdigits2 (m / 2 ^ n) = Zdigits2 m - n.
Proof.
  intros Hn H. pose proof (Z.pow_pos_nonneg 2 n ltac:(lia) ltac:(lia)) as P.
  assert (0 < m) by (destruct (decide (0 < m)); [done|]; pose proof (Z.div_le_upper_bound m (2 ^ n) 0 P ltac:(lia)); lia).
  destruct (Zdigits2_bounds m) as [[B1 B2] B3]; [done|].
  assert (n < Zdigits2 m).
  { destruct (decide (n < Zdigits2 m)); [done|]. pose proof (Z.pow_le_mono_r 2 (Zdigits2 m) n ltac:(lia) ltac:(lia)).
    rewrite Z.div_small in H by lia. lia. }
  apply Zdigits2_unique; [lia|]. split.
  - apply Z.div_le_lower_bound; [lia|]. rewrite <- Z.pow_add_r by lia. etransitivity; [|exact B1]. apply Z.pow_le_mono_r; lia.
  - apply Z.div_lt_upper_bound; [lia|]. rewrite <- Z.pow_add_r by lia. replace (n + (Zdigits2 m - n)) with (Zdigits2 m) by lia. lia.
Qed.

Lemma Zdigits2_succ m : 0 < m -> Zdigits2 (m + 1) = Zdigits2 m \/ (m + 1 = 2 ^ Zdigits2 m /\ Zdigits2 (m + 1) = Zdigits2 m + 1).
Proof.
  intros Hm. destruct (Zdigits2_bounds m Hm) as [[B1 B2] B3].
  destruct (decide (m + 1 = 2 ^ Zdigits2 m)) as [E|E].
  - right. split; [done|]. apply Zdigits2_unique; [lia|]. rewrite E. replace (Zdigits2 m + 1 - 1) with (Zdigits2 m) by lia.
    split; [lia|]. apply Z.pow_lt_mono_r; lia.
  - left. apply Zdigits2_unique; lia.
Qed.

(** Rounding normalises, when its argument has digits to spare. *)
Lemma round_aux_valid s m e l :
  0 <= m -> e <= fexp64 (Zdigits2 m + e) -> valid (binary_round_aux 53 1024 s m e l).
Proof.
  intros Hm He. destruct (round_aux_shape s m e l Hm) as (m2 & m3 & n2 & L & U & E & P3 & N2 & ->).
  assert (En : Z.max 0 (fexp64 (Zdigits2 m + e) - e) = fexp64 (Zdigits2 m + e) - e) by lia. rewrite En in *. clear En.
  set (n := fexp64 (Zdigits2 m + e) - e) in *. assert (En : e + n = fexp64 (Zdigits2 m + e)) by lia.
  destruct m3 as [|p|p]; [done| |lia]. cbn [packf]. destruct (Z.leb_spec (e + n + n2) 971); [|done].
  unfold valid, valid_binary, bounded, canonical_mantissa. apply andb_true_iff. split; [|by apply Z.leb_le].
  apply Z.eqb_eq. change (Zpos (digits2_pos p)) with (Zdigits2 (Zpos p)).
  destruct N2 as [[-> Ep]|[-> Ep]].
  2: { rewrite Ep. change (Zdigits2 (2 ^ 52)) with 53. pose proof (fexp64_ge (Zdigits2 m + e)).
       unfold SpecFloat.fexp, SpecFloat.emin in *. lia. }
  rewrite Z.pow_0_r, Z.mul_1_r in E. subst m2. rewrite Z.add_0_r.
  set (q := m / 2 ^ n) in *. assert (0 <= q) by (apply Z.div_pos; [lia|apply Z.pow_pos_nonneg; lia]).
  destruct (decide (q = 0)) as [Q0|Q0].
  { assert (Zpos p = 1) as -> by lia. change (Zdigits2 1) with 1.
    assert (Zdigits2 m <= n).
    { destruct (decide (m = 0)) as [->|]; [cbn; lia|]. apply Zdigits2_le; [|lia]. apply Z.div_small_iff in Q0; [lia|].
      apply Z.pow_nonzero; lia. }
    unfold SpecFloat.fexp, SpecFloat.emin in *. lia. }
  assert (Dq : Zdigits2 q = Zdigits2 m - n) by (apply Zdigits2_div; lia).
  assert (Zpos p = q \/ Zpos p = q + 1) as [Epq|Epq] by lia; rewrite Epq.
  - rewrite Dq. replace (Zdigits2 m - n + (e + n)) with (Zdigits2 m + e) by lia. lia.
  - destruct (Zdigits2_succ q) as [Ds|[Es Ds]]; [lia| |]; rewrite Ds, Dq.
    + replace (Zdigits2 m - n + (e + n)) with (Zdigits2 m + e) by lia. lia.
    + assert (Zdigits2 q < 53).
      { destruct (decide (Zdigits2 q < 53)); [done|]. pose proof (Z.pow_le_mono_r 2 53 (Zdigits2 q) ltac:(lia) ltac:(lia)). lia. }
      unfold SpecFloat.fexp, SpecFloat.emin in *. lia.
Qed.

Lemma binary_round_valid s p e : valid (binary_round 53 1024 s p e).
Proof.
  unfold binary_round. destruct (shl_align _ _ _) as [mz ez] eqn:E.
  destruct (shl_align_value _ _ _ _ _ E) as (d & Hd & Ez & Em & Hs).
  change (Zpos (digits2_pos p)) with (Zdigits2 (Zpos p)) in *.
  destruct (Zdigits2_bounds (Zpos p)) as [[B1 B2] B3]; [lia|].
  assert (D : Zdigits2 (Zpos mz) = Zdigits2 (Zpos p) + d).
  { apply Zdigits2_unique; [lia|]. rewrite Em. pose proof (Z.pow_pos_nonneg 2 d ltac:(lia) ltac:(lia)).
    replace (Zdigits2 (Zpos p) + d - 1) with (Zdigits2 (Zpos p) - 1 + d) by lia. rewrite !Z.pow_add_r by lia. nia. }
  apply round_aux_valid; [lia|]. rewrite D. replace (Zdigits2 (Zpos p) + d + ez) with (Zdigits2 (Zpos p) + e) by lia.
  destruct (decide (fexp64 (Zdigits2 (Zpos p) + e) < e)) as [Hlt|]; [specialize (Hs Hlt)|]; lia.
Qed.

Lemma binary_normalize_valid m e z : valid (binary_normalize 53 1024 m e z).
Proof. destruct m; cbn [binary_normalize]; [done|apply binary_round_valid..]. Qed.

Lemma fofz_valid n : valid (fofz n).
Proof. apply binary_normalize_valid. Qed.

Lemma valid_finite s m e : valid (S754_finite s m e) -> fexp64 (Zdigits2 (Zpos m) + e) = e /\ e <= 971.
Proof. intros [H1 H2]%andb_true_iff. apply Z.eqb_eq in H1. apply Z.leb_le in H2. done. Qed.

Lemma fmul_valid x y : valid x -> valid y -> valid (fmul x y).
Proof.
  intros Hx Hy. destruct x as [sx|sx| |sx mx ex], y as [sy|sy| |sy my ey]; try done.
  apply valid_finite in Hx as [Hx _]. apply valid_finite in Hy as [Hy _].
  apply round_aux_valid; [lia|]. rewrite Pos2Z.inj_mul.
  destruct (Zdigits2_bounds (Zpos mx)) as [[A1 A2] A3]; [lia|]. destruct (Zdigits2_bounds (Zpos my)) as [[B1 B2] B3]; [lia|].
  assert (D : Zdigits2 (Zpos mx) + Zdigits2 (Zpos my) - 1 <= Zdigits2 (Zpos mx * Zpos my)).
  { destruct (Zdigits2_bounds (Zpos mx * Zpos my)) as [[C1 C2] C3]; [lia|].
    destruct (decide (Zdigits2 (Zpos mx) + Zdigits2 (Zpos my) - 1 <= Zdigits2 (Zpos mx * Zpos my))); [done|exfalso].
    assert (2 ^ Zdigits2 (Zpos mx * Zpos my) <= 2 ^ (Zdigits2 (Zpos mx) - 1 + (Zdigits2 (Zpos my) - 1))) as X by (apply Z.pow_le_mono_r; lia).
    rewrite Z.pow_add_r in X by lia.
    pose proof (Z.pow_pos_nonneg 2 (Zdigits2 (Zpos mx) - 1) ltac:(lia) ltac:(lia)).
    pose proof (Z.pow_pos_nonneg 2 (Zdigits2 (Zpos my) - 1) ltac:(lia) ltac:(lia)).
    pose proof (Z.mul_le_mono_nonneg (2 ^ (Zdigits2 (Zpos mx) - 1)) (Zpos mx) (2 ^ (Zdigits2 (Zpos my) - 1)) (Zpos my)). lia. }
  unfold SpecFloat.fexp, SpecFloat.emin in *. lia.
Qed.

Lemma fadd_valid x y : valid x -> valid y -> valid (fadd x y).
Proof.
  intros Hx Hy. destruct x as [[]|[]| |sx mx ex], y as [[]|[]| |sy my ey]; try done. apply binary_normalize_valid.
Qed.

Lemma fsub_valid x y : valid x -> valid y -> valid (fsub x y).
Proof.
  intros Hx Hy. destruct x as [[]|[]| |sx mx ex], y as [[]|[]| |sy my ey]; try done. apply binary_normalize_valid.
Qed.

Lemma Zdigits2_lower m d : 0 <= m -> (0 < d -> 2 ^ (d - 1) <= m) -> d <= Zdigits2 m.
Proof.
  intros Hm H. destruct (decide (0 < d)) as [Hd|Hd]; [specialize (H Hd)|destruct m; cbn; lia].
  pose proof (Z.pow_pos_nonneg 2 (d - 1) ltac:(lia) ltac:(lia)). destruct (Zdigits2_bounds m) as [B1 B2]; [lia|].
  destruct (decide (d <= Zdigits2 m)); [done|]. pose proof (Z.pow_le_mono_r 2 (Zdigits2 m) (d - 1) ltac:(lia) ltac:(lia)). lia.
Qed.

Lemma fdiv_valid x y : valid x -> valid y -> valid (fdiv x y).
Proof.
  intros Hx Hy. destruct x as [sx|sx| |sx m1 e1], y as [sy|sy| |sy m2 e2]; try done.
  unfold fdiv, SFdiv. destruct (SFdiv_core_binary _ _ _ _ _ _) as [[q e'] l] eqn:E. unfold SFdiv_core_binary in E.
  set (ex := Z.min _ _) in E. set (m' := match _ with Zpos _ => _ | _ => _ end) in E.
  assert (Hxe : ex <= e1 - e2) by (unfold ex; lia).
  assert (Hxf : ex <= fexp64 (Zdigits2 (Zpos m1) + e1 - (Zdigits2 (Zpos m2) + e2))) by (unfold ex; lia).
  assert (Em' : m' = Zpos m1 * 2 ^ (e1 - e2 - ex)).
  { unfold m'. destruct (e1 - e2 - ex) eqn:S; [lia|apply Z.shiftl_mul_pow2; lia|lia]. }
  clearbody m' ex. set (k := e1 - e2 - ex) in *. assert (0 <= k) by lia.
  pose proof (Z.pow_pos_nonneg 2 k ltac:(lia) ltac:(lia)) as Pk.
  pose proof (Z.div_eucl_eq m' (Zpos m2) ltac:(lia)) as Q1. pose proof (Z.mod_pos_bound m' (Zpos m2) ltac:(lia)) as Q2.
  unfold Z.modulo in Q2. destruct (Z.div_eucl m' (Zpos m2)) as [q0 r]. injection E as <- <- <-.
  assert (0 <= q0) by nia.
  destruct (Zdigits2_bounds (Zpos m1)) as [[A1 A2] A3]; [lia|]. destruct (Zdigits2_bounds (Zpos m2)) as [[B1 B2] B3]; [lia|].
  apply round_aux_valid; [done|].
  assert (D : Zdigits2 (Zpos m1) + k - Zdigits2 (Zpos m2) <= Zdigits2 q0).
  { apply Zdigits2_lower; [done|]. intros Hd. set (T := 2 ^ (Zdigits2 (Zpos m1) + k - Zdigits2 (Zpos m2) - 1)).
    assert (X : T * 2 ^ Zdigits2 (Zpos m2) <= m').
    { unfold T. rewrite <- Z.pow_add_r by lia. rewrite Em'.
      replace (Zdigits2 (Zpos m1) + k - Zdigits2 (Zpos m2) - 1 + Zdigits2 (Zpos m2)) with (Zdigits2 (Zpos m1) - 1 + k) by lia.
      rewrite Z.pow_add_r by lia. apply Z.mul_le_mono_nonneg_r; lia. }
    assert (0 < T) by (apply Z.pow_pos_nonneg; lia). nia. }
  unfold SpecFloat.fexp, SpecFloat.emin in *. lia.
Qed.

(** ** Order *)

(** The number a finite float stands for: a signed mantissa and an exponent. *)
Definition fnum (x : float64) : Z * Z :=
  match x with S754_finite s m e => (cond_Zopp s (Zpos m), e) | _ => (0, 0) end.

Definition finite (x : float64) : Prop := match x with S754_zero _ | S754_finite _ _ _ => True | _ => False end.

Definition num_le (x y : float64) : Prop := fle (fnum x).1 (fnum x).2 (fnum y).1 (fnum y).2.

(** Of two normalised floats the one with the larger exponent is the larger. *)
Lemma mantissa_exponent_le m1 e1 m2 e2 :
  valid (S754_finite false m1 e1) -> valid (S754_finite false m2 e2) -> e1 < e2 -> fle (Zpos m1) e1 (Zpos m2) e2.
Proof.
  intros [V1 _]%valid_finite [V2 _]%valid_finite He.
  destruct (Zdigits2_bounds (Zpos m1)) as [[A1 A2] A3]; [lia|]. destruct (Zdigits2_bounds (Zpos m2)) as [[B1 B2] B3]; [lia|].
  assert (D : Zdigits2 (Zpos m1) <= 53 /\ Zdigits2 (Zpos m2) = 53) by (unfold SpecFloat.fexp, SpecFloat.emin in *; lia).
  apply (fle_base e1); [lia..|]. rewrite Z.sub_diag, Z.pow_0_r, Z.mul_1_r.
  pose proof (Z.pow_le_mono_r 2 (Zdigits2 (Zpos m1)) 53 ltac:(lia) ltac:(lia)).
  pose proof (Z.pow_le_mono_r 2 1 (e2 - e1) ltac:(lia) ltac:(lia)). destruct D as [_ D]. rewrite D in B1.
  change (2 ^ (53 - 1)) with 4503599627370496 in B1. change (2 ^ 53) with 9007199254740992 in *. nia.
Qed.

Lemma fle_opp m e k j : fle (- m) e (- k) j <-> fle k j m e.
Proof. unfold fle. rewrite (Z.min_comm j e). lia. Qed.

Lemma fle_zero_l m e k j : 0 <= k -> m <= 0 -> fle m e k j.
Proof.
  intros Hk Hm. unfold fle. pose proof (Z.pow_pos_nonneg 2 (e - Z.min e j) ltac:(lia) ltac:(lia)).
  pose proof (Z.pow_pos_nonneg 2 (j - Z.min e j) ltac:(lia) ltac:(lia)). nia.
Qed.

(** Go's [<] failing orders two normalised numbers the other way. *)
Lemma SFltb_false_le x y : valid x -> valid y -> finite x -> finite y -> SFltb x y = false -> num_le y x.
Proof.
  intros Vx Vy Fx Fy. unfold SFltb, num_le. destruct x as [sx| | |sx mx ex], y as [sy| | |sy my ey]; try done; cbn [SFcompare fnum fst snd].
  - destruct sy; [intros _|done]. apply fle_zero_l; cbn; lia.
  - destruct sx; [done|intros _]. apply fle_zero_l; cbn; lia.
  - change (Pos.compare_cont Eq mx my) with (Pos.compare mx my).
    assert (V : forall s m e, valid (S754_finite s m e) -> valid (S754_finite false m e)) by done.
    apply V in Vx, Vy. destruct sx, sy; cbn [cond_Zopp]; try done.
    + rewrite fle_opp. destruct (Z.compare_spec ex ey) as [->|He|He]; [|intros _; by apply mantissa_exponent_le|done].
      destruct (Pos.compare_spec mx my) as [->|Hm|Hm]; cbn; try done; intros _; apply fle_same; lia.
    + intros _. apply fle_zero_l; lia.
    + destruct (Z.compare_spec ex ey) as [->|He|He]; [|done|intros _; by apply mantissa_exponent_le].
      destruct (Pos.compare_spec mx my) as [->|Hm|Hm]; cbn; try done; intros _; apply fle_same; lia.
Qed.

Lemma SFltb_asym x y : SFltb x y = true -> SFltb y x = false.
Proof.
  unfold SFltb. destruct x as [sx|sx| |sx mx ex], y as [sy|sy| |sy my ey]; cbn [SFcompare]; try done; try (by destruct sx); try (by destruct sy);
    try (by destruct sx, sy).
  change (Pos.compare_cont Eq mx my) with (Pos.compare mx my). change (Pos.compare_cont Eq my mx) with (Pos.compare my mx).
  rewrite (Z.compare_antisym ex ey), (Pos.compare_antisym mx my).
  destruct sx, sy, (ex ?= ey), (Pos.compare mx my); done.
Qed.

Lemma SFltb_true_le x y : valid x -> valid y -> finite x -> finite y -> SFltb x y = true -> num_le x y.
Proof. intros Vx Vy Fx Fy H. apply SFltb_false_le; [done..|]. by apply SFltb_asym. Qed.
