(* ===== verification/AiCtrl.v ===== *)
(** * AiCtrl: the applier of controller snapshots

    pkg/aictrl: validation of a snapshot, the decay scalar and its mode label, the
    merge with local health and the session that applies snapshots and rewrites
    weights every second; pkg/loxinet/ai_ctrl_applier.go: the sinks behind it, the
    endpoints it knows and their health.  Instants are nanoseconds since the Unix
    epoch, durations 64-bit.  The snapshot and the answer to an acknowledgement come
    from the wire, the order of a map range from the runtime: they are inputs of the
    step that reads them.  The calls of a session to its sink and its hooks are the
    events of the step.  Log lines are left out, and a validation error is a value:
    its text is only sent back. *)

From Stdlib Require Import Ascii String.
From stdpp Require Import base gmap strings list sets.
From S2P Require Import Prelude NetIdText Float64.

Open Scope Z_scope.
Open Scope igw_scope.

(** ** The messages *)

Definition EP_STATE_UNSPECIFIED : Z := 0.
Definition EP_STATE_ACTIVE : Z := 1.
Definition EP_STATE_DRAINING : Z := 2.
Definition EP_STATE_DISABLED : Z := 3.

Definition ROLE_PREFILL : Z := 1.
Definition ROLE_DECODE : Z := 2.

Record EpEntry := MkEpEntry { GetEpIdx : Z; GetEpAddr : string; GetRole : Z; GetWeight : Z; GetState : Z }.
Record ServiceSnapshot := MkServiceSnapshot { GetServiceKey : string; GetEps : list EpEntry }.
Record Snapshot := MkSnapshot {
  GetEpoch : Z;                        (* uint64 *)
  GetBootId : string;
  GetStalenessDeadlineUnixMs : Z;      (* uint64 *)
  GetServices : list ServiceSnapshot;
  GetMinApplierVersion : Z;            (* uint32 *)
  GetNonce : string }.

(** ** Instants *)

Definition UnixMilli (ms : Z) : Z := ms * 1000000.

(** [Time.Sub] saturates. *)
Definition timeSub (a b : Z) : Z := Z.max (- two63) (Z.min (two63 - 1) (a - b)).

Definition Second : Z := 1000000000.

(** ** Validation *)

Definition ApplierVersion : Z := 1.

Inductive snapErr :=
  | SnapNil
  | SnapVersion (v : Z)
  | SnapReplay (epoch last : Z) (boot : string)
  | SnapDeadlinePast (deadline now : Z)
  | SnapDeadlineFar (deadline window : Z)
  | SnapUnknownService (key : string)
  | SnapUnknownEp (idx : Z) (key : string)
  | SnapDuplicateEp (idx : Z) (key : string)
  | SnapWeight (w : Z) (key : string) (idx : Z)
  | SnapState (st : Z) (key : string) (idx : Z).

Definition validState (st : Z) : bool :=
  (st ==? EP_STATE_UNSPECIFIED) || (st ==? EP_STATE_ACTIVE) || (st ==? EP_STATE_DRAINING) || (st ==? EP_STATE_DISABLED).

Fixpoint checkEps (key : string) (idxs seen : list Z) (eps : list EpEntry) : option snapErr :=
  match eps with
  | [] => None
  | ep :: rest =>
      if negb (bool_decide (GetEpIdx ep ∈ idxs)) then Some (SnapUnknownEp (GetEpIdx ep) key)
      else if bool_decide (GetEpIdx ep ∈ seen) then Some (SnapDuplicateEp (GetEpIdx ep) key)
      else if GetWeight ep >? 100 then Some (SnapWeight (GetWeight ep) key (GetEpIdx ep))
      else if validState (GetState ep) then checkEps key idxs (GetEpIdx ep :: seen) rest
      else Some (SnapState (GetState ep) key (GetEpIdx ep))
  end.

Fixpoint checkServices (known : gmap string (list Z)) (svcs : list ServiceSnapshot) : option snapErr :=
  match svcs with
  | [] => None
  | svc :: rest =>
      match known !! GetServiceKey svc with
      | None => Some (SnapUnknownService (GetServiceKey svc))
      | Some idxs =>
          match checkEps (GetServiceKey svc) idxs [] (GetEps svc) with
          | Some e => Some e
          | None => checkServices known rest
          end
      end
  end.

(** [None]: the snapshot is accepted. *)
Definition ValidateSnapshot (s : option Snapshot) (known : gmap string (list Z)) (lastBootID : string) (lastEpoch : Z)
  (now decayWindow : Z) : option snapErr :=
  match s with
  | None => Some SnapNil
  | Some s =>
      if GetMinApplierVersion s >? ApplierVersion then Some (SnapVersion (GetMinApplierVersion s))
      else if (GetBootId s ==s lastBootID) && (GetEpoch s <=? lastEpoch) then Some (SnapReplay (GetEpoch s) lastEpoch (GetBootId s))
      else
        let deadline := UnixMilli (i64 (GetStalenessDeadlineUnixMs s)) in
        if negb (deadline >? now) then Some (SnapDeadlinePast deadline now)
        else
          let maxAhead := now + i64 (10 * decayWindow) in
          if (decayWindow >? 0) && (deadline >? maxAhead) then Some (SnapDeadlineFar deadline decayWindow)
          else checkServices known (GetServices s)
  end.

(** ** Decay *)

Inductive Mode := ModeAutonomous | ModeStale | ModeSmart.

#[global] Instance Mode_eq_dec : EqDecision Mode.
Proof. solve_decision. Defined.

Definition modeNum (m : Mode) : Z := match m with ModeAutonomous => 0 | ModeStale => 1 | ModeSmart => 2 end.

Definition modeString (m : Mode) : string :=
  match m with ModeSmart => "smart" | ModeStale => "stale" | ModeAutonomous => "autonomous" end.

Definition flt (a b : float64) : bool := SpecFloat.SFltb a b.
Definition fleb (a b : float64) : bool := SpecFloat.SFleb a b.

Definition ModeFromAlpha (alpha : float64) : Mode :=
  if fleb (fofz 1) alpha then ModeSmart
  else if flt (fofz 0) alpha then ModeStale
  else ModeAutonomous.

Definition Alpha (now deadline decayWindow : Z) : float64 :=
  if now <? deadline then fofz 1
  else if decayWindow <=? 0 then fofz 0
  else
    let elapsed := timeSub now deadline in
    if elapsed >=? decayWindow then fofz 0
    else fsub (fofz 1) (fdiv (fofz elapsed) (fofz decayWindow)).

Definition clampAlpha (alpha : float64) : float64 :=
  if flt alpha (fofz 0) then fofz 0 else if flt (fofz 1) alpha then fofz 1 else alpha.

Definition clampWeight (eff : float64) : float64 :=
  if flt eff (fofz 0) then fofz 0 else if flt (fofz 100) eff then fofz 100 else eff.

Definition EffectiveWeight (w : Z) (alpha : float64) : Z :=
  let alpha := clampAlpha alpha in
  let eff := Round (fadd (fofz 100) (fmul alpha (fsub (fofz w) (fofz 100)))) in
  ftruncz (clampWeight eff) mod two32w.

(** ** Merge with local health *)

Record EpDirective := MkEpDirective { dServiceKey : string; dEpIdx : Z; dWeight : Z; dState : Z }.

Definition Packed (d : EpDirective) : Z := Z.lor (Z.shiftl (dState d) 24 mod two32w) (Z.land (dWeight d) 255).

Definition MergeVerdict (d : EpDirective) (healthy : bool) : EpDirective * bool :=
  if healthy then (d, false) else (MkEpDirective (dServiceKey d) (dEpIdx d) 0 0, true).

(** ** The session *)

Record Config := MkConfig { GatewayID : string; DecayWindow : Z; Hysteresis : Z; AckTimeout : Z; JitterPct : Z }.

Record Session := MkSession {
  haveSnapshot : bool;
  lastBootID : string;
  lastEpoch : Z;
  sDeadline : Z;
  directives : gmap string (list EpDirective);
  autonomousLatched : bool;
  lastHysteresisAt : Z;
  lastAcceptedMode : Mode;
  ackCapable : bool }.

Definition configDefaults (cfg : Config) : Config :=
  MkConfig (GatewayID cfg)
    (if DecayWindow cfg <=? 0 then 30 * Second else DecayWindow cfg)
    (if Hysteresis cfg <=? 0 then 5 * Second else Hysteresis cfg)
    (if AckTimeout cfg <=? 0 then 10 * Second else AckTimeout cfg)
    (JitterPct cfg).

Definition NewSession : Session := MkSession false "" 0 0 ∅ false 0 ModeAutonomous true.

Inductive AckStatus := ACK_STATUS_APPLIED | ACK_STATUS_REJECTED.

Record Ack := MkAck { ackEpoch : Z; ackNonce : string; ackStatus : AckStatus; ackDetail : option snapErr; ackGateway : string }.

Inductive event :=
  | EUpdateEp (key : string) (epIdx packed : Z)
  | ESetMode (key : string) (mode : Z)
  | EOverride (key : string) (epIdx : Z)
  | EModeChange (m : Mode)
  | ETick (alpha : float64) (m : Mode)
  | ESleep (d : Z)
  | EApplied (epoch : Z) (keys : list string)
  | ERejected (epoch : Z) (e : snapErr)
  | EAck (a : Ack).

(** What the controller answers to an acknowledgement. *)
Inductive rpcAnswer := RpcOk | RpcUnimplemented | RpcFailed.

Definition setAckCapable (b : bool) (s : Session) : Session :=
  MkSession (haveSnapshot s) (lastBootID s) (lastEpoch s) (sDeadline s) (directives s) (autonomousLatched s)
    (lastHysteresisAt s) (lastAcceptedMode s) b.

Definition ackSnapshot (cfg : Config) (rpc : rpcAnswer) (snap : Snapshot) (st : AckStatus) (detail : option snapErr)
  (s : Session) : Session * list event :=
  if negb (ackCapable s) then (s, [])
  else
    let evs := [EAck (MkAck (GetEpoch snap) (GetNonce snap) st detail (GatewayID cfg))] in
    match rpc with
    | RpcOk => (s, evs)
    | RpcUnimplemented => (setAckCapable false s, evs)
    | RpcFailed => (s, evs)
    end.

Definition setGate (at_ : Z) (m : Mode) (s : Session) : Session :=
  MkSession (haveSnapshot s) (lastBootID s) (lastEpoch s) (sDeadline s) (directives s) (autonomousLatched s) at_ m (ackCapable s).

(** Both callers hold the session's lock, so the compare-and-swap of the gate
    succeeds at its first attempt. *)
Definition modeGate (cfg : Config) (m : Mode) (now : Z) (s : Session) : bool * Session :=
  let nowNs := i64 now in
  let last := lastHysteresisAt s in
  if negb (last ==? 0) && (i64 (nowNs - last) <? Hysteresis cfg)
  then if bool_decide (lastAcceptedMode s = m) then (false, s) else (true, setGate nowNs m s)
  else if bool_decide (lastAcceptedMode s = m) then (false, s) else (true, setGate nowNs m s).

Definition gateAndAnnounce (cfg : Config) (m : Mode) (now : Z) (s : Session) : Session * list event :=
  let '(ok, s) := modeGate cfg m now s in (s, if ok then [EModeChange m] else []).

(** The order in which a range visits the directives, and the hook that reports
    local health. *)
Definition rangeOrder := gmap string (list EpDirective) -> list (string * list EpDirective).
Definition healthHook := option (string -> Z -> bool).

Definition isHealthy (h : healthHook) (key : string) (idx : Z) : bool :=
  match h with Some f => f key idx | None => true end.

Definition writeOne (h : healthHook) (alpha : float64) (key : string) (d : EpDirective) : event :=
  let eff := MkEpDirective (dServiceKey d) (dEpIdx d) (EffectiveWeight (dWeight d) alpha) (dState d) in
  let '(apply, overridden) := MergeVerdict eff (isHealthy h key (dEpIdx d)) in
  if overridden then EOverride key (dEpIdx d) else EUpdateEp key (dEpIdx apply) (Packed apply).

Definition writeAllLocked (ord : rangeOrder) (h : healthHook) (alpha : float64) (dirs : gmap string (list EpDirective)) : list event :=
  flat_map (fun p => map (writeOne h alpha p.1) p.2) (ord dirs).

Definition directiveOf (key : string) (ep : EpEntry) : EpDirective :=
  MkEpDirective key (GetEpIdx ep) (GetWeight ep) (GetState ep).

Definition addDirective (key : string) (dirs : gmap string (list EpDirective)) (ep : EpEntry) : gmap string (list EpDirective) :=
  <[key := default [] (dirs !! key) ++ [directiveOf key ep]]> dirs.

Definition buildDirectives (svcs : list ServiceSnapshot) : gmap string (list EpDirective) :=
  foldl (fun dirs svc => foldl (addDirective (GetServiceKey svc)) dirs (GetEps svc)) ∅ svcs.

(** The delay of an application, from a draw in [0,1). *)
Definition jitterDelay (cfg : Config) (rand : float64) (deadline now : Z) : option Z :=
  if JitterPct cfg >? 0
  then let period := Z.quot (timeSub deadline now) 3 in
       if period >? 0
       then Some (ftruncz (fmul (fdiv (fmul rand (fofz (JitterPct cfg))) (fofz 100)) (fofz period)))
       else None
  else None.

(** A snapshot that passed validation and waits for its delay to end. *)
Record pendingSnap := Pending { pSnap : Snapshot; pDeadline : Z }.

(** handleSnapshot up to its delay... *)
Definition receiveSnapshot (cfg : Config) (now : Z) (known : gmap string (list Z)) (rand : float64) (rpc : rpcAnswer)
  (snap : Snapshot) (s : Session) : Session * list event * option pendingSnap :=
  match ValidateSnapshot (Some snap) known (lastBootID s) (lastEpoch s) now (DecayWindow cfg) with
  | Some e =>
      let '(s, evs) := ackSnapshot cfg rpc snap ACK_STATUS_REJECTED (Some e) s in
      (s, ERejected (GetEpoch snap) e :: evs, None)
  | None =>
      let deadline := UnixMilli (i64 (GetStalenessDeadlineUnixMs snap)) in
      (s, match jitterDelay cfg rand deadline now with Some d => [ESleep d] | None => [] end, Some (Pending snap deadline))
  end.

Definition setApplied (p : pendingSnap) (s : Session) : Session :=
  MkSession true (GetBootId (pSnap p)) (GetEpoch (pSnap p)) (pDeadline p) (buildDirectives (GetServices (pSnap p))) false
    (lastHysteresisAt s) (lastAcceptedMode s) (ackCapable s).

(** ...and after it. *)
Definition applySnapshot (cfg : Config) (cancelled : bool) (applyNow : Z) (ord ordM ordK : rangeOrder) (h : healthHook)
  (rpc : rpcAnswer) (p : pendingSnap) (s : Session) : Session * list event :=
  if cancelled then (s, [])
  else
    let s := setApplied p s in
    let dirs := directives s in
    let alpha := Alpha applyNow (sDeadline s) (DecayWindow cfg) in
    let '(s, announced) := gateAndAnnounce cfg (ModeFromAlpha alpha) applyNow s in
    let writes := writeAllLocked ord h alpha dirs in
    let modes := map (fun q => ESetMode q.1 1) (ordM dirs) in
    let '(s, acked) := ackSnapshot cfg rpc (pSnap p) ACK_STATUS_APPLIED None s in
    (s, announced ++ writes ++ modes ++ [EApplied (GetEpoch (pSnap p)) ((ordK dirs).*1)] ++ acked).

Definition setLatched (s : Session) : Session :=
  MkSession (haveSnapshot s) (lastBootID s) (lastEpoch s) (sDeadline s) (directives s) true
    (lastHysteresisAt s) (lastAcceptedMode s) (ackCapable s).

Definition tickOnce (cfg : Config) (now : Z) (ord : rangeOrder) (h : healthHook) (s : Session) : Session * list event :=
  let alpha := if haveSnapshot s then Alpha now (sDeadline s) (DecayWindow cfg) else fofz 0 in
  let m := ModeFromAlpha alpha in
  let '(s, announced) := gateAndAnnounce cfg m now s in
  let evs := announced ++ [ETick alpha m] in
  if negb (haveSnapshot s) then (s, evs)
  else if fleb alpha (fofz 0)
  then if autonomousLatched s then (s, evs)
       else (setLatched s, evs ++ map (fun q => ESetMode q.1 0) (ord (directives s)))
  else (s, evs ++ writeAllLocked ord h alpha (directives s)).

(** ** The machine of the stream goroutine and the ticker *)

Record machine := Machine { sess : Session; pending : option pendingSnap }.

Inductive input :=
  | IRecv (now : Z) (known : gmap string (list Z)) (rand : float64) (rpc : rpcAnswer) (snap : Snapshot)
  | IApply (cancelled : bool) (applyNow : Z) (ord ordM ordK : rangeOrder) (h : healthHook) (rpc : rpcAnswer)
  | ITick (now : Z) (ord : rangeOrder) (h : healthHook).

(** The stream goroutine handles one snapshot at a time; ticks fall anywhere. *)
Definition machineStep (cfg : Config) (m : machine) (i : input) : machine * list event :=
  match i, pending m with
  | IRecv now known rand rpc snap, None =>
      let '(s, evs, p) := receiveSnapshot cfg now known rand rpc snap (sess m) in (Machine s p, evs)
  | IApply c now ord ordM ordK h rpc, Some p =>
      let '(s, evs) := applySnapshot cfg c now ord ordM ordK h rpc p (sess m) in (Machine s None, evs)
  | ITick now ord h, p => let '(s, evs) := tickOnce cfg now ord h (sess m) in (Machine s p, evs)
  | _, _ => (m, [])
  end.

Fixpoint machineRun (cfg : Config) (m : machine) (ins : list input) : machine * list event :=
  match ins with
  | [] => (m, [])
  | i :: ins => let '(m, e1) := machineStep cfg m i in let '(m, e2) := machineRun cfg m ins in (m, e1 ++ e2)
  end.

Definition startMachine : machine := Machine NewSession None.

(** ** Reconnection *)

Definition maxReconnectBackoff : Z := 5 * Second.

(** The sleeps of [Run]: each ended stream reports whether a snapshot arrived. *)
Fixpoint runBackoffs (backoff : Z) (streams : list bool) : list Z :=
  match streams with
  | [] => []
  | received :: rest =>
      let backoff := if received then Second else backoff in
      let next := i64 (backoff * 2) in
      backoff :: runBackoffs (if next >? maxReconnectBackoff then maxReconnectBackoff else next) rest
  end.

(** One stream: dialling and subscribing may fail; then snapshots arrive until it
    ends. *)
Definition runStream (dialled subscribed : bool) (snaps : list Snapshot) : bool :=
  if negb dialled then false else if negb subscribed then false else match snaps with [] => false | _ => true end.

(** ** What the data plane holds *)

Record sinkState := Sink { words : gmap (string * Z) Z; modes : gmap string Z }.

Definition sinkEvent (c : sinkState) (e : event) : sinkState :=
  match e with
  | EUpdateEp key idx packed => Sink (<[(key, idx) := packed]> (words c)) (modes c)
  | ESetMode key m => Sink (words c) (<[key := m]> (modes c))
  | _ => c
  end.

Definition sinkRun (c : sinkState) (evs : list event) : sinkState := foldl sinkEvent c evs.
