(* ===== verification/AiCtrlDecay.v ===== *)
(** * AiCtrlDecay: the decay ladder and the written words, at the level of floats

    The label derived from the decay scalar follows the clock exactly, and the
    effective weight never leaves the interval between the snapshot's weight and
    the neutral one. *)

From Stdlib Require Import Ascii String SpecFloat.
From stdpp Require Import base gmap strings list sets.
From S2P Require Import Prelude NetIdText Float64 AiCtrl.

Open Scope Z_scope.
Open Scope igw_scope.

(** ** The scalar *)

Lemma timeSub_range a b : - two63 <= timeSub a b < two63.
Proof. unfold timeSub, two63. lia. Qed.

Lemma Alpha_at_most_one now deadline window : window < two63 -> at_most_one (Alpha now deadline window).
Proof.
  intros Hw. unfold Alpha. zcase; [by vm_compute|]. zcase; [done|]. zcase; [done|].
  unfold timeSub, two63 in *.
  destruct (fdiv_pos (Z.max (- 9223372036854775808) (Z.min (9223372036854775808 - 1) (now - deadline))) window) as [S N]; [lia..|].
  by apply one_minus_at_most_one.
Qed.

Lemma clampAlpha_spec alpha : at_most_one alpha -> mag_le (clampAlpha alpha) 1 0 /\ fneg (clampAlpha alpha) = false.
Proof.
  intros H. unfold clampAlpha, flt, SFltb. destruct alpha as [s|s| |s m e]; cbn in H; try done.
  - subst. by split; vm_compute.
  - destruct s; [by split; vm_compute|]. specialize (H eq_refl). change (SFcompare (S754_finite false m e) (fofz 0)) with (Some Gt).
    cbv beta iota. destruct (SFcompare (fofz 1) (S754_finite false m e)) as [[]|]; (split; [|done]); done || by vm_compute.
Qed.

(** ** The weight *)

Definition shortfall (w : Z) : float64 := fsub (fofz w) (fofz 100).

Definition shortfallOk (w : Z) : bool :=
  match shortfall w with
  | S754_zero _ => w ==? 100
  | S754_finite s m e => s && (e <=? 0) && (Zpos m ==? (100 - w) * 2 ^ (- e))
  | _ => false
  end.

Lemma shortfall_all : forallb shortfallOk (seqZ 0 101) = true.
Proof. by vm_compute. Qed.

Lemma shortfall_value w :
  0 <= w <= 100 -> mag_le (shortfall w) (100 - w) 0 /\ (fneg (shortfall w) = true \/ exists s, shortfall w = S754_zero s).
Proof.
  intros Hw. pose proof (proj1 (forallb_forall _ _) shortfall_all w) as A. unfold shortfallOk in A.
  assert (I : In w (seqZ 0 101)) by (apply list_elem_of_In, elem_of_seqZ; lia). specialize (A I).
  destruct (shortfall w) as [s| | |s m e]; split_bools; try done; [cbn; split; [lia|eauto]|].
  subst s. split; [|by left]. cbn. apply (fle_base e); [lia..|].
  rewrite Z.sub_diag, Z.pow_0_r, Z.mul_1_r. replace (0 - e) with (- e) by lia. lia.
Qed.

Lemma hundred_is : fofz 100 = S754_finite false 7036874417766400 (-46).
Proof. by vm_compute. Qed.

(** The weight written lies between the snapshot's weight and 100, whatever the
    scalar. *)
Lemma EffectiveWeight_between w alpha :
  0 <= w <= 100 -> at_most_one alpha -> w <= EffectiveWeight w alpha <= 100.
Proof.
  intros Hw Ha. unfold EffectiveWeight. fold (shortfall w). set (x := Round _).
  destruct (clampAlpha_spec alpha Ha) as [C1 C2]. destruct (shortfall_value w Hw) as [S1 S2].
  destruct (fmul_le (clampAlpha alpha) (shortfall w) (100 - w)) as [M1 M2]; [lia|done..|].
  assert (MS : fneg (fmul (clampAlpha alpha) (shortfall w)) = true \/ exists s, fmul (clampAlpha alpha) (shortfall w) = S754_zero s).
  { destruct S2 as [S2|[s S2]].
    - destruct (clampAlpha alpha) as [s| | |[] m e], (shortfall w) as [s'| | |[] m' e']; cbn in C1, C2, S1, S2; try done.
      + cbn. eauto.
      + destruct (fmul _ _) as [?| | |? ? ?]; cbn in M1, M2 |- *; try done; subst; eauto.
    - rewrite S2. destruct (clampAlpha alpha); cbn in C1; try done; cbn; eauto. }
  assert (H100 : fle (Zpos 7036874417766400) (-46) 100 0 /\ fle 100 0 (Zpos 7036874417766400) (-46)) by (by vm_compute).
  destruct H100 as [L1 L2].
  destruct (fadd_between 7036874417766400 (-46) _ 100 w Hw ltac:(lia) L1 L2 MS M1) as (F1 & F2 & F3).
  rewrite <- hundred_is in F1, F2, F3.
  destruct (Round_between _ w 100 Hw ltac:(lia) F3 F1 F2) as [R1 R2]. fold x in R1, R2.
  assert (T : w <= ftruncz (clampWeight x) <= 100).
  { unfold clampWeight. destruct (flt x (fofz 0)) eqn:E0.
    - exfalso. unfold flt, SFltb in E0. destruct x as [?|[]| |[] ? ?]; cbn in R2, E0; done.
    - destruct (flt (fofz 100) x); [|done].
      assert (ftruncz (fofz 100) = 100) as -> by (by vm_compute). lia. }
  unfold two32w. rewrite Z.mod_small; lia.
Qed.

(** At full influence the snapshot's weight is written, at none the neutral one. *)
Lemma EffectiveWeight_smart w : 0 <= w <= 100 -> EffectiveWeight w (fofz 1) = w.
Proof.
  intros Hw. pose proof (proj1 (forallb_forall (fun w => EffectiveWeight w (fofz 1) ==? w) (seqZ 0 101)) ltac:(by vm_compute) w) as A.
  apply Z.eqb_eq, A, list_elem_of_In, elem_of_seqZ. lia.
Qed.

Lemma EffectiveWeight_autonomous w : 0 <= w <= 100 -> EffectiveWeight w (fofz 0) = 100.
Proof.
  intros Hw. pose proof (proj1 (forallb_forall (fun w => EffectiveWeight w (fofz 0) ==? 100) (seqZ 0 101)) ltac:(by vm_compute) w) as A.
  apply Z.eqb_eq, A, list_elem_of_In, elem_of_seqZ. lia.
Qed.

(** ** The label *)

Lemma SFcompare_one_below s m e : e <= -53 -> SFcompare (fofz 1) (S754_finite s m e) = Some Gt.
Proof.
  intros He. rewrite one_is. cbn [SFcompare]. destruct s; [done|].
  destruct (Z.compare_spec (-52) e) as [|H|H]; [lia|lia|done].
Qed.

(** C17: The mode label follows the clock exactly, floating point included: smart up
    to and at the deadline, stale strictly inside the decay window, autonomous from
    its end on; for every window of less than 2^53 nanoseconds, some 104 days. *)
Theorem mode_follows_the_clock now deadline window :
  0 < window < 2 ^ 53 ->
  ModeFromAlpha (Alpha now deadline window) =
    if now <=? deadline then ModeSmart else if now <? deadline + window then ModeStale else ModeAutonomous.
Proof.
  intros Hw. unfold Alpha. destruct (Z.ltb_spec now deadline) as [H1|H1].
  { rewrite (proj2 (Z.leb_le now deadline)) by lia. by vm_compute. }
  rewrite (proj2 (Z.leb_gt window 0)) by lia. cbn zeta.
  assert (Ts : timeSub now deadline = Z.min (two63 - 1) (now - deadline)) by (unfold timeSub, two63; lia).
  assert (Tw : (timeSub now deadline <? window) = (now <? deadline + window)).
  { rewrite Ts. unfold two63. destruct (Z.ltb_spec now (deadline + window)).
    - apply Z.ltb_lt. lia.
    - apply Z.ltb_ge. lia. }
  rewrite Z.leb_antisym, Tw.
  destruct (Z.ltb_spec now (deadline + window)) as [H2|H2]; cbn [negb].
  2: { rewrite (proj2 (Z.leb_gt now deadline)) by lia. by vm_compute. }
  rewrite Ts, Z.min_r by (unfold two63; lia).
  destruct (Z.leb_spec now deadline) as [H3|H3].
  { assert (now - deadline = 0) as -> by lia.
    destruct (fofz_exact window) as (m & e & -> & _); [lia|]. by vm_compute. }
  destruct (one_minus_quotient_strict (now - deadline) window) as (m & e & -> & He); [lia..|].
  unfold ModeFromAlpha, fleb, flt, SFleb, SFltb. rewrite SFcompare_one_below by done. done.
Qed.

Lemma mode_follows_the_clock_witness :
  0 < 30 * Second < 2 ^ 53 /\
  ModeFromAlpha (Alpha (107 * Second) (100 * Second) (30 * Second)) = ModeStale.
Proof. split; [by vm_compute|]. rewrite mode_follows_the_clock by (by vm_compute). reflexivity. Defined.
