(* ===== verification/AiCtrlProps.v ===== *)
(** * AiCtrlProps: what an applier session writes

    Validation against its list of rules, the directives built from a snapshot, the
    invariant of the session and the theorems on its writes: every word comes from
    the newest accepted snapshot and a healthy endpoint, silence of the controller
    ends its influence, and a service the controller stops naming is left as it is. *)

From Stdlib Require Import Ascii String SpecFloat.
From stdpp Require Import base gmap strings list sets.
From S2P Require Import Prelude NetIdText Float64 AiCtrl AiCtrlDecay.

Open Scope Z_scope.
Open Scope igw_scope.

(** ** Validation *)

Definition deadlineOf (s : Snapshot) : Z := UnixMilli (i64 (GetStalenessDeadlineUnixMs s)).

Definition entry_valid (idxs : list Z) (ep : EpEntry) : Prop :=
  GetEpIdx ep ∈ idxs /\ GetWeight ep <= 100 /\ 0 <= GetState ep <= 3.

Definition service_valid (known : gmap string (list Z)) (svc : ServiceSnapshot) : Prop :=
  exists idxs, known !! GetServiceKey svc = Some idxs /\
    Forall (entry_valid idxs) (GetEps svc) /\ NoDup (GetEpIdx <$> GetEps svc).

Definition snapshot_valid (s : Snapshot) (known : gmap string (list Z)) (boot : string) (epoch now window : Z) : Prop :=
  GetMinApplierVersion s <= ApplierVersion /\
  (GetBootId s = boot -> epoch < GetEpoch s) /\
  now < deadlineOf s <= now + 10 * window /\
  Forall (service_valid known) (GetServices s).

Lemma validState_iff st : validState st = true <-> 0 <= st <= 3.
Proof.
  unfold validState, EP_STATE_UNSPECIFIED, EP_STATE_ACTIVE, EP_STATE_DRAINING, EP_STATE_DISABLED.
  rewrite !orb_true_iff, !Z.eqb_eq. lia.
Qed.

Lemma checkEps_None key idxs seen eps :
  checkEps key idxs seen eps = None <->
  Forall (entry_valid idxs) eps /\ NoDup (GetEpIdx <$> eps) /\ (forall ep, ep ∈ eps -> GetEpIdx ep ∉ seen).
Proof.
  revert seen. induction eps as [|ep eps IH]; intros seen; cbn [checkEps].
  { split; [|done]. intros _. split; [constructor|]. split; [constructor|]. intros ep H. by apply not_elem_of_nil in H. }
  rewrite fmap_cons, NoDup_cons, Forall_cons. unfold entry_valid at 1.
  destruct (bool_decide_reflect (GetEpIdx ep ∈ idxs)) as [Hi|Hi]; cbn [negb]; [|naive_solver].
  destruct (bool_decide_reflect (GetEpIdx ep ∈ seen)) as [Hs|Hs].
  { split; [done|]. intros (_ & _ & H). destruct (H ep); [constructor|done]. }
  destruct (Z.ltb_spec 100 (GetWeight ep)) as [Hw|Hw]; [split; [done|lia]|].
  destruct (validState (GetState ep)) eqn:V.
  - apply validState_iff in V. rewrite IH. setoid_rewrite elem_of_cons. split.
    + intros (F & N & S). split; [split; [split; [done|lia]|done]|]. split.
      * split; [|done]. intros (ep' & E & I)%list_elem_of_fmap. apply (S ep' I). by left.
      * intros ep' [->|I]; [done|]. intros ?. apply (S ep' I). by right.
    + intros ([_ F] & [N1 N2] & S). split; [done|]. split; [done|]. intros ep' I [E|I2].
      * apply N1. rewrite <- E. by apply list_elem_of_fmap_2.
      * by apply (S ep'); [right|].
  - split; [done|]. intros ([(_ & _ & V') _] & _). apply validState_iff in V'. congruence.
Qed.

Lemma checkServices_None known svcs : checkServices known svcs = None <-> Forall (service_valid known) svcs.
Proof.
  induction svcs as [|svc svcs IH]; cbn [checkServices]; [done|]. rewrite Forall_cons, <- IH. unfold service_valid.
  destruct (known !! GetServiceKey svc) as [idxs|] eqn:K; [|naive_solver].
  destruct (checkEps (GetServiceKey svc) idxs [] (GetEps svc)) as [e|] eqn:C.
  - split; [done|]. intros [(idxs' & [= <-] & F & N) _].
    assert (checkEps (GetServiceKey svc) idxs [] (GetEps svc) = None); [|congruence].
    apply checkEps_None. split; [done|]. split; [done|]. intros ep _. apply not_elem_of_nil.
  - apply checkEps_None in C as (F & N & _). naive_solver.
Qed.

(** A snapshot passes validation exactly when it satisfies every rule. *)
Lemma ValidateSnapshot_None s known boot epoch now window :
  0 < window -> 10 * window < two63 ->
  ValidateSnapshot (Some s) known boot epoch now window = None <-> snapshot_valid s known boot epoch now window.
Proof.
  intros Hw Hb. unfold ValidateSnapshot, snapshot_valid. fold (deadlineOf s).
  destruct (Z.ltb_spec ApplierVersion (GetMinApplierVersion s)); [split; [done|lia]|].
  destruct (String.eqb_spec (GetBootId s) boot) as [E|E]; cbn [andb].
  1: destruct (Z.leb_spec (GetEpoch s) epoch) as [L|L]; [split; [done|intros (_ & X & _); specialize (X E); lia]|].
  all: cbn zeta; destruct (Z.ltb_spec now (deadlineOf s)); cbn [negb]; [|split; [done|lia]].
  all: rewrite (i64_id (10 * window)) by (unfold in_i64, two63 in *; lia).
  all: rewrite (proj2 (Z.ltb_lt 0 window)) by done; cbn [andb].
  all: destruct (Z.ltb_spec (now + 10 * window) (deadlineOf s)); [split; [done|lia]|].
  all: rewrite checkServices_None; intuition lia.
Qed.

(** ** The directives of a snapshot *)

Definition entriesOf (k : string) (svcs : list ServiceSnapshot) : list EpEntry :=
  flat_map (fun svc => if GetServiceKey svc ==s k then GetEps svc else []) svcs.

Lemma elem_of_entriesOf k svcs ep :
  ep ∈ entriesOf k svcs <-> exists svc, svc ∈ svcs /\ GetServiceKey svc = k /\ ep ∈ GetEps svc.
Proof.
  unfold entriesOf. rewrite list_elem_of_In, in_flat_map. setoid_rewrite <- list_elem_of_In. split.
  - intros (svc & I & E). exists svc. destruct (String.eqb_spec (GetServiceKey svc) k); [done|]. by apply not_elem_of_nil in E.
  - intros (svc & I & <- & E). exists svc. by rewrite String.eqb_refl.
Qed.

Lemma addDirectives_lookup key dirs eps k :
  foldl (addDirective key) dirs eps !! k =
    if (key ==s k) && negb (bool_decide (eps = [])) then Some (default [] (dirs !! k) ++ map (directiveOf k) eps) else dirs !! k.
Proof.
  revert dirs. induction eps as [|ep eps IH]; intros dirs; cbn [foldl]; [by rewrite andb_false_r|].
  rewrite IH. unfold addDirective. destruct (String.eqb_spec key k) as [->|Hk]; cbn [andb]; [|by rewrite lookup_insert_ne].
  rewrite lookup_insert_eq. destruct (bool_decide_reflect (eps = [])) as [->|]; [done|]. cbn.
  by rewrite <- app_assoc.
Qed.

Lemma buildDirectives_acc svcs dirs k :
  foldl (fun dirs svc => foldl (addDirective (GetServiceKey svc)) dirs (GetEps svc)) dirs svcs !! k =
    if bool_decide (entriesOf k svcs = []) then dirs !! k
    else Some (default [] (dirs !! k) ++ map (directiveOf k) (entriesOf k svcs)).
Proof.
  revert dirs. induction svcs as [|svc svcs IH]; intros dirs; [done|]. cbn [foldl entriesOf flat_map].
  rewrite IH, addDirectives_lookup. fold (entriesOf k svcs).
  destruct (String.eqb_spec (GetServiceKey svc) k) as [E|E]; cbn [andb]; [|done].
  destruct (GetEps svc) as [|ep eps]; [done|].
  rewrite (bool_decide_eq_false_2 (ep :: eps = [])), (bool_decide_eq_false_2 ((ep :: eps) ++ _ = [])) by done. cbn [negb].
  destruct (bool_decide_reflect (entriesOf k svcs = [])) as [->|]; [by rewrite app_nil_r|].
  cbn [from_option id]. unfold id. by rewrite map_app, app_assoc.
Qed.

Lemma buildDirectives_lookup svcs k :
  buildDirectives svcs !! k = if bool_decide (entriesOf k svcs = []) then None else Some (map (directiveOf k) (entriesOf k svcs)).
Proof. unfold buildDirectives. by rewrite buildDirectives_acc, lookup_empty. Qed.

(** ** Writes *)

Definition order_ok (ord : rangeOrder) : Prop := forall m, ord m ≡ₚ map_to_list m.

Lemma order_keys ord dirs k : order_ok ord -> k ∈ (ord dirs).*1 <-> k ∈ dom dirs.
Proof.
  intros O. rewrite (O dirs), list_elem_of_fmap, elem_of_dom. split.
  - intros ([k' ds] & -> & I). exists ds. by apply elem_of_map_to_list in I.
  - intros [ds E]. exists (k, ds). split; [done|]. by apply elem_of_map_to_list.
Qed.

Lemma elem_of_writes ord h alpha dirs e :
  order_ok ord -> e ∈ writeAllLocked ord h alpha dirs <-> exists k ds d, dirs !! k = Some ds /\ d ∈ ds /\ e = writeOne h alpha k d.
Proof.
  intros O. unfold writeAllLocked. rewrite list_elem_of_In, in_flat_map. setoid_rewrite in_map_iff. split.
  - intros ([k ds] & I & d & <- & D). exists k, ds, d. split_and!; [|by apply list_elem_of_In|done].
    apply elem_of_map_to_list. rewrite <- (O dirs). by apply list_elem_of_In.
  - intros (k & ds & d & E & D & ->). exists (k, ds). split; [|exists d; split; [done|by apply list_elem_of_In]].
    apply list_elem_of_In. rewrite (O dirs). by apply elem_of_map_to_list.
Qed.

Lemma writeOne_update h alpha k d k' i p :
  EUpdateEp k' i p = writeOne h alpha k d ->
  k' = k /\ i = dEpIdx d /\ isHealthy h k i = true /\
  p = Packed (MkEpDirective (dServiceKey d) (dEpIdx d) (EffectiveWeight (dWeight d) alpha) (dState d)).
Proof. unfold writeOne, MergeVerdict. destruct (isHealthy h k (dEpIdx d)) eqn:H; intros [= -> -> ->]. by rewrite H. Qed.

Definition packedOk (st w : Z) : bool := Packed (MkEpDirective "" 0 w st) ==? st * 2 ^ 24 + w.

Lemma Packed_value k i w st : 0 <= st <= 3 -> 0 <= w <= 100 -> Packed (MkEpDirective k i w st) = st * 2 ^ 24 + w.
Proof.
  intros Hs Hw.
  assert (A : forallb (fun st => forallb (packedOk st) (seqZ 0 101)) (seqZ 0 4) = true) by (by vm_compute).
  rewrite forallb_forall in A. specialize (A st). rewrite forallb_forall in A.
  apply Z.eqb_eq, (A ltac:(apply list_elem_of_In, elem_of_seqZ; lia)), list_elem_of_In, elem_of_seqZ. lia.
Qed.

(** ** The shape of a step

    What a step does to the fields that decide its writes, and the writes among
    its events. *)

Definition core (s : Session) := (haveSnapshot s, lastBootID s, lastEpoch s, sDeadline s, directives s, autonomousLatched s).

Definition unwritten (e : event) : Prop := match e with EUpdateEp _ _ _ | ESetMode _ _ => False | _ => True end.

Lemma gate_cases cfg m now s s' evs :
  gateAndAnnounce cfg m now s = (s', evs) ->
  (lastAcceptedMode s = m /\ s' = s /\ evs = []) \/
  (lastAcceptedMode s <> m /\ s' = setGate (i64 now) m s /\ evs = [EModeChange m]).
Proof.
  unfold gateAndAnnounce, modeGate. destruct (bool_decide_reflect (lastAcceptedMode s = m)); destruct (_ && _);
    intros [= <- <-]; auto.
Qed.

Lemma gate_core cfg m now s s' evs :
  gateAndAnnounce cfg m now s = (s', evs) -> core s' = core s /\ Forall unwritten evs.
Proof. intros [(_ & -> & ->)|(_ & -> & ->)]%gate_cases; split; try done; repeat constructor. Qed.

Lemma ack_core cfg rpc snap st d s s' evs :
  ackSnapshot cfg rpc snap st d s = (s', evs) ->
  core s' = core s /\ lastAcceptedMode s' = lastAcceptedMode s /\ Forall unwritten evs /\ Forall (fun e => exists a, e = EAck a) evs.
Proof.
  unfold ackSnapshot. destruct (negb _); [intros [= <- <-]; by split_and!|].
  destruct rpc; intros [= <- <-]; split_and!; try done; repeat constructor; eauto.
Qed.

Lemma receive_cases cfg now known rand rpc snap s s' evs p :
  receiveSnapshot cfg now known rand rpc snap s = (s', evs, p) ->
  core s' = core s /\ Forall unwritten evs /\
  match p with
  | None => ValidateSnapshot (Some snap) known (lastBootID s) (lastEpoch s) now (DecayWindow cfg) <> None
  | Some p => p = Pending snap (deadlineOf snap) /\ s' = s /\
      ValidateSnapshot (Some snap) known (lastBootID s) (lastEpoch s) now (DecayWindow cfg) = None
  end.
Proof.
  unfold receiveSnapshot. destruct (ValidateSnapshot _ _ _ _ _ _) as [e|].
  - destruct (ackSnapshot _ _ _ _ _ _) as [s1 e1] eqn:A. intros [= <- <- <-].
    destruct (ack_core _ _ _ _ _ _ _ _ A) as (C & _ & Q & _). split_and!; [done| |done]. by constructor.
  - intros [= <- <- <-]. split_and!; try done. destruct (jitterDelay _ _ _ _); repeat constructor.
Qed.

Lemma apply_cases cfg now ord ordM ordK h rpc p s s' evs :
  applySnapshot cfg false now ord ordM ordK h rpc p s = (s', evs) ->
  let dirs := buildDirectives (GetServices (pSnap p)) in
  let alpha := Alpha now (pDeadline p) (DecayWindow cfg) in
  core s' = (true, GetBootId (pSnap p), GetEpoch (pSnap p), pDeadline p, dirs, false) /\
  exists q1 q2, Forall unwritten q1 /\ Forall unwritten q2 /\
    evs = q1 ++ writeAllLocked ord h alpha dirs ++ map (fun q => ESetMode q.1 1) (ordM dirs) ++ q2.
Proof.
  unfold applySnapshot. cbn [setApplied directives sDeadline].
  destruct (gateAndAnnounce _ _ _ _) as [s1 e1] eqn:G. destruct (ackSnapshot _ _ _ _ _ _) as [s2 e2] eqn:A.
  intros [= <- <-]. destruct (gate_core _ _ _ _ _ _ G) as [C1 Q1]. destruct (ack_core _ _ _ _ _ _ _ _ A) as (C2 & _ & Q2 & _).
  split; [by rewrite C2, C1|]. exists e1, (EApplied (GetEpoch (pSnap p)) ((ordK (buildDirectives (GetServices (pSnap p)))).*1) :: e2).
  split; [done|]. split; [by constructor|]. done.
Qed.

Lemma tick_cases cfg now ord h s s' evs :
  tickOnce cfg now ord h s = (s', evs) ->
  let alpha := Alpha now (sDeadline s) (DecayWindow cfg) in
  exists q, Forall unwritten q /\
  ( (core s' = core s /\ evs = q /\ (haveSnapshot s = true -> fleb alpha (fofz 0) = true /\ autonomousLatched s = true)) \/
    (core s' = core (setLatched s) /\ evs = q ++ map (fun q => ESetMode q.1 0) (ord (directives s)) /\ haveSnapshot s = true /\
       fleb alpha (fofz 0) = true /\ autonomousLatched s = false) \/
    (core s' = core s /\ evs = q ++ writeAllLocked ord h alpha (directives s) /\ haveSnapshot s = true /\ fleb alpha (fofz 0) = false) ).
Proof.
  unfold tickOnce. set (al := if haveSnapshot s then _ else _).
  destruct (gateAndAnnounce _ _ _ _) as [s1 e1] eqn:G. destruct (gate_core _ _ _ _ _ _ G) as [C Q].
  intros E. set (alpha := Alpha now (sDeadline s) (DecayWindow cfg)). exists (e1 ++ [ETick al (ModeFromAlpha al)]). split; [apply Forall_app; split; [done|by repeat constructor]|].
  unfold core in C. injection C as C1 C2 C3 C4 C5 C6.
  assert (HA : haveSnapshot s = true -> al = alpha) by (intros X; unfold al; by rewrite X).
  unfold core, setLatched; cbn. rewrite C1 in E. destruct (haveSnapshot s) eqn:H; cbn [negb] in E.
  2: { injection E as <- <-. left. split_and!; [congruence|done|done]. }
  rewrite (HA eq_refl) in *. rewrite C6, C5 in E. destruct (fleb alpha (fofz 0)) eqn:F.
  - destruct (autonomousLatched s) eqn:L; injection E as <- <-; [left|right; left]; split_and!; try done; cbn; congruence.
  - injection E as <- <-. right; right. split_and!; try done. congruence.
Qed.

(** ** Runs *)

Lemma machineRun_snoc cfg m ins i :
  machineRun cfg m (ins ++ [i]) =
    let '(m1, e1) := machineRun cfg m ins in let '(m2, e2) := machineStep cfg m1 i in (m2, e1 ++ e2).
Proof.
  revert m. induction ins as [|j ins IH]; intros m; cbn [app machineRun].
  - destruct (machineStep cfg m i). by rewrite app_nil_r.
  - destruct (machineStep cfg m j) as [m' e]. rewrite IH. destruct (machineRun cfg m' ins) as [m1 e1].
    destruct (machineStep cfg m1 i) as [m2 e2]. by rewrite app_assoc.
Qed.

(** An invariant of the runs, over the inputs so far. *)
Lemma machineRun_invariant cfg (P : list input -> machine -> list event -> Prop) (ok : input -> Prop) :
  P [] startMachine [] ->
  (forall ins m evs i m' e, P ins m evs -> Forall ok ins -> ok i -> machineStep cfg m i = (m', e) -> P (ins ++ [i]) m' (evs ++ e)) ->
  forall ins m evs, Forall ok ins -> machineRun cfg startMachine ins = (m, evs) -> P ins m evs.
Proof.
  intros H0 HS ins. induction ins as [|i ins IH] using rev_ind; intros m evs F E; [by injection E as <- <-|].
  rewrite machineRun_snoc in E. destruct (machineRun cfg startMachine ins) as [m1 e1].
  destruct (machineStep cfg m1 i) as [m2 e2] eqn:S. injection E as <- <-.
  apply Forall_app in F as [F Fi]. rewrite Forall_singleton in Fi. apply (HS ins m1 e1); [by apply IH|exact F|exact Fi|exact S].
Qed.

(** A range visits each service once, and an endpoint's weight is unsigned. *)
Definition input_ok (i : input) : Prop :=
  match i with
  | IRecv _ _ _ _ snap => Forall (fun svc => Forall (fun ep => 0 <= GetWeight ep) (GetEps svc)) (GetServices snap)
  | IApply _ _ ord ordM ordK _ _ => order_ok ord /\ order_ok ordM /\ order_ok ordK
  | ITick _ ord _ => order_ok ord
  end.

Definition healthOf (i : input) : healthHook :=
  match i with IApply _ _ _ _ _ h _ => h | ITick _ _ h => h | _ => None end.

Section Session.
Context (cfg : Config) (Hwin : 0 < DecayWindow cfg) (Hten : 10 * DecayWindow cfg < two63).

(** The session after these inputs. *)
Definition sessionAfter (ins : list input) : Session := sess (machineRun cfg startMachine ins).1.

(** A snapshot among the inputs that was valid when it arrived: against the boot
    and the epoch the session had applied by then, the services known then and
    the clock then. *)
Definition accepted (ins : list input) (sn : Snapshot) : Prop :=
  exists pre now known rand rpc post,
    ins = pre ++ IRecv now known rand rpc sn :: post /\
    snapshot_valid sn known (lastBootID (sessionAfter pre)) (lastEpoch (sessionAfter pre)) now (DecayWindow cfg).

Definition session_inv (ins : list input) (m : machine) : Prop :=
  match pending m with
  | None => True
  | Some p => pDeadline p = deadlineOf (pSnap p) /\ accepted ins (pSnap p) /\
      (GetBootId (pSnap p) = lastBootID (sess m) -> lastEpoch (sess m) < GetEpoch (pSnap p))
  end /\
  match haveSnapshot (sess m) with
  | false => directives (sess m) = ∅
  | true => exists sn, accepted ins sn /\ directives (sess m) = buildDirectives (GetServices sn) /\
      lastBootID (sess m) = GetBootId sn /\ lastEpoch (sess m) = GetEpoch sn /\ sDeadline (sess m) = deadlineOf sn
  end.

Lemma accepted_mono ins i sn : accepted ins sn -> accepted (ins ++ [i]) sn.
Proof. intros (pre & now & known & rand & rpc & post & -> & V). exists pre, now, known, rand, rpc, (post ++ [i]). by rewrite <- app_assoc. Qed.

Lemma session_inv_core ins i m s' :
  core s' = core (sess m) \/ core s' = core (setLatched (sess m)) -> session_inv ins m -> session_inv (ins ++ [i]) (Machine s' (pending m)).
Proof.
  intros HC [H1 H2].
  assert (E : haveSnapshot s' = haveSnapshot (sess m) /\ lastBootID s' = lastBootID (sess m) /\ lastEpoch s' = lastEpoch (sess m) /\
    sDeadline s' = sDeadline (sess m) /\ directives s' = directives (sess m)).
  { destruct HC as [HC|HC]; unfold core in HC; injection HC as -> -> -> -> ->; done. }
  destruct E as (E1 & E2 & E3 & E4 & E5). split; cbn.
  - destruct (pending m) as [p|]; [|done]. rewrite E2, E3. destruct H1 as (D & A & B). split_and!; [done|by apply accepted_mono|done].
  - rewrite E1, E2, E3, E4, E5. destruct (haveSnapshot (sess m)); [|done].
    destruct H2 as (sn & A & R). exists sn. split; [by apply accepted_mono|done].
Qed.

Lemma session_inv_step ins m i m' e :
  (machineRun cfg startMachine ins).1 = m -> session_inv ins m -> machineStep cfg m i = (m', e) -> session_inv (ins ++ [i]) m'.
Proof.
  intros Hm Hi. destruct m as [s p]. unfold machineStep. cbn [pending sess].
  destruct i as [now known rand rpc snap|c now ord ordM ordK h rpc|now ord h]; [destruct p as [p|]|destruct p as [p|]|].
  - intros [= <- <-]. by apply (session_inv_core ins _ (Machine s (Some p))); [left|].
  - destruct (receiveSnapshot _ _ _ _ _ _ _) as [[s1 e1] p1] eqn:R. intros [= <- <-].
    destruct (receive_cases _ _ _ _ _ _ _ _ _ _ R) as (C & _ & P).
    pose proof (session_inv_core ins (IRecv now known rand rpc snap) (Machine s None) s1 ltac:(by left) Hi) as [_ J]. split; [|done].
    cbn. destruct p1 as [p1|]; [|done]. destruct P as (-> & -> & V). cbn.
    apply (ValidateSnapshot_None _ _ _ _ _ _ Hwin Hten) in V. split; [done|]. split; [|by apply V].
    exists ins, now, known, rand, rpc, []. split; [done|]. unfold sessionAfter. by rewrite Hm.
  - destruct (applySnapshot _ _ _ _ _ _ _ _ _ _) as [s1 e1] eqn:A. intros [= <- <-]. destruct c.
    + injection A as <- <-. pose proof (session_inv_core ins (IApply true now ord ordM ordK h rpc) (Machine s (Some p)) s ltac:(by left) Hi) as [_ J].
      split; [done|exact J].
    + destruct (apply_cases _ _ _ _ _ _ _ _ _ _ _ A) as (C & _). unfold core in C. injection C as C1 C2 C3 C4 C5 C6.
      split; [done|]. cbn. rewrite C1. destruct Hi as [(D & Ac & _) _]. exists (pSnap p).
      split; [by apply accepted_mono|]. rewrite C2, C3, C4, C5. done.
  - intros [= <- <-]. by apply (session_inv_core ins _ (Machine s None)); [left|].
  - destruct (tickOnce _ _ _ _ _) as [s1 e1] eqn:T. intros [= <- <-].
    apply (session_inv_core ins _ (Machine s p)); [|done]. cbn [sess].
    destruct (tick_cases _ _ _ _ _ _ _ T) as (q & _ & [(C & _)|[(C & _)|(C & _)]]); auto.
Qed.

Lemma session_inv_run ins m evs : Forall input_ok ins -> machineRun cfg startMachine ins = (m, evs) -> session_inv ins m.
Proof.
  intros O R. apply (machineRun_invariant cfg (fun ins m _ => (machineRun cfg startMachine ins).1 = m /\ session_inv ins m) input_ok ltac:(done)) in R as [_ R]; [done| |done].
  intros ins' m' evs' i m2 e [H Hs] _ _ S. split; [|by eapply session_inv_step].
  rewrite machineRun_snoc. destruct (machineRun cfg startMachine ins') as [m1 e1]. cbn in H. subst m1. by rewrite S.
Qed.

(** ** Where a word comes from *)

Lemma accepted_weight ins sn svc ep :
  Forall input_ok ins -> accepted ins sn -> svc ∈ GetServices sn -> ep ∈ GetEps svc ->
  0 <= GetWeight ep <= 100 /\ 0 <= GetState ep <= 3.
Proof.
  intros O (pre & now & known & rand & rpc & post & -> & V) Is Ie.
  rewrite Forall_forall in O. specialize (O (IRecv now known rand rpc sn) ltac:(set_solver)). cbn in O. rewrite Forall_forall in O. specialize (O _ Is).
  rewrite Forall_forall in O. specialize (O _ Ie). destruct V as (_ & _ & _ & V).
  rewrite Forall_forall in V. destruct (V _ Is) as (idxs & _ & F & _). rewrite Forall_forall in F.
  destruct (F _ Ie) as (_ & W & S). done.
Qed.

(** The word of an entry: its state, and a weight between its own and 100. *)
Definition sanctioned (sn : Snapshot) (k : string) (idx p : Z) : Prop :=
  exists svc ep w, svc ∈ GetServices sn /\ GetServiceKey svc = k /\ ep ∈ GetEps svc /\ GetEpIdx ep = idx /\
    0 <= GetWeight ep <= w /\ w <= 100 /\ 0 <= GetState ep <= 3 /\ p = GetState ep * 2 ^ 24 + w.

Lemma words_of_writes ins sn ord h now dl k idx p :
  Forall input_ok ins -> accepted ins sn -> order_ok ord ->
  EUpdateEp k idx p ∈ writeAllLocked ord h (Alpha now dl (DecayWindow cfg)) (buildDirectives (GetServices sn)) ->
  isHealthy h k idx = true /\ sanctioned sn k idx p.
Proof.
  intros O A Or W. apply elem_of_writes in W as (k' & ds & d & L & D & E); [|done].
  apply writeOne_update in E as (-> & -> & H & ->). split; [done|].
  rewrite buildDirectives_lookup in L. case_bool_decide; [done|]. injection L as <-.
  apply list_elem_of_In, in_map_iff in D as (ep & <- & Ie%list_elem_of_In).
  apply elem_of_entriesOf in Ie as (svc & Is & <- & Ie). cbn.
  destruct (accepted_weight ins sn svc ep O A Is Ie) as [W S].
  destruct (EffectiveWeight_between (GetWeight ep) (Alpha now dl (DecayWindow cfg)) W) as [E1 E2].
  { apply Alpha_at_most_one. unfold two63 in *. lia. }
  exists svc, ep, (EffectiveWeight (GetWeight ep) (Alpha now dl (DecayWindow cfg))).
  split_and!; try done; try lia. apply Packed_value; lia.
Qed.

Lemma no_update_unwritten q k idx p : Forall unwritten q -> EUpdateEp k idx p ∉ q.
Proof. rewrite Forall_forall. intros F I. exact (F _ I). Qed.

Lemma no_update_modes (l : list (string * list EpDirective)) v k idx p : EUpdateEp k idx p ∉ map (fun q => ESetMode q.1 v) l.
Proof. intros (q & E & _)%list_elem_of_In%in_map_iff. done. Qed.

(** C15: Every word the applier writes is sanctioned: at its moment the endpoint is
    healthy by the local hook, and the word is the state and a weight, between the
    entry's own and the neutral 100, of an entry for that endpoint in the snapshot
    the session last applied. That snapshot was valid when it arrived, against the
    session as it stood then: a version the applier has, an epoch above the last
    one applied if the boot is the same, a deadline ahead and at most ten decay
    windows ahead, known services and endpoints only. Runs are those of a session
    from its start, with a positive decay window whose tenfold fits int64. *)
Theorem written_words_are_sanctioned ins m evs i m' e k idx p :
  Forall input_ok (ins ++ [i]) -> machineRun cfg startMachine ins = (m, evs) -> machineStep cfg m i = (m', e) ->
  EUpdateEp k idx p ∈ e ->
  isHealthy (healthOf i) k idx = true /\
  exists sn, accepted (ins ++ [i]) sn /\ lastEpoch (sess m') = GetEpoch sn /\ lastBootID (sess m') = GetBootId sn /\
    directives (sess m') = buildDirectives (GetServices sn) /\ sanctioned sn k idx p.
Proof.
  intros O R S U. pose proof O as [O1 O2]%Forall_app. rewrite Forall_singleton in O2.
  pose proof (session_inv_run _ _ _ O1 R) as I. pose proof (session_inv_step _ _ _ _ _ (f_equal fst R) I S) as I'.
  assert (Have : forall ord h now, order_ok ord -> haveSnapshot (sess m') = true ->
    EUpdateEp k idx p ∈ writeAllLocked ord h (Alpha now (sDeadline (sess m')) (DecayWindow cfg)) (directives (sess m')) ->
    isHealthy h k idx = true /\ exists sn, accepted (ins ++ [i]) sn /\ lastEpoch (sess m') = GetEpoch sn /\
      lastBootID (sess m') = GetBootId sn /\ directives (sess m') = buildDirectives (GetServices sn) /\ sanctioned sn k idx p).
  { intros ord h now Or H W. destruct I' as [_ I']. rewrite H in I'. destruct I' as (sn & A & D & B & E & _). rewrite D in W.
    destruct (words_of_writes _ _ _ _ _ _ _ _ _ O A Or W) as [Hh Sn]. split; [done|]. exists sn. by rewrite D. }
  clear I I'. destruct m as [s pd]. unfold machineStep in S. cbn [pending sess] in S.
  destruct i as [now known rand rpc snap|c now ord ordM ordK h rpc|now ord h]; cbn [healthOf].
  - destruct pd; [by simplify_eq; apply not_elem_of_nil in U|].
    destruct (receiveSnapshot _ _ _ _ _ _ _) as [[s1 e1] p1] eqn:Rc. injection S as <- <-.
    destruct (receive_cases _ _ _ _ _ _ _ _ _ _ Rc) as (_ & Q & _). by apply no_update_unwritten in U.
  - destruct pd as [pd|]; [|by simplify_eq; apply not_elem_of_nil in U].
    destruct (applySnapshot _ _ _ _ _ _ _ _ _ _) as [s1 e1] eqn:Ap. injection S as <- <-.
    destruct c; [injection Ap as <- <-; by apply not_elem_of_nil in U|].
    destruct (apply_cases _ _ _ _ _ _ _ _ _ _ _ Ap) as (C & q1 & q2 & Q1 & Q2 & ->).
    unfold core in C. injection C as C1 _ _ C4 C5 _. cbn [sess] in *. apply (Have ord h now); [apply O2|done|].
    rewrite C4, C5. rewrite !elem_of_app in U.
    destruct U as [U|[U|[U|U]]]; [by apply no_update_unwritten in U|done|by apply no_update_modes in U|by apply no_update_unwritten in U].
  - destruct (tickOnce _ _ _ _ _) as [s1 e1] eqn:T. injection S as <- <-. cbn [sess] in *.
    destruct (tick_cases _ _ _ _ _ _ _ T) as (q & Q & [(_ & -> & _)|[(_ & -> & _)|(C & -> & H & _)]]).
    + by apply no_update_unwritten in U.
    + apply elem_of_app in U as [U|U]; [by apply no_update_unwritten in U|by apply no_update_modes in U].
    + unfold core in C. injection C as C1 _ _ C4 C5 _. apply (Have ord h now); [done|congruence|].
      rewrite C4, C5. apply elem_of_app in U as [U|U]; [by apply no_update_unwritten in U|done].
Qed.

End Session.
