(* ===== verification/AiCtrlRuns.v ===== *)
(** * AiCtrlRuns: what the data plane holds over a run of the applier

    The mode scalar of a service, the end of the controller's influence, services
    that the controller stops naming, the announced modes and the reconnections. *)

From Stdlib Require Import Ascii String SpecFloat.
From stdpp Require Import base gmap strings list sets.
From S2P Require Import Prelude NetIdText Float64 AiCtrl AiCtrlDecay AiCtrlProps.

Open Scope Z_scope.
Open Scope igw_scope.

(** ** Events on the sink *)

Lemma sinkRun_cons c e evs : sinkRun c (e :: evs) = sinkRun (sinkEvent c e) evs.
Proof. done. Qed.

Arguments sinkRun : simpl never.

Lemma sinkRun_app c e1 e2 : sinkRun c (e1 ++ e2) = sinkRun (sinkRun c e1) e2.
Proof. apply foldl_app. Qed.

Lemma sinkRun_unwritten c q : Forall unwritten q -> sinkRun c q = c.
Proof. induction 1 as [|e q He _ IH]; [done|]. rewrite sinkRun_cons. by destruct e. Qed.

Lemma sinkRun_modes v (l : list (string * list EpDirective)) c k :
  modes (sinkRun c (map (fun q => ESetMode q.1 v) l)) !! k = (if decide (k ∈ l.*1) then Some v else modes c !! k) /\
  words (sinkRun c (map (fun q => ESetMode q.1 v) l)) = words c.
Proof.
  revert c. induction l as [|[k' ds] l IH]; intros c; cbn [map fmap list_fmap fst].
  { by rewrite decide_False by apply not_elem_of_nil. }
  rewrite sinkRun_cons. destruct (IH (sinkEvent c (ESetMode k' v))) as [IH1 IH2]. split; [|done]. rewrite IH1. cbn.
  destruct (decide (k ∈ l.*1)) as [H|H]; [by rewrite decide_True by (by right)|].
  destruct (decide (k = k')) as [->|N].
  - rewrite decide_True by (by left). apply lookup_insert_eq.
  - rewrite decide_False by (rewrite elem_of_cons; naive_solver). by apply lookup_insert_ne.
Qed.

(** Words leave the modes alone, and touch the services of the directives only. *)
Lemma sinkRun_updates c q :
  Forall (fun e => match e with ESetMode _ _ => False | _ => True end) q -> modes (sinkRun c q) = modes c.
Proof.
  revert c. induction q as [|e q IH]; intros c F; [done|]. inversion F as [|? ? He Fq]; subst.
  rewrite sinkRun_cons, IH by done. by destruct e.
Qed.

Lemma writes_no_mode ord h alpha dirs :
  Forall (fun e => match e with ESetMode _ _ => False | _ => True end) (writeAllLocked ord h alpha dirs).
Proof.
  apply Forall_forall. intros e. unfold writeAllLocked. rewrite list_elem_of_In, in_flat_map. intros (p & _ & I).
  apply in_map_iff in I as (d & <- & _). unfold writeOne, MergeVerdict. by destruct (isHealthy h p.1 (dEpIdx d)).
Qed.

Definition eventKey (e : event) : option string :=
  match e with EUpdateEp k _ _ | ESetMode k _ => Some k | _ => None end.

Lemma sinkRun_other c evs k :
  Forall (fun e => eventKey e <> Some k) evs ->
  modes (sinkRun c evs) !! k = modes c !! k /\ forall idx, words (sinkRun c evs) !! (k, idx) = words c !! (k, idx).
Proof.
  revert c. induction evs as [|e evs IH]; intros c F; [done|]. inversion F as [|? ? He Fq]; subst.
  rewrite sinkRun_cons. destruct (IH (sinkEvent c e) Fq) as [I1 I2].
  split; [rewrite I1|intros idx; rewrite I2]; destruct e; cbn in He |- *; try done; apply lookup_insert_ne; congruence.
Qed.

Lemma unwritten_key q k : Forall unwritten q -> Forall (fun e => eventKey e <> Some k) q.
Proof. intros F. eapply Forall_impl; [exact F|]. by intros []. Qed.

Lemma modes_key (l : list (string * list EpDirective)) v k : k ∉ l.*1 -> Forall (fun e => eventKey e <> Some k) (map (fun q => ESetMode q.1 v) l).
Proof.
  intros H. apply Forall_forall. intros e (q & <- & I)%list_elem_of_In%in_map_iff. cbn. intros [= <-].
  apply H. apply list_elem_of_fmap_2. by apply list_elem_of_In.
Qed.

Lemma writes_key ord h alpha dirs k :
  order_ok ord -> k ∉ dom dirs -> Forall (fun e => eventKey e <> Some k) (writeAllLocked ord h alpha dirs).
Proof.
  intros O H. apply Forall_forall. intros e (k' & ds & d & L & _ & ->)%elem_of_writes; [|done].
  assert (k' <> k) by (intros ->; apply H, elem_of_dom; eauto).
  unfold writeOne, MergeVerdict. destruct (isHealthy h k' (dEpIdx d)); cbn; congruence.
Qed.

(** ** The mode scalar of a service *)

(** The data plane's mode of a service of the applied snapshot: 1, and 0 once the
    session has given up. *)
Definition modes_track (m : machine) (c : sinkState) : Prop :=
  haveSnapshot (sess m) = true -> forall k, k ∈ dom (directives (sess m)) ->
  modes c !! k = Some (if autonomousLatched (sess m) then 0 else 1).

Lemma modes_track_core m s' p c c' :
  modes_track m c -> core s' = core (sess m) -> modes c' = modes c -> modes_track (Machine s' p) c'.
Proof.
  intros T C E. unfold modes_track, core in *. cbn. injection C as -> _ _ _ -> ->. by rewrite E.
Qed.

Lemma modes_track_step cfg m c i m' e :
  input_ok i -> modes_track m c -> machineStep cfg m i = (m', e) -> modes_track m' (sinkRun c e).
Proof.
  intros O T S. destruct m as [s pd]. unfold machineStep in S. cbn [pending sess] in S.
  destruct i as [now known rand rpc snap|cc now ord ordM ordK h rpc|now ord h].
  - destruct pd; [by simplify_eq|]. destruct (receiveSnapshot _ _ _ _ _ _ _) as [[s1 e1] p1] eqn:Rc. injection S as <- <-.
    destruct (receive_cases _ _ _ _ _ _ _ _ _ _ Rc) as (C & Q & _). rewrite sinkRun_unwritten by done. by apply (modes_track_core _ _ _ _ _ T).
  - destruct pd as [pd|]; [|by simplify_eq]. destruct (applySnapshot _ _ _ _ _ _ _ _ _ _) as [s1 e1] eqn:Ap. injection S as <- <-.
    destruct cc; [injection Ap as <- <-; by apply (modes_track_core _ _ _ _ _ T)|].
    destruct (apply_cases _ _ _ _ _ _ _ _ _ _ _ Ap) as (C & q1 & q2 & Q1 & Q2 & ->).
    unfold core in C. injection C as _ _ _ _ C5 C6. intros _ k Hk. cbn in Hk |- *. rewrite C5 in Hk. rewrite C6.
    rewrite !sinkRun_app, !(sinkRun_unwritten _ q1), !(sinkRun_unwritten _ q2) by done.
    destruct (sinkRun_modes 1 (ordM (buildDirectives (GetServices (pSnap pd))))
      (sinkRun c (writeAllLocked ord h (Alpha now (pDeadline pd) (DecayWindow cfg)) (buildDirectives (GetServices (pSnap pd))))) k) as [-> _].
    rewrite decide_True; [done|]. by apply order_keys; [apply O|].
  - destruct (tickOnce _ _ _ _ _) as [s1 e1] eqn:Tk. injection S as <- <-.
    destruct (tick_cases _ _ _ _ _ _ _ Tk) as (q & Q & [(C & -> & _)|[(C & -> & _)|(C & -> & _)]]).
    + rewrite sinkRun_unwritten by done. by apply (modes_track_core _ _ _ _ _ T).
    + unfold core, setLatched in C. cbn in C. injection C as _ _ _ _ C5 C6. intros _ k Hk. cbn in Hk |- *. rewrite C5 in Hk.
      rewrite C6, sinkRun_app, (sinkRun_unwritten _ q) by done.
      destruct (sinkRun_modes 0 (ord (directives s)) c k) as [-> _]. rewrite decide_True; [done|]. by apply order_keys.
    + rewrite sinkRun_app, (sinkRun_unwritten _ q) by done. apply (modes_track_core _ _ _ _ _ T); [exact C|].
      apply sinkRun_updates, writes_no_mode.
Qed.

Lemma modes_track_run cfg ins m evs c0 :
  Forall input_ok ins -> machineRun cfg startMachine ins = (m, evs) -> modes_track m (sinkRun c0 evs).
Proof.
  apply (machineRun_invariant cfg (fun _ m evs => modes_track m (sinkRun c0 evs)) input_ok); [done|].
  intros ins' m1 e1 i m2 e2 T _ O S. rewrite sinkRun_app. by eapply modes_track_step.
Qed.

(** ** Silence *)

Lemma Alpha_late now deadline window :
  0 < window < two63 -> deadline + window <= now -> Alpha now deadline window = fofz 0.
Proof.
  intros Hw H. unfold Alpha, timeSub, two63 in *. rewrite (proj2 (Z.ltb_ge now deadline)), (proj2 (Z.leb_gt window 0)) by lia.
  cbn zeta. by rewrite (proj2 (Z.leb_le window _)) by lia.
Qed.

(** Late ticks, snapshots that arrive and are refused or not yet applied. *)
Definition quiet_input (until : Z) (i : input) : Prop :=
  match i with ITick now _ _ => until <= now | IRecv _ _ _ _ _ => True | IApply cancelled _ _ _ _ _ _ => cancelled = true end.

Lemma quiet_step cfg m i m' e :
  0 < DecayWindow cfg < two63 -> haveSnapshot (sess m) = true -> autonomousLatched (sess m) = true ->
  quiet_input (sDeadline (sess m) + DecayWindow cfg) i -> machineStep cfg m i = (m', e) ->
  core (sess m') = core (sess m) /\ Forall unwritten e.
Proof.
  intros Hw H L Qi S. destruct m as [s pd]. cbn [sess] in *. unfold machineStep in S. cbn [pending sess] in S.
  destruct i as [now known rand rpc snap|cc now ord ordM ordK h rpc|now ord h]; cbn in Qi.
  - destruct pd; [simplify_eq; split; [done|constructor]|].
    destruct (receiveSnapshot _ _ _ _ _ _ _) as [[s1 e1] p1] eqn:Rc. injection S as <- <-.
    by destruct (receive_cases _ _ _ _ _ _ _ _ _ _ Rc) as (C & Q & _).
  - subst cc. destruct pd as [pd|]; cbn in S; simplify_eq; split; done || constructor.
  - destruct (tickOnce _ _ _ _ _) as [s1 e1] eqn:Tk. injection S as <- <-.
    destruct (tick_cases _ _ _ _ _ _ _ Tk) as (q & Q & [(C & -> & _)|[(_ & _ & _ & _ & X)|(_ & _ & _ & X)]]); [done|congruence|].
    by rewrite Alpha_late in X.
Qed.

Lemma quiet_run cfg m later c :
  0 < DecayWindow cfg < two63 -> haveSnapshot (sess m) = true -> autonomousLatched (sess m) = true ->
  Forall (quiet_input (sDeadline (sess m) + DecayWindow cfg)) later -> sinkRun c (machineRun cfg m later).2 = c.
Proof.
  revert m. induction later as [|i later IH]; intros m Hw H L F; [done|]. apply Forall_cons in F as [Fi F]. cbn.
  destruct (machineStep cfg m i) as [m1 e1] eqn:S. destruct (quiet_step cfg m i m1 e1 Hw H L Fi S) as [C Q].
  destruct (machineRun cfg m1 later) as [m2 e2] eqn:R. cbn. rewrite sinkRun_app, (sinkRun_unwritten _ e1) by done.
  unfold core in C. injection C as C1 C2 C3 C4 C5 C6.
  specialize (IH m1 Hw ltac:(congruence) ltac:(congruence) ltac:(by rewrite C4)). by rewrite R in IH.
Qed.


(** ** Services the controller stops naming *)

Definition omits (k : string) (snap : Snapshot) : Prop := entriesOf k (GetServices snap) = [].

Definition input_omits (k : string) (i : input) : Prop :=
  match i with IRecv _ _ _ _ snap => omits k snap | _ => True end.

Definition machine_omits (k : string) (m : machine) : Prop :=
  (k ∉ dom (directives (sess m))) /\ match pending m with Some p => omits k (pSnap p) | None => True end.

Lemma omits_dom k snap : omits k snap -> k ∉ dom (buildDirectives (GetServices snap)).
Proof. intros H. rewrite not_elem_of_dom, buildDirectives_lookup. by rewrite bool_decide_true. Qed.

Lemma apply_omits cfg now ord ordM ordK h rpc p s s' e k :
  order_ok ord -> order_ok ordM -> omits k (pSnap p) -> applySnapshot cfg false now ord ordM ordK h rpc p s = (s', e) ->
  (k ∉ dom (directives s')) /\ Forall (fun e => eventKey e <> Some k) e.
Proof.
  intros O OM H Ap. destruct (apply_cases _ _ _ _ _ _ _ _ _ _ _ Ap) as (C & q1 & q2 & Q1 & Q2 & ->).
  pose proof (omits_dom k _ H) as D. unfold core in C. injection C as _ _ _ _ -> _. split; [done|].
  repeat apply Forall_app_2; [by apply unwritten_key|by apply writes_key| |by apply unwritten_key].
  apply modes_key. by rewrite order_keys.
Qed.

Lemma omits_step cfg m i m' e k :
  input_ok i -> input_omits k i -> machine_omits k m -> machineStep cfg m i = (m', e) ->
  machine_omits k m' /\ Forall (fun e => eventKey e <> Some k) e.
Proof.
  intros O Oi [D P] S. destruct m as [s pd]. unfold machineStep in S. cbn [pending sess] in *. unfold machine_omits.
  destruct i as [now known rand rpc snap|cc now ord ordM ordK h rpc|now ord h].
  - destruct pd; [simplify_eq; by split; [|constructor]|].
    destruct (receiveSnapshot _ _ _ _ _ _ _) as [[s1 e1] p1] eqn:Rc. injection S as <- <-.
    destruct (receive_cases _ _ _ _ _ _ _ _ _ _ Rc) as (C & Q & V). split; [|by apply unwritten_key].
    unfold core in C. injection C as _ _ _ _ C5 _. cbn. rewrite C5. split; [done|].
    destruct p1; [|done]. by destruct V as (-> & _).
  - destruct pd as [pd|]; [|simplify_eq; by split; [|constructor]].
    destruct (applySnapshot _ _ _ _ _ _ _ _ _ _) as [s1 e1] eqn:Ap. injection S as <- <-.
    destruct cc; [injection Ap as <- <-; by split; [|constructor]|].
    destruct (apply_omits _ _ _ _ _ _ _ _ _ _ _ k (proj1 O) (proj1 (proj2 O)) P Ap) as [X1 X2]. by split.
  - destruct (tickOnce _ _ _ _ _) as [s1 e1] eqn:Tk. injection S as <- <-. cbn [sess pending].
    destruct (tick_cases _ _ _ _ _ _ _ Tk) as (q & Q & [(C & -> & _)|[(C & -> & _)|(C & -> & _)]]);
      unfold core, setLatched in C; cbn in C; injection C as _ _ _ _ C5 _; rewrite C5; (split; [done|]);
      repeat apply Forall_app_2; try by apply unwritten_key.
    + apply modes_key. by rewrite order_keys.
    + by apply writes_key.
Qed.

Lemma omits_run cfg m later c k :
  Forall input_ok later -> Forall (input_omits k) later -> machine_omits k m ->
  let c' := sinkRun c (machineRun cfg m later).2 in
  modes c' !! k = modes c !! k /\ forall idx, words c' !! (k, idx) = words c !! (k, idx).
Proof.
  revert m c. induction later as [|i later IH]; intros m c O Om M; [done|].
  apply Forall_cons in O as [Oi O]. apply Forall_cons in Om as [Omi Om]. cbn.
  destruct (machineStep cfg m i) as [m1 e1] eqn:S. destruct (omits_step cfg m i m1 e1 k Oi Omi M S) as [M1 E1].
  destruct (IH m1 (sinkRun c e1) O Om M1) as [I1 I2]. destruct (machineRun cfg m1 later) as [m2 e2]. cbn in *.
  destruct (sinkRun_other c e1 k E1) as [S1 S2]. rewrite sinkRun_app, I1, S1. split; [done|]. intros idx. by rewrite I2, S2.
Qed.

(** A service that the controller stops naming keeps its last instructions: when a
    snapshot that omits it is applied, its mode and its words in the data plane stay
    as they were, and no later tick, however late, touches them until a snapshot
    names it again. *)
Theorem dropped_service_keeps_instructions cfg m p now ord ordM ordK h rpc m1 e1 later c k :
  pending m = Some p -> omits k (pSnap p) -> order_ok ord -> order_ok ordM ->
  machineStep cfg m (IApply false now ord ordM ordK h rpc) = (m1, e1) ->
  Forall input_ok later -> Forall (input_omits k) later ->
  let c' := sinkRun (sinkRun c e1) (machineRun cfg m1 later).2 in
  modes c' !! k = modes c !! k /\ forall idx, words c' !! (k, idx) = words c !! (k, idx).
Proof.
  intros P Om O OM S Ol Oml. destruct m as [s pd]. cbn in P. subst pd. unfold machineStep in S. cbn [pending sess] in S.
  destruct (applySnapshot _ _ _ _ _ _ _ _ _ _) as [s1 e] eqn:Ap. injection S as <- <-.
  destruct (apply_omits _ _ _ _ _ _ _ _ _ _ _ k O OM Om Ap) as [D E].
  destruct (omits_run cfg (Machine s1 None) later (sinkRun c e) k Ol Oml) as [R1 R2]; [by split|].
  destruct (sinkRun_other c e k E) as [S1 S2]. cbn zeta. rewrite R1, S1. split; [done|]. intros idx. by rewrite R2, S2.
Qed.

(** ** Announced modes *)

Fixpoint announced (evs : list event) : list Mode :=
  match evs with
  | [] => []
  | EModeChange m :: evs => m :: announced evs
  | _ :: evs => announced evs
  end.

(** Each differs from the one before it. *)
Fixpoint alternates (prev : Mode) (l : list Mode) : Prop :=
  match l with [] => True | m :: l => m <> prev /\ alternates m l end.

Lemma announced_app e1 e2 : announced (e1 ++ e2) = announced e1 ++ announced e2.
Proof. induction e1 as [|e e1 IH]; [done|]. destruct e; cbn; by rewrite ?IH. Qed.

Lemma announced_writes ord h alpha dirs : announced (writeAllLocked ord h alpha dirs) = [].
Proof.
  unfold writeAllLocked. induction (ord dirs) as [|[k ds] l IH]; [done|]. cbn. rewrite announced_app, IH, app_nil_r.
  clear IH. induction ds as [|d ds IH]; [done|]. cbn. unfold writeOne, MergeVerdict. by destruct (isHealthy h k (dEpIdx d)).
Qed.

Lemma announced_modes (l : list (string * list EpDirective)) v : announced (map (fun q => ESetMode q.1 v) l) = [].
Proof. by induction l. Qed.

Lemma announced_acks evs : Forall (fun e => exists a, e = EAck a) evs -> announced evs = [].
Proof. induction 1 as [|e evs [a ->] _ IH]; done. Qed.

(** What a step announces: nothing, or one mode that differs from the last. *)
Lemma announced_step cfg m i m' e :
  machineStep cfg m i = (m', e) ->
  alternates (lastAcceptedMode (sess m)) (announced e) /\
  lastAcceptedMode (sess m') = List.last (announced e) (lastAcceptedMode (sess m)).
Proof.
  assert (G : forall mo now s s1 e1, gateAndAnnounce cfg mo now s = (s1, e1) ->
    alternates (lastAcceptedMode s) (announced e1) /\ lastAcceptedMode s1 = List.last (announced e1) (lastAcceptedMode s)).
  { intros mo now s s1 e1 [(E & -> & ->)|(E & -> & ->)]%gate_cases; [done|]. split; [|done]. split; [by apply not_eq_sym|done]. }
  intros S. destruct m as [s pd]. unfold machineStep in S. cbn [pending sess] in *.
  destruct i as [now known rand rpc snap|cc now ord ordM ordK h rpc|now ord h].
  - destruct pd; [by simplify_eq|]. unfold receiveSnapshot in S. destruct (ValidateSnapshot _ _ _ _ _ _) as [er|].
    + destruct (ackSnapshot _ _ _ _ _ _) as [s1 e1] eqn:A. injection S as <- <-.
      destruct (ack_core _ _ _ _ _ _ _ _ A) as (_ & L & _ & Q). cbn. rewrite announced_acks by done. cbn. by rewrite L.
    + injection S as <- <-. by destruct (jitterDelay _ _ _ _).
  - destruct pd as [pd|]; [|by simplify_eq]. unfold applySnapshot in S. destruct cc; [by simplify_eq|].
    destruct (gateAndAnnounce _ _ _ _) as [s1 e1] eqn:Ga. destruct (ackSnapshot _ _ _ _ _ _) as [s2 e2] eqn:A.
    injection S as <- <-. destruct (ack_core _ _ _ _ _ _ _ _ A) as (_ & L & _ & Q).
    rewrite !announced_app, announced_writes, announced_modes. cbn [announced app sess].
    rewrite (announced_acks _ Q), app_nil_r, L.
    exact (G _ _ _ _ _ Ga).
  - destruct (tickOnce _ _ _ _ _) as [s1 e1] eqn:Tk. injection S as <- <-. unfold tickOnce in Tk.
    destruct (gateAndAnnounce _ _ _ _) as [s2 e2] eqn:Ga. pose proof (G _ _ _ _ _ Ga) as X. cbn [sess].
    destruct (haveSnapshot s2), (fleb _ (fofz 0)), (autonomousLatched s2); cbn [negb] in Tk; injection Tk as <- <-;
      rewrite !announced_app, ?announced_writes, ?announced_modes; cbn [announced]; by rewrite ?app_nil_r.
Qed.

Lemma last_shift {A} (x d : A) l : List.last (x :: l) d = List.last l x.
Proof. revert x d. induction l as [|y l IH]; intros x d; [done|]. change (List.last (y :: l) d = List.last (y :: l) x). by rewrite !IH. Qed.

Lemma alternates_app prev l1 l2 : alternates prev l1 -> alternates (List.last l1 prev) l2 -> alternates prev (l1 ++ l2).
Proof.
  revert prev. induction l1 as [|m l1 IH]; intros prev H1 H2; [done|]. destruct H1 as [H0 H1]. split; [done|].
  apply IH; [done|]. by rewrite last_shift in H2.
Qed.

(** No mode is announced twice in a row, and the first is not autonomous. *)
Lemma announced_modes_alternate cfg ins m evs :
  machineRun cfg startMachine ins = (m, evs) -> alternates ModeAutonomous (announced evs).
Proof.
  intros R.
  enough (alternates ModeAutonomous (announced evs) /\ lastAcceptedMode (sess m) = List.last (announced evs) ModeAutonomous) by tauto.
  revert R. apply (machineRun_invariant cfg (fun _ m evs => alternates ModeAutonomous (announced evs) /\
    lastAcceptedMode (sess m) = List.last (announced evs) ModeAutonomous) (fun _ => True)); [done| |by apply Forall_true].
  intros ins' m1 e1 i m2 e2 [A L] _ _ S. destruct (announced_step _ _ _ _ _ S) as [A2 L2]. rewrite announced_app.
  rewrite L in A2, L2. split; [by apply alternates_app|]. rewrite L2. generalize ModeAutonomous. clear.
  induction (announced e1) as [|x l IH]; intros d; [done|]. cbn [app]. by rewrite !last_shift.
Qed.

(** The gate's verdict does not depend on the hysteresis window. *)
Lemma hysteresis_has_no_effect cfg cfg' m now s : modeGate cfg m now s = modeGate cfg' m now s.
Proof. unfold modeGate. by destruct (_ && _), (_ && _). Qed.

(** The backoff stays between one and five seconds. *)
Lemma backoff_bounds streams b :
  Second <= b <= maxReconnectBackoff -> Forall (fun d => Second <= d <= maxReconnectBackoff) (runBackoffs b streams).
Proof.
  revert b. induction streams as [|r streams IH]; intros b Hb; cbn [runBackoffs]; constructor.
  - unfold maxReconnectBackoff, Second in *. destruct r; lia.
  - apply IH. set (b' := if r then Second else b).
    assert (Second <= b' <= maxReconnectBackoff) by (unfold b', maxReconnectBackoff, Second in *; destruct r; lia). clearbody b'.
    rewrite i64_id by (unfold in_i64, two63, maxReconnectBackoff, Second in *; lia).
    destruct (Z.ltb_spec maxReconnectBackoff (b' * 2)); unfold maxReconnectBackoff, Second in *; lia.
Qed.

(** ** A run: two services, one of which the second snapshot drops *)

Definition exCfg : Config := MkConfig "gw" (30 * Second) (5 * Second) (10 * Second) 0.
Definition exKnown : gmap string (list Z) := {["10.0.0.1:80:tcp" := [0; 1]; "10.0.0.2:80:tcp" := [0]]}.
Definition exOrd : rangeOrder := map_to_list.
Definition exSnap1 : Snapshot :=
  MkSnapshot 1 "boot" 10000
    [MkServiceSnapshot "10.0.0.1:80:tcp" [MkEpEntry 0 "" ROLE_PREFILL 40 EP_STATE_ACTIVE; MkEpEntry 1 "" ROLE_PREFILL 100 EP_STATE_DRAINING];
     MkServiceSnapshot "10.0.0.2:80:tcp" [MkEpEntry 0 "" ROLE_PREFILL 0 EP_STATE_DISABLED]] 1 "n1".
Definition exSnap2 : Snapshot :=
  MkSnapshot 2 "boot" 20000 [MkServiceSnapshot "10.0.0.1:80:tcp" [MkEpEntry 0 "" ROLE_PREFILL 80 EP_STATE_ACTIVE]] 1 "n2".
Definition exApply (now : Z) : input := IApply false now exOrd exOrd exOrd None RpcOk.
Definition exIns : list input :=
  [IRecv (5 * Second) exKnown (fofz 0) RpcOk exSnap1; exApply (5 * Second); ITick (15 * Second) exOrd None].
Definition exNoSink : sinkState := Sink ∅ ∅.

Lemma exOrd_ok : order_ok exOrd.
Proof. intros m. reflexivity. Qed.

Lemma exIns_ok : Forall input_ok exIns.
Proof. repeat constructor; cbn; (lia || apply exOrd_ok). Qed.

Lemma exTick_ok now : Forall input_ok [ITick now exOrd None].
Proof. constructor; [apply exOrd_ok|constructor]. Qed.

(** Halfway through the decay window the word carries a weight halfway to neutral. *)
Lemma written_words_witness :
  isHealthy None "10.0.0.1:80:tcp" 0 = true /\
  exists sn, accepted exCfg (exIns ++ [ITick (25 * Second) exOrd None]) sn /\ sanctioned sn "10.0.0.1:80:tcp" 0 (2 ^ 24 + 70).
Proof.
  pose (m := (machineRun exCfg startMachine exIns).1). pose (i := ITick (25 * Second) exOrd None).
  destruct (written_words_are_sanctioned exCfg ltac:(by vm_compute) ltac:(by vm_compute) exIns m
    (machineRun exCfg startMachine exIns).2 i (machineStep exCfg m i).1 (machineStep exCfg m i).2 "10.0.0.1:80:tcp" 0 (2 ^ 24 + 70))
    as (H & sn & A & _ & _ & _ & S).
  - apply Forall_app. split; [apply exIns_ok|apply exTick_ok].
  - apply surjective_pairing.
  - apply surjective_pairing.
  - apply list_elem_of_In. vm_compute. tauto.
  - split; [done|]. by exists sn.
Defined.


(** The dropped service is still steered, by mode 1 and its word, an hour after the
    controller went silent. *)
Lemma dropped_service_witness :
  let m := (machineRun exCfg startMachine (exIns ++ [IRecv (16 * Second) exKnown (fofz 0) RpcOk exSnap2])).1 in
  let c := sinkRun exNoSink (machineRun exCfg startMachine (exIns ++ [IRecv (16 * Second) exKnown (fofz 0) RpcOk exSnap2])).2 in
  let st := machineStep exCfg m (exApply (16 * Second)) in
  let c' := sinkRun (sinkRun c st.2) (machineRun exCfg st.1 [ITick (3600 * Second) exOrd None]).2 in
  modes c' !! "10.0.0.2:80:tcp" = Some 1 /\ words c' !! ("10.0.0.2:80:tcp", 0) = Some (3 * 2 ^ 24 + 17) /\
  modes c' !! "10.0.0.1:80:tcp" = Some 0.
Proof.
  intros m c st c'.
  destruct (dropped_service_keeps_instructions exCfg m (Pending exSnap2 (20 * Second)) (16 * Second) exOrd exOrd exOrd None RpcOk
    st.1 st.2 [ITick (3600 * Second) exOrd None] c "10.0.0.2:80:tcp") as [M W].
  - by vm_compute.
  - by vm_compute.
  - apply exOrd_ok.
  - apply exOrd_ok.
  - apply surjective_pairing.
  - apply exTick_ok.
  - by repeat constructor.
  - fold c' in M, W. rewrite M, W. split; [by vm_compute|]. split; by vm_compute.
Defined.

(** ** What validation does not look at *)

Definition withAddr (f : EpEntry -> string) (ep : EpEntry) : EpEntry := MkEpEntry (GetEpIdx ep) (f ep) (GetRole ep) (GetWeight ep) (GetState ep).
Definition svcWithAddr (f : EpEntry -> string) (svc : ServiceSnapshot) : ServiceSnapshot :=
  MkServiceSnapshot (GetServiceKey svc) (map (withAddr f) (GetEps svc)).
Definition snapWithAddr (f : EpEntry -> string) (s : Snapshot) : Snapshot :=
  MkSnapshot (GetEpoch s) (GetBootId s) (GetStalenessDeadlineUnixMs s) (map (svcWithAddr f) (GetServices s))
    (GetMinApplierVersion s) (GetNonce s).

(** Whatever address an entry names, the verdict is the same. *)
Lemma ep_addr_is_not_checked f s known boot epoch now window :
  ValidateSnapshot (Some (snapWithAddr f s)) known boot epoch now window = ValidateSnapshot (Some s) known boot epoch now window.
Proof.
  assert (E : forall key idxs eps seen, checkEps key idxs seen (map (withAddr f) eps) = checkEps key idxs seen eps).
  { intros key idxs. induction eps as [|ep eps IH]; intros seen; [done|]. cbn. by rewrite IH. }
  assert (S : forall svcs, checkServices known (map (svcWithAddr f) svcs) = checkServices known svcs).
  { induction svcs as [|svc svcs IH]; [done|]. cbn. destruct (known !! GetServiceKey svc); [|done]. by rewrite E, IH. }
  unfold ValidateSnapshot. cbn. by rewrite S.
Qed.

(** A service listed twice may instruct an endpoint twice: the check for duplicates
    starts afresh with each listing. *)
Lemma repeated_service_is_accepted :
  ValidateSnapshot (Some (MkSnapshot 1 "boot" 10000
    [MkServiceSnapshot "10.0.0.2:80:tcp" [MkEpEntry 0 "" ROLE_PREFILL 100 EP_STATE_ACTIVE];
     MkServiceSnapshot "10.0.0.2:80:tcp" [MkEpEntry 0 "" ROLE_PREFILL 0 EP_STATE_DISABLED]] 1 "n")) exKnown "" 0 (5 * Second) (30 * Second) = None.
Proof. by vm_compute. Qed.
