(* ===== verification/AiCtrlSink.v ===== *)
(** * AiCtrlSink: the applier's sinks and its view of the rules

    pkg/loxinet/ai_ctrl_applier.go: the bridge to the data plane with its cache of
    service addresses, the series that mirror what is written, the endpoints the
    rules declare, their health and the knobs.  The C functions are calls recorded by
    the model; the byte order of an address is a parameter. *)

From Stdlib Require Import Ascii String.
From stdpp Require Import base gmap strings list sets.
From S2P Require Import Prelude NetIdText Float64 AiCtrl AiCtrlDecay AiCtrlProps AiCtrlRuns.

Open Scope Z_scope.
Open Scope igw_scope.

(** ** The rules *)

Record lbEndPoint := LbEndPoint { inActiveEP : bool; noService : bool }.

(** Of a rule: its destination, and the endpoints when its action balances load. *)
Record lbRule := LbRule {
  l3DstText : string; l4DstMin : Z; l4Prot : Z; pdDisaggMode : bool; lbActs : option (list lbEndPoint) }.

Definition aiCtrlRuleServiceKey (r : lbRule) : string :=
  let proto := if l4Prot r ==? 6 then "tcp" else if l4Prot r ==? 17 then "udp" else if l4Prot r ==? 132 then "sctp" else "" in
  if proto ==s "" then "" else l3DstText r +:+ ":" +:+ fmtD (l4DstMin r) +:+ ":" +:+ proto.

(** One entry of the table; a nil one is [None]. *)
Definition knownStep (known : gmap string (list Z)) (r : option lbRule) : gmap string (list Z) :=
  match r with
  | None => known
  | Some r =>
      if negb (pdDisaggMode r) then known
      else match lbActs r with
           | None => known
           | Some eps =>
               if aiCtrlRuleServiceKey r ==s "" then known
               else <[aiCtrlRuleServiceKey r := seqZ 0 (Z.of_nat (length eps))]> known
           end
  end.

(** The entries come in the order of the range. *)
Definition aiCtrlKnownEps (rules : list (option lbRule)) : gmap string (list Z) := foldl knownStep ∅ rules.

Fixpoint aiCtrlEpHealthy (rules : list (option lbRule)) (serviceKey : string) (epIdx : Z) : bool :=
  match rules with
  | [] => false
  | None :: rest => aiCtrlEpHealthy rest serviceKey epIdx
  | Some r :: rest =>
      if negb (pdDisaggMode r) then aiCtrlEpHealthy rest serviceKey epIdx
      else if negb (aiCtrlRuleServiceKey r ==s serviceKey) then aiCtrlEpHealthy rest serviceKey epIdx
      else match lbActs r with
           | None => false
           | Some eps =>
               if (epIdx <? 0) || (epIdx >=? Z.of_nat (length eps)) then false
               else match eps !! Z.to_nat epIdx with
                    | Some ep => negb (inActiveEP ep) && negb (noService ep)
                    | None => false
                    end
           end
  end.

(** ** Knobs: the text of the environment variable, empty when unset *)

Definition aiCtrlEnvSec (v : string) (def : Z) : Z :=
  if negb (v ==s "") then
    match ParseInt v with
    | Some n => if n >? 0 then i64 (n * Second) else i64 (def * Second)
    | None => i64 (def * Second)
    end
  else i64 (def * Second).

Definition aiCtrlEnvInt (v : string) (def : Z) : Z :=
  if negb (v ==s "") then match ParseInt v with Some n => if n >=? 0 then n else def | None => def end else def.

(** The configuration the start hook builds; without an address there is none. *)
Definition AiCtrlApplierStart (addr decay hysteresis ackTimeout jitter hostname : string) : option Config :=
  if addr ==s "" then None
  else Some (configDefaults (MkConfig (if hostname ==s "" then "loxilb" else hostname) (aiCtrlEnvSec decay 30) (aiCtrlEnvSec hysteresis 5)
    (aiCtrlEnvSec ackTimeout 10) (aiCtrlEnvInt jitter 10))).

(** ** The bridge to the data plane *)

Inductive ccall :=
  | CUpdateEp (ip port ep packed : Z)
  | CSetMode (ip port mode : Z).

Record aiCtrlSvcAddr := SvcAddr { saIp : Z; saPort : Z; saOk : bool }.

Definition i32 (z : Z) : Z := (z + 2147483648) mod two32w - 2147483648.

Section Bridge.
Context (IPtonl : Z -> Z).

(** A key has three fields, so its first holds no colon and can only be an IPv4
    address. *)
Definition resolveKey (key : string) : aiCtrlSvcAddr :=
  match SplitByte colon key with
  | [host; port; _] =>
      match ParseAddr4 host, ParseUint16 port with
      | Some a, Some p => SvcAddr (IPtonl a) p true
      | _, _ => SvcAddr 0 0 false
      end
  | _ => SvcAddr 0 0 false
  end.

Definition resolve (cache : gmap string aiCtrlSvcAddr) (key : string) : gmap string aiCtrlSvcAddr * aiCtrlSvcAddr :=
  match cache !! key with
  | Some a => (cache, a)
  | None => let a := resolveKey key in (<[key := a]> cache, a)
  end.

Definition cgoUpdateEp (key : string) (epIdx packed : Z) (cache : gmap string aiCtrlSvcAddr) : gmap string aiCtrlSvcAddr * list ccall :=
  let '(cache, a) := resolve cache key in
  if negb (saOk a) then (cache, []) else (cache, [CUpdateEp (saIp a) (saPort a) (i32 epIdx) packed]).

Definition cgoSetMode (key : string) (mode : Z) (cache : gmap string aiCtrlSvcAddr) : gmap string aiCtrlSvcAddr * list ccall :=
  let '(cache, a) := resolve cache key in
  if negb (saOk a) then (cache, []) else (cache, [CSetMode (saIp a) (saPort a) (mode mod 256)]).
End Bridge.

(** ** The series *)

Record ctrlSeries := Series {
  epWeight : gmap (string * Z) Z; epState : gmap (string * Z) Z; epochOf : gmap string Z; seen : gset string }.

Definition seenKey (svc : string) (idx : Z) : string := svc +:+ String pipe (fmtD idx).

Definition markSeen (svc : string) (idx : Z) (m : ctrlSeries) : ctrlSeries :=
  Series (epWeight m) (epState m) (epochOf m) ({[seenKey svc idx]} ∪ seen m).

Definition setSeries (svc : string) (idx w st : Z) (m : ctrlSeries) : ctrlSeries :=
  Series (<[(svc, idx) := w]> (epWeight m)) (<[(svc, idx) := st]> (epState m)) (epochOf m) (seen m).

(** UpdateEp of the recording sink, less the call it forwards. *)
Definition recordUpdateEp (svc : string) (idx packed : Z) (m : ctrlSeries) : ctrlSeries :=
  setSeries svc idx (Z.land packed 255) (Z.land (Z.shiftr packed 24) 255) (markSeen svc idx m).

Definition DeleteAictrlEpSeries (svc : string) (idx : Z) (m : ctrlSeries) : ctrlSeries :=
  Series (delete (svc, idx) (epWeight m)) (delete (svc, idx) (epState m)) (epochOf m) (seen m).

Definition DeleteAictrlEpochSeries (svc : string) (m : ctrlSeries) : ctrlSeries :=
  Series (epWeight m) (epState m) (delete svc (epochOf m)) (seen m).

Definition warmOne (svc : string) (m : ctrlSeries) (idx : Z) : ctrlSeries :=
  if bool_decide (seenKey svc idx ∈ seen m) then m
  else markSeen svc idx (setSeries svc idx 100 0 m).

Definition knownKeys (known : list (string * list Z)) : list string :=
  flat_map (fun p => map (seenKey p.1) p.2) known.

Definition reapOne (known : list (string * list Z)) (m : ctrlSeries) (key : string) : ctrlSeries :=
  if bool_decide (key ∈ knownKeys known) then m
  else
    let m :=
      match CutByte pipe key with
      | Some (svc, idxStr) =>
          let m := match ParseInt idxStr with Some idx => DeleteAictrlEpSeries svc idx m | None => m end in
          if bool_decide (svc ∈ known.*1) then m else DeleteAictrlEpochSeries svc m
      | None => m
      end in
    Series (epWeight m) (epState m) (epochOf m) (seen m ∖ {[key]}).

(** [known]: the declared endpoints in the order of the range; [order]: the order of
    the range over the keys seen. *)
Definition prewarm (order : gset string -> list string) (known : list (string * list Z)) (m : ctrlSeries) : ctrlSeries :=
  let m := foldl (fun m p => foldl (warmOne p.1) m p.2) m known in
  foldl (reapOne known) m (order (seen m)).

(** The applied-epoch series of the services of a snapshot. *)
Definition recordApplied (epoch : Z) (keys : list string) (m : ctrlSeries) : ctrlSeries :=
  foldl (fun m svc => Series (epWeight m) (epState m) (<[svc := epoch]> (epochOf m)) (seen m)) m keys.

(** ** Health and the declared endpoints agree *)

(** The service a rule speaks for. *)
Definition ruleService (r : option lbRule) : option (string * list lbEndPoint) :=
  match r with
  | Some r => match lbActs r with
              | Some eps => if pdDisaggMode r && negb (aiCtrlRuleServiceKey r ==s "") then Some (aiCtrlRuleServiceKey r, eps) else None
              | None => None
              end
  | None => None
  end.

Lemma knownStep_service known r :
  knownStep known r = match ruleService r with Some (k, eps) => <[k := seqZ 0 (Z.of_nat (length eps))]> known | None => known end.
Proof.
  destruct r as [r|]; [|done]. unfold knownStep, ruleService. destruct (pdDisaggMode r), (lbActs r); cbn [negb andb]; try done.
  by destruct (aiCtrlRuleServiceKey r ==s "").
Qed.

Lemma knownStep_other (rules : list (option lbRule)) (known : gmap string (list Z)) k :
  k ∉ (omap ruleService rules).*1 -> foldl knownStep known rules !! k = known !! k.
Proof.
  revert known. induction rules as [|r rules IH]; intros known H; [done|]. cbn [foldl]. rewrite knownStep_service.
  cbn in H. destruct (ruleService r) as [[k' eps]|]; [|by apply IH]. cbn in H. apply not_elem_of_cons in H as [H1 H2].
  rewrite IH by done. by apply lookup_insert_ne.
Qed.

(** Health is read from the first rule that speaks for the service. *)
Lemma aiCtrlEpHealthy_service r rules k i :
  k <> "" -> aiCtrlEpHealthy (r :: rules) k i = true ->
  aiCtrlEpHealthy rules k i = true \/ exists eps, ruleService r = Some (k, eps) /\ 0 <= i < Z.of_nat (length eps).
Proof.
  intros Hk. destruct r as [r|]; [|auto]. cbn [aiCtrlEpHealthy]. unfold ruleService.
  destruct (pdDisaggMode r); cbn [negb andb]; [|auto].
  destruct (String.eqb_spec (aiCtrlRuleServiceKey r) k) as [->|E]; cbn [negb]; [|auto].
  destruct (lbActs r) as [eps|]; [|done]. rewrite (proj2 (String.eqb_neq k "") Hk). cbn [negb].
  destruct (Z.ltb_spec i 0), (Z.leb_spec (Z.of_nat (length eps)) i); cbn [orb]; try done. intros _. right. exists eps. split; [done|lia].
Qed.

(** An endpoint that counts as healthy is one the rules declare, when no two of them
    speak for one service. *)
Lemma healthy_is_known (rules : list (option lbRule)) k i :
  k <> "" -> NoDup (omap ruleService rules).*1 -> aiCtrlEpHealthy rules k i = true ->
  exists idxs, aiCtrlKnownEps rules !! k = Some idxs /\ i ∈ idxs.
Proof.
  intros Hk. unfold aiCtrlKnownEps. generalize (∅ : gmap string (list Z)).
  induction rules as [|r rules IH]; intros known N H; [done|]. cbn [foldl]. rewrite knownStep_service.
  cbn in N. apply aiCtrlEpHealthy_service in H as [H|(eps & E & Hi)]; [|rewrite E in N |- *|done].
  - apply IH; [|done]. destruct (ruleService r) as [[k' eps]|]; [|done]. cbn in N. by apply NoDup_cons in N as [_ N].
  - cbn in N. apply NoDup_cons in N as [N _]. rewrite knownStep_other by done. rewrite lookup_insert_eq.
    eexists. split; [done|]. apply elem_of_seqZ. lia.
Qed.

(** The cache of the bridge is transparent. *)
Definition cache_coherent (f : string -> aiCtrlSvcAddr) (cache : gmap string aiCtrlSvcAddr) : Prop :=
  forall k a, cache !! k = Some a -> a = f k.

Lemma resolve_transparent IPtonl cache key :
  cache_coherent (resolveKey IPtonl) cache ->
  (resolve IPtonl cache key).2 = resolveKey IPtonl key /\ cache_coherent (resolveKey IPtonl) (resolve IPtonl cache key).1.
Proof.
  intros C. unfold resolve. destruct (cache !! key) as [a|] eqn:E; cbn; [by rewrite (C _ _ E)|]. split; [done|].
  intros k a [[<- <-]|[_ H]]%lookup_insert_Some; [done|by apply C].
Qed.
