(* ===== verification/AiEngine.v ===== *)
(** * AiEngine: the controller's registry, decision engine and snapshot generator

    pkg/aictrl/engine: registry.go, fingerprint.go, engine.go, ttft.go and
    snapshot.go.  Of a scraped sample the engine reads its time only; a stamp is
    [None] when it was never set; of the registry file the fields that nothing reads
    (memory size, address and port of the service, audit notes) are left out.  A range
    over a map is a list in the order of the range, an argument.  SHA-256, the boot
    identity and the nonces are parameters, and the YAML decoder is what fills the
    records. *)

From Stdlib Require Import Ascii String.
From stdpp Require Import base gmap strings list sets sorting.
From S2P Require Import Prelude Classes NetIdText Float64 AiCtrl.

Open Scope Z_scope.
Open Scope igw_scope.

(** ** Registry *)

Definition RolePrefill : string := "prefill".
Definition RoleDecode : string := "decode".

Record CalibrationDecl := Calibration {
  ThroughputTokensPerSec : float64; ThroughputRatio : float64; Fingerprint : string; FingerprintFields : gmap string string }.

Record Host := MkHost {
  GPUModel : string; Role : string; hPort : Z; EpIdx : Z; ExpectedNumGPUBlocks : Z;
  ServingThroughputPrior : float64; hCalibration : option CalibrationDecl }.

Record Registry := MkRegistry {
  rVersion : Z; rServiceKey : string; EpochPeriodSec : Z; Hosts : gmap string Host; discovered : gmap string Z }.

Section Fingerprints.
(** [hex(sha256 text)]. *)
Context (sha256hex : string -> string).

Definition sortedKeys (fields : gmap string string) : list string := sortStrings (map_to_list fields).*1.

Definition joinLF (ls : list string) : string := String.concat (String "010" "") ls.

Definition FingerprintHash (fields : gmap string string) : string :=
  String.substring 0 16 (sha256hex (joinLF (map (fun k => k +:+ "=" +:+ default "" (fields !! k)) (sortedKeys fields)))).

Definition hexByte (c : ascii) : bool := byteBetween "0" "9" c || byteBetween "a" "f" c.

(** [fingerprintRe]: exactly 16 lowercase hexadecimal digits. *)
Definition fingerprintRe (s : string) : bool := (String.length s =? 16)%nat && allBytes hexByte s.

Inductive calErr := CalTokens | CalRatio | CalShape | CalFields | CalTampered.

Definition calValidate (c : CalibrationDecl) : option calErr :=
  if fleb (ThroughputTokensPerSec c) (fofz 0) then Some CalTokens
  else if fleb (ThroughputRatio c) (fofz 0) then Some CalRatio
  else if negb (fingerprintRe (Fingerprint c)) then Some CalShape
  else if bool_decide (FingerprintFields c = ∅) then Some CalFields
  else if negb (FingerprintHash (FingerprintFields c) ==s Fingerprint c) then Some CalTampered
  else None.

Inductive regErr :=
  | RegVersion | RegKey | RegPeriod | RegEmpty
  | RegNil (ip : string) | RegRole (ip : string) | RegGpu (ip : string) | RegPort (ip : string) | RegBlocks (ip : string)
  | RegPrior (ip : string) | RegDup (idx : Z) (ip1 ip2 : string) | RegCal (ip : string) (e : calErr).

Fixpoint validateHosts (hosts : list (string * option Host)) (seenIdx : gmap Z string) : option regErr :=
  match hosts with
  | [] => None
  | (ip, None) :: _ => Some (RegNil ip)
  | (ip, Some h) :: rest =>
      if negb (Role h ==s RolePrefill) && negb (Role h ==s RoleDecode) then Some (RegRole ip)
      else if GPUModel h ==s "" then Some (RegGpu ip)
      else if (hPort h <=? 0) || (hPort h >? 65535) then Some (RegPort ip)
      else if ExpectedNumGPUBlocks h ==? 0 then Some (RegBlocks ip)
      else if fleb (ServingThroughputPrior h) (fofz 0) then Some (RegPrior ip)
      else match seenIdx !! EpIdx h with
           | Some prev => Some (RegDup (EpIdx h) prev ip)
           | None =>
               match hCalibration h with
               | Some c => match calValidate c with Some e => Some (RegCal ip e) | None => validateHosts rest (<[EpIdx h := ip]> seenIdx) end
               | None => validateHosts rest (<[EpIdx h := ip]> seenIdx)
               end
           end
  end.

(** [hosts]: the decoded entries in the order of the range; a null one is [None]. *)
Definition regValidate (version : Z) (key : string) (period : Z) (hosts : list (string * option Host)) : option regErr :=
  if negb (version ==? 1) then Some RegVersion
  else if key ==s "" then Some RegKey
  else if period <=? 0 then Some RegPeriod
  else if bool_decide (hosts = []) then Some RegEmpty
  else validateHosts hosts ∅.

(** A decoded file becomes a registry when it validates. *)
Definition LoadRegistry (version : Z) (key : string) (period : Z) (hosts : list (string * option Host)) : Registry + regErr :=
  match regValidate version key period hosts with
  | Some e => inr e
  | None => inl (MkRegistry version key period
      (list_to_map (omap (fun p => match p.2 with Some h => Some (p.1, h) | None => None end) hosts)) ∅)
  end.
End Fingerprints.

Record FieldMismatch := MkFieldMismatch { fmIP : string; fmField : string; fmExpected : string; fmDiscovered : string }.

Definition VerifyFingerprint (ip : string) (decl : option CalibrationDecl) (disc : gmap string string) : list FieldMismatch :=
  match decl with
  | None => []
  | Some decl =>
      if bool_decide (FingerprintFields decl = ∅) || bool_decide (disc = ∅) then []
      else omap (fun k =>
        let expected := default "" (FingerprintFields decl !! k) in
        let d := default "" (disc !! k) in
        if expected ==s d then None else Some (MkFieldMismatch ip k expected d)) (sortedKeys disc)
  end.

Record Mismatch := MkMismatch { mmIP : string; mmKnown : bool; mmExpected : Z; mmDiscovered : Z; Mismatched : bool }.

Definition ValidateDiscovery (r : Registry) (ip : string) (blocks : Z) : Registry * Mismatch :=
  match Hosts r !! ip with
  | None => (r, MkMismatch ip false 0 blocks true)
  | Some h => (MkRegistry (rVersion r) (rServiceKey r) (EpochPeriodSec r) (Hosts r) (<[ip := blocks]> (discovered r)),
      MkMismatch ip true (ExpectedNumGPUBlocks h) blocks (negb (blocks ==? ExpectedNumGPUBlocks h)))
  end.

Definition KvCapacity (r : Registry) (ip : string) : option Z :=
  match Hosts r !! ip with
  | None => None
  | Some h => Some (match discovered r !! ip with Some d => d | None => ExpectedNumGPUBlocks h end)
  end.

Definition ThroughputPrior (r : Registry) (ip : string) : option float64 := ServingThroughputPrior <$> Hosts r !! ip.

Definition CalibratedThroughputRatio (r : Registry) (ip : string) (fingerprintVerified : bool) : option float64 :=
  match Hosts r !! ip with
  | None => None
  | Some h => Some (match hCalibration h with
                    | Some c => if fingerprintVerified then ThroughputRatio c else ServingThroughputPrior h
                    | None => ServingThroughputPrior h
                    end)
  end.

(** ** The expected-TTFT model *)

Definition TtftFeatIntercept : string := "intercept".
Definition TtftFeatLogPromptTokens : string := "log_prompt_tokens".
Definition TtftFeatWaitingOverCapacity : string := "waiting_over_capacity".
Definition TtftFeatKvCacheUsagePerc : string := "kv_cache_usage_perc".
Definition TtftFeatFetchCost : string := "fetch_cost".
Definition TtftFeatMatchedPrefixSat : string := "matched_prefix_sat".

Definition ttftMaxAbsCoefficient : float64 := fofz 1000000.

Definition ttftKnownFeatures : list string :=
  [TtftFeatIntercept; TtftFeatLogPromptTokens; TtftFeatWaitingOverCapacity; TtftFeatKvCacheUsagePerc; TtftFeatFetchCost; TtftFeatMatchedPrefixSat].

Record TtftModel := MkTtftModel { ModelVersion : Z; Features : list string; Coefficients : list float64; LogSpace : bool }.

Inductive ttftErr := TtftVersion | TtftLength | TtftSmall | TtftOrder | TtftLinear | TtftUnknown (i : nat) | TtftDup (i : nat) | TtftCoef (i : nat).

Definition fabs (x : float64) : float64 := SpecFloat.SFabs x.
Definition IsNaN (x : float64) : bool := match x with SpecFloat.S754_nan => true | _ => false end.
Definition IsInf (x : float64) : bool := match x with SpecFloat.S754_infinity _ => true | _ => false end.

Fixpoint checkFeatures (i : nat) (seen : list string) (names : list string) : option ttftErr :=
  match names with
  | [] => None
  | n :: rest =>
      if negb (bool_decide (n ∈ ttftKnownFeatures)) then Some (TtftUnknown i)
      else if bool_decide (n ∈ seen) then Some (TtftDup i)
      else checkFeatures (S i) (n :: seen) rest
  end.

Fixpoint checkCoefs (i : nat) (cs : list float64) : option ttftErr :=
  match cs with
  | [] => None
  | c :: rest => if IsNaN c || IsInf c || flt ttftMaxAbsCoefficient (fabs c) then Some (TtftCoef i) else checkCoefs (S i) rest
  end.

Definition ttftValidate (m : TtftModel) : option ttftErr :=
  if ModelVersion m <? 1 then Some TtftVersion
  else if negb (length (Features m) =? length (Coefficients m))%nat then Some TtftLength
  else if (length (Features m) <? 2)%nat then Some TtftSmall
  else if negb (default "" (head (Features m)) ==s TtftFeatIntercept) then Some TtftOrder
  else if negb (LogSpace m) then Some TtftLinear
  else match checkFeatures 0 [] (Features m) with Some e => Some e | None => checkCoefs 0 (Coefficients m) end.

Record TtftFeatures := MkTtftFeatures {
  LogPromptTokens : float64; WaitingOverCapacity : float64; KvCacheUsagePerc : float64; FetchCost : float64; MatchedPrefixSat : float64 }.

Definition predictStep (f : TtftFeatures) (sum : float64) (p : string * float64) : float64 :=
  let '(name, c) := p in
  if name ==s TtftFeatIntercept then fadd sum c
  else if name ==s TtftFeatLogPromptTokens then fadd sum (fmul c (LogPromptTokens f))
  else if name ==s TtftFeatWaitingOverCapacity then fadd sum (fmul c (WaitingOverCapacity f))
  else if name ==s TtftFeatKvCacheUsagePerc then fadd sum (fmul c (KvCacheUsagePerc f))
  else if name ==s TtftFeatFetchCost then fadd sum (fmul c (FetchCost f))
  else if name ==s TtftFeatMatchedPrefixSat then fadd sum (fmul c (MatchedPrefixSat f))
  else sum.

(** The lengths agree in a validated model. *)
Definition Predict (m : TtftModel) (f : TtftFeatures) : float64 :=
  foldl (predictStep f) (fofz 0) (zip (Features m) (Coefficients m)).

Record TtftEpochFeatures := MkTtftEpochFeatures { efFeatures : TtftFeatures; efLastUpdate : option Z }.

(** ** The decision engine *)

(** A decimal literal [a / b]. *)
Definition flit (a b : Z) : float64 := fdiv (fofz a) (fofz b).

Definition DefaultStaleBudget : Z := 15 * Second.
Definition DefaultEwmaAlpha : float64 := flit 3 10.
Definition DefaultDeadBand : float64 := fofz 5.
Definition DefaultMaxStepPct : Z := 20.
Definition DefaultHardStaleFactor : Z := 3.
Definition DefaultLmcMaxPts : float64 := fofz 15.
Definition DefaultLmcStaleBudget : Z := 15 * Second.
Definition DefaultTtftMaxPts : float64 := fofz 15.
Definition DefaultTtftStaleBudget : Z := 15 * Second.

Record EngineConfig := MkEngineConfig {
  eNow : Z; StaleBudget : Z; HardStaleBudget : Z; EwmaAlpha : float64; DeadBand : float64; MaxStepPct : Z;
  LmcCostEnabled : bool; LmcMaxPts : float64; LmcStaleBudget : Z; LmcInvert : bool;
  TtftEnabled : bool; TtftMaxPts : float64; TtftStaleBudget : Z; TtftInvert : bool;
  cTtftModel : option TtftModel; TtftAlpha : float64; TtftFeats : gmap string TtftEpochFeatures }.

(** The clock is always given. *)
Definition engineDefaults (c : EngineConfig) : EngineConfig :=
  let stale := if StaleBudget c <=? 0 then DefaultStaleBudget else StaleBudget c in
  MkEngineConfig (eNow c) stale
    (if HardStaleBudget c <=? 0 then i64 (DefaultHardStaleFactor * stale) else HardStaleBudget c)
    (if fleb (EwmaAlpha c) (fofz 0) then DefaultEwmaAlpha else EwmaAlpha c)
    (if fleb (DeadBand c) (fofz 0) then DefaultDeadBand else DeadBand c)
    (if MaxStepPct c ==? 0 then DefaultMaxStepPct else MaxStepPct c)
    (LmcCostEnabled c)
    (if fleb (LmcMaxPts c) (fofz 0) then DefaultLmcMaxPts else LmcMaxPts c)
    (if LmcStaleBudget c <=? 0 then DefaultLmcStaleBudget else LmcStaleBudget c)
    (LmcInvert c) (TtftEnabled c)
    (if fleb (TtftMaxPts c) (fofz 0) then DefaultTtftMaxPts else TtftMaxPts c)
    (if TtftStaleBudget c <=? 0 then DefaultTtftStaleBudget else TtftStaleBudget c)
    (TtftInvert c) (cTtftModel c) (TtftAlpha c) (TtftFeats c).

Definition fopp (x : float64) : float64 := SpecFloat.SFopp x.

Definition clamp (v lo hi : float64) : float64 := if flt v lo then lo else if flt hi v then hi else v.

Definition ewma (raw : float64) (prevW : Z) (cfg : EngineConfig) : float64 :=
  fadd (fmul (EwmaAlpha cfg) raw) (fmul (fsub (fofz 1) (EwmaAlpha cfg)) (fofz prevW)).

Record damped := Damped { dW : Z; dHeld : bool; dClamped : bool }.

Definition dampStep (raw : float64) (prevW : Z) (cfg : EngineConfig) : damped :=
  let prevF := fofz prevW in
  let s := ewma raw prevW cfg in
  if fleb (fabs (fsub s prevF)) (DeadBand cfg) then Damped prevW true false
  else
    let maxStep := fofz (MaxStepPct cfg) in
    let '(s, clamped) :=
      if flt (fadd prevF maxStep) s then (fadd prevF maxStep, true)
      else if flt s (fsub prevF maxStep) then (fsub prevF maxStep, true)
      else (s, false) in
    let r := Round s in
    let r := if flt r (fofz 0) then fofz 0 else r in
    let r := if flt (fofz 100) r then fofz 100 else r in
    Damped (ftruncz r mod two32w) false clamped.

Definition lmcUsageSoftScaleBytes : float64 := fofz 8589934592.
Definition lmcPrefixSoftScaleTokens : float64 := fofz 512.
Definition lmcRetrieveSoftScaleSec : float64 := flit 5 100.

Definition FamilyLMCacheRetrieveHitRate : string := "lmcache:retrieve_hit_rate".
Definition FamilyLMCacheLocalCacheUsage : string := "lmcache:local_cache_usage".
Definition FamilyLMCacheRemoteCacheUsage : string := "lmcache:remote_cache_usage".
Definition FamilyLMCacheTimeToRetrieve : string := "lmcache:time_to_retrieve".
Definition RawKeyMatchedPrefixLength : string := "lmcache:matched_prefix_length".

Record lmcSample := MkLmcSample { lsRaw : gmap string float64; lsLastUpdate : option Z }.

Definition lmcSatFrac (x scale : float64) : float64 :=
  if fleb x (fofz 0) || fleb scale (fofz 0) then fofz 0 else fdiv x (fadd x scale).

(** A sub-signal of the locality: its contribution when the key is present. *)
Definition addSignal (raw : gmap string float64) (key : string) (f : float64 -> float64) (acc : float64 * Z) : float64 * Z :=
  match raw !! key with Some v => (fadd acc.1 (f v), acc.2 + 1) | None => acc end.

Definition lmcCostTerm (ip : string) (lmc : option (gmap string lmcSample)) (cfg : EngineConfig) : float64 :=
  match lmc with
  | None => fofz 0
  | Some lmc =>
      if negb (LmcCostEnabled cfg) then fofz 0
      else match lmc !! ip with
      | None => fofz 0
      | Some s =>
          match lsLastUpdate s with
          | None => fofz 0
          | Some at_ =>
              if timeSub (eNow cfg) at_ >? LmcStaleBudget cfg then fofz 0
              else if bool_decide (lsRaw s = ∅) then fofz 0
              else
                let get k := default (fofz 0) (lsRaw s !! k) in
                let usage := fadd (get FamilyLMCacheLocalCacheUsage) (get FamilyLMCacheRemoteCacheUsage) in
                let pressure := lmcSatFrac usage lmcUsageSoftScaleBytes in
                let acc := addSignal (lsRaw s) RawKeyMatchedPrefixLength (fun v => lmcSatFrac v lmcPrefixSoftScaleTokens) (fofz 0, 0) in
                let acc := addSignal (lsRaw s) FamilyLMCacheRetrieveHitRate (fun v => clamp v (fofz 0) (fofz 1)) acc in
                let acc := addSignal (lsRaw s) FamilyLMCacheTimeToRetrieve (fun v => fsub (fofz 1) (lmcSatFrac v lmcRetrieveSoftScaleSec)) acc in
                let locality := if acc.2 >? 0 then fdiv acc.1 (fofz acc.2) else fofz 0 in
                let net := fsub locality pressure in
                let dw := fmul (LmcMaxPts cfg) net in
                let dw := if LmcInvert cfg then fopp dw else dw in
                clamp dw (fopp (LmcMaxPts cfg)) (LmcMaxPts cfg)
          end
      end
  end.

Definition ttftFresh (cfg : EngineConfig) (f : TtftEpochFeatures) : bool :=
  match efLastUpdate f with None => false | Some at_ => negb (timeSub (eNow cfg) at_ >? TtftStaleBudget cfg) end.

Definition ttftCostTerm (ip : string) (feats : gmap string TtftEpochFeatures) (cfg : EngineConfig) : float64 :=
  match cTtftModel cfg with
  | None => fofz 0
  | Some model =>
      if negb (TtftEnabled cfg) || bool_decide (feats = ∅) then fofz 0
      else match feats !! ip with
      | None => fofz 0
      | Some f =>
          if negb (ttftFresh cfg f) then fofz 0
          else
            let fresh := omap (fun k => match feats !! k with Some ef => if ttftFresh cfg ef then Some ef else None | None => None end)
                           (sortStrings (map_to_list feats).*1) in
            let sum := foldl (fun sum ef => fadd sum (Predict model (efFeatures ef))) (fofz 0) fresh in
            let mean := fdiv sum (fofz (Z.of_nat (length fresh))) in
            let pred := Predict model (efFeatures f) in
            let rel := clamp (fsub mean pred) (fofz (-1)) (fofz 1) in
            if IsNaN rel then fofz 0
            else
              let dw := fmul (fmul (TtftMaxPts cfg) rel) (clamp (TtftAlpha cfg) (fofz 0) (fofz 1)) in
              let dw := if TtftInvert cfg then fopp dw else dw in
              clamp dw (fopp (TtftMaxPts cfg)) (TtftMaxPts cfg)
      end
  end.

Inductive staleness := Fresh | SoftStale | HardStale.

(** [None]: no sample; [Some None]: a sample that was never stamped. *)
Definition stalenessOf (cfg : EngineConfig) (sample : option (option Z)) : staleness :=
  match sample with
  | Some (Some at_) =>
      let age := timeSub (eNow cfg) at_ in
      if age <=? StaleBudget cfg then Fresh else if age <=? HardStaleBudget cfg then SoftStale else HardStale
  | _ => HardStale
  end.

Record EngineStats := MkEngineStats { FleetStale : bool; StaleSources : list string; FreshSources : Z; Held : Z; Clamped : Z }.

Definition isFresh (cfg : EngineConfig) (samples : gmap string (option Z)) (ip : string) : bool :=
  match stalenessOf cfg (samples !! ip) with Fresh => true | _ => false end.

Definition isHard (cfg : EngineConfig) (samples : gmap string (option Z)) (ip : string) : bool :=
  match stalenessOf cfg (samples !! ip) with HardStale => true | _ => false end.

Definition maxPriorStep (cfg : EngineConfig) (samples : gmap string (option Z)) (acc : gmap string float64) (p : string * Host) : gmap string float64 :=
  let '(ip, h) := p in
  if negb (isHard cfg samples ip) && flt (default (fofz 0) (acc !! Role h)) (ServingThroughputPrior h)
  then <[Role h := ServingThroughputPrior h]> acc else acc.

Definition rawWeight (cfg : EngineConfig) (lmc : option (gmap string lmcSample)) (maxPrior : gmap string float64) (ip : string) (h : Host) : float64 :=
  let raw := fdiv (fmul (fofz 100) (ServingThroughputPrior h)) (default (fofz 0) (maxPrior !! Role h)) in
  let raw := if LmcCostEnabled cfg then clamp (fadd raw (lmcCostTerm ip lmc cfg)) (fofz 1) (fofz 100) else raw in
  if TtftEnabled cfg && bool_decide (is_Some (cTtftModel cfg))
  then clamp (fadd raw (ttftCostTerm ip (TtftFeats cfg) cfg)) (fofz 1) (fofz 100) else raw.

Definition emitOne (cfg : EngineConfig) (samples : gmap string (option Z)) (lmc : option (gmap string lmcSample)) (prev : gmap string Z)
  (maxPrior : gmap string float64) (ip : string) (h : Host) : damped :=
  let prevW := default 100 (prev !! ip) in
  if negb (isFresh cfg samples ip) then dampStep (fofz 100) prevW cfg
  else dampStep (rawWeight cfg lmc maxPrior ip h) prevW cfg.

Definition emitStep (cfg : EngineConfig) (samples : gmap string (option Z)) (lmc : option (gmap string lmcSample)) (prev : gmap string Z)
  (maxPrior : gmap string float64) (acc : gmap string Z * (Z * Z)) (p : string * Host) : gmap string Z * (Z * Z) :=
  let '(out, (held, clamped)) := acc in
  let d := emitOne cfg samples lmc prev maxPrior p.1 p.2 in
  (<[p.1 := dW d]> out, (held + (if dHeld d then 1 else 0), clamped + (if dClamped d then 1 else 0))).

Definition hostOrder := gmap string Host -> list (string * Host).

(** The three ranges of the function may visit the hosts in three orders. *)
Definition ComputeWeights (ord1 ord2 ord3 : hostOrder) (reg : Registry) (samples : gmap string (option Z)) (prev : gmap string Z)
  (cfg : EngineConfig) (lmc : option (gmap string lmcSample)) : option (gmap string Z) * EngineStats :=
  let cfg := engineDefaults cfg in
  let ips := (ord1 (Hosts reg)).*1 in
  let staleSources := List.filter (fun ip => negb (isFresh cfg samples ip)) ips in
  let freshSources := Z.of_nat (length (List.filter (isFresh cfg samples) ips)) in
  if freshSources ==? 0 then (None, MkEngineStats true staleSources 0 0 0)
  else
    let maxPrior := foldl (maxPriorStep cfg samples) ∅ (ord2 (Hosts reg)) in
    let '(out, (held, clamped)) := foldl (emitStep cfg samples lmc prev maxPrior) (∅, (0, 0)) (ord3 (Hosts reg)) in
    (Some out, MkEngineStats false staleSources freshSources held clamped).

(** ** The snapshot generator *)

Definition snapshotMinApplierVersion : Z := 1.

Record GeneratorConfig := MkGeneratorConfig { EpochPeriod : Z; MinEpochGap : Z; ReanchorEvery : Z }.

Definition generatorDefaults (c : GeneratorConfig) (reg : option Registry) : GeneratorConfig :=
  let period :=
    if EpochPeriod c <=? 0
    then match reg with
         | Some reg => if EpochPeriodSec reg >? 0 then i64 (EpochPeriodSec reg * Second) else 10 * Second
         | None => 10 * Second
         end
    else EpochPeriod c in
  MkGeneratorConfig period
    (if MinEpochGap c <=? 0 then period else MinEpochGap c)
    (if ReanchorEvery c <=? 0 then period else ReanchorEvery c).

Record Generator := MkGenerator {
  gCfg : GeneratorConfig; gReg : Registry; gBootID : string; gEpoch : Z;
  gEmitted : bool; gLastEmit : Z; gLastWeights : gmap string Z; gLastStates : gmap string Z }.

Definition NewGenerator (uuid : string) (reg : Registry) (cfg : GeneratorConfig) : Generator :=
  MkGenerator (generatorDefaults cfg (Some reg)) reg uuid 0 false 0 ∅ ∅.

Definition normWeight (weights : gmap string Z) (ip : string) : Z := default 100 (weights !! ip).

Definition normState (states : gmap string Z) (ip : string) : Z :=
  match states !! ip with
  | Some st => if st ==? EP_STATE_UNSPECIFIED then EP_STATE_ACTIVE else st
  | None => EP_STATE_ACTIVE
  end.

Definition normWeights (reg : Registry) (weights : gmap string Z) : gmap string Z :=
  map_imap (fun ip _ => Some (normWeight weights ip)) (Hosts reg).

Definition normStates (reg : Registry) (states : gmap string Z) : gmap string Z :=
  map_imap (fun ip _ => Some (normState states ip)) (Hosts reg).

(** A missing key reads zero. *)
Definition sameOutput (g : Generator) (w s : gmap string Z) : bool :=
  forallb (fun ip => (default 0 (gLastWeights g !! ip) ==? default 0 (w !! ip)) && (default 0 (gLastStates g !! ip) ==? default 0 (s !! ip)))
    (map_to_list (Hosts (gReg g))).*1.

(** sort.Slice on the indices; a registry has no two hosts with one. *)
Definition idxLe (p q : string * Host) : Prop := EpIdx p.2 <= EpIdx q.2.

#[global] Instance idxLe_dec p q : Decision (idxLe p q).
Proof. unfold idxLe. apply _. Defined.

Definition epEntryOf (w s : gmap string Z) (p : string * Host) : EpEntry :=
  MkEpEntry (EpIdx p.2) (p.1 +:+ String colon (fmtD (hPort p.2))) (if Role p.2 ==s RoleDecode then ROLE_DECODE else ROLE_PREFILL)
    (default 0 (w !! p.1)) (default 0 (s !! p.1)).

(** [Time.UnixMilli]: the milliseconds since the epoch, rounded down. *)
Definition TimeUnixMilli (t : Z) : Z := t / 1000000.

Definition buildSnapshot (ord : hostOrder) (nonce : string) (now : Z) (w s : gmap string Z) (g : Generator) : Snapshot :=
  MkSnapshot (u64 (gEpoch g + 1)) (gBootID g)
    (u64 (TimeUnixMilli (now + i64 (3 * EpochPeriod (gCfg g)))))
    [MkServiceSnapshot (rServiceKey (gReg g)) (map (epEntryOf w s) (merge_sort idxLe (ord (Hosts (gReg g)))))]
    snapshotMinApplierVersion nonce.

Definition Maybe (ord : hostOrder) (nonce : string) (now : Z) (weights states : gmap string Z) (fleetStale : bool) (g : Generator) :
  Generator * option Snapshot :=
  if fleetStale then (g, None)
  else
    let normW := normWeights (gReg g) weights in
    let normS := normStates (gReg g) states in
    if gEmitted g && ((timeSub now (gLastEmit g) <? MinEpochGap (gCfg g)) ||
                      (sameOutput g normW normS && (timeSub now (gLastEmit g) <? ReanchorEvery (gCfg g))))
    then (g, None)
    else
      let snap := buildSnapshot ord nonce now normW normS g in
      (MkGenerator (gCfg g) (gReg g) (gBootID g) (GetEpoch snap) true now normW normS, Some snap).

(** ** One tick of the controller's decision loop *)

Definition effectiveReanchor (reanchorSec epochPeriod : Z) : Z * bool :=
  let reanchor := i64 (reanchorSec * Second) in
  if reanchor >? epochPeriod then (epochPeriod, true) else if reanchor <=? 0 then (epochPeriod, false) else (reanchor, false).

Definition freshPrefill (reg : Registry) (stale : list string) (ip : string) : bool :=
  match Hosts reg !! ip with
  | Some h => (Role h ==s RolePrefill) && negb (bool_decide (ip ∈ stale))
  | None => false
  end.

(** The negative control: the weights of the fresh prefill hosts in reverse. *)
Definition invertWeights (reg : Registry) (weights : gmap string Z) (stale : list string) : gmap string Z :=
  let ws := (List.filter (fun p => freshPrefill reg stale p.1) (map_to_list weights)).*2 in
  match ws with
  | [] => weights
  | w0 :: ws =>
      let minW := foldl Z.min w0 ws in
      let maxW := foldl Z.max w0 ws in
      map_imap (fun ip w => Some (if freshPrefill reg stale ip then (minW + maxW - w) mod two32w else w)) weights
  end.

Record ctrlLoop := MkCtrlLoop { clPrev : gmap string Z; clGen : Generator }.

(** [cfg]: the engine's configuration of this tick. *)
Definition decisionTick (ord1 ord2 ord3 ordB : hostOrder) (nonce : string) (invert : bool) (samples : gmap string (option Z))
  (lmc : option (gmap string lmcSample)) (cfg : EngineConfig) (l : ctrlLoop) : ctrlLoop * option Snapshot :=
  let '(weights, stats) := ComputeWeights ord1 ord2 ord3 (gReg (clGen l)) samples (clPrev l) cfg lmc in
  match weights with
  | None => (l, None)
  | Some weights =>
      let emitW := if invert then invertWeights (gReg (clGen l)) weights (StaleSources stats) else weights in
      let '(g, snap) := Maybe ordB nonce (eNow cfg) emitW ∅ (FleetStale stats) (clGen l) in
      (MkCtrlLoop weights g, snap)
  end.
