(* ===== verification/AiCostProps.v ===== *)
(** * AiCostProps: the optional cost terms are numbers

    Magnitudes through sums, differences, quotients and clamps of floats, and with
    them: the cache-locality term and the expected-TTFT term of the decision engine
    (pkg/aictrl/engine/engine.go, lmcCostTerm and ttftCostTerm) are finite whenever
    the readings they are fed are, so the weight they adjust stays a number. *)

From Stdlib Require Import Ascii String SpecFloat.
From stdpp Require Import base gmap strings list sets sorting.
From S2P Require Import Prelude Classes NetIdText Float64 Float64Order AiCtrl AiEngine.

Open Scope Z_scope.
Open Scope igw_scope.

(** ** Magnitudes through the operations *)

(** A float64 of magnitude at most [2^a]. *)
Definition bounded (a : Z) (x : float64) : Prop := valid x /\ mag_le x 1 a.

Lemma fle_pow a b : a <= b -> fle 1 a 1 b.
Proof. intros H. apply (fle_base a); [lia..|]. rewrite Z.sub_diag, Z.pow_0_r, Z.mul_1_l. pose proof (Z.pow_pos_nonneg 2 (b - a)). lia. Qed.

Lemma bounded_weaken a b x : a <= b -> bounded a x -> bounded b x.
Proof. intros H [V M]. split; [done|]. destruct x; cbn in *; try done. eapply fle_trans; [exact M|by apply fle_pow]. Qed.

Lemma bounded_finite a x : bounded a x -> finite x /\ x <> S754_nan.
Proof. intros [_ M]. by destruct x. Qed.

Lemma bounded_zero a s : bounded a (S754_zero s).
Proof. split; [done|]. cbn. lia. Qed.

Lemma normalize_mag m e z a :
  -1074 <= a <= 900 -> fle (Z.abs m) e 1 a -> mag_le (binary_normalize 53 1024 m e z) 1 a.
Proof. intros Ha H. destruct m as [|p|p]; cbn [binary_normalize]; [cbn; lia|apply binary_round_le; [lia|lia|exact H]..]. Qed.

(** The mantissas of two floats over their common exponent. *)
Lemma aligned_sum_mag m1 e1 m2 e2 s1 s2 a :
  fle (Zpos m1) e1 1 a -> fle (Zpos m2) e2 1 a ->
  let ez := Z.min e1 e2 in
  fle (Z.abs (cond_Zopp s1 (Zpos (shl_align m1 e1 ez).1) + cond_Zopp s2 (Zpos (shl_align m2 e2 ez).1))) ez 1 (a + 1).
Proof.
  intros H1 H2 ez. rewrite !shl_align_min by lia. set (b := Z.min ez a).
  apply (fle_base b) in H1, H2; [|lia..]. apply (fle_base b); [lia..|].
  replace (e1 - b) with ((e1 - ez) + (ez - b)) in H1 by lia. replace (e2 - b) with ((e2 - ez) + (ez - b)) in H2 by lia.
  replace (a + 1 - b) with (1 + (a - b)) by lia. rewrite Z.pow_add_r in H1, H2 by lia. rewrite (Z.pow_add_r 2 1) by lia.
  pose proof (Z.pow_pos_nonneg 2 (ez - b) ltac:(lia) ltac:(lia)) as P.
  pose proof (Z.pow_pos_nonneg 2 (e1 - ez) ltac:(lia) ltac:(lia)). pose proof (Z.pow_pos_nonneg 2 (e2 - ez) ltac:(lia) ltac:(lia)).
  set (X := Zpos m1 * 2 ^ (e1 - ez)) in *. set (Y := Zpos m2 * 2 ^ (e2 - ez)) in *.
  assert (X * 2 ^ (ez - b) <= 2 ^ (a - b)) by (unfold X; lia). assert (Y * 2 ^ (ez - b) <= 2 ^ (a - b)) by (unfold Y; lia).
  assert (Z.abs (cond_Zopp s1 X + cond_Zopp s2 Y) <= X + Y) by (unfold X, Y; destruct s1, s2; cbn [cond_Zopp]; lia). nia.
Qed.

Lemma fadd_bounded a x y : -1074 <= a <= 899 -> bounded a x -> bounded a y -> bounded (a + 1) (fadd x y).
Proof.
  intros Ha Bx By. pose proof (bounded_weaken a (a + 1) _ ltac:(lia) Bx) as Wx. pose proof (bounded_weaken a (a + 1) _ ltac:(lia) By) as Wy.
  split; [apply fadd_valid; [apply Bx|apply By]|]. destruct Bx as [_ Mx], By as [_ My], Wx as [_ Wx], Wy as [_ Wy].
  destruct x as [[]| | |sx mx ex], y as [[]| | |sy my ey]; try done; try (cbn; lia).
  apply normalize_mag; [lia|]. by apply aligned_sum_mag.
Qed.

Lemma fsub_bounded a x y : -1074 <= a <= 899 -> bounded a x -> bounded a y -> bounded (a + 1) (fsub x y).
Proof.
  intros Ha Bx By. pose proof (bounded_weaken a (a + 1) _ ltac:(lia) Bx) as Wx. pose proof (bounded_weaken a (a + 1) _ ltac:(lia) By) as Wy.
  split; [apply fsub_valid; [apply Bx|apply By]|]. destruct Bx as [_ Mx], By as [_ My], Wx as [_ Wx], Wy as [_ Wy].
  destruct x as [[]| | |sx mx ex], y as [[]| | |sy my ey]; try done; try (cbn; lia).
  apply normalize_mag; [lia|]. pose proof (aligned_sum_mag mx ex my ey sx (negb sy) a Mx My) as H. cbn zeta in H.
  replace (cond_Zopp (negb sy) (Zpos (shl_align my ey (Z.min ex ey)).1)) with (- cond_Zopp sy (Zpos (shl_align my ey (Z.min ex ey)).1)) in H by (by destruct sy).
  by rewrite Z.add_opp_r in H.
Qed.

(** The integers a quotient rounds: the dividend scaled, against the bound. *)
Lemma scaled_quotient m1 e1 m2 e2 a b ex :
  fle (Zpos m1) e1 1 a -> fle 1 b (Zpos m2) e2 -> ex <= e1 - e2 -> ex <= a - b ->
  Zpos m1 * 2 ^ (e1 - e2 - ex) <= Zpos m2 * 2 ^ (a - b - ex).
Proof.
  intros H1 H2 He Hj. set (c := Z.min e1 a). set (c' := Z.min (Z.min e2 b) (c - ex)). set (t := c - c' - ex).
  rewrite (fle_base c) in H1 by lia. rewrite (fle_base c') in H2 by lia. rewrite Z.mul_1_l in H1, H2.
  assert (P : forall n, 0 <= n -> 0 < 2 ^ n) by (intros; apply Z.pow_pos_nonneg; lia).
  apply (Z.mul_le_mono_pos_r _ _ (2 ^ ((e2 - c') + (b - c')))); [apply P; lia|].
  assert (0 <= t) by lia. rewrite <- !Z.mul_assoc, <- !Z.pow_add_r by lia.
  replace (e1 - e2 - ex + (e2 - c' + (b - c'))) with ((e1 - c) + ((b - c') + t)) by lia.
  replace (a - b - ex + (e2 - c' + (b - c'))) with ((e2 - c') + ((a - c) + t)) by lia.
  rewrite !Z.pow_add_r by lia. pose proof (P (a - c) ltac:(lia)). pose proof (P (b - c') ltac:(lia)). pose proof (P t ltac:(lia)). pose proof (P (e1 - c) ltac:(lia)).
  transitivity ((Zpos m1 * 2 ^ (e1 - c)) * (2 ^ (b - c') * 2 ^ t)); [lia|].
  transitivity (2 ^ (a - c) * (2 ^ (b - c') * 2 ^ t)); [nia|].
  transitivity (2 ^ (a - c) * ((Zpos m2 * 2 ^ (e2 - c')) * 2 ^ t)); [|lia].
  apply Z.mul_le_mono_nonneg_l; [lia|]. apply Z.mul_le_mono_nonneg_r; lia.
Qed.

(** The quotient's exponent is below the bound's. *)
Lemma quotient_exponent m1 e1 m2 e2 a b :
  fle (Zpos m1) e1 1 a -> fle 1 b (Zpos m2) e2 -> -1074 <= a - b ->
  fexp64 (Zdigits2 (Zpos m1) + e1 - (Zdigits2 (Zpos m2) + e2)) <= a - b.
Proof.
  intros H1 H2 Hj. destruct (Zdigits2_bounds (Zpos m1)) as [[D1 _] D1']; [lia|]. destruct (Zdigits2_bounds (Zpos m2)) as [[_ D2] D2']; [lia|].
  assert (P : forall n, 0 <= n -> 0 < 2 ^ n) by (intros; apply Z.pow_pos_nonneg; lia).
  assert (A : Zdigits2 (Zpos m1) + e1 <= a + 1).
  { set (c := Z.min e1 a). rewrite (fle_base c) in H1 by lia. rewrite Z.mul_1_l in H1.
    destruct (decide (Zdigits2 (Zpos m1) + e1 <= a + 1)); [done|exfalso].
    assert (2 ^ (a - c) < 2 ^ ((Zdigits2 (Zpos m1) - 1) + (e1 - c))) as X by (apply Z.pow_lt_mono_r; lia).
    rewrite Z.pow_add_r in X by lia. pose proof (P (e1 - c) ltac:(lia)). nia. }
  assert (B : b < Zdigits2 (Zpos m2) + e2).
  { set (c := Z.min e2 b). rewrite (fle_base c) in H2 by lia. rewrite Z.mul_1_l in H2.
    destruct (decide (b < Zdigits2 (Zpos m2) + e2)); [done|exfalso].
    assert (2 ^ (Zdigits2 (Zpos m2) + (e2 - c)) <= 2 ^ (b - c)) as X by (apply Z.pow_le_mono_r; lia).
    rewrite Z.pow_add_r in X by lia. pose proof (P (e2 - c) ltac:(lia)). nia. }
  unfold SpecFloat.fexp, SpecFloat.emin. lia.
Qed.

Lemma fdiv_mag s1 m1 e1 s2 m2 e2 a b :
  fle (Zpos m1) e1 1 a -> fle 1 b (Zpos m2) e2 -> -1074 <= a - b <= 900 ->
  mag_le (fdiv (S754_finite s1 m1 e1) (S754_finite s2 m2 e2)) 1 (a - b).
Proof.
  intros H1 H2 Hj. unfold fdiv, SFdiv. destruct (SFdiv_core_binary _ _ _ _ _ _) as [[q e'] l] eqn:E. unfold SFdiv_core_binary in E.
  pose proof (quotient_exponent m1 e1 m2 e2 a b H1 H2 ltac:(lia)) as Hx.
  set (ex := Z.min _ _) in E. assert (He : ex <= e1 - e2) by (unfold ex; lia). assert (Hxj : ex <= a - b) by (unfold ex; lia).
  set (m' := match _ with Zpos _ => _ | _ => _ end) in E.
  assert (Em' : m' = Zpos m1 * 2 ^ (e1 - e2 - ex)).
  { unfold m'. destruct (e1 - e2 - ex) eqn:S; [lia|apply Z.shiftl_mul_pow2; lia|lia]. }
  pose proof (scaled_quotient m1 e1 m2 e2 a b ex H1 H2 He Hxj) as S. rewrite <- Em' in S.
  assert (0 <= m') by (rewrite Em'; pose proof (Z.pow_pos_nonneg 2 (e1 - e2 - ex)); lia). clearbody m' ex.
  pose proof (Z.div_eucl_eq m' (Zpos m2) ltac:(lia)) as Q1. pose proof (Z.mod_pos_bound m' (Zpos m2) ltac:(lia)) as Q2.
  unfold Z.modulo in Q2. destruct (Z.div_eucl m' (Zpos m2)) as [q0 r]. injection E as <- <- <-.
  assert (0 <= q0) by nia. apply round_aux_le; [done|lia|lia|]. apply (fle_base ex); [lia..|]. rewrite Z.sub_diag, Z.pow_0_r, Z.mul_1_r, Z.mul_1_l.
  pose proof (lostBit_new_location (Zpos m2) r) as L. destruct (Z.eqb_spec r 0) as [->|Hr]; nia.
Qed.

(** ** Clamps *)

Lemma clamp_finite x lo hi :
  valid x -> x <> S754_nan -> valid lo -> finite lo -> valid hi -> finite hi -> valid (clamp x lo hi) /\ finite (clamp x lo hi).
Proof.
  intros V N Vl Fl Vh Fh. unfold clamp. destruct (flt x lo) eqn:E1; [done|]. destruct (flt hi x) eqn:E2; [done|]. split; [done|].
  unfold flt, SFltb in E1, E2. destruct x as [|[]| |]; try done; [by destruct lo as [|[]| |]|by destruct hi as [|[]| |]].
Qed.

(** A clamp between minus one and one, or zero and one. *)
Lemma clamp_unit x lo : (lo = -1 \/ lo = 0) -> valid x -> x <> S754_nan -> bounded 0 (clamp x (fofz lo) (fofz 1)).
Proof.
  intros Hlo V N. assert (Vl : valid (fofz lo) /\ finite (fofz lo) /\ mag_le (fofz lo) 1 0) by (destruct Hlo as [-> | ->]; by vm_compute).
  destruct Vl as (Vl & Fl & Ml). assert (Vh : valid (fofz 1) /\ finite (fofz 1)) by by vm_compute. destruct Vh as [Vh Fh].
  destruct (clamp_finite x (fofz lo) (fofz 1) V N Vl Fl Vh Fh) as [Vc Fc]. split; [done|]. unfold clamp in *.
  destruct (flt x (fofz lo)) eqn:E1; [done|]. destruct (flt (fofz 1) x) eqn:E2; [by vm_compute|].
  pose proof (SFltb_false_le _ _ Vh V Fh Fc E2) as L2. pose proof (SFltb_false_le _ _ V Vl Fc Fl E1) as L1.
  unfold num_le in L1, L2. destruct x as [s| | |s m e]; try done. cbn [fnum fst snd] in L1, L2. cbn [mag_le].
  assert (One : fle (fnum (fofz 1)).1 (fnum (fofz 1)).2 1 0) by (vm_compute; discriminate).
  assert (Low : fle (-1) 0 (fnum (fofz lo)).1 (fnum (fofz lo)).2) by (destruct Hlo as [-> | ->]; vm_compute; discriminate).
  destruct s; cbn [cond_Zopp] in L1, L2; [|eapply fle_trans; [exact L2|exact One]].
  apply fle_opp. eapply fle_trans; [exact Low|exact L1].
Qed.

(** ** The terms *)

Definition positive_number (p : float64) : Prop := valid p /\ exists m e, p = S754_finite false m e.

Lemma positive_of_not_le0 x : finite x -> fleb x (fofz 0) = false -> exists m e, x = S754_finite false m e.
Proof. destruct x as [[]| | |[] m e]; try done. eauto. Qed.

Definition scale_ok (s : float64) : Prop := valid s /\ exists m e, s = S754_finite false m e /\ fle 1 (-10) (Zpos m) e /\ fle (Zpos m) e 1 500.

Lemma sum_above_scale m e ms es :
  fle (Zpos m) e 1 501 -> fle 1 (-10) (Zpos ms) es -> fle (Zpos ms) es 1 500 ->
  exists m' e', fadd (S754_finite false m e) (S754_finite false ms es) = S754_finite false m' e' /\ fle 1 (-10) (Zpos m') e'.
Proof.
  intros Hx Hg Hs. pose proof (aligned_sum_mag m e ms es false false 501 Hx (fle_trans _ _ _ _ _ _ Hs (fle_pow 500 501 ltac:(lia)))) as M.
  unfold fadd, SFadd. cbn zeta in M. cbn [cond_Zopp] in *. rewrite !shl_align_min in * by lia. set (ez := Z.min e es) in *.
  pose proof (Z.pow_pos_nonneg 2 (e - ez) ltac:(lia) ltac:(lia)). pose proof (Z.pow_pos_nonneg 2 (es - ez) ltac:(lia) ltac:(lia)).
  assert (G : fle 1 (-10) (Zpos m * 2 ^ (e - ez) + Zpos ms * 2 ^ (es - ez)) ez).
  { eapply fle_trans; [exact Hg|]. apply (fle_base ez); [lia..|]. rewrite Z.sub_diag, Z.pow_0_r. nia. }
  destruct (Zpos m * 2 ^ (e - ez) + Zpos ms * 2 ^ (es - ez)) as [|p|p] eqn:Ep; [nia| |nia]. cbn [binary_normalize Z.abs] in *.
  pose proof (binary_round_le false p ez 1 502 ltac:(lia) ltac:(lia) M) as L.
  pose proof (binary_round_ge false p ez 1 (-10) _ _ ltac:(lia) ltac:(lia) G L) as Ge. destruct (binary_round_sign false p ez) as [S _].
  destruct (binary_round 53 1024 false p ez) as [s| | |s m' e']; cbn in L, Ge, S; try done. subst s. eauto.
Qed.

Lemma satFrac_bounded x s : bounded 501 x -> scale_ok s -> bounded 511 (lmcSatFrac x s).
Proof.
  intros Bx (Vs & ms & es & -> & Hg & Hs). unfold lmcSatFrac. destruct (fleb x (fofz 0)) eqn:E; cbn [orb]; [apply bounded_zero|].
  destruct (positive_of_not_le0 x (proj1 (bounded_finite _ _ Bx)) E) as (m & e & ->). destruct (fleb _ (fofz 0)); [apply bounded_zero|].
  destruct Bx as [Vx Mx]. cbn in Mx. split; [apply fdiv_valid; [done|by apply fadd_valid]|].
  destruct (sum_above_scale m e ms es Mx Hg Hs) as (m' & e' & -> & G). by apply (fdiv_mag _ _ _ _ _ _ 501 (-10)).
Qed.

Lemma scales_ok : scale_ok lmcUsageSoftScaleBytes /\ scale_ok lmcPrefixSoftScaleTokens /\ scale_ok lmcRetrieveSoftScaleSec.
Proof. split_and!; (split; [by vm_compute|]); eexists _, _; (split; [vm_compute; reflexivity|split; by vm_compute]). Qed.

(** The readings of the cache source, finite and below [2^500]: the parser of the
    scraped text drops what is not a number or infinite. *)
Definition readings_ok (lmc : option (gmap string lmcSample)) : Prop :=
  forall l ip s k v, lmc = Some l -> l !! ip = Some s -> lsRaw s !! k = Some v -> bounded 500 v.

(** A running sum of signals and their count. *)
Definition signals_ok (a n : Z) (acc : float64 * Z) : Prop := bounded a acc.1 /\ 0 <= acc.2 <= n.

Lemma addSignal_ok raw key f a n acc :
  -1074 <= a <= 899 -> (forall v, raw !! key = Some v -> bounded a (f v)) -> signals_ok a n acc -> signals_ok (a + 1) (n + 1) (addSignal raw key f acc).
Proof.
  intros Ha Hf [B C]. unfold addSignal. destruct (raw !! key) as [v|] eqn:E; [|split; [by apply (bounded_weaken a); [lia|]|lia]].
  split; cbn; [by apply fadd_bounded; [lia| |apply Hf]|lia].
Qed.

Lemma mean_bounded a n acc : -1074 <= a <= 900 -> n <= 3 -> signals_ok a n acc -> bounded a (if acc.2 >? 0 then fdiv acc.1 (fofz acc.2) else fofz 0).
Proof.
  intros Ha Hn [[V M] C]. destruct (acc.2 >? 0) eqn:H; [|apply bounded_zero]. apply Z.ltb_lt in H. split; [by apply fdiv_valid; [|apply fofz_valid]|].
  assert (D : exists m e, fofz acc.2 = S754_finite false m e /\ fle 1 0 (Zpos m) e).
  { destruct (fofz_exact acc.2) as (m & e & -> & _ & G); [lia|]. exists m, e. split; [done|]. eapply fle_trans; [|exact G]. apply fle_same. lia. }
  destruct D as (m & e & -> & G). destruct acc.1 as [s| | |s mx ex]; try done.
  pose proof (fdiv_mag s mx ex false m e a 0 M G ltac:(lia)) as L. by rewrite Z.sub_0_r in L.
Qed.

Lemma fopp_finite x : valid x -> finite x -> valid (fopp x) /\ finite (fopp x).
Proof. by destruct x. Qed.

Lemma fopp_number x : valid x -> x <> S754_nan -> valid (fopp x) /\ fopp x <> S754_nan.
Proof. by destruct x. Qed.

Lemma fmul_number x y : finite x -> finite y -> fmul x y <> S754_nan.
Proof. intros Fx Fy. destruct x as [| | |sx mx ex], y as [| | |sy my ey]; try done. by apply (round_aux_sign (xorb sx sy)). Qed.

(** The last steps of both terms: the sign, and the clamp to the configured points. *)
Lemma clamped_points (M dw : float64) (invert : bool) :
  positive_number M -> valid dw -> dw <> S754_nan ->
  let t := clamp (if invert then fopp dw else dw) (fopp M) M in valid t /\ finite t.
Proof.
  intros (VM & m & e & ->) V N t. destruct (fopp_number dw V N) as [Vo No].
  apply clamp_finite; try done; by destruct invert.
Qed.

Lemma lmcCostTerm_finite ip lmc c :
  readings_ok lmc -> positive_number (LmcMaxPts c) -> valid (lmcCostTerm ip lmc c) /\ finite (lmcCostTerm ip lmc c).
Proof.
  intros R PM. unfold lmcCostTerm. destruct lmc as [l|]; [|done]. destruct (negb _); [done|]. destruct (l !! ip) as [s|] eqn:El; [|done].
  destruct (lsLastUpdate s) as [at_|]; [|done]. destruct (_ >? _); [done|]. destruct (bool_decide _); [done|]. cbn zeta.
  assert (Rd : forall k v, lsRaw s !! k = Some v -> bounded 500 v) by (intros k v; by apply (R l ip)).
  assert (Get : forall k, bounded 500 (default (fofz 0) (lsRaw s !! k))).
  { intros k. destruct (lsRaw s !! k) as [v|] eqn:E; [by eapply Rd|apply bounded_zero]. }
  destruct scales_ok as (S1 & S2 & S3).
  set (usage := fadd _ _). assert (Bu : bounded 501 usage) by (by apply (fadd_bounded 500)).
  pose proof (satFrac_bounded usage _ Bu S1) as Bp. set (pressure := lmcSatFrac _ _) in *.
  assert (A1 : signals_ok 513 1 (addSignal (lsRaw s) RawKeyMatchedPrefixLength (fun v => lmcSatFrac v lmcPrefixSoftScaleTokens) (fofz 0, 0))).
  { apply (addSignal_ok _ _ _ 512 0); [lia| |split; [apply bounded_zero|cbn; lia]]. intros v E. apply (bounded_weaken 511); [lia|].
    apply satFrac_bounded; [|done]. by apply (bounded_weaken 500); [lia|eapply Rd]. }
  set (acc1 := addSignal _ _ _ (fofz 0, 0)) in *.
  assert (A2 : signals_ok 514 2 (addSignal (lsRaw s) FamilyLMCacheRetrieveHitRate (fun v => clamp v (fofz 0) (fofz 1)) acc1)).
  { apply (addSignal_ok _ _ _ 513 1); [lia| |done]. intros v E. apply (bounded_weaken 0); [lia|]. pose proof (Rd _ _ E) as Bv.
    apply clamp_unit; [by right|apply Bv|by apply (bounded_finite 500)]. }
  set (acc2 := addSignal _ _ _ acc1) in *.
  assert (A3 : signals_ok 515 3 (addSignal (lsRaw s) FamilyLMCacheTimeToRetrieve (fun v => fsub (fofz 1) (lmcSatFrac v lmcRetrieveSoftScaleSec)) acc2)).
  { apply (addSignal_ok _ _ _ 514 2); [lia| |done]. intros v E. apply (bounded_weaken 512); [lia|]. apply (fsub_bounded 511); [lia| |].
    - apply (bounded_weaken 0); [lia|]. by split; vm_compute.
    - apply satFrac_bounded; [|done]. by apply (bounded_weaken 500); [lia|eapply Rd]. }
  set (acc3 := addSignal _ _ _ acc2) in *.
  pose proof (mean_bounded 515 3 acc3 ltac:(lia) ltac:(lia) A3) as Bl. match type of Bl with bounded _ ?x => set (locality := x) in * end.
  pose proof (fsub_bounded 515 locality pressure ltac:(lia) Bl (bounded_weaken 511 515 _ ltac:(lia) Bp)) as Bn.
  apply clamped_points; [done|apply fmul_valid; [apply PM|apply Bn]|]. apply fmul_number; [|by apply (bounded_finite 516)].
  by destruct PM as (_ & m & e & ->).
Qed.

(** The floats the expected-TTFT term reads are float64 values, infinite and NaN
    ones included. *)
Definition features_valid (f : TtftFeatures) : Prop :=
  valid (LogPromptTokens f) /\ valid (WaitingOverCapacity f) /\ valid (KvCacheUsagePerc f) /\ valid (FetchCost f) /\ valid (MatchedPrefixSat f).

Definition ttft_inputs_ok (c : EngineConfig) : Prop :=
  (forall m, cTtftModel c = Some m -> Forall valid (Coefficients m)) /\
  (forall ip ef, TtftFeats c !! ip = Some ef -> features_valid (efFeatures ef)) /\
  valid (TtftAlpha c) /\ TtftAlpha c <> S754_nan.

Lemma Predict_valid m f : Forall valid (Coefficients m) -> features_valid f -> valid (Predict m f).
Proof.
  intros Hc (V1 & V2 & V3 & V4 & V5). unfold Predict. assert (V0 : valid (fofz 0)) by apply fofz_valid.
  revert Hc V0. generalize (fofz 0) (Features m). generalize (Coefficients m) as cs.
  induction cs as [|c cs IH]; intros acc [|n ns] Hc V0; try done. apply Forall_cons in Hc as [Vc Hc]. cbn [zip zip_with foldl]. apply IH; [done|].
  unfold predictStep. repeat (destruct (_ ==s _); [by repeat (apply fadd_valid || apply fmul_valid)|]). done.
Qed.

Lemma predictions_valid m fs acc :
  Forall valid (Coefficients m) -> Forall (fun ef => features_valid (efFeatures ef)) fs -> valid acc ->
  valid (foldl (fun sum ef => fadd sum (Predict m (efFeatures ef))) acc fs).
Proof.
  intros Hc. revert acc. induction fs as [|ef fs IH]; intros acc Hf Va; [done|]. apply Forall_cons in Hf as [H Hf]. cbn [foldl].
  apply IH; [done|]. apply fadd_valid; [done|by apply Predict_valid].
Qed.

Lemma fmul_comm x y : fmul x y = fmul y x.
Proof.
  destruct x as [sx|sx| |sx mx ex], y as [sy|sy| |sy my ey]; try done; unfold fmul, SFmul; rewrite (xorb_comm sx); try done.
  by rewrite (Pos.mul_comm mx), (Z.add_comm ex).
Qed.

Lemma ttftCostTerm_finite ip c :
  ttft_inputs_ok c -> positive_number (TtftMaxPts c) -> mag_le (TtftMaxPts c) 100 0 ->
  valid (ttftCostTerm ip (TtftFeats c) c) /\ finite (ttftCostTerm ip (TtftFeats c) c).
Proof.
  intros (Hm & Hf & Va & Na) PM MM. unfold ttftCostTerm. destruct (cTtftModel c) as [m|]; [|done]. specialize (Hm m eq_refl).
  destruct (_ || _); [done|]. destruct (TtftFeats c !! ip) as [f|] eqn:Ef; [|done]. destruct (negb _); [done|]. cbn zeta.
  set (fresh := omap _ _). set (sum := foldl _ _ fresh).
  assert (Vs : valid sum).
  { apply predictions_valid; [done| |apply fofz_valid]. apply Forall_forall. intros ef (k & _ & E)%list_elem_of_omap.
    destruct (TtftFeats c !! k) as [ef'|] eqn:Ek; [|done]. destruct (ttftFresh c ef'); simplify_eq. by eapply Hf. }
  set (rel := clamp _ (fofz (-1)) _). destruct (IsNaN rel) eqn:Nr; [done|].
  assert (Vd : valid (fsub (fdiv sum (fofz (Z.of_nat (length fresh)))) (Predict m (efFeatures f)))).
  { apply fsub_valid; [by apply fdiv_valid; [|apply fofz_valid]|apply Predict_valid; [done|by eapply Hf]]. }
  assert (Br : bounded 0 rel).
  { apply clamp_unit; [by left|done|]. intros Hn. revert Nr. unfold rel. rewrite Hn. done. }
  assert (Bc : bounded 0 (clamp (TtftAlpha c) (fofz 0) (fofz 1))) by (apply clamp_unit; [by right|done|done]).
  destruct (fmul_le rel (TtftMaxPts c) 100 ltac:(lia) (proj2 Br) MM) as [M1 _]. rewrite fmul_comm in M1.
  apply clamped_points; [done|apply fmul_valid; [apply fmul_valid; [apply PM|apply Br]|apply Bc]|].
  apply fmul_number; [|by apply (bounded_finite 0)]. by destruct (fmul (TtftMaxPts c) rel).
Qed.
