(* ===== verification/AiEngineProps.v ===== *)
(** * AiEngineProps: the damping envelope and the emission of snapshots *)

From Stdlib Require Import Ascii String SpecFloat.
From stdpp Require Import base gmap strings list sets sorting.
From S2P Require Import Prelude Classes NetIdText Float64 Float64Order AiCtrl AiCtrlDecay AiCtrlProps AiEngine AiCostProps.

Open Scope Z_scope.
Open Scope igw_scope.

(** ** Integers as floats *)

Lemma ftruncz_opp s m e : ftruncz (S754_finite s m e) = cond_Zopp s (ftruncz (S754_finite false m e)).
Proof. done. Qed.

Lemma ftruncz_fofz n : - 2 ^ 53 < n < 2 ^ 53 -> ftruncz (fofz n) = n.
Proof.
  intros Hn. destruct (Z.lt_trichotomy n 0) as [H|[->|H]]; [|done|].
  - assert (E : exists m e, fofz n = S754_finite true m e /\ fle (Zpos m) e (- n) 0 /\ fle (- n) 0 (Zpos m) e).
    { destruct n as [|p|p]; [lia|lia|]. unfold fofz. cbn [binary_normalize]. cbn [Z.opp].
      assert (S : fle (Zpos p) 0 (Zpos p) 0) by (by apply fle_same).
      pose proof (binary_round_le true p 0 (Zpos p) 0 ltac:(lia) ltac:(lia) S) as L.
      pose proof (binary_round_ge true p 0 (Zpos p) 0 _ _ ltac:(lia) ltac:(lia) S L) as G.
      destruct (binary_round_sign true p 0) as [Sg _].
      destruct (binary_round 53 1024 true p 0) as [s| | |s m e]; cbn in L, G, Sg; try done. subst. eauto. }
    destruct E as (m & e & -> & L & G). rewrite ftruncz_opp, (ftruncz_value m e (- n)) by done. cbn. lia.
  - destruct (fofz_exact n) as (m & e & -> & L & G); [lia|]. by apply ftruncz_value.
Qed.

(** A finite float between two integers. *)
Definition fbetween (x : float64) (a b : Z) : Prop := finite x /\ fle a 0 (fnum x).1 (fnum x).2 /\ fle (fnum x).1 (fnum x).2 b 0.

Lemma fle_int a b : fle a 0 b 0 <-> a <= b.
Proof. apply fle_same. Qed.

Lemma fofz_between n : - 2 ^ 53 < n < 2 ^ 53 -> fbetween (fofz n) n n.
Proof.
  intros Hn. destruct (Z.lt_trichotomy n 0) as [H|[->|H]].
  - destruct n as [|p|p]; [lia|lia|]. unfold fofz. cbn [binary_normalize].
    assert (S : fle (Zpos p) 0 (Zpos p) 0) by (by apply fle_same).
    pose proof (binary_round_le true p 0 (Zpos p) 0 ltac:(lia) ltac:(lia) S) as L.
    pose proof (binary_round_ge true p 0 (Zpos p) 0 _ _ ltac:(lia) ltac:(lia) S L) as G.
    destruct (binary_round_sign true p 0) as [Sg _].
    destruct (binary_round 53 1024 true p 0) as [s| | |s m e]; cbn in L, G, Sg; try done. subst. split; [done|].
    cbn [fnum fst snd cond_Zopp]. change (Zneg p) with (- Zpos p). by rewrite !fle_opp.
  - split; [done|]. split; by apply fle_same.
  - destruct (fofz_exact n) as (m & e & -> & L & G); [lia|]. done.
Qed.

Lemma ftruncz_between m e a b :
  fle a 0 (Zpos m) e -> fle (Zpos m) e b 0 -> a <= ftruncz (S754_finite false m e) <= b.
Proof.
  intros L G. cbn. destruct (Z.leb_spec 0 e).
  - apply (fle_base 0) in L, G; [|lia..]. rewrite !Z.sub_0_r, Z.pow_0_r, Z.mul_1_r in *. lia.
  - apply (fle_base e) in L, G; [|lia..]. rewrite Z.sub_diag, Z.pow_0_r in *. replace (0 - e) with (- e) in * by lia.
    pose proof (Z.pow_pos_nonneg 2 (- e) ltac:(lia) ltac:(lia)). split.
    + apply Z.div_le_lower_bound; lia.
    + apply Z.lt_succ_r, Z.div_lt_upper_bound; lia.
Qed.

Lemma fle_pos m e k : fle (Zpos m) e k 0 -> 0 < k.
Proof.
  intros H. unfold fle in H. pose proof (Z.pow_pos_nonneg 2 (e - Z.min e 0) ltac:(lia) ltac:(lia)).
  pose proof (Z.pow_pos_nonneg 2 (0 - Z.min e 0) ltac:(lia) ltac:(lia)). nia.
Qed.

(** The integer a rounding returns, before its conversion. *)
Lemma Round_quotient m e k :
  e < 0 -> fle (Zpos m) e k 0 -> 0 <= (2 * Zpos m + 2 ^ (- e)) / (2 * 2 ^ (- e)) <= k.
Proof.
  intros He H. apply (fle_base e) in H; [|lia..]. rewrite Z.sub_diag, Z.pow_0_r in *. replace (0 - e) with (- e) in * by lia.
  pose proof (Z.pow_pos_nonneg 2 (- e) ltac:(lia) ltac:(lia)) as P.
  split; [apply Z.div_pos; lia|]. apply Z.lt_succ_r, Z.div_lt_upper_bound; lia.
Qed.

(** Rounding commutes with a change of sign. *)
Lemma Round_opp m e k :
  k < 2 ^ 53 -> fle (Zpos m) e k 0 ->
  ftruncz (Round (S754_finite true m e)) = - ftruncz (Round (S754_finite false m e)) /\
  finite (Round (S754_finite true m e)) /\ finite (Round (S754_finite false m e)).
Proof.
  intros Hk H. unfold Round. destruct (Z.leb_spec 0 e) as [He|He]; [done|].
  pose proof (Round_quotient m e k He H) as Q. set (q := _ / _) in *.
  destruct (Z.eqb_spec q 0) as [E|E]; [done|]. cbn [cond_Zopp].
  destruct (fofz_between q) as [F1 _]; [lia|]. destruct (fofz_between (- q)) as [F2 _]; [lia|].
  rewrite !ftruncz_fofz by lia. done.
Qed.

Lemma Round_fbetween x a b :
  - 2 ^ 53 < a -> b < 2 ^ 53 -> fbetween x a b -> a <= ftruncz (Round x) <= b /\ finite (Round x).
Proof.
  intros Ha Hb (F & L & G). destruct x as [s| | |[] m e]; try done; cbn [fnum fst snd cond_Zopp] in L, G.
  - rewrite fle_int in L, G. cbn. lia.
  - rewrite <- (Z.opp_involutive a), fle_opp in L. rewrite <- (Z.opp_involutive b), fle_opp in G.
    pose proof (fle_pos _ _ _ L). destruct (Round_opp m e (- a)) as (-> & F1 & _); [lia|done|]. split; [|done].
    assert (- b <= - a) by (apply fle_int; by eapply fle_trans).
    destruct (Round_between (S754_finite false m e) (Z.max 0 (- b)) (- a)) as [R _]; [lia|lia|done|done| |lia].
    cbn. destruct (Z.max_spec 0 (- b)) as [[_ ->]|[_ ->]]; [done|]. apply fle_zero_l; lia.
  - pose proof (fle_pos _ _ _ G). destruct (Round_opp m e b) as (_ & _ & F1); [lia|done|]. split; [|done].
    assert (a <= b) by (apply fle_int; by eapply fle_trans).
    destruct (Round_between (S754_finite false m e) (Z.max 0 a) b) as [R _]; [lia|lia|done|done| |lia].
    cbn. destruct (Z.max_spec 0 a) as [[_ ->]|[_ ->]]; [done|]. apply fle_zero_l; lia.
Qed.

Lemma Round_valid x : valid x -> valid (Round x).
Proof.
  intros V. destruct x as [s| | |s m e]; try done. unfold Round. destruct (0 <=? e); [done|].
  destruct (_ ==? 0); [done|apply fofz_valid].
Qed.

Lemma Round_nan x : x <> S754_nan -> Round x <> S754_nan.
Proof.
  intros N. destruct x as [s| | |s m e]; try done. unfold Round. destruct (0 <=? e); [done|]. destruct (_ ==? 0); [done|].
  unfold fofz. destruct (cond_Zopp s _); cbn [binary_normalize]; [done|apply binary_round_sign..].
Qed.

(** ** The damping envelope *)

(** The clamp of a rounded weight to the contract's range. *)
Definition clampRange (r : float64) : float64 :=
  let r := if flt r (fofz 0) then fofz 0 else r in if flt (fofz 100) r then fofz 100 else r.

Lemma flt_false_between x n : valid x -> finite x -> flt x (fofz n) = false -> - 2 ^ 53 < n < 2 ^ 53 -> fle n 0 (fnum x).1 (fnum x).2.
Proof.
  intros V F H Hn. destruct (fofz_between n Hn) as (Fn & L & _).
  eapply fle_trans; [exact L|]. by apply SFltb_false_le; [|apply fofz_valid| | |].
Qed.

Lemma flt_false_between_r x n : valid x -> finite x -> flt (fofz n) x = false -> - 2 ^ 53 < n < 2 ^ 53 -> fle (fnum x).1 (fnum x).2 n 0.
Proof.
  intros V F H Hn. destruct (fofz_between n Hn) as (Fn & _ & G).
  eapply fle_trans; [|exact G]. by apply SFltb_false_le; [apply fofz_valid| | | |].
Qed.

Lemma flt_true_between x n : valid x -> finite x -> flt (fofz n) x = true -> - 2 ^ 53 < n < 2 ^ 53 -> fle n 0 (fnum x).1 (fnum x).2.
Proof.
  intros V F H Hn. destruct (fofz_between n Hn) as (Fn & L & _).
  eapply fle_trans; [exact L|]. by apply SFltb_true_le; [apply fofz_valid| | | |].
Qed.

Lemma ftruncz_ge x a : 0 <= a -> finite x -> fle a 0 (fnum x).1 (fnum x).2 -> a <= ftruncz x.
Proof.
  intros Ha F L. destruct x as [s| | |[] m e]; try done; cbn [fnum fst snd cond_Zopp] in L.
  - rewrite fle_int in L. cbn. lia.
  - exfalso. rewrite <- (Z.opp_involutive a), fle_opp in L. pose proof (fle_pos _ _ _ L). lia.
  - cbn. destruct (Z.leb_spec 0 e).
    + apply (fle_base 0) in L; [|lia..]. rewrite !Z.sub_0_r, Z.pow_0_r, Z.mul_1_r in *. lia.
    + apply (fle_base e) in L; [|lia..]. rewrite Z.sub_diag, Z.pow_0_r in *. replace (0 - e) with (- e) in * by lia.
      pose proof (Z.pow_pos_nonneg 2 (- e) ltac:(lia) ltac:(lia)). apply Z.div_le_lower_bound; lia.
Qed.

(** The range, whatever is clamped; and a window around the number kept by it. *)
Lemma clampRange_spec r :
  valid r -> r <> S754_nan ->
  0 <= ftruncz (clampRange r) <= 100 /\
  (finite r -> (ftruncz (clampRange r) = 0 /\ ftruncz r <= 0) \/ (ftruncz (clampRange r) = 100 /\ 100 <= ftruncz r) \/ ftruncz (clampRange r) = ftruncz r).
Proof.
  intros V N. unfold clampRange. destruct (flt r (fofz 0)) eqn:E0.
  { assert (flt (fofz 100) (fofz 0) = false) as -> by (by vm_compute). cbn. split; [lia|]. intros F. left. split; [done|].
    unfold flt, SFltb in E0. destruct r as [s| | |[] m e]; cbn in E0; try done. cbn.
    destruct (Z.leb_spec 0 e).
    - pose proof (Z.pow_pos_nonneg 2 e ltac:(lia) ltac:(lia)). lia.
    - pose proof (Z.pow_pos_nonneg 2 (- e) ltac:(lia) ltac:(lia)). pose proof (Z.div_pos (Zpos m) (2 ^ (- e)) ltac:(lia) ltac:(lia)). lia. }
  destruct (flt (fofz 100) r) eqn:E1.
  { assert (ftruncz (fofz 100) = 100) as -> by (by vm_compute). split; [lia|]. intros F. right; left. split; [done|].
    apply ftruncz_ge; [lia|done|]. by apply flt_true_between. }
  assert (F : finite r).
  { destruct r as [|[]| |]; try done; unfold flt, SFltb in *; cbn in E0, E1; done. }
  split; [|auto]. pose proof (flt_false_between r 0 V F E0 ltac:(lia)) as L. pose proof (flt_false_between_r r 100 V F E1 ltac:(lia)) as G.
  split; [by apply ftruncz_ge|]. destruct r as [s| | |[] m e]; try done; cbn [fnum fst snd cond_Zopp] in L, G.
  by apply (ftruncz_between m e 0).
Qed.

(** Sums and differences of a weight and a step are exact. *)
Definition exactInt (x : float64) (n : Z) : bool :=
  match x with
  | S754_zero _ => n ==? 0
  | S754_finite s m e => (e <=? 0) && (cond_Zopp s (Zpos m) ==? n * 2 ^ (- e))
  | _ => false
  end.

Definition exactSteps (p m : Z) : bool := exactInt (fadd (fofz p) (fofz m)) (p + m) && exactInt (fsub (fofz p) (fofz m)) (p - m).

Lemma exactInt_between x n : exactInt x n = true -> fbetween x n n.
Proof.
  intros H. destruct x as [s| | |s m e]; cbn in H; try done.
  - apply Z.eqb_eq in H as ->. split; [done|]. split; by apply fle_same.
  - split_bools. split; [done|]. cbn [fnum fst snd]. rewrite !(fle_base e) by lia.
    rewrite Z.sub_diag, Z.pow_0_r. replace (0 - e) with (- e) by lia. lia.
Qed.

Lemma exactSteps_all : forallb (fun p => forallb (exactSteps p) (seqZ 0 101)) (seqZ 0 101) = true.
Proof. by vm_compute. Qed.

Lemma step_bounds p m :
  0 <= p <= 100 -> 0 <= m <= 100 ->
  fbetween (fadd (fofz p) (fofz m)) (p + m) (p + m) /\ fbetween (fsub (fofz p) (fofz m)) (p - m) (p - m).
Proof.
  intros Hp Hm. pose proof exactSteps_all as A. rewrite forallb_forall in A. specialize (A p). rewrite forallb_forall in A.
  assert (exactSteps p m = true) as X.
  { apply A; apply list_elem_of_In, elem_of_seqZ; lia. }
  unfold exactSteps in X. apply andb_true_iff in X as [X1 X2]. by split; apply exactInt_between.
Qed.

Lemma fbetween_weaken x a b a' b' : fbetween x a b -> a' <= a -> b <= b' -> fbetween x a' b'.
Proof.
  intros (F & L & G) Ha Hb. split; [done|]. split; [eapply fle_trans; [|exact L]|eapply fle_trans; [exact G|]]; by apply fle_same.
Qed.

Lemma binary_normalize_nan m e z : binary_normalize 53 1024 m e z <> S754_nan.
Proof. destruct m; cbn [binary_normalize]; [done|apply binary_round_sign..]. Qed.

Lemma fadd_fsub_nan x y : finite x -> finite y -> fadd x y <> S754_nan /\ fsub x y <> S754_nan.
Proof.
  intros Fx Fy. destruct x as [[]| | |sx mx ex], y as [[]| | |sy my ey]; try done; split; try done; apply binary_normalize_nan.
Qed.

(** A number that neither comparison of the step clamp caught lies in the window. *)
Lemma between_comparisons s lo hi a b :
  valid s -> valid lo -> valid hi -> s <> S754_nan -> fbetween hi b b -> fbetween lo a a ->
  flt hi s = false -> flt s lo = false -> fbetween s a b.
Proof.
  intros Vs Vl Vh N (Fh & _ & Gh) (Fl & Ll & _) E1 E2.
  assert (F : finite s).
  { destruct s as [|[]| |]; try done; unfold flt, SFltb in E1, E2.
    - by destruct lo as [|[]| |].
    - by destruct hi as [|[]| |]. }
  split; [done|]. split.
  - eapply fle_trans; [exact Ll|]. by apply SFltb_false_le.
  - eapply fle_trans; [|exact Gh]. by apply SFltb_false_le.
Qed.

(** One epoch moves a weight within the damping envelope: the new weight is between
    0 and 100 and differs from the previous one by at most the configured step; a
    held weight is the previous one.  For every raw weight and smoothing factor
    whose average is a number. *)
Lemma dampStep_envelope raw prevW cfg :
  0 <= prevW <= 100 -> 0 < MaxStepPct cfg < two32w -> valid raw -> valid (EwmaAlpha cfg) -> IsNaN (ewma raw prevW cfg) = false ->
  let d := dampStep raw prevW cfg in
  0 <= dW d <= 100 /\ Z.abs (dW d - prevW) <= MaxStepPct cfg /\ (dHeld d = true -> dW d = prevW).
Proof.
  intros Hp Hm Vr Va N d.
  assert (Vs : valid (ewma raw prevW cfg)).
  { apply fadd_valid; apply fmul_valid; try done; [|apply fofz_valid]. apply fsub_valid; [apply fofz_valid|done]. }
  unfold d, dampStep. destruct (fleb _ _); [cbn; lia|].
  set (s := ewma raw prevW cfg) in *. set (hi := fadd (fofz prevW) (fofz (MaxStepPct cfg))). set (lo := fsub (fofz prevW) (fofz (MaxStepPct cfg))).
  assert (Vhi : valid hi) by (apply fadd_valid; apply fofz_valid). assert (Vlo : valid lo) by (apply fsub_valid; apply fofz_valid).
  set (pr := if flt hi s then (hi, true) else if flt s lo then (lo, true) else (s, false)).
  assert (P : valid pr.1 /\ pr.1 <> S754_nan /\ (MaxStepPct cfg <= 100 -> fbetween pr.1 (prevW - MaxStepPct cfg) (prevW + MaxStepPct cfg))).
  { assert (Fs : MaxStepPct cfg <= 100 -> fbetween hi (prevW + MaxStepPct cfg) (prevW + MaxStepPct cfg) /\
        fbetween lo (prevW - MaxStepPct cfg) (prevW - MaxStepPct cfg)) by (intros H; apply step_bounds; lia).
    destruct (fofz_between prevW) as [F1 _]; [lia|]. destruct (fofz_between (MaxStepPct cfg)) as [F2 _]; [unfold two32w in Hm; lia|].
    destruct (fadd_fsub_nan _ _ F1 F2) as [Nh Nl]. unfold pr. destruct (flt hi s) eqn:E1; [|destruct (flt s lo) eqn:E2]; cbn [fst].
    - split; [done|]. split; [done|]. intros H. eapply fbetween_weaken; [by apply Fs|lia..].
    - split; [done|]. split; [done|]. intros H. eapply fbetween_weaken; [by apply Fs|lia..].
    - assert (Ns : s <> S754_nan) by (by destruct s). split; [done|]. split; [done|]. intros H.
      by eapply between_comparisons; [| | | |apply Fs|apply Fs| |]. }
  destruct pr as [s' cl]. cbn in P. destruct P as (V & Nn & B). cbn zeta. fold (clampRange (Round s')). cbn [dW dHeld].
  destruct (clampRange_spec (Round s') (Round_valid _ V) (Round_nan _ Nn)) as [R1 R2].
  unfold two32w. rewrite Z.mod_small by lia. split; [done|]. split; [|done].
  destruct (decide (MaxStepPct cfg <= 100)) as [H|H]; [|lia].
  destruct (Round_fbetween s' (prevW - MaxStepPct cfg) (prevW + MaxStepPct cfg)) as [R3 F]; [lia|lia|by apply B|].
  destruct (R2 F) as [[E ?]|[[E ?]|E]]; rewrite E; lia.
Qed.

(** ** A decision epoch *)

(** A smoothing factor in (0,1], or one that selects the default. *)
Definition factor_ok (a : float64) : Prop :=
  fleb a (fofz 0) = true \/ (positive_number a /\ mag_le a 1 0).

Lemma ewma_is_number raw prevW cfg :
  positive_number (EwmaAlpha cfg) -> mag_le (EwmaAlpha cfg) 1 0 -> raw <> S754_nan -> 0 <= prevW <= 100 ->
  IsNaN (ewma raw prevW cfg) = false.
Proof.
  intros (_ & ma & ea & Ea) Ha Nr Hp. unfold ewma.
  assert (M1 : mag_le (fsub (fofz 1) (EwmaAlpha cfg)) 1 0) by (apply one_minus_unit; [by rewrite Ea|done]).
  assert (M2 : mag_le (fofz prevW) 100 0).
  { destruct (decide (prevW = 0)) as [->|]; [by vm_compute|]. apply (fofz_bounds prevW 100 0); [lia..|]. apply fle_same. lia. }
  destruct (fmul_le _ _ 100 ltac:(lia) M1 M2) as [B _]. set (y := fmul (fsub (fofz 1) (EwmaAlpha cfg)) (fofz prevW)) in *.
  assert (Nx : fmul (EwmaAlpha cfg) raw <> S754_nan).
  { rewrite Ea. destruct raw as [| | |sr mr er]; try done. by apply (round_aux_sign (xorb false sr)). }
  destruct (fmul (EwmaAlpha cfg) raw) as [sx|sx| |sx mx ex] eqn:Ex; [|by destruct y|done|].
  - by destruct y as [sy| | |sy my ey]; cbn in B; try done; destruct sx; try destruct sy.
  - destruct y as [sy| | |sy my ey]; cbn in B; try done.
    destruct (fadd_fsub_nan (S754_finite sx mx ex) (S754_finite sy my ey) I I) as [N _]. by destruct (fadd _ _).
Qed.

Lemma default_factor_ok : positive_number DefaultEwmaAlpha /\ mag_le DefaultEwmaAlpha 1 0.
Proof. split; [split; [by vm_compute|]; by eexists _, _|by vm_compute]. Qed.

Lemma factor_default cfg :
  factor_ok (EwmaAlpha cfg) -> positive_number (EwmaAlpha (engineDefaults cfg)) /\ mag_le (EwmaAlpha (engineDefaults cfg)) 1 0.
Proof.
  unfold engineDefaults. cbn [EwmaAlpha]. intros [->|[P M]]; [apply default_factor_ok|]. destruct (fleb _ _); [apply default_factor_ok|done].
Qed.

(** The anchors of the roles are priors. *)
Lemma maxPrior_positive cfg samples (l : list (string * Host)) acc :
  (forall ip h, (ip, h) ∈ l -> positive_number (ServingThroughputPrior h)) ->
  (forall r p, acc !! r = Some p -> positive_number p) ->
  let mp := foldl (maxPriorStep cfg samples) acc l in
  (forall r p, mp !! r = Some p -> positive_number p) /\
  (forall ip h, (ip, h) ∈ l -> isHard cfg samples ip = false -> is_Some (mp !! Role h)) /\ (forall r, is_Some (acc !! r) -> is_Some (mp !! r)).
Proof.
  revert acc. induction l as [|[ip h] l IH]; intros acc Hl Ha; cbn [foldl].
  { split; [done|]. split; [|done]. intros ip h I. by apply not_elem_of_nil in I. }
  assert (Ph : positive_number (ServingThroughputPrior h)) by (apply (Hl ip); by left).
  set (acc' := maxPriorStep cfg samples acc (ip, h)).
  assert (Ha' : forall r p, acc' !! r = Some p -> positive_number p).
  { intros r p. unfold acc', maxPriorStep. destruct (_ && _); [|apply Ha]. intros [[_ <-]|[_ H]]%lookup_insert_Some; [done|by eapply Ha]. }
  assert (Hm : forall r, is_Some (acc !! r) -> is_Some (acc' !! r)).
  { intros r H. unfold acc', maxPriorStep. destruct (_ && _); [|done]. destruct (decide (r = Role h)) as [->|]; [by rewrite lookup_insert_eq|].
    by rewrite lookup_insert_ne. }
  assert (Hh : isHard cfg samples ip = false -> is_Some (acc' !! Role h)).
  { intros E. unfold acc', maxPriorStep. rewrite E. cbn [negb andb]. destruct (acc !! Role h) as [p|] eqn:El; cbn [default].
    - destruct (flt _ _); [by rewrite lookup_insert_eq|by rewrite El].
    - destruct Ph as (_ & m & e & ->). cbn. by rewrite lookup_insert_eq. }
  destruct (IH acc') as (I1 & I2 & I3); [intros ip' h' I; apply (Hl ip'); by right|done|].
  split; [done|]. split; [|naive_solver]. intros ip' h' [E|I]%elem_of_cons Hd; [|by eapply I2]. injection E as -> ->. by apply I3, Hh.
Qed.

Lemma base_weight_number p mp : positive_number p -> positive_number mp -> let raw := fdiv (fmul (fofz 100) p) mp in valid raw /\ raw <> S754_nan.
Proof.
  intros (Vp & m & e & ->) (Vq & m' & e' & ->) raw. split.
  - apply fdiv_valid; [|done]. apply fmul_valid; [apply fofz_valid|done].
  - unfold raw. rewrite hundred_is. unfold fmul, SFmul. set (x := binary_round_aux _ _ _ _ _ _).
    destruct (round_aux_sign (xorb false false) (Zpos (7036874417766400 * m)) (-46 + e) loc_Exact ltac:(lia)) as [_ N]. fold x in N.
    destruct x as [s|s| |s mx ex]; try done. by apply fdiv_finite.
Qed.

Definition host_order_ok (ord : hostOrder) : Prop := forall m, ord m ≡ₚ map_to_list m.

Lemma host_order_elem ord hosts ip h : host_order_ok ord -> (ip, h) ∈ ord hosts <-> hosts !! ip = Some h.
Proof. intros O. rewrite (O hosts). apply elem_of_map_to_list. Qed.

Lemma host_order_NoDup ord hosts : host_order_ok ord -> NoDup (ord hosts).*1.
Proof. intros O. rewrite (O hosts). apply NoDup_fst_map_to_list. Qed.

Lemma host_order_keys ord hosts ip : host_order_ok ord -> ip ∈ (ord hosts).*1 <-> is_Some (hosts !! ip).
Proof.
  intros O. rewrite list_elem_of_fmap. split.
  - intros ([ip' h] & -> & I). apply host_order_elem in I; [|done]. eauto.
  - intros [h E]. exists (ip, h). split; [done|]. by apply host_order_elem.
Qed.

Lemma emit_lookup cfg samples lmc prev mp (l : list (string * Host)) acc ip :
  NoDup l.*1 ->
  (foldl (emitStep cfg samples lmc prev mp) acc l).1 !! ip =
    match list_find (fun p => p.1 = ip) l with
    | Some (_, (_, h)) => Some (dW (emitOne cfg samples lmc prev mp ip h))
    | None => acc.1 !! ip
    end.
Proof.
  revert acc. induction l as [|[ip' h] l IH]; intros [out [he cl]] N; [done|]. cbn [foldl]. apply NoDup_cons in N as [N1 N2].
  rewrite IH by done. cbn [list_find]. destruct (decide ((ip', h).1 = ip)) as [E|E].
  - cbn in E. subst ip'. destruct (list_find (fun p => p.1 = ip) l) as [[i [k h']]|] eqn:F.
    + apply list_find_Some in F as (F1 & F2 & _). cbn in F2. subst k. exfalso. apply N1.
      apply list_elem_of_fmap. exists (ip, h'). split; [done|]. by apply list_elem_of_lookup_2 in F1.
    + cbn. by rewrite lookup_insert_eq.
  - cbn in E. destruct (list_find (fun p => p.1 = ip) l) as [[i [k h']]|]; [done|]. cbn. by rewrite lookup_insert_ne.
Qed.

Lemma emit_lookup_host cfg samples lmc prev mp ord hosts ip h :
  host_order_ok ord -> hosts !! ip = Some h ->
  (foldl (emitStep cfg samples lmc prev mp) (∅, (0, 0)) (ord hosts)).1 !! ip = Some (dW (emitOne cfg samples lmc prev mp ip h)).
Proof.
  intros O E. rewrite emit_lookup by (by apply host_order_NoDup).
  destruct (list_find (fun p => p.1 = ip) (ord hosts)) as [[i [k h']]|] eqn:F.
  - apply list_find_Some in F as (F1 & F2 & _). cbn in F2. subst k. apply list_elem_of_lookup_2 in F1.
    apply host_order_elem in F1; [|done]. by assert (h' = h) as -> by congruence.
  - exfalso. apply list_find_None in F. rewrite Forall_forall in F. apply (F (ip, h)); [by apply host_order_elem|done].
Qed.

(** The points a cost term may add: at most 100, or a value that selects the default. *)
Definition points_ok (p : float64) : Prop := fleb p (fofz 0) = true \/ (positive_number p /\ mag_le p 100 0).

Lemma points_default p d : points_ok p -> positive_number d -> mag_le d 100 0 ->
  let q := if fleb p (fofz 0) then d else p in positive_number q /\ mag_le q 100 0.
Proof. intros [->|[P M]] Pd Md; [done|]. by destruct (fleb _ _). Qed.

Lemma default_points : positive_number (fofz 15) /\ mag_le (fofz 15) 100 0.
Proof. split; [split; [by vm_compute|]; by eexists _, _|by vm_compute]. Qed.

(** What the theorems on an epoch assume: positive finite priors, weights of the last
    epoch in range, a step and a smoothing factor in range; and of a cost term that is
    on, readings that are finite numbers and points within the scale. *)
Record epoch_ok (reg : Registry) (prev : gmap string Z) (cfg : EngineConfig) (lmc : option (gmap string lmcSample)) : Prop := {
  eo_prior : forall ip h, Hosts reg !! ip = Some h -> positive_number (ServingThroughputPrior h);
  eo_prev : forall ip w, prev !! ip = Some w -> 0 <= w <= 100;
  eo_step : 0 <= MaxStepPct cfg < two32w;
  eo_factor : factor_ok (EwmaAlpha cfg);
  eo_lmc : LmcCostEnabled cfg = true -> readings_ok lmc /\ points_ok (LmcMaxPts cfg);
  eo_ttft : TtftEnabled cfg = true -> ttft_inputs_ok cfg /\ points_ok (TtftMaxPts cfg) }.

(** A number and a finite term, clamped to the scale. *)
Lemma adjusted_number raw t : valid raw -> raw <> S754_nan -> valid t -> finite t ->
  let r := clamp (fadd raw t) (fofz 1) (fofz 100) in valid r /\ r <> S754_nan.
Proof.
  intros V N Vt Ft r. assert (Na : fadd raw t <> S754_nan).
  { destruct raw as [[]|[]| |sr mr er] eqn:E; try done; [by destruct t as [[]|[]| |]..|by apply (fadd_fsub_nan (S754_finite sr mr er) t)]. }
  destruct (clamp_finite (fadd raw t) (fofz 1) (fofz 100) (fadd_valid _ _ V Vt) Na (fofz_valid 1) I (fofz_valid 100) I) as [Vr Fr].
  split; [done|]. fold r in Fr. by destruct r.
Qed.

Lemma rawWeight_number c lmc mp ip h :
  (LmcCostEnabled c = true -> readings_ok lmc /\ positive_number (LmcMaxPts c)) ->
  (TtftEnabled c = true -> ttft_inputs_ok c /\ positive_number (TtftMaxPts c) /\ mag_le (TtftMaxPts c) 100 0) ->
  (let base := fdiv (fmul (fofz 100) (ServingThroughputPrior h)) (default (fofz 0) (mp !! Role h)) in valid base /\ base <> S754_nan) ->
  valid (rawWeight c lmc mp ip h) /\ rawWeight c lmc mp ip h <> S754_nan.
Proof.
  intros HL HT [V N]. unfold rawWeight. set (base := fdiv _ _) in *. cbn zeta.
  assert (W : let r := if LmcCostEnabled c then clamp (fadd base (lmcCostTerm ip lmc c)) (fofz 1) (fofz 100) else base in valid r /\ r <> S754_nan).
  { destruct (LmcCostEnabled c) eqn:E; [|done]. destruct (HL eq_refl) as [R P]. destruct (lmcCostTerm_finite ip lmc c R P) as [Vt Ft].
    by apply adjusted_number. }
  destruct W as [V1 N1]. destruct (TtftEnabled c) eqn:E; cbn [andb]; [|done]. destruct (bool_decide _); [|done].
  destruct (HT eq_refl) as (R & P & M). destruct (ttftCostTerm_finite ip c R P M) as [Vt Ft]. by apply adjusted_number.
Qed.

Lemma emitOne_envelope reg samples lmc prev cfg ord ip h :
  host_order_ok ord -> epoch_ok reg prev cfg lmc -> Hosts reg !! ip = Some h ->
  let c := engineDefaults cfg in
  let mp := foldl (maxPriorStep c samples) ∅ (ord (Hosts reg)) in
  let w := dW (emitOne c samples lmc prev mp ip h) in
  0 <= w <= 100 /\ Z.abs (w - default 100 (prev !! ip)) <= MaxStepPct c.
Proof.
  intros O [Hpri Hprev Hstep Hfac Hlmc Httft] E c mp w.
  assert (Hp : 0 <= default 100 (prev !! ip) <= 100) by (destruct (prev !! ip) eqn:P; cbn; [by eapply Hprev|lia]).
  destruct (factor_default cfg Hfac) as [Fa Ma]. fold c in Fa, Ma.
  assert (Hs : 0 < MaxStepPct c < two32w).
  { unfold c, engineDefaults, DefaultMaxStepPct. cbn [MaxStepPct]. destruct (Z.eqb_spec (MaxStepPct cfg) 0); unfold two32w in *; lia. }
  assert (G : forall raw, valid raw -> raw <> S754_nan ->
    let d := dampStep raw (default 100 (prev !! ip)) c in 0 <= dW d <= 100 /\ Z.abs (dW d - default 100 (prev !! ip)) <= MaxStepPct c).
  { intros raw V N. destruct (dampStep_envelope raw (default 100 (prev !! ip)) c) as (A & B & _); try done.
    - apply Fa.
    - by apply ewma_is_number. }
  unfold w, emitOne. destruct (isFresh c samples ip) eqn:Fr; cbn [negb]; [|by apply G; [apply fofz_valid|vm_compute]].
  destruct (maxPrior_positive c samples (ord (Hosts reg)) ∅) as (M1 & M2 & _).
  { intros ip' h' I. eapply Hpri. by apply host_order_elem in I. }
  { intros r p H. by rewrite lookup_empty in H. }
  fold mp in M1, M2. destruct (M2 ip h) as [p Hmp]; [by apply host_order_elem| |].
  { unfold isFresh, isHard in *. by destruct (stalenessOf c (samples !! ip)). }
  destruct (rawWeight_number c lmc mp ip h) as [V N]; [..|by apply G].
  - intros EL. destruct (Hlmc EL) as [R P]. split; [done|]. apply (points_default _ _ P); apply default_points.
  - intros ET. destruct (Httft ET) as [R P]. split; [done|]. apply (points_default _ _ P); apply default_points.
  - rewrite Hmp. apply (base_weight_number (ServingThroughputPrior h) p); [by eapply Hpri|by eapply M1].
Qed.

(** An epoch that decides gives each host of the registry its own verdict, and no one else. *)
Lemma ComputeWeights_entry ord1 ord2 ord3 reg samples prev cfg lmc out ip :
  host_order_ok ord3 -> (ComputeWeights ord1 ord2 ord3 reg samples prev cfg lmc).1 = Some out ->
  let c := engineDefaults cfg in
  out !! ip = (fun h => dW (emitOne c samples lmc prev (foldl (maxPriorStep c samples) ∅ (ord2 (Hosts reg))) ip h)) <$> Hosts reg !! ip.
Proof.
  intros O3 H c. unfold ComputeWeights in H. fold c in H. destruct (_ ==? 0); [done|].
  set (mp := foldl (maxPriorStep c samples) ∅ (ord2 (Hosts reg))) in *.
  destruct (foldl (emitStep c samples lmc prev mp) (∅, (0, 0)) (ord3 (Hosts reg))) as [out' [he cl]] eqn:Fo.
  cbn [fst] in H. injection H as <-. destruct (Hosts reg !! ip) as [h|] eqn:E; cbn.
  - pose proof (emit_lookup_host c samples lmc prev mp ord3 (Hosts reg) ip h O3 E) as L. by rewrite Fo in L.
  - pose proof (emit_lookup c samples lmc prev mp (ord3 (Hosts reg)) (∅, (0, 0)) ip (host_order_NoDup ord3 _ O3)) as L. rewrite Fo in L. cbn in L.
    rewrite L. destruct (list_find (fun p => p.1 = ip) (ord3 (Hosts reg))) as [[i [k h']]|] eqn:F; [|apply lookup_empty].
    exfalso. apply list_find_Some in F as (F1 & F2 & _). cbn in F2. subst k. apply list_elem_of_lookup_2 in F1.
    apply host_order_elem in F1; [|done]. congruence.
Qed.

(** An epoch that decides nothing saw no fresh source. *)
Lemma ComputeWeights_none ord1 ord2 ord3 reg samples prev cfg lmc ip h :
  host_order_ok ord1 -> (ComputeWeights ord1 ord2 ord3 reg samples prev cfg lmc).1 = None ->
  Hosts reg !! ip = Some h -> isFresh (engineDefaults cfg) samples ip = false.
Proof.
  intros O1 H E. unfold ComputeWeights in H. set (c := engineDefaults cfg) in *.
  destruct (Z.eqb_spec (Z.of_nat (length (List.filter (isFresh c samples) (ord1 (Hosts reg)).*1))) 0) as [Z0|Z0].
  2: { by destruct (foldl _ _ _) as [? [? ?]]. }
  destruct (isFresh c samples ip) eqn:F; [|done]. exfalso.
  assert (I : In ip (List.filter (isFresh c samples) (ord1 (Hosts reg)).*1)).
  { apply filter_In. split; [|done]. apply list_elem_of_In, host_order_keys; eauto. }
  destruct (List.filter (isFresh c samples) (ord1 (Hosts reg)).*1); [done|]. cbn in Z0. lia.
Qed.

