(* ===== verification/AiLoopProps.v ===== *)
(** * AiLoopProps: the controller's loop, and the applier that listens to it

    The glide of a silent source, the registry that loading establishes, the epochs a
    run emits, and the composition: what the controller emits, the applier accepts. *)

From Stdlib Require Import Ascii String SpecFloat.
From stdpp Require Import base gmap strings list sets sorting.
From S2P Require Import Prelude Classes NetIdText Float64 Float64Order AiCtrl AiCtrlDecay AiCtrlProps AiEngine AiCostProps AiEngineProps.

Open Scope Z_scope.
Open Scope igw_scope.

(** ** The glide of a stale source *)

Definition zeroCfg (now : Z) : EngineConfig :=
  MkEngineConfig now 0 0 (fofz 0) (fofz 0) 0 false (fofz 0) 0 false false (fofz 0) 0 false None (fofz 0) ∅.

Definition glide (w : Z) : Z := dW (dampStep (fofz 100) w (engineDefaults (zeroCfg 0))).

(** With the default damping a weight of 84 or more is held, and a smaller one rises. *)
Lemma glide_all : forallb (fun w => if 84 <=? w then glide w ==? w else (w <? glide w) && (glide w <=? 100)) (seqZ 0 101) = true.
Proof. by vm_compute. Qed.

Lemma glide_step w : 0 <= w <= 100 -> if 84 <=? w then glide w = w else w < glide w <= 100.
Proof.
  intros Hw. pose proof glide_all as A. rewrite forallb_forall in A.
  specialize (A w ltac:(apply list_elem_of_In, elem_of_seqZ; lia)). destruct (84 <=? w); split_bools; done.
Qed.

(** The glide toward neutral of a source that stays silent ends, and it ends at a weight
    of 84 or more, not at 100: the dead band holds what is left. *)
Lemma glide_settles w : 0 <= w <= 100 -> exists n, 84 <= Nat.iter n glide w <= 100 /\ forall k, (n <= k)%nat -> Nat.iter k glide w = Nat.iter n glide w.
Proof.
  remember (Z.to_nat (100 - w)) as d eqn:D. revert w D. induction d as [d IH] using lt_wf_ind. intros w D Hw.
  pose proof (glide_step w Hw) as G. destruct (Z.leb_spec 84 w) as [H|H].
  - exists 0%nat. split; [cbn; lia|]. intros k _. cbn. induction k as [|k IHk]; [done|]. rewrite Nat.iter_succ, IHk. done.
  - destruct (IH (Z.to_nat (100 - glide w)) ltac:(lia) (glide w) eq_refl ltac:(lia)) as (n & B & S).
    exists (Datatypes.S n). rewrite Nat.iter_succ_r. split; [done|]. intros k Hk. destruct k as [|k]; [lia|].
    rewrite Nat.iter_succ_r. apply S. lia.
Qed.

Lemma glide_stops_short : Nat.iter 100 glide 20 = 86.
Proof. by vm_compute. Qed.

(** ** The registry that loading establishes *)

Definition registry_ok (reg : Registry) : Prop :=
  forall ip1 ip2 h1 h2, Hosts reg !! ip1 = Some h1 -> Hosts reg !! ip2 = Some h2 -> EpIdx h1 = EpIdx h2 -> ip1 = ip2.

Definition loadedHosts (hosts : list (string * option Host)) : list (string * Host) :=
  omap (fun p => match p.2 with Some h => Some (p.1, h) | None => None end) hosts.

Lemma validateHosts_None sha hosts seenIdx :
  validateHosts sha hosts seenIdx = None ->
  NoDup ((fun p => EpIdx p.2) <$> loadedHosts hosts) /\
  Forall (fun p => seenIdx !! EpIdx p.2 = None /\ fleb (ServingThroughputPrior p.2) (fofz 0) = false) (loadedHosts hosts).
Proof.
  revert seenIdx. induction hosts as [|[ip [h|]] hosts IH]; intros seenIdx H; cbn [validateHosts] in H; [by split; constructor| |done].
  change (loadedHosts ((ip, Some h) :: hosts)) with ((ip, h) :: loadedHosts hosts).
  destruct (negb (Role h ==s RolePrefill) && _); [done|]. destruct (GPUModel h ==s ""); [done|]. destruct (_ || _); [done|].
  destruct (ExpectedNumGPUBlocks h ==? 0); [done|]. destruct (fleb (ServingThroughputPrior h) (fofz 0)) eqn:P; [done|].
  destruct (seenIdx !! EpIdx h) eqn:Sx; [done|].
  assert (V : validateHosts sha hosts (<[EpIdx h := ip]> seenIdx) = None).
  { destruct (hCalibration h); [|done]. by destruct (calValidate _ _). }
  destruct (IH _ V) as [N F]. split.
  - rewrite fmap_cons. apply NoDup_cons. split; [|done]. intros (p & E & I)%list_elem_of_fmap. rewrite Forall_forall in F.
    destruct (F p I) as [F1 _]. rewrite <- E in F1. cbn in F1. by rewrite lookup_insert_eq in F1.
  - constructor; [done|]. eapply Forall_impl; [exact F|]. intros p [F1 F2]. split; [|done].
    by apply lookup_insert_None in F1 as [F1 _].
Qed.

Lemma NoDup_fmap_inj {A B} (f : A -> B) (l : list A) x y : NoDup (f <$> l) -> x ∈ l -> y ∈ l -> f x = f y -> x = y.
Proof.
  induction l as [|a l IH]; intros N Hx Hy E; [by apply not_elem_of_nil in Hx|].
  rewrite fmap_cons in N. apply NoDup_cons in N as [N1 N2]. apply elem_of_cons in Hx as [->|Hx], Hy as [->|Hy]; [done| | |by apply IH].
  - exfalso. apply N1. rewrite E. by apply list_elem_of_fmap_2.
  - exfalso. apply N1. rewrite <- E. by apply list_elem_of_fmap_2.
Qed.

(** A registry that loads gives no index twice and no prior that is zero or negative. *)
Lemma LoadRegistry_ok sha version key period hosts reg :
  NoDup hosts.*1 -> LoadRegistry sha version key period hosts = inl reg ->
  registry_ok reg /\ forall ip h, Hosts reg !! ip = Some h -> fleb (ServingThroughputPrior h) (fofz 0) = false.
Proof.
  intros N H. unfold LoadRegistry in H. destruct (regValidate _ _ _ _ _) eqn:V; [done|]. injection H as <-.
  unfold regValidate in V. destruct (negb (version ==? 1)); [done|]. destruct (key ==s ""); [done|]. destruct (period <=? 0); [done|].
  destruct (bool_decide _); [done|]. destruct (validateHosts_None _ _ _ V) as [D F]. fold (loadedHosts hosts).
  assert (I : forall ip h, (list_to_map (loadedHosts hosts) : gmap string Host) !! ip = Some h -> (ip, h) ∈ loadedHosts hosts)
    by (intros ip h; apply elem_of_list_to_map_2).
  split.
  - intros ip1 ip2 h1 h2 E1%I E2%I E. by injection (NoDup_fmap_inj _ _ _ _ D E1 E2 E).
  - intros ip h E%I. rewrite Forall_forall in F. by destruct (F _ E).
Qed.

(** A prior that is not a number loads, since no comparison with it holds. *)
Lemma nan_prior_loads sha gpu :
  gpu <> "" -> exists reg, LoadRegistry sha 1 "svc" 10 [("10.0.0.1", Some (MkHost gpu RolePrefill 8000 0 1000 S754_nan None))] = inl reg.
Proof.
  intros G. unfold LoadRegistry, regValidate. cbn. rewrite (proj2 (String.eqb_neq gpu "") G). eauto.
Qed.

(** ** Runs of the decision loop *)

Record tickIn := TickIn {
  tOrd1 : hostOrder; tOrd2 : hostOrder; tOrd3 : hostOrder; tOrdB : hostOrder; tNonce : string; tInvert : bool;
  tSamples : gmap string (option Z); tLmc : option (gmap string lmcSample); tCfg : EngineConfig }.

Definition loopTick (l : ctrlLoop) (t : tickIn) : ctrlLoop * option Snapshot :=
  decisionTick (tOrd1 t) (tOrd2 t) (tOrd3 t) (tOrdB t) (tNonce t) (tInvert t) (tSamples t) (tLmc t) (tCfg t) l.

Fixpoint loopRun (l : ctrlLoop) (ts : list tickIn) : ctrlLoop * list Snapshot :=
  match ts with
  | [] => (l, [])
  | t :: ts =>
      let '(l, s) := loopTick l t in let '(l, ss) := loopRun l ts in (l, match s with Some s => s :: ss | None => ss end)
  end.

Definition startLoop (uuid : string) (reg : Registry) (cfg : GeneratorConfig) : ctrlLoop := MkCtrlLoop ∅ (NewGenerator uuid reg cfg).

(** What a tick assumes of its inputs, for the registry of the loop. *)
Record tick_ok (reg : Registry) (t : tickIn) : Prop := {
  to_orders : host_order_ok (tOrd1 t) /\ host_order_ok (tOrd2 t) /\ host_order_ok (tOrd3 t) /\ host_order_ok (tOrdB t);
  to_prior : forall ip h, Hosts reg !! ip = Some h -> positive_number (ServingThroughputPrior h);
  to_step : 0 <= MaxStepPct (tCfg t) < two32w;
  to_factor : factor_ok (EwmaAlpha (tCfg t));
  to_lmc : LmcCostEnabled (tCfg t) = true -> readings_ok (tLmc t) /\ points_ok (LmcMaxPts (tCfg t));
  to_ttft : TtftEnabled (tCfg t) = true -> ttft_inputs_ok (tCfg t) /\ points_ok (TtftMaxPts (tCfg t)) }.

Definition weights_ok (w : gmap string Z) : Prop := forall ip v, w !! ip = Some v -> 0 <= v <= 100.

Lemma fold_min_max (w0 : Z) (ws : list Z) w :
  w ∈ w0 :: ws -> foldl Z.min w0 ws <= w <= foldl Z.max w0 ws /\ (forall a b, Forall (fun x => a <= x <= b) (w0 :: ws) -> a <= foldl Z.min w0 ws /\ foldl Z.max w0 ws <= b).
Proof.
  assert (G : forall ws lo hi, foldl Z.min lo ws <= lo /\ hi <= foldl Z.max hi ws /\ (forall x, x ∈ ws -> foldl Z.min lo ws <= x <= foldl Z.max hi ws) /\
    (forall a b, a <= lo -> hi <= b -> Forall (fun x => a <= x <= b) ws -> a <= foldl Z.min lo ws /\ foldl Z.max hi ws <= b)).
  { clear. induction ws as [|x ws IH]; intros lo hi; cbn [foldl].
    { split_and!; [lia|lia| |by intros]. intros x Hx. by apply not_elem_of_nil in Hx. }
    destruct (IH (Z.min lo x) (Z.max hi x)) as (I1 & I2 & I3 & I4). split_and!; [lia|lia| |].
    - intros y [->|Hy]%elem_of_cons; [lia|by apply I3].
    - intros a b Ha Hb F. apply Forall_cons in F as [Fx F]. apply I4; [lia|lia|done]. }
  intros Hw. destruct (G ws w0 w0) as (G1 & G2 & G3 & G4). split.
  - apply elem_of_cons in Hw as [->|Hw]; [lia|by apply G3].
  - intros a b F. apply Forall_cons in F as [F0 F]. apply G4; [lia|lia|done].
Qed.

Lemma invertWeights_ok reg w stale : weights_ok w -> weights_ok (invertWeights reg w stale).
Proof.
  intros H. unfold invertWeights. destruct ((List.filter _ (map_to_list w)).*2) as [|w0 ws] eqn:E; [done|].
  assert (Fa : Forall (fun x => 0 <= x <= 100) (w0 :: ws)).
  { rewrite <- E. apply Forall_forall. intros x ([ip v] & -> & I%list_elem_of_In%filter_In)%list_elem_of_fmap.
    destruct I as [I%list_elem_of_In%elem_of_map_to_list _]. by apply (H ip). }
  intros ip v. rewrite map_lookup_imap. destruct (w !! ip) as [x|] eqn:X; cbn; [|done].
  destruct (freshPrefill reg stale ip) eqn:Fp; intros [= <-]; [|by apply (H ip)].
  assert (I : x ∈ w0 :: ws).
  { rewrite <- E. apply list_elem_of_fmap. exists (ip, x). split; [done|]. apply list_elem_of_In, filter_In.
    split; [|done]. apply list_elem_of_In. by apply elem_of_map_to_list. }
  destruct (fold_min_max w0 ws x I) as [B1 B2]. destruct (B2 0 100 Fa) as [B3 B4]. unfold two32w. rewrite Z.mod_small; lia.
Qed.

(** ** What a tick does *)

Lemma Maybe_cases ord nonce now w s fs g g' o :
  Maybe ord nonce now w s fs g = (g', o) ->
  gReg g' = gReg g /\ gBootID g' = gBootID g /\ gCfg g' = gCfg g /\
  match o with
  | None => g' = g
  | Some snap => snap = buildSnapshot ord nonce now (normWeights (gReg g) w) (normStates (gReg g) s) g /\
      gEpoch g' = u64 (gEpoch g + 1) /\ gLastEmit g' = now /\ fs = false
  end.
Proof.
  unfold Maybe. destruct fs; [by intros [= <- <-]|]. cbn zeta. destruct (gEmitted g && _); by intros [= <- <-].
Qed.

Lemma loopTick_spec reg l t l' o :
  gReg (clGen l) = reg -> weights_ok (clPrev l) -> tick_ok reg t -> loopTick l t = (l', o) ->
  gReg (clGen l') = reg /\ gBootID (clGen l') = gBootID (clGen l) /\ gCfg (clGen l') = gCfg (clGen l) /\ weights_ok (clPrev l') /\
  match o with
  | None => gEpoch (clGen l') = gEpoch (clGen l)
  | Some snap => gEpoch (clGen l') = u64 (gEpoch (clGen l) + 1) /\
      exists w, weights_ok w /\ snap = buildSnapshot (tOrdB t) (tNonce t) (eNow (tCfg t)) (normWeights reg w) (normStates reg ∅) (clGen l)
  end.
Proof.
  intros R W [(O1 & O2 & O3 & O4) Tp Ts Tf Tl Tt] T. unfold loopTick, decisionTick in T.
  pose proof (Build_epoch_ok reg (clPrev l) (tCfg t) (tLmc t) Tp W Ts Tf Tl Tt) as Ok. rewrite R in T.
  destruct (ComputeWeights _ _ _ _ _ _ _ _) as [[out|] stats] eqn:C; [|by simplify_eq].
  assert (Wo : weights_ok out).
  { intros ip v Hv. rewrite (ComputeWeights_entry _ _ _ _ _ _ _ _ out ip O3 (f_equal fst C)) in Hv.
    apply fmap_Some in Hv as (h & Eh & ->). exact (proj1 (emitOne_envelope reg _ (tLmc t) _ _ _ ip h O2 Ok Eh)). }
  set (emitW := if tInvert t then invertWeights reg out (StaleSources stats) else out) in T.
  assert (We : weights_ok emitW) by (unfold emitW; destruct (tInvert t); [by apply invertWeights_ok|done]).
  destruct (Maybe _ _ _ _ _ _ _) as [g' o'] eqn:M. injection T as <- <-. cbn.
  destruct (Maybe_cases _ _ _ _ _ _ _ _ _ M) as (M1 & M2 & M3 & M4). rewrite R in M1, M4. split_and!; try done.
  destruct o' as [snap|]; [|by rewrite M4]. destruct M4 as (-> & M5 & _). split; [done|]. exists emitW. done.
Qed.

(** The epochs of a run count its emissions. *)
Lemma loopRun_epochs reg l ts l' snaps :
  gReg (clGen l) = reg -> weights_ok (clPrev l) -> Forall (tick_ok reg) ts -> 0 <= gEpoch (clGen l) ->
  gEpoch (clGen l) + Z.of_nat (length ts) < two64 -> loopRun l ts = (l', snaps) ->
  gReg (clGen l') = reg /\ gBootID (clGen l') = gBootID (clGen l) /\ gCfg (clGen l') = gCfg (clGen l) /\ weights_ok (clPrev l') /\
  gEpoch (clGen l') = gEpoch (clGen l) + Z.of_nat (length snaps) /\ (length snaps <= length ts)%nat /\
  (forall s, s ∈ snaps -> gEpoch (clGen l) < GetEpoch s <= gEpoch (clGen l')).
Proof.
  revert l snaps. induction ts as [|t ts IH]; intros l snaps R W F E0 E1 H; cbn [loopRun] in H.
  { simplify_eq. cbn. split_and!; try done; try lia. intros s Hs. by apply not_elem_of_nil in Hs. }
  apply Forall_cons in F as [Ft F]. destruct (loopTick l t) as [l1 o] eqn:T.
  destruct (loopTick_spec reg l t l1 o R W Ft T) as (R1 & B1 & C1 & W1 & O1). destruct (loopRun l1 ts) as [l2 ss] eqn:L.
  cbn [length] in E1. destruct o as [snap|]; injection H as <- <-.
  - destruct O1 as (Ep & w & _ & Sn). rewrite u64_id in Ep by (unfold two64 in *; lia).
    destruct (IH l1 ss R1 W1 F ltac:(lia) ltac:(lia) L) as (R2 & B2 & C2 & W2 & G2 & L2 & S2).
    rewrite B2, C2, G2, Ep. cbn [length]. split_and!; try done; try lia. intros s [->|Hs]%elem_of_cons; [|specialize (S2 s Hs); lia].
    rewrite Sn. cbn. rewrite u64_id by (unfold two64 in *; lia). lia.
  - destruct (IH l1 ss R1 W1 F ltac:(lia) ltac:(lia) L) as (R2 & B2 & C2 & W2 & G2 & L2 & S2).
    rewrite B2, C2, G2, O1. cbn [length]. split_and!; try done; try lia. intros s Hs. specialize (S2 s Hs). lia.
Qed.

(** ** What is built passes validation *)

Lemma built_service_valid reg ord w known idxs :
  registry_ok reg -> host_order_ok ord -> weights_ok w -> known !! rServiceKey reg = Some idxs ->
  (forall ip h, Hosts reg !! ip = Some h -> EpIdx h ∈ idxs) ->
  service_valid known (MkServiceSnapshot (rServiceKey reg)
    (map (epEntryOf (normWeights reg w) (normStates reg ∅)) (merge_sort idxLe (ord (Hosts reg))))).
Proof.
  intros R O W K I. exists idxs. cbn. split; [done|].
  assert (P : merge_sort idxLe (ord (Hosts reg)) ≡ₚ map_to_list (Hosts reg)) by (rewrite merge_sort_Permutation; apply O).
  assert (M : forall p, p ∈ merge_sort idxLe (ord (Hosts reg)) -> Hosts reg !! p.1 = Some p.2).
  { intros [ip h] H. rewrite P in H. by apply elem_of_map_to_list in H. }
  split.
  - apply Forall_forall. intros ep (p & <- & Hp)%list_elem_of_In%in_map_iff. apply list_elem_of_In, M in Hp.
    unfold entry_valid, epEntryOf. cbn. split; [by eapply I|].
    unfold normWeights, normStates. rewrite !map_lookup_imap, Hp. cbn. unfold normWeight.
    split; [destruct (w !! p.1) eqn:X; cbn; [by apply W in X as [_ ?]|lia]|].
    unfold normState, EP_STATE_ACTIVE. rewrite lookup_empty. lia.
  - replace (GetEpIdx <$> map (epEntryOf (normWeights reg w) (normStates reg ∅)) (merge_sort idxLe (ord (Hosts reg))))
      with ((fun p : string * Host => EpIdx p.2) <$> merge_sort idxLe (ord (Hosts reg))) by (rewrite <- list_fmap_compose; done).
    rewrite P. apply NoDup_fmap_2_strong; [|apply NoDup_map_to_list].
    intros [ip1 h1] [ip2 h2] H1%elem_of_map_to_list H2%elem_of_map_to_list E. cbn in E.
    assert (ip1 = ip2) as -> by (by eapply R). by assert (h1 = h2) as -> by congruence.
Qed.

(** C18: What the controller emits, the applier accepts: a snapshot that a run of the
    decision loop emits passes the validation of every applier that knows the
    registry's endpoints and has accepted, of this controller, nothing or an earlier
    snapshot of the run, while its clock is at least a millisecond before the
    snapshot's deadline of three epoch periods and the deadline within ten of its
    decay windows. The runs are those from a fresh loop, of fewer than 2^63 ticks,
    over a registry that gives no endpoint index twice, in which every tick meets
    [tick_ok]: priors are positive finite numbers (the registry also loads a NaN one,
    [nan_prior_loads]), the damping step fits uint32, the smoothing factor is in
    (0,1] or selects its default, and each of the two optional cost terms is off or
    has finite readings (below 2^500), a confidence that is not NaN and points that
    are at most 100 or select their default. *)
Theorem emitted_snapshots_are_accepted uuid reg gcfg ts l snaps t l' snap known idxs boot epoch now window :
  registry_ok reg -> Forall (tick_ok reg) ts -> tick_ok reg t -> Z.of_nat (length ts) < two63 ->
  loopRun (startLoop uuid reg gcfg) ts = (l, snaps) -> loopTick l t = (l', Some snap) ->
  known !! rServiceKey reg = Some idxs -> (forall ip h, Hosts reg !! ip = Some h -> EpIdx h ∈ idxs) ->
  (boot = uuid -> epoch = 0 \/ exists s, s ∈ snaps /\ GetEpoch s = epoch) ->
  0 < window -> 10 * window < two63 ->
  let deadline := eNow (tCfg t) + 3 * EpochPeriod (generatorDefaults gcfg (Some reg)) in
  in_i64 (3 * EpochPeriod (generatorDefaults gcfg (Some reg))) -> 0 <= deadline < 1000000 * two63 ->
  now + 1000000 <= deadline <= now + 10 * window ->
  ValidateSnapshot (Some snap) known boot epoch now window = None.
Proof.
  intros Rok F Ft Hn L T K I Hb Hw Ht deadline Hi Hd Hnow.
  destruct (loopRun_epochs reg (startLoop uuid reg gcfg) ts l snaps) as (R & B & C & W & E & Ln & Es); try done.
  { cbn. unfold two63, two64 in *. lia. }
  destruct (loopTick_spec reg l t l' (Some snap) R W Ft T) as (_ & _ & _ & _ & Ep & w & Ww & ->).
  cbn [startLoop clGen NewGenerator gBootID gCfg gEpoch] in B, C, E, Es.
  apply ValidateSnapshot_None; [done..|]. unfold snapshot_valid, deadlineOf, buildSnapshot. cbn.
  rewrite B, C, R, (i64_id (3 * _)) by done. fold deadline. unfold TimeUnixMilli.
  pose proof (Z.div_mod deadline 1000000 ltac:(lia)) as Dm. pose proof (Z.mod_pos_bound deadline 1000000 ltac:(lia)) as Db.
  assert (0 <= deadline / 1000000 < two63) by (split; [apply Z.div_pos; lia|apply Z.div_lt_upper_bound; lia]).
  rewrite (u64_id (deadline / 1000000)), i64_id by (unfold in_i64, two63, two64 in *; lia). unfold UnixMilli.
  assert (U : u64 (gEpoch (clGen l) + 1) = Z.of_nat (length snaps) + 1) by (rewrite E; apply u64_id; unfold two63, two64 in *; lia).
  split; [unfold ApplierVersion, snapshotMinApplierVersion; lia|]. split; [|split; [lia|]].
  - intros Eb. rewrite U. destruct (Hb (eq_sym Eb)) as [->|(s & Is & <-)]; [lia|]. specialize (Es s Is). lia.
  - constructor; [|constructor]. apply (built_service_valid _ _ _ _ idxs); try done. apply (to_orders _ _ Ft).
Qed.

(** ** The heartbeat *)

(** With fresh sources a snapshot goes out whenever the gap and the re-anchor interval
    have both passed, whether or not the output changed. *)
Lemma heartbeat ord nonce now w s g :
  MinEpochGap (gCfg g) <= timeSub now (gLastEmit g) -> ReanchorEvery (gCfg g) <= timeSub now (gLastEmit g) ->
  is_Some (Maybe ord nonce now w s false g).2.
Proof.
  intros H1 H2. unfold Maybe. cbn zeta. rewrite (proj2 (Z.ltb_ge _ (MinEpochGap (gCfg g)))) by done.
  rewrite (proj2 (Z.ltb_ge _ (ReanchorEvery (gCfg g)))), andb_false_r by done. cbn [orb]. rewrite andb_false_r. done.
Qed.

(** The default of the re-anchor interval is one epoch period. *)
Lemma reanchor_default gcfg reg :
  ReanchorEvery gcfg <= 0 -> ReanchorEvery (generatorDefaults gcfg (Some reg)) = EpochPeriod (generatorDefaults gcfg (Some reg)).
Proof. intros H. unfold generatorDefaults. cbn [ReanchorEvery EpochPeriod]. by rewrite (proj2 (Z.leb_le (ReanchorEvery gcfg) 0)). Qed.

(** ** A controller of two hosts *)

Definition exHost (idx : Z) (prior : float64) : Host := MkHost "L4" RolePrefill 8000 idx 1000 prior None.
Definition exReg : Registry :=
  MkRegistry 1 "10.0.0.9:80:tcp" 10 {["10.0.0.1" := exHost 0 (fofz 1); "10.0.0.2" := exHost 1 (fofz 2)]} ∅.
Definition exOrder : hostOrder := map_to_list.
Definition exTick (at_ : Z) : tickIn :=
  TickIn exOrder exOrder exOrder exOrder "n" false {["10.0.0.1" := Some at_; "10.0.0.2" := Some at_]} None (zeroCfg at_).
Definition exGen : GeneratorConfig := MkGeneratorConfig 0 0 0.

Lemma exOrder_ok : host_order_ok exOrder.
Proof. intros m. reflexivity. Qed.

Lemma exReg_prior ip h : Hosts exReg !! ip = Some h -> positive_number (ServingThroughputPrior h).
Proof.
  cbn. intros [[<- <-]|[_ H]]%lookup_insert_Some; [split; [by vm_compute|by eexists _, _]|].
  apply lookup_singleton_Some in H as [<- <-]. split; [by vm_compute|by eexists _, _].
Qed.

Lemma exReg_ok : registry_ok exReg.
Proof.
  intros ip1 ip2 h1 h2 H1 H2. cbn in H1, H2.
  apply lookup_insert_Some in H1 as [[<- <-]|[_ H1]], H2 as [[<- <-]|[_ H2]]; try done;
    try apply lookup_singleton_Some in H1 as [<- <-]; try apply lookup_singleton_Some in H2 as [<- <-]; done.
Qed.

Lemma exTick_in at_ : tick_ok exReg (exTick at_).
Proof. constructor; cbn; try done; [repeat split; apply exOrder_ok|intros ip h; apply exReg_prior|by left]. Qed.

Lemma exReg_idx ip h : Hosts exReg !! ip = Some h -> EpIdx h ∈ [0; 1; 2].
Proof.
  cbn [Hosts exReg]. intros [[<- <-]|[_ H]]%lookup_insert_Some; [by left|].
  apply lookup_singleton_Some in H as [<- <-]. right. by left.
Qed.

(** An epoch with both cost terms on. *)
Definition exCostCfg : EngineConfig :=
  MkEngineConfig 0 0 0 (fofz 0) (fofz 0) 0 true (fofz 0) 0 false true (fofz 0) 0 false
    (Some (MkTtftModel 1 [TtftFeatIntercept; TtftFeatKvCacheUsagePerc] [fofz 0; fofz 1] true)) (fofz 1)
    {["10.0.0.1" := MkTtftEpochFeatures (MkTtftFeatures (fofz 0) (fofz 0) (flit 1 2) (fofz 0) (fofz 0)) (Some 0)]}.
Definition exLmc : option (gmap string lmcSample) :=
  Some {["10.0.0.1" := MkLmcSample {[FamilyLMCacheRetrieveHitRate := flit 1 2]} (Some 0)]}.

Lemma exCost_ok : epoch_ok exReg {["10.0.0.1" := 85]} exCostCfg exLmc.
Proof.
  constructor; cbn; try done; [intros ip h; apply exReg_prior|intros ip w [<- <-]%lookup_singleton_Some; lia|by left|intros _; split; [|by left]..].
  - intros l ip s k v [= <-] [<- <-]%lookup_singleton_Some H. cbn [lsRaw] in H. apply lookup_singleton_Some in H as [<- <-]. by split; vm_compute.
  - split_and!; [|intros ip ef H; cbn [TtftFeats exCostCfg] in H; apply lookup_singleton_Some in H as [<- <-]; by vm_compute|by vm_compute|done]. intros m [= <-]. repeat constructor; by vm_compute.
Qed.


Lemma emitted_accepted_witness :
  let r := loopRun (startLoop "boot" exReg exGen) [exTick (100 * Second)] in
  let s := loopTick r.1 (exTick (110 * Second)) in
  exists snap, s.2 = Some snap /\ GetEpoch snap = 2 /\
    ValidateSnapshot (Some snap) {["10.0.0.9:80:tcp" := [0; 1; 2]]} "boot" 1 (111 * Second) (30 * Second) = None.
Proof.
  intros r s. assert (X : option_map GetEpoch s.2 = Some 2) by (by vm_compute). assert (Y : map GetEpoch r.2 = [1]) by (by vm_compute).
  destruct (s.2) as [snap|] eqn:E; [|discriminate X]. exists snap. split; [reflexivity|]. injection X as X. split; [exact X|].
  apply (emitted_snapshots_are_accepted "boot" exReg exGen [exTick (100 * Second)] r.1 r.2 (exTick (110 * Second)) s.1 snap _ [0; 1; 2]).
  - apply exReg_ok.
  - constructor; [apply exTick_in|constructor].
  - apply exTick_in.
  - by vm_compute.
  - apply surjective_pairing.
  - rewrite <- E. apply surjective_pairing.
  - by vm_compute.
  - exact exReg_idx.
  - intros _. right. destruct r.2 as [|s1 ss]; [discriminate Y|]. exists s1. split; [apply list_elem_of_here|]. injection Y as Y _. exact Y.
  - by vm_compute.
  - by vm_compute.
  - split; by vm_compute.
  - split; by vm_compute.
  - split; by vm_compute.
Defined.
