(* ===== verification/AiServer.v ===== *)
(** * AiServer: the controller's snapshot server

    cmd/loxilb-ai-controller/server.go.  A stream is the object its handler and the
    broadcast loop share: its buffered channel, oldest entry first, where the handler
    stands, and what it has sent.  Critical sections, channel operations and the end
    of a send are one step each, in the order the goroutines happen to take them; the
    decision loop is the only caller of Broadcast.  What a send came to, and the order
    of a range over the watchers, are inputs.  Hooks and log lines are left out. *)

From Stdlib Require Import Ascii String.
From stdpp Require Import base gmap strings list sets.
From S2P Require Import Prelude Classes NetIdText JsonTok AiCtrl.

Open Scope Z_scope.
Open Scope igw_scope.

Definition defaultWatcherBuf : nat := 4.
Definition ackRingSize : nat := 256.
Definition maxGatewayIDs : nat := 128.

(** ** The label of a gateway *)

Definition gwByte (c : ascii) : bool :=
  byteBetween "a" "z" c || byteBetween "A" "Z" c || byteBetween "0" "9" c ||
  bool_decide (c = "."%char) || bool_decide (c = "_"%char) || bool_decide (c = "-"%char) || bool_decide (c = ":"%char).

(** ReplaceAllString with one underscore per character outside the class; a
    multi-byte sequence is one character, and so is a byte that starts none. *)
Fixpoint sanitizeFrom (skip : nat) (s : string) : string :=
  match s with
  | EmptyString => ""
  | String c r =>
      match skip with
      | S n => sanitizeFrom n r
      | O => if gwByte c then String c (sanitizeFrom 0 r)
             else String "_" (sanitizeFrom (match runeLen s with Some n => Nat.pred n | None => 0 end) r)
      end
  end.

Definition gwIDSanitize (id : string) : string := sanitizeFrom 0 id.

Definition boundGatewayID (id : string) (gwIDs : gset string) : gset string * string :=
  let id := gwIDSanitize id in
  let id := if (64 <? String.length id)%nat then String.substring 0 64 id else id in
  if id ==s "" then (gwIDs, "unknown")
  else if bool_decide (id ∈ gwIDs) then (gwIDs, id)
  else if (maxGatewayIDs <=? size gwIDs)%nat then (gwIDs, "other")
  else ({[id]} ∪ gwIDs, id).

(** ** Acknowledgements *)

Record ackRecord := AckRecord { arGateway : string; arEpoch : Z; arStatus : Z; arDetail : string; arAt : Z }.

Definition ACK_APPLIED : Z := 1.
Definition ACK_REJECTED : Z := 2.

Record ackBook := AckBook {
  acks : list ackRecord; ackNext : nat; ackCount : nat; applied : gmap string Z; rejected : gmap string Z; gwIDs : gset string }.

Definition noAck : ackRecord := AckRecord "" 0 0 "" 0.
Definition newAckBook : ackBook := AckBook (replicate ackRingSize noAck) 0 0 ∅ ∅ ∅.

Definition bump (k : string) (m : gmap string Z) : gmap string Z := <[k := u64 (default 0 (m !! k) + 1)]> m.

Definition AckSnapshot (gateway : string) (epoch status : Z) (detail : string) (now : Z) (b : ackBook) : ackBook :=
  let '(ids, gw) := boundGatewayID gateway (gwIDs b) in
  AckBook (<[ackNext b := AckRecord gw epoch status detail now]> (acks b))
    ((ackNext b + 1) mod ackRingSize)%nat
    (if (ackCount b <? ackRingSize)%nat then S (ackCount b) else ackCount b)
    (if status ==? ACK_APPLIED then bump gw (applied b) else applied b)
    (if status ==? ACK_REJECTED then bump gw (rejected b) else rejected b)
    ids.

Definition setIDs (ids : gset string) (b : ackBook) : ackBook :=
  AckBook (acks b) (ackNext b) (ackCount b) (applied b) (rejected b) ids.

(** The acknowledgements kept, oldest first. *)
Definition ackHistory (b : ackBook) : list ackRecord :=
  let start := if (ackCount b =? ackRingSize)%nat then ackNext b else 0%nat in
  omap (fun i => acks b !! ((start + i) mod ackRingSize)%nat) (seq 0 (ackCount b)).

(** ** Streams *)

(** A handler sends a snapshot, waits in its select, or has returned. *)
Inductive handlerPc := HSend (snap : Snapshot) | HWait | HEnd.

Record stream := Stream {
  sGateway : string; sCh : list Snapshot; sPc : handlerPc; sentBoot : string; sentEpoch : Z;
  sOut : list Snapshot  (* what was sent, in order *) }.

Definition setCh (ch : list Snapshot) (t : stream) : stream :=
  Stream (sGateway t) ch (sPc t) (sentBoot t) (sentEpoch t) (sOut t).
Definition setPc (pc : handlerPc) (t : stream) : stream :=
  Stream (sGateway t) (sCh t) pc (sentBoot t) (sentEpoch t) (sOut t).

(** A send that succeeded. *)
Definition markSent (snap : Snapshot) (t : stream) : stream :=
  Stream (sGateway t) (sCh t) HWait (GetBootId snap) (GetEpoch snap) (sOut t ++ [snap]).

(** The broadcast in progress: the snapshot, the watchers still to be offered it and
    whether the first of them had a full buffer at the last attempt. *)
Record offering := Offering { oSnap : Snapshot; oRest : list Z; oFull : bool }.

Record snapshotServer := Server {
  watcherBuf : nat;
  sLast : option Snapshot;
  watchers : gset Z;             (* registered streams *)
  streams : gmap Z stream;
  nextID : Z;
  sDropped : gmap string Z;
  bcast : option offering;
  book : ackBook }.

Definition newSnapshotServer (buf : Z) : snapshotServer :=
  Server (if buf <=? 0 then defaultWatcherBuf else Z.to_nat buf) None ∅ ∅ 0 ∅ None newAckBook.

Definition setStreams (m : gmap Z stream) (s : snapshotServer) : snapshotServer :=
  Server (watcherBuf s) (sLast s) (watchers s) m (nextID s) (sDropped s) (bcast s) (book s).
Definition setBcast (b : option offering) (s : snapshotServer) : snapshotServer :=
  Server (watcherBuf s) (sLast s) (watchers s) (streams s) (nextID s) (sDropped s) b (book s).

Definition setBook (b : ackBook) (s : snapshotServer) : snapshotServer :=
  Server (watcherBuf s) (sLast s) (watchers s) (streams s) (nextID s) (sDropped s) (bcast s) b.

Definition offers (snap : Snapshot) (ws : list Z) : option offering :=
  match ws with [] => None | _ => Some (Offering snap ws false) end.

(** Broadcast, up to its first offer. *)
Definition Broadcast (snap : Snapshot) (ord : gset Z -> list Z) (s : snapshotServer) : snapshotServer :=
  Server (watcherBuf s) (Some snap) (watchers s) (streams s) (nextID s) (sDropped s) (offers snap (ord (watchers s))) (book s).

Definition bumpDropped (gateway : string) (s : snapshotServer) : snapshotServer :=
  Server (watcherBuf s) (sLast s) (watchers s) (streams s) (nextID s)
    (bump gateway (sDropped s)) (bcast s) (book s).

(** One select of offer: the send, or the removal of the oldest entry after a send
    that found the buffer full. *)
Definition offer (s : snapshotServer) : snapshotServer :=
  match bcast s with
  | None => s
  | Some (Offering snap [] _) => setBcast None s
  | Some (Offering snap (id :: rest) full) =>
      match streams s !! id with
      | None => setBcast (offers snap rest) s
      | Some t =>
          if full then
            match sCh t with
            | [] => setBcast (Some (Offering snap (id :: rest) false)) s
            | _ :: ch => setBcast (Some (Offering snap (id :: rest) false)) (bumpDropped (sGateway t) (setStreams (<[id := setCh ch t]> (streams s)) s))
            end
          else if (length (sCh t) <? watcherBuf s)%nat
          then setBcast (offers snap rest) (setStreams (<[id := setCh (sCh t ++ [snap]) t]> (streams s)) s)
          else setBcast (Some (Offering snap (id :: rest) true)) s
      end
  end.

(** A stream that starts: registration, with the snapshot of that instant to send. *)
Definition register (gatewayID : string) (s : snapshotServer) : snapshotServer :=
  let '(ids, gateway) := boundGatewayID gatewayID (gwIDs (book s)) in
  let id := u64 (nextID s + 1) in
  let t := Stream gateway [] (match sLast s with Some snap => HSend snap | None => HWait end) "" 0 [] in
  Server (watcherBuf s) (sLast s) ({[id]} ∪ watchers s) (<[id := t]> (streams s)) id (sDropped s) (bcast s) (setIDs ids (book s)).

(** The handler returns; its deferred unregister runs. *)
Definition unregister (id : Z) (t : stream) (s : snapshotServer) : snapshotServer :=
  Server (watcherBuf s) (sLast s) (watchers s ∖ {[id]}) (<[id := setPc HEnd t]> (streams s)) (nextID s) (sDropped s) (bcast s) (book s).

(** The arm of the handler's select that takes a snapshot. *)
Definition takeNext (id : Z) (s : snapshotServer) : snapshotServer :=
  match streams s !! id with
  | None => s
  | Some t =>
      match sPc t, sCh t with
      | HWait, snap :: ch =>
          let pc := if (GetBootId snap ==s sentBoot t) && (GetEpoch snap <=? sentEpoch t) then HWait else HSend snap in
          setStreams (<[id := setPc pc (setCh ch t)]> (streams s)) s
      | _, _ => s
      end
  end.

(** sendWithTimeout comes to an end: sent, or failed or out of time. *)
Definition sendDone (id : Z) (ok : bool) (s : snapshotServer) : snapshotServer :=
  match streams s !! id with
  | None => s
  | Some t =>
      match sPc t with
      | HSend snap => if ok then setStreams (<[id := markSent snap t]> (streams s)) s else unregister id t s
      | _ => s
      end
  end.

(** The arm of the select for a stream whose context ended. *)
Definition streamDone (id : Z) (s : snapshotServer) : snapshotServer :=
  match streams s !! id with
  | None => s
  | Some t => match sPc t with HWait => unregister id t s | _ => s end
  end.

Inductive srvInput :=
  | SBroadcast (snap : Snapshot) (ord : gset Z -> list Z)
  | SOffer
  | SConnect (gatewayID : string)
  | STake (id : Z)
  | SSent (id : Z) (ok : bool)
  | SDone (id : Z)
  | SAck (gateway : string) (epoch status : Z) (detail : string) (now : Z).

(** Broadcast runs to its end before the loop calls it again. *)
Definition srvStep (s : snapshotServer) (i : srvInput) : snapshotServer :=
  match i with
  | SBroadcast snap ord => match bcast s with None => Broadcast snap ord s | Some _ => s end
  | SOffer => offer s
  | SConnect gw => register gw s
  | STake id => takeNext id s
  | SSent id ok => sendDone id ok s
  | SDone id => streamDone id s
  | SAck gw epoch status detail now => setBook (AckSnapshot gw epoch status detail now (book s)) s
  end.

Definition srvRun (s : snapshotServer) (ins : list srvInput) : snapshotServer := foldl srvStep s ins.
