(* ===== verification/AiServerProps.v ===== *)
(** * AiServerProps: what the gateways receive

    The invariant of the snapshot server under every interleaving of its goroutines,
    the composition with the decision loop that feeds it, and the book of
    acknowledgements. *)

From Stdlib Require Import Ascii String.
From stdpp Require Import base gmap strings list sets sorting.
From S2P Require Import Prelude Classes NetIdText JsonTok Float64 AiCtrl AiCtrlProps AiEngine AiEngineProps AiLoopProps AiServer.

Open Scope Z_scope.
Open Scope igw_scope.

(** ** What a stream holds *)

(** Sent, in hand and queued, in that order. *)
Definition trail (t : stream) : list Snapshot :=
  sOut t ++ match sPc t with HSend snap => [snap] | _ => [] end ++ sCh t.

(** The broadcast in progress has not offered its snapshot to this stream yet. *)
Definition still_offered (s : snapshotServer) (id : Z) : Prop :=
  match bcast s with Some o => id ∈ oRest o | None => False end.

(** The snapshots of one controller process, in the order of their epochs. *)
Definition one_boot (boot : string) (hist : list Snapshot) : Prop :=
  Forall (fun x => GetBootId x = boot /\ 0 < GetEpoch x) hist /\ StronglySorted (fun x y => GetEpoch x < GetEpoch y) hist.

Definition sent_mark (t : stream) : Prop :=
  match last (sOut t) with
  | Some x => sentBoot t = GetBootId x /\ sentEpoch t = GetEpoch x
  | None => sentBoot t = "" /\ sentEpoch t = 0
  end.

Definition stream_ok (hist : list Snapshot) (s : snapshotServer) (id : Z) (t : stream) : Prop :=
  trail t `sublist_of` hist /\ (still_offered s id -> trail t `sublist_of` removelast hist) /\
  (id ∈ watchers s -> still_offered s id \/ last (trail t) = last hist) /\ sent_mark t /\ (length (sCh t) <= watcherBuf s)%nat.

Record srv_inv (hist : list Snapshot) (s : snapshotServer) : Prop := {
  si_last : sLast s = last hist;
  si_buf : (0 < watcherBuf s)%nat;
  si_dom : forall id, id ∈ watchers s -> is_Some (streams s !! id);
  si_ids : forall id, is_Some (streams s !! id) -> id <= nextID s;
  si_next : 0 <= nextID s;
  si_bcast : forall o, bcast s = Some o -> NoDup (oRest o) /\ last hist = Some (oSnap o) /\ forall id, id ∈ oRest o -> is_Some (streams s !! id);
  si_streams : forall id t, streams s !! id = Some t -> stream_ok hist s id t }.

(** ** Lists *)

Lemma Forall_sublist {A} (P : A -> Prop) l1 l2 : l1 `sublist_of` l2 -> Forall P l2 -> Forall P l1.
Proof. rewrite !Forall_forall. intros S F x Hx. apply F. by eapply elem_of_sublist. Qed.

Lemma StronglySorted_sublist {A} (R : A -> A -> Prop) l1 l2 : l1 `sublist_of` l2 -> StronglySorted R l2 -> StronglySorted R l1.
Proof.
  induction 1 as [|x l1 l2 H IH|x l1 l2 H IH]; intros S; [done| |].
  - apply StronglySorted_inv in S as [S F]. constructor; [by apply IH|]. by eapply Forall_sublist.
  - apply StronglySorted_inv in S as [S F]. by apply IH.
Qed.

Lemma last_removelast {A} (l : list A) x : last l = Some x -> l = removelast l ++ [x].
Proof. intros (l' & ->)%last_Some. by rewrite removelast_last. Qed.

Lemma StronglySorted_middle {A} (R : A -> A -> Prop) (l1 l2 : list A) x y :
  StronglySorted R (l1 ++ y :: l2) -> last l1 = Some x -> R x y.
Proof.
  intros S (l & ->)%last_Some. rewrite <- app_assoc in S.
  induction l as [|a l IH]; cbn in S; apply StronglySorted_inv in S as [S F]; [|by apply IH]. by apply Forall_cons in F as [F _].
Qed.

(** ** Frames *)

Lemma stream_ok_frame hist s s' id t :
  (still_offered s id <-> still_offered s' id) -> (id ∈ watchers s' -> id ∈ watchers s) -> watcherBuf s' = watcherBuf s ->
  stream_ok hist s id t -> stream_ok hist s' id t.
Proof. unfold stream_ok. intros O W -> (A & B & C & D & F). split_and!; [done|naive_solver|naive_solver|done|done]. Qed.

Lemma inv_update hist s id t t' :
  srv_inv hist s -> streams s !! id = Some t -> stream_ok hist s id t' -> srv_inv hist (setStreams (<[id := t']> (streams s)) s).
Proof.
  intros [] E Ok. assert (Dm : forall i, is_Some (<[id := t']> (streams s) !! i) <-> is_Some (streams s !! i)).
  { intros i. destruct (decide (i = id)) as [->|N]; [rewrite lookup_insert_eq, E; split; eauto|by rewrite lookup_insert_ne]. }
  constructor; cbn [setStreams sLast watcherBuf watchers streams nextID bcast]; try done.
  - intros i Hi. by apply Dm, si_dom0.
  - intros i Hi. by apply si_ids0, Dm.
  - intros o Ho. destruct (si_bcast0 o Ho) as (N & L & D). split_and!; [done..|]. intros i Hi. by apply Dm, D.
  - intros i u [[<- <-]|[N Hu]]%lookup_insert_Some; [exact Ok|]. apply (si_streams0 i u Hu).
Qed.

Lemma inv_book hist s b : srv_inv hist s -> srv_inv hist (setBook b s).
Proof. intros []. by constructor. Qed.

(** ** The operations *)

(** The check for a snapshot already sent never finds one: what is queued is newer
    than what was sent. *)
Lemma queued_is_newer boot hist s id t snap ch :
  one_boot boot hist -> stream_ok hist s id t -> sPc t = HWait -> sCh t = snap :: ch ->
  (GetBootId snap ==s sentBoot t) && (GetEpoch snap <=? sentEpoch t) = false.
Proof.
  intros [Fh Sh] (Sub & _ & _ & M & _) Pc Ch. unfold trail in Sub. rewrite Pc, Ch in Sub. cbn [app] in Sub.
  pose proof (StronglySorted_sublist _ _ _ Sub Sh) as Ss. apply Forall_sublist with (1 := Sub) in Fh. apply Forall_app in Fh as [_ Fs].
  apply Forall_cons in Fs as [[_ Pos] _]. apply andb_false_iff. right. apply Z.leb_gt. unfold sent_mark in M.
  destruct (last (sOut t)) as [x|] eqn:L; destruct M as [_ ->]; [|done]. exact (StronglySorted_middle _ _ _ _ _ Ss L).
Qed.

Lemma takeNext_inv boot hist s id : one_boot boot hist -> srv_inv hist s -> srv_inv hist (takeNext id s).
Proof.
  intros B I. unfold takeNext. destruct (streams s !! id) as [t|] eqn:E; [|done]. destruct (sPc t) eqn:Pc; try done.
  destruct (sCh t) as [|snap ch] eqn:Ch; [done|]. pose proof (si_streams _ _ I id t E) as Ok.
  rewrite (queued_is_newer boot hist s id t snap ch B Ok Pc Ch). eapply inv_update; [done..|].
  destruct Ok as (A & Bd & C & M & Ln). unfold stream_ok, trail, sent_mark in *. cbn. rewrite Pc, Ch in *. split_and!; try done. cbn in Ln. lia.
Qed.

Lemma unregister_inv hist s id t : srv_inv hist s -> streams s !! id = Some t -> srv_inv hist (unregister id t s).
Proof.
  intros I E. assert (Ok : stream_ok hist (unregister id t s) id (setPc HEnd t)).
  { destruct (si_streams _ _ I id t E) as (A & B & _ & M & Ln). unfold stream_ok. cbn [unregister watchers watcherBuf setPc sCh].
    assert (Sub : trail (setPc HEnd t) `sublist_of` trail t).
    { unfold trail. cbn. apply sublist_app; [done|]. apply sublist_inserts_l. done. }
    split_and!; [by etrans|intros O; etrans; [exact Sub|by apply B]|set_solver|done|done]. }
  destruct I. constructor; cbn [unregister sLast watcherBuf watchers streams nextID bcast]; try done.
  - intros i Hi. destruct (decide (i = id)) as [->|N]; [rewrite lookup_insert_eq; eauto|]. rewrite lookup_insert_ne by done. apply si_dom0. set_solver.
  - intros i Hi. destruct (decide (i = id)) as [->|N]; [apply si_ids0; eauto|]. rewrite lookup_insert_ne in Hi by done. by apply si_ids0.
  - intros o Ho. destruct (si_bcast0 o Ho) as (N & L & D). split_and!; [done..|]. intros i Hi.
    destruct (decide (i = id)) as [->|Ni]; [rewrite lookup_insert_eq; eauto|]. rewrite lookup_insert_ne by done. by apply D.
  - intros i u [[<- <-]|[N Hu]]%lookup_insert_Some; [exact Ok|]. eapply stream_ok_frame; [| | |by apply si_streams0]; cbn; [done|set_solver|done].
Qed.

Lemma sendDone_inv hist s id ok : srv_inv hist s -> srv_inv hist (sendDone id ok s).
Proof.
  intros I. unfold sendDone. destruct (streams s !! id) as [t|] eqn:E; [|done]. destruct (sPc t) as [snap| |] eqn:Pc; try done.
  destruct ok; [|by apply unregister_inv]. eapply inv_update; [done..|].
  destruct (si_streams _ _ I id t E) as (A & B & C & M & Ln). unfold stream_ok, trail in *. cbn. rewrite Pc in *.
  rewrite <- !app_assoc in *. cbn [app] in *. split_and!; try done. unfold sent_mark. cbn. by rewrite last_snoc.
Qed.

Lemma streamDone_inv hist s id : srv_inv hist s -> srv_inv hist (streamDone id s).
Proof.
  intros I. unfold streamDone. destruct (streams s !! id) as [t|] eqn:E; [|done]. destruct (sPc t); try done. by apply unregister_inv.
Qed.

Lemma setBcast_inv hist s snap ws full full' :
  srv_inv hist s -> bcast s = Some (Offering snap ws full) -> srv_inv hist (setBcast (Some (Offering snap ws full')) s).
Proof.
  intros I Bc. destruct (si_bcast _ _ I _ Bc) as (N & L & D). destruct I. constructor; cbn [setBcast sLast watcherBuf watchers streams nextID bcast]; try done.
  - intros o [= <-]. done.
  - intros i u Hu. eapply stream_ok_frame; [| | |by apply si_streams0]; cbn; try done. unfold still_offered. by rewrite Bc.
Qed.

Lemma offer_inv hist s : srv_inv hist s -> srv_inv hist (offer s).
Proof.
  intros I. unfold offer. destruct (bcast s) as [[snap [|id rest] full]|] eqn:Bc; [| |done].
  { destruct I. constructor; cbn [setBcast sLast watcherBuf watchers streams nextID bcast]; try done.
    intros i u Hu. eapply stream_ok_frame; [| | |by apply si_streams0]; cbn; try done. unfold still_offered. rewrite Bc. cbn. set_solver. }
  destruct (si_bcast _ _ I _ Bc) as (N & L & D). cbn in N, L, D. destruct (D id) as [t E]; [by left|]. rewrite E.
  assert (P : still_offered s id) by (unfold still_offered; rewrite Bc; by left).
  destruct (si_streams _ _ I id t E) as (A & B & C & M & Ln). destruct full.
  - destruct (sCh t) as [|x ch] eqn:Ch; [by eapply setBcast_inv|].
    assert (I1 : srv_inv hist (setStreams (<[id := setCh ch t]> (streams s)) s)).
    { eapply inv_update; [done..|]. assert (Sub : trail (setCh ch t) `sublist_of` trail t).
      { unfold trail. cbn. rewrite Ch. apply sublist_app; [done|]. apply sublist_app; [done|]. by apply sublist_cons. }
      unfold stream_ok. cbn [setCh sCh]. cbn in Ln. split_and!; [by etrans|intros _; etrans; [exact Sub|by apply B]|by left|done|lia]. }
    destruct I1. constructor; cbn [setBcast bumpDropped setStreams sLast watcherBuf watchers streams nextID bcast] in *; try done.
    + intros o [= <-]. exact (si_bcast0 _ Bc).
    + intros i u Hu. eapply stream_ok_frame; [| | |by apply si_streams0]; cbn; try done. unfold still_offered. cbn. by rewrite Bc.
  - destruct (Nat.ltb_spec (length (sCh t)) (watcherBuf s)) as [Lt|Ge]; [|by eapply setBcast_inv].
    apply NoDup_cons in N as [N1 N2].
    assert (T : trail (setCh (sCh t ++ [snap]) t) = trail t ++ [snap]) by (unfold trail; cbn; by rewrite !app_assoc).
    assert (Ok : forall s', bcast s' = offers snap rest -> watcherBuf s' = watcherBuf s -> stream_ok hist s' id (setCh (sCh t ++ [snap]) t)).
    { intros s' Bs Bu. unfold stream_ok. rewrite T, Bu. cbn [setCh sCh]. split_and!.
      - rewrite (last_removelast hist snap L). apply sublist_app; [by apply B|done].
      - intros Q. exfalso. unfold still_offered in Q. rewrite Bs in Q. destruct rest; [done|]. by apply N1.
      - intros _. right. by rewrite last_snoc, L.
      - exact M.
      - rewrite length_app. cbn. lia. }
    destruct I. constructor; cbn [setBcast setStreams sLast watcherBuf watchers streams nextID bcast]; try done.
    + intros i Hi. destruct (decide (i = id)) as [->|Ni]; [rewrite lookup_insert_eq; eauto|]. rewrite lookup_insert_ne by done. by apply si_dom0.
    + intros i Hi. destruct (decide (i = id)) as [->|Ni]; [apply si_ids0; eauto|]. rewrite lookup_insert_ne in Hi by done. by apply si_ids0.
    + intros o Ho. assert (o = Offering snap rest false) as -> by (destruct rest; by inversion Ho). cbn. split_and!; [done..|].
      intros i Hi. destruct (decide (i = id)) as [->|Ni]; [done|]. rewrite lookup_insert_ne by done. apply D. by right.
    + intros i u [[<- <-]|[Ni Hu]]%lookup_insert_Some; [by apply Ok|]. eapply stream_ok_frame; [| | |by apply si_streams0]; cbn; try done.
      unfold still_offered. rewrite Bc. cbn. destruct rest; cbn; set_solver.
Qed.

Lemma register_inv hist s gw : nextID s + 1 < two64 -> srv_inv hist s -> srv_inv hist (register gw s).
Proof.
  intros Nx I. unfold register. destruct (boundGatewayID gw (gwIDs (book s))) as [ids lbl].
  assert (Id : u64 (nextID s + 1) = nextID s + 1) by (apply u64_id; pose proof (si_next _ _ I); lia). rewrite Id.
  assert (Fr : streams s !! (nextID s + 1) = None).
  { destruct (streams s !! (nextID s + 1)) eqn:E; [|done]. pose proof (si_ids _ _ I (nextID s + 1) ltac:(eauto)). lia. }
  assert (Old : forall i, is_Some (streams s !! i) -> i <> nextID s + 1) by (intros i Hi ->; rewrite Fr in Hi; by destruct Hi).
  destruct I. constructor; cbn [sLast watcherBuf watchers streams nextID bcast]; try done; try lia.
  - intros i [->%elem_of_singleton|Hi]%elem_of_union; [rewrite lookup_insert_eq; eauto|]. specialize (si_dom0 i Hi).
    rewrite lookup_insert_ne by (apply not_eq_sym; by apply Old). done.
  - intros i Hi. destruct (decide (i = nextID s + 1)) as [->|Ni]; [lia|]. rewrite lookup_insert_ne in Hi by done. specialize (si_ids0 i Hi). lia.
  - intros o Ho. destruct (si_bcast0 o Ho) as (N & L & D). split_and!; [done..|]. intros i Hi. specialize (D i Hi).
    rewrite lookup_insert_ne by (apply not_eq_sym; by apply Old). done.
  - intros i u [[<- <-]|[Ni Hu]]%lookup_insert_Some.
    + unfold stream_ok, trail, sent_mark. cbn [sOut sPc sCh sentBoot sentEpoch last app length].
      assert (No : still_offered (Server (watcherBuf s) (sLast s) ({[nextID s + 1]} ∪ watchers s)
        (<[nextID s + 1 := Stream lbl [] match sLast s with Some snap => HSend snap | None => HWait end "" 0 []]> (streams s)) (nextID s + 1) (sDropped s) (bcast s) (setIDs ids (book s))) (nextID s + 1) -> False).
      { unfold still_offered. cbn [bcast]. destruct (bcast s) as [o|] eqn:Bc; [|done]. intros Hi. destruct (si_bcast0 o eq_refl) as (_ & _ & D).
        by apply (Old _ (D _ Hi)). }
      rewrite si_last0. split_and!; [|by intros ?%No| |done|done|cbn; lia].
      * destruct (last hist) as [x|] eqn:L; cbn; [|apply sublist_nil_l]. rewrite (last_removelast hist x L). by apply sublist_inserts_l.
      * intros _. right. by destruct (last hist).
    + eapply stream_ok_frame; [| | |by apply si_streams0]; cbn; try done. set_solver.
Qed.

Lemma Broadcast_inv hist s snap ord :
  bcast s = None -> (forall X, ord X ≡ₚ elements X) -> srv_inv hist s -> srv_inv (hist ++ [snap]) (Broadcast snap ord s).
Proof.
  intros Bc O I. assert (El : forall i, i ∈ ord (watchers s) <-> i ∈ watchers s) by (intros i; by rewrite O, elem_of_elements).
  assert (Pd : forall i, still_offered (Broadcast snap ord s) i <-> i ∈ watchers s).
  { intros i. rewrite <- El. unfold still_offered, Broadcast. cbn. destruct (ord (watchers s)); cbn; [|done]. split; [done|by intros ?%elem_of_nil]. }
  destruct I. constructor; cbn [Broadcast sLast watcherBuf watchers streams nextID bcast]; try done.
  - by rewrite last_snoc.
  - intros o Ho. assert (o = Offering snap (ord (watchers s)) false) as -> by (destruct (ord (watchers s)); by inversion Ho). cbn.
    split_and!; [rewrite O; apply NoDup_elements|by rewrite last_snoc|]. intros i Hi%El. by apply si_dom0.
  - intros i t Hi. destruct (si_streams0 i t Hi) as (A & B & C & M & Ln). unfold stream_ok. rewrite removelast_last. split_and!; try done.
    + by apply sublist_inserts_r.
    + intros W. left. by apply Pd.
Qed.

(** ** Reachable controllers *)

Definition srv_other (s : snapshotServer) (i : srvInput) : Prop :=
  match i with SBroadcast _ _ => False | SConnect _ => nextID s + 1 < two64 | _ => True end.

(** The decision loop over the server, with the snapshots broadcast so far: a tick runs
    when the broadcast of the tick before has ended, the handlers move at any time. *)
Inductive controller (uuid : string) (reg : Registry) (gcfg : GeneratorConfig) (buf : Z) : ctrlLoop -> snapshotServer -> list Snapshot -> Prop :=
  | controller_start : controller uuid reg gcfg buf (startLoop uuid reg gcfg) (newSnapshotServer buf) []
  | controller_quiet l s hist t l' :
      controller uuid reg gcfg buf l s hist -> bcast s = None -> tick_ok reg t -> loopTick l t = (l', None) ->
      controller uuid reg gcfg buf l' s hist
  | controller_emits l s hist t l' snap ord :
      controller uuid reg gcfg buf l s hist -> bcast s = None -> tick_ok reg t -> loopTick l t = (l', Some snap) ->
      gEpoch (clGen l) + 1 < two64 -> (forall X, ord X ≡ₚ elements X) ->
      controller uuid reg gcfg buf l' (srvStep s (SBroadcast snap ord)) (hist ++ [snap])
  | controller_serves l s hist i :
      controller uuid reg gcfg buf l s hist -> srv_other s i -> controller uuid reg gcfg buf l (srvStep s i) hist.

Record ctrl_inv (uuid : string) (reg : Registry) (l : ctrlLoop) (s : snapshotServer) (hist : list Snapshot) : Prop := {
  ci_reg : gReg (clGen l) = reg;
  ci_boot : gBootID (clGen l) = uuid;
  ci_prev : weights_ok (clPrev l);
  ci_epoch : 0 <= gEpoch (clGen l);
  ci_newest : Forall (fun x => GetEpoch x <= gEpoch (clGen l)) hist;
  ci_hist : one_boot uuid hist;
  ci_srv : srv_inv hist s }.

Lemma one_boot_snoc uuid hist x e :
  one_boot uuid hist -> Forall (fun y => GetEpoch y <= e) hist -> GetBootId x = uuid -> 0 <= e < GetEpoch x -> one_boot uuid (hist ++ [x]).
Proof.
  intros [F S] Le B E. split; [apply Forall_app; split; [done|constructor; [split; [done|lia]|constructor]]|].
  clear F. induction hist as [|y hist IH]; cbn; [repeat constructor|]. apply StronglySorted_inv in S as [S Fy]. apply Forall_cons in Le as [Ly Le].
  constructor; [by apply IH|]. apply Forall_app. split; [done|]. constructor; [lia|constructor].
Qed.

Lemma srvStep_inv boot hist s i : one_boot boot hist -> srv_other s i -> srv_inv hist s -> srv_inv hist (srvStep s i).
Proof.
  intros B O I. destruct i; cbn in O |- *; [done|by apply offer_inv|by apply register_inv|by eapply takeNext_inv|by apply sendDone_inv|by apply streamDone_inv|by apply inv_book].
Qed.

Lemma controller_inv uuid reg gcfg buf l s hist : controller uuid reg gcfg buf l s hist -> ctrl_inv uuid reg l s hist.
Proof.
  induction 1 as [|l s hist t l' H I Bc T Lt|l s hist t l' snap ord H I Bc T Lt Ep O|l s hist i H I O].
  - constructor; cbn; try done; try (split; constructor).
    constructor; cbn; try done; [destruct (Z.leb_spec buf 0); unfold defaultWatcherBuf; lia|intros id [? H]; by rewrite lookup_empty in H].
  - destruct I. destruct (loopTick_spec reg l t l' None ci_reg0 ci_prev0 T Lt) as (R & B & C & W & E).
    constructor; rewrite ?E, ?B; done.
  - destruct I. destruct (loopTick_spec reg l t l' (Some snap) ci_reg0 ci_prev0 T Lt) as (R & B & C & W & E & w & _ & Sn).
    rewrite u64_id in E by (unfold two64 in *; lia).
    assert (Es : GetEpoch snap = gEpoch (clGen l) + 1) by (rewrite Sn; cbn; apply u64_id; unfold two64 in *; lia).
    assert (Bs : GetBootId snap = uuid) by (rewrite Sn; cbn; congruence).
    constructor; rewrite ?E, ?B; try done; [lia|..].
    + apply Forall_app. split; [|constructor; [lia|constructor]]. eapply Forall_impl; [exact ci_newest0|]. cbn. lia.
    + eapply one_boot_snoc; [done|exact ci_newest0|done|lia].
    + cbn [srvStep]. rewrite Bc. by apply Broadcast_inv.
  - destruct I. constructor; try done. by eapply srvStep_inv.
Qed.

(** C20: Gateways receive what the controller decides, in order and up to date: under every
    interleaving of decision ticks, offers, connections, sends and failures, what a
    stream has sent is a subsequence of the snapshots decided, its buffer keeps its
    bound, and a connected stream with nothing in hand, nothing queued and no offer
    outstanding has sent the latest snapshot, whether it connected before or after. *)
Theorem streams_stay_current uuid reg gcfg buf l s hist id t :
  controller uuid reg gcfg buf l s hist -> streams s !! id = Some t ->
  sOut t `sublist_of` hist /\ (length (sCh t) <= watcherBuf s)%nat /\
  (id ∈ watchers s -> sPc t = HWait -> sCh t = [] -> ~ still_offered s id -> last (sOut t) = last hist).
Proof.
  intros R E. destruct (controller_inv _ _ _ _ _ _ _ R) as [_ _ _ _ _ _ I]. destruct (si_streams _ _ I id t E) as (A & _ & C & _ & Ln).
  split_and!; [|done|].
  - etrans; [|exact A]. by apply sublist_inserts_r.
  - intros W Pc Ch No. destruct (C W) as [?|La]; [done|]. unfold trail in La. rewrite Pc, Ch in La. by rewrite app_nil_r in La.
Qed.

(** ** The book of acknowledgements *)

(** [log]: every acknowledgement recorded, oldest first. *)
Record ack_inv (log : list ackRecord) (b : ackBook) : Prop := {
  ai_next : ackNext b = (length log mod ackRingSize)%nat;
  ai_count : ackCount b = Nat.min (length log) ackRingSize;
  ai_ring : length (acks b) = ackRingSize;
  ai_entries : forall j, (j < length log)%nat -> (length log <= j + ackRingSize)%nat -> acks b !! (j mod ackRingSize)%nat = log !! j }.

Definition ackRecordOf (gateway : string) (epoch status : Z) (detail : string) (now : Z) (b : ackBook) : ackRecord :=
  AckRecord (boundGatewayID gateway (gwIDs b)).2 epoch status detail now.

Lemma ring_distinct i j : (i < j)%nat -> (j < i + ackRingSize)%nat -> (i mod ackRingSize <> j mod ackRingSize)%nat.
Proof.
  intros H1 H2 E. pose proof (Nat.div_mod_eq i ackRingSize). pose proof (Nat.div_mod_eq j ackRingSize).
  assert ((j / ackRingSize <= i / ackRingSize)%nat \/ (i / ackRingSize + 1 <= j / ackRingSize)%nat) by lia. unfold ackRingSize in *. lia.
Qed.

Lemma AckSnapshot_inv gateway epoch status detail now log b :
  ack_inv log b -> ack_inv (log ++ [ackRecordOf gateway epoch status detail now b]) (AckSnapshot gateway epoch status detail now b).
Proof.
  intros [Nx Ct Rg En]. unfold AckSnapshot, ackRecordOf. destruct (boundGatewayID gateway (gwIDs b)) as [ids gw].
  assert (Nx' : (ackNext b < ackRingSize)%nat) by (rewrite Nx; by apply Nat.mod_upper_bound).
  constructor; cbn [ackNext ackCount acks]; rewrite ?length_app, ?length_insert; cbn [length]; try done.
  - rewrite Nx. by rewrite Nat.Div0.add_mod_idemp_l.
  - destruct (Nat.ltb_spec (ackCount b) ackRingSize); lia.
  - intros j Hj Hr. destruct (decide (j = length log)) as [->|Nj].
    + rewrite <- Nx, list_lookup_insert_eq by lia. by rewrite lookup_app_r, Nat.sub_diag by lia.
    + rewrite lookup_app_l by lia. rewrite list_lookup_insert_ne; [apply En; lia|]. rewrite Nx. apply not_eq_sym, ring_distinct; lia.
Qed.

Lemma omap_lookup_drop {A} (l : list A) k n : (k + n = length l)%nat -> omap (fun i => l !! (k + i)%nat) (seq 0 n) = drop k l.
Proof.
  revert k. induction n as [|n IH]; intros k H.
  - rewrite drop_ge by lia. done.
  - destruct (lookup_lt_is_Some_2 l k ltac:(lia)) as [x X]. rewrite (drop_S _ _ _ X). cbn. rewrite Nat.add_0_r, X. f_equal.
    rewrite <- (IH (S k)) by lia. apply list_omap_ext. rewrite <- fmap_S_seq, Forall2_fmap_l. apply Forall_Forall2_diag, Forall_forall.
    intros i _. cbn. f_equal. lia.
Qed.

(** The ring keeps the latest acknowledgements, 256 at most, in their order. *)
Theorem ack_history_is_recent log b : ack_inv log b -> ackHistory b = drop (length log - ackRingSize) log.
Proof.
  intros [Nx Ct Rg En]. rewrite <- (omap_lookup_drop log (length log - ackRingSize) (ackCount b)) by lia.
  unfold ackHistory. apply list_omap_ext, Forall_Forall2_diag, Forall_forall. intros i [_ Hi]%elem_of_seq.
  rewrite <- En by lia. f_equal. destruct (Nat.eqb_spec (ackCount b) ackRingSize) as [E|E].
  - rewrite Nx, Nat.Div0.add_mod_idemp_l. replace (length log + i)%nat with (length log - ackRingSize + i + 1 * ackRingSize)%nat by lia.
    apply Nat.Div0.mod_add.
  - f_equal. lia.
Qed.

(** However many identities gateways claim, their labels stay few. *)
Lemma gateway_labels_bounded id ids ids' lbl :
  boundGatewayID id ids = (ids', lbl) -> (size ids <= maxGatewayIDs)%nat ->
  (size ids' <= maxGatewayIDs)%nat /\ ids ⊆ ids' /\ (lbl ∈ ids' \/ lbl = "unknown" \/ lbl = "other").
Proof.
  unfold boundGatewayID. set (x := if (64 <? String.length (gwIDSanitize id))%nat then _ else _). intros H S. destruct (x ==s ""); [simplify_eq; auto|].
  destruct (bool_decide_reflect (x ∈ ids)) as [I|I]; [simplify_eq; auto|].
  destruct (Nat.leb_spec maxGatewayIDs (size ids)); simplify_eq; [auto|]. split_and!; [|set_solver|left; set_solver].
  rewrite size_union, size_singleton by set_solver. lia.
Qed.

(** Two gateways, one of them late: both have the first snapshot. *)
Definition exSnapOf (l : ctrlLoop) (t : tickIn) : Snapshot := default (MkSnapshot 0 "" 0 [] 0 "") (loopTick l t).2.
Definition exLoop0 : ctrlLoop := startLoop "boot" exReg exGen.
Definition exServed : list srvInput := [SConnect "gw-a"].
Definition exLate : list srvInput := [SOffer; STake 1; SSent 1 true; SConnect "gw b"; SSent 2 true].
Definition exElems : gset Z -> list Z := elements.

Lemma srvStep_next s i : 0 <= nextID s -> 0 <= nextID (srvStep s i) <= nextID s + 1.
Proof.
  intros H. assert (U : 0 <= u64 (nextID s + 1) <= nextID s + 1).
  { unfold u64, two64. split; [by apply Z.mod_pos_bound|]. apply Z.mod_le; lia. }
  destruct i; cbn [srvStep]; unfold offer, register, takeNext, sendDone, streamDone; repeat case_match; cbn; lia.
Qed.

(** The server serves while the loop is between ticks. *)
Lemma controller_run uuid reg gcfg buf l s hist ins :
  controller uuid reg gcfg buf l s hist -> 0 <= nextID s -> nextID s + Z.of_nat (length ins) < two64 ->
  Forall (fun i => match i with SBroadcast _ _ => False | _ => True end) ins -> controller uuid reg gcfg buf l (srvRun s ins) hist.
Proof.
  revert s. induction ins as [|i ins IH]; intros s R N0 N F; [done|]. apply Forall_cons in F as [Fi F]. cbn [length] in N.
  pose proof (srvStep_next s i N0). change (srvRun s (i :: ins)) with (srvRun (srvStep s i) ins).
  apply IH; [|lia|lia|done]. apply controller_serves; [done|]. destruct i; cbn; try done. lia.
Qed.

Lemma streams_stay_current_witness :
  let snap := exSnapOf exLoop0 (exTick (100 * Second)) in
  let s := srvRun (srvStep (srvRun (newSnapshotServer 0) exServed) (SBroadcast snap exElems)) exLate in
  exists t, streams s !! 2 = Some t /\ last (sOut t) = Some snap.
Proof.
  intros snap s.
  assert (R : exists l, controller "boot" exReg exGen 0 l s [snap]).
  { assert (T : snd (loopTick exLoop0 (exTick (100 * Second))) = Some snap).
    { assert (Y : option_map GetEpoch (snd (loopTick exLoop0 (exTick (100 * Second)))) = Some 1) by (vm_compute; reflexivity).
      unfold snap, exSnapOf. destruct (snd (loopTick exLoop0 (exTick (100 * Second)))); [reflexivity|discriminate Y]. }
    exists (fst (loopTick exLoop0 (exTick (100 * Second)))). apply controller_run.
    - apply (controller_emits _ _ _ _ exLoop0 _ [] (exTick (100 * Second))).
      + apply controller_run; [apply controller_start|vm_compute; discriminate|vm_compute; reflexivity|repeat constructor].
      + vm_compute. reflexivity.
      + apply exTick_in.
      + rewrite <- T. apply surjective_pairing.
      + vm_compute. reflexivity.
      + intros X. reflexivity.
    - vm_compute. discriminate.
    - vm_compute. reflexivity.
    - repeat constructor. }
  destruct R as [l R].
  assert (X : (fun o => match o with Some t => (sPc t, sCh t) | None => (HEnd, []) end) (streams s !! 2) = (HWait, [])) by (vm_compute; reflexivity).
  assert (W : bool_decide (2 ∈ watchers s) = true) by (vm_compute; reflexivity). assert (B : bcast s = None) by (vm_compute; reflexivity).
  destruct (streams s !! 2) as [t|] eqn:E; [|discriminate X]. injection X as Xp Xc. exists t. split; [reflexivity|].
  destruct (streams_stay_current "boot" exReg exGen 0 l s [snap] 2 t R E) as (_ & _ & N).
  apply N; [exact (proj1 (bool_decide_eq_true _) W)|exact Xp|exact Xc|unfold still_offered; rewrite B; tauto].
Defined.
