(* ===== verification/AiMonitor.v ===== *)
(** * AiMonitor: the controller's samples, fingerprints, features and confidence

    cmd/loxilb-ai-controller/main.go (the sample store, the feature builder, the
    fingerprint verifier, the tick that ties them together), ttft_monitor.go (the
    confidence factor and the histogram deltas) and the windows of
    pkg/aimetrics/lmcache.go.  The scrapes deliver samples and readings: they are
    inputs; [math.Exp] is a parameter.  Metrics, log lines and the feature file are
    left out. *)

From Stdlib Require Import Ascii String.
From stdpp Require Import base gmap strings list sets sorting.
From S2P Require Import Prelude Classes NetIdText Float64 AiCtrl AiEngine.

Open Scope Z_scope.
Open Scope igw_scope.

(** ** Samples *)

Record WorkerSample := MkWorkerSample {
  NumRequestsWaiting : Z; NumGPUBlocks : Z; GPUCacheUsagePerc : float64; LastUpdate : option Z; Raw : gmap string float64 }.

Definition sampleFresh (now : Z) (lastUpdate : option Z) (budget : Z) : bool :=
  match lastUpdate with None => false | Some at_ => timeSub now at_ <=? budget end.

(** Per source the last cumulative sum and count. *)
Definition HistWindow := gmap string (float64 * float64).

Definition windowMean (key : string) (sum count : float64) (w : HistWindow) : HistWindow * option float64 :=
  let w' := <[key := (sum, count)]> w in
  match w !! key with
  | None => (w', None)
  | Some (psum, pcount) =>
      let dSum := fsub sum psum in
      let dCount := fsub count pcount in
      if fleb dCount (fofz 0) || flt dSum (fofz 0) then (w', None) else (w', Some (fdiv dSum dCount))
  end.

Definition Forget (key : string) (w : HistWindow) : HistWindow := delete key w.

Definition LMCacheFamilyPrefix : string := "lmcache:".
Definition RawSuffixHistSum : string := ":sum".
Definition RawSuffixHistCount : string := ":count".

Definition selectLMCacheRaw (raw : gmap string float64) : gmap string float64 :=
  filter (fun p => String.prefix LMCacheFamilyPrefix p.1 = true) raw.

Record sampleStore := MkStore {
  stReg : Registry; idxToIP : list string; stSamples : gmap string WorkerSample; warnedAt : gmap string Z;
  lmcSamples : gmap string lmcSample; lmcWindows : HistWindow }.

(** The index table of main: the largest index, and the address of each index. *)
Definition maxIdx (reg : Registry) (ord : hostOrder) : nat := foldl (fun m p => Nat.max m (Z.to_nat (EpIdx p.2))) 0%nat (ord (Hosts reg)).

Definition indexTable (reg : Registry) (ord1 ord2 : hostOrder) : list string :=
  foldl (fun t p => <[Z.to_nat (EpIdx p.2) := p.1]> t) (replicate (S (maxIdx reg ord1)) "") (ord2 (Hosts reg)).

Definition newSampleStore (reg : Registry) (table : list string) : sampleStore := MkStore reg table ∅ ∅ ∅ ∅.

Definition ttrKey : string := FamilyLMCacheTimeToRetrieve.

Definition mergeLMCacheLocked (ip : string) (raw : gmap string float64) (lastUpdate : option Z) (st : sampleStore) : sampleStore :=
  let sum := raw !! (ttrKey +:+ RawSuffixHistSum) in
  let cnt := raw !! (ttrKey +:+ RawSuffixHistCount) in
  let raw := delete ttrKey (delete (ttrKey +:+ RawSuffixHistCount) (delete (ttrKey +:+ RawSuffixHistSum) raw)) in
  let '(w, raw) :=
    match sum, cnt with
    | Some sum, Some cnt =>
        let '(w, mean) := windowMean ip sum cnt (lmcWindows st) in
        (w, match mean with Some mean => <[ttrKey := mean]> raw | None => raw end)
    | _, _ => (lmcWindows st, raw)
    end in
  MkStore (stReg st) (idxToIP st) (stSamples st) (warnedAt st) (<[ip := MkLmcSample raw lastUpdate]> (lmcSamples st)) w.

(** The second result: whether the mismatch is one to warn about. *)
Definition discover (ip : string) (blocks : Z) (st : sampleStore) : sampleStore * bool :=
  if blocks >? 0 then
    let '(reg, m) := ValidateDiscovery (stReg st) ip blocks in
    if Mismatched m
    then (MkStore reg (idxToIP st) (stSamples st) (if default 0 (warnedAt st !! ip) ==? mmDiscovered m then warnedAt st else <[ip := mmDiscovered m]> (warnedAt st))
            (lmcSamples st) (lmcWindows st), negb (default 0 (warnedAt st !! ip) ==? mmDiscovered m))
    else (MkStore reg (idxToIP st) (stSamples st) (warnedAt st) (lmcSamples st) (lmcWindows st), false)
  else (st, false).

Definition OnSample (epIdx : Z) (s : WorkerSample) (st : sampleStore) : sampleStore * bool :=
  if (epIdx <? 0) || (epIdx >=? Z.of_nat (length (idxToIP st))) then (st, false)
  else
    let ip := default "" (idxToIP st !! Z.to_nat epIdx) in
    if ip ==s "" then (st, false)
    else
      let '(st, warn) := discover ip (NumGPUBlocks s) st in
      let lmcRaw := selectLMCacheRaw (Raw s) in
      let st := MkStore (stReg st) (idxToIP st) (<[ip := s]> (stSamples st)) (warnedAt st) (lmcSamples st) (lmcWindows st) in
      (if bool_decide (lmcRaw = ∅) then st else mergeLMCacheLocked ip lmcRaw (LastUpdate s) st, warn).

(** ** Fingerprints of the live configuration *)

Definition FpNumGpuBlocks : string := "num_gpu_blocks".

Definition discoveredFingerprint (s : WorkerSample) : gmap string string :=
  if NumGPUBlocks s ==? 0 then ∅ else {[FpNumGpuBlocks := fmtD (NumGPUBlocks s)]}.

(** A signature is the list of mismatches it prints; [[]] is a clean one. *)
Definition fpVerifier := gmap string (list FieldMismatch).

Record fpEpochResult := FpResult { fpVerified : gset string; fpMismatches : list FieldMismatch; WarnDue : gmap string (list FieldMismatch); Recovered : list string }.

#[global] Instance FieldMismatch_eq_dec : EqDecision FieldMismatch.
Proof. solve_decision. Defined.

Definition verifyHost (samples : gmap string WorkerSample) (acc : fpVerifier * fpEpochResult) (p : string * Host) : fpVerifier * fpEpochResult :=
  let '(v, res) := acc in
  let '(ip, h) := p in
  match hCalibration h, samples !! ip with
  | Some decl, Some s =>
      let disc := discoveredFingerprint s in
      if bool_decide (disc = ∅) then acc
      else
        let lastSig := default [] (v !! ip) in
        match VerifyFingerprint ip (Some decl) disc with
        | [] =>
            if bool_decide (lastSig = [])
            then (v, FpResult ({[ip]} ∪ fpVerified res) (fpMismatches res) (WarnDue res) (Recovered res))
            else (<[ip := []]> v, FpResult ({[ip]} ∪ fpVerified res) (fpMismatches res) (WarnDue res) (Recovered res ++ [ip]))
        | ms =>
            if bool_decide (lastSig = ms)
            then (v, FpResult (fpVerified res) (fpMismatches res ++ ms) (WarnDue res) (Recovered res))
            else (<[ip := ms]> v, FpResult (fpVerified res) (fpMismatches res ++ ms) (<[ip := ms]> (WarnDue res)) (Recovered res))
        end
  | _, _ => acc
  end.

Definition VerifyEpoch (ord : hostOrder) (reg : Registry) (samples : gmap string WorkerSample) (v : fpVerifier) : fpVerifier * fpEpochResult :=
  foldl (verifyHost samples) (v, FpResult ∅ [] ∅ []) (ord (Hosts reg)).

(** ** The feature builder *)

Definition ttftFetchCostSoftScaleSec : float64 := flit 5 100.
Definition ttftPrefixSoftScaleTokens : float64 := fofz 512.

Definition satFrac (x scale : float64) : float64 :=
  if fleb x (fofz 0) || fleb scale (fofz 0) then fofz 0 else fdiv x (fadd x scale).

Definition fetchCost (raw : gmap string float64) : float64 :=
  match raw !! ttrKey with
  | None => fofz 0
  | Some t =>
      let base := match raw !! FamilyLMCacheRetrieveHitRate with Some hr => if flt (fofz 0) hr then fdiv t hr else t | None => t end in
      satFrac base ttftFetchCostSoftScaleSec
  end.

Definition featuresOf (reg : Registry) (samples : gmap string WorkerSample) (lmc : gmap string lmcSample) (logRef : float64)
  (verified : gset string) (now budget : Z) (ip : string) : option TtftEpochFeatures :=
  match samples !! ip, CalibratedThroughputRatio reg ip (bool_decide (ip ∈ verified)) with
  | Some s, Some ratio =>
      if fleb ratio (fofz 0) then None
      else
        let lraw := match lmc !! ip with Some ls => if sampleFresh now (lsLastUpdate ls) budget then Some (lsRaw ls) else None | None => None end in
        Some (MkTtftEpochFeatures
          (MkTtftFeatures logRef (fdiv (fofz (NumRequestsWaiting s)) ratio) (GPUCacheUsagePerc s)
            (match lraw with Some raw => fetchCost raw | None => fofz 0 end)
            (match lraw with
             | Some raw => match raw !! RawKeyMatchedPrefixLength with Some v => satFrac v ttftPrefixSoftScaleTokens | None => fofz 0 end
             | None => fofz 0
             end))
          (LastUpdate s))
  | _, _ => None
  end.

Definition buildTtftFeatures (reg : Registry) (samples : gmap string WorkerSample) (lmc : gmap string lmcSample) (logRef : float64)
  (verified : gset string) (now budget : Z) : gmap string TtftEpochFeatures :=
  map_imap (fun ip _ => featuresOf reg samples lmc logRef verified now budget ip) (Hosts reg).

(** ** The model at start-up *)

Inductive startupErr := ArmedWithoutFile | LoadFailed | GateFailed (gate verdict : string).

(** [load]: what LoadTtftModel returns for the file, with the verdicts it records in
    the order of the range. *)
Definition loadTtftModelStartup (coefFile : string) (armed : bool) (load : option (TtftModel * list (string * string))) :
  option TtftModel + startupErr :=
  if coefFile ==s "" then (if armed then inr ArmedWithoutFile else inl None)
  else match load with
       | None => inr LoadFailed
       | Some (m, verdicts) =>
           match (if armed then List.find (fun p => negb (p.2 ==s "PASS")) verdicts else None) with
           | Some (gate, verdict) => inr (GateFailed gate verdict)
           | None => inl (Some m)
           end
       end.

(** ** Histogram deltas *)

Definition ttftHistDelta := gmap string (float64 * Z).

Definition histObserve (ep : string) (sum : float64) (count : Z) (d : ttftHistDelta) : ttftHistDelta * option float64 :=
  let d' := <[ep := (sum, count)]> d in
  match d !! ep with
  | None => (d', None)
  | Some (psum, pcount) =>
      if (count <? pcount) || flt sum psum then (d', None)
      else let dc := count - pcount in
           if dc ==? 0 then (d', None) else (d', Some (fdiv (fsub sum psum) (fofz dc)))
  end.

(** One reading per endpoint that answered, in the order they arrive. *)
Definition WindowMeans (readings : list (string * (float64 * Z))) (d : ttftHistDelta) : ttftHistDelta * gmap string float64 :=
  foldl (fun '(d, out) '(ip, (sum, count)) =>
    let '(d, mean) := histObserve ip sum count d in (d, match mean with Some mean => <[ip := mean]> out | None => out end)) (d, ∅) readings.

(** ** The confidence factor *)

Definition ttftAlphaMaxStep : float64 := flit 2 10.
Definition ttftDefaultP50Thr : float64 := flit 3 10.
Definition ttftAlphaSnapEps : float64 := flit 1 1000000000.
(** The constant [1 - ttftAlphaSnapEps]. *)
Definition ttftAlphaTop : float64 := flit 999999999 1000000000.

Record ttftMonitor := MkMonitor { mAlpha : float64; mThr : float64; lastP50 : float64; lastP90 : float64; hasErr : bool }.

Definition newTtftMonitor (p50Thr : float64) : ttftMonitor :=
  MkMonitor (fofz 1) (if fleb p50Thr (fofz 0) then ttftDefaultP50Thr else p50Thr) (fofz 0) (fofz 0) false.

(** [math.Ceil]. *)
Definition Ceil (x : float64) : float64 :=
  match x with
  | SpecFloat.S754_finite s m e =>
      if 0 <=? e then x
      else
        let q := Zpos m / 2 ^ (- e) in
        let up := negb (Zpos m mod 2 ^ (- e) ==? 0) && negb s in
        let n := if up then q + 1 else q in
        if n ==? 0 then SpecFloat.S754_zero s else fofz (SpecFloat.cond_Zopp s n)
  | _ => x
  end.

(** The order of sort.Float64s: a NaN comes first. *)
Definition floatLess (x y : float64) : bool := flt x y || (IsNaN x && negb (IsNaN y)).
Definition floatLe (x y : float64) : Prop := floatLess y x = false.

#[global] Instance floatLe_dec x y : Decision (floatLe x y).
Proof. unfold floatLe. apply _. Defined.

Definition quantileAbs (vals : list float64) (q : float64) : float64 :=
  match vals with
  | [] => fofz 0
  | _ =>
      let s := merge_sort floatLe vals in
      let n := Z.of_nat (length s) in
      let idx := ftruncz (Ceil (fmul q (fofz n))) - 1 in
      let idx := if idx <? 0 then 0 else idx in
      let idx := if idx >=? n then n - 1 else idx in
      default (fofz 0) (s !! Z.to_nat idx)
  end.

Definition snapAlpha (a : float64) : float64 :=
  let a := if flt a ttftAlphaSnapEps then fofz 0 else a in
  if flt ttftAlphaTop a then fofz 1 else a.

Record ttftObs := MkObs { PredLogTtft : float64; ObservedSec : float64 }.

Section Monitor.
Context (Exp : float64 -> float64).

Definition relErr (o : ttftObs) : option float64 :=
  let pred := Exp (PredLogTtft o) in
  if fleb pred (fofz 0) || IsInf pred || IsNaN pred || flt (ObservedSec o) (fofz 0) || IsInf (ObservedSec o) || IsNaN (ObservedSec o)
  then None
  else Some (fabs (fsub (fdiv (ObservedSec o) pred) (fofz 1))).

Definition Observe (window : list ttftObs) (m : ttftMonitor) : ttftMonitor :=
  match omap relErr window with
  | [] => m
  | errs =>
      let p50 := quantileAbs errs (flit 1 2) in
      let a := if fleb p50 (mThr m) then fadd (mAlpha m) ttftAlphaMaxStep
               else if flt (fmul (fofz 2) (mThr m)) p50 then fsub (mAlpha m) ttftAlphaMaxStep
               else mAlpha m in
      MkMonitor (snapAlpha a) (mThr m) p50 (quantileAbs errs (flit 9 10)) true
  end.

(** ** One tick of the loop, from the store to the snapshot *)

Record controllerState := CtrlState { csLoop : ctrlLoop; csVerifier : fpVerifier; csMonitor : option ttftMonitor; csDelta : ttftHistDelta }.

Definition freshPredictions (cfg : EngineConfig) (model : TtftModel) (feats : gmap string TtftEpochFeatures) : gmap string float64 :=
  omap (fun ef => if ttftFresh cfg ef then Some (Predict model (efFeatures ef)) else None) feats.

(** The registry of the store and of the loop is one object; of it only the overlay of
    discovered capacities changes, which no step of the tick reads.
    [base]: the engine's configuration without the parts that change per tick;
    [readings]: the histograms scraped, [ordW]: the order of the range over the means. *)
Definition controllerTick (ordF ord1 ord2 ord3 ordB : hostOrder) (ordW : gmap string float64 -> list (string * float64)) (nonce : string) (invert : bool)
  (logRef : float64) (readings : list (string * (float64 * Z))) (now : Z) (base : EngineConfig) (st : sampleStore) (c : controllerState) :
  controllerState * option Snapshot :=
  let reg := gReg (clGen (csLoop c)) in
  let '(v, fp) := VerifyEpoch ordF reg (stSamples st) (csVerifier c) in
  let feats := buildTtftFeatures reg (stSamples st) (lmcSamples st) logRef (fpVerified fp) now (TtftStaleBudget base) in
  let cfg alpha := MkEngineConfig now (StaleBudget base) (HardStaleBudget base) (EwmaAlpha base) (DeadBand base) (MaxStepPct base)
    (LmcCostEnabled base) (LmcMaxPts base) (LmcStaleBudget base) (LmcInvert base)
    (TtftEnabled base) (TtftMaxPts base) (TtftStaleBudget base) (TtftInvert base) (cTtftModel base) alpha feats in
  let '(mon, delta) :=
    match csMonitor c, cTtftModel base with
    | Some mon, Some model =>
        let preds := freshPredictions (cfg (fofz 0)) model feats in
        let '(delta, means) := WindowMeans readings (csDelta c) in
        let window := omap (fun q => match preds !! q.1 with Some pr => Some (MkObs pr q.2) | None => None end) (ordW means) in
        (Some (Observe window mon), delta)
    | m, _ => (m, csDelta c)
    end in
  let alpha := match mon with Some m => mAlpha m | None => fofz 1 end in
  let '(l, snap) := decisionTick ord1 ord2 ord3 ordB nonce invert (LastUpdate <$> stSamples st) (Some (lmcSamples st)) (cfg alpha) (csLoop c) in
  (CtrlState l v mon delta, snap).
End Monitor.
