(* ===== verification/AiMonitorProps.v ===== *)
(** * AiMonitorProps: confidence, calibration and the whole tick

    The confidence factor takes eight values and reaches its ends exactly; a calibrated
    ratio is used exactly when the live capacity confirms it; samples reach the host
    whose index they carry; and the tick from the store is a tick of the decision
    loop, so what AiLoopProps and AiServerProps show of the loop holds of it. *)

From Stdlib Require Import Ascii String SpecFloat.
From stdpp Require Import base gmap strings list sets sorting.
From S2P Require Import Prelude Classes NetIdText Float64 AiCtrl AiCtrlProps AiEngine AiCostProps AiEngineProps AiLoopProps AiMonitor.

Open Scope Z_scope.
Open Scope igw_scope.

(** ** Confidence *)

#[global] Instance spec_float_eq_dec : EqDecision spec_float.
Proof. solve_decision. Defined.

Definition alphaUp (a : float64) : float64 := snapAlpha (fadd a ttftAlphaMaxStep).
Definition alphaDown (a : float64) : float64 := snapAlpha (fsub a ttftAlphaMaxStep).

(** The values the factor takes: its start, closed under the three moves. *)
Definition alphaLevels : list float64 :=
  [fofz 0; alphaUp (fofz 0); alphaDown (alphaDown (alphaDown (alphaDown (fofz 1)))); alphaUp (alphaUp (fofz 0));
   alphaDown (alphaDown (alphaDown (fofz 1))); alphaDown (alphaDown (fofz 1)); alphaDown (fofz 1); fofz 1].

Definition levelsClosed : bool :=
  forallb (fun a => bool_decide (snapAlpha a ∈ alphaLevels) && bool_decide (alphaUp a ∈ alphaLevels) && bool_decide (alphaDown a ∈ alphaLevels) &&
    fleb (fofz 0) a && fleb a (fofz 1) && bool_decide (Nat.iter 5 alphaDown a = fofz 0) && bool_decide (Nat.iter 5 alphaUp a = fofz 1)) alphaLevels.

Lemma levels_closed : levelsClosed = true.
Proof. by vm_compute. Qed.

Lemma level_facts a : a ∈ alphaLevels ->
  snapAlpha a ∈ alphaLevels /\ alphaUp a ∈ alphaLevels /\ alphaDown a ∈ alphaLevels /\
  fleb (fofz 0) a = true /\ fleb a (fofz 1) = true /\ Nat.iter 5 alphaDown a = fofz 0 /\ Nat.iter 5 alphaUp a = fofz 1.
Proof.
  intros H. pose proof levels_closed as C. unfold levelsClosed in C. rewrite forallb_forall in C.
  specialize (C a ltac:(by apply list_elem_of_In)). repeat (apply andb_true_iff in C as [C ?]).
  repeat match goal with X : bool_decide _ = true |- _ => apply bool_decide_eq_true in X end.
  split_and!; assumption.
Qed.

Lemma start_level : fofz 1 ∈ alphaLevels.
Proof. apply (bool_decide_eq_true _). by vm_compute. Qed.

Section Confidence.
Context (Exp : float64 -> float64).

(** The median relative error of a window; [None] without evidence. *)
Definition medianErr (w : list ttftObs) : option float64 :=
  match omap (relErr Exp) w with [] => None | errs => Some (quantileAbs errs (flit 1 2)) end.

(** A window whose median error is beyond twice the threshold, and one within it. *)
Definition breach (thr : float64) (w : list ttftObs) : Prop :=
  exists p, medianErr w = Some p /\ fleb p thr = false /\ flt (fmul (fofz 2) thr) p = true.
Definition healthy (thr : float64) (w : list ttftObs) : Prop := exists p, medianErr w = Some p /\ fleb p thr = true.

Definition observeAll (ws : list (list ttftObs)) (m : ttftMonitor) : ttftMonitor := foldl (fun m w => Observe Exp w m) m ws.

Lemma Observe_thr w m : mThr (Observe Exp w m) = mThr m.
Proof. unfold Observe. by destruct (omap (relErr Exp) w). Qed.

Lemma Observe_alpha w m :
  mAlpha (Observe Exp w m) =
  match medianErr w with
  | None => mAlpha m
  | Some p => if fleb p (mThr m) then alphaUp (mAlpha m) else if flt (fmul (fofz 2) (mThr m)) p then alphaDown (mAlpha m) else snapAlpha (mAlpha m)
  end.
Proof.
  unfold Observe, medianErr. destruct (omap (relErr Exp) w) as [|e es]; [done|]. cbn [mAlpha].
  destruct (fleb _ _); [done|]. by destruct (flt _ _).
Qed.

Lemma observeAll_thr ws m : mThr (observeAll ws m) = mThr m.
Proof. revert m. induction ws as [|w ws IH]; intros m; [done|]. cbn. unfold observeAll in IH. by rewrite IH, Observe_thr. Qed.

Lemma observeAll_level ws m : mAlpha m ∈ alphaLevels -> mAlpha (observeAll ws m) ∈ alphaLevels.
Proof.
  revert m. induction ws as [|w ws IH]; intros m H; [done|]. cbn. apply IH. rewrite Observe_alpha.
  destruct (level_facts _ H) as (A & B & C & _). destruct (medianErr w); [|done]. destruct (fleb _ _); [done|]. by destruct (flt _ _).
Qed.

Lemma observeAll_iter (f : float64 -> float64) (P : float64 -> list ttftObs -> Prop) ws m :
  (forall w m, P (mThr m) w -> mAlpha (Observe Exp w m) = f (mAlpha m)) -> Forall (P (mThr m)) ws ->
  mAlpha (observeAll ws m) = Nat.iter (length ws) f (mAlpha m).
Proof.
  intros Hf. revert m. induction ws as [|w ws IH]; intros m F; [done|]. apply Forall_cons in F as [Fw F]. cbn [observeAll foldl length].
  change (foldl (fun m w => Observe Exp w m) (Observe Exp w m) ws) with (observeAll ws (Observe Exp w m)).
  rewrite IH by (by rewrite Observe_thr). rewrite Nat.iter_succ_r. f_equal. by apply Hf.
Qed.

(** C21: Confidence follows the evidence and reaches its ends exactly: whatever windows
    came before, the factor lies between 0 and 1, five windows in a row beyond twice
    the threshold make it 0, five within the threshold make it 1, and windows without
    evidence leave it as it is. *)
Theorem confidence_follows_evidence thr before ws :
  let m := observeAll before (newTtftMonitor thr) in
  let a := mAlpha (observeAll ws m) in
  fleb (fofz 0) a = true /\ fleb a (fofz 1) = true /\
  (length ws = 5%nat -> Forall (breach (mThr m)) ws -> a = fofz 0) /\
  (length ws = 5%nat -> Forall (healthy (mThr m)) ws -> a = fofz 1) /\
  (Forall (fun w => medianErr w = None) ws -> a = mAlpha m).
Proof.
  intros m a. assert (L : mAlpha m ∈ alphaLevels) by (apply observeAll_level; exact start_level).
  destruct (level_facts _ L) as (_ & _ & _ & _ & _ & Dn & Up).
  destruct (level_facts a) as (_ & _ & _ & B0 & B1 & _); [by apply observeAll_level|]. split_and!; [exact B0|exact B1| | |].
  - intros E F. unfold a. rewrite (observeAll_iter alphaDown breach); [rewrite E; exact Dn| |exact F].
    intros w n (p & P1 & P2 & P3). rewrite Observe_alpha, P1, P2, P3. reflexivity.
  - intros E F. unfold a. rewrite (observeAll_iter alphaUp healthy); [rewrite E; exact Up| |exact F].
    intros w n (p & P1 & P2). rewrite Observe_alpha, P1, P2. reflexivity.
  - intros F. unfold a. rewrite (observeAll_iter id (fun _ w => medianErr w = None)); [| |exact F].
    + induction (length ws) as [|n IH]; [reflexivity|]. rewrite Nat.iter_succ. exact IH.
    + intros w n P. rewrite Observe_alpha, P. reflexivity.
Qed.
End Confidence.

(** ** Calibration *)

(** The live capacity agrees with the calibrated one. *)
Definition confirmed (samples : gmap string WorkerSample) (ip : string) (h : Host) : Prop :=
  exists decl s, hCalibration h = Some decl /\ samples !! ip = Some s /\ NumGPUBlocks s <> 0 /\
    (FingerprintFields decl = ∅ \/ default "" (FingerprintFields decl !! FpNumGpuBlocks) = fmtD (NumGPUBlocks s)).

Lemma sortedKeys_singleton k v : sortedKeys {[k := v]} = [k].
Proof. unfold sortedKeys. by rewrite map_to_list_singleton. Qed.

Lemma VerifyFingerprint_blocks ip decl n :
  VerifyFingerprint ip (Some decl) {[FpNumGpuBlocks := fmtD n]} = [] <->
  FingerprintFields decl = ∅ \/ default "" (FingerprintFields decl !! FpNumGpuBlocks) = fmtD n.
Proof.
  unfold VerifyFingerprint. rewrite (bool_decide_eq_false_2 ({[FpNumGpuBlocks := fmtD n]} = ∅)) by apply map_non_empty_singleton.
  destruct (bool_decide_reflect (FingerprintFields decl = ∅)) as [E|E]; cbn [orb]; [tauto|].
  rewrite sortedKeys_singleton. cbn [omap list_omap]. rewrite lookup_singleton_eq. change (default "" (Some (fmtD n))) with (fmtD n).
  destruct (String.eqb_spec (default "" (FingerprintFields decl !! FpNumGpuBlocks)) (fmtD n)) as [Q|N]; [split; auto|].
  split; [done|]. intros [?|?]; done.
Qed.

Lemma verifyHost_verified samples acc p ip :
  ip ∈ fpVerified (verifyHost samples acc p).2 <-> ip ∈ fpVerified acc.2 \/ (ip = p.1 /\ confirmed samples p.1 p.2).
Proof.
  destruct acc as [v res], p as [k h]. unfold verifyHost, confirmed. cbn [fst snd].
  destruct (hCalibration h) as [decl|]; [|naive_solver]. destruct (samples !! k) as [s|]; [|naive_solver].
  unfold discoveredFingerprint. destruct (Z.eqb_spec (NumGPUBlocks s) 0) as [Z0|Nz]; [rewrite bool_decide_eq_true_2 by done; naive_solver|].
  rewrite bool_decide_eq_false_2 by apply map_non_empty_singleton. pose proof (VerifyFingerprint_blocks k decl (NumGPUBlocks s)) as V.
  destruct (VerifyFingerprint k (Some decl) {[FpNumGpuBlocks := fmtD (NumGPUBlocks s)]}) as [|m ms].
  - assert (Q : ip ∈ ({[k]} ∪ fpVerified res : gset string) <-> ip ∈ fpVerified res \/ ip = k) by set_solver.
    destruct (bool_decide _); cbn [snd fpVerified]; rewrite Q; split; intros [H|H]; auto.
    all: try (right; split; [done|]; exists decl, s; naive_solver). all: destruct H; auto.
  - assert (N : ~ (FingerprintFields decl = ∅ \/ default "" (FingerprintFields decl !! FpNumGpuBlocks) = fmtD (NumGPUBlocks s))) by (intros H; by apply V in H).
    destruct (bool_decide _); cbn [snd fpVerified]; split; [by left| |by left|]; intros [H|(_ & d & s' & [= <-] & [= <-] & _ & H)]; tauto.
Qed.

(** A host counts as verified exactly when its calibration is confirmed. *)
Lemma VerifyEpoch_verified ord reg samples v ip :
  host_order_ok ord -> ip ∈ fpVerified (VerifyEpoch ord reg samples v).2 <-> exists h, Hosts reg !! ip = Some h /\ confirmed samples ip h.
Proof.
  intros O. unfold VerifyEpoch.
  assert (G : forall l acc, ip ∈ fpVerified (foldl (verifyHost samples) acc l).2 <->
    ip ∈ fpVerified acc.2 \/ exists h, (ip, h) ∈ l /\ confirmed samples ip h).
  { induction l as [|[k h] l IH]; intros acc; cbn [foldl].
    - split; [by left|]. intros [H|(h & H & _)]; [done|]. by apply not_elem_of_nil in H.
    - rewrite IH, verifyHost_verified. cbn [fst snd]. split.
      + intros [[H|[-> H]]|(h' & H & C)]; [by left|right; exists h; split; [by left|done]|right; exists h'; split; [by right|done]].
      + intros [H|(h' & [[= -> ->]|H]%elem_of_cons & C)]; [by left; left|left; right; done|right; eauto]. }
  rewrite G. cbn [snd fpVerified]. split.
  - intros [H|(h & H & C)]; [set_solver|]. exists h. split; [|done]. by apply host_order_elem in H.
  - intros (h & H & C). right. exists h. split; [by apply host_order_elem|done].
Qed.

(** A feature divides the queue by the calibrated ratio exactly when the live capacity
    confirms the calibration, and by the declared prior otherwise. *)
Theorem features_use_confirmed_calibration ord reg samples lmc logRef v now budget ip h f :
  host_order_ok ord -> Hosts reg !! ip = Some h ->
  buildTtftFeatures reg samples lmc logRef (fpVerified (VerifyEpoch ord reg samples v).2) now budget !! ip = Some f ->
  exists s, samples !! ip = Some s /\ efLastUpdate f = LastUpdate s /\
    ((confirmed samples ip h /\ exists decl, hCalibration h = Some decl /\
        WaitingOverCapacity (efFeatures f) = fdiv (fofz (NumRequestsWaiting s)) (ThroughputRatio decl)) \/
     (~ confirmed samples ip h /\ WaitingOverCapacity (efFeatures f) = fdiv (fofz (NumRequestsWaiting s)) (ServingThroughputPrior h))).
Proof.
  intros O E. unfold buildTtftFeatures. rewrite map_lookup_imap, E. cbn [mbind option_bind]. unfold featuresOf, CalibratedThroughputRatio. rewrite E.
  destruct (samples !! ip) as [s|] eqn:Sm; [|done]. set (ratio := match hCalibration h with Some _ => _ | None => _ end).
  destruct (fleb ratio (fofz 0)); [done|]. intros [= <-]. exists s. cbn [efLastUpdate efFeatures WaitingOverCapacity].
  split; [done|]. split; [done|]. subst ratio.
  destruct (bool_decide_reflect (ip ∈ fpVerified (VerifyEpoch ord reg samples v).2)) as [V|V]; rewrite VerifyEpoch_verified in V by done.
  - left. destruct V as (h' & E' & C). assert (h' = h) as -> by congruence. split; [done|]. destruct C as (decl & s' & C1 & _).
    exists decl. by rewrite C1.
  - right. split; [intros C; apply V; eauto|]. by destruct (hCalibration h).
Qed.

(** ** The index table *)

Definition slots (l : list (string * Host)) : list nat := (fun p => Z.to_nat (EpIdx p.2)) <$> l.

Definition fill (t : list string) (l : list (string * Host)) : list string := foldl (fun t p => <[Z.to_nat (EpIdx p.2) := p.1]> t) t l.

Lemma fill_other (l : list (string * Host)) (t : list string) i : i ∉ slots l -> fill t l !! i = t !! i.
Proof.
  revert t. induction l as [|[k h] l IH]; intros t Hi; [done|]. cbn [slots fmap list_fmap] in Hi. apply not_elem_of_cons in Hi as [H1 H2].
  cbn [fill foldl fst snd]. unfold fill in IH. rewrite IH by done. by rewrite list_lookup_insert_ne.
Qed.

Lemma fill_host (l : list (string * Host)) (t : list string) ip h :
  NoDup (slots l) -> Forall (fun k => (k < length t)%nat) (slots l) -> (ip, h) ∈ l -> fill t l !! Z.to_nat (EpIdx h) = Some ip.
Proof.
  revert t. induction l as [|[k hk] l IH]; intros t N F H; [by apply not_elem_of_nil in H|].
  apply NoDup_cons in N as [N1 N2]. apply Forall_cons in F as [F1 F2]. cbn [fst snd] in N1, F1.
  change (fill t ((k, hk) :: l)) with (fill (<[Z.to_nat (EpIdx hk) := k]> t) l).
  apply elem_of_cons in H as [[= -> ->]|H]; [|apply IH; [done|by rewrite length_insert|done]].
  rewrite fill_other by done. by apply list_lookup_insert_eq.
Qed.

Lemma maxIdx_bound (l : list (string * Host)) m ip h :
  (m <= foldl (fun m p => Nat.max m (Z.to_nat (EpIdx p.2))) m l)%nat /\
  ((ip, h) ∈ l -> (Z.to_nat (EpIdx h) <= foldl (fun m p => Nat.max m (Z.to_nat (EpIdx p.2))) m l)%nat).
Proof.
  revert m. induction l as [|[k hk] l IH]; intros m; cbn [foldl snd]; [split; [done|intros H; by apply not_elem_of_nil in H]|].
  destruct (IH (Nat.max m (Z.to_nat (EpIdx hk)))) as [A B]. split; [lia|]. intros [[= -> ->]|H]%elem_of_cons; [lia|by apply B].
Qed.

(** Every host is found at its index. *)
Lemma indexTable_host reg ord1 ord2 ip h :
  registry_ok reg -> (forall k x, Hosts reg !! k = Some x -> 0 <= EpIdx x) -> host_order_ok ord1 -> host_order_ok ord2 ->
  Hosts reg !! ip = Some h -> indexTable reg ord1 ord2 !! Z.to_nat (EpIdx h) = Some ip.
Proof.
  intros R P O1 O2 E. apply fill_host; [| |by apply host_order_elem].
  - unfold slots. apply NoDup_fmap_2_strong; [|apply (NoDup_fmap_1 fst), host_order_NoDup; done].
    intros [k1 h1] [k2 h2] H1 H2 Q. apply host_order_elem in H1, H2; [|done..]. cbn in Q.
    assert (k1 = k2) as ->. { eapply R; [done..|]. apply P in H1, H2. lia. } by assert (h1 = h2) as -> by congruence.
  - apply Forall_forall. intros j ([k x] & -> & H)%list_elem_of_fmap. rewrite length_replicate. unfold maxIdx.
    apply host_order_elem in H; [|done]. destruct (maxIdx_bound (ord1 (Hosts reg)) 0 k x) as [_ B]. cbn. apply Nat.lt_succ_r, B. by apply host_order_elem.
Qed.

Lemma mergeLMCacheLocked_samples ip raw at_ st : stSamples (mergeLMCacheLocked ip raw at_ st) = stSamples st.
Proof. unfold mergeLMCacheLocked. cbn zeta. repeat case_match; simplify_eq; done. Qed.

(** A sample is filed under the host whose index it carries, and under no other. *)
Lemma OnSample_host reg ord1 ord2 st ip h s :
  registry_ok reg -> (forall k x, Hosts reg !! k = Some x -> 0 <= EpIdx x) -> host_order_ok ord1 -> host_order_ok ord2 ->
  Hosts reg !! ip = Some h -> ip <> "" -> idxToIP st = indexTable reg ord1 ord2 ->
  stSamples (OnSample (EpIdx h) s st).1 = <[ip := s]> (stSamples st).
Proof.
  intros R P O1 O2 E Ne T. pose proof (indexTable_host reg ord1 ord2 ip h R P O1 O2 E) as L. rewrite <- T in L.
  pose proof (lookup_lt_Some _ _ _ L) as Lt. pose proof (P _ _ E) as Pos. unfold OnSample.
  rewrite (proj2 (Z.ltb_ge (EpIdx h) 0)) by lia. rewrite (proj2 (Z.leb_gt (Z.of_nat (length (idxToIP st))) (EpIdx h))) by lia.
  cbn [orb]. rewrite L. change (default "" (Some ip)) with ip. rewrite (proj2 (String.eqb_neq ip "") Ne).
  assert (D : stSamples (discover ip (NumGPUBlocks s) st).1 = stSamples st).
  { unfold discover. destruct (_ >? _); [|done]. destruct (ValidateDiscovery _ _ _) as [reg' m]. by destruct (Mismatched m). }
  destruct (discover ip (NumGPUBlocks s) st) as [st' warn]. cbn [fst] in D |- *. destruct (bool_decide _); cbn [stSamples]; [by rewrite D|].
  rewrite mergeLMCacheLocked_samples. cbn [stSamples]. by rewrite D.
Qed.

(** ** The whole tick *)

(** A tick from the store is a tick of the decision loop, at the same instant and with
    the same damping, when the optional cost terms are off. *)
Lemma controllerTick_is_loopTick Exp ordF ord1 ord2 ord3 ordB ordW nonce invert logRef readings now base st c reg :
  gReg (clGen (csLoop c)) = reg -> host_order_ok ord1 /\ host_order_ok ord2 /\ host_order_ok ord3 /\ host_order_ok ordB ->
  (forall ip h, Hosts reg !! ip = Some h -> positive_number (ServingThroughputPrior h)) ->
  0 <= MaxStepPct base < two32w -> factor_ok (EwmaAlpha base) -> LmcCostEnabled base = false -> TtftEnabled base = false ->
  let r := controllerTick Exp ordF ord1 ord2 ord3 ordB ordW nonce invert logRef readings now base st c in
  exists t, tick_ok reg t /\ eNow (tCfg t) = now /\ loopTick (csLoop c) t = (csLoop r.1, r.2).
Proof.
  intros R O Pr Ms Fa Lm Tt r. unfold r, controllerTick. destruct (VerifyEpoch _ _ _ _) as [v fp].
  set (feats := buildTtftFeatures _ _ _ _ _ _ _). destruct (match csMonitor c with Some _ => _ | None => _ end) as [mon delta].
  set (alpha := match mon with Some _ => _ | None => _ end).
  exists (TickIn ord1 ord2 ord3 ordB nonce invert (LastUpdate <$> stSamples st) (Some (lmcSamples st))
    (MkEngineConfig now (StaleBudget base) (HardStaleBudget base) (EwmaAlpha base) (DeadBand base) (MaxStepPct base)
      (LmcCostEnabled base) (LmcMaxPts base) (LmcStaleBudget base) (LmcInvert base) (TtftEnabled base) (TtftMaxPts base)
      (TtftStaleBudget base) (TtftInvert base) (cTtftModel base) alpha feats)).
  split; [constructor; try done; cbn; congruence|]. split; [done|]. unfold loopTick. cbn [tOrd1 tOrd2 tOrd3 tOrdB tNonce tInvert tSamples tLmc tCfg].
  by destruct (decisionTick _ _ _ _ _ _ _ _ _ _).
Qed.

(** A model that is loaded but has lost all confidence still floors the raw weight at 1,
    so the weights are not those of an engine without it. *)
Definition floorHost (prior : float64) (idx : Z) : Host := MkHost "gpu" RolePrefill 8000 idx 1000 prior None.
Definition floorReg : Registry := MkRegistry 1 "svc" 10 {["a" := floorHost (fofz 1) 0; "b" := floorHost (fofz 1000) 1]} ∅.
Definition floorModel : TtftModel := MkTtftModel 1 [TtftFeatIntercept; TtftFeatKvCacheUsagePerc] [fofz 0; fofz 1] true.
Definition floorCfg (model : option TtftModel) : EngineConfig :=
  MkEngineConfig Second 0 0 (fofz 0) (fofz 0) 0 false (fofz 0) 0 false true (fofz 0) 0 false model (fofz 0) ∅.
Definition floorWeight (model : option TtftModel) : option Z :=
  default ∅ (ComputeWeights map_to_list map_to_list map_to_list floorReg {["a" := Some 0; "b" := Some 0]} {["a" := 19; "b" := 100]} (floorCfg model) None).1 !! "a".

Lemma inert_term_still_floors : floorWeight None = Some 13 /\ floorWeight (Some floorModel) = Some 14.
Proof. split; vm_compute; reflexivity. Qed.

(** A model that predicts half of what is observed loses all confidence in five windows. *)
Definition exWindow : list ttftObs := [MkObs (fofz 0) (fofz 2)].
Definition exExp (_ : float64) : float64 := fofz 1.

Lemma exWindow_breach : breach exExp (flit 3 10) exWindow.
Proof. exists (fofz 1). split; [vm_compute; reflexivity|]. split; vm_compute; reflexivity. Qed.

Lemma confidence_witness : mAlpha (observeAll exExp (replicate 5 exWindow) (observeAll exExp [[]] (newTtftMonitor (fofz 0)))) = fofz 0.
Proof.
  destruct (confidence_follows_evidence exExp (fofz 0) [[]] (replicate 5 exWindow)) as (_ & _ & B & _). apply B; [reflexivity|].
  change (mThr (observeAll exExp [[]] (newTtftMonitor (fofz 0)))) with (flit 3 10). repeat constructor; exact exWindow_breach.
Defined.
